(* ===== verification/_CoqProject ===== *)
-Q . S2P
Prelude.v
Protocol.v
BlockCodec.v
Bitmap.v
BitmapSpec.v
Json.v
JsonText.v
CtrlCodec.v
EventLoop.v
SessionLink.v
TakeCode.v
Paths.v
FileIO.v
Manifest.v
Storage.v
Receiver.v
ReceiverProofs.v
Thread.v
Sender.v
SenderProofs.v
SenderProgress.v
EndToEnd.v
Peer.v
ReceiverDone.v
SenderCalls.v
TransferSession.v
TransferSessionProofs.v
Config.v
SessionSpec.v
Core.v
CoreLogic.v
CoreProofs.v
CoreQueue.v
Rtp.v
Pool.v
Dtls.v
Sdp.v
DataTransport.v
PeerConnection.v
PeerConnectionProofs.v
PeerConnectionRuns.v
Units.v
Feedback.v
PacketQueue.v
PacketQueueProofs.v
Prober.v
Pacer.v
PacerProofs.v
PacerRate.v
PacedSender.v
PacedSenderProofs.v
ProbeController.v
ProbeControllerProofs.v
FeedbackAdapter.v
