(* ===== verification/Prelude.v ===== *)
(** * CrossTransfer core: a verification development

    CrossTransfer sends files between two devices: a sender makes a share, the service hands out a take
    code, a receiver claims it, and a session between the two peers carries the files.  This development
    models the native core, [src/core/src/], and the parts of its transport library, [src/minirtc/src/], that carry
    its own logic, and proves what they promise.  Definitions keep the names of
    the source.

    ** The program and the files of the development

    From the disk up:

    - [Protocol] ([transfer/protocol.h]): the constants of the wire protocol.
    - [BlockCodec] ([transfer/block_codec.*]): data blocks and SACKs as bytes.
    - [Bitmap] ([transfer/bitmap.*]): the received-block bitmap on 64-bit words, its word-skipping scans
      with their 32-bit index.  [BitmapSpec]: the same as a finite set of block numbers.
    - [Json]: the interface to the JSON library and one instance of it.  [JsonText]: a second instance, with a
      printer and a parser of text; what it reads back has the non-negative integers as unsigned.
    - [CtrlCodec] ([transfer/ctrl_codec.*]): control messages cut into chunks and reassembled.
    - [EventLoop] ([runtime/event_loop.*]): the timed task queue of the core's single loop thread.
    - [SessionLink] ([runtime/session_link.*]): the reliable control queue of a session with its retries, and
      the routing of incoming datagrams.
    - [TakeCode] ([share/take_code.*]): the code a user types, and the links that carry it.
    - [Paths] ([transfer/path_sanitize.*]): what a path received from a peer may look like.
    - [FileIO] ([transfer/file_io.*], [transfer/sha256.*]): files over a model disk.
    - [Manifest] ([transfer/manifest.*]): the list of what a share contains, and its validation.
    - [Storage] ([storage/storage.*]): config.json and transfers.json.
    - [Receiver], [ReceiverProofs], [ReceiverDone] ([transfer/receiver.*]): the receiving engine.
    - [Thread]: computations that are interrupted by other threads at every shared access.
    - [Sender], [SenderProofs], [SenderProgress], [SenderCalls] ([transfer/sender.*]): the sending engine.
    - [EndToEnd]: both engines joined by an unreliable network.
    - [Peer] ([runtime/peer.*]): the adapter between the transport library and the loop.
    - [TransferSession], [TransferSessionProofs], [SessionSpec] ([share/transfer_session.*]): the state
      machine of one transfer, on both sides.
    - [Config] ([api/config.*]): settings, their merging and their JSON form.
    - [Core], [CoreLogic], [CoreProofs], [CoreQueue] ([api/core.*]): the object that owns everything above.

    The transport library ([src/minirtc/src/]), from the datagram up:

    - [Rtp] ([rtp/], [rtcp/rtcp_packet/rtcp_common_header.*]): RTP packets and RTCP headers, byte for byte.
    - [Units] ([common/api/units/], [common/rtc_base/numerics/]): times with infinities, unwrapped numbers.
    - [Feedback] ([rtcp/congestion_control_feedback.*], [qos/congestion_control_feedback_tracker.*]): the report
      of RFC 8888 and the tracker that fills it.
    - [PacketQueue], [PacketQueueProofs] ([qos/prioritized_packet_queue.*]): the queue of the pacer, and the queue
      of turns it refines.
    - [Prober] ([qos/bitrate_prober.*]): the clusters of probes.
    - [Pacer], [PacerProofs], [PacerRate] ([qos/pacing_controller.*]): when a packet may leave, what the pacer never
      does, and the rate it keeps with the settings of the data transport, with a stream to pad with or without.
    - [PacedSender], [PacedSenderProofs] ([transport/paced_sender/], [common/rtc_base/numerics/exp_filter.*]): the
      pacer on its task queue, with the delayed task that keeps it going and the numbers of the packets.
    - [ProbeController], [ProbeControllerProofs] ([qos/probe_controller.*]): when to probe for bandwidth and how high,
      with the rates scaled in binary64.
    - [FeedbackAdapter] ([qos/transport_feedback_adapter.*]): from reports to results and the bytes in flight.
    - [Pool]: threads that share a state, interrupted between any two of their actions, with one worker.
    - [Dtls] ([ice/dtls_transport.*]): the handshake, the check of the fingerprint and the keys.
    - [Sdp]: the lines of a session description as bytes.
    - [DataTransport] ([transport/data_transport.*], [srtp/]): named streams, KCP, RTP and SRTP over one path.
    - [PeerConnection], [PeerConnectionProofs], [PeerConnectionRuns] ([pc/peer_connection.*]): signalling and
      sessions under every interleaving of the threads, with the defaults of [api/minirtc.cpp].

    This file has what all of them share: integers of a given width, byte lists, slices, lemmas on lists
    and options, and the tactics.

    A user call enters [Core], which posts a task to its [EventLoop].  The task makes a share (building a
    [Manifest] from the disk) or claims a code, through [Peer].  When the service pairs two peers, [Core]
    makes a [TransferSession] with its [SessionLink]; the session exchanges offer and accept as control
    messages, then starts a [Sender] or a [Receiver].  Blocks and SACKs travel as datagrams; files are
    acknowledged and completion is announced on the control stream.  [Core] turns what sessions report
    into the states of shares and receives, which [Storage] keeps for the next start.

    ** How state and effects are modelled

    A machine integer is a [Z] with its wrap-around written out ([u8] to [u64], [i32], [i64]); a buffer is a
    list of bytes; a struct is a [Record], an enum an [Inductive].  A [double] is a [SpecFloat] binary64.
    Exceptions are values of a sum type: [Throw] in [Json], a failed computation in [Core], so that an
    exception nobody catches is visible as such.  Three ways of running code are used:

    - code confined to one thread is explicit state passing; runs are lists of events folded over the
      state, in any order ([Prelude.run_events], [Core.run_core]);
    - the sender thread is a [Thread.thread]: at each lock, clock reading, sleep and call to the link it takes
      the next element of a tape of inputs, which carries the calls other threads made meanwhile;
    - the objects of the transport library that several threads enter are computations of [Pool], one action
      per critical section or unsynchronised access; a schedule of threads is unconstrained, and invariants are
      proved with tokens that threads own.  A null pointer that is used is a fault of the schedule;
    - the pacer and its sender are computations of a state and an option: the readings of the clock, the padding,
      the forward error correction and the moment of a shutdown come from tapes, and [None] is a division by zero
      or a dangling pointer.  The loop of the pacer is bounded by its circuit breaker, that of the sender by fuel,
      and [PacedSenderProofs.sender_returns] says how much is enough.

    What leaves a component (datagrams, callbacks, calls of the library) is a list in its state, in order.
    What the environment answers (clock, random generator, system calls, the service, the transport
    library) is an input of the step, unconstrained unless a theorem says otherwise.

    Code outside the repository is a parameter: the JSON library is the class [Json.JsonLib] with the laws
    the code relies on (instances: [Json.JsonTree] and [JsonText]); SHA-256 is a function on bytes; the file system listing is
    [Manifest.FileSystem].  The hash theorems never assume that the hash is injective: they speak
    of the hash that was announced, or of an honest sender.

    ** What the theorems show

    - Integrity: a file the receiver puts in place is the file the sender announced, over any network
      ([EndToEnd.transfer_end_to_end]); what the sender puts on the wire is its source
      ([SenderProofs.sender_sends_source]); a marked block is stored
      ([ReceiverProofs.marked_blocks_stored]); against a hostile sender, only announced hashes are
      accepted ([ReceiverProofs.verified_hash_announced]) and no path leaves the save directory
      ([Paths.JoinSafe_contained], [Manifest.FromJson_sound]).
    - Completion: a session and a receive are reported completed only when every file is verified
      ([TransferSessionProofs.receiver_completes_verified], [CoreProofs.completed_receive_verified]); the
      states a session reports refine an abstract life cycle ([SessionSpec.session_refines_lifecycle]).
    - Coordination: one claim at a time ([CoreProofs.requests_one_at_a_time]), no claim left waiting without
      a reason ([CoreQueue.claims_never_idle]), no callback after [Close] ([Peer.closed_peer_silent]), no lost
      wake-up of the control queue ([SessionLink.link_no_lost_wakeup]).
    - Codecs and storage: round trips of blocks, SACKs, control streams, manifests, configuration and
      stored receives; the bitmap refines a set; a file is written whole or not at all.
    - Progress: the sending engine never loops without asking its environment, and a sweep offers every
      missing block ([SenderProgress]); the link gives up after 20 s and not before.
    - Transport: with SRTP nothing a session hands out is unprotected and nothing is reported as connected
      unverified, and an end is reported once, under every schedule ([PeerConnectionRuns]); what is sent was sealed
      and what is delivered was opened ([DataTransport.data_path_protected]); the two ends mirror their keys
      ([Dtls.keys_mirror]); a description is understood by its receiver; no datagram makes a parser read outside
      it ([Rtp.rtp_parse_in_bounds], [Feedback.feedback_parse_in_bounds]).
    - Feedback and pacing: a report is read back whatever it is cut into ([Feedback.feedback_roundtrip]) and says
      the truth about what came ([Feedback.tracker_reports]); the bytes in flight are those of the packets that no
      report passed ([FeedbackAdapter.in_flight_is_counted]); the queue of the pacer is a queue of turns
      ([PacketQueueProofs.queue_takes_turns]), loses nothing and starves no stream of a level; the prober keeps its
      bounds ([Prober.prober_calls_ok]); the pacer never faults ([PacerProofs.pacer_never_faults]), holds back what
      it must ([PacerProofs.held_back]) and sends no faster than its rate ([PacerRate.pacer_keeps_rate]); its
      sender comes back from every call ([PacedSenderProofs.sender_returns]), wakes itself again
      ([PacedSenderProofs.sender_stays_awake]) and numbers the packets as they leave
      ([PacedSenderProofs.numbers_follow_the_wire]); no probe exceeds the limits
      ([ProbeControllerProofs.probes_within_limits]) and the controller of the probes stays sound
      ([ProbeControllerProofs.controller_stays_sound]).
    - Where the code falls short: closed runs or general theorems named after what goes wrong
      ([Bitmap.HaveRuns_wraps], [CoreProofs.share_answer_crosses], [CoreProofs.config_update_lost],
      [TransferSessionProofs.accept_type_raises],
      [Dtls.late_start_unchecked], [DataTransport.missing_stream_accepted], [Rtp.packetize_repeats],
      [PeerConnectionRuns.relay_wait_never_ends], [PeerConnectionRuns.closed_then_connected],
      [PeerConnectionRuns.stale_handshake_ends_session], [PeerConnectionRuns.early_frame_crashes],
      [Feedback.duplicate_last_arrival], [ProbeControllerProofs.reconnection_ends_probing],
      [ProbeControllerProofs.limits_at_infinity_end_probing], [FeedbackAdapter.reused_number_finds_old]).

    ** Fuel

    Loops that are not structural take fuel computed from their arguments, and a theorem says it is
    enough: the bitmap scans take one unit per block or word; [SplitCtrlMessage] one per byte of the message
    plus one; the loops of [FileIO] follow the script of system answers or take one per byte; those of
    [Paths] one per byte, and for a unique name the 10000 attempts of the source; the pumps of
    [Core] one per queued element ([CoreQueue]).  The sender's loops take their fuel from the tape of inputs:
    each turn consumes at least one input ([SenderProgress.Run_suspended]), so the fuel never ends first.  The
    parsers of [Rtp] and [Feedback] take one unit per byte, the fragments of a report one per packet, and the purge
    of a queue one per packet it has.  The loop of [PacedSender] takes one per packet that waits and three more
    ([PacedSenderProofs.sender_returns]).

    ** Not modelled

    - Logging ([src/core/src/log/log.*]), which only formats text, and the C wrappers of [api/], which convert strings and
      forward to [Core].
    - [EventLoop::RunSync] and the wait at the end of [Core::Shutdown], which only block a thread.
    - The Windows branches of [FileIO] and [Paths], and the text of system errors.
    - Of the transport library: the wrappers of libjuice ([ice/ice_agent.cpp]) and of websocketpp ([ws/]), which are
      answers of the environment to [PeerConnection]; the estimation of the bandwidth ([qos/congestion_control.cpp],
      [qos/send_side_bandwidth_estimation.cc] and what they use), which is an answer to [DataTransport]; clocks and
      threads ([thread/], [common/]).  [DataTransport] takes the pacer as answers and outputs too: [PacedSender],
      [ProbeController] and [FeedbackAdapter] stand on their own, with the calls made of them as their input.  Of [Units] only what
      the modelled parts use.
    - The command line client, the signalling server (Go) and the user interface (Dart). *)
From stdpp Require Export base tactics numbers list gmap strings sorting.
From Stdlib Require Export ZArith Lia.

#[global] Open Scope Z_scope.

(** ** Machine integers

    A w-bit unsigned integer of the source is a [Z] in [0, 2^w); the wrap-around of an
    arithmetic result or of a [static_cast] is written out with these functions. *)

Definition u8 (x : Z) : Z := x mod 2 ^ 8.
Definition u16 (x : Z) : Z := x mod 2 ^ 16.
Definition u32 (x : Z) : Z := x mod 2 ^ 32.
Definition u64 (x : Z) : Z := x mod 2 ^ 64.

Definition in_u8 (x : Z) : Prop := 0 <= x < 2 ^ 8.
Definition in_u16 (x : Z) : Prop := 0 <= x < 2 ^ 16.
Definition in_u32 (x : Z) : Prop := 0 <= x < 2 ^ 32.
Definition in_u64 (x : Z) : Prop := 0 <= x < 2 ^ 64.

(** [static_cast<int64_t>] of an unsigned 64-bit value, two's complement. *)
Definition i64 (x : Z) : Z := (x + 2 ^ 63) mod 2 ^ 64 - 2 ^ 63.
(** [static_cast<int32_t>] / [int]. *)
Definition i32 (x : Z) : Z := (x + 2 ^ 31) mod 2 ^ 32 - 2 ^ 31.

(** ** Buffers: a [std::vector<uint8_t>] or a (pointer, length) pair is a list of bytes. *)

Abbreviation bytes := (list Z).
Definition is_bytes (l : bytes) : Prop := Forall in_u8 l.

Definition zlen {A} (l : list A) : Z := Z.of_nat (length l).
Definition ztake {A} (n : Z) (l : list A) : list A := take (Z.to_nat n) l.
Definition zdrop {A} (n : Z) (l : list A) : list A := drop (Z.to_nat n) l.
(** [slice off n l]: the [n] elements from offset [off] (fewer at the end). *)
Definition slice {A} (off n : Z) (l : list A) : list A := ztake n (zdrop off l).
(** [l[i]] for an index known to be in range. *)
Definition znth (l : bytes) (i : Z) : Z := nth (Z.to_nat i) l 0.

(** Overwrites the bytes of [l] from offset [off] with [d], extending [l] with zeroes when
    it is shorter, as [pwrite] does. *)
Definition overwrite (off : Z) (d l : bytes) : bytes :=
  match d with
  | [] => l
  | _ => ztake off (l ++ replicate (Z.to_nat (off - zlen l)) 0) ++ d ++ zdrop (off + zlen d) l
  end.

(** The bytes of a [std::string] and back. *)
Definition byte_of_ascii (a : Ascii.ascii) : Z := Z.of_N (Ascii.N_of_ascii a).
Definition ascii_of_byte (b : Z) : Ascii.ascii := Ascii.ascii_of_N (Z.to_N b).
Fixpoint sbytes (s : string) : bytes :=
  match s with
  | EmptyString => []
  | String a s => byte_of_ascii a :: sbytes s
  end.
Fixpoint of_sbytes (l : bytes) : string :=
  match l with
  | [] => EmptyString
  | b :: l => String (ascii_of_byte b) (of_sbytes l)
  end.
Definition slen (s : string) : Z := zlen (sbytes s).

(** *** [std::string_view] searches; [None] is [npos] *)

Fixpoint starts_with (p s : bytes) : bool :=
  match p, s with
  | [], _ => true
  | a :: p, b :: s => (a =? b) && starts_with p s
  | _, _ => false
  end.
(** [s.find(p)] *)
Fixpoint find_sub (p s : bytes) : option Z :=
  if starts_with p s then Some 0 else
  match s with
  | [] => None
  | _ :: s => match find_sub p s with Some i => Some (1 + i) | None => None end
  end.
(** The first position whose byte satisfies [f]: [s.find(c)], [s.find_first_of(set)]. *)
Fixpoint find_byte (f : Z -> bool) (s : bytes) : option Z :=
  match s with
  | [] => None
  | b :: s => if f b then Some 0
              else match find_byte f s with Some i => Some (1 + i) | None => None end
  end.
(** [s.rfind(c)] *)
Fixpoint rfind_byte (f : Z -> bool) (s : bytes) : option Z :=
  match s with
  | [] => None
  | b :: s => match rfind_byte f s with
              | Some i => Some (1 + i)
              | None => if f b then Some 0 else None
              end
  end.

(** ** Calls that may raise a C++ exception *)

Inductive outcome (A : Type) : Type :=
| Ret (a : A)
| Throw.
Arguments Ret {A} a.
Arguments Throw {A}.

#[global] Instance outcome_ret : MRet outcome := fun A a => Ret a.
#[global] Instance outcome_bind : MBind outcome := fun A B f m =>
  match m with Ret a => f a | Throw => Throw end.

Definition returns {A} (m : outcome A) : bool :=
  match m with Ret _ => true | Throw => false end.

Fixpoint omapM {A B} (f : A -> outcome B) (l : list A) : outcome (list B) :=
  match l with
  | [] => Ret []
  | x :: l => y ← f x; ys ← omapM f l; Ret (y :: ys)
  end.

(** A validation: a value, an error message, or an exception. *)
Inductive result (A : Type) : Type :=
| Ok (a : A)
| Fail (error : string)
| Raise.
Arguments Ok {A} a.
Arguments Fail {A} error.
Arguments Raise {A}.

#[global] Instance result_ret : MRet result := fun A a => Ok a.
#[global] Instance result_bind : MBind result := fun A B f m =>
  match m with Ok a => f a | Fail e => Fail e | Raise => Raise end.

Definition lift {A} (m : outcome A) : result A :=
  match m with Ret a => Ok a | Throw => Raise end.

(** ** [std::map]: an association list in key order *)

Section ordered_map.
Context {K V : Type} (ltb eqb : K -> K -> bool).

Fixpoint om_find (k : K) (m : list (K * V)) : option V :=
  match m with
  | [] => None
  | (k', v) :: m => if eqb k k' then Some v else om_find k m
  end.
(** [m[k] = v] *)
Fixpoint om_set (k : K) (v : V) (m : list (K * V)) : list (K * V) :=
  match m with
  | [] => [(k, v)]
  | (k', v') :: m =>
      if eqb k k' then (k, v) :: m
      else if ltb k k' then (k, v) :: (k', v') :: m
      else (k', v') :: om_set k v m
  end.
Fixpoint om_erase (k : K) (m : list (K * V)) : list (K * V) :=
  match m with
  | [] => []
  | (k', v) :: m => if eqb k k' then m else (k', v) :: om_erase k m
  end.
End ordered_map.

(** Maps with integer and with string keys. *)
Definition zm_find {V} := @om_find Z V Z.eqb.
Definition zm_set {V} := @om_set Z V Z.ltb Z.eqb.
Definition zm_erase {V} := @om_erase Z V Z.eqb.
Definition sm_find {V} := @om_find string V String.eqb.
Definition sm_set {V} := @om_set string V String.ltb String.eqb.
Definition sm_erase {V} := @om_erase string V String.eqb.

(** ** Record update: [r <| field := v |>] and [r <| field ::= f |>]

    A record type declares its eta expansion once; the update of each field is derived from it. *)

Class Eta (R : Type) := eta : R -> R.
Class Field {R T : Type} (proj : R -> T) := upd_field : (T -> T) -> R -> R.
Arguments upd_field {R T} proj {_} f r.

Ltac build_field :=
  match goal with
  | |- @Field ?R ?T ?proj =>
      let inst := constr:(_ : Eta R) in
      let expand := eval red in inst in
      exact (fun (f : T -> T) (x : R) =>
        ltac:(let body := eval cbv beta in (expand x) in
              let body := eval pattern (proj x) in body in
              match body with
              | ?g _ => let updated := eval cbv beta in (g (f (proj x))) in exact updated
              end))
  end.
#[export] Hint Extern 1 (Field _) => build_field : typeclass_instances.

Notation "r <| f := v |>" := (upd_field f (fun _ => v) r) (at level 12, left associativity).
Notation "r <| f ::= g |>" := (upd_field f g r) (at level 12, left associativity).

(** ** Reachability: the reflexive transitive closure of a step function over events *)

Fixpoint run_events {S E} (step : S -> E -> S) (s : S) (es : list E) : S :=
  match es with
  | [] => s
  | e :: es => run_events step (step s e) es
  end.

(** ** Tactics *)

(** Splits every boolean test on integers of the context into the linear fact it decides. *)
Ltac zbool :=
  repeat match goal with
  | H : (_ && _)%bool = true |- _ => apply andb_true_iff in H; destruct H
  | H : (_ || _)%bool = false |- _ => apply orb_false_iff in H; destruct H
  | H : negb _ = true |- _ => apply negb_true_iff in H
  | H : negb _ = false |- _ => apply negb_false_iff in H
  | H : (_ =? _) = true |- _ => apply Z.eqb_eq in H
  | H : (_ =? _) = false |- _ => apply Z.eqb_neq in H
  | H : (_ <? _) = true |- _ => apply Z.ltb_lt in H
  | H : (_ <? _) = false |- _ => apply Z.ltb_ge in H
  | H : (_ <=? _) = true |- _ => apply Z.leb_le in H
  | H : (_ <=? _) = false |- _ => apply Z.leb_gt in H
  | H : (_ >? _) = true |- _ => rewrite Z.gtb_ltb in H
  | H : (_ >? _) = false |- _ => rewrite Z.gtb_ltb in H
  | H : (_ >=? _) = true |- _ => rewrite Z.geb_leb in H
  | H : (_ >=? _) = false |- _ => rewrite Z.geb_leb in H
  end.

(** Case analysis on the scrutinee of the innermost test of the goal. *)
Ltac case_if :=
  match goal with
  | |- context [if ?b then _ else _] =>
      lazymatch b with
      | context [if _ then _ else _] => fail
      | _ => destruct b eqn:?
      end
  end.

Ltac case_if_in H :=
  match type of H with
  | context [if ?b then _ else _] =>
      lazymatch b with
      | context [if _ then _ else _] => fail
      | _ => destruct b eqn:?
      end
  end.

(** Inverts [H : m = Ok a] through the tests and binds of [m]. *)
Ltac ok_inv H :=
  repeat match type of H with
  | (if decide _ then _ else _) = Ok _ => case_decide; [discriminate H|]
  | (if ?b then _ else _) = Ok _ => let E := fresh "E" in destruct b eqn:E; [discriminate H|]
  | (if ?b then _ else _) = Ok _ => let E := fresh "E" in destruct b eqn:E; [|discriminate H]
  end.

(** Linear arithmetic through the length and width abbreviations. *)
Ltac zlia :=
  unfold zlen, in_u8, in_u16, in_u32, in_u64 in *; lia.

(** Evaluates [Z.to_nat] on literals. *)
Ltac tonat :=
  repeat match goal with
  | |- context [Z.to_nat (Zpos ?p)] =>
      let n := eval vm_compute in (Z.to_nat (Zpos p)) in change (Z.to_nat (Zpos p)) with n
  | |- context [Z.to_nat 0] => change (Z.to_nat 0) with 0%nat
  | H : context [Z.to_nat (Zpos ?p)] |- _ =>
      let n := eval vm_compute in (Z.to_nat (Zpos p)) in change (Z.to_nat (Zpos p)) with n in H
  | H : context [Z.to_nat 0] |- _ => change (Z.to_nat 0) with 0%nat in H
  end.

(** ** Lemmas on widths *)

Create HintDb ct discriminated.
Create Rewrite HintDb zlen.
Create Rewrite HintDb json.

Lemma u8_small x : in_u8 x -> u8 x = x.
Proof. intros H. apply Z.mod_small, H. Qed.
Lemma u16_small x : in_u16 x -> u16 x = x.
Proof. intros H. apply Z.mod_small, H. Qed.
Lemma u32_small x : in_u32 x -> u32 x = x.
Proof. intros H. apply Z.mod_small, H. Qed.
Lemma u64_small x : in_u64 x -> u64 x = x.
Proof. intros H. apply Z.mod_small, H. Qed.

Lemma u8_range x : in_u8 (u8 x).
Proof. apply Z.mod_pos_bound. lia. Qed.
Lemma u16_range x : in_u16 (u16 x).
Proof. apply Z.mod_pos_bound. lia. Qed.
Lemma u32_range x : in_u32 (u32 x).
Proof. apply Z.mod_pos_bound. lia. Qed.
Lemma u64_range x : in_u64 (u64 x).
Proof. apply Z.mod_pos_bound. lia. Qed.

#[export] Hint Resolve u8_range u16_range u32_range u64_range : ct.

Lemma lor_shiftl_add a b k : 0 <= k -> 0 <= b < 2 ^ k -> Z.lor (Z.shiftl a k) b = a * 2 ^ k + b.
Proof.
  intros Hk Hb. rewrite <- Z.add_lor_land, Z.shiftl_mul_pow2 by lia.
  enough (Z.land (a * 2 ^ k) b = 0) by lia.
  apply Z.bits_inj'. intros i Hi.
  rewrite Z.land_spec, Z.bits_0, <- Z.shiftl_mul_pow2 by lia.
  destruct (decide (i < k)).
  - by rewrite Z.shiftl_spec_low.
  - destruct (decide (b = 0)) as [->|]; [by rewrite Z.bits_0, andb_false_r|].
    rewrite (Z.bits_above_log2 b i); [apply andb_false_r | lia |].
    apply Z.log2_lt_pow2; [lia|].
    assert (2 ^ k <= 2 ^ i) by (apply Z.pow_le_mono_r; lia). lia.
Qed.

(** A property of bytes checked on all 256 of them. *)
Lemma all_bytes (P : Z -> bool) :
  forallb P (seqZ 0 256) = true -> forall c, in_u8 c -> P c = true.
Proof.
  intros H c Hc. rewrite forallb_forall in H. apply H. apply list_elem_of_In, elem_of_seqZ.
  unfold in_u8 in Hc. lia.
Qed.

(** ** Lemmas on lists indexed by [Z] *)

Lemma zlen_nonneg {A} (l : list A) : 0 <= zlen l.
Proof. unfold zlen. lia. Qed.

Lemma zlen_nil {A} : zlen ([] : list A) = 0.
Proof. reflexivity. Qed.

Lemma zlen_cons {A} (x : A) l : zlen (x :: l) = 1 + zlen l.
Proof. unfold zlen. simpl. lia. Qed.

Lemma zlen_app {A} (l k : list A) : zlen (l ++ k) = zlen l + zlen k.
Proof. unfold zlen. rewrite length_app. lia. Qed.

Lemma zlen_ztake {A} n (l : list A) : zlen (ztake n l) = Z.min (Z.max 0 n) (zlen l).
Proof. unfold zlen, ztake. rewrite length_take. lia. Qed.

Lemma zlen_zdrop {A} n (l : list A) : zlen (zdrop n l) = Z.max 0 (zlen l - Z.max 0 n).
Proof. unfold zlen, zdrop. rewrite length_drop. lia. Qed.

Lemma zlen_replicate {A} n (x : A) : zlen (replicate n x) = Z.of_nat n.
Proof. unfold zlen. by rewrite length_replicate. Qed.

Lemma zlen_nil_inv {A} (l : list A) : zlen l = 0 -> l = [].
Proof. unfold zlen. destruct l; simpl; [done | lia]. Qed.

#[export] Hint Rewrite @zlen_nil @zlen_cons @zlen_app @zlen_ztake @zlen_zdrop
  @zlen_replicate : zlen.

Ltac zlen_simpl := autorewrite with zlen in *.

Lemma ztake_zdrop {A} n (l : list A) : ztake n l ++ zdrop n l = l.
Proof. apply take_drop. Qed.

Lemma ztake_app {A} n (l k : list A) : zlen l = n -> ztake n (l ++ k) = l.
Proof. intros <-. unfold ztake, zlen. rewrite Nat2Z.id. apply take_app_length. Qed.

Lemma zdrop_app {A} n (l k : list A) : zlen l = n -> zdrop n (l ++ k) = k.
Proof. intros <-. unfold zdrop, zlen. rewrite Nat2Z.id. apply drop_app_length. Qed.

Lemma ztake_all {A} n (l : list A) : zlen l <= n -> ztake n l = l.
Proof. intros H. unfold ztake, zlen in *. apply take_ge. lia. Qed.

Lemma zdrop_all {A} n (l : list A) : zlen l <= n -> zdrop n l = [].
Proof. intros H. unfold zdrop, zlen in *. apply drop_ge. lia. Qed.

Lemma zdrop_zdrop {A} n m (l : list A) :
  0 <= n -> 0 <= m -> zdrop n (zdrop m l) = zdrop (m + n) l.
Proof. intros. unfold zdrop. rewrite drop_drop. f_equal. lia. Qed.

Lemma lookup_slice {A} off n (l : list A) i :
  0 <= off -> (i < Z.to_nat n)%nat -> slice off n l !! i = l !! (Z.to_nat off + i)%nat.
Proof.
  intros. unfold slice, ztake, zdrop.
  rewrite lookup_take. case_decide; [|lia]. by rewrite lookup_drop.
Qed.

Lemma slice_split {A} off n m (l : list A) :
  0 <= off -> 0 <= n -> 0 <= m -> slice off (n + m) l = slice off n l ++ slice (off + n) m l.
Proof.
  intros. unfold slice, ztake, zdrop.
  replace (Z.to_nat (off + n)) with (Z.to_nat off + Z.to_nat n)%nat by lia.
  rewrite <- drop_drop.
  replace (Z.to_nat (n + m)) with (Z.to_nat n + Z.to_nat m)%nat by lia.
  by rewrite take_take_drop.
Qed.

Lemma zlen_slice {A} off n (l : list A) :
  0 <= off -> 0 <= n -> zlen (slice off n l) = Z.max 0 (Z.min n (zlen l - off)).
Proof. intros. unfold slice. zlen_simpl. lia. Qed.

Lemma is_bytes_app l k : is_bytes (l ++ k) <-> is_bytes l /\ is_bytes k.
Proof. apply Forall_app. Qed.

Lemma is_bytes_ztake n l : is_bytes l -> is_bytes (ztake n l).
Proof. apply Forall_take. Qed.

Lemma is_bytes_zdrop n l : is_bytes l -> is_bytes (zdrop n l).
Proof. apply Forall_drop. Qed.

#[export] Hint Resolve is_bytes_ztake is_bytes_zdrop : ct.

(** *** Overwriting *)

(** Byte [i] of an overwritten buffer. *)
Lemma lookup_overwrite off d l i : 0 <= off -> d <> [] ->
  overwrite off d l !! i =
    if decide (Z.to_nat off <= i < Z.to_nat off + length d)%nat then d !! (i - Z.to_nat off)%nat
    else if decide (i < length l)%nat then l !! i
    else if decide (i < Z.to_nat off)%nat then Some 0 else None.
Proof.
  intros Ho Hd. unfold overwrite. destruct d as [|x d]; [done|]. remember (x :: d) as k. clear Heqk Hd x d.
  assert (Hlen : length (ztake off (l ++ replicate (Z.to_nat (off - zlen l)) 0)) = Z.to_nat off).
  { unfold ztake, zlen. rewrite length_take, length_app, length_replicate. lia. }
  destruct (decide (i < Z.to_nat off)%nat) as [Hi|Hi].
  - rewrite decide_False by lia. rewrite lookup_app_l by lia. unfold ztake. rewrite lookup_take.
    rewrite decide_True by lia. destruct (decide (i < length l)%nat).
    + by rewrite lookup_app_l by lia.
    + rewrite lookup_app_r by lia. rewrite lookup_replicate_2; [done|]. unfold zlen. lia.
  - rewrite lookup_app_r by lia. rewrite Hlen.
    destruct (decide (i - Z.to_nat off < length k)%nat).
    + rewrite lookup_app_l by lia. by rewrite decide_True by lia.
    + rewrite lookup_app_r by lia. rewrite decide_False by lia. unfold zdrop. rewrite lookup_drop.
      replace (Z.to_nat (off + zlen k) + (i - Z.to_nat off - length k))%nat with i by (unfold zlen; lia).
      destruct (decide (i < length l)%nat); [done|]. apply lookup_ge_None. lia.
Qed.

Lemma zlen_overwrite off d l : 0 <= off -> d <> [] -> zlen (overwrite off d l) = Z.max (zlen l) (off + zlen d).
Proof.
  intros Ho Hd. unfold overwrite. destruct d as [|x d]; [done|]. zlen_simpl.
  pose proof (zlen_nonneg l). pose proof (zlen_nonneg d). lia.
Qed.

Lemma overwrite_nil off l : overwrite off [] l = l.
Proof. done. Qed.

(** Two adjacent writes are one. *)
Lemma overwrite_app off a b l : 0 <= off ->
  overwrite (off + zlen a) b (overwrite off a l) = overwrite off (a ++ b) l.
Proof.
  intros Ho. destruct (decide (a = [])) as [->|Ha]; [by rewrite zlen_nil, Z.add_0_r|].
  destruct (decide (b = [])) as [->|Hb]; [by rewrite app_nil_r|].
  apply list_eq. intros i. pose proof (zlen_nonneg a). rewrite !lookup_overwrite by (done || lia || by destruct a).
  assert (Hl : length (overwrite off a l) = Nat.max (length l) (Z.to_nat off + length a)).
  { pose proof (zlen_overwrite off a l Ho Ha). unfold zlen in *. lia. }
  rewrite Hl, length_app. replace (Z.to_nat (off + zlen a)) with (Z.to_nat off + length a)%nat by (unfold zlen; lia).
  repeat case_decide; try lia; try done.
  - rewrite lookup_app_r by lia. f_equal. lia.
  - by rewrite lookup_app_l by lia.
Qed.

(** Reading back what was written, and bytes outside the write. *)
Lemma slice_overwrite off d l : 0 <= off -> slice off (zlen d) (overwrite off d l) = d.
Proof.
  intros Ho. destruct (decide (d = [])) as [->|Hd]; [done|]. unfold overwrite. destruct d as [|x d]; [done|].
  remember (x :: d) as k. unfold slice. rewrite zdrop_app by (zlen_simpl; pose proof (zlen_nonneg l); lia).
  by apply ztake_app.
Qed.

Lemma slice_overwrite_disjoint off d l o n : 0 <= off -> 0 <= o -> 0 <= n ->
  o + n <= off \/ off + zlen d <= o -> o + n <= zlen l ->
  slice o n (overwrite off d l) = slice o n l.
Proof.
  intros Ho Ho' Hn Hd Hl. destruct (decide (d = [])) as [->|Hne]; [done|].
  apply list_eq. intros i. unfold slice, ztake, zdrop. rewrite !lookup_take, !lookup_drop.
  case_decide; [|done]. rewrite lookup_overwrite by done. unfold zlen in *.
  repeat case_decide; try lia; done.
Qed.

(** ** Lemmas on [std::string] bytes *)

Lemma ascii_of_byte_of_ascii a : ascii_of_byte (byte_of_ascii a) = a.
Proof. unfold ascii_of_byte, byte_of_ascii. rewrite N2Z.id. apply Ascii.ascii_N_embedding. Qed.

Lemma byte_of_ascii_of_byte b : in_u8 b -> byte_of_ascii (ascii_of_byte b) = b.
Proof.
  intros H. unfold ascii_of_byte, byte_of_ascii.
  rewrite Ascii.N_ascii_embedding; unfold in_u8 in H; lia.
Qed.

Lemma byte_of_ascii_range a : in_u8 (byte_of_ascii a).
Proof. unfold byte_of_ascii. pose proof (Ascii.N_ascii_bounded a). unfold in_u8. lia. Qed.

Lemma of_sbytes_sbytes s : of_sbytes (sbytes s) = s.
Proof. induction s; simpl; [done|]. by rewrite ascii_of_byte_of_ascii, IHs. Qed.

Lemma sbytes_of_sbytes l : is_bytes l -> sbytes (of_sbytes l) = l.
Proof.
  induction 1; simpl; [done|]. by rewrite byte_of_ascii_of_byte, IHForall.
Qed.

Lemma sbytes_is_bytes s : is_bytes (sbytes s).
Proof. induction s; simpl; constructor; [apply byte_of_ascii_range | done]. Qed.

Lemma sbytes_inj s t : sbytes s = sbytes t -> s = t.
Proof. intros H. by rewrite <- (of_sbytes_sbytes s), H, of_sbytes_sbytes. Qed.

#[export] Instance sbytes_injective : Inj (=) (=) sbytes := sbytes_inj.

Lemma sbytes_app s t : sbytes (s +:+ t) = sbytes s ++ sbytes t.
Proof. induction s; simpl; [done|]. by rewrite IHs. Qed.

Lemma of_sbytes_app l k : of_sbytes (l ++ k) = of_sbytes l +:+ of_sbytes k.
Proof. induction l; simpl; [done|]. by rewrite IHl. Qed.

#[export] Hint Resolve sbytes_is_bytes byte_of_ascii_range : ct.

(** ** Lemmas on searches *)

Lemma starts_with_app p s : starts_with p (p ++ s) = true.
Proof. induction p; cbn; [done|]. by rewrite Z.eqb_refl. Qed.

Lemma find_byte_none f s : find_byte f s = None <-> Forall (fun b => f b = false) s.
Proof.
  induction s as [|b s IH]; cbn; [split; done|]. rewrite Forall_cons.
  destruct (f b); [split; [done|by intros [? ?]]|].
  destruct (find_byte f s); [split; [done|]|by rewrite <- IH].
  intros [_ H]. apply IH in H. done.
Qed.

Lemma find_byte_some f s i : find_byte f s = Some i ->
  exists l b r, s = l ++ b :: r /\ zlen l = i /\ f b = true /\ Forall (fun b => f b = false) l.
Proof.
  revert i. induction s as [|b s IH]; intros i; cbn; [done|]. destruct (f b) eqn:E.
  - intros [= <-]. by exists [], b, s.
  - destruct (find_byte f s) as [j|]; [|done]. intros [= <-].
    destruct (IH j eq_refl) as (l & c & r & -> & Hl & Hc & Hf).
    exists (b :: l), c, r. rewrite zlen_cons. repeat split; [lia|done|by constructor].
Qed.

Lemma find_byte_app f l b r :
  Forall (fun b => f b = false) l -> f b = true -> find_byte f (l ++ b :: r) = Some (zlen l).
Proof.
  induction 1 as [|a l Ha _ IH]; intros Hb; cbn; [by rewrite Hb|]. rewrite Ha, IH by done.
  by rewrite zlen_cons.
Qed.

(** A byte that no text contains, at the front of the pattern: the first match. *)
Lemma find_sub_app a p l r :
  Forall (fun b => b <> a) l -> find_sub (a :: p) (l ++ (a :: p) ++ r) = Some (zlen l).
Proof.
  induction 1 as [|b l Hb _ IH].
  - pose proof (starts_with_app (a :: p) r) as H. cbn [app find_sub] in *. by rewrite H.
  - cbn [app find_sub starts_with]. rewrite (proj2 (Z.eqb_neq a b)) by done. cbn [andb].
    cbn [app] in IH. by rewrite IH, zlen_cons.
Qed.

Lemma starts_with_some p s : starts_with p s = true -> exists r, s = p ++ r.
Proof.
  revert s. induction p as [|a p IH]; intros [|b s]; cbn; try done; [by exists []|by exists (b :: s)|].
  intros H. zbool. subst b. destruct (IH s) as [r ->]; [done|]. by exists r.
Qed.

Lemma find_sub_some p s i : find_sub p s = Some i -> exists l r, s = l ++ p ++ r /\ zlen l = i.
Proof.
  revert i. induction s as [|b s IH]; intros i; cbn [find_sub]; destruct (starts_with p _) eqn:E; try done.
  - intros [= <-]. apply starts_with_some in E as [r ->]. by exists [], r.
  - intros [= <-]. apply starts_with_some in E as [r ->]. by exists [], r.
  - destruct (find_sub p s) as [j|]; [|done]. intros [= <-].
    destruct (IH j eq_refl) as (l & r & -> & Hl). exists (b :: l), r. rewrite zlen_cons. split; [done|lia].
Qed.

(** ** Lemmas on exceptions and event runs *)

Lemma bind_ret_inv {A B} (m : outcome A) (f : A -> outcome B) b :
  m ≫= f = Ret b -> exists a, m = Ret a /\ f a = Ret b.
Proof. destruct m; simpl; [eauto | discriminate]. Qed.

Lemma result_bind_inv {A B} (m : result A) (f : A -> result B) b :
  m ≫= f = Ok b -> exists a, m = Ok a /\ f a = Ok b.
Proof. destruct m; simpl; [eauto | discriminate | discriminate]. Qed.

Lemma lift_inv {A} (m : outcome A) a : lift m = Ok a -> m = Ret a.
Proof. destruct m; simpl; [by intros [= ->] | discriminate]. Qed.

Lemma run_events_app {S E} (step : S -> E -> S) s es fs :
  run_events step s (es ++ fs) = run_events step (run_events step s es) fs.
Proof. revert s. induction es; simpl; auto. Qed.

(** Rule induction on event runs: an invariant of every step holds along every run. *)
Lemma run_events_ind {S E} (step : S -> E -> S) (I : S -> Prop) :
  (forall s e, I s -> I (step s e)) -> forall es s, I s -> I (run_events step s es).
Proof. intros Hstep es. induction es; simpl; auto. Qed.

(** ** Lemmas on ordered maps *)

Section ordered_map_lemmas.
Context {K V : Type} (ltb eqb : K -> K -> bool) (eqb_spec : forall a b, reflect (a = b) (eqb a b)).
Implicit Types (m : list (K * V)) (k : K) (v : V).

Lemma om_find_elem k v m : om_find eqb k m = Some v -> (k, v) ∈ m.
Proof.
  induction m as [|[k' v'] m IH]; cbn; [done|]. destruct (eqb_spec k k') as [->|].
  - intros [= ->]. by left.
  - intros H. right. by apply IH.
Qed.

Lemma om_set_elem k v m e : e ∈ om_set ltb eqb k v m -> e = (k, v) \/ e ∈ m.
Proof.
  induction m as [|[k' v'] m IH]; cbn; [intros H; left; by apply list_elem_of_singleton in H|].
  destruct (eqb k k'); [|destruct (ltb k k')]; intros H.
  - apply elem_of_cons in H as [->|H]; [by left|right; by right].
  - apply elem_of_cons in H as [->|H]; [by left|by right].
  - apply elem_of_cons in H as [->|H]; [right; by left|]. destruct (IH H) as [?|?]; [by left|right; by right].
Qed.

Lemma om_erase_elem k m e : e ∈ om_erase eqb k m -> e ∈ m.
Proof.
  induction m as [|[k' v'] m IH]; cbn; [done|]. destruct (eqb k k'); intros H; [by right|].
  apply elem_of_cons in H as [->|H]; [by left|right; by apply IH].
Qed.

Lemma om_find_set k v m : om_find eqb k (om_set ltb eqb k v m) = Some v.
Proof.
  assert (Hr : eqb k k = true) by (by destruct (eqb_spec k k)).
  induction m as [|[k' v'] m IH]; cbn; [by rewrite Hr|].
  destruct (eqb k k') eqn:E; cbn; [by rewrite Hr|]. destruct (ltb k k'); cbn; [by rewrite Hr|by rewrite E].
Qed.

Lemma om_find_set_ne k k' v m : k' <> k -> om_find eqb k' (om_set ltb eqb k v m) = om_find eqb k' m.
Proof.
  intros Hne. induction m as [|[k1 v1] m IH]; cbn; [by destruct (eqb_spec k' k)|].
  destruct (eqb_spec k k1) as [->|]; cbn; [by destruct (eqb_spec k' k1)|].
  destruct (ltb k k1); cbn; [by destruct (eqb_spec k' k)|]. by rewrite IH.
Qed.

Lemma om_find_erase_ne k k' m : k' <> k -> om_find eqb k' (om_erase eqb k m) = om_find eqb k' m.
Proof.
  intros Hne. induction m as [|[k1 v1] m IH]; cbn; [done|]. destruct (eqb_spec k k1) as [->|]; cbn.
  - by destruct (eqb_spec k' k1).
  - by rewrite IH.
Qed.

(** A map built by [om_set] from the empty one has its keys in order. *)
Hypothesis ltb_asym : forall a b, ltb a b = true -> ltb b a = true -> False.

Lemma om_set_keys k v v0 m :
  StronglySorted (fun a b => ltb a b = true) m.*1 -> om_find eqb k m = Some v0 -> (om_set ltb eqb k v m).*1 = m.*1.
Proof.
  induction m as [|[k' v'] m IH]; cbn; [done|]. intros Hs Hf. apply StronglySorted_inv in Hs as [Hs Hk].
  destruct (eqb_spec k k') as [->|Hne]; [done|]. destruct (ltb k k') eqn:El; cbn; [|f_equal; by apply IH].
  exfalso. apply om_find_elem in Hf. rewrite Forall_forall in Hk.
  apply (ltb_asym k' k); [|done]. apply Hk. apply list_elem_of_fmap. by exists (k, v0).
Qed.

Lemma om_set_sorted k v m :
  (forall a b c, ltb a b = true -> ltb b c = true -> ltb a c = true) ->
  (forall a b, ltb a b = false -> eqb a b = false -> ltb b a = true) ->
  StronglySorted (fun a b => ltb a b = true) m.*1 -> StronglySorted (fun a b => ltb a b = true) (om_set ltb eqb k v m).*1.
Proof.
  intros Htr Htot. induction m as [|[k' v'] m IH]; cbn; intros Hs; [constructor; constructor|].
  apply StronglySorted_inv in Hs as [Hs Hk]. destruct (eqb_spec k k') as [->|Hne]; cbn; [by apply SSorted_cons|].
  destruct (ltb k k') eqn:El; cbn.
  - apply SSorted_cons; [by apply SSorted_cons|]. apply Forall_cons_2; [done|]. eapply Forall_impl; [exact Hk|]. intros x. by apply Htr.
  - apply SSorted_cons; [by apply IH|]. apply Forall_forall. intros x Hx. apply list_elem_of_fmap in Hx as ([k1 v1] & -> & He).
    apply om_set_elem in He as [[= -> ->]|He].
    + cbn. apply Htot; [done|]. by destruct (eqb_spec k k').
    + rewrite Forall_forall in Hk. apply Hk, list_elem_of_fmap. by exists (k1, v1).
Qed.

End ordered_map_lemmas.

Section string_map.
Context {V : Type}.
Implicit Types (m : list (string * V)) (k : string) (v : V).

Lemma sm_find_elem k v m : sm_find k m = Some v -> (k, v) ∈ m.
Proof. apply om_find_elem, String.eqb_spec. Qed.
Lemma sm_set_elem k v m e : e ∈ sm_set k v m -> e = (k, v) \/ e ∈ m.
Proof. apply om_set_elem. Qed.
Lemma sm_erase_elem k m e : e ∈ sm_erase k m -> e ∈ m.
Proof. apply om_erase_elem. Qed.
Lemma sm_find_set k v m : sm_find k (sm_set k v m) = Some v.
Proof. apply om_find_set, String.eqb_spec. Qed.
Lemma sm_find_set_ne k k' v m : k' <> k -> sm_find k' (sm_set k v m) = sm_find k' m.
Proof. apply om_find_set_ne, String.eqb_spec. Qed.
Lemma sm_find_erase_ne k k' m : k' <> k -> sm_find k' (sm_erase k m) = sm_find k' m.
Proof. apply om_find_erase_ne, String.eqb_spec. Qed.

Lemma string_ltb_asym a b : String.ltb a b = true -> String.ltb b a = true -> False.
Proof.
  unfold String.ltb. rewrite (String.compare_antisym b a). by destruct (String.compare a b).
Qed.

(** The keys of a [std::map] are in order. *)
Definition sm_sorted m : Prop := StronglySorted (fun a b => String.ltb a b = true) m.*1.

Lemma sm_set_keys k v v0 m : sm_sorted m -> sm_find k m = Some v0 -> (sm_set k v m).*1 = m.*1.
Proof. apply om_set_keys; [apply String.eqb_spec|apply string_ltb_asym]. Qed.
End string_map.
