(* ===== verification/Protocol.v ===== *)
(** * Wire protocol constants ([core/src/transfer/protocol.h]) *)
From S2P Require Export Prelude.

Definition kProtoVersion : Z := 1.

Definition kStreamCtrl : string := "ctrl".
Definition kStreamData : string := "data".
Definition kStreamSack : string := "sack".

Definition kMaxDatagram : Z := 1150.

Definition kBlockMagic : Z := 0x4342.
Definition kBlockHeaderSize : Z := 12.
Definition kBlockPayloadSize : Z := 1100.
Definition kBlockFlagLast : Z := 0x01.

Definition kSackMagic : Z := 0x4353.
Definition kSackHeaderSize : Z := 28.
Definition kSackRunSize : Z := 8.
Definition kSackMaxRuns : Z := (kMaxDatagram - kSackHeaderSize) / kSackRunSize.
Definition kSackFlagComplete : Z := 0x01.

Definition kMaxFilesPerTransfer : Z := 65535.
Definition kMaxFileSize : Z := kBlockPayloadSize * 0xFFFFFFFF.
Definition kMaxCtrlMessage : Z := 16 * 1024 * 1024.
Definition kCtrlChunk : Z := 16 * 1024.
Definition kKcpWindow : Z := 1024.

Definition kSackIntervalMs : Z := 60.
Definition kSackCompleteRepeatMs : Z := 200.
Definition kRepairMinHoldMs : Z := 120.
Definition kPeerSilenceTimeoutMs : Z := 30000.
Definition kProgressIntervalMs : Z := 100.
