(* ===== verification/BlockCodec.v ===== *)
(** * Data block and SACK datagram codecs ([core/src/transfer/block_codec.{h,cpp}])

    A datagram is the list of its bytes, in network byte order.  [EncodeBlock] writes into a
    caller's buffer and [DecodeBlock] returns a view into the datagram; a null pointer is
    [None].  The theorems: the two codecs are inverse to each other (both ways for blocks),
    and no encoded datagram exceeds [kMaxDatagram]. *)
From S2P Require Export Protocol.

(** ** Definitions *)

Definition Put16 (v : Z) : bytes := [u8 (Z.shiftr v 8); u8 v].
Definition Put32 (v : Z) : bytes :=
  [u8 (Z.shiftr v 24); u8 (Z.shiftr v 16); u8 (Z.shiftr v 8); u8 v].
Definition Get16 (p : bytes) : Z := u16 (Z.lor (Z.shiftl (znth p 0) 8) (znth p 1)).
Definition Get32 (p : bytes) : Z :=
  Z.lor (Z.lor (Z.lor (u32 (Z.shiftl (znth p 0) 24)) (u32 (Z.shiftl (znth p 1) 16)))
               (u32 (Z.shiftl (znth p 2) 8))) (znth p 3).

(** Stores [d] at offset [off] of a buffer. *)
Definition poke (off : Z) (d out : bytes) : bytes :=
  ztake off out ++ d ++ zdrop (off + zlen d) out.

Record BlockHeader := mkBlockHeader {
  flags : Z;
  file_index : Z;
  block_index : Z;
  len : Z;
}.

Definition EncodeBlock (h : BlockHeader) (payload : option bytes) (out : option bytes)
    (out_cap : Z) : Z * option bytes :=
  if h.(len) >? kBlockPayloadSize then (0, out) else
  let total := kBlockHeaderSize + h.(len) in
  match out with
  | None => (0, out)
  | Some o =>
    if out_cap <? total then (0, out) else
    match payload with
    | None => if h.(len) >? 0 then (0, out) else
        (total,
         Some (poke 10 (Put16 h.(len)) (poke 6 (Put32 h.(block_index))
           (poke 4 (Put16 h.(file_index)) (poke 3 [h.(flags)]
             (poke 2 [kProtoVersion] (poke 0 (Put16 kBlockMagic) o)))))))
    | Some p =>
        let o := poke 10 (Put16 h.(len)) (poke 6 (Put32 h.(block_index))
           (poke 4 (Put16 h.(file_index)) (poke 3 [h.(flags)]
             (poke 2 [kProtoVersion] (poke 0 (Put16 kBlockMagic) o))))) in
        (total, Some (if h.(len) >? 0 then poke kBlockHeaderSize (ztake h.(len) p) o else o))
    end
  end.

Definition DecodeBlock (data : option bytes) (dlen : Z) : option (BlockHeader * bytes) :=
  match data with
  | None => None
  | Some d =>
    if dlen <? kBlockHeaderSize then None else
    if negb (Get16 d =? kBlockMagic) || negb (znth d 2 =? kProtoVersion) then None else
    let plen := Get16 (zdrop 10 d) in
    if plen >? kBlockPayloadSize then None else
    if negb (dlen =? kBlockHeaderSize + plen) then None else
    Some ({| flags := znth d 3; file_index := Get16 (zdrop 4 d);
             block_index := Get32 (zdrop 6 d); len := plen |},
          zdrop kBlockHeaderSize d)
  end.

Record SackRun := mkSackRun { start : Z; length_ : Z }.

#[export] Instance SackRun_eq_dec : EqDecision SackRun.
Proof. solve_decision. Defined.

Record Sack := mkSack {
  s_file_index : Z;
  s_flags : Z;
  ack_base : Z;
  frontier : Z;
  received_count : Z;
  recv_rate_bps : Z;
  loss_permille : Z;
  holes : list SackRun;
}.

(** [Sack{}] *)
Definition Sack_default : Sack := mkSack 0 0 0 0 0 0 0 [].

(** The loop of [EncodeSack] over the first [runs] holes. *)
Fixpoint put_runs (p : Z) (hs : list SackRun) (out : bytes) : bytes :=
  match hs with
  | [] => out
  | h :: hs =>
      put_runs (p + kSackRunSize) hs (poke (p + 4) (Put32 h.(length_)) (poke p (Put32 h.(start)) out))
  end.

Definition EncodeSack (s : Sack) : bytes :=
  let runs := if zlen s.(holes) <? kSackMaxRuns then zlen s.(holes) else kSackMaxRuns in
  let out := replicate (Z.to_nat (kSackHeaderSize + runs * kSackRunSize)) 0 in
  let out := poke 0 (Put16 kSackMagic) out in
  let out := poke 2 [kProtoVersion] out in
  let out := poke 3 [s.(s_flags)] out in
  let out := poke 4 (Put16 s.(s_file_index)) out in
  let out := poke 6 (Put16 (u16 runs)) out in
  let out := poke 8 (Put32 s.(ack_base)) out in
  let out := poke 12 (Put32 s.(frontier)) out in
  let out := poke 16 (Put32 s.(received_count)) out in
  let out := poke 20 (Put32 s.(recv_rate_bps)) out in
  let out := poke 24 (Put16 s.(loss_permille)) out in
  let out := poke 26 (Put16 0) out in
  put_runs kSackHeaderSize (ztake runs s.(holes)) out.

(** The loop of [DecodeSack] over [runs] entries from [p]. *)
Fixpoint get_runs (runs : nat) (p : bytes) : option (list SackRun) :=
  match runs with
  | O => Some []
  | S n =>
      let r := mkSackRun (Get32 p) (Get32 (zdrop 4 p)) in
      if r.(length_) =? 0 then None else
      rs ← get_runs n (zdrop kSackRunSize p); Some (r :: rs)
  end.

Definition DecodeSack (data : option bytes) (dlen : Z) : option Sack :=
  match data with
  | None => None
  | Some d =>
    if dlen <? kSackHeaderSize then None else
    if negb (Get16 d =? kSackMagic) || negb (znth d 2 =? kProtoVersion) then None else
    let runs := Get16 (zdrop 6 d) in
    if negb (dlen =? kSackHeaderSize + runs * kSackRunSize) then None else
    hs ← get_runs (Z.to_nat runs) (zdrop kSackHeaderSize d);
    Some {| s_file_index := Get16 (zdrop 4 d); s_flags := znth d 3;
            ack_base := Get32 (zdrop 8 d); frontier := Get32 (zdrop 12 d);
            received_count := Get32 (zdrop 16 d); recv_rate_bps := Get32 (zdrop 20 d);
            loss_permille := Get16 (zdrop 24 d); holes := hs |}
  end.

(** Well-formed values: every field fits its C++ type. *)
Definition wf_header (h : BlockHeader) : Prop :=
  in_u8 h.(flags) /\ in_u16 h.(file_index) /\ in_u32 h.(block_index) /\ in_u16 h.(len).

Definition wf_run (r : SackRun) : Prop := in_u32 r.(start) /\ in_u32 r.(length_).

Definition wf_sack (s : Sack) : Prop :=
  in_u16 s.(s_file_index) /\ in_u8 s.(s_flags) /\ in_u32 s.(ack_base) /\ in_u32 s.(frontier) /\
  in_u32 s.(received_count) /\ in_u32 s.(recv_rate_bps) /\ in_u16 s.(loss_permille) /\
  Forall wf_run s.(holes).

(** The bytes of a block header, in order: the layout comment of the header file. *)
Definition block_bytes (h : BlockHeader) : bytes :=
  Put16 kBlockMagic ++ [kProtoVersion] ++ [h.(flags)] ++ Put16 h.(file_index) ++
  Put32 h.(block_index) ++ Put16 h.(len).

Definition run_bytes (r : SackRun) : bytes := Put32 r.(start) ++ Put32 r.(length_).

Definition sack_bytes (s : Sack) (n : Z) : bytes :=
  Put16 kSackMagic ++ [kProtoVersion] ++ [s.(s_flags)] ++ Put16 s.(s_file_index) ++
  Put16 n ++ Put32 s.(ack_base) ++ Put32 s.(frontier) ++ Put32 s.(received_count) ++
  Put32 s.(recv_rate_bps) ++ Put16 s.(loss_permille) ++ Put16 0.

(** ** Big-endian fields *)

Lemma zlen_Put16 v : zlen (Put16 v) = 2.
Proof. reflexivity. Qed.
Lemma zlen_Put32 v : zlen (Put32 v) = 4.
Proof. reflexivity. Qed.

Lemma is_bytes_Put16 v : is_bytes (Put16 v).
Proof. unfold Put16. repeat constructor; apply u8_range. Qed.
Lemma is_bytes_Put32 v : is_bytes (Put32 v).
Proof. unfold Put32. repeat constructor; apply u8_range. Qed.

#[export] Hint Rewrite zlen_Put16 zlen_Put32 : zlen.
#[export] Hint Resolve is_bytes_Put16 is_bytes_Put32 : ct.

(** A big-endian pair of bytes is the sum of its weighted digits. *)
Lemma Get16_sum b0 b1 l : in_u8 b0 -> in_u8 b1 -> Get16 (b0 :: b1 :: l) = b0 * 256 + b1.
Proof.
  unfold in_u8. intros. unfold Get16, znth. simpl.
  rewrite lor_shiftl_add by lia. apply u16_small. unfold in_u16. lia.
Qed.

Lemma Get32_sum b0 b1 b2 b3 l :
  in_u8 b0 -> in_u8 b1 -> in_u8 b2 -> in_u8 b3 ->
  Get32 (b0 :: b1 :: b2 :: b3 :: l) = ((b0 * 256 + b1) * 256 + b2) * 256 + b3.
Proof.
  unfold in_u8. intros. unfold Get32, znth. simpl.
  rewrite !u32_small; rewrite ?Z.shiftl_mul_pow2; unfold in_u32; try lia.
  rewrite <- !Z.shiftl_mul_pow2 by lia.
  rewrite (lor_shiftl_add b0 (Z.shiftl b1 16) 24)
    by (rewrite ?Z.shiftl_mul_pow2; lia).
  replace (b0 * 2 ^ 24 + Z.shiftl b1 16) with (Z.shiftl (b0 * 256 + b1) 16)
    by (rewrite !Z.shiftl_mul_pow2; lia).
  rewrite (lor_shiftl_add _ (Z.shiftl b2 8) 16) by (rewrite ?Z.shiftl_mul_pow2; lia).
  replace ((b0 * 256 + b1) * 2 ^ 16 + Z.shiftl b2 8)
    with (Z.shiftl ((b0 * 256 + b1) * 256 + b2) 8) by (rewrite !Z.shiftl_mul_pow2; lia).
  rewrite lor_shiftl_add; lia.
Qed.

Lemma Get16_Put16 v l : in_u16 v -> Get16 (Put16 v ++ l) = v.
Proof.
  unfold in_u16. intros. unfold Put16. simpl.
  rewrite Get16_sum by apply u8_range. unfold u8. rewrite Z.shiftr_div_pow2 by lia.
  rewrite (Z.mod_small (v / 2 ^ 8)) by (split; [apply Z.div_pos | apply Z.div_lt_upper_bound]; lia).
  pose proof (Z.div_mod v 256). change (2 ^ 8) with 256. lia.
Qed.

Lemma Get32_Put32 v l : in_u32 v -> Get32 (Put32 v ++ l) = v.
Proof.
  unfold in_u32. intros. unfold Put32. simpl.
  rewrite Get32_sum by apply u8_range. unfold u8. rewrite !Z.shiftr_div_pow2 by lia.
  change (2 ^ 8) with 256. change (2 ^ 16) with (256 * 256). change (2 ^ 24) with (256 * 256 * 256).
  rewrite <- !Z.div_div by lia.
  pose proof (Z.div_mod v 256). pose proof (Z.div_mod (v / 256) 256).
  pose proof (Z.div_mod (v / 256 / 256) 256).
  rewrite (Z.mod_small (v / 256 / 256 / 256)); [lia|].
  split; [repeat apply Z.div_pos; lia|]. repeat apply Z.div_lt_upper_bound; lia.
Qed.

Lemma Put16_Get16 b0 b1 : in_u8 b0 -> in_u8 b1 -> Put16 (b0 * 256 + b1) = [b0; b1].
Proof.
  unfold in_u8. intros. unfold Put16, u8. rewrite Z.shiftr_div_pow2 by lia.
  change (2 ^ 8) with 256. rewrite (Z.div_add_l b0 256), Z.div_small by lia.
  rewrite Z.add_0_r, Z.mod_small by lia. do 2 f_equal.
  rewrite Z.add_comm, Z.mod_add by lia. apply Z.mod_small. lia.
Qed.

Lemma Put32_Get32 b0 b1 b2 b3 : in_u8 b0 -> in_u8 b1 -> in_u8 b2 -> in_u8 b3 ->
  Put32 (((b0 * 256 + b1) * 256 + b2) * 256 + b3) = [b0; b1; b2; b3].
Proof.
  unfold in_u8. intros. unfold Put32, u8. rewrite !Z.shiftr_div_pow2 by lia.
  change (2 ^ 8) with 256. change (2 ^ 16) with (256 * 256). change (2 ^ 24) with (256 * 256 * 256).
  rewrite <- !Z.div_div by lia.
  assert (Hd : forall a b, 0 <= b < 256 -> (a * 256 + b) / 256 = a).
  { intros a b Hb. rewrite Z.div_add_l, Z.div_small by lia. lia. }
  rewrite !Hd, (Z.mod_small b0) by lia.
  assert (Hm : forall a b, 0 <= b < 256 -> (a * 256 + b) mod 256 = b).
  { intros a b Hb. rewrite Z.add_comm, Z.mod_add by lia. by apply Z.mod_small. }
  by rewrite !Hm by lia.
Qed.

(** ** The written buffers *)

(** Storing at the end of the part already written: [poke] extends the written prefix. *)
Lemma poke_append off d pre rest :
  zlen pre = off -> zlen d <= zlen rest ->
  poke off d (pre ++ rest) = (pre ++ d) ++ zdrop (zlen d) rest.
Proof.
  intros Hp Hd. unfold poke. rewrite (ztake_app off pre rest Hp), <- app_assoc. do 2 f_equal.
  unfold zdrop, zlen in *. rewrite drop_app_ge by lia. f_equal. lia.
Qed.

Ltac pokes :=
  repeat (rewrite poke_append;
    [ | cbn [app]; zlen_simpl; lia | zlen_simpl; lia ]).

Lemma poke0 d out : zlen d <= zlen out -> poke 0 d out = d ++ zdrop (zlen d) out.
Proof. intros. unfold poke. reflexivity. Qed.

Lemma header_written h o :
  kBlockHeaderSize <= zlen o ->
  poke 10 (Put16 h.(len)) (poke 6 (Put32 h.(block_index))
    (poke 4 (Put16 h.(file_index)) (poke 3 [h.(flags)]
      (poke 2 [kProtoVersion] (poke 0 (Put16 kBlockMagic) o)))))
  = block_bytes h ++ zdrop kBlockHeaderSize o.
Proof.
  unfold kBlockHeaderSize. intros H. rewrite poke0 by (zlen_simpl; lia). pokes.
  unfold block_bytes. rewrite !zdrop_zdrop by (zlen_simpl; lia). zlen_simpl.
  rewrite <- !app_assoc. reflexivity.
Qed.

Lemma zlen_block_bytes h : zlen (block_bytes h) = kBlockHeaderSize.
Proof. reflexivity. Qed.

(** [EncodeBlock] as the layout comment describes it. *)
Lemma EncodeBlock_layout h p o cap :
  0 <= h.(len) <= kBlockPayloadSize -> zlen p = h.(len) ->
  cap = zlen o -> kBlockHeaderSize + h.(len) <= cap ->
  EncodeBlock h (Some p) (Some o) cap =
    (kBlockHeaderSize + h.(len), Some (block_bytes h ++ p ++ zdrop (kBlockHeaderSize + h.(len)) o)).
Proof.
  unfold kBlockPayloadSize, kBlockHeaderSize. intros Hl Hp -> Hc. unfold EncodeBlock.
  rewrite Z.gtb_ltb. unfold kBlockPayloadSize, kBlockHeaderSize.
  destruct (Z.ltb_spec 1100 h.(len)); [lia|].
  destruct (Z.ltb_spec (zlen o) (12 + h.(len))); [lia|].
  rewrite header_written by (unfold kBlockHeaderSize; lia). do 2 f_equal.
  rewrite ztake_all by lia. rewrite Z.gtb_ltb. unfold kBlockHeaderSize.
  destruct (Z.ltb_spec 0 h.(len)).
  - rewrite poke_append by (zlen_simpl; try rewrite zlen_block_bytes; unfold kBlockHeaderSize; lia).
    rewrite zdrop_zdrop by lia. rewrite Hp. by rewrite <- app_assoc.
  - assert (h.(len) = 0) as Hz by lia. rewrite Hz in *. by rewrite (zlen_nil_inv p).
Qed.

Lemma put_runs_written hs pre rest p :
  zlen pre = p -> zlen rest = kSackRunSize * zlen hs ->
  put_runs p hs (pre ++ rest) = pre ++ concat (run_bytes <$> hs).
Proof.
  unfold kSackRunSize. revert pre rest p. induction hs as [|h hs IH]; intros pre rest p Hp Hr.
  - zlen_simpl. rewrite (zlen_nil_inv rest) by lia. reflexivity.
  - zlen_simpl. cbn [put_runs]. unfold kSackRunSize.
    rewrite poke_append by (zlen_simpl; pose proof (zlen_nonneg hs); lia).
    rewrite poke_append by (zlen_simpl; pose proof (zlen_nonneg hs); lia).
    rewrite zdrop_zdrop by (zlen_simpl; lia).
    rewrite IH by (zlen_simpl; pose proof (zlen_nonneg hs); lia).
    cbn [fmap list_fmap concat]. unfold run_bytes. by rewrite <- !app_assoc.
Qed.

Lemma zlen_runs hs : zlen (concat (run_bytes <$> hs)) = kSackRunSize * zlen hs.
Proof.
  unfold kSackRunSize. induction hs; [reflexivity|].
  cbn [fmap list_fmap concat]. rewrite zlen_app, IHhs, zlen_cons.
  change (zlen (run_bytes a)) with 8. lia.
Qed.

(** The holes that fit the datagram. *)
Definition sent_holes (s : Sack) : list SackRun := ztake kSackMaxRuns s.(holes).

Lemma EncodeSack_layout s :
  EncodeSack s = sack_bytes s (zlen (sent_holes s)) ++ concat (run_bytes <$> sent_holes s).
Proof.
  unfold EncodeSack.
  set (runs := if zlen _ <? _ then _ else _).
  assert (Hs : ztake runs s.(holes) = sent_holes s /\ runs = zlen (sent_holes s) /\ 0 <= runs <= 140).
  { unfold runs, sent_holes. change kSackMaxRuns with 140. zlen_simpl.
    pose proof (zlen_nonneg s.(holes)).
    destruct (Z.ltb_spec (zlen s.(holes)) 140); rewrite ?(ztake_all _ s.(holes)) by lia; lia || auto with lia. }
  destruct Hs as (Hh & Hr & Hb). rewrite Hh, <- Hr.
  rewrite u16_small by (unfold in_u16; lia).
  rewrite poke0 by (zlen_simpl; unfold kSackHeaderSize, kSackRunSize; lia).
  unfold kSackHeaderSize, kSackRunSize in *.
  pokes. rewrite !zdrop_zdrop by (zlen_simpl; lia). zlen_simpl.
  rewrite put_runs_written.
  - unfold sack_bytes. rewrite <- !app_assoc. reflexivity.
  - cbn [app]. zlen_simpl. lia.
  - unfold kSackRunSize. zlen_simpl. lia.
Qed.

(** ** Properties *)

Lemma run_fields r rest :
  wf_run r ->
  Get32 (run_bytes r ++ rest) = r.(start) /\
  Get32 (zdrop 4 (run_bytes r ++ rest)) = r.(length_) /\
  zdrop kSackRunSize (run_bytes r ++ rest) = rest.
Proof.
  intros [? ?]. unfold run_bytes. rewrite <- app_assoc. rewrite Get32_Put32 by done.
  rewrite (zdrop_app 4 (Put32 _)) by done. rewrite Get32_Put32 by done.
  rewrite app_assoc, (zdrop_app kSackRunSize) by done. done.
Qed.

Lemma get_runs_written hs rest :
  Forall wf_run hs -> Forall (fun r => r.(length_) <> 0) hs ->
  get_runs (length hs) (concat (run_bytes <$> hs) ++ rest) = Some hs.
Proof.
  intros Hw Hn. induction hs as [|h hs IH]; [reflexivity|].
  apply Forall_cons in Hw as [Hw1 Hw]. apply Forall_cons in Hn as [Hn1 Hn].
  cbn [length fmap list_fmap concat get_runs]. rewrite <- app_assoc.
  destruct (run_fields h (concat (run_bytes <$> hs) ++ rest) Hw1) as (-> & -> & ->).
  cbn [length_]. destruct (Z.eqb_spec h.(length_) 0) as [?|_]; [done|].
  rewrite IH by done. by destruct h.
Qed.

(** The fields of a datagram that starts with an encoded header. *)
Lemma Get16_at v l : in_u16 v -> Get16 (u8 (Z.shiftr v 8) :: u8 v :: l) = v.
Proof. apply Get16_Put16. Qed.

Lemma Get32_at v l : in_u32 v ->
  Get32 (u8 (Z.shiftr v 24) :: u8 (Z.shiftr v 16) :: u8 (Z.shiftr v 8) :: u8 v :: l) = v.
Proof. apply Get32_Put32. Qed.

(** Computes the fields of a layout given as a concatenation of [Put]s. *)
Ltac fields :=
  cbv [Put16 Put32 kSackHeaderSize kBlockHeaderSize zdrop]; tonat; cbn [app drop];
  repeat match goal with |- _ /\ _ => split end;
  first [apply Get16_at | apply Get32_at | idtac]; try done.

Lemma sack_fields s n rest :
  wf_sack s -> in_u16 n ->
  let d := sack_bytes s n ++ rest in
  Get16 d = kSackMagic /\ znth d 2 = kProtoVersion /\ znth d 3 = s.(s_flags) /\
  Get16 (zdrop 4 d) = s.(s_file_index) /\ Get16 (zdrop 6 d) = n /\
  Get32 (zdrop 8 d) = s.(ack_base) /\ Get32 (zdrop 12 d) = s.(frontier) /\
  Get32 (zdrop 16 d) = s.(received_count) /\ Get32 (zdrop 20 d) = s.(recv_rate_bps) /\
  Get16 (zdrop 24 d) = s.(loss_permille) /\ zdrop kSackHeaderSize d = rest.
Proof.
  intros (?&?&?&?&?&?&?&?) ? d.
  subst d. cbv [sack_bytes]. fields.
Qed.

Lemma block_fields h rest :
  wf_header h ->
  let d := block_bytes h ++ rest in
  Get16 d = kBlockMagic /\ znth d 2 = kProtoVersion /\ znth d 3 = h.(flags) /\
  Get16 (zdrop 4 d) = h.(file_index) /\ Get32 (zdrop 6 d) = h.(block_index) /\
  Get16 (zdrop 10 d) = h.(len) /\ zdrop kBlockHeaderSize d = rest.
Proof.
  intros (?&?&?&?) d.
  subst d. cbv [block_bytes]. fields.
Qed.

Lemma DecodeBlock_bytes h (p : bytes) :
  wf_header h -> h.(len) <= kBlockPayloadSize -> zlen p = h.(len) ->
  zlen (block_bytes h ++ p) = kBlockHeaderSize + h.(len) /\
  DecodeBlock (Some (block_bytes h ++ p)) (zlen (block_bytes h ++ p)) = Some (h, p).
Proof.
  intros Hw Hl Hp. pose proof Hw as (_ & _ & _ & Hl0). unfold in_u16 in Hl0.
  assert (Hlen : zlen (block_bytes h ++ p) = kBlockHeaderSize + h.(len))
    by (rewrite zlen_app, zlen_block_bytes; lia).
  split; [done|]. rewrite Hlen.
  destruct (block_fields h p Hw) as (F1&F2&F3&F4&F5&F6&F7). cbv zeta in *.
  unfold DecodeBlock. rewrite F1, F2, F3, F4, F5, F6, F7.
  unfold kBlockHeaderSize, kBlockPayloadSize in *.
  destruct (Z.ltb_spec (12 + h.(len)) 12); [lia|]. cbn [Z.eqb kBlockMagic kProtoVersion].
  rewrite !Z.eqb_refl. cbn. rewrite Z.gtb_ltb.
  destruct (Z.ltb_spec 1100 h.(len)); [lia|]. by destruct h.
Qed.

(** A block encoded into a large enough buffer decodes to the same header and payload. *)
Theorem block_roundtrip h (p o : bytes) :
  wf_header h -> h.(len) <= kBlockPayloadSize -> zlen p = h.(len) ->
  zlen o = kBlockHeaderSize + h.(len) ->
  exists wire, EncodeBlock h (Some p) (Some o) (zlen o) = (zlen o, Some wire) /\
    zlen wire = zlen o /\ zlen o <= kMaxDatagram /\
    DecodeBlock (Some wire) (zlen wire) = Some (h, p).
Proof.
  intros Hw Hl Hp Ho. pose proof Hw as (_ & _ & _ & Hl0). unfold in_u16 in Hl0.
  exists (block_bytes h ++ p). rewrite EncodeBlock_layout by lia.
  rewrite (zdrop_all _ o) by lia. rewrite app_nil_r, Ho.
  destruct (DecodeBlock_bytes h p Hw Hl Hp) as [HL HD]. rewrite HL in HD |- *.
  split; [done|]. split; [done|]. split; [unfold kBlockHeaderSize, kBlockPayloadSize, kMaxDatagram in *; lia|done].
Qed.

Lemma is_bytes_cons_inv b l : is_bytes (b :: l) -> in_u8 b /\ is_bytes l.
Proof. apply Forall_cons_1. Qed.

(** A datagram of at least [n] bytes has [n] first bytes. *)
Lemma destruct_bytes (l : bytes) : 12 <= zlen l -> exists b0 b1 b2 b3 b4 b5 b6 b7 b8 b9 b10 b11 r,
  l = b0 :: b1 :: b2 :: b3 :: b4 :: b5 :: b6 :: b7 :: b8 :: b9 :: b10 :: b11 :: r.
Proof.
  unfold zlen. intros H.
  do 12 (destruct l as [|? l]; [simpl in H; lia|]).
  repeat eexists.
Qed.

(** Every datagram the decoder accepts is the encoding of what it returns: the wire format
    has no two spellings of one block. *)
Theorem DecodeBlock_canonical d h (p : bytes) :
  is_bytes d -> DecodeBlock (Some d) (zlen d) = Some (h, p) ->
  wf_header h /\ h.(len) <= kBlockPayloadSize /\ zlen p = h.(len) /\ d = block_bytes h ++ p.
Proof.
  intros Hb. unfold DecodeBlock. case_if; [done|]. case_if; [done|]. case_if; [done|].
  case_if; [done|]. intros [= <- <-]. zbool. cbn [len].
  unfold kBlockHeaderSize in *. destruct (destruct_bytes d ltac:(lia)) as
    (b0&b1&b2&b3&b4&b5&b6&b7&b8&b9&b10&b11&r&->).
  repeat match goal with H : is_bytes (_ :: _) |- _ => apply is_bytes_cons_inv in H as [? H] end.
  unfold zdrop, znth, kBlockHeaderSize in *. tonat. cbn [drop nth] in *.
  rewrite ?drop_0 in *. rewrite !Get16_sum, ?Get32_sum in * by done.
  unfold wf_header, block_bytes. cbn [flags file_index block_index len].
  rewrite !Put16_Get16, Put32_Get32 by done.
  unfold kBlockMagic, kProtoVersion, in_u8, in_u16, in_u32 in *. zlen_simpl.
  repeat match goal with |- _ /\ _ => split end; try lia.
  assert (b0 = 0x43 /\ b1 = 0x42) as [-> ->] by lia. subst b2. reflexivity.
Qed.

(** A refused block leaves the caller's buffer as it was. *)
Lemma EncodeBlock_refused h p o cap :
  (EncodeBlock h p o cap).1 = 0 -> 0 <= h.(len) -> (EncodeBlock h p o cap).2 = o.
Proof.
  unfold EncodeBlock, kBlockHeaderSize. intros H Hl.
  destruct o as [o|]; [|by case_if]. destruct p as [p|]; repeat case_if; simpl in *; lia || done.
Qed.

Lemma sack_spec s :
  wf_sack s -> Forall (fun r => r.(length_) <> 0) s.(holes) ->
  zlen (EncodeSack s) <= kMaxDatagram /\
  DecodeSack (Some (EncodeSack s)) (zlen (EncodeSack s)) =
    Some (mkSack s.(s_file_index) s.(s_flags) s.(ack_base) s.(frontier) s.(received_count)
            s.(recv_rate_bps) s.(loss_permille) (ztake kSackMaxRuns s.(holes))).
Proof.
  intros Hw Hn. rewrite EncodeSack_layout. fold (sent_holes s).
  assert (Hr : 0 <= zlen (sent_holes s) <= 140).
  { unfold sent_holes. change kSackMaxRuns with 140. zlen_simpl. pose proof (zlen_nonneg s.(holes)). lia. }
  set (n := zlen (sent_holes s)) in *.
  destruct (sack_fields s n (concat (run_bytes <$> sent_holes s)) Hw) as
    (F1&F2&F3&F4&F5&F6&F7&F8&F9&F10&F11); [unfold in_u16; lia|]. cbv zeta in *.
  assert (Hl : zlen (sack_bytes s n ++ concat (run_bytes <$> sent_holes s)) =
               kSackHeaderSize + n * kSackRunSize).
  { rewrite zlen_app, zlen_runs. change (zlen (sack_bytes s n)) with kSackHeaderSize. fold n. lia. }
  rewrite Hl. unfold kSackHeaderSize, kSackRunSize, kMaxDatagram in *. split; [lia|].
  unfold DecodeSack. rewrite F1, F2, F3, F4, F5, F6, F7, F8, F9, F10.
  rewrite !Z.eqb_refl. cbn [negb orb]. unfold kSackHeaderSize, kSackRunSize in *.
  destruct (Z.ltb_spec (28 + n * 8) 28); [lia|]. cbn [negb]. rewrite F11.
  replace (Z.to_nat n) with (length (sent_holes s)) by (unfold n, zlen; lia).
  rewrite <- (app_nil_r (concat _)), get_runs_written; [done| |].
  - destruct Hw as (?&?&?&?&?&?&?&?). by apply Forall_take.
  - by apply Forall_take.
Qed.

(** A SACK decodes to what was encoded, less the holes beyond [kSackMaxRuns], and fits one
    datagram. *)
Theorem sack_roundtrip s :
  wf_sack s -> Forall (fun r => r.(length_) <> 0) s.(holes) ->
  zlen (EncodeSack s) <= kMaxDatagram /\
  DecodeSack (Some (EncodeSack s)) (zlen (EncodeSack s)) =
    Some (mkSack s.(s_file_index) s.(s_flags) s.(ack_base) s.(frontier) s.(received_count)
            s.(recv_rate_bps) s.(loss_permille) (ztake kSackMaxRuns s.(holes))).
Proof. exact (sack_spec s). Qed.

(** ** Witnesses *)

Definition sample_header : BlockHeader := mkBlockHeader 1 2 70000 3.
Definition sample_sack : Sack := mkSack 7 0 10 100 60 123456 15 [mkSackRun 10 5; mkSackRun 40 1].

Lemma block_roundtrip_witness :
  exists wire, EncodeBlock sample_header (Some [9; 8; 7]) (Some (replicate 15 0)) 15 = (15, Some wire) /\
    zlen wire = 15 /\ 15 <= kMaxDatagram /\
    DecodeBlock (Some wire) (zlen wire) = Some (sample_header, [9; 8; 7]).
Proof.
  apply (block_roundtrip sample_header [9; 8; 7] (replicate 15 0)).
  - repeat split; vm_compute; congruence.
  - vm_compute. congruence.
  - reflexivity.
  - reflexivity.
Defined.

Lemma DecodeBlock_canonical_witness :
  let d := [0x43; 0x42; 1; 0; 0; 5; 0; 0; 1; 0; 0; 2; 77; 78] in
  DecodeBlock (Some d) 14 = Some (mkBlockHeader 0 5 256 2, [77; 78]) /\
  d = block_bytes (mkBlockHeader 0 5 256 2) ++ [77; 78].
Proof.
  intros d. split; [vm_compute; reflexivity|].
  apply (DecodeBlock_canonical d (mkBlockHeader 0 5 256 2) [77; 78]).
  - repeat constructor; unfold in_u8; lia.
  - vm_compute. reflexivity.
Defined.

Lemma sack_roundtrip_witness :
  zlen (EncodeSack sample_sack) = 44 /\
  DecodeSack (Some (EncodeSack sample_sack)) (zlen (EncodeSack sample_sack)) = Some sample_sack.
Proof.
  split; [vm_compute; reflexivity|].
  apply (sack_roundtrip sample_sack).
  - repeat split; unfold in_u16, in_u8, in_u32; simpl; try lia.
    repeat constructor; unfold in_u32; simpl; lia.
  - repeat constructor; discriminate.
Defined.
