(* ===== verification/Bitmap.v ===== *)
(** * Per-file received-block bitmap ([core/src/transfer/bitmap.{h,cpp}])

    The bitmap is a vector of 64-bit words.  [AckBase], [Holes] and [HaveRuns] skip whole words;
    their loops are run on fuel and the theorems state that the fuel given is enough, that the
    results are those of a bit-by-bit scan, and that persisting the runs and setting them again
    rebuilds the bitmap.  All of it holds up to [max_blocks] blocks; beyond it the 32-bit index
    of the scan wraps, which the last theorem shows. *)
From S2P Require Export BlockCodec.

(** ** Definitions *)

(** [~0ull] *)
Definition ones64 : Z := 2 ^ 64 - 1.

(** [__builtin_ctzll]: the number of trailing zero bits (of a non-zero argument). *)
Fixpoint pos_ctz (p : positive) : nat :=
  match p with
  | xO q => S (pos_ctz q)
  | _ => O
  end.
Definition ctz (z : Z) : Z :=
  match z with
  | Zpos p => Z.of_nat (pos_ctz p)
  | _ => 0
  end.

Record BlockBitmap := mkBitmap {
  words_ : list Z;
  size_ : Z;
  count_ : Z;
  ack_base_ : Z;
}.

Definition Reset (block_count : Z) : BlockBitmap :=
  mkBitmap (replicate (Z.to_nat ((block_count + 63) / 64)) 0) block_count 0 0.

(** A default-constructed bitmap. *)
Definition BlockBitmap_default : BlockBitmap := mkBitmap [] 0 0 0.

Definition Complete (b : BlockBitmap) : bool := b.(count_) =? b.(size_).

Definition word (b : BlockBitmap) (wi : Z) : Z := znth b.(words_) wi.

Definition Test (b : BlockBitmap) (index : Z) : bool :=
  if index >=? b.(size_) then false
  else negb (Z.land (Z.shiftr (word b (index / 64)) (index mod 64)) 1 =? 0).

Definition Set_ (b : BlockBitmap) (index : Z) : bool * BlockBitmap :=
  if index >=? b.(size_) then (false, b) else
  let w := word b (index / 64) in
  let bit := u64 (Z.shiftl 1 (index mod 64)) in
  if negb (Z.land w bit =? 0) then (false, b) else
  (true, mkBitmap (<[Z.to_nat (index / 64) := Z.lor w bit]> b.(words_)) b.(size_)
           (u32 (b.(count_) + 1)) b.(ack_base_)).

(** The [while] loop of [AckBase]. *)
Fixpoint AckBase_loop (fuel : nat) (b : BlockBitmap) (i : Z) : option Z :=
  match fuel with
  | O => None
  | S fuel =>
    if i <? b.(size_) then
      let wi := i / 64 in
      let w := word b wi in
      if w =? ones64 then AckBase_loop fuel b (u32 ((wi + 1) * 64)) else
      let masked := Z.land (Z.lxor w ones64) (u64 (Z.shiftl ones64 (i mod 64))) in
      if masked =? 0 then AckBase_loop fuel b (u32 ((wi + 1) * 64)) else
      Some (u32 (wi * 64 + ctz masked))
    else Some i
  end.

Definition AckBase (b : BlockBitmap) : Z * BlockBitmap :=
  let i := default b.(size_) (AckBase_loop (S (length b.(words_))) b b.(ack_base_)) in
  let i := if i >? b.(size_) then b.(size_) else i in
  (i, mkBitmap b.(words_) b.(size_) b.(count_) i).

(** The inner loops of [Holes] and [HaveRuns]: skip the bits equal to [v] from [i], a whole
    word at a time where the word is full of them. *)
Definition full_word (v : bool) : Z := if v then ones64 else 0.

Fixpoint skip_while (fuel : nat) (b : BlockBitmap) (v : bool) (i : Z) : option Z :=
  match fuel with
  | O => None
  | S fuel =>
    if (i <? b.(size_)) && Bool.eqb (Test b i) v then
      if (i mod 64 =? 0) && (word b (i / 64) =? full_word v)
      then skip_while fuel b v (u32 (i + 64))
      else skip_while fuel b v (u32 (i + 1))
    else Some i
  end.

Definition scan_fuel (b : BlockBitmap) : nat := S (Z.to_nat b.(size_)).

(** The outer loop of [Holes] ([v = false]) and [HaveRuns] ([v = true]). *)
Fixpoint runs_loop (fuel : nat) (b : BlockBitmap) (v : bool) (i max_runs : Z)
    (out : list SackRun) : option (list SackRun) :=
  match fuel with
  | O => None
  | S fuel =>
    if (i <? b.(size_)) && (zlen out <? max_runs) then
      i ← skip_while (scan_fuel b) b (negb v) i;
      if i >=? b.(size_) then Some out else
      let st := i in
      i ← skip_while (scan_fuel b) b v i;
      let i := if i >? b.(size_) then b.(size_) else i in
      runs_loop fuel b v i max_runs (out ++ [mkSackRun st (u32 (i - st))])
    else Some out
  end.

(** [Holes] is [const] but refreshes the [mutable] cache through [AckBase]. *)
Definition Holes (b : BlockBitmap) (from max_runs : Z) : list SackRun * BlockBitmap :=
  if max_runs =? 0 then ([], b) else
  let '(ack, b) := AckBase b in
  (default [] (runs_loop (scan_fuel b) b false (Z.max from ack) max_runs []), b).

Definition HaveRuns (b : BlockBitmap) (max_runs : Z) : list SackRun :=
  if max_runs =? 0 then [] else
  default [] (runs_loop (scan_fuel b) b true 0 max_runs []).

(** The [for] loop of [SetRuns] over [n] blocks from [i]. *)
Fixpoint set_range (b : BlockBitmap) (i : Z) (n : nat) : BlockBitmap :=
  match n with
  | O => b
  | S n => set_range (Set_ b i).2 (i + 1) n
  end.

Definition set_run (b : BlockBitmap) (r : SackRun) : BlockBitmap :=
  if r.(start) >=? b.(size_) then b else
  let end64 := u64 (r.(start) + r.(length_)) in
  let end_ := if end64 >? b.(size_) then b.(size_) else u32 end64 in
  set_range b r.(start) (Z.to_nat (end_ - r.(start))).

Definition SetRuns (b : BlockBitmap) (runs : list SackRun) : BlockBitmap :=
  fold_left set_run runs b.

(** ** Specification *)

(** Blocks received among the first [n]. *)
Fixpoint popcount (P : Z -> bool) (n : nat) : Z :=
  match n with
  | O => 0
  | S n => popcount P n + (if P (Z.of_nat n) then 1 else 0)
  end.

(** The largest bitmap whose scans never wrap a 32-bit index. *)
Definition max_blocks : Z := 2 ^ 32 - 64.

(** Representation invariant: the words fit, no bit at or past [size_] is set, [count_] counts
    the set bits, and every bit below the cached [ack_base_] is set. *)
Record wf_bitmap (b : BlockBitmap) : Prop := {
  wf_size : 0 <= b.(size_) < 2 ^ 32;
  wf_words : zlen b.(words_) = (b.(size_) + 63) / 64;
  wf_word : Forall in_u64 b.(words_);
  wf_high : forall wi j, 0 <= wi < zlen b.(words_) -> 0 <= j < 64 ->
    b.(size_) <= wi * 64 + j -> Z.testbit (word b wi) j = false;
  wf_count : b.(count_) = popcount (Test b) (Z.to_nat b.(size_));
  wf_ack : 0 <= b.(ack_base_) <= b.(size_);
  wf_below : forall k, 0 <= k < b.(ack_base_) -> Test b k = true;
}.

(** The reference scan: the maximal runs of positions of [i, i + n) that satisfy [P]. *)
Fixpoint ref_runs (P : Z -> bool) (i : Z) (n : nat) : list SackRun :=
  match n with
  | O => []
  | S n =>
    if P i then
      match ref_runs P (i + 1) n with
      | r :: rs => if r.(start) =? i + 1 then mkSackRun i (r.(length_) + 1) :: rs
                   else mkSackRun i 1 :: r :: rs
      | [] => [mkSackRun i 1]
      end
    else ref_runs P (i + 1) n
  end.

(** The positions a scan for the value [v] collects. *)
Definition is_bit (b : BlockBitmap) (v : bool) (k : Z) : bool := Bool.eqb (Test b k) v.

(** Block [k] lies in one of the runs. *)
Definition in_run (k : Z) (r : SackRun) : Prop := r.(start) <= k < r.(start) + r.(length_).
Definition covered (k : Z) (rs : list SackRun) : Prop := Exists (in_run k) rs.

(** Block [k] is inside the run and in range. *)
Definition run_covers (size k : Z) (r : SackRun) : bool :=
  (r.(start) <=? k) && (k <? r.(start) + r.(length_)) && (k <? size).

(** ** Bits of a word *)

Lemma testbit_land1 w k : 0 <= k -> negb (Z.land (Z.shiftr w k) 1 =? 0) = Z.testbit w k.
Proof.
  intros Hk. change 1 with (Z.ones 1). rewrite Z.land_ones, Z.pow_1_r by lia.
  rewrite <- Z.bit0_mod, Z.shiftr_spec, Z.add_0_l by lia. by destruct (Z.testbit w k).
Qed.

Lemma shiftl1_bit k : 0 <= k < 64 -> u64 (Z.shiftl 1 k) = 2 ^ k.
Proof.
  intros Hk. rewrite Z.shiftl_mul_pow2, Z.mul_1_l by lia. apply u64_small. unfold in_u64.
  pose proof (Z.pow_lt_mono_r 2 k 64). pose proof (Z.pow_pos_nonneg 2 k). lia.
Qed.

Lemma land_bit w k : 0 <= k -> negb (Z.land w (2 ^ k) =? 0) = Z.testbit w k.
Proof.
  intros Hk. destruct (Z.testbit w k) eqn:E.
  - apply negb_true_iff, Z.eqb_neq. intros H0.
    assert (Hb : Z.testbit (Z.land w (2 ^ k)) k = true)
      by (rewrite Z.land_spec, E, Z.pow2_bits_true; done).
    by rewrite H0, Z.bits_0 in Hb.
  - apply negb_false_iff, Z.eqb_eq, Z.bits_inj'. intros i Hi.
    rewrite Z.land_spec, Z.bits_0, Z.pow2_bits_eqb by lia.
    destruct (Z.eqb_spec k i) as [->|]; [by rewrite E | apply andb_false_r].
Qed.

Lemma in_u64_lor a b : in_u64 a -> in_u64 b -> in_u64 (Z.lor a b).
Proof.
  unfold in_u64. intros [Ha Ha'] [Hb Hb']. split; [by apply Z.lor_nonneg|].
  destruct (decide (Z.lor a b = 0)) as [->|]; [lia|].
  assert (0 <= Z.lor a b) by (by apply Z.lor_nonneg).
  apply Z.log2_lt_pow2; [lia|]. rewrite Z.log2_lor by done.
  assert (forall x, 0 <= x < 2 ^ 64 -> Z.log2 x < 64) as Hl.
  { intros x Hx. destruct (decide (x = 0)) as [->|]; [simpl; lia|]. apply Z.log2_lt_pow2; lia. }
  pose proof (Hl a); pose proof (Hl b). lia.
Qed.

Lemma u64_high w j : in_u64 w -> 64 <= j -> Z.testbit w j = false.
Proof.
  intros [Hw Hw'] Hj. destruct (decide (w = 0)) as [->|]; [apply Z.bits_0|].
  apply Z.bits_above_log2; [done|]. assert (Z.log2 w < 64) by (apply Z.log2_lt_pow2; lia). lia.
Qed.

Lemma ones64_testbit j : 0 <= j < 64 -> Z.testbit ones64 j = true.
Proof.
  intros Hj. change ones64 with (Z.ones 64). rewrite Z.testbit_ones_nonneg by lia.
  apply Z.ltb_lt. lia.
Qed.

(** A word equals [full_word v] exactly when its 64 bits are [v]. *)
Lemma full_word_bits w v : in_u64 w ->
  w = full_word v <-> forall j, 0 <= j < 64 -> Z.testbit w j = v.
Proof.
  intros Hw. split.
  - intros -> j Hj. destruct v; [by apply ones64_testbit | apply Z.bits_0].
  - intros H. apply Z.bits_inj'. intros j Hj. destruct (decide (j < 64)).
    + rewrite H by lia. destruct v; [by rewrite ones64_testbit | by rewrite Z.bits_0].
    + rewrite (u64_high w) by (done || lia). symmetry. apply u64_high; [|lia].
      destruct v; unfold in_u64, full_word, ones64; lia.
Qed.

Lemma pos_ctz_spec p : Z.testbit (Zpos p) (Z.of_nat (pos_ctz p)) = true /\
  forall j, 0 <= j < Z.of_nat (pos_ctz p) -> Z.testbit (Zpos p) j = false.
Proof.
  induction p as [p [IH1 IH2]|p [IH1 IH2]|]; cbn [pos_ctz]; [split; [done|lia]| |split; [done|lia]].
  rewrite Nat2Z.inj_succ, Pos2Z.inj_xO. split.
  - by rewrite Z.double_bits_succ.
  - intros j Hj. destruct (decide (j = 0)) as [->|]; [by rewrite Z.testbit_even_0|].
    replace j with (Z.succ (j - 1)) by lia. rewrite Z.double_bits_succ. apply IH2. lia.
Qed.

Lemma ctz_spec z : 0 < z -> Z.testbit z (ctz z) = true /\
  (forall j, 0 <= j < ctz z -> Z.testbit z j = false) /\ 0 <= ctz z.
Proof.
  intros Hz. destruct z as [|p|p]; [lia| |lia]. destruct (pos_ctz_spec p). cbn [ctz]. auto with lia.
Qed.

(** The word of zero bits at or after position [k] that [AckBase] scans. *)
Lemma masked_testbit w k j : in_u64 w -> 0 <= k < 64 -> 0 <= j < 64 ->
  Z.testbit (Z.land (Z.lxor w ones64) (u64 (Z.shiftl ones64 k))) j =
  negb (Z.testbit w j) && (k <=? j).
Proof.
  intros Hw Hk Hj. unfold u64.
  rewrite Z.land_spec, Z.lxor_spec, ones64_testbit, xorb_true_r by lia. f_equal.
  rewrite Z.mod_pow2_bits_low, Z.shiftl_spec by lia.
  destruct (Z.leb_spec k j).
  - apply ones64_testbit. lia.
  - apply Z.testbit_neg_r. lia.
Qed.

Lemma masked_range x y : in_u64 (Z.land x (u64 y)).
Proof.
  unfold u64. rewrite <- Z.land_ones, Z.land_assoc, Z.land_ones by lia.
  apply Z.mod_pos_bound. lia.
Qed.

(** ** The representation *)

Section bitmap_facts.
Context (b : BlockBitmap) (Hwf : wf_bitmap b).

Lemma word_index i : 0 <= i < b.(size_) -> 0 <= i / 64 < zlen b.(words_).
Proof.
  intros Hi. rewrite (wf_words b Hwf). split; [apply Z.div_pos; lia|].
  apply Z.div_lt_upper_bound; [lia|].
  pose proof (Z.div_mod (b.(size_) + 63) 64). pose proof (Z.mod_pos_bound (b.(size_) + 63) 64). lia.
Qed.

Lemma word_range wi : 0 <= wi < zlen b.(words_) -> in_u64 (word b wi).
Proof.
  intros Hi. unfold word, znth. pose proof (wf_word b Hwf) as Hf.
  rewrite Forall_lookup in Hf. apply (Hf (Z.to_nat wi)).
  rewrite nth_lookup. destruct (lookup_lt_is_Some_2 b.(words_) (Z.to_nat wi)) as [x Hx];
    [unfold zlen in Hi; lia | by rewrite Hx].
Qed.

Lemma Test_testbit i : 0 <= i < b.(size_) ->
  Test b i = Z.testbit (word b (i / 64)) (i mod 64).
Proof.
  intros Hi. unfold Test. rewrite Z.geb_leb. destruct (Z.leb_spec b.(size_) i); [lia|].
  apply testbit_land1. apply Z.mod_pos_bound. lia.
Qed.

Lemma Test_out i : b.(size_) <= i -> Test b i = false.
Proof. intros Hi. unfold Test. rewrite Z.geb_leb. by destruct (Z.leb_spec b.(size_) i); [|lia]. Qed.

(** Bit [j] of word [wi] is block [wi * 64 + j], whether or not it is in range. *)
Lemma Test_word wi j : 0 <= wi < zlen b.(words_) -> 0 <= j < 64 ->
  Test b (wi * 64 + j) = Z.testbit (word b wi) j.
Proof.
  intros Hwi Hj. destruct (decide (wi * 64 + j < b.(size_))).
  - rewrite Test_testbit by lia. f_equal.
    + f_equal. rewrite Z.div_add_l by lia. rewrite Z.div_small; lia.
    + rewrite Z.add_comm, Z.mod_add by lia. apply Z.mod_small. lia.
  - rewrite Test_out by lia. symmetry. apply (wf_high b Hwf); lia.
Qed.

End bitmap_facts.

Lemma popcount_ext P Q n :
  (forall i, 0 <= i < Z.of_nat n -> P i = Q i) -> popcount P n = popcount Q n.
Proof. induction n; intros H; simpl; [done|]. rewrite IHn, H by (intros; try apply H; lia). done. Qed.

Lemma popcount_bound P n : 0 <= popcount P n <= Z.of_nat n.
Proof. induction n; simpl popcount; [lia|]. destruct (P (Z.of_nat n)); lia. Qed.

Lemma popcount_set P Q n i :
  0 <= i < Z.of_nat n -> P i = false -> Q i = true ->
  (forall k, 0 <= k < Z.of_nat n -> k <> i -> Q k = P k) ->
  popcount Q n = popcount P n + 1.
Proof.
  induction n; intros Hi HP HQ Hk; [lia|]. simpl.
  destruct (decide (i = Z.of_nat n)) as [->|].
  - rewrite HP, HQ, (popcount_ext Q P); [lia|]. intros k Hk'. apply Hk; lia.
  - rewrite IHn, (Hk (Z.of_nat n)) by (done || lia || (intros; apply Hk; lia)). lia.
Qed.

Lemma popcount_full P n : popcount P n = Z.of_nat n <-> forall i, 0 <= i < Z.of_nat n -> P i = true.
Proof.
  induction n; [split; [lia|done]|]. cbn [popcount]. pose proof (popcount_bound P n). split.
  - intros H' i Hi. destruct (P (Z.of_nat n)) eqn:E; [|lia].
    destruct (decide (i = Z.of_nat n)) as [->|]; [done|]. apply IHn; lia.
  - intros H'. rewrite (H' (Z.of_nat n)) by lia.
    enough (popcount P n = Z.of_nat n) by lia. apply IHn. intros. apply H'. lia.
Qed.

Lemma word_Reset n wi : word (Reset n) wi = 0.
Proof.
  unfold word, znth, Reset. cbn [words_]. rewrite nth_lookup.
  destruct (replicate _ 0 !! _) eqn:E; [|done]. by apply lookup_replicate in E as [-> _].
Qed.

Lemma Test_Reset n i : Test (Reset n) i = false.
Proof. unfold Test. case_if; [done|]. by rewrite word_Reset, Z.shiftr_0_l. Qed.

Lemma wf_Reset n : 0 <= n < 2 ^ 32 -> wf_bitmap (Reset n).
Proof.
  intros Hn. assert (0 <= (n + 63) / 64) by (apply Z.div_pos; lia). split.
  - done.
  - cbn [Reset words_]. rewrite zlen_replicate. cbn [size_ Reset]. lia.
  - cbn [Reset words_]. apply Forall_replicate. unfold in_u64. lia.
  - intros wi j _ _ _. rewrite word_Reset. apply Z.bits_0.
  - cbn [Reset count_]. rewrite (popcount_ext _ (fun _ => false)) by (intros; apply Test_Reset).
    cbn [Reset size_]. generalize (Z.to_nat n). clear. induction n; simpl; lia.
  - cbn [Reset ack_base_ size_]. lia.
  - cbn [Reset ack_base_]. lia.
Qed.

(** ** [Set] *)

Lemma Set_size b i : (Set_ b i).2.(size_) = b.(size_).
Proof. unfold Set_. case_if; [done|]. case_if; done. Qed.

Lemma word_set b i w wi :
  0 <= i -> 0 <= wi -> i / 64 < zlen b.(words_) ->
  znth (<[Z.to_nat (i / 64) := w]> b.(words_)) wi = if wi =? i / 64 then w else word b wi.
Proof.
  intros Hi Hwi Hl. unfold znth, word, zlen in *. assert (0 <= i / 64) by (apply Z.div_pos; lia).
  rewrite !nth_lookup. destruct (Z.eqb_spec wi (i / 64)) as [->|].
  - rewrite list_lookup_insert_eq by lia. done.
  - rewrite list_lookup_insert_ne by lia. unfold znth. by rewrite nth_lookup.
Qed.

Lemma Test_Set b i k : wf_bitmap b -> 0 <= i -> 0 <= k ->
  Test (Set_ b i).2 k = Test b k || ((k =? i) && (i <? b.(size_))).
Proof.
  intros Hwf Hi Hk. unfold Set_. rewrite Z.geb_leb. destruct (Z.leb_spec b.(size_) i).
  { destruct (Z.ltb_spec i b.(size_)); [lia|]. cbn [snd]. by rewrite andb_false_r, orb_false_r. }
  destruct (Z.ltb_spec i b.(size_)); [|lia]. rewrite andb_true_r.
  pose proof (Z.mod_pos_bound i 64). pose proof (word_index b Hwf i).
  rewrite shiftl1_bit, land_bit by lia. rewrite <- Test_testbit by (done || lia).
  destruct (Test b i) eqn:E; cbn [snd].
  { destruct (Z.eqb_spec k i) as [->|]; [by rewrite E | by rewrite orb_false_r]. }
  destruct (decide (k < b.(size_))).
  2:{ rewrite (Test_out b) by lia. destruct (Z.eqb_spec k i); [lia|].
      unfold Test. cbn [size_]. rewrite Z.geb_leb. by destruct (Z.leb_spec b.(size_) k); [|lia]. }
  unfold Test at 1. cbn [size_]. rewrite Z.geb_leb. destruct (Z.leb_spec b.(size_) k); [lia|].
  pose proof (Z.mod_pos_bound k 64). pose proof (word_index b Hwf k).
  rewrite testbit_land1 by lia. unfold word at 1. cbn [words_].
  rewrite word_set by lia. rewrite (Test_testbit b k) by (done || lia).
  destruct (Z.eqb_spec (k / 64) (i / 64)) as [Hd|Hd].
  - rewrite Z.lor_spec, Z.pow2_bits_eqb, <- Hd by lia. f_equal.
    pose proof (Z.div_mod k 64). pose proof (Z.div_mod i 64).
    destruct (Z.eqb_spec (i mod 64) (k mod 64)), (Z.eqb_spec k i); subst; try done; lia.
  - destruct (Z.eqb_spec k i) as [->|]; [done|]. by rewrite orb_false_r.
Qed.

Lemma wf_Set b i : wf_bitmap b -> 0 <= i -> wf_bitmap (Set_ b i).2.
Proof.
  intros Hwf Hi. pose proof (Test_Set b i) as HT.
  unfold Set_ in *. rewrite Z.geb_leb in *. destruct (Z.leb_spec b.(size_) i); [done|].
  pose proof (Z.mod_pos_bound i 64). pose proof (word_index b Hwf i).
  rewrite shiftl1_bit, land_bit in * by lia. rewrite <- Test_testbit in * by (done || lia).
  destruct (Test b i) eqn:E; cbn [snd] in *; [done|].
  assert (Hnew : forall k, 0 <= k < b.(size_) -> Test b k = true ->
    Test (mkBitmap (<[Z.to_nat (i / 64):=Z.lor (word b (i / 64)) (2 ^ (i mod 64))]> b.(words_))
      b.(size_) (u32 (b.(count_) + 1)) b.(ack_base_)) k = true).
  { intros k Hk Ht. rewrite HT by (done || lia). by rewrite Ht. }
  assert (Hpow : in_u64 (2 ^ (i mod 64))).
  { pose proof (Z.pow_lt_mono_r 2 (i mod 64) 64). pose proof (Z.pow_pos_nonneg 2 (i mod 64)).
    unfold in_u64. lia. }
  destruct Hwf as [W1 W2 W3 W4 W5 W6 W7]. split; cbn [size_ words_ count_ ack_base_].
  - done.
  - rewrite <- W2. unfold zlen. by rewrite length_insert.
  - apply Forall_insert; [done|]. apply in_u64_lor; [|done].
    apply word_range; [by split | lia].
  - intros wi j Hwi Hj Hh. unfold zlen in Hwi. rewrite length_insert in Hwi. fold (zlen b.(words_)) in Hwi.
    unfold word at 1. cbn [words_]. rewrite word_set by lia.
    destruct (Z.eqb_spec wi (i / 64)) as [->|]; [|by apply W4].
    rewrite Z.lor_spec, W4, Z.pow2_bits_eqb by lia. cbn [orb].
    apply Z.eqb_neq. pose proof (Z.div_mod i 64). lia.
  - rewrite (popcount_set (Test b) _ _ i).
    + rewrite W5. apply u32_small. pose proof (popcount_bound (Test b) (Z.to_nat b.(size_))).
      assert (popcount (Test b) (Z.to_nat b.(size_)) <> Z.of_nat (Z.to_nat b.(size_))).
      { rewrite popcount_full. intros Ht. rewrite Ht in E by lia. done. }
      unfold in_u32. lia.
    + lia.
    + done.
    + rewrite HT by (done || lia). rewrite Z.eqb_refl, orb_true_iff. right.
      by apply Z.ltb_lt.
    + intros k Hk Hne. rewrite HT by (done || lia). apply Z.eqb_neq in Hne. by rewrite Hne, orb_false_r.
  - done.
  - intros k Hk. apply Hnew; [lia|]. by apply W7.
Qed.

(** [Set] reports [true] exactly when it changed the bitmap's contents. *)
Lemma Set_fresh b i : wf_bitmap b -> 0 <= i ->
  (Set_ b i).1 = negb (Test b i) && (i <? b.(size_)).
Proof.
  intros Hwf Hi. unfold Set_. rewrite Z.geb_leb. destruct (Z.leb_spec b.(size_) i).
  { destruct (Z.ltb_spec i b.(size_)); [lia|]. by rewrite andb_false_r. }
  destruct (Z.ltb_spec i b.(size_)); [|lia]. pose proof (Z.mod_pos_bound i 64).
  rewrite shiftl1_bit, land_bit by lia. rewrite <- Test_testbit by (done || lia).
  by destruct (Test b i).
Qed.

(** ** [AckBase] *)

Section ack_base.
Context (b : BlockBitmap) (Hwf : wf_bitmap b).

Lemma words_cover : zlen b.(words_) * 64 < b.(size_) + 64 /\ zlen b.(words_) <= 2 ^ 26.
Proof.
  rewrite (wf_words b Hwf). pose proof (wf_size b Hwf).
  pose proof (Z.div_mod (b.(size_) + 63) 64). pose proof (Z.mod_pos_bound (b.(size_) + 63) 64). lia.
Qed.

(** A word whose bits from [k] on are all set lies wholly below [size_]. *)
Lemma set_tail_in_range wi : 0 <= wi < zlen b.(words_) ->
  Z.testbit (word b wi) 63 = true -> (wi + 1) * 64 <= b.(size_).
Proof.
  intros Hwi H63. destruct (decide ((wi + 1) * 64 <= b.(size_))); [done|].
  rewrite (wf_high b Hwf) in H63 by lia. done.
Qed.

(** The block range of the tail of a word. *)
Lemma tail_set i : 0 <= i < b.(size_) ->
  (forall j, i mod 64 <= j < 64 -> Z.testbit (word b (i / 64)) j = true) ->
  (i / 64 + 1) * 64 <= b.(size_) /\
  forall k, i <= k < (i / 64 + 1) * 64 -> Test b k = true.
Proof.
  intros Hi Hj. pose proof (word_index b Hwf i Hi) as Hwi.
  pose proof (Z.mod_pos_bound i 64). pose proof (Z.div_mod i 64).
  split.
  - apply set_tail_in_range; [done|]. apply Hj. lia.
  - intros k Hk. replace k with (i / 64 * 64 + (k - i / 64 * 64)) by lia.
    rewrite Test_word by (done || lia). apply Hj. lia.
Qed.

Lemma AckBase_loop_spec fuel i :
  0 <= i <= b.(size_) -> zlen b.(words_) - i / 64 < Z.of_nat fuel ->
  (forall k, 0 <= k < i -> Test b k = true) ->
  exists j, AckBase_loop fuel b i = Some j /\ i <= j /\
    (forall k, 0 <= k < Z.min j b.(size_) -> Test b k = true) /\
    (j < b.(size_) -> Test b j = false).
Proof.
  revert i. induction fuel as [|fuel IH]; intros i Hi Hf Hbelow.
  { pose proof words_cover. assert (i / 64 <= zlen b.(words_)); [|lia].
    apply Z.div_le_upper_bound; [lia|].
    rewrite (wf_words b Hwf). pose proof (Z.div_mod (b.(size_) + 63) 64).
    pose proof (Z.mod_pos_bound (b.(size_) + 63) 64). lia. }
  cbn [AckBase_loop]. destruct (Z.ltb_spec i b.(size_)).
  2:{ exists i. split; [done|]. split; [lia|]. split; [|lia]. intros. apply Hbelow. lia. }
  pose proof (word_index b Hwf i ltac:(lia)) as Hwi. pose proof words_cover as [_ Hmax].
  pose proof (word_range b Hwf _ Hwi) as Hw. pose proof (Z.mod_pos_bound i 64).
  pose proof (Z.div_mod i 64).
  assert (Hnext : (forall j, i mod 64 <= j < 64 -> Z.testbit (word b (i / 64)) j = true) ->
    exists j, AckBase_loop fuel b (u32 ((i / 64 + 1) * 64)) = Some j /\ i <= j /\
    (forall k, 0 <= k < Z.min j b.(size_) -> Test b k = true) /\
    (j < b.(size_) -> Test b j = false)).
  { intros Hones. destruct (tail_set i ltac:(lia) Hones) as [Hr Ht]. pose proof (wf_size b Hwf).
    rewrite u32_small by (unfold in_u32; lia).
    assert ((i / 64 + 1) * 64 / 64 = i / 64 + 1) as Hd by (apply Z.div_mul; lia).
    destruct (IH ((i / 64 + 1) * 64)) as (j & ? & ? & ? & ?); [lia|lia| |exists j; auto with lia].
    intros k Hk. destruct (decide (k < i)); [apply Hbelow; lia | apply Ht; lia]. }
  destruct (Z.eqb_spec (word b (i / 64)) ones64) as [Hfull|_].
  { apply Hnext. intros j Hj. rewrite Hfull. apply ones64_testbit. lia. }
  case_if.
  { zbool. apply Hnext. intros j Hj.
    assert (Hm := masked_testbit (word b (i / 64)) (i mod 64) j Hw ltac:(lia) ltac:(lia)).
    rewrite Heqb0, Z.bits_0 in Hm. destruct (Z.testbit _ j); [done|].
    destruct (Z.leb_spec (i mod 64) j); [done|lia]. }
  zbool. set (m := Z.land _ _) in *.
  assert (Hm : 0 < m) by (pose proof (masked_range (Z.lxor (word b (i / 64)) ones64) (Z.shiftl ones64 (i mod 64))) as Hr;
      unfold in_u64 in Hr; fold m in Hr; lia).
  destruct (ctz_spec m Hm) as (C1 & C2 & C3).
  assert (C4 : ctz m < 64).
  { destruct (decide (ctz m < 64)); [done|].
    rewrite u64_high in C1; [done| apply masked_range |lia]. }
  assert (Hmb := fun j Hj => masked_testbit (word b (i / 64)) (i mod 64) j Hw ltac:(lia) Hj).
  fold m in Hmb. rewrite Hmb in C1 by lia. apply andb_true_iff in C1 as [C1 C5].
  apply negb_true_iff in C1. apply Z.leb_le in C5.
  rewrite u32_small by (unfold in_u32; lia).
  exists (i / 64 * 64 + ctz m). split; [done|]. split; [lia|]. split.
  - intros k Hk. destruct (decide (k < i)); [apply Hbelow; lia|].
    replace k with (i / 64 * 64 + (k - i / 64 * 64)) by lia. rewrite Test_word by (done || lia).
    specialize (C2 (k - i / 64 * 64) ltac:(lia)). rewrite Hmb in C2 by lia.
    destruct (Z.testbit (word b (i / 64)) (k - i / 64 * 64)); [done|].
    destruct (Z.leb_spec (i mod 64) (k - i / 64 * 64)); [done|lia].
  - intros _. by rewrite Test_word by (done || lia).
Qed.

End ack_base.

Lemma Test_same_words b c k :
  c.(words_) = b.(words_) -> c.(size_) = b.(size_) -> Test c k = Test b k.
Proof. intros Hw Hs. unfold Test, word. by rewrite Hw, Hs. Qed.

Lemma AckBase_spec b :
  wf_bitmap b ->
  let '(a, b') := AckBase b in
  0 <= a <= b.(size_) /\ (forall k, 0 <= k < a -> Test b k = true) /\
  (a < b.(size_) -> Test b a = false) /\
  wf_bitmap b' /\ (forall k, Test b' k = Test b k) /\ b'.(size_) = b.(size_) /\
  b'.(count_) = b.(count_).
Proof.
  intros Hwf. unfold AckBase. pose proof (wf_ack b Hwf). pose proof (wf_size b Hwf).
  destruct (AckBase_loop_spec b Hwf (S (length b.(words_))) b.(ack_base_)) as (j & -> & Hj & Ht & Hf).
  { done. }
  { assert (0 <= b.(ack_base_) / 64) by (apply Z.div_pos; lia). zlia. }
  { apply (wf_below b Hwf). }
  cbn [default from_option id]. rewrite Z.gtb_ltb.
  set (a := if b.(size_) <? j then b.(size_) else j).
  assert (Ha : a = Z.min j b.(size_)) by (unfold a; destruct (Z.ltb_spec b.(size_) j); lia).
  rewrite <- Ha in Ht. split; [lia|]. split; [done|].
  split; [intros; replace a with j by lia; apply Hf; lia|].
  assert (HT : forall k, Test (mkBitmap b.(words_) b.(size_) b.(count_) a) k = Test b k)
    by (intros; by apply Test_same_words).
  split; [|done]. destruct Hwf. split; cbn [words_ size_ count_ ack_base_]; try done.
  - lia.
Qed.

(** [AckBase] returns the first missing block ([size_] when there is none) and only refreshes
    the cache. *)
Theorem AckBase_first_unset b :
  wf_bitmap b ->
  let '(a, b') := AckBase b in
  0 <= a <= b.(size_) /\ (forall k, 0 <= k < a -> Test b k = true) /\
  (a < b.(size_) -> Test b a = false) /\
  wf_bitmap b' /\ (forall k, Test b' k = Test b k) /\ b'.(size_) = b.(size_) /\
  b'.(count_) = b.(count_).
Proof. exact (AckBase_spec b). Qed.

(** ** The reference scan *)

Lemma ref_runs_start P i n r : In r (ref_runs P i n) -> i <= r.(start).
Proof.
  revert i r. induction n as [|n IH]; intros i r; simpl; [done|].
  destruct (P i).
  - destruct (ref_runs P (i + 1) n) as [|r' rs] eqn:E.
    + intros [<-|[]]. simpl. lia.
    + assert (forall r0, In r0 (r' :: rs) -> i + 1 <= r0.(start)) as Hs
        by (intros r0; rewrite <- E; apply IH).
      case_if; intros [<-|Hin]; simpl; try lia.
      * pose proof (Hs r (or_intror Hin)). lia.
      * pose proof (Hs r Hin). lia.
  - intros Hin. apply IH in Hin. lia.
Qed.

Lemma ref_runs_skip P i j n :
  i <= j <= i + Z.of_nat n -> (forall k, i <= k < j -> P k = false) ->
  ref_runs P i n = ref_runs P j (n - Z.to_nat (j - i)).
Proof.
  revert i. induction n as [|n IH]; intros i Hj Hk; [done|].
  destruct (decide (i = j)) as [->|].
  { replace (j - j) with 0 by lia. done. }
  simpl ref_runs at 1. rewrite Hk by lia. rewrite IH; [f_equal; lia | lia | intros; apply Hk; lia].
Qed.

Lemma ref_runs_run P i j n :
  i < j <= i + Z.of_nat n -> (forall k, i <= k < j -> P k = true) ->
  (j < i + Z.of_nat n -> P j = false) ->
  ref_runs P i n = mkSackRun i (j - i) :: ref_runs P j (n - Z.to_nat (j - i)).
Proof.
  revert i. induction n as [|n IH]; intros i Hj Hk Hend; [lia|].
  cbn [ref_runs]. rewrite Hk by lia. destruct (decide (j = i + 1)) as [->|].
  - replace (Z.to_nat (i + 1 - i)) with 1%nat by lia. cbn [Nat.sub]. rewrite Nat.sub_0_r.
    replace (i + 1 - i) with 1 by lia.
    destruct (ref_runs P (i + 1) n) as [|r rs] eqn:E; [done|].
    destruct (Z.eqb_spec r.(start) (i + 1)) as [Hs|]; [|done]. exfalso.
    destruct n as [|n]; [done|]. cbn [ref_runs] in E. rewrite Hend in E by lia.
    pose proof (ref_runs_start P (i + 1 + 1) n r) as H1. rewrite E in H1. specialize (H1 (or_introl eq_refl)). lia.
  - rewrite (IH (i + 1)) by (lia || (intros; apply Hk; lia) || (intros; apply Hend; lia)).
    cbn [start length_]. rewrite Z.eqb_refl. f_equal; [f_equal; lia|]. f_equal. lia.
Qed.

(** Every run of the scan starts in range, is non-empty, and the runs are in ascending order. *)
Lemma ref_runs_pos P i n : Forall (fun r => i <= r.(start) /\ 1 <= r.(length_)) (ref_runs P i n).
Proof.
  revert i. induction n as [|n IH]; intros i; simpl; [constructor|]. specialize (IH (i + 1)).
  assert (Hw : Forall (fun r => i <= r.(start) /\ 1 <= r.(length_)) (ref_runs P (i + 1) n)).
  { eapply Forall_impl; [exact IH|]. intros r. simpl. lia. }
  destruct (P i); [|done]. destruct (ref_runs P (i + 1) n) as [|r rs].
  - repeat constructor; simpl; lia.
  - apply Forall_cons in Hw as [Hr Hw]. case_if; repeat constructor; simpl; try done; lia.
Qed.

Lemma ref_runs_covered P i n k :
  covered k (ref_runs P i n) <-> i <= k < i + Z.of_nat n /\ P k = true.
Proof.
  unfold covered. revert i. induction n as [|n IH]; intros i.
  { simpl. rewrite Exists_nil. lia. }
  specialize (IH (i + 1)). pose proof (ref_runs_pos P (i + 1) n) as Hs. cbn [ref_runs].
  destruct (P i) eqn:E.
  - assert (Hk : (k = i \/ i + 1 <= k < i + 1 + Z.of_nat n /\ P k = true) <->
                 i <= k < i + Z.of_nat (S n) /\ P k = true).
    { split; [intros [->|[? ?]]; split; try done; lia|]. intros [H1 H2].
      destruct (decide (k = i)); [by left|right; split; [lia|done]]. }
    rewrite <- Hk, <- IH. clear IH Hk.
    destruct (ref_runs P (i + 1) n) as [|r rs].
    + rewrite Exists_cons, !Exists_nil. unfold in_run. simpl. lia.
    + apply Forall_cons in Hs as [[Hr1 Hr2] _].
      destruct (Z.eqb_spec r.(start) (i + 1)); rewrite !Exists_cons; unfold in_run; simpl.
      * assert (i <= k < i + (r.(length_) + 1) <->
                k = i \/ r.(start) <= k < r.(start) + r.(length_)) by lia. tauto.
      * assert (i <= k < i + 1 <-> k = i) by lia. tauto.
  - rewrite IH. split; intros [H1 H2]; (split; [|done]); [lia|].
    destruct (decide (k = i)); [congruence|lia].
Qed.

(** ** The scan loops *)

Lemma is_bit_false b v k : is_bit b v k = false <-> Test b k = negb v.
Proof. unfold is_bit. destruct (Test b k), v; done. Qed.

Lemma is_bit_true b v k : is_bit b v k = true <-> Test b k = v.
Proof. unfold is_bit. destruct (Test b k), v; done. Qed.

Lemma skip_while_spec b v fuel i :
  wf_bitmap b -> b.(size_) <= max_blocks -> 0 <= i ->
  Z.max 0 (b.(size_) - i) < Z.of_nat fuel ->
  exists j, skip_while fuel b v i = Some j /\ i <= j /\
    (forall k, i <= k < Z.min j b.(size_) -> Test b k = v) /\
    (j < b.(size_) -> Test b j = negb v).
Proof.
  intros Hwf Hmax. unfold max_blocks in Hmax. revert i.
  induction fuel as [|fuel IH]; intros i Hi Hf; [lia|]. cbn [skip_while].
  destruct (Z.ltb_spec i b.(size_)); cbn [andb]; [|exists i; repeat split; intros; lia || done].
  destruct (eqb_spec (Test b i) v) as [Ht|Hne].
  2:{ exists i. repeat split; intros; try lia. by destruct (Test b i), v. }
  assert (Hstep : forall d, 1 <= d <= 64 ->
    (forall k, i <= k < Z.min (i + d) b.(size_) -> Test b k = v) ->
    exists j, skip_while fuel b v (u32 (i + d)) = Some j /\ i <= j /\
    (forall k, i <= k < Z.min j b.(size_) -> Test b k = v) /\
    (j < b.(size_) -> Test b j = negb v)).
  { intros d Hd Hk. rewrite u32_small by (unfold in_u32; lia).
    destruct (IH (i + d)) as (j & -> & Hj & Hr & He); [lia|lia|]. exists j.
    repeat split; try done; [lia|]. intros k Hk'.
    destruct (decide (k < i + d)); [apply Hk; lia | apply Hr; lia]. }
  case_if; apply Hstep; try lia.
  - zbool. intros k Hk. pose proof (word_index b Hwf i ltac:(lia)) as Hwi.
    pose proof (proj1 (full_word_bits _ v (word_range b Hwf _ Hwi)) ltac:(done)) as Hb.
    pose proof (Z.div_mod i 64). replace k with (i / 64 * 64 + (k - i)) by lia.
    rewrite Test_word by (done || lia). apply Hb. lia.
  - intros k Hk. by replace k with i by lia.
Qed.

Lemma runs_loop_spec b v fuel i max out :
  wf_bitmap b -> b.(size_) <= max_blocks -> 0 <= i ->
  Z.max 0 (b.(size_) - i) < Z.of_nat fuel ->
  runs_loop fuel b v i max out =
    Some (out ++ ztake (max - zlen out) (ref_runs (is_bit b v) i (Z.to_nat (b.(size_) - i)))).
Proof.
  intros Hwf Hmax. revert i out. induction fuel as [|fuel IH]; intros i out Hi Hf; [lia|].
  cbn [runs_loop]. destruct (Z.ltb_spec i b.(size_)); cbn [andb].
  2:{ replace (Z.to_nat (b.(size_) - i)) with O by lia. cbn [ref_runs].
      unfold ztake. by rewrite take_nil, app_nil_r. }
  destruct (Z.ltb_spec (zlen out) max).
  2:{ unfold ztake. replace (Z.to_nat (max - zlen out)) with O by lia. by rewrite take_0, app_nil_r. }
  unfold scan_fuel.
  destruct (skip_while_spec b (negb v) (S (Z.to_nat b.(size_))) i) as (j & -> & Hj & Hsk & Hje); [done..|lia|].
  cbn [mbind option_bind]. rewrite Z.geb_leb. destruct (Z.leb_spec b.(size_) j).
  { rewrite (ref_runs_skip _ i b.(size_)).
    - replace (_ - _)%nat with O by lia. unfold ztake. cbn [ref_runs]. by rewrite take_nil, app_nil_r.
    - lia.
    - intros k Hk. apply is_bit_false. apply Hsk. lia. }
  destruct (skip_while_spec b v (S (Z.to_nat b.(size_))) j) as (e & -> & He & Hrun & Hee); [done..|lia|lia|].
  cbn [mbind option_bind]. rewrite Z.gtb_ltb.
  set (e' := if b.(size_) <? e then b.(size_) else e).
  assert (He' : e' = Z.min e b.(size_)) by (unfold e'; destruct (Z.ltb_spec b.(size_) e); lia).
  rewrite negb_involutive in Hje. unfold max_blocks in *.
  assert (Hlt : j < e').
  { rewrite He'. destruct (decide (j < e)); [lia|]. replace e with j in * by lia.
    specialize (Hje ltac:(lia)). specialize (Hee ltac:(lia)). rewrite Hje in Hee. by destruct v. }
  rewrite u32_small by (unfold in_u32; pose proof (wf_size b Hwf); lia).
  rewrite (ref_runs_skip _ i j) by (lia || (intros k Hk; apply is_bit_false, Hsk; lia)).
  rewrite (ref_runs_run _ j e').
  - rewrite IH by lia. f_equal. rewrite <- app_assoc. f_equal. zlen_simpl.
    replace (max - zlen out) with (1 + (max - (zlen out + (1 + 0)))) by lia.
    unfold ztake. rewrite Z2Nat.inj_add by lia. change (Z.to_nat 1) with 1%nat.
    cbn [Nat.add app take]. do 2 f_equal. f_equal. lia.
  - lia.
  - intros k Hk. apply is_bit_true, Hrun. lia.
  - intros Hlt'. apply is_bit_false. replace e' with e by lia. apply Hee. lia.
Qed.

(** ** Equivalence with the bit-by-bit scan *)

Lemma Holes_spec b from max :
  wf_bitmap b -> b.(size_) <= max_blocks -> 0 <= from -> 0 < max ->
  let lo := Z.max from (AckBase b).1 in
  (Holes b from max).1 =
    ztake max (ref_runs (fun k => negb (Test b k)) lo (Z.to_nat (b.(size_) - lo))) /\
  wf_bitmap (Holes b from max).2 /\ (forall k, Test (Holes b from max).2 k = Test b k) /\
  (Holes b from max).2.(size_) = b.(size_) /\ (Holes b from max).2.(count_) = b.(count_).
Proof.
  intros Hwf Hmax Hfrom Hm. unfold Holes. destruct (Z.eqb_spec max 0); [lia|].
  pose proof (AckBase_spec b Hwf) as HA. destruct (AckBase b) as [a b'].
  destruct HA as (Ha & _ & _ & Hwf' & HT & Hs & Hc). cbn [fst snd].
  rewrite runs_loop_spec; unfold scan_fuel; rewrite ?Hs; try done; try lia.
  cbn [default from_option id app]. split; [|done].
  rewrite Z.sub_0_r. f_equal. generalize (Z.to_nat (b.(size_) - Z.max from a)).
  generalize (Z.max from a). intros i m. clear -HT. revert i.
  induction m as [|m IH]; intros i; simpl; [done|]. rewrite IH. unfold is_bit at 1.
  rewrite HT. by destruct (Test b i).
Qed.

(** [Holes] is the bit-by-bit scan for missing runs from [max(from, AckBase())]: skipping whole
    words changes neither the runs nor their order, and the fuel always suffices. *)
Theorem Holes_eq_scan b from max :
  wf_bitmap b -> b.(size_) <= max_blocks -> 0 <= from -> 0 < max ->
  let lo := Z.max from (AckBase b).1 in
  (Holes b from max).1 =
    ztake max (ref_runs (fun k => negb (Test b k)) lo (Z.to_nat (b.(size_) - lo))) /\
  wf_bitmap (Holes b from max).2 /\ (forall k, Test (Holes b from max).2 k = Test b k) /\
  (Holes b from max).2.(size_) = b.(size_) /\ (Holes b from max).2.(count_) = b.(count_).
Proof. exact (Holes_spec b from max). Qed.

Lemma HaveRuns_spec b max :
  wf_bitmap b -> b.(size_) <= max_blocks -> 0 < max ->
  HaveRuns b max = ztake max (ref_runs (Test b) 0 (Z.to_nat b.(size_))).
Proof.
  intros Hwf Hmax Hm. unfold HaveRuns. destruct (Z.eqb_spec max 0); [lia|].
  rewrite runs_loop_spec; unfold scan_fuel; try done; try lia.
  cbn [default from_option id app]. rewrite !Z.sub_0_r. f_equal.
  generalize (Z.to_nat b.(size_)). generalize 0. intros i m. clear. revert i.
  induction m as [|m IH]; intros i; simpl; [done|]. rewrite IH. unfold is_bit at 1.
  by destruct (Test b i).
Qed.

(** [HaveRuns] is the bit-by-bit scan for received runs from block 0. *)
Theorem HaveRuns_eq_scan b max :
  wf_bitmap b -> b.(size_) <= max_blocks -> 0 < max ->
  HaveRuns b max = ztake max (ref_runs (Test b) 0 (Z.to_nat b.(size_))).
Proof. exact (HaveRuns_spec b max). Qed.

(** ** Setting runs *)

Lemma set_range_spec b i n k : wf_bitmap b -> 0 <= i -> 0 <= k ->
  wf_bitmap (set_range b i n) /\ (set_range b i n).(size_) = b.(size_) /\
  Test (set_range b i n) k =
    Test b k || ((i <=? k) && (k <? i + Z.of_nat n) && (k <? b.(size_))).
Proof.
  revert b i. induction n as [|n IH]; intros b i Hwf Hi Hk; cbn [set_range].
  { split; [done|]. split; [done|]. destruct (Z.leb_spec i k), (Z.ltb_spec k (i + Z.of_nat 0));
      try lia; cbn; by rewrite ?orb_false_r. }
  destruct (IH (Set_ b i).2 (i + 1)) as (H1 & H2 & H3); [by apply wf_Set|lia|lia|].
  split; [done|]. rewrite H2, Set_size in *. split; [done|]. rewrite H3, Test_Set by done.
  rewrite <- orb_assoc. f_equal.
  destruct (Z.eqb_spec k i), (Z.ltb_spec i b.(size_)), (Z.leb_spec (i + 1) k),
    (Z.ltb_spec k (i + 1 + Z.of_nat n)), (Z.ltb_spec k b.(size_)), (Z.leb_spec i k),
    (Z.ltb_spec k (i + Z.of_nat (S n))); cbn; done || lia.
Qed.

Lemma set_run_spec b r k : wf_bitmap b -> wf_run r -> 0 <= k ->
  wf_bitmap (set_run b r) /\ (set_run b r).(size_) = b.(size_) /\
  Test (set_run b r) k = Test b k || run_covers b.(size_) k r.
Proof.
  intros Hwf [[Hs Hs'] [Hl Hl']] Hk. unfold set_run, run_covers. pose proof (wf_size b Hwf).
  rewrite Z.geb_leb. destruct (Z.leb_spec b.(size_) r.(start)).
  { split; [done|]. split; [done|]. destruct (Z.leb_spec r.(start) k), (Z.ltb_spec k b.(size_));
      try lia; cbn; by rewrite ?andb_false_r, ?orb_false_r. }
  rewrite u64_small by (unfold in_u64; lia). rewrite Z.gtb_ltb.
  set (e := if b.(size_) <? _ then _ else _).
  assert (He : e = Z.min b.(size_) (r.(start) + r.(length_))).
  { unfold e. destruct (Z.ltb_spec b.(size_) (r.(start) + r.(length_))); [lia|].
    rewrite u32_small by (unfold in_u32; lia). lia. }
  destruct (set_range_spec b r.(start) (Z.to_nat (e - r.(start))) k) as (H1 & H2 & H3); [done..|].
  split; [done|]. split; [done|]. rewrite H3. f_equal.
  destruct (Z.leb_spec r.(start) k), (Z.ltb_spec k (r.(start) + Z.of_nat (Z.to_nat (e - r.(start))))),
    (Z.ltb_spec k b.(size_)), (Z.ltb_spec k (r.(start) + r.(length_))); cbn; done || lia.
Qed.

Lemma SetRuns_spec b rs k : wf_bitmap b -> Forall wf_run rs -> 0 <= k ->
  wf_bitmap (SetRuns b rs) /\ (SetRuns b rs).(size_) = b.(size_) /\
  Test (SetRuns b rs) k = Test b k || existsb (run_covers b.(size_) k) rs.
Proof.
  intros Hwf Hrs Hk. unfold SetRuns. revert b Hwf. induction Hrs as [|r rs Hr Hrs IH]; intros b Hwf.
  { cbn. by rewrite orb_false_r. }
  cbn [fold_left existsb]. destruct (set_run_spec b r k Hwf Hr Hk) as (H1 & H2 & H3).
  destruct (IH _ H1) as (H4 & H5 & H6). rewrite H2 in *. split; [done|]. split; [done|].
  by rewrite H6, H3, orb_assoc.
Qed.

Lemma covered_existsb size k rs : 0 <= k < size ->
  existsb (run_covers size k) rs = true <-> covered k rs.
Proof.
  intros Hk. unfold covered, in_run. induction rs as [|r rs IH]; cbn [existsb].
  - by rewrite Exists_nil.
  - rewrite orb_true_iff, IH, Exists_cons. unfold run_covers.
    rewrite !andb_true_iff, Z.leb_le, !Z.ltb_lt. intuition lia.
Qed.

(** The runs of a scan of [0, n) fit 32 bits when [n] does. *)
Lemma ref_runs_wf P i n : 0 <= i -> i + Z.of_nat n < 2 ^ 32 ->
  Forall (fun r => wf_run r /\ r.(start) + r.(length_) <= i + Z.of_nat n) (ref_runs P i n).
Proof.
  unfold wf_run, in_u32. revert i. induction n as [|n IH]; intros i Hi Hn; [constructor|].
  cbn [ref_runs]. specialize (IH (i + 1) ltac:(lia) ltac:(lia)).
  assert (Hw : Forall (fun r => (0 <= r.(start) < 2 ^ 32 /\ 0 <= r.(length_) < 2 ^ 32) /\
    r.(start) + r.(length_) <= i + Z.of_nat (S n)) (ref_runs P (i + 1) n)).
  { eapply Forall_impl; [exact IH|]. intros r Hr. cbv beta in *. lia. }
  pose proof (ref_runs_pos P (i + 1) n) as Hp. destruct (P i); [|done].
  destruct (ref_runs P (i + 1) n) as [|r rs].
  - repeat constructor; cbn [start length_]; lia.
  - apply Forall_cons in Hw as [Hr Hw]. apply Forall_cons in Hp as [Hp _].
    case_if; zbool; repeat (apply Forall_cons; split); cbn [start length_]; try done; lia.
Qed.

Lemma resume_spec b max :
  wf_bitmap b -> b.(size_) <= max_blocks -> 0 < max ->
  let b' := SetRuns (Reset b.(size_)) (HaveRuns b max) in
  wf_bitmap b' /\ b'.(size_) = b.(size_) /\
  (forall k, 0 <= k -> Test b' k = true -> Test b k = true) /\
  (zlen (HaveRuns b max) < max -> forall k, 0 <= k -> Test b' k = Test b k).
Proof.
  intros Hwf Hmax Hm b'. pose proof (wf_size b Hwf) as Hsz. unfold max_blocks in *.
  assert (Hrw : forall m, Forall wf_run (ztake m (ref_runs (Test b) 0 (Z.to_nat b.(size_))))).
  { intros m. apply Forall_take. eapply Forall_impl; [apply ref_runs_wf; lia|]. by intros r []. }
  pose proof (HaveRuns_spec b max Hwf Hmax Hm) as HR. subst b'. rewrite HR.
  assert (HS := fun k => SetRuns_spec (Reset b.(size_)) _ k (wf_Reset _ Hsz) (Hrw max)).
  cbn [size_ Reset] in HS. destruct (HS 0 ltac:(lia)) as (H1 & H2 & _).
  split; [done|]. split; [done|].
  assert (Hin : forall k rs, 0 <= k -> existsb (run_covers b.(size_) k) rs = true -> k < b.(size_)).
  { intros k rs _. induction rs as [|r rs IH]; cbn [existsb]; [done|].
    rewrite orb_true_iff. unfold run_covers at 1. rewrite !andb_true_iff, !Z.ltb_lt. intuition. }
  assert (Hcov : forall k m, covered k (ztake m (ref_runs (Test b) 0 (Z.to_nat b.(size_)))) -> Test b k = true).
  { intros k m Hc. apply (ref_runs_covered (Test b) 0 (Z.to_nat b.(size_)) k).
    unfold covered, ztake in *.
    rewrite <- (take_drop (Z.to_nat m) (ref_runs _ _ _)). apply Exists_app. by left. }
  split.
  - intros k Hk Ht. destruct (HS k Hk) as (_ & _ & HT). rewrite HT, Test_Reset in Ht. cbn [orb] in Ht.
    apply (Hcov k max). apply (covered_existsb b.(size_)); [|done]. pose proof (Hin k _ Hk Ht). lia.
  - intros Hlen k Hk. destruct (HS k Hk) as (_ & _ & HT). rewrite HT, Test_Reset. cbn [orb].
    destruct (decide (k < b.(size_))).
    2:{ rewrite (Test_out b) by lia. destruct (existsb _ _) eqn:E; [|done].
        pose proof (Hin k _ Hk E). lia. }
    rewrite ztake_all in * by (zlen_simpl; lia).
    apply eq_true_iff_eq. rewrite covered_existsb, ref_runs_covered by lia. split; [tauto|].
    split; [lia|done].
Qed.

(** Persisting the runs of a bitmap and setting them in a fresh bitmap of the same size
    rebuilds it exactly, provided the run limit was not reached; it never marks a block that
    was not received in any case. *)
Theorem resume_roundtrip b max :
  wf_bitmap b -> b.(size_) <= max_blocks -> 0 < max ->
  let b' := SetRuns (Reset b.(size_)) (HaveRuns b max) in
  wf_bitmap b' /\ b'.(size_) = b.(size_) /\
  (forall k, 0 <= k -> Test b' k = true -> Test b k = true) /\
  (zlen (HaveRuns b max) < max -> forall k, 0 <= k -> Test b' k = Test b k).
Proof. exact (resume_spec b max). Qed.

(** ** The index of the scan wraps on the largest files *)

(** With more than [max_blocks] blocks and none received, the scan of [HaveRuns] never ends:
    its word step takes the 32-bit index from [2^32 - 64] back to 0, whatever the fuel. *)
Theorem HaveRuns_wraps n fuel :
  max_blocks < n < 2 ^ 32 -> skip_while fuel (Reset n) false 0 = None.
Proof.
  unfold max_blocks. intros Hn.
  assert (forall i, 0 <= i < 2 ^ 26 -> skip_while fuel (Reset n) false (i * 64) = None) as H;
    [|apply (H 0); lia].
  induction fuel as [|fuel IH]; intros i Hi; [done|]. cbn [skip_while].
  rewrite Test_Reset, word_Reset. cbn [size_ Reset full_word].
  destruct (Z.ltb_spec (i * 64) n); [|lia]. rewrite Z.mod_mul by lia. cbn.
  destruct (decide (i = 2 ^ 26 - 1)) as [->|].
  - apply (IH 0). lia.
  - rewrite u32_small by (unfold in_u32; lia).
    replace (i * 64 + 64) with ((i + 1) * 64) by lia. apply IH. lia.
Qed.

(** ** Witnesses *)

(** A bitmap of 130 blocks (three words) with blocks 0-69 and 72-79 received. *)
Definition sample : BlockBitmap := SetRuns (Reset 130) [mkSackRun 0 70; mkSackRun 72 8].

Lemma wf_sample : wf_bitmap sample.
Proof.
  apply (SetRuns_spec (Reset 130) _ 0); [apply wf_Reset; lia| |lia].
  repeat constructor; unfold in_u32; simpl; lia.
Qed.

Lemma AckBase_first_unset_witness :
  (AckBase sample).1 = 70 /\ 0 <= (let '(a, _) := AckBase sample in a) <= 130.
Proof.
  split; [vm_compute; reflexivity|].
  pose proof (AckBase_first_unset sample wf_sample) as H. destruct (AckBase sample) as [a b].
  change (size_ sample) with 130 in H. exact (proj1 H).
Defined.

Lemma Holes_eq_scan_witness :
  (Holes sample 0 10).1 = [mkSackRun 70 2; mkSackRun 80 50] /\
  (Holes sample 0 10).1 = ztake 10 (ref_runs (fun k => negb (Test sample k)) 70 60).
Proof.
  split; [vm_compute; reflexivity|].
  exact (proj1 (Holes_eq_scan sample 0 10 wf_sample ltac:(by vm_compute) ltac:(lia) ltac:(lia))).
Defined.

Lemma HaveRuns_eq_scan_witness :
  HaveRuns sample 10 = [mkSackRun 0 70; mkSackRun 72 8] /\
  HaveRuns sample 10 = ztake 10 (ref_runs (Test sample) 0 130).
Proof.
  split; [vm_compute; reflexivity|].
  exact (HaveRuns_eq_scan sample 10 wf_sample ltac:(by vm_compute) ltac:(lia)).
Defined.

Lemma resume_roundtrip_witness :
  Test (SetRuns (Reset 130) (HaveRuns sample 10)) 75 = Test sample 75.
Proof.
  destruct (resume_roundtrip sample 10 wf_sample ltac:(by vm_compute) ltac:(lia)) as (_ & _ & _ & H).
  exact (H ltac:(by vm_compute) 75 ltac:(lia)).
Defined.

Lemma HaveRuns_wraps_witness : skip_while 1000 (Reset (2 ^ 32 - 1)) false 0 = None.
Proof. exact (HaveRuns_wraps (2 ^ 32 - 1) 1000 ltac:(unfold max_blocks; lia)). Defined.
