(* ===== verification/BitmapSpec.v ===== *)
(** * The bitmap against its specification ([core/src/transfer/bitmap.h])

    The header promises a set of block numbers below a size.  [Blocks] is the interface of that
    promise, with an operation per member function; [bitmap_blocks] implements it by the words, the
    count and the cached base of [BlockBitmap], [set_blocks_spec] by a finite set.  [bitmap_refines_set]
    shows that no sequence of calls on bitmaps of at most 2^32 - 64 blocks tells the two apart. *)
From S2P Require Export Bitmap.

(** ** The interface *)

Class Blocks (B : Type) := {
  b_Reset : Z -> B;
  b_size : B -> Z;
  b_count : B -> Z;
  b_Complete : B -> bool;
  b_Test : Z -> B -> bool;
  b_Set : Z -> B -> bool * B;
  b_AckBase : B -> Z * B;
  b_Holes : Z -> Z -> B -> list SackRun * B;
  b_HaveRuns : Z -> B -> list SackRun;
  b_SetRuns : list SackRun -> B -> B;
}.

#[export] Instance bitmap_blocks : Blocks BlockBitmap := {|
  b_Reset := Reset;
  b_size := size_;
  b_count := count_;
  b_Complete := Complete;
  b_Test i b := Test b i;
  b_Set i b := Set_ b i;
  b_AckBase := AckBase;
  b_Holes from max b := Holes b from max;
  b_HaveRuns max b := HaveRuns b max;
  b_SetRuns rs b := SetRuns b rs;
|}.

(** The specification: the blocks received, each below the size. *)
Record BlockSet := mkBlockSet { bs_size : Z; bs_blocks : gset Z }.
Definition has (s : BlockSet) (k : Z) : bool := bool_decide (k ∈ s.(bs_blocks)).
Definition all_blocks (s : BlockSet) : list Z := seqZ 0 s.(bs_size).

(** The first position from [i] where [P] fails, [i + n] when there is none below it. *)
Fixpoint first_unset (P : Z -> bool) (i : Z) (n : nat) : Z :=
  match n with
  | O => i
  | S n => if P i then first_unset P (i + 1) n else i
  end.

#[export] Instance set_blocks_spec : Blocks BlockSet := {|
  b_Reset n := mkBlockSet n ∅;
  b_size := bs_size;
  b_count s := Z.of_nat (size s.(bs_blocks));
  b_Complete s := forallb (has s) (all_blocks s);
  b_Test i s := has s i;
  b_Set i s := if has s i || (s.(bs_size) <=? i) then (false, s)
               else (true, mkBlockSet s.(bs_size) ({[i]} ∪ s.(bs_blocks)));
  b_AckBase s := (first_unset (has s) 0 (Z.to_nat s.(bs_size)), s);
  b_Holes from max s := (ztake max (ref_runs (fun k => negb (has s k)) from (Z.to_nat (s.(bs_size) - from))), s);
  b_HaveRuns max s := ztake max (ref_runs (has s) 0 (Z.to_nat s.(bs_size)));
  b_SetRuns rs s := mkBlockSet s.(bs_size)
    (list_to_set (filter (fun k => existsb (run_covers s.(bs_size) k) rs = true) (all_blocks s)) ∪ s.(bs_blocks));
|}.

(** ** Programs over the interface *)

Inductive BlockCall :=
| CallReset (block_count : Z) | CallTest (index : Z) | CallSet (index : Z) | CallSize | CallCount | CallComplete
| CallAckBase | CallHoles (from max_runs : Z) | CallHaveRuns (max_runs : Z) | CallSetRuns (runs : list SackRun).

Inductive BlockAnswer := AnsBool (b : bool) | AnsNum (n : Z) | AnsRuns (rs : list SackRun) | AnsNone.

(** The arguments the C++ types allow, for bitmaps up to [max_blocks]. *)
Definition call_ok (c : BlockCall) : Prop :=
  match c with
  | CallReset n => 0 <= n <= max_blocks
  | CallTest i | CallSet i => 0 <= i
  | CallHoles from max => 0 <= from /\ 0 <= max
  | CallHaveRuns max => 0 <= max
  | CallSetRuns rs => Forall wf_run rs
  | CallSize | CallCount | CallComplete | CallAckBase => True
  end.

Section program.
Context `{Blocks B}.

Definition block_call (c : BlockCall) (b : B) : BlockAnswer * B :=
  match c with
  | CallReset n => (AnsNone, b_Reset n)
  | CallTest i => (AnsBool (b_Test i b), b)
  | CallSet i => let '(fresh, b) := b_Set i b in (AnsBool fresh, b)
  | CallSize => (AnsNum (b_size b), b)
  | CallCount => (AnsNum (b_count b), b)
  | CallComplete => (AnsBool (b_Complete b), b)
  | CallAckBase => let '(n, b) := b_AckBase b in (AnsNum n, b)
  | CallHoles from max => let '(rs, b) := b_Holes from max b in (AnsRuns rs, b)
  | CallHaveRuns max => (AnsRuns (b_HaveRuns max b), b)
  | CallSetRuns rs => (AnsNone, b_SetRuns rs b)
  end.

Fixpoint block_answers (cs : list BlockCall) (b : B) : list BlockAnswer :=
  match cs with
  | [] => []
  | c :: cs => let '(a, b) := block_call c b in a :: block_answers cs b
  end.

End program.

(** ** The simulation *)

(** The bitmap is well-formed and its bits are the members of the set. *)
Record represents (b : BlockBitmap) (s : BlockSet) : Prop := {
  rep_wf : wf_bitmap b;
  rep_max : b.(size_) <= max_blocks;
  rep_size : b.(size_) = s.(bs_size);
  rep_bits : forall k, 0 <= k -> Test b k = has s k;
  rep_range : forall k, k ∈ s.(bs_blocks) -> 0 <= k < s.(bs_size);
}.

Lemma has_true s k : has s k = true <-> k ∈ s.(bs_blocks).
Proof. apply bool_decide_eq_true. Qed.

Lemma elem_of_blocks s k : k ∈ all_blocks s <-> 0 <= k < s.(bs_size).
Proof. unfold all_blocks. rewrite elem_of_seqZ. lia. Qed.

Lemma popcount_size n : forall X : gset Z, (forall k, k ∈ X -> 0 <= k < Z.of_nat n) ->
  popcount (fun k => bool_decide (k ∈ X)) n = Z.of_nat (size X).
Proof.
  induction n as [|n IH]; intros X HX; cbn [popcount].
  - destruct (decide (size X = 0%nat)) as [->|E]; [done|].
    apply size_pos_elem_of in E as [k Hk] || (destruct (size_pos_elem_of X ltac:(lia)) as [k Hk]). specialize (HX k Hk). lia.
  - rewrite (popcount_ext _ (fun k => bool_decide (k ∈ X ∖ {[Z.of_nat n]}))).
    2:{ intros i Hi. apply bool_decide_ext. rewrite elem_of_difference, elem_of_singleton. intuition lia. }
    rewrite IH.
    2:{ intros k [Hk Hn]%elem_of_difference. rewrite elem_of_singleton in Hn. specialize (HX k Hk). lia. }
    case_bool_decide as Hn.
    + rewrite (size_difference X {[Z.of_nat n]}), size_singleton by (intros k Hk; by apply elem_of_singleton in Hk as ->).
      assert (size X <> 0)%nat by (intros E; apply size_empty_inv in E; apply (not_elem_of_empty (C := gset Z) (Z.of_nat n)); by rewrite <- E). lia.
    + replace (X ∖ {[Z.of_nat n]}) with X; [lia|]. apply leibniz_equiv. intros k.
      rewrite elem_of_difference, elem_of_singleton. naive_solver.
Qed.

Lemma ref_runs_ext P Q i n : (forall k, i <= k < i + Z.of_nat n -> P k = Q k) -> ref_runs P i n = ref_runs Q i n.
Proof.
  revert i. induction n as [|n IH]; intros i H; [done|]. cbn [ref_runs].
  rewrite (H i), (IH (i + 1)) by (intros; try apply H; lia). done.
Qed.

Lemma first_unset_spec P a n : forall i, i <= a <= i + Z.of_nat n ->
  (forall k, i <= k < a -> P k = true) -> (a < i + Z.of_nat n -> P a = false) -> first_unset P i n = a.
Proof.
  induction n as [|n IH]; intros i Ha Hb Hat; cbn [first_unset]; [lia|].
  destruct (decide (i = a)) as [->|]; [by rewrite Hat by lia|].
  rewrite Hb by lia. apply IH; [lia| |]; intros; [apply Hb|apply Hat]; lia.
Qed.

Section simulation.
Context (b : BlockBitmap) (s : BlockSet) (R : represents b s).

Lemma represents_same b' : wf_bitmap b' -> b'.(size_) = b.(size_) -> (forall k, Test b' k = Test b k) -> represents b' s.
Proof.
  destruct R as [Hw Hm Hs Hb Hr]. intros Hw' Hs' Ht. split; [done|congruence|congruence| |done].
  intros k Hk. rewrite Ht. by apply Hb.
Qed.

Lemma count_same : b.(count_) = Z.of_nat (size s.(bs_blocks)).
Proof.
  destruct R as [Hw Hm Hs Hb Hr]. rewrite (wf_count b Hw), <- (popcount_size (Z.to_nat b.(size_))).
  - apply popcount_ext. intros i Hi. apply Hb. lia.
  - intros k Hk. pose proof (Hr k Hk). lia.
Qed.

Lemma complete_same : Complete b = forallb (has s) (all_blocks s).
Proof.
  destruct R as [Hw Hm Hs Hb Hr]. pose proof (wf_size b Hw). apply eq_true_iff_eq. unfold Complete.
  rewrite Z.eqb_eq, (wf_count b Hw), forallb_forall.
  rewrite <- (Z2Nat.id b.(size_)) at 2 by lia. rewrite popcount_full. split.
  - intros Hall k Hk. apply list_elem_of_In, elem_of_blocks in Hk. rewrite <- Hb by lia. apply Hall. lia.
  - intros Hall k Hk. rewrite Hb by lia. apply Hall, list_elem_of_In, elem_of_blocks. lia.
Qed.

Lemma ack_same : (AckBase b).1 = first_unset (has s) 0 (Z.to_nat s.(bs_size)) /\ represents (AckBase b).2 s.
Proof.
  pose proof (AckBase_spec b (rep_wf _ _ R)) as H. destruct (AckBase b) as [a b']. cbn [fst snd].
  destruct H as (Ha & Hbelow & Hat & Hw' & Ht & Hs' & _). split; [|by apply represents_same].
  destruct R as [Hw Hm Hs Hb Hr]. symmetry. apply first_unset_spec; [lia| |].
  - intros k Hk. rewrite <- Hb by lia. apply Hbelow. lia.
  - intros Hk. rewrite <- Hb by lia. apply Hat. lia.
Qed.

Lemma set_same i : 0 <= i -> (Set_ b i).1 = (b_Set i s).1 /\ represents (Set_ b i).2 (b_Set i s).2.
Proof.
  destruct R as [Hw Hm Hs Hb Hr]. intros Hi. rewrite (Set_fresh b i Hw Hi), (Hb i Hi), Hs. cbn [b_Set set_blocks_spec].
  destruct (has s i) eqn:Ei; cbn [orb negb andb]; [|destruct (Z.leb_spec s.(bs_size) i), (Z.ltb_spec i s.(bs_size)); try lia];
    (split; [done|]); (split; [by apply wf_Set|by rewrite Set_size|by rewrite Set_size| |cbn; intros k Hk]); cbn [snd bs_size].
  all: try (intros k Hk; rewrite Test_Set by done; rewrite (Hb k Hk), Hs; destruct (Z.eqb_spec k i) as [->|];
            cbn [andb]; rewrite ?orb_false_r; try done).
  - by rewrite Ei.
  - by apply Hr.
  - destruct (Z.ltb_spec i s.(bs_size)); [lia|]. by rewrite orb_false_r.
  - by apply Hr.
  - destruct (Z.ltb_spec i s.(bs_size)); [|lia]. rewrite orb_true_r. symmetry. apply has_true. cbn. set_solver.
  - unfold has. cbn. apply bool_decide_ext. set_solver.
  - apply elem_of_union in Hk as [->%elem_of_singleton|]; [lia|by apply Hr].
Qed.

Lemma holes_same from max : 0 <= from -> 0 <= max ->
  (Holes b from max).1 = (b_Holes from max s).1 /\ represents (Holes b from max).2 s.
Proof.
  intros Hf Hmax. destruct (decide (max = 0)) as [->|]; [split; [reflexivity|exact R]|].
  pose proof (Holes_spec b from max (rep_wf _ _ R) (rep_max _ _ R) Hf ltac:(lia)) as (H1 & H2 & H3 & H4 & _).
  split; [|by apply represents_same]. rewrite H1. cbn [b_Holes set_blocks_spec fst].
  pose proof (AckBase_spec b (rep_wf _ _ R)) as H. destruct (AckBase b) as [a b'].
  destruct H as (Ha & Hbelow & Hat & _). destruct R as [Hw Hm Hs Hb Hr]. cbn [fst]. rewrite <- Hs.
  rewrite (ref_runs_ext (fun k => negb (has s k)) (fun k => negb (Test b k)) from) by (intros k Hk; by rewrite Hb by lia).
  f_equal. destruct (decide (from <= b.(size_))).
  - rewrite (ref_runs_skip _ from (Z.max from a)); [f_equal; lia|lia|]. intros k Hk. by rewrite Hbelow by lia.
  - replace (Z.to_nat (b.(size_) - Z.max from a)) with O by lia. by replace (Z.to_nat (b.(size_) - from)) with O by lia.
Qed.

Lemma have_same max : 0 <= max -> HaveRuns b max = b_HaveRuns max s.
Proof.
  intros Hmax. destruct (decide (max = 0)) as [->|]; [done|].
  rewrite HaveRuns_spec by (apply R || lia). cbn [b_HaveRuns set_blocks_spec].
  destruct R as [Hw Hm Hs Hb Hr]. rewrite Hs. f_equal. apply ref_runs_ext. intros k Hk. apply Hb. lia.
Qed.

Lemma runs_same rs : Forall wf_run rs -> represents (SetRuns b rs) (b_SetRuns rs s).
Proof.
  destruct R as [Hw Hm Hs Hb Hr]. intros Hrs.
  destruct (SetRuns_spec b rs 0 Hw Hrs ltac:(lia)) as (Hw' & Hs' & _).
  split; [done|congruence|cbn; congruence| |cbn].
  - intros k Hk. destruct (SetRuns_spec b rs k Hw Hrs Hk) as (_ & _ & ->). rewrite Hb, Hs by done.
    apply eq_true_iff_eq. rewrite orb_true_iff, !has_true. cbn.
    rewrite elem_of_union, elem_of_list_to_set, list_elem_of_filter, elem_of_blocks.
    assert (existsb (run_covers s.(bs_size) k) rs = true -> k < s.(bs_size)) as Hlt; [|naive_solver lia].
    intros (r & _ & Hc)%existsb_exists. unfold run_covers in Hc. lia.
  - intros k. rewrite elem_of_union, elem_of_list_to_set, list_elem_of_filter, elem_of_blocks. naive_solver.
Qed.

(** One call: the same answer, and the states still correspond. *)
Lemma call_same c : call_ok c ->
  (block_call c b).1 = (block_call c s).1 /\ represents (block_call c b).2 (block_call c s).2.
Proof.
  intros Hc. destruct c as [n|i|i| | | | |from max|max|rs]; cbn [block_call call_ok] in *.
  - split; [done|]. split; [apply wf_Reset; unfold max_blocks in *; lia|apply Hc|done| |cbn; set_solver].
    intros k _. cbn [b_Reset bitmap_blocks snd]. rewrite Test_Reset. symmetry. apply bool_decide_eq_false. cbn. set_solver.
  - split; [|done]. cbn. by rewrite (rep_bits _ _ R i Hc).
  - destruct (set_same i Hc) as [H1 H2]. cbn [b_Set bitmap_blocks].
    destruct (Set_ b i), (b_Set i s). cbn in *. by subst.
  - split; [|done]. cbn. by rewrite (rep_size _ _ R).
  - split; [|done]. cbn. by rewrite count_same.
  - split; [|done]. cbn. by rewrite complete_same.
  - destruct ack_same as [H1 H2]. cbn [b_AckBase bitmap_blocks]. destruct (AckBase b). cbn in *. by subst.
  - destruct (holes_same from max (proj1 Hc) (proj2 Hc)) as [H1 H2]. cbn [b_Holes bitmap_blocks].
    destruct (Holes b from max). cbn in *. by subst.
  - split; [|done]. cbn [b_HaveRuns bitmap_blocks fst]. by rewrite have_same.
  - split; [done|]. by apply runs_same.
Qed.

End simulation.

Lemma answers_same cs : Forall call_ok cs -> forall b s, represents b s -> block_answers cs b = block_answers cs s.
Proof.
  induction 1 as [|c cs Hc Hcs IH]; intros b s R; cbn [block_answers]; [done|].
  destruct (call_same b s R c Hc) as [H1 H2]. destruct (block_call c b), (block_call c s). cbn [fst snd] in *. subst.
  f_equal. by apply IH.
Qed.

(** ** Properties *)

(** C20: Every sequence of calls on a fresh bitmap, with arguments of their types, of which no [Reset]
    asks for more than 2^32 - 64 blocks (above, the 32-bit index of [HaveRuns] wraps and its scan does
    not end: [HaveRuns_wraps]) gets the answers of the finite set of received blocks: the words, the cached count and the lazily
    advanced base cannot be observed. *)
Theorem bitmap_refines_set cs : Forall call_ok cs ->
  block_answers cs BlockBitmap_default = block_answers cs (b_Reset (B := BlockSet) 0).
Proof.
  intros H. apply answers_same; [done|]. split; [|done|done| |cbn; set_solver].
  - apply (wf_Reset 0). lia.
  - intros k _. rewrite (Test_Reset 0). symmetry. apply bool_decide_eq_false. cbn. set_solver.
Qed.

(** ** Witness *)

Definition sample_calls : list BlockCall :=
  [CallReset 130; CallSetRuns [mkSackRun 0 70]; CallSet 75; CallSet 75; CallAckBase; CallHoles 0 8; CallCount; CallHaveRuns 1].

Lemma bitmap_refines_set_witness :
  block_answers sample_calls BlockBitmap_default =
    [AnsNone; AnsNone; AnsBool true; AnsBool false; AnsNum 70; AnsRuns [mkSackRun 70 5; mkSackRun 76 54]; AnsNum 71;
     AnsRuns [mkSackRun 0 70]] /\
  block_answers sample_calls BlockBitmap_default = block_answers sample_calls (b_Reset (B := BlockSet) 0).
Proof.
  split; [vm_compute; reflexivity|]. apply bitmap_refines_set.
  repeat constructor; unfold in_u32, max_blocks; simpl; lia.
Defined.
