(* ===== verification/Json.v ===== *)
(** * JSON values, as an interface

    The core handles JSON through the nlohmann::json library, which is not part of this
    repository.  [JsonLib] is what the core relies on: a value has one of the documented kinds
    (its [jview]), building a value and looking at it are inverse, and [get<T>] on an integral
    [T] reads numbers only.  Text conversion ([parse], [dump]) is left to the instance.  The
    accessors below are compositions of these, with their exceptions as [Throw].  [JsonTree]
    at the end is a concrete instance, used by the witnesses. *)
From S2P Require Export Prelude.

(** ** The interface *)

(** The value kinds of [nlohmann::json::value_t]; an object is a map from keys to values. *)
Inductive jview (J : Type) : Type :=
| VNull
| VBool (b : bool)
| VUnsigned (n : Z)
| VInteger (z : Z)
| VFloat
| VString (s : string)
| VArray (l : list J)
| VObject (m : gmap string J)
| VDiscarded.
Arguments VNull {J}.
Arguments VBool {J} b.
Arguments VUnsigned {J} n.
Arguments VInteger {J} z.
Arguments VFloat {J}.
Arguments VString {J} s.
Arguments VArray {J} l.
Arguments VObject {J} m.
Arguments VDiscarded {J}.

Class JsonLib := {
  json : Type;
  view : json -> jview json;
  mk : jview json -> json;
  (** the value [get<T>] reads for an integral [T], before it is narrowed; [None] when it
      raises [type_error] *)
  number : json -> option Z;
  (** [dump(indent)], -1 for the compact form; raises on a string that is not UTF-8 *)
  dump : Z -> json -> outcome string;
  (** [parse(text, nullptr, false)] *)
  parse : string -> json;
  view_mk : forall v, view (mk v) = v;
  number_unsigned : forall j n, view j = VUnsigned n -> number j = Some n;
  number_integer : forall j z, view j = VInteger z -> number j = Some z;
  number_none : forall j,
    match view j with VNull | VString _ | VArray _ | VObject _ | VDiscarded => True | _ => False end ->
    number j = None;
}.

(** ** Accessors *)

Section accessors.
Context `{JL : JsonLib}.

Definition is_object (j : json) : bool := match view j with VObject _ => true | _ => false end.
Definition is_array (j : json) : bool := match view j with VArray _ => true | _ => false end.
Definition is_string (j : json) : bool := match view j with VString _ => true | _ => false end.
Definition is_null (j : json) : bool := match view j with VNull => true | _ => false end.
Definition is_discarded (j : json) : bool := match view j with VDiscarded => true | _ => false end.
Definition is_number_unsigned (j : json) : bool :=
  match view j with VUnsigned _ => true | _ => false end.

(** [find]: the end iterator is [None]; a value that is not an object has no members. *)
Definition find (j : json) (k : string) : option json :=
  match view j with VObject m => m !! k | _ => None end.
Definition contains (j : json) (k : string) : bool := bool_decide (is_Some (find j k)).
(** The elements a range-for visits on an array. *)
Definition elements_of (j : json) : list json := match view j with VArray l => l | _ => [] end.

Definition get_string (j : json) : outcome string :=
  match view j with VString s => Ret s | _ => Throw end.
Definition get_bool (j : json) : outcome bool :=
  match view j with VBool b => Ret b | _ => Throw end.
Definition get_number (j : json) : outcome Z :=
  match number j with Some n => Ret n | None => Throw end.
Definition get_u16 (j : json) : outcome Z := n ← get_number j; Ret (u16 n).
Definition get_u32 (j : json) : outcome Z := n ← get_number j; Ret (u32 n).
Definition get_u64 (j : json) : outcome Z := n ← get_number j; Ret (u64 n).
Definition get_i32 (j : json) : outcome Z := n ← get_number j; Ret (i32 n).
Definition get_i64 (j : json) : outcome Z := n ← get_number j; Ret (i64 n).

(** [value(key, default)]: raises when [j] is not an object or the member has another type. *)
Definition value_ {A} (get : json -> outcome A) (j : json) (k : string) (d : A) : outcome A :=
  match view j with
  | VObject m => match m !! k with Some v => get v | None => Ret d end
  | _ => Throw
  end.

(** Builders: the initializer lists of the source. *)
Definition jobj (kvs : list (string * json)) : json := mk (VObject (list_to_map kvs)).
Definition jarr (l : list json) : json := mk (VArray l).
Definition jstr (s : string) : json := mk (VString s).
Definition jbool (b : bool) : json := mk (VBool b).
Definition juns (n : Z) : json := mk (VUnsigned n).
Definition jint (z : Z) : json := mk (VInteger z).
Definition jnull : json := mk VNull.
(** [json::object()], [json::array()] *)
Definition jempty_object : json := jobj [].
Definition jempty_array : json := jarr [].

(** Members present and absent in a built object. *)
Lemma find_jobj kvs k : find (jobj kvs) k = (list_to_map kvs : gmap string json) !! k.
Proof. unfold find, jobj. by rewrite view_mk. Qed.

Lemma is_object_jobj kvs : is_object (jobj kvs) = true.
Proof. unfold is_object, jobj. by rewrite view_mk. Qed.
Lemma is_array_jarr l : is_array (jarr l) = true.
Proof. unfold is_array, jarr. by rewrite view_mk. Qed.
Lemma elements_jarr l : elements_of (jarr l) = l.
Proof. unfold elements_of, jarr. by rewrite view_mk. Qed.
Lemma is_string_jstr s : is_string (jstr s) = true.
Proof. unfold is_string, jstr. by rewrite view_mk. Qed.
Lemma get_string_jstr s : get_string (jstr s) = Ret s.
Proof. unfold get_string, jstr. by rewrite view_mk. Qed.
Lemma get_bool_jbool b : get_bool (jbool b) = Ret b.
Proof. unfold get_bool, jbool. by rewrite view_mk. Qed.
Lemma is_number_juns n : is_number_unsigned (juns n) = true.
Proof. unfold is_number_unsigned, juns. by rewrite view_mk. Qed.
Lemma get_number_juns n : get_number (juns n) = Ret n.
Proof. unfold get_number. by rewrite (number_unsigned _ n) by apply view_mk. Qed.
Lemma get_number_jstr s : get_number (jstr s) = Throw.
Proof. unfold get_number. rewrite number_none; [done|]. unfold jstr. by rewrite view_mk. Qed.
Lemma value_jobj {A} (get : json -> outcome A) kvs k d :
  value_ get (jobj kvs) k d =
    match (list_to_map kvs : gmap string json) !! k with Some v => get v | None => Ret d end.
Proof. unfold value_, jobj. by rewrite view_mk. Qed.

(** *** Reading back what was written *)

(** [b] is what [parse] makes of the text of [a]: the same value, where an integer that is not negative may have
    become unsigned. *)
Inductive reads_as : json -> json -> Prop :=
| ra_number a b n : view a = VInteger n -> 0 <= n -> view b = VUnsigned n -> reads_as a b
| ra_array a b la lb : view a = VArray la -> view b = VArray lb -> Forall2 reads_as la lb -> reads_as a b
| ra_object a b (ma mb : gmap string json) : view a = VObject ma -> view b = VObject mb ->
    (forall k, option_Forall2 reads_as (ma !! k) (mb !! k)) -> reads_as a b
| ra_leaf a b : match view a with VArray _ | VObject _ => False | _ => view b = view a end -> reads_as a b.

Lemma reads_str s j : reads_as (jstr s) j -> get_string j = Ret s.
Proof.
  unfold jstr, get_string. intros H. inversion H as [? ? n E|? ? la lb E|? ? ma mb E|? ? E]; subst; rewrite view_mk in E; try done. by rewrite E.
Qed.
Lemma reads_int n j : reads_as (jint n) j -> get_number j = Ret n.
Proof.
  unfold jint, get_number. intros H. inversion H as [? ? n' E _ E'|? ? la lb E|? ? ma mb E|? ? E]; subst; rewrite view_mk in E; try done.
  - injection E as ->. by rewrite (number_unsigned _ _ E').
  - by rewrite (number_integer _ _ E).
Qed.
Lemma reads_arr l j : reads_as (jarr l) j -> is_array j = true /\ Forall2 reads_as l (elements_of j).
Proof.
  unfold jarr, is_array, elements_of. intros H. inversion H as [? ? n' E|? ? la lb E E' F|? ? ma mb E|? ? E]; subst; rewrite view_mk in E; try done.
  injection E as ->. by rewrite E'.
Qed.
Lemma reads_obj kvs j : reads_as (jobj kvs) j -> is_object j = true /\ is_discarded j = false /\
  forall k, option_Forall2 reads_as ((list_to_map kvs : gmap string json) !! k) (find j k).
Proof.
  unfold jobj, is_object, is_discarded, find. intros H.
  inversion H as [? ? n' E|? ? la lb E|? ? ma mb E E' F|? ? E]; subst; rewrite view_mk in E; try done.
  injection E as ->. by rewrite E'.
Qed.
(** A member, and a member read with [value]. *)
Lemma reads_member kvs j k v : reads_as (jobj kvs) j -> (list_to_map kvs : gmap string json) !! k = Some v ->
  exists v', find j k = Some v' /\ reads_as v v'.
Proof. intros H Hk. destruct (reads_obj _ _ H) as (_ & _ & F). specialize (F k). rewrite Hk in F. inversion F; subst. by eexists. Qed.
Lemma reads_value {A} (get : json -> outcome A) kvs j k d v a : reads_as (jobj kvs) j -> (list_to_map kvs : gmap string json) !! k = Some v ->
  (forall v', reads_as v v' -> get v' = Ret a) -> value_ get j k d = Ret a.
Proof.
  intros H Hk Hg. destruct (reads_obj _ _ H) as (Ho & _). destruct (reads_member _ _ _ _ H Hk) as (v' & Hf & Hr).
  unfold value_, find, is_object in *. destruct (view j); try done. rewrite Hf. by apply Hg.
Qed.

End accessors.

#[export] Hint Rewrite @find_jobj @is_object_jobj @is_array_jarr @elements_jarr @is_string_jstr
  @get_string_jstr @get_bool_jbool @is_number_juns @get_number_juns @get_number_jstr
  @value_jobj : json.

(** Evaluates accessors on built values. *)
Ltac json_simpl :=
  unfold contains; autorewrite with json;
  cbn [list_to_map fst snd foldr]; simplify_map_eq; autorewrite with json.

(** ** A concrete instance *)

#[warnings="-register-all"]
Inductive jtree : Type := JT (v : jview jtree).

Definition jtree_view (t : jtree) : jview jtree := let '(JT v) := t in v.

Definition jtree_number (t : jtree) : option Z :=
  match jtree_view t with
  | VUnsigned n => Some n
  | VInteger z => Some z
  | VBool b => Some (if b then 1 else 0)
  | _ => None
  end.

Lemma jtree_number_unsigned j n : jtree_view j = VUnsigned n -> jtree_number j = Some n.
Proof. intros H. unfold jtree_number. by rewrite H. Qed.

Lemma jtree_number_integer j z : jtree_view j = VInteger z -> jtree_number j = Some z.
Proof. intros H. unfold jtree_number. by rewrite H. Qed.

Lemma jtree_number_none j :
  match jtree_view j with
  | VNull | VString _ | VArray _ | VObject _ | VDiscarded => True | _ => False end ->
  jtree_number j = None.
Proof. intros H. unfold jtree_number. by destruct (jtree_view j). Qed.

(** The only text the witnesses need is that of the empty object. *)
Definition jtree_dump (_ : Z) (j : jtree) : outcome string :=
  match jtree_view j with
  | VObject m => if decide (m = ∅) then Ret "{}"%string else Ret "?"%string
  | _ => Ret "?"%string
  end.
Definition jtree_parse (text : string) : jtree :=
  if String.eqb text "{}" then JT (VObject ∅) else JT VDiscarded.

(** With another parser. *)
Definition JsonTreeWith (p : string -> jtree) : JsonLib := {|
  json := jtree;
  view := jtree_view;
  mk := JT;
  number := jtree_number;
  dump := jtree_dump;
  parse := p;
  view_mk v := eq_refl;
  number_unsigned := jtree_number_unsigned;
  number_integer := jtree_number_integer;
  number_none := jtree_number_none;
|}.
#[export] Instance JsonTree : JsonLib := JsonTreeWith jtree_parse.
