(* ===== verification/JsonText.v ===== *)
(** * A JSON library that reads and writes text

    [JsonText] is an instance of [JsonLib] with the compact text form of nlohmann::json for the values the core
    stores: no floating-point numbers, and strings without quotes, backslashes and control characters, on which [dump]
    raises here.  As documented of the library, a number that is read is unsigned unless it is negative. *)
From S2P Require Export Json.
From stdpp Require Import pretty.
#[local] Open Scope Z_scope.

(** ** Definitions *)

Definition quote : Z := 34.
Definition plain_char (c : Z) : bool := (32 <=? c) && negb (c =? quote) && negb (c =? 92).
Definition plain_text (s : string) : option bytes := if forallb plain_char (sbytes s) then Some (quote :: sbytes s ++ [quote]) else None.
Definition comma (l : list bytes) : bytes := match l with [] => [] | x :: l => x ++ concat (cons 44 <$> l) end.

(** [dump], of values nested at most [fuel] deep. *)
Fixpoint write_json (fuel : nat) (j : jtree) : option bytes :=
  match fuel with
  | O => None
  | S fuel =>
      match jtree_view j with
      | VNull => Some (sbytes "null")
      | VBool b => Some (sbytes (if b then "true" else "false")%string)
      | VUnsigned n | VInteger n => Some (sbytes (pretty n))
      | VString s => plain_text s
      | VArray l => ls ← mapM (write_json fuel) l; Some (91 :: comma ls ++ [93])
      | VObject m =>
          ls ← mapM (fun kv : string * jtree => k ← plain_text kv.1; v ← write_json fuel kv.2; Some (k ++ 58 :: v)) (map_to_list m);
          Some (123 :: comma ls ++ [125])
      | VFloat | VDiscarded => None
      end
  end.

(** The text up to the closing quote, and what follows it. *)
Fixpoint read_string (l : bytes) : option (bytes * bytes) :=
  match l with
  | [] => None
  | c :: l => if c =? quote then Some ([], l) else '(s, l) ← read_string l; Some (c :: s, l)
  end.
Fixpoint read_digits (v : Z) (l : bytes) : Z * bytes :=
  match l with
  | c :: l' => if (48 <=? c) && (c <=? 57) then read_digits (v * 10 + (c - 48)) l' else (v, l)
  | [] => (v, [])
  end.
Definition read_word (w : string) (v : jview jtree) (l : bytes) : option (jtree * bytes) :=
  if bool_decide (take (length (sbytes w)) l = sbytes w) then Some (JT v, drop (length (sbytes w)) l) else None.
(** One value, and what follows it; [read_items] reads the rest of an array, [read_members] that of an object. *)
Fixpoint read_json (fuel : nat) (l : bytes) : option (jtree * bytes) :=
  match fuel with
  | O => None
  | S fuel =>
      match l with
      | [] => None
      | c :: r =>
          if c =? quote then '(s, l) ← read_string r; Some (JT (VString (of_sbytes s)), l)
          else if c =? 110 then read_word "null" VNull l
          else if c =? 116 then read_word "true" (VBool true) l
          else if c =? 102 then read_word "false" (VBool false) l
          else if c =? 45 then let '(n, l) := read_digits 0 r in Some (JT (VInteger (- n)), l)
          else if (48 <=? c) && (c <=? 57) then let '(n, l) := read_digits 0 l in Some (JT (VUnsigned n), l)
          else if c =? 91 then
            match r with
            | 93 :: l => Some (JT (VArray []), l)
            | _ => '(vs, l) ← read_items fuel r; Some (JT (VArray vs), l)
            end
          else if c =? 123 then
            match r with
            | 125 :: l => Some (JT (VObject ∅), l)
            | _ => '(kvs, l) ← read_members fuel r; Some (JT (VObject (list_to_map kvs)), l)
            end
          else None
      end
  end
with read_items (fuel : nat) (l : bytes) : option (list jtree * bytes) :=
  match fuel with
  | O => None
  | S fuel =>
      '(v, l) ← read_json fuel l;
      match l with
      | 44 :: l => '(vs, l) ← read_items fuel l; Some (v :: vs, l)
      | 93 :: l => Some ([v], l)
      | _ => None
      end
  end
with read_members (fuel : nat) (l : bytes) : option (list (string * jtree) * bytes) :=
  match fuel with
  | O => None
  | S fuel =>
      match l with
      | 34 :: l =>
          '(k, l) ← read_string l;
          match l with
          | 58 :: l =>
              '(v, l) ← read_json fuel l;
              match l with
              | 44 :: l => '(kvs, l) ← read_members fuel l; Some ((of_sbytes k, v) :: kvs, l)
              | 125 :: l => Some ([(of_sbytes k, v)], l)
              | _ => None
              end
          | _ => None
          end
      | _ => None
      end
  end.

(** As deep as any value of the core. *)
Definition text_dump (_ : Z) (j : jtree) : outcome string :=
  match write_json 32 j with Some l => Ret (of_sbytes l) | None => Throw end.
Definition text_parse (s : string) : jtree :=
  match read_json (S (length (sbytes s))) (sbytes s) with Some (j, []) => j | _ => JT VDiscarded end.

Definition JsonText : JsonLib := {|
  json := jtree;
  view := jtree_view;
  mk := JT;
  number := jtree_number;
  dump := text_dump;
  parse := text_parse;
  view_mk v := eq_refl;
  number_unsigned := jtree_number_unsigned;
  number_integer := jtree_number_integer;
  number_none := jtree_number_none;
|}.

(** ** Theorems *)

(** Whether a value reads as another. *)
Fixpoint all2 {A B} (f : A -> B -> bool) (l : list A) (k : list B) : bool :=
  match l, k with [], [] => true | x :: l, y :: k => f x y && all2 f l k | _, _ => false end.
Fixpoint reads_b (fuel : nat) (a b : jtree) : bool :=
  match fuel with
  | O => false
  | S fuel =>
      match jtree_view a, jtree_view b with
      | VNull, VNull => true
      | VBool x, VBool y => Bool.eqb x y
      | VUnsigned n, VUnsigned m | VInteger n, VInteger m => n =? m
      | VInteger n, VUnsigned m => (n =? m) && (0 <=? n)
      | VString s, VString t => String.eqb s t
      | VArray la, VArray lb => all2 (reads_b fuel) la lb
      | VObject ma, VObject mb =>
          forallb (fun kv => match mb !! kv.1 with Some v => reads_b fuel kv.2 v | None => false end) (map_to_list ma)
          && forallb (fun kv => bool_decide (is_Some (ma !! kv.1))) (map_to_list mb)
      | _, _ => false
      end
  end.

Lemma all2_Forall2 {A B} (f : A -> B -> bool) (R : A -> B -> Prop) l k : (forall x y, f x y = true -> R x y) -> all2 f l k = true -> Forall2 R l k.
Proof.
  intros Hf. revert k. induction l as [|x l IH]; intros [|y k]; cbn; try done. intros [H1 H2]%andb_true_iff. constructor; auto.
Qed.
Lemma reads_b_sound fuel a b : reads_b fuel a b = true -> reads_as (JL := JsonText) a b.
Proof.
  revert a b. induction fuel as [|fuel IH]; intros [va] [vb]; [done|]. cbn [reads_b jtree_view]. intros H.
  destruct va as [|x|n|n| |s|la|ma|], vb as [|y|m|m| |t|lb|mb|]; try done.
  - by apply ra_leaf.
  - apply Bool.eqb_prop in H as ->. by apply ra_leaf.
  - apply Z.eqb_eq in H as ->. by apply ra_leaf.
  - apply andb_true_iff in H as [->%Z.eqb_eq H%Z.leb_le]. by apply (ra_number (JL := JsonText) _ _ m).
  - apply Z.eqb_eq in H as ->. by apply ra_leaf.
  - apply String.eqb_eq in H as ->. by apply ra_leaf.
  - apply (ra_array (JL := JsonText) _ _ la lb); [done|done|]. by apply (all2_Forall2 (reads_b fuel)).
  - apply andb_true_iff in H as [H1 H2]. rewrite forallb_forall in H1, H2. apply (ra_object (JL := JsonText) _ _ ma mb); [done|done|]. intros k.
    change (@option_Forall2 jtree jtree (reads_as (JL := JsonText)) (ma !! k) (mb !! k)). destruct (ma !! k) as [v|] eqn:E1.
    + specialize (H1 (k, v)). cbn in H1. destruct (mb !! k) as [w|]; [constructor; apply IH, H1|exfalso; cut (false = true); [done|apply H1]];
        by apply list_elem_of_In, elem_of_map_to_list.
    + destruct (mb !! k) as [w|] eqn:E2; [|constructor]. specialize (H2 (k, w)). cbn in H2. rewrite E1 in H2. exfalso.
      assert (Hin : In (k, w) (map_to_list mb)) by by apply list_elem_of_In, elem_of_map_to_list.
      apply H2 in Hin. by apply bool_decide_eq_true in Hin as [? ?].
Qed.

Example text_round : exists s, text_dump (-1) (JT (VArray [JT (VInteger 7); JT (VInteger (-7)); JT (VString "a b"); JT (VObject ∅)])) = Ret s /\
  text_parse s = JT (VArray [JT (VUnsigned 7); JT (VInteger (-7)); JT (VString "a b"); JT (VObject ∅)]).
Proof. eexists. split; [vm_compute; reflexivity|]. vm_compute. reflexivity. Qed.
