(* ===== verification/CtrlCodec.v ===== *)
(** * Control message framing ([core/src/transfer/ctrl_codec.{h,cpp}])

    A control message is cut into chunks of at most [kCtrlChunk] bytes, each prefixed with a
    flag byte, and reassembled by the peer.  The theorems: a stream of split messages is
    reassembled into exactly those messages, the reassembly buffer is bounded, and what happens
    to a message above the limit. *)
From S2P Require Export Protocol Json.

(** ** Definitions *)

(** The [do]-[while] loop of [SplitCtrlMessage]; [fuel] bounds the number of chunks. *)
Fixpoint split_loop (fuel : nat) (message : bytes) (offset : Z) : list bytes :=
  match fuel with
  | O => []
  | S fuel =>
    let n := Z.min kCtrlChunk (zlen message - offset) in
    let chunk := (if offset + n >=? zlen message then 0x01 else 0x00) :: slice offset n message in
    chunk :: (if offset + n <? zlen message then split_loop fuel message (offset + n) else [])
  end.

Definition SplitCtrlMessage (message : bytes) : list bytes :=
  split_loop (S (length message)) message 0.

(** What one [Feed] call tells its caller: [true] with [*message] set, [false] with [*error]
    set, or [false]. *)
Inductive FeedResult :=
| FeedMessage (message : bytes)
| FeedError (error : string)
| FeedMore.

(** [Feed], from the reassembly buffer to the result and the new buffer. *)
Definition Feed (buffer_ : bytes) (data : option bytes) : FeedResult * bytes :=
  match data with
  | None | Some [] => (FeedError "empty ctrl chunk", [])
  | Some (flag :: payload) =>
    if flag >? 0x01 then (FeedError "bad ctrl chunk flags", []) else
    if zlen buffer_ + zlen (flag :: payload) - 1 >? kMaxCtrlMessage
    then (FeedError "ctrl message too large", []) else
    let buffer_ := buffer_ ++ payload in
    if flag =? 0x01 then (FeedMessage buffer_, []) else (FeedMore, buffer_)
  end.

Section parse.
Context `{JL : JsonLib}.

Definition ParseCtrlMessage (message : string) : option (json * string) :=
  let j := parse message in
  if negb (is_object j) then None else
  match find j "type" with
  | None => None
  | Some t => if negb (is_string t) then None else
      match get_string t with Ret s => Some (j, s) | Throw => None end
  end.

End parse.

(** Feeding a sequence of chunks: the results in order and the final buffer. *)
Fixpoint feed_all (buffer_ : bytes) (chunks : list bytes) : list FeedResult * bytes :=
  match chunks with
  | [] => ([], buffer_)
  | c :: cs =>
      let '(r, b) := Feed buffer_ (Some c) in
      let '(rs, b) := feed_all b cs in (r :: rs, b)
  end.

(** The messages among the results. *)
Fixpoint messages_of (rs : list FeedResult) : list bytes :=
  match rs with
  | [] => []
  | FeedMessage m :: rs => m :: messages_of rs
  | _ :: rs => messages_of rs
  end.

(** ** Lemmas *)

Lemma feed_all_app b cs ds :
  feed_all b (cs ++ ds) =
    let '(r1, b1) := feed_all b cs in let '(r2, b2) := feed_all b1 ds in (r1 ++ r2, b2).
Proof.
  revert b. induction cs as [|c cs IH]; intros b; cbn [feed_all app].
  - by destruct (feed_all b ds).
  - destruct (Feed b (Some c)) as [r b']. rewrite IH. destruct (feed_all b' cs) as [r1 b1].
    by destruct (feed_all b1 ds).
Qed.

Lemma messages_of_app rs qs : messages_of (rs ++ qs) = messages_of rs ++ messages_of qs.
Proof. induction rs as [|[]]; cbn; congruence. Qed.

(** The number of chunks left from [offset]. *)
Definition enough (fuel : nat) (message : bytes) (offset : Z) : Prop :=
  zlen message - offset < Z.of_nat fuel.

(** The chunks from [offset], when the rest of the message fits the buffer, deliver it. *)
Lemma feed_rest fuel message offset b :
  0 <= offset -> (offset < zlen message \/ offset = 0) -> enough fuel message offset ->
  zlen b + (zlen message - offset) <= kMaxCtrlMessage ->
  exists k, feed_all b (split_loop fuel message offset) =
    (replicate k FeedMore ++ [FeedMessage (b ++ zdrop offset message)], []).
Proof.
  unfold enough. revert offset b. induction fuel as [|fuel IH]; intros offset b Ho Hlt Hf Hmax; [|].
  { pose proof (zlen_nonneg message). destruct Hlt; lia. }
  pose proof (zlen_nonneg message). pose proof (zlen_nonneg b).
  cbn [split_loop feed_all]. unfold kCtrlChunk in *.
  set (n := Z.min (16 * 1024) (zlen message - offset)).
  assert (Hn : zlen (slice offset n message) = n) by (rewrite zlen_slice; lia).
  cbn [Feed]. rewrite zlen_cons, Hn, !Z.gtb_ltb, Z.geb_leb.
  destruct (Z.ltb_spec kMaxCtrlMessage (zlen b + (1 + n) - 1)); [lia|].
  destruct (Z.leb_spec (zlen message) (offset + n)).
  - cbn. destruct (Z.ltb_spec (offset + n) (zlen message)); [lia|]. exists 0%nat. cbn.
    do 4 f_equal. unfold slice. rewrite ztake_all; [done|]. rewrite zlen_zdrop. lia.
  - cbn. destruct (Z.ltb_spec (offset + n) (zlen message)); [|lia].
    destruct (IH (offset + n) (b ++ slice offset n message)) as [k ->]; [lia|lia|lia| |].
    { rewrite zlen_app, Hn. lia. }
    exists (S k). cbn. do 4 f_equal. rewrite <- app_assoc. f_equal.
    unfold slice. rewrite <- (ztake_zdrop n (zdrop offset message)) at 2. f_equal.
    rewrite zdrop_zdrop by lia. done.
Qed.

Lemma split_fuel message : enough (S (length message)) message 0.
Proof. unfold enough. zlia. Qed.

Lemma messages_of_more k m : messages_of (replicate k FeedMore ++ [FeedMessage m]) = [m].
Proof. rewrite messages_of_app. induction k; cbn; [done|]. apply IHk. Qed.

(** A chunk in the middle of a message extends the buffer. *)
Lemma feed_middle fuel message offset b :
  0 <= offset -> offset + kCtrlChunk < zlen message ->
  zlen b + kCtrlChunk <= kMaxCtrlMessage ->
  feed_all b (split_loop (S fuel) message offset) =
    let '(rs, b') := feed_all (b ++ slice offset kCtrlChunk message)
                       (split_loop fuel message (offset + kCtrlChunk)) in (FeedMore :: rs, b').
Proof.
  intros Ho Hlt Hmax. cbn [split_loop feed_all].
  replace (Z.min kCtrlChunk (zlen message - offset)) with kCtrlChunk by lia.
  cbn [Feed]. assert (Hn : zlen (slice offset kCtrlChunk message) = kCtrlChunk)
    by (rewrite zlen_slice; unfold kCtrlChunk in *; lia).
  rewrite zlen_cons, Hn, !Z.gtb_ltb, Z.geb_leb.
  destruct (Z.leb_spec (zlen message) (offset + kCtrlChunk)); [lia|].
  destruct (Z.ltb_spec kMaxCtrlMessage (zlen b + (1 + kCtrlChunk) - 1)); [lia|].
  destruct (Z.ltb_spec (offset + kCtrlChunk) (zlen message)); [|lia]. cbn. done.
Qed.

(** A chunk in the middle of a message that overflows the buffer empties it. *)
Lemma feed_overflow fuel message offset b :
  0 <= offset -> offset + kCtrlChunk < zlen message ->
  kMaxCtrlMessage < zlen b + kCtrlChunk ->
  feed_all b (split_loop (S fuel) message offset) =
    let '(rs, b') := feed_all [] (split_loop fuel message (offset + kCtrlChunk)) in
    (FeedError "ctrl message too large" :: rs, b').
Proof.
  intros Ho Hlt Hmax. cbn [split_loop feed_all].
  replace (Z.min kCtrlChunk (zlen message - offset)) with kCtrlChunk by lia.
  cbn [Feed]. assert (Hn : zlen (slice offset kCtrlChunk message) = kCtrlChunk)
    by (rewrite zlen_slice; unfold kCtrlChunk in *; lia).
  rewrite zlen_cons, Hn, !Z.gtb_ltb, Z.geb_leb.
  destruct (Z.leb_spec (zlen message) (offset + kCtrlChunk)); [lia|].
  destruct (Z.ltb_spec kMaxCtrlMessage (zlen b + (1 + kCtrlChunk) - 1)); [|lia].
  destruct (Z.ltb_spec (offset + kCtrlChunk) (zlen message)); [|lia]. cbn. done.
Qed.

(** The first [k] chunks fill the buffer with the first [k * kCtrlChunk] bytes. *)
Lemma feed_fill k fuel message offset b :
  0 <= offset -> offset + Z.of_nat k * kCtrlChunk < zlen message ->
  zlen b + Z.of_nat k * kCtrlChunk <= kMaxCtrlMessage -> zlen message - offset < Z.of_nat fuel ->
  exists fuel', zlen message - (offset + Z.of_nat k * kCtrlChunk) < Z.of_nat fuel' /\
  feed_all b (split_loop fuel message offset) =
    let '(rs, b') := feed_all (b ++ slice offset (Z.of_nat k * kCtrlChunk) message)
                       (split_loop fuel' message (offset + Z.of_nat k * kCtrlChunk)) in
    (replicate k FeedMore ++ rs, b').
Proof.
  revert fuel offset b. induction k as [|k IH]; intros fuel offset b Ho Hlt Hmax Hf.
  { exists fuel. split; [lia|]. replace (offset + Z.of_nat 0 * kCtrlChunk) with offset by lia.
    unfold slice, ztake. rewrite take_0, app_nil_r. by destruct (feed_all b _). }
  unfold kCtrlChunk in *. destruct fuel as [|fuel]; [lia|].
  rewrite feed_middle by (unfold kCtrlChunk; lia). unfold kCtrlChunk.
  destruct (IH fuel (offset + 16 * 1024) (b ++ slice offset (16 * 1024) message)) as (f & Hf' & ->).
  - lia.
  - lia.
  - rewrite zlen_app, zlen_slice by lia. lia.
  - lia.
  - exists f. split; [lia|].
    replace (offset + 16 * 1024 + Z.of_nat k * (16 * 1024))
      with (offset + Z.of_nat (S k) * (16 * 1024)) by lia.
    rewrite <- app_assoc, <- slice_split by lia.
    replace (16 * 1024 + Z.of_nat k * (16 * 1024)) with (Z.of_nat (S k) * (16 * 1024)) by lia.
    by destruct (feed_all _ _).
Qed.

(** The chunks of a stream of messages within the limit, fed one after the other. *)
Lemma ctrl_stream_chunks (messages : list bytes) :
  Forall (fun m => zlen m <= kMaxCtrlMessage) messages ->
  let '(rs, b) := feed_all [] (concat (SplitCtrlMessage <$> messages)) in
  messages_of rs = messages /\ b = [].
Proof.
  induction 1 as [|m ms Hm _ IH]; [done|]. cbn [fmap list_fmap concat]. rewrite feed_all_app.
  destruct (feed_rest (S (length m)) m 0 []) as [k Hk].
  - lia.
  - lia.
  - apply split_fuel.
  - rewrite zlen_nil. lia.
  - unfold SplitCtrlMessage at 1. rewrite Hk.
    destruct (feed_all [] (concat (SplitCtrlMessage <$> ms))) as [rs b]. destruct IH as [IH ->].
    rewrite messages_of_app, messages_of_more, IH. done.
Qed.

(** ** Properties *)

(** Every chunk fits one KCP message. *)
Theorem Split_chunk_size message c :
  c ∈ SplitCtrlMessage message -> 1 <= zlen c <= kCtrlChunk + 1.
Proof.
  unfold SplitCtrlMessage. generalize (S (length message)). intros fuel.
  assert (forall offset, 0 <= offset <= zlen message -> c ∈ split_loop fuel message offset ->
    1 <= zlen c <= kCtrlChunk + 1) as H.
  { induction fuel as [|fuel IH]; intros offset Ho; cbn [split_loop]; [by rewrite elem_of_nil|].
    rewrite elem_of_cons. unfold kCtrlChunk in *. intros [->|Hin].
    - rewrite zlen_cons, zlen_slice by lia. lia.
    - destruct (Z.ltb_spec (offset + Z.min (16 * 1024) (zlen message - offset)) (zlen message)).
      + apply (IH (offset + Z.min (16 * 1024) (zlen message - offset))); [lia|done].
      + by apply elem_of_nil in Hin. }
  apply H. pose proof (zlen_nonneg message). lia.
Qed.

(** A stream of messages, each within the limit, split and concatenated, is reassembled into
    exactly those messages in order, and leaves the buffer empty. *)
Theorem ctrl_stream_roundtrip (messages : list bytes) :
  Forall (fun m => zlen m <= kMaxCtrlMessage) messages ->
  let '(rs, b) := feed_all [] (concat (SplitCtrlMessage <$> messages)) in
  messages_of rs = messages /\ b = [].
Proof. apply ctrl_stream_chunks. Qed.

(** The buffer never exceeds [kMaxCtrlMessage], and every error leaves it empty. *)
Theorem Feed_bounded b data :
  zlen b <= kMaxCtrlMessage ->
  let '(r, b') := Feed b data in
  zlen b' <= kMaxCtrlMessage /\
  match r with FeedError _ | FeedMessage _ => b' = [] | FeedMore => True end /\
  match r with FeedMessage m => zlen m <= kMaxCtrlMessage | _ => True end.
Proof.
  intros Hb. assert (0 <= kMaxCtrlMessage) by done. destruct data as [[|f p]|]; cbn; try done.
  case_if; [done|]. case_if; [done|]. rewrite zlen_cons in *. zbool.
  case_if; rewrite zlen_app; repeat split; try done; lia.
Qed.

(** A message more than one chunk above the limit is rejected with an error, but its remaining
    chunks are then reassembled as a message of their own: the receiver is handed the tail of
    the document. *)
Theorem oversize_delivers_tail message :
  kMaxCtrlMessage + kCtrlChunk < zlen message <= 2 * kMaxCtrlMessage + kCtrlChunk ->
  let '(rs, b) := feed_all [] (SplitCtrlMessage message) in
  FeedError "ctrl message too large" ∈ rs /\
  messages_of rs = [zdrop (kMaxCtrlMessage + kCtrlChunk) message] /\ b = [].
Proof.
  intros Hlen. unfold SplitCtrlMessage. unfold kMaxCtrlMessage, kCtrlChunk in *.
  destruct (feed_fill 1024 (S (length message)) message 0 []) as (f & Hf & ->).
  { lia. }
  { unfold kCtrlChunk. lia. }
  { rewrite zlen_nil. done. }
  { apply split_fuel. }
  unfold kCtrlChunk in *. destruct f as [|f]; [lia|].
  replace (0 + Z.of_nat 1024 * (16 * 1024)) with (16 * 1024 * 1024) in * by done.
  cbn [app]. rewrite feed_overflow.
  2:{ done. }
  2:{ unfold kCtrlChunk. lia. }
  2:{ rewrite zlen_slice by done. unfold kMaxCtrlMessage, kCtrlChunk. lia. }
  unfold kCtrlChunk. replace (16 * 1024 * 1024 + 16 * 1024) with 16793600 in * by done.
  destruct (feed_rest f message 16793600 []) as [k ->].
  { done. }
  { left. lia. }
  { unfold enough. lia. }
  { rewrite zlen_nil. unfold kMaxCtrlMessage. lia. }
  cbn [app]. split; [|split; [|done]].
  - rewrite elem_of_app. right. by left.
  - rewrite messages_of_app. cbn [messages_of app]. rewrite messages_of_more.
    assert (forall n, messages_of (replicate n FeedMore) = []) as Hr by (induction n; done).
    by rewrite Hr.
Qed.

(** ** Witnesses *)

Lemma Split_chunk_size_witness : [1; 65; 66] ∈ SplitCtrlMessage [65; 66] /\ 1 <= zlen [1; 65; 66] <= kCtrlChunk + 1.
Proof.
  assert (H : [1; 65; 66] ∈ SplitCtrlMessage [65; 66]) by (vm_compute; by left).
  split; [exact H | exact (Split_chunk_size [65; 66] [1; 65; 66] H)].
Defined.

Lemma ctrl_stream_roundtrip_witness :
  let '(rs, b) := feed_all [] (concat (SplitCtrlMessage <$> [[1; 2; 3]; []; [4]])) in
  messages_of rs = [[1; 2; 3]; []; [4]] /\ b = [].
Proof. apply ctrl_stream_roundtrip. repeat constructor; by vm_compute. Defined.

Lemma Feed_bounded_witness :
  let '(r, b) := Feed [1; 2] (Some [0; 3]) in
  zlen b <= kMaxCtrlMessage /\
  match r with FeedError _ | FeedMessage _ => b = [] | FeedMore => True end /\
  match r with FeedMessage m => zlen m <= kMaxCtrlMessage | _ => True end.
Proof. apply Feed_bounded. by vm_compute. Defined.

Lemma oversize_delivers_tail_witness :
  let message := replicate (Z.to_nat 16793601) 0 in
  let '(rs, b) := feed_all [] (SplitCtrlMessage message) in
  FeedError "ctrl message too large" ∈ rs /\
  messages_of rs = [zdrop (kMaxCtrlMessage + kCtrlChunk) message] /\ b = [].
Proof.
  intros message. apply oversize_delivers_tail. unfold message.
  rewrite zlen_replicate, Z2Nat.id by done. unfold kMaxCtrlMessage, kCtrlChunk. lia.
Defined.
