(* ===== verification/EventLoop.v ===== *)
(** * The core's event loop ([core/src/runtime/event_loop.{h,cpp}])

    A timed queue of tasks run one at a time on one thread.  The state is what [mutex_] guards;
    each operation is one critical section, so any interleaving of threads is a sequence of
    these operations.  The steady clock is an argument, in milliseconds.  The theorems: the
    queue stays sorted, equal deadlines run in posting order, no task runs before its deadline,
    a cancelled task does not run, and tasks posted without delay run in posting order. *)
From S2P Require Export Prelude.

(** ** Definitions *)

Section event_loop.
Context {Task : Type}.

Record Entry := mkEntry { id : Z; task : Task }.

Record EventLoop := mkLoop {
  running_ : bool;
  stop_ : bool;
  (** [std::multimap<time_point, Entry>]: ascending keys, equal keys in insertion order *)
  queue_ : list (Z * Entry);
  next_id_ : Z;
}.

Definition EventLoop_new : EventLoop := mkLoop false false [] 1.

(** [Start]: [true] when this call starts the thread. *)
Definition Start (l : EventLoop) : bool * EventLoop :=
  if l.(running_) then (false, l) else (true, mkLoop true false l.(queue_) l.(next_id_)).

(** The two critical sections of [Stop]: before the join and after it. *)
Definition Stop_request (l : EventLoop) : EventLoop :=
  if negb l.(running_) then l else mkLoop l.(running_) true l.(queue_) l.(next_id_).
Definition Stop_joined (l : EventLoop) : EventLoop :=
  mkLoop false l.(stop_) [] l.(next_id_).

(** [multimap::emplace] inserts after the entries with the same key. *)
Fixpoint emplace (when_ : Z) (e : Entry) (q : list (Z * Entry)) : list (Z * Entry) :=
  match q with
  | [] => [(when_, e)]
  | (t, f) :: q => if when_ <? t then (when_, e) :: (t, f) :: q else (t, f) :: emplace when_ e q
  end.

Definition PostDelayed (now : Z) (t : Task) (delay_ms : Z) (l : EventLoop) : Z * EventLoop :=
  let when_ := now + (if delay_ms <? 0 then 0 else delay_ms) in
  let i := l.(next_id_) in
  (i, mkLoop l.(running_) l.(stop_) (emplace when_ (mkEntry i t) l.(queue_)) (u64 (i + 1))).

Definition Post (now : Z) (t : Task) (l : EventLoop) : EventLoop := (PostDelayed now t 0 l).2.

(** The loop of [Cancel]: the first entry with the id is erased. *)
Fixpoint erase_id (i : Z) (q : list (Z * Entry)) : list (Z * Entry) :=
  match q with
  | [] => []
  | (t, e) :: q => if e.(id) =? i then q else (t, e) :: erase_id i q
  end.

Definition Cancel (i : Z) (l : EventLoop) : EventLoop :=
  mkLoop l.(running_) l.(stop_) (erase_id i l.(queue_)) l.(next_id_).

(** One turn of [Run] under the lock: leave, wait, or take the first entry when it is due. *)
Inductive Wake :=
| Exit
| WaitForever
| WaitUntil (t : Z)
| RunTask (t : Task).

Definition Run_turn (now : Z) (l : EventLoop) : Wake * EventLoop :=
  if l.(stop_) then (Exit, l) else
  match l.(queue_) with
  | [] => (WaitForever, l)
  | (first, e) :: q =>
      if first <=? now
      then (RunTask e.(task), mkLoop l.(running_) l.(stop_) q l.(next_id_))
      else (WaitUntil first, l)
  end.

(** Turns of [Run] until it would wait; [fuel] bounds the tasks run. *)
Fixpoint Run (fuel : nat) (now : Z) (l : EventLoop) : list Task * EventLoop :=
  match fuel with
  | O => ([], l)
  | S fuel =>
      match Run_turn now l with
      | (RunTask t, l') => let '(ts, l'') := Run fuel now l' in (t :: ts, l'')
      | (_, l') => ([], l')
      end
  end.

(** The invariant of the queue: ascending deadlines, ids unique and below [next_id_]. *)
Definition sorted_queue (q : list (Z * Entry)) : Prop := StronglySorted Z.le (fst <$> q).
Definition ids (q : list (Z * Entry)) : list Z := (fun x => x.2.(id)) <$> q.

Record wf_loop (l : EventLoop) : Prop := {
  loop_sorted : sorted_queue l.(queue_);
  loop_ids : NoDup (ids l.(queue_));
  loop_next : Forall (fun i => i < l.(next_id_)) (ids l.(queue_));
}.

(** ** Lemmas *)

Lemma emplace_elem when_ e q x : x ∈ emplace when_ e q <-> x = (when_, e) \/ x ∈ q.
Proof.
  induction q as [|[t f] q IH]; cbn [emplace].
  - rewrite elem_of_cons. tauto.
  - case_if; rewrite !elem_of_cons; [tauto|]. rewrite IH. tauto.
Qed.

Lemma emplace_perm when_ e q : emplace when_ e q ≡ₚ (when_, e) :: q.
Proof.
  induction q as [|[t f] q IH]; cbn [emplace]; [done|]. case_if; [done|]. rewrite IH.
  apply Permutation_swap.
Qed.

Lemma emplace_sorted when_ e q : sorted_queue q -> sorted_queue (emplace when_ e q).
Proof.
  unfold sorted_queue. induction q as [|[t f] q IH]; cbn [emplace fmap list_fmap fst].
  - intros _. repeat constructor.
  - intros Hs. apply StronglySorted_inv in Hs as [Hs Hf]. case_if; cbn [fmap list_fmap fst]; zbool.
    + constructor; [by constructor|]. constructor; [lia|].
      eapply Forall_impl; [exact Hf|]. intros z Hz. cbv beta in *. lia.
    + constructor; [by apply IH|]. rewrite Forall_forall in *. intros z Hz.
      apply list_elem_of_fmap in Hz as (x & -> & Hx). apply emplace_elem in Hx as [->|Hx]; [done|].
      apply Hf. apply list_elem_of_fmap. eauto.
Qed.

Lemma erase_id_sublist i q : sublist (erase_id i q) q.
Proof.
  induction q as [|[t e] q IH]; cbn [erase_id]; [constructor|]. case_if; by constructor.
Qed.

Lemma sublist_sorted q q' : sublist q q' -> sorted_queue q' -> sorted_queue q.
Proof.
  unfold sorted_queue. induction 1 as [|x l k Hs IH|x l k Hs IH]; cbn [fmap list_fmap]; [done| |].
  - intros Hw. apply StronglySorted_inv in Hw as [Hw Hf]. constructor; [by apply IH|].
    rewrite Forall_forall in *. intros z Hz. apply Hf.
    apply list_elem_of_fmap in Hz as (y & -> & Hy). apply list_elem_of_fmap. exists y. split; [done|].
    by eapply elem_of_sublist.
  - intros Hw. apply StronglySorted_inv in Hw as [Hw _]. by apply IH.
Qed.

Lemma wf_sublist q l r s : sublist q l.(queue_) -> wf_loop l ->
  wf_loop (mkLoop r s q l.(next_id_)).
Proof.
  intros Hq [Hs Hi Hn]. split; cbn [queue_ next_id_].
  - by eapply sublist_sorted.
  - eapply sublist_NoDup; [exact Hi|]. by apply fmap_sublist.
  - rewrite Forall_forall in *. intros z Hz. apply Hn.
    eapply elem_of_sublist; [exact Hz|]. by apply fmap_sublist.
Qed.

Lemma wf_PostDelayed now t d l : wf_loop l -> 0 <= l.(next_id_) < 2 ^ 64 - 1 ->
  wf_loop (PostDelayed now t d l).2.
Proof.
  intros [Hs Hi Hn] Hb. cbn. rewrite u64_small by (unfold in_u64; lia). split; cbn [queue_ next_id_].
  - by apply emplace_sorted.
  - unfold ids. rewrite emplace_perm. cbn. constructor; [|done].
    intros Hin. rewrite Forall_forall in Hn. specialize (Hn _ Hin). cbn in Hn. lia.
  - unfold ids. rewrite emplace_perm. cbn. constructor; [cbn; lia|].
    eapply Forall_impl; [exact Hn|]. intros z. cbv beta. lia.
Qed.

(** An entry no later than the new one keeps its place before it. *)
Lemma emplace_last when_ e q :
  Forall (fun x => x.1 <= when_) q -> emplace when_ e q = q ++ [(when_, e)].
Proof.
  induction 1 as [|[t f] q Ht _ IH]; cbn [emplace app]; [done|]. cbn in Ht.
  destruct (Z.ltb_spec when_ t); [lia|]. by rewrite IH.
Qed.

(** Entries that are all due run in queue order. *)
Lemma Run_all_due now l :
  l.(stop_) = false -> Forall (fun x => x.1 <= now) l.(queue_) ->
  (Run (length l.(queue_)) now l).1 = (fun x => x.2.(task)) <$> l.(queue_).
Proof.
  destruct l as [r st q n]. cbn [stop_ queue_]. intros -> Hq. induction Hq as [|[w e] q Hw _ IH]; [done|].
  cbn in Hw. cbn [length Run]. unfold Run_turn. cbn [stop_ queue_ running_ next_id_].
  destruct (Z.leb_spec w now); [|lia].
  destruct (Run (length q) now (mkLoop r false q n)) as [ts l'] eqn:E. cbn. f_equal.
  apply IH.
Qed.

(** Posting at non-decreasing times appends. *)
Lemma posts_append ts l now :
  l.(stop_) = false -> Forall (fun x => x.1 <= now) l.(queue_) ->
  StronglySorted Z.le (now :: (fst <$> ts)) ->
  let l' := fold_left (fun l p => Post p.1 p.2 l) ts l in
  exists es, l'.(queue_) = l.(queue_) ++ es /\ (fun x => x.2.(task)) <$> es = snd <$> ts /\
    (fst <$> es) = (fst <$> ts) /\ l'.(stop_) = false.
Proof.
  revert l now. induction ts as [|[w t] ts IH]; intros l now Hstop Hq Hs.
  { exists []. by rewrite app_nil_r. }
  cbn [fmap list_fmap fst] in Hs. apply StronglySorted_inv in Hs as [Hs Hf].
  apply Forall_cons in Hf as [Hw _]. cbn [fold_left fst snd].
  destruct (IH (Post w t l) w) as (es & He1 & He2 & He3 & He4); [done| |done|].
  - cbn. rewrite Z.add_0_r. rewrite Forall_forall in *. intros x Hx.
    apply emplace_elem in Hx as [->|Hx]; [done|]. specialize (Hq x Hx). cbv beta in Hq. lia.
  - exists ((w, mkEntry l.(next_id_) t) :: es). rewrite He1. cbn [fmap list_fmap fst snd task].
    rewrite He2, He3. split; [|done]. cbn. rewrite Z.add_0_r, emplace_last, <- app_assoc; [done|].
    eapply Forall_impl; [exact Hq|]. intros x Hx. cbv beta in *. lia.
Qed.

(** ** Properties *)

(** Every operation keeps the queue sorted and the timer ids unique (until the 64-bit counter
    is exhausted). *)
Theorem loop_invariant l :
  wf_loop l ->
  wf_loop (Start l).2 /\ wf_loop (Stop_request l) /\ wf_loop (Stop_joined l) /\
  (forall i, wf_loop (Cancel i l)) /\ (forall now, wf_loop (Run_turn now l).2) /\
  (0 <= l.(next_id_) < 2 ^ 64 - 1 -> forall now t d, wf_loop (PostDelayed now t d l).2).
Proof.
  intros Hw. assert (Hrep : forall r s, wf_loop (mkLoop r s l.(queue_) l.(next_id_)))
    by (intros; by destruct Hw).
  split; [unfold Start; case_if; [done|apply Hrep]|].
  split; [unfold Stop_request; case_if; [done|apply Hrep]|].
  split; [split; cbn; constructor|].
  split; [intros i; apply (wf_sublist _ l); [apply erase_id_sublist|done]|].
  split; [|intros; by apply wf_PostDelayed].
  intros now. unfold Run_turn. case_if; [done|]. destruct (queue_ l) as [|[t e] q] eqn:E; [done|].
  case_if; [|done]. cbn [snd]. apply (wf_sublist q l); [|done]. rewrite E. by constructor.
Qed.

(** The task [Run] takes is due, and is the earliest: nothing left in the queue is older, and
    what is left was queued behind it. *)
Theorem Run_takes_earliest now l t l' :
  wf_loop l -> Run_turn now l = (RunTask t, l') ->
  exists w e, l.(queue_) = (w, e) :: l'.(queue_) /\ e.(task) = t /\ w <= now /\
    Forall (fun x => w <= x.1) l'.(queue_).
Proof.
  intros [Hs _ _]. unfold Run_turn. destruct (stop_ l); [done|].
  destruct (queue_ l) as [|[w e] q] eqn:E; [done|]. case_if; [|done]. zbool.
  intros [= <- <-]. exists w, e. repeat split; [done|].
  unfold sorted_queue in Hs. cbn in Hs. apply StronglySorted_inv in Hs as [_ Hf].
  cbn [queue_]. rewrite Forall_fmap in Hf. exact Hf.
Qed.

(** A cancelled timer is gone, and no other entry is. *)
Theorem Cancel_exact i l x :
  wf_loop l -> x ∈ (Cancel i l).(queue_) <-> x ∈ l.(queue_) /\ x.2.(id) <> i.
Proof.
  intros [_ Hi _]. cbn. revert Hi. generalize (queue_ l). intros q Hi.
  induction q as [|[t e] q IH]; cbn [erase_id]; [set_solver|].
  unfold ids in Hi. cbn in Hi. apply NoDup_cons in Hi as [Hni Hi].
  destruct (Z.eqb_spec e.(id) i) as [<-|Hne].
  - rewrite elem_of_cons. split.
    + intros Hx. split; [by right|]. intros He. apply Hni. rewrite <- He.
      apply list_elem_of_fmap. eauto.
    + intros [[->|Hx] Hne]; [done|done].
  - rewrite !elem_of_cons, IH by done. split; [intros [->|[? ?]]; tauto|]. intros [[->|?] ?]; tauto.
Qed.

(** Tasks posted without delay at non-decreasing times no earlier than the pending deadlines
    run in the order they were posted, after what was pending. *)
Theorem Post_fifo l now ts later :
  l.(stop_) = false -> Forall (fun x => x.1 <= now) l.(queue_) ->
  StronglySorted Z.le (now :: (fst <$> ts)) -> Forall (fun p => p.1 <= later) ts -> now <= later ->
  (Run (length l.(queue_) + length ts) later (fold_left (fun l p => Post p.1 p.2 l) ts l)).1 =
    ((fun x => x.2.(task)) <$> l.(queue_)) ++ (snd <$> ts).
Proof.
  intros Hstop Hq Hsorted Hlater Hl.
  destruct (posts_append ts l now Hstop Hq Hsorted) as (es & He1 & He2 & He3 & He4).
  rewrite <- He2, <- (length_fmap snd ts), <- He2, length_fmap, <- fmap_app, <- length_app, <- He1.
  apply Run_all_due; [done|]. rewrite He1. apply Forall_app. split.
  - eapply Forall_impl; [exact Hq|]. intros x Hx. cbv beta in *. lia.
  - rewrite Forall_forall in Hlater. apply Forall_forall. intros x Hx.
    assert (Hin : x.1 ∈ (fst <$> ts)) by (rewrite <- He3; apply list_elem_of_fmap; eauto).
    apply list_elem_of_fmap in Hin as (p & -> & Hp). by apply Hlater.
Qed.

End event_loop.

(** ** Witnesses *)

(** Two pending entries with one deadline, then a later one. *)
Definition sample_loop : EventLoop (Task := nat) :=
  (PostDelayed 0 3%nat 20 (Post 10 2%nat (Post 10 1%nat EventLoop_new))).2.

Lemma wf_sample_loop : wf_loop sample_loop.
Proof.
  split; cbn.
  - repeat constructor; cbn; lia.
  - apply (bool_decide_unpack _). by vm_compute.
  - repeat constructor; cbn; lia.
Qed.

Lemma loop_invariant_witness : wf_loop (Cancel 2 sample_loop).
Proof. exact (proj1 (proj2 (proj2 (proj2 (loop_invariant sample_loop wf_sample_loop)))) 2). Defined.

Lemma Run_takes_earliest_witness :
  Run_turn 15 sample_loop = (RunTask 1%nat, mkLoop false false [(10, mkEntry 2 2%nat); (20, mkEntry 3 3%nat)] 4) /\
  exists w e, sample_loop.(queue_) = (w, e) :: [(10, mkEntry 2 2%nat); (20, mkEntry 3 3%nat)] /\
    e.(task) = 1%nat /\ w <= 15 /\
    Forall (fun x => w <= x.1) [(10, mkEntry 2 2%nat); (20, mkEntry 3 3%nat)].
Proof.
  split; [reflexivity|].
  exact (Run_takes_earliest 15 sample_loop 1%nat _ wf_sample_loop eq_refl).
Defined.

Lemma Cancel_exact_witness : (10, mkEntry 1 1%nat) ∈ (Cancel 2 sample_loop).(queue_).
Proof.
  apply (Cancel_exact 2 sample_loop (10, mkEntry 1 1%nat) wf_sample_loop).
  split; [by left | done].
Defined.

Lemma Post_fifo_witness :
  (Run 4 50 (fold_left (fun l p => Post p.1 p.2 l) [(30, 7%nat); (30, 8%nat)]
     (Post 10 2%nat (Post 10 1%nat EventLoop_new)))).1 = [1%nat; 2%nat; 7%nat; 8%nat].
Proof.
  apply (Post_fifo (Post 10 2%nat (Post 10 1%nat EventLoop_new)) 25 [(30, 7%nat); (30, 8%nat)] 50).
  - reflexivity.
  - repeat constructor; cbn; lia.
  - repeat constructor; cbn; lia.
  - repeat constructor; cbn; lia.
  - lia.
Defined.
