(* ===== verification/SessionLink.v ===== *)
(** * The per-session link ([core/src/runtime/session_link.{h,cpp}])

    A link queues control chunks and hands them to the peer connection, retrying under
    backpressure, reassembles the chunks it receives, and routes datagrams to the handlers.
    [Peer::Send] is an argument: a function from the transport's state, the session, the stream
    and the bytes to the result code and the new state (0 accepted, positive congested, negative
    unavailable).  What an operation does outside the link is its list of [LinkEffect]s.  The
    theorems: chunks are accepted in order and none is lost while the link is up, so the peer
    reassembles exactly the queued messages; a waiting queue always has a pump scheduled; the
    link gives up after 20 s of unavailability and not before. *)
From S2P Require Export CtrlCodec.

(** ** Definitions *)

Definition kCtrlRetryMs : Z := 5.
Definition kCtrlUnavailableRetryMs : Z := 50.
Definition kCtrlUnavailableTimeoutMs : Z := 20000.

Section session_link.
(** [T] is the transport's state, [H] the type of the registered callbacks. *)
Context {T H : Type} (peer_Send : T -> string -> string -> bytes -> Z * T).

Record SessionLink := mkLink {
  session_id_ : string;
  on_block_ : option H;
  on_sack_ : option H;
  attached_ : bool;
  ctrl_queue_ : list bytes;
  ctrl_fail_ : option H;
  pump_scheduled_ : bool;
  ctrl_unavailable_ms_ : Z;
  reassembler_ : bytes;
}.

Definition SessionLink_new (session_id : string) : SessionLink :=
  mkLink session_id None None false [] None false 0 [].

Inductive LinkEffect :=
| PeerSend (chunk : bytes) (result : Z)
| LogGaveUp (** [CT_LOG_WARN "ctrl send gave up on session"] *)
| PostPump (delay_ms : Z)
| CallHandler (h : H) (data : bytes)
| CallFail (h : H)
| SetDataSink
| RemoveDataSink.

Definition Attach (l : SessionLink) : list LinkEffect * SessionLink :=
  if l.(attached_) then ([], l) else
  ([SetDataSink], mkLink l.(session_id_) l.(on_block_) l.(on_sack_) true l.(ctrl_queue_)
     l.(ctrl_fail_) l.(pump_scheduled_) l.(ctrl_unavailable_ms_) l.(reassembler_)).

Definition Detach (l : SessionLink) : list LinkEffect * SessionLink :=
  (if l.(attached_) then [RemoveDataSink] else [],
   mkLink l.(session_id_) None None false l.(ctrl_queue_)
     l.(ctrl_fail_) l.(pump_scheduled_) l.(ctrl_unavailable_ms_) l.(reassembler_)).

Definition SendDatagram (t : T) (l : SessionLink) (stream : string) (data : bytes) : Z * T :=
  if negb l.(attached_) then (-1, t) else peer_Send t l.(session_id_) stream data.

Definition OnData (l : SessionLink) (stream : string) (data : bytes) : list LinkEffect :=
  if String.eqb stream kStreamData
  then match l.(on_block_) with Some h => [CallHandler h data] | None => [] end
  else if String.eqb stream kStreamSack
  then match l.(on_sack_) with Some h => [CallHandler h data] | None => [] end
  else [].

Definition SetBlockHandler (h : option H) (l : SessionLink) : SessionLink :=
  mkLink l.(session_id_) h l.(on_sack_) l.(attached_) l.(ctrl_queue_) l.(ctrl_fail_)
    l.(pump_scheduled_) l.(ctrl_unavailable_ms_) l.(reassembler_).

Definition SetSackHandler (h : option H) (l : SessionLink) : SessionLink :=
  mkLink l.(session_id_) l.(on_block_) h l.(attached_) l.(ctrl_queue_) l.(ctrl_fail_)
    l.(pump_scheduled_) l.(ctrl_unavailable_ms_) l.(reassembler_).

(** The three fields [Pump] and [SendCtrl] change. *)
Definition with_queue (q : list bytes) (scheduled : bool) (unavailable : Z) (l : SessionLink)
  : SessionLink :=
  mkLink l.(session_id_) l.(on_block_) l.(on_sack_) l.(attached_) q l.(ctrl_fail_)
    scheduled unavailable l.(reassembler_).

(** [SendCtrl]; [loop_->Post] of the pump is [PostPump 0]. *)
Definition SendCtrl (json : bytes) (on_fail : option H) (l : SessionLink)
  : list LinkEffect * SessionLink :=
  let q := l.(ctrl_queue_) ++ SplitCtrlMessage json in
  let fail := match on_fail with Some h => Some h | None => l.(ctrl_fail_) end in
  (if l.(pump_scheduled_) then [] else [PostPump 0],
   mkLink l.(session_id_) l.(on_block_) l.(on_sack_) l.(attached_) q fail true
     l.(ctrl_unavailable_ms_) l.(reassembler_)).

(** The [while] of [Pump]: every [continue] pops the front. *)
Fixpoint pump_loop (t : T) (q : list bytes) (unavailable : Z) (l : SessionLink)
  : list LinkEffect * SessionLink * T :=
  match q with
  | [] => ([], with_queue [] l.(pump_scheduled_) unavailable l, t)
  | chunk :: q' =>
      if negb l.(attached_) then ([], with_queue [] l.(pump_scheduled_) unavailable l, t) else
      let '(r, t) := peer_Send t l.(session_id_) kStreamCtrl chunk in
      if r =? 0 then
        let '(eff, l', t) := pump_loop t q' 0 l in (PeerSend chunk r :: eff, l', t)
      else if r <? 0 then
        let unavailable := unavailable + kCtrlUnavailableRetryMs in
        if unavailable >=? kCtrlUnavailableTimeoutMs then
          ([PeerSend chunk r; LogGaveUp] ++ match l.(ctrl_fail_) with Some h => [CallFail h] | None => [] end,
           with_queue [] l.(pump_scheduled_) 0 l, t)
        else
          ([PeerSend chunk r; PostPump kCtrlUnavailableRetryMs], with_queue q true unavailable l, t)
      else ([PeerSend chunk r; PostPump kCtrlRetryMs], with_queue q true unavailable l, t)
  end.

Definition Pump (t : T) (l : SessionLink) : list LinkEffect * SessionLink * T :=
  pump_loop t l.(ctrl_queue_) l.(ctrl_unavailable_ms_) l.

(** The task both posts schedule. *)
Definition pump_task (t : T) (l : SessionLink) : list LinkEffect * SessionLink * T :=
  Pump t (with_queue l.(ctrl_queue_) false l.(ctrl_unavailable_ms_) l).

(** [OnCtrlChunk]: the message passed to [on_message], when one is complete. *)
Definition OnCtrlChunk (chunk : bytes) (l : SessionLink) : option bytes * SessionLink :=
  let '(r, b) := Feed l.(reassembler_) (Some chunk) in
  (match r with FeedMessage m => Some m | _ => None end,
   mkLink l.(session_id_) l.(on_block_) l.(on_sack_) l.(attached_) l.(ctrl_queue_) l.(ctrl_fail_)
     l.(pump_scheduled_) l.(ctrl_unavailable_ms_) b).

Definition CtrlPending (l : SessionLink) : Z := zlen l.(ctrl_queue_).

(** *** Runs of the loop thread *)

Inductive LinkEvent :=
| ESend (message : bytes) (on_fail : option H)
| EPump
| EChunk (chunk : bytes).

(** An event that is not possible (a pump nobody scheduled) changes nothing. *)
Definition link_step (s : list LinkEffect * SessionLink * T) (e : LinkEvent)
  : list LinkEffect * SessionLink * T :=
  let '(eff, l, t) := s in
  match e with
  | ESend m f => let '(eff', l) := SendCtrl m f l in (eff ++ eff', l, t)
  | EPump =>
      if l.(pump_scheduled_)
      then let '(eff', l, t) := pump_task t l in (eff ++ eff', l, t) else s
  | EChunk c => (eff, (OnCtrlChunk c l).2, t)
  end.

(** The chunks the transport accepted, in order. *)
Fixpoint accepted (eff : list LinkEffect) : list bytes :=
  match eff with
  | [] => []
  | PeerSend c r :: eff => if r =? 0 then c :: accepted eff else accepted eff
  | _ :: eff => accepted eff
  end.

(** The messages queued by a run. *)
Fixpoint sent_messages (es : list LinkEvent) : list bytes :=
  match es with
  | [] => []
  | ESend m _ :: es => m :: sent_messages es
  | _ :: es => sent_messages es
  end.

(** No wake-up is lost: a queue that waits has a pump scheduled. *)
Definition wf_link (l : SessionLink) : Prop :=
  (l.(ctrl_queue_) <> [] -> l.(pump_scheduled_) = true) /\
  0 <= l.(ctrl_unavailable_ms_) < kCtrlUnavailableTimeoutMs.

(** ** Lemmas *)

Lemma accepted_app e f : accepted (e ++ f) = accepted e ++ accepted f.
Proof.
  induction e as [|[] e IH]; cbn; try done. case_if; [|done]. by rewrite IH.
Qed.

(** One pump of an attached link: what it accepted and what is left make the queue, unless it
    gave up; a queue that is left has a pump posted. *)
Lemma pump_loop_spec t q u l eff l' t' :
  l.(attached_) = true -> 0 <= u < kCtrlUnavailableTimeoutMs ->
  pump_loop t q u l = (eff, l', t') ->
  (LogGaveUp ∉ eff -> accepted eff ++ l'.(ctrl_queue_) = q) /\
  (l'.(ctrl_queue_) <> [] -> l'.(pump_scheduled_) = true /\ exists d, PostPump d ∈ eff) /\
  0 <= l'.(ctrl_unavailable_ms_) < kCtrlUnavailableTimeoutMs /\ l'.(attached_) = true.
Proof.
  intros Ha. revert t u eff l' t'. induction q as [|c q IH]; intros t u eff l' t' Hu; cbn [pump_loop].
  { intros [= <- <- <-]. cbn. repeat split; try done; lia. }
  rewrite Ha. cbn [negb]. destruct (peer_Send t (session_id_ l) kStreamCtrl c) as [r t1].
  destruct (Z.eqb_spec r 0) as [->|Hr].
  - destruct (pump_loop t1 q 0 l) as [[e2 l2] t2] eqn:E. intros [= <- <- <-].
    destruct (IH _ _ _ _ _ (conj (Z.le_refl 0) eq_refl) E) as (H1 & H2 & H3).
    split; [|split; [|exact H3]].
    + intros Hn. cbn. f_equal. apply H1. intros Hin. apply Hn. by right.
    + intros Hq. destruct (H2 Hq) as [Hp [d Hd]]. split; [done|]. exists d. by right.
  - assert (Hz : (r =? 0) = false) by lia.
    destruct (Z.ltb_spec r 0); [destruct (Z.geb_spec (u + kCtrlUnavailableRetryMs) kCtrlUnavailableTimeoutMs)|];
      intros [= <- <- <-]; unfold kCtrlUnavailableRetryMs, kCtrlUnavailableTimeoutMs in *; cbn;
      rewrite ?Hz; repeat split; try done; try lia; try (eexists; right; left).
    intros Hn. exfalso. apply Hn. right. by left.
Qed.

Definition link_of (s : list LinkEffect * SessionLink * T) : SessionLink := s.1.2.

Lemma wf_step s e :
  (link_of s).(attached_) = true -> wf_link (link_of s) ->
  wf_link (link_of (link_step s e)) /\ (link_of (link_step s e)).(attached_) = true.
Proof.
  destruct s as [[eff l] t]. unfold link_of. cbn [fst snd]. intros Ha [Hq Hu].
  destruct e as [m f| |c]; cbn [link_step].
  - split; [by split|done].
  - destruct (pump_scheduled_ l) eqn:Hp; [|split; [split; [cbn; rewrite Hp; exact Hq|done]|done]].
    destruct (pump_task t l) as [[eff' l'] t'] eqn:E. cbn [fst snd].
    apply pump_loop_spec in E as (_ & H2 & H3 & H4); [|done|done].
    split; [split; [|done]|done]. intros Hne. by apply H2.
  - unfold OnCtrlChunk. destruct (Feed (reassembler_ l) (Some c)). split; [by split|done].
Qed.

(** The accepted chunks and the waiting ones are what was queued, unless the link gave up. *)
Lemma link_fifo_gen es : forall eff0 l0 t0 eff l t,
  l0.(attached_) = true -> wf_link l0 ->
  run_events link_step (eff0, l0, t0) es = (eff, l, t) -> LogGaveUp ∉ eff ->
  accepted eff ++ l.(ctrl_queue_) =
    accepted eff0 ++ l0.(ctrl_queue_) ++ concat (SplitCtrlMessage <$> sent_messages es) /\
  LogGaveUp ∉ eff0.
Proof.
  induction es as [|e es IH]; intros eff0 l0 t0 eff l t Ha Hw; cbn [run_events].
  { intros [= <- <- <-] Hn. by rewrite !app_nil_r. }
  destruct (wf_step (eff0, l0, t0) e Ha Hw) as [Hw' Ha'].
  destruct (link_step (eff0, l0, t0) e) as [[eff1 l1] t1] eqn:E. intros Hrun Hn.
  destruct (IH _ _ _ _ _ _ Ha' Hw' Hrun Hn) as [IHeq IHn]. rewrite IHeq.
  destruct e as [m f| |c]; cbn [link_step] in E.
  - injection E as <- <- <-. cbn [ctrl_queue_ sent_messages fmap list_fmap concat].
    rewrite not_elem_of_app in IHn. rewrite accepted_app. split; [|tauto].
    by destruct (pump_scheduled_ l0); cbn; rewrite ?app_nil_r, <- ?app_assoc.
  - destruct (pump_scheduled_ l0); [|injection E as <- <- <-; done].
    destruct (pump_task t0 l0) as [[eff2 l2] t2] eqn:E2. injection E as <- <- <-.
    apply pump_loop_spec in E2 as (H1 & _); [|done|apply Hw]. cbn in H1.
    rewrite not_elem_of_app in IHn. split; [|tauto]. rewrite accepted_app, <- H1 by tauto. cbn. by rewrite <- !app_assoc.
  - injection E as <- <- <-. split; [|done]. unfold OnCtrlChunk.
    by destruct (Feed (reassembler_ l0) (Some c)).
Qed.

(** One pump against an unavailable transport: a retry 50 ms later, or the link gives up. *)
Lemma pump_task_unavailable t l c q r t' :
  l.(attached_) = true -> l.(ctrl_queue_) = c :: q ->
  peer_Send t l.(session_id_) kStreamCtrl c = (r, t') -> r < 0 ->
  pump_task t l =
    let u := l.(ctrl_unavailable_ms_) + kCtrlUnavailableRetryMs in
    if u >=? kCtrlUnavailableTimeoutMs
    then ([PeerSend c r; LogGaveUp] ++ match l.(ctrl_fail_) with Some h => [CallFail h] | None => [] end,
          with_queue [] false 0 l, t')
    else ([PeerSend c r; PostPump kCtrlUnavailableRetryMs], with_queue (c :: q) true u l, t').
Proof.
  intros Ha Hq Hs Hr. unfold pump_task, Pump. cbn [ctrl_queue_ with_queue ctrl_unavailable_ms_].
  rewrite Hq. cbn [pump_loop]. cbn [with_queue attached_ session_id_ ctrl_fail_]. rewrite Ha, Hs. cbn [negb].
  rewrite (proj2 (Z.eqb_neq r 0)) by lia. rewrite (proj2 (Z.ltb_lt r 0) Hr). case_if; done.
Qed.

(** ** Properties *)

(** Along every run of the loop thread after [Attach], whatever the transport answers, control
    chunks that wait always have a pump scheduled. *)
Theorem link_no_lost_wakeup sid es t :
  let l := link_of (run_events link_step ([], (Attach (SessionLink_new sid)).2, t) es) in
  l.(ctrl_queue_) <> [] -> l.(pump_scheduled_) = true.
Proof.
  pose (I := fun s => (link_of s).(attached_) = true /\ wf_link (link_of s)).
  assert (HI : I (run_events link_step ([], (Attach (SessionLink_new sid)).2, t) es)).
  { apply run_events_ind.
    - intros s e [Ha Hw]. destruct (wf_step s e Ha Hw). by split.
    - repeat split; try done; cbn; lia. }
  apply HI.
Qed.

(** End to end: when the link has not given up and its queue has drained, the chunks the
    transport accepted are reassembled by the peer into exactly the messages sent, in order.
    Congestion and up to 20 s of unavailability change nothing. *)
Theorem link_delivers sid es t eff l t' :
  Forall (fun m => zlen m <= kMaxCtrlMessage) (sent_messages es) ->
  run_events link_step ([], (Attach (SessionLink_new sid)).2, t) es = (eff, l, t') ->
  LogGaveUp ∉ eff -> l.(ctrl_queue_) = [] ->
  (feed_all [] (accepted eff)).2 = [] /\
  messages_of (feed_all [] (accepted eff)).1 = sent_messages es.
Proof.
  intros Hm Hrun Hn Hq.
  destruct (link_fifo_gen es [] (Attach (SessionLink_new sid)).2 t eff l t') as [Heq _]; try done.
  rewrite Hq, app_nil_r in Heq. cbn in Heq. rewrite Heq.
  pose proof (ctrl_stream_chunks (sent_messages es) Hm) as Hs.
  destruct (feed_all [] (concat (SplitCtrlMessage <$> sent_messages es))) as [rs b]. tauto.
Qed.

(** Against a transport that stays unavailable the link keeps its queue and retries every 50 ms
    for 399 pumps; the 400th (20 s) drops the queue and calls [on_fail]. *)
Theorem link_gives_up l t c q :
  l.(attached_) = true -> l.(ctrl_queue_) = c :: q -> l.(pump_scheduled_) = true ->
  l.(ctrl_unavailable_ms_) = 0 -> (forall t, (peer_Send t l.(session_id_) kStreamCtrl c).1 < 0) ->
  (forall n, (n < 400)%nat ->
    (link_of (run_events link_step ([], l, t) (replicate n EPump))).(ctrl_queue_) = c :: q) /\
  exists eff l' t', run_events link_step ([], l, t) (replicate 400 EPump) = (eff, l', t') /\
  l'.(ctrl_queue_) = [] /\ LogGaveUp ∈ eff /\
  (forall h, l.(ctrl_fail_) = Some h -> CallFail h ∈ eff) /\ l'.(pump_scheduled_) = false.
Proof.
  intros Ha Hq Hp Hu Hneg.
  assert (Hn : forall n, (n < 400)%nat -> exists eff t',
    run_events link_step ([], l, t) (replicate n EPump) = (eff, with_queue (c :: q) true (50 * Z.of_nat n) l, t')).
  { induction n as [|n IH]; intros Hlt.
    - exists [], t. destruct l. cbn in *. by subst.
    - destruct IH as (eff & t1 & IH); [lia|].
      rewrite replicate_S_end, run_events_app, IH. cbn [run_events link_step with_queue pump_scheduled_].
      specialize (Hneg t1). destruct (peer_Send t1 (session_id_ l) kStreamCtrl c) as [r t2] eqn:E.
      rewrite (pump_task_unavailable t1 _ c q r t2) by done.
      cbn [with_queue ctrl_unavailable_ms_]. unfold kCtrlUnavailableRetryMs, kCtrlUnavailableTimeoutMs.
      destruct (Z.geb_spec (50 * Z.of_nat n + 50) 20000); [lia|].
      eexists _, t2. unfold with_queue. cbn. repeat f_equal. lia. }
  split.
  - intros n Hlt. destruct (Hn n Hlt) as (eff & t' & ->). done.
  - destruct (Hn 399%nat) as (eff & t1 & E); [lia|].
    change (replicate 400 EPump) with (replicate 399 (EPump) ++ [EPump]). rewrite run_events_app, E.
    cbn [run_events link_step with_queue pump_scheduled_].
    specialize (Hneg t1). destruct (peer_Send t1 (session_id_ l) kStreamCtrl c) as [r t2] eqn:E2.
    rewrite (pump_task_unavailable t1 _ c q r t2) by done. cbn.
    eexists _, _, _. split; [reflexivity|]. split; [done|]. split; [apply elem_of_app; right; right; left|]. split; [|done].
    intros h ->. apply elem_of_app. right. right. right. left.
Qed.

End session_link.

(** ** Witnesses *)

(** A transport that answers from a script, then accepts everything. *)
Definition scripted (t : list Z) (_ _ : string) (_ : bytes) : Z * list Z :=
  match t with [] => (0, []) | r :: t => (r, t) end.

Definition sample_run : list (LinkEvent (H := nat)) :=
  [ESend [65; 66] (Some 7%nat); EPump; ESend [67] None; EPump; EPump; EPump].

(** Congested once, unavailable once, then up: both messages arrive. *)
Lemma link_delivers_witness :
  let s := run_events (link_step scripted) ([], (Attach (SessionLink_new "s")).2, [1; -1]) sample_run in
  messages_of (feed_all [] (accepted s.1.1)).1 = [[65; 66]; [67]].
Proof.
  intros s. assert (Hs : s = (s.1.1, s.1.2, s.2)) by (vm_compute; reflexivity).
  apply (link_delivers scripted "s" sample_run [1; -1] _ _ _
    ltac:(repeat constructor; vm_compute; discriminate) Hs).
  - assert (He : s.1.1 = [PostPump 0; PeerSend [1; 65; 66] 1; PostPump 5; PeerSend [1; 65; 66] (-1);
        PostPump 50; PeerSend [1; 65; 66] 0; PeerSend [1; 67] 0]) by (vm_compute; reflexivity).
    rewrite He. intros Hin. repeat (apply elem_of_cons in Hin as [?|Hin]; [discriminate|]).
    by apply elem_of_nil in Hin.
  - vm_compute. reflexivity.
Defined.

Definition waiting_link : SessionLink (H := nat) :=
  mkLink "s" None None true [[1; 65]; [1; 66]] (Some 7%nat) true 0 [].

(** A transport that is down. *)
Definition unreachable (t : unit) (_ _ : string) (_ : bytes) : Z * unit := (-2, t).

Lemma link_gives_up_witness :
  (link_of (run_events (link_step unreachable) ([], waiting_link, tt) (replicate 399 EPump))).(ctrl_queue_) =
    [[1; 65]; [1; 66]].
Proof.
  exact (proj1 (link_gives_up unreachable waiting_link tt [1; 65] [[1; 66]]
    eq_refl eq_refl eq_refl eq_refl (fun _ => eq_refl)) 399%nat (proj1 (Nat.ltb_lt 399 400) eq_refl)).
Defined.

Lemma link_no_lost_wakeup_witness :
  (link_of (run_events (link_step unreachable) ([], (Attach (SessionLink_new "s")).2, tt)
    [ESend [65] (Some 7%nat); EPump])).(pump_scheduled_) = true.
Proof.
  apply (link_no_lost_wakeup unreachable "s" [ESend [65] (Some 7%nat); EPump] tt).
  vm_compute. discriminate.
Defined.
