(* ===== verification/TakeCode.v ===== *)
(** * Take codes and links ([core/src/share/take_code.{h,cpp}])

    A take code is ten Crockford Base32 symbols.  Texts are byte lists; [std::isspace] and
    [std::tolower] are those of the C locale.  The theorems: normalisation yields canonical codes
    only, is idempotent and insensitive to case and separators; every link the program makes is
    parsed back to its code; a log prefix depends on the first four symbols only. *)
From S2P Require Export Prelude.

(** ** Definitions *)

Definition kAlphabet : bytes := sbytes "0123456789ABCDEFGHJKMNPQRSTVWXYZ".
Definition kLength : Z := 10.
Definition kPrefixLength : Z := 4.
Definition kScheme : bytes := sbytes "crosstransfer".

Definition chr (s : string) : Z := znth (sbytes s) 0.

(** The table: the index of a symbol, -1 for the other bytes, with the three aliases. *)
Definition DecodeTable (c : Z) : Z :=
  let index c := match find_byte (Z.eqb c) kAlphabet with Some i => i | None => -1 end in
  if c =? chr "O" then index (chr "0")
  else if (c =? chr "I") || (c =? chr "L") then index (chr "1")
  else index c.

Definition isspace (c : Z) : bool := ((9 <=? c) && (c <=? 13)) || (c =? 32).
Definition tolower (c : Z) : Z := if (65 <=? c) && (c <=? 90) then c + 32 else c.

Fixpoint trim_front (s : bytes) : bytes :=
  match s with
  | [] => []
  | c :: s' => if isspace c then trim_front s' else s
  end.
Definition Trim (s : bytes) : bytes := reverse (trim_front (reverse (trim_front s))).

Definition IEquals (a b : bytes) : bool :=
  (zlen a =? zlen b) && forallb (fun '(x, y) => tolower x =? tolower y) (zip a b).

(** The loop of [Normalize]; [None] is its early [return ""]. *)
Fixpoint normalize_loop (input out : bytes) : option bytes :=
  match input with
  | [] => Some out
  | c :: input =>
      if (c =? chr "-") || (c =? chr " ") || (c =? 9) || (c =? chr "_")
      then normalize_loop input out else
      let c := if (chr "a" <=? c) && (c <=? chr "z") then u8 (c - chr "a" + chr "A") else c in
      if c >=? 0x80 then None else
      let idx := DecodeTable c in
      if idx <? 0 then None else
      if zlen out >=? kLength then None else
      normalize_loop input (out ++ [znth kAlphabet idx])
  end.

Definition Normalize (input : bytes) : bytes :=
  match normalize_loop input [] with
  | None => []
  | Some out => if negb (zlen out =? kLength) then [] else out
  end.

Definition Format (canonical : bytes) : bytes :=
  if negb (zlen canonical =? kLength) then canonical
  else ztake 5 canonical ++ [chr "-"] ++ zdrop 5 canonical.

(** The second half of [ParseCodeOrLink], on what follows the scheme. *)
Definition parse_rest (rest : bytes) : bytes :=
  let code :=
    match find_sub (sbytes "/r/") rest with
    | Some r => Some (zdrop (r + 3) rest)
    | None =>
        if (zlen rest >? 2) && ((znth rest 0 =? chr "r") || (znth rest 0 =? chr "R"))
           && (znth rest 1 =? chr "/")
        then Some (zdrop 2 rest) else None
    end in
  match code with
  | None => []
  | Some rest =>
      match find_byte (fun c => (c =? chr "?") || (c =? chr "#") || (c =? chr "/")) rest with
      | Some e => Normalize (ztake e rest)
      | None => Normalize rest
      end
  end.

Definition ParseCodeOrLink (input : bytes) : bytes :=
  let s := Trim input in
  match s with
  | [] => []
  | _ =>
      let scheme_prefix := sbytes "crosstransfer:" in
      match find_sub (sbytes "://") s with
      | Some sep => parse_rest (zdrop (sep + 3) s)
      | None =>
          if (zlen s >? zlen scheme_prefix) && IEquals (ztake (zlen scheme_prefix) s) scheme_prefix
          then parse_rest (zdrop (zlen scheme_prefix) s)
          else Normalize s
      end
  end.

Definition MakeHttpsLink (link_host canonical : bytes) : bytes :=
  if (zlen link_host =? 0) || negb (zlen canonical =? kLength) then []
  else sbytes "https://" ++ link_host ++ sbytes "/r/" ++ Format canonical.

Definition MakeSchemeLink (canonical : bytes) : bytes :=
  if negb (zlen canonical =? kLength) then []
  else kScheme ++ sbytes "://r/" ++ Format canonical.

Definition LogPrefix (canonical : bytes) : bytes :=
  if zlen canonical <? kPrefixLength then sbytes "????******"
  else ztake kPrefixLength canonical ++ sbytes "******".

(** A symbol of the alphabet, and a canonical code. *)
Definition is_symbol (c : Z) : bool := existsb (Z.eqb c) kAlphabet.
Definition canonical (code : bytes) : Prop :=
  zlen code = kLength /\ Forall (fun c => is_symbol c = true) code.

(** The bytes [Normalize] skips, and upper case as it maps it. *)
Definition is_separator (c : Z) : bool :=
  (c =? chr "-") || (c =? chr " ") || (c =? 9) || (c =? chr "_").

(** ** Lemmas *)

Lemma symbol_range c : is_symbol c = true -> in_u8 c.
Proof.
  unfold is_symbol. intros H. apply existsb_exists in H as (x & Hx & He). apply Z.eqb_eq in He as ->.
  apply list_elem_of_In in Hx. pose proof (sbytes_is_bytes "0123456789ABCDEFGHJKMNPQRSTVWXYZ") as Hb.
  unfold is_bytes in Hb. rewrite Forall_forall in Hb. by apply Hb.
Qed.

(** What the loop does with one byte: skip, reject, or append a symbol. *)
Inductive step_kind := Skip | Reject | Append (c : Z).
Definition classify (c : Z) : step_kind :=
  if is_separator c then Skip else
  let c := if (chr "a" <=? c) && (c <=? chr "z") then u8 (c - chr "a" + chr "A") else c in
  if c >=? 0x80 then Reject else
  if DecodeTable c <? 0 then Reject else Append (znth kAlphabet (DecodeTable c)).

Lemma normalize_loop_classify c input out :
  normalize_loop (c :: input) out =
  match classify c with
  | Skip => normalize_loop input out
  | Reject => None
  | Append a => if zlen out >=? kLength then None else normalize_loop input (out ++ [a])
  end.
Proof. cbn [normalize_loop]. unfold classify, is_separator. repeat (case_if; try done). Qed.

Definition symbol_stable (c : Z) : bool :=
  if is_symbol c then match classify c with Append a => a =? c | _ => false end else true.

Lemma classify_symbol c : is_symbol c = true -> classify c = Append c.
Proof.
  intros H. pose proof (all_bytes symbol_stable ltac:(vm_compute; reflexivity) c (symbol_range c H)) as Hs.
  unfold symbol_stable in Hs. rewrite H in Hs. destruct (classify c); try done. by apply Z.eqb_eq in Hs as ->.
Qed.

Definition appends_symbol (c : Z) : bool :=
  match classify c with Append a => is_symbol a | _ => true end.

Lemma classify_append c a : in_u8 c -> classify c = Append a -> is_symbol a = true.
Proof.
  intros Hc Ha. pose proof (all_bytes appends_symbol ltac:(vm_compute; reflexivity) c Hc) as H.
  unfold appends_symbol in H. by rewrite Ha in H.
Qed.

Lemma normalize_loop_symbols input out r :
  is_bytes input -> Forall (fun c => is_symbol c = true) out -> normalize_loop input out = Some r ->
  Forall (fun c => is_symbol c = true) r.
Proof.
  intros Hb. revert out. induction Hb as [|c input Hc _ IH]; intros out Ho.
  - cbn. by intros [= <-].
  - rewrite normalize_loop_classify. destruct (classify c) as [| |a] eqn:E; [by apply IH|done|].
    case_if; [done|]. apply IH. apply Forall_app. split; [done|].
    constructor; [by eapply classify_append|done].
Qed.

(** Symbols and separators are copied and skipped. *)
Lemma normalize_loop_copy input out :
  Forall (fun c => is_symbol c = true \/ is_separator c = true) input ->
  zlen out + zlen (List.filter is_symbol input) <= kLength ->
  normalize_loop input out = Some (out ++ List.filter is_symbol input).
Proof.
  intros H. revert out. induction H as [|c input Hc _ IH]; intros out Hl.
  - cbn. by rewrite app_nil_r.
  - rewrite normalize_loop_classify. cbn [List.filter] in Hl |- *. destruct (is_symbol c) eqn:Hs.
    + rewrite classify_symbol by done. rewrite zlen_cons in Hl. pose proof (zlen_nonneg (List.filter is_symbol input)).
      destruct (Z.geb_spec (zlen out) kLength); [lia|].
      rewrite IH by (rewrite zlen_app, zlen_cons, zlen_nil; lia). by rewrite <- app_assoc.
    + destruct Hc as [Hc|Hc]; [done|]. unfold classify. rewrite Hc. by apply IH.
Qed.

Lemma filter_symbols code : Forall (fun c => is_symbol c = true) code -> List.filter is_symbol code = code.
Proof. induction 1 as [|c l Hc _ IH]; cbn [List.filter]; [done|]. by rewrite Hc, IH. Qed.

Lemma Normalize_copy input code :
  Forall (fun c => is_symbol c = true \/ is_separator c = true) input ->
  List.filter is_symbol input = code -> zlen code = kLength -> Normalize input = code.
Proof.
  intros Hi Hf Hl. unfold Normalize. rewrite normalize_loop_copy, Hf; [|done|rewrite Hf, zlen_nil; lia].
  cbn. rewrite Hl. done.
Qed.

Lemma Format_symbols code : canonical code ->
  Forall (fun c => is_symbol c = true \/ is_separator c = true) (Format code) /\
  List.filter is_symbol (Format code) = code.
Proof.
  intros [Hl Hs]. unfold Format. rewrite Hl. cbn [negb Z.eqb]. rewrite Z.eqb_refl. cbn [negb].
  assert (H1 : Forall (fun c => is_symbol c = true) (ztake 5 code)) by by apply Forall_take.
  assert (H2 : Forall (fun c => is_symbol c = true) (zdrop 5 code)) by by apply Forall_drop.
  split.
  - apply Forall_app. split; [by eapply Forall_impl; [exact H1|left]|]. constructor; [by right|].
    by eapply Forall_impl; [exact H2|left].
  - rewrite List.filter_app, filter_symbols by done. cbn [List.filter app].
    replace (is_symbol (chr "-")) with false by reflexivity. rewrite filter_symbols by done.
    apply ztake_zdrop.
Qed.

(** Trimming changes nothing when both ends are not spaces. *)
Lemma trim_front_id a s : isspace a = false -> trim_front (a :: s) = a :: s.
Proof. intros H. cbn. by rewrite H. Qed.

Lemma Trim_id a s b : isspace a = false -> isspace b = false -> Trim (a :: s ++ [b]) = a :: s ++ [b].
Proof.
  intros Ha Hb. unfold Trim. rewrite trim_front_id by done.
  rewrite reverse_cons, reverse_snoc. cbn [app]. rewrite trim_front_id by done.
  rewrite reverse_cons, reverse_app, reverse_involutive. done.
Qed.

Definition symbol_plain (c : Z) : bool :=
  if is_symbol c || is_separator c
  then negb ((c =? chr "?") || (c =? chr "#") || (c =? chr "/")) && (is_separator c || negb (isspace c))
  else true.

Lemma symbol_plain_ok c : is_symbol c = true \/ c = chr "-" ->
  ((c =? chr "?") || (c =? chr "#") || (c =? chr "/")) = false /\ isspace c = false.
Proof.
  intros [H| ->]; [|done].
  pose proof (all_bytes symbol_plain ltac:(vm_compute; reflexivity) c (symbol_range c H)) as Hp.
  unfold symbol_plain in Hp. rewrite H in Hp. cbn [orb] in Hp. apply andb_true_iff in Hp as [Hp Hq].
  apply negb_true_iff in Hp. split; [done|]. destruct (is_separator c) eqn:E; [|by apply negb_true_iff in Hq].
  exfalso. assert (Hc : classify c = Append c) by by apply classify_symbol.
  unfold classify in Hc. by rewrite E in Hc.
Qed.

(** A formatted code is five symbols, a hyphen and five symbols. *)
Lemma Format_shape code : canonical code ->
  exists s b, Format code = s ++ [b] /\ is_symbol b = true /\
    Forall (fun c => is_symbol c = true \/ c = chr "-") (Format code).
Proof.
  intros [Hl Hs]. unfold Format. rewrite Hl. cbn [negb Z.eqb]. rewrite Z.eqb_refl. cbn [negb].
  assert (H1 : Forall (fun c => is_symbol c = true) (ztake 5 code)) by by apply Forall_take.
  assert (H2 : Forall (fun c => is_symbol c = true) (zdrop 5 code)) by by apply Forall_drop.
  destruct (zdrop 5 code) as [|x r _] eqn:E using rev_ind.
  { apply (f_equal zlen) in E. rewrite zlen_zdrop, Hl in E. done. }
  exists (ztake 5 code ++ [chr "-"] ++ r), x. rewrite <- !app_assoc. split; [done|].
  apply Forall_app in H2 as [H2 Hx]. apply Forall_cons in Hx as [Hx _]. split; [done|].
  repeat (apply Forall_app; split); try (constructor; [by right|by constructor]);
    try (by eapply Forall_impl; [eassumption|left]). constructor; [by left|constructor].
Qed.

(** What follows the code path in a link is parsed to the code. *)
Lemma parse_code_rest code : canonical code ->
  match find_byte (fun c => (c =? chr "?") || (c =? chr "#") || (c =? chr "/")) (Format code) with
  | Some e => Normalize (ztake e (Format code))
  | None => Normalize (Format code)
  end = code.
Proof.
  intros Hc. destruct (Format_shape code Hc) as (_ & _ & _ & _ & Hf).
  rewrite (proj2 (find_byte_none _ _)).
  - destruct (Format_symbols code Hc) as [H1 H2]. apply Normalize_copy; [done|done|apply Hc].
  - eapply Forall_impl; [exact Hf|]. intros c Hp. apply symbol_plain_ok, Hp.
Qed.

Lemma Format_length code : canonical code -> zlen (Format code) = 11.
Proof.
  intros [Hl _]. unfold Format. rewrite Hl. cbn [negb Z.eqb]. rewrite Z.eqb_refl. cbn [negb].
  rewrite !zlen_app, zlen_ztake, zlen_zdrop, Hl. reflexivity.
Qed.

(** A link [scheme ++ "://" ++ rest ++ code] reaches [parse_rest] with what follows the scheme. *)
Lemma parse_scheme scheme rest code :
  canonical code -> (match scheme with a :: _ => isspace a | [] => true end) = false ->
  Forall (fun c => c <> chr ":") scheme ->
  ParseCodeOrLink (scheme ++ sbytes "://" ++ (rest ++ Format code)) = parse_rest (rest ++ Format code).
Proof.
  intros Hc Ha Hs. destruct scheme as [|a scheme]; [done|].
  destruct (Format_shape code Hc) as (s & b & Hf & Hb & _).
  assert (Hbs : isspace b = false) by by apply symbol_plain_ok; left.
  unfold ParseCodeOrLink.
  assert (Ht : Trim ((a :: scheme) ++ sbytes "://" ++ rest ++ Format code) =
    (a :: scheme) ++ sbytes "://" ++ rest ++ Format code).
  { rewrite Hf.
    replace ((a :: scheme) ++ sbytes "://" ++ rest ++ s ++ [b])
      with (a :: (scheme ++ sbytes "://" ++ rest ++ s) ++ [b]) by (cbn [app]; by rewrite <- !app_assoc).
    by apply Trim_id. }
  rewrite Ht. rewrite (find_sub_app (chr ":") [47; 47]) by done.
  replace (zdrop (zlen (a :: scheme) + 3) _) with (rest ++ Format code); [done|].
  rewrite (app_assoc (a :: scheme)), zdrop_app; [done|]. by rewrite zlen_app.
Qed.

(** A formatted code holds no slash, so only one slash follows [://] in a scheme link. *)
Lemma no_slash_r code : canonical code -> find_sub (sbytes "/r/") (sbytes "r/" ++ Format code) = None.
Proof.
  intros Hc. destruct (find_sub _ _) as [i|] eqn:E; [|done]. exfalso.
  apply find_sub_some in E as (l & r & E & _).
  destruct (Format_shape code Hc) as (_ & _ & _ & _ & Hp).
  apply (f_equal (List.filter (Z.eqb 47))) in E. rewrite !List.filter_app in E.
  apply (f_equal length) in E. rewrite !length_app in E.
  assert (H0 : List.filter (Z.eqb 47) (Format code) = []).
  { clear E. induction Hp as [|c k Hk _ IH]; [done|]. cbn [List.filter].
    destruct (Z.eqb_spec 47 c) as [<-|]; [|done]. by destruct Hk. }
  rewrite H0 in E. change (length (List.filter (Z.eqb 47) (sbytes "r/"))) with 1%nat in E.
  change (length (List.filter (Z.eqb 47) (sbytes "/r/"))) with 2%nat in E. cbn [length] in E. lia.
Qed.

(** ** Properties *)

(** Whatever the input, [Normalize] returns a canonical code or the empty string. *)
Theorem Normalize_sound input :
  is_bytes input -> Normalize input = [] \/ canonical (Normalize input).
Proof.
  intros Hb. unfold Normalize. destruct (normalize_loop input []) as [out|] eqn:E; [|by left].
  destruct (Z.eqb_spec (zlen out) kLength); cbn; [|by left]. right. split; [done|].
  by eapply normalize_loop_symbols; [exact Hb| |exact E].
Qed.

(** A canonical code, bare or as it is displayed, with any separators inserted, normalises to
    itself. *)
Theorem Normalize_canonical code input :
  canonical code -> Forall (fun c => is_symbol c = true \/ is_separator c = true) input ->
  List.filter is_symbol input = code ->
  Normalize input = code /\ Normalize code = code /\ Normalize (Format code) = code.
Proof.
  intros Hc Hi Hf. pose proof Hc as [Hl Hs]. destruct (Format_symbols code Hc) as [H1 H2].
  split; [by apply Normalize_copy|]. split; [|by apply Normalize_copy].
  apply Normalize_copy; [|by apply filter_symbols|done]. by eapply Forall_impl; [exact Hs|left].
Qed.

(** The links the program makes are parsed back to the code: the scheme link always, the https
    link when the host has no slash. *)
Theorem link_roundtrip host code :
  canonical code -> host <> [] -> Forall (fun c => c <> chr "/") host ->
  ParseCodeOrLink (MakeSchemeLink code) = code /\
  ParseCodeOrLink (MakeHttpsLink host code) = code.
Proof.
  intros Hc Hh Hs. pose proof Hc as [Hl _]. destruct (Format_shape code Hc) as (s & b & Hf & Hb & Hp).
  assert (Hbs : isspace b = false) by by apply symbol_plain_ok; left.
  split.
  - unfold MakeSchemeLink. rewrite Hl. cbn [negb Z.eqb]. rewrite Z.eqb_refl. cbn [negb].
    change (kScheme ++ sbytes "://r/" ++ Format code) with
      (sbytes "crosstransfer" ++ sbytes "://" ++ (sbytes "r/" ++ Format code)).
    rewrite parse_scheme by (done || by repeat constructor).
    unfold parse_rest. rewrite no_slash_r by done. cbn [sbytes app]. rewrite !zlen_cons.
    destruct (Z.gtb_spec (1 + (1 + zlen (Format code))) 2).
    + apply parse_code_rest, Hc.
    + rewrite Hf, zlen_app, zlen_cons, zlen_nil in *. pose proof (zlen_nonneg s).
      destruct s as [|? s]; [|rewrite zlen_cons in *; pose proof (zlen_nonneg s); lia].
      apply (f_equal zlen) in Hf. rewrite Format_length in Hf by done. done.
  - unfold MakeHttpsLink. rewrite Hl. cbn [negb Z.eqb]. rewrite Z.eqb_refl. cbn [negb].
    destruct (Z.eqb_spec (zlen host) 0) as [H0|_]; [by apply zlen_nil_inv in H0|]. cbn [orb].
    change (sbytes "https://" ++ host ++ sbytes "/r/" ++ Format code) with
      (sbytes "https" ++ sbytes "://" ++ (host ++ sbytes "/r/" ++ Format code)).
    rewrite (app_assoc host).
    rewrite parse_scheme by (done || by repeat constructor).
    rewrite <- app_assoc. unfold parse_rest. rewrite (find_sub_app (chr "/") [114; 47]) by done.
    replace (zdrop (zlen host + 3) _) with (Format code).
    + apply parse_code_rest, Hc.
    + rewrite app_assoc, zdrop_app; [done|]. by rewrite zlen_app.
Qed.

(** A logged prefix tells nothing beyond the first four symbols. *)
Theorem LogPrefix_hides code code' :
  ztake kPrefixLength code = ztake kPrefixLength code' -> LogPrefix code = LogPrefix code'.
Proof.
  intros H. unfold LogPrefix. assert (Hz := f_equal zlen H). rewrite !zlen_ztake in Hz.
  unfold kPrefixLength in *. rewrite H.
  destruct (Z.ltb_spec (zlen code) 4), (Z.ltb_spec (zlen code') 4); try done; lia.
Qed.

(** ** Witnesses *)

Definition sample_code : bytes := sbytes "7K3QXA9MPT".

Lemma sample_canonical : canonical sample_code.
Proof. split; [reflexivity|]. repeat constructor. Qed.

Lemma Normalize_sound_witness :
  Normalize (sbytes "7k3qx-a9mpt") = [] \/ canonical (Normalize (sbytes "7k3qx-a9mpt")).
Proof. apply (Normalize_sound (sbytes "7k3qx-a9mpt")), sbytes_is_bytes. Defined.

Lemma Normalize_canonical_witness : Normalize (sbytes "7K3_QX A9MP-T") = sample_code.
Proof.
  apply (Normalize_canonical sample_code (sbytes "7K3_QX A9MP-T") sample_canonical); [|reflexivity].
  repeat (constructor; [(left; reflexivity) || (right; reflexivity)|]). constructor.
Defined.

Lemma link_roundtrip_witness :
  ParseCodeOrLink (MakeHttpsLink (sbytes "take.example.org") sample_code) = sample_code.
Proof.
  apply (link_roundtrip (sbytes "take.example.org") sample_code sample_canonical); [discriminate|].
  repeat (constructor; [discriminate|]). constructor.
Defined.

Lemma LogPrefix_hides_witness : LogPrefix sample_code = LogPrefix (sbytes "7K3Q000000").
Proof. apply (LogPrefix_hides sample_code (sbytes "7K3Q000000")). reflexivity. Defined.
