(* ===== verification/Paths.v ===== *)
(** * Manifest paths ([core/src/transfer/path_sanitize.{h,cpp}])

    Manifest paths come from the peer and are hostile: the receiver joins them under its save
    directory.  Paths are byte lists; [std::filesystem::path] is modelled as POSIX has it, a
    string whose [/=] adds a separator and is replaced by an absolute operand, with [toupper] of
    the C locale.  The theorems: the UTF-8 check accepts exactly the encodings of Unicode scalar
    values; a path is accepted exactly when every component is safe; a joined path never leaves
    the base directory; a unique name is free. *)
From S2P Require Export Prelude.
From stdpp Require Import pretty.
#[local] Open Scope Z_scope.

(** ** Definitions *)

Definition kMaxComponentBytes : Z := 255.
Definition kMaxPathBytes : Z := 4096.

Definition slash : Z := 47.

(** The lead byte of a multi-byte sequence: its length and the bits of the code point. *)
Definition utf8_lead (c : Z) : option (Z * Z) :=
  if Z.land c 0xE0 =? 0xC0 then
    if c <? 0xC2 then None else Some (2, Z.land c 0x1F)
  else if Z.land c 0xF0 =? 0xE0 then Some (3, Z.land c 0x0F)
  else if Z.land c 0xF8 =? 0xF0 then
    if c >? 0xF4 then None else Some (4, Z.land c 0x07)
  else None.

(** The loop over the [n] continuation bytes. *)
Fixpoint utf8_tail (n : nat) (s : bytes) (cp : Z) : option Z :=
  match n with
  | O => Some cp
  | S n =>
      match s with
      | [] => None
      | cc :: s =>
          if negb (Z.land cc 0xC0 =? 0x80) then None
          else utf8_tail n s (Z.lor (Z.shiftl cp 6) (Z.land cc 0x3F))
      end
  end.

(** The loop of [ValidUtf8] on the bytes from [i]; [fuel] bounds the sequences read. *)
Fixpoint utf8_loop (fuel : nat) (s : bytes) : bool :=
  match fuel with
  | O => false
  | S fuel =>
    match s with
    | [] => true
    | c :: s' =>
      if c <? 0x80 then utf8_loop fuel s' else
      match utf8_lead c with
      | None => false
      | Some (len, cp) =>
        if len >? zlen s then false else
        match utf8_tail (Z.to_nat (len - 1)) s' cp with
        | None => false
        | Some cp =>
          if (len =? 3) && (cp <? 0x800) then false
          else if (len =? 4) && (cp <? 0x10000) then false
          else if cp >? 0x10FFFF then false
          else if (cp >=? 0xD800) && (cp <=? 0xDFFF) then false
          else utf8_loop fuel (zdrop len s)
        end
      end
    end
  end.

Definition ValidUtf8 (s : bytes) : bool := utf8_loop (S (length s)) s.

Definition toupper (c : Z) : Z := if (97 <=? c) && (c <=? 122) then c - 32 else c.

Definition IsReservedDeviceName (component : bytes) : bool :=
  let stem := match find_byte (Z.eqb 46) component with
              | Some i => ztake i component | None => component end in
  if zlen stem =? 0 then false else
  let up := map toupper stem in
  if bool_decide (up = sbytes "CON") || bool_decide (up = sbytes "PRN")
     || bool_decide (up = sbytes "AUX") || bool_decide (up = sbytes "NUL") then true
  else (zlen up =? 4)
       && (bool_decide (ztake 3 up = sbytes "COM") || bool_decide (ztake 3 up = sbytes "LPT"))
       && (49 <=? znth up 3) && (znth up 3 <=? 57).

(** The bytes of the [switch]: backslash, colon, asterisk, question mark, double quote, the
    angle brackets and the bar. *)
Definition forbidden_char (c : Z) : bool :=
  existsb (Z.eqb c) [92; 58; 42; 63; 34; 60; 62; 124].

Definition SafeComponent (c : bytes) : bool :=
  if (zlen c =? 0) || bool_decide (c = sbytes ".") || bool_decide (c = sbytes "..") then false
  else if zlen c >? kMaxComponentBytes then false
  else if existsb (fun u => (u <? 0x20) || (u =? 0x7F) || forbidden_char u) c then false
  else if (znth c (zlen c - 1) =? 32) || (znth c (zlen c - 1) =? 46) then false
  else if IsReservedDeviceName c then false
  else true.

(** The loop of [IsSafeRelativePath] on the bytes from [start]. *)
Fixpoint safe_loop (fuel : nat) (rel : bytes) : bool :=
  match fuel with
  | O => false
  | S fuel =>
      let slash_at := find_byte (Z.eqb slash) rel in
      let comp := match slash_at with None => rel | Some i => ztake i rel end in
      if negb (SafeComponent comp) then false else
      match slash_at with
      | None => true
      | Some i => if zlen (zdrop (i + 1) rel) =? 0 then false else safe_loop fuel (zdrop (i + 1) rel)
      end
  end.

Definition IsSafeRelativePath (rel : bytes) : bool :=
  if (zlen rel =? 0) || (zlen rel >? kMaxPathBytes) then false
  else if znth rel 0 =? slash then false
  else if negb (ValidUtf8 rel) then false
  else safe_loop (S (length rel)) rel.

(** [std::filesystem::path::operator/=]. *)
Definition path_append (p q : bytes) : bytes :=
  match q with
  | c :: _ => if c =? slash then q
              else if (zlen p =? 0) || (znth p (zlen p - 1) =? slash) then p ++ q
              else p ++ [slash] ++ q
  | [] => if (zlen p =? 0) || (znth p (zlen p - 1) =? slash) then p else p ++ [slash]
  end.

Definition FromUtf8 (s : bytes) : bytes := s.
Definition ToUtf8 (p : bytes) : bytes := p.

Fixpoint join_loop (fuel : nat) (out rel : bytes) : bytes :=
  match fuel with
  | O => out
  | S fuel =>
      match rel with
      | [] => out
      | _ =>
          let slash_at := find_byte (Z.eqb slash) rel in
          let comp := match slash_at with None => rel | Some i => ztake i rel end in
          let out := if zlen comp =? 0 then out else path_append out (FromUtf8 comp) in
          match slash_at with
          | None => out
          | Some i => join_loop fuel out (zdrop (i + 1) rel)
          end
      end
  end.

Definition JoinSafe (base rel : bytes) : bytes := join_loop (S (length rel)) base rel.

(** [std::to_string] *)
Definition to_string (n : Z) : bytes := sbytes (pretty n).

(** [UniqueName]: [exists_ p] is [std::filesystem::exists(p, ec)], [rd] the value of the
    [std::random_device]. *)
Definition numbered (stem ext : bytes) (i : Z) : bytes :=
  stem ++ sbytes " (" ++ to_string i ++ sbytes ")" ++ ext.

Definition stem_ext (name : bytes) (is_dir : bool) : bytes * bytes :=
  if is_dir then (name, []) else
  match rfind_byte (Z.eqb 46) name with
  | Some dot => if dot >? 0 then (ztake dot name, zdrop dot name) else (name, [])
  | None => (name, [])
  end.

Fixpoint unique_loop (fuel : nat) (i : Z) (exists_ : bytes -> bool) (base stem ext : bytes) (rd : Z)
  : bytes :=
  match fuel with
  | O => numbered stem ext rd
  | S fuel =>
      let candidate := numbered stem ext i in
      if negb (exists_ (path_append base (FromUtf8 candidate))) then candidate
      else unique_loop fuel (i + 1) exists_ base stem ext rd
  end.

Definition UniqueName (exists_ : bytes -> bool) (rd : Z) (base name : bytes) (is_dir : bool) : bytes :=
  if negb (exists_ (path_append base (FromUtf8 name))) then name else
  let '(stem, ext) := stem_ext name is_dir in
  unique_loop (Z.to_nat 10000) 1 exists_ base stem ext rd.

Definition BaseName (rel : bytes) : bytes :=
  match rfind_byte (Z.eqb slash) rel with None => rel | Some i => zdrop (i + 1) rel end.

(** *** Specifications *)

(** A Unicode scalar value and its UTF-8 encoding (RFC 3629). *)
Definition scalar (cp : Z) : Prop := 0 <= cp <= 0x10FFFF /\ ~ (0xD800 <= cp <= 0xDFFF).
Definition utf8_encode (cp : Z) : bytes :=
  if cp <? 0x80 then [cp]
  else if cp <? 0x800 then [192 + cp / 64; 128 + cp mod 64]
  else if cp <? 0x10000 then [224 + cp / 4096; 128 + cp / 64 mod 64; 128 + cp mod 64]
  else [240 + cp / 262144; 128 + cp / 4096 mod 64; 128 + cp / 64 mod 64; 128 + cp mod 64].

(** The components between the separators. *)
Fixpoint split_on (rel : bytes) : list bytes :=
  match rel with
  | [] => [[]]
  | c :: rel =>
      if c =? slash then [] :: split_on rel
      else match split_on rel with
           | comp :: comps => (c :: comp) :: comps
           | [] => [[c]]
           end
  end.

(** How the system resolves components from a directory, given as the stack of its components:
    the empty component and dot stay, dot dot goes to the parent. *)
Definition resolve_step (dir : list bytes) (comp : bytes) : list bytes :=
  if bool_decide (comp = []) || bool_decide (comp = sbytes ".") then dir
  else if bool_decide (comp = sbytes "..") then tl dir
  else comp :: dir.
Definition resolve (dir : list bytes) (comps : list bytes) : list bytes :=
  fold_left resolve_step comps dir.

(** ** Lemmas *)

(** *** UTF-8 *)

Definition lead_expected (c : Z) : option (Z * Z) :=
  if (194 <=? c) && (c <? 224) then Some (2, c - 192)
  else if (224 <=? c) && (c <? 240) then Some (3, c - 224)
  else if (240 <=? c) && (c <? 245) then Some (4, c - 240)
  else None.

Definition lead_ok (c : Z) : bool := (c <? 128) || bool_decide (utf8_lead c = lead_expected c).
Definition cont_ok (c : Z) : bool :=
  Bool.eqb (Z.land c 0xC0 =? 0x80) ((128 <=? c) && (c <? 192)).

Lemma utf8_lead_spec c : in_u8 c -> 128 <= c -> utf8_lead c = lead_expected c.
Proof.
  intros Hc H. pose proof (all_bytes lead_ok ltac:(vm_compute; reflexivity) c Hc) as Hs.
  unfold lead_ok in Hs. apply orb_true_iff in Hs as [Hs|Hs]; [zbool; lia|].
  by apply bool_decide_eq_true in Hs.
Qed.

Lemma cont_spec c : in_u8 c -> (Z.land c 0xC0 =? 0x80) = (128 <=? c) && (c <? 192).
Proof.
  intros Hc. pose proof (all_bytes cont_ok ltac:(vm_compute; reflexivity) c Hc) as Hs.
  by apply Bool.eqb_prop in Hs.
Qed.

Lemma cont_push cp c : 128 <= c < 192 -> Z.lor (Z.shiftl cp 6) (Z.land c 0x3F) = cp * 64 + (c - 128).
Proof.
  intros H. change 0x3F with (Z.ones 6). rewrite Z.land_ones by lia.
  rewrite lor_shiftl_add; change (2 ^ 6) with 64; Z.div_mod_to_equations; lia.
Qed.

Lemma is_bytes_cons c s : is_bytes (c :: s) <-> in_u8 c /\ is_bytes s.
Proof. apply Forall_cons. Qed.

(** The continuation loop accepts [n] continuation bytes and accumulates them in base 64. *)
Lemma utf8_tail_inv n s cp cp' : is_bytes s -> utf8_tail n s cp = Some cp' ->
  exists l rest, s = l ++ rest /\ length l = n /\ Forall (fun c => 128 <= c < 192) l /\
    cp' = fold_left (fun a c => a * 64 + (c - 128)) l cp.
Proof.
  intros Hb. revert n cp. induction Hb as [|c s Hc _ IH]; intros [|n] cp; cbn [utf8_tail]; try done.
  - intros [= <-]. by exists [], [].
  - intros [= <-]. by exists [], (c :: s).
  - rewrite cont_spec by done. case_if; [done|]. zbool. intros Htl.
    rewrite cont_push in Htl by lia. destruct (IH _ _ Htl) as (l & rest & -> & Hl & Hf & He).
    exists (c :: l), rest. cbn. repeat split; [by f_equal| |done]. by constructor.
Qed.

Lemma utf8_tail_app l rest cp :
  Forall (fun c => 128 <= c < 192) l ->
  utf8_tail (length l) (l ++ rest) cp = Some (fold_left (fun a c => a * 64 + (c - 128)) l cp).
Proof.
  intros Hl. revert cp. induction Hl as [|c l Hc _ IH]; intros cp; cbn [length utf8_tail app]; [done|].
  rewrite cont_spec by (unfold in_u8; lia). rewrite (proj2 (Z.leb_le 128 c)), (proj2 (Z.ltb_lt c 192)) by lia.
  cbn [negb andb]. rewrite cont_push by lia. apply IH.
Qed.

(** An accepted text is empty or starts with the encoding of a scalar value. *)
Lemma utf8_loop_inv fuel c s :
  is_bytes (c :: s) -> utf8_loop (S fuel) (c :: s) = true ->
  exists cp rest, scalar cp /\ c :: s = utf8_encode cp ++ rest /\ utf8_loop fuel rest = true.
Proof.
  intros Hb. apply is_bytes_cons in Hb as [Hc Hb]. cbn [utf8_loop].
  destruct (Z.ltb_spec c 0x80) as [Hlt|Hge].
  { intros H. exists c, s. unfold scalar, utf8_encode, in_u8 in *. rewrite (proj2 (Z.ltb_lt _ _) Hlt).
    repeat split; (done || lia). }
  rewrite utf8_lead_spec by lia || done. destruct (lead_expected c) as [[len cp]|] eqn:El; [|done].
  destruct (len >? zlen (c :: s)); [done|].
  destruct (utf8_tail _ s cp) as [cp'|] eqn:Et; [|done].
  apply utf8_tail_inv in Et as (l & rest & -> & Hl & Hf & ->); [|done].
  assert (Hlen : 2 <= len <= 4) by (unfold lead_expected in El; repeat case_if_in El; by simplify_eq).
  replace (zdrop len (c :: l ++ rest)) with rest
    by (symmetry; apply (zdrop_app len (c :: l)); rewrite zlen_cons; unfold zlen; lia).
  intros H. exists (fold_left (fun a c => a * 64 + (c - 128)) l cp), rest.
  rewrite app_comm_cons. unfold lead_expected in El.
  repeat case_if_in El; try done; zbool; injection El as <- <-; cbn [Z.eqb Pos.eqb andb] in H;
    destruct l as [|b1 [|b2 [|b3 [|b4 l]]]]; try done; cbn [fold_left] in *;
    repeat (case_if_in H; [done|]); (split; [|split; [|exact H]]).
  all: repeat (apply Forall_cons in Hf as [? Hf]); try clear H.
  all: repeat match goal with Hx : (_ && _)%bool = false |- _ => apply andb_false_iff in Hx end.
  all: zbool.
  1, 3, 5: unfold scalar; split; [lia|]; intros [? ?];
    repeat match goal with Hx : _ \/ _ |- _ => destruct Hx end; zbool; lia.
  all: f_equal; unfold utf8_encode;
    repeat match goal with Hx : _ \/ _ |- _ => destruct Hx end;
    repeat (case_if; zbool; try lia); repeat (f_equal; try (Z.div_mod_to_equations; lia)).
Qed.

(** The checks after a lead byte and its continuation bytes. *)
Lemma utf8_loop_multi fuel c l rest len cp0 :
  in_u8 c -> 128 <= c -> lead_expected c = Some (len, cp0) -> Forall (fun c => 128 <= c < 192) l ->
  zlen l = len - 1 ->
  utf8_loop (S fuel) (c :: l ++ rest) =
    let cp := fold_left (fun a c => a * 64 + (c - 128)) l cp0 in
    if (len =? 3) && (cp <? 0x800) then false
    else if (len =? 4) && (cp <? 0x10000) then false
    else if cp >? 0x10FFFF then false
    else if (cp >=? 0xD800) && (cp <=? 0xDFFF) then false
    else utf8_loop fuel rest.
Proof.
  intros Hc Hge Hl Hf Hlen. cbn [utf8_loop]. rewrite (proj2 (Z.ltb_ge c 0x80)) by lia.
  rewrite utf8_lead_spec, Hl by done. rewrite zlen_cons, zlen_app.
  pose proof (zlen_nonneg rest). destruct (Z.gtb_spec len (1 + (zlen l + zlen rest))); [lia|].
  replace (Z.to_nat (len - 1)) with (length l) by (unfold zlen in *; lia).
  rewrite utf8_tail_app by done. cbv zeta.
  replace (zdrop len (c :: l ++ rest)) with rest; [done|].
  symmetry. apply (zdrop_app len (c :: l)). rewrite zlen_cons. lia.
Qed.

Lemma utf8_loop_encode fuel cp rest :
  scalar cp -> utf8_loop (S fuel) (utf8_encode cp ++ rest) = utf8_loop fuel rest.
Proof.
  intros [Hr Hs]. unfold utf8_encode. case_if; [cbn; by rewrite Heqb|].
  repeat case_if; zbool; cbn [app];
    match goal with |- utf8_loop (S fuel) (?c :: ?l) = _ =>
      lazymatch l with
      | ?a :: ?b :: ?d :: rest => change (c :: l) with (c :: [a; b; d] ++ rest)
      | ?a :: ?b :: rest => change (c :: l) with (c :: [a; b] ++ rest)
      | ?a :: rest => change (c :: l) with (c :: [a] ++ rest)
      end
    end;
    (erewrite utf8_loop_multi;
      [|unfold in_u8; Z.div_mod_to_equations; lia|Z.div_mod_to_equations; lia
       |unfold lead_expected; repeat (case_if; zbool; try (exfalso; Z.div_mod_to_equations; lia)); reflexivity
       |repeat constructor; Z.div_mod_to_equations; lia|reflexivity]);
    cbn [fold_left];
    match goal with |- context [?x <? 2048] => replace x with cp by (Z.div_mod_to_equations; lia) end;
    cbn [Z.eqb Pos.eqb andb]; repeat (case_if; zbool; try lia); done.
Qed.

Lemma utf8_encode_pos cp : exists c l, utf8_encode cp = c :: l.
Proof. unfold utf8_encode. repeat case_if; eauto. Qed.

Lemma utf8_loop_spec fuel s :
  is_bytes s -> (length s < fuel)%nat ->
  utf8_loop fuel s = true <-> exists cps, Forall scalar cps /\ s = concat (utf8_encode <$> cps).
Proof.
  revert s. induction fuel as [|fuel IH]; intros s Hb Hf; [lia|]. destruct s as [|c s].
  { split; [by exists []|done]. }
  split.
  - intros H. apply utf8_loop_inv in H as (cp & rest & Hcp & Hs & Hr); [|done].
    destruct (utf8_encode_pos cp) as (a & l & El). rewrite Hs in Hb. apply is_bytes_app in Hb as [_ Hb].
    apply (f_equal length) in Hs as Hn. rewrite El in Hn. cbn in Hn. rewrite length_app in Hn.
    cbn in Hf. apply IH in Hr as (cps & Hc & ->); [|done|lia].
    exists (cp :: cps). rewrite Hs. split; [by constructor|done].
  - intros ([|cp cps] & Hc & Hs); [done|]. cbn in Hs. rewrite Hs in *.
    apply Forall_cons in Hc as [Hcp Hc]. rewrite utf8_loop_encode by done.
    destruct (utf8_encode_pos cp) as (a & l & El). apply is_bytes_app in Hb as [_ Hb].
    rewrite El, length_app in Hf. cbn in Hf. apply IH; [done|lia|]. by exists cps.
Qed.

(** *** Components *)

Lemma split_find_none rel : find_byte (Z.eqb slash) rel = None -> split_on rel = [rel].
Proof.
  intros H. apply find_byte_none in H. induction H as [|c rel Hc _ IH]; [done|]. cbn [split_on].
  rewrite Z.eqb_sym, Hc, IH. done.
Qed.

Lemma split_find_some rel i : find_byte (Z.eqb slash) rel = Some i ->
  split_on rel = ztake i rel :: split_on (zdrop (i + 1) rel) /\
  exists r, rel = ztake i rel ++ slash :: r /\ zdrop (i + 1) rel = r.
Proof.
  intros H. apply find_byte_some in H as (l & b & r & -> & Hl & Hb & Hf). apply Z.eqb_eq in Hb as <-.
  assert (Hz : zdrop (i + 1) (l ++ slash :: r) = r).
  { change (l ++ slash :: r) with (l ++ [slash] ++ r). rewrite app_assoc, zdrop_app; [done|].
    by rewrite zlen_app, Hl. }
  rewrite Hz, ztake_app by done. split; [|by exists r]. clear Hz Hl.
  induction Hf as [|c l Hc _ IH]; cbn [split_on app]; [done|]. by rewrite Z.eqb_sym, Hc, IH.
Qed.

Lemma SafeComponent_nil : SafeComponent [] = false.
Proof. done. Qed.

Lemma safe_loop_spec fuel rel : (length rel < fuel)%nat ->
  safe_loop fuel rel = forallb SafeComponent (split_on rel).
Proof.
  revert rel. induction fuel as [|fuel IH]; intros rel Hf; [lia|]. cbn [safe_loop].
  destruct (find_byte (Z.eqb slash) rel) as [i|] eqn:E.
  - destruct (split_find_some rel i E) as (-> & r & Hr & Hz). cbn [forallb]. rewrite Hz.
    destruct (SafeComponent (ztake i rel)); cbn [negb andb]; [|done].
    destruct (Z.eqb_spec (zlen r) 0) as [H0|H0]; [by apply zlen_nil_inv in H0 as ->|].
    apply IH. rewrite Hr, length_app in Hf. cbn in Hf. lia.
  - rewrite split_find_none by done. cbn [forallb]. rewrite andb_true_r. by destruct (SafeComponent rel).
Qed.

Lemma split_nonempty rel : split_on rel <> [].
Proof. destruct rel as [|c rel]; cbn; [done|]. case_if; [done|]. by destruct (split_on rel). Qed.

Lemma split_no_slash rel comp : comp ∈ split_on rel -> slash ∉ comp.
Proof.
  revert comp. induction rel as [|c rel IH]; intros comp; cbn [split_on].
  - rewrite list_elem_of_singleton. intros ->. apply not_elem_of_nil.
  - destruct (Z.eqb_spec c slash) as [->|Hne].
    + rewrite elem_of_cons. intros [->|H]; [apply not_elem_of_nil|by apply IH].
    + destruct (split_on rel) as [|k ks] eqn:E; [by apply split_nonempty in E|].
      rewrite elem_of_cons. intros [->|H]; [|apply IH; by right].
      apply not_elem_of_cons. split; [done|]. apply IH. by left.
Qed.

(** Joining the components again gives the path. *)
Fixpoint join_on (comps : list bytes) : bytes :=
  match comps with
  | [] => []
  | [c] => c
  | c :: cs => c ++ slash :: join_on cs
  end.

Lemma SafeComponent_spec c : SafeComponent c = true ->
  c <> [] /\ c <> sbytes "." /\ c <> sbytes ".." /\ zlen c <= kMaxComponentBytes /\
  Forall (fun u => 0x20 <= u /\ u <> 0x7F /\ forbidden_char u = false) c.
Proof.
  unfold SafeComponent. repeat (case_if; [done|]). intros _. zbool.
  repeat match goal with H : bool_decide _ = false |- _ => apply bool_decide_eq_false in H end.
  repeat split; try done.
  - intros ->. done.
  - destruct (existsb _ c) eqn:E; [done|]. rewrite Forall_forall. intros u Hu.
    assert (Hx : ((u <? 0x20) || (u =? 0x7F) || forbidden_char u) = false).
    { apply not_true_iff_false. intros Ht. apply not_true_iff_false in E. apply E.
      apply existsb_exists. exists u. split; [by apply list_elem_of_In|done]. }
    zbool. repeat split; try lia; done.
Qed.

Lemma resolve_safe dir comps :
  Forall (fun c => SafeComponent c = true) comps -> resolve dir comps = reverse comps ++ dir.
Proof.
  intros H. revert dir. induction H as [|c cs Hc _ IH]; intros dir; [done|].
  unfold resolve in *. cbn [fold_left]. destruct (SafeComponent_spec c Hc) as (H1 & H2 & H3 & _).
  assert (Hs : resolve_step dir c = c :: dir).
  { unfold resolve_step. by rewrite !bool_decide_false. }
  rewrite Hs, IH, reverse_cons, <- app_assoc. done.
Qed.

Lemma split_on_app a b : split_on (a ++ slash :: b) = split_on a ++ split_on b.
Proof.
  induction a as [|c a IH]; cbn [app split_on].
  - by rewrite Z.eqb_refl.
  - case_if; rewrite IH; [done|]. destruct (split_on a) as [|k ks] eqn:E; [by apply split_nonempty in E|done].
Qed.

(** *** Joining *)

Definition ends_in_slash (p : bytes) : bool := znth p (zlen p - 1) =? slash.

Lemma znth_last_app p c : c <> [] -> znth (p ++ c) (zlen (p ++ c) - 1) = znth c (zlen c - 1).
Proof.
  intros Hc. unfold znth. rewrite zlen_app. assert (0 < zlen c).
  { destruct c; [done|]. rewrite zlen_cons. pose proof (zlen_nonneg c). lia. }
  rewrite app_nth2 by (unfold zlen in *; lia). f_equal. unfold zlen in *. lia.
Qed.

Lemma no_slash_last c : c <> [] -> slash ∉ c -> ends_in_slash c = false.
Proof.
  intros Hc Hs. unfold ends_in_slash. apply Z.eqb_neq. intros He. apply Hs. rewrite <- He.
  unfold znth. apply list_elem_of_In, nth_In. destruct c; [done|]. rewrite zlen_cons. unfold zlen. cbn. lia.
Qed.

(** What [/=] puts before a relative operand. *)
Definition joint (p : bytes) : bytes := if (zlen p =? 0) || ends_in_slash p then p else p ++ [slash].

Lemma path_append_joint p c q : c <> slash -> path_append p (c :: q) = joint p ++ c :: q.
Proof.
  intros Hc. unfold path_append, joint, ends_in_slash. rewrite (proj2 (Z.eqb_neq c slash)) by done.
  case_if; [done|]. by rewrite <- app_assoc.
Qed.

Lemma path_append_twice p c q r : slash ∉ (c :: q) -> (match r with x :: _ => x <> slash | [] => False end) ->
  path_append (path_append p (c :: q)) r = path_append p ((c :: q) ++ slash :: r).
Proof.
  intros Hs Hr. assert (Hc : c <> slash) by (intros ->; apply Hs; by left).
  cbn [app]. rewrite !path_append_joint by done. destruct r as [|x r]; [done|]. rewrite path_append_joint by done.
  unfold joint at 1. unfold ends_in_slash. rewrite znth_last_app by done.
  change (znth (c :: q) (zlen (c :: q) - 1) =? slash) with (ends_in_slash (c :: q)). rewrite no_slash_last by done.
  rewrite zlen_app, zlen_cons. pose proof (zlen_nonneg q). pose proof (zlen_nonneg (joint p)).
  rewrite (proj2 (Z.eqb_neq _ 0)) by lia. cbn [orb]. by rewrite <- !app_assoc.
Qed.

Lemma safe_head rel : Forall (fun c => SafeComponent c = true) (split_on rel) ->
  match rel with x :: _ => x <> slash | [] => False end.
Proof.
  destruct rel as [|x rel]; cbn [split_on]; intros H.
  - apply Forall_cons in H as [H _]. done.
  - intros ->. rewrite Z.eqb_refl in H. apply Forall_cons in H as [H _]. done.
Qed.

Lemma join_loop_spec fuel out rel : (length rel < fuel)%nat ->
  Forall (fun c => SafeComponent c = true) (split_on rel) -> join_loop fuel out rel = path_append out rel.
Proof.
  revert out rel. induction fuel as [|fuel IH]; intros out rel Hf Hs; [lia|]. cbn [join_loop].
  pose proof (safe_head rel Hs) as Hh.
  destruct rel as [|x0 r0]; [done|]. remember (x0 :: r0) as rel. clear Heqrel x0 r0 Hh.
  destruct (find_byte (Z.eqb slash) rel) as [i|] eqn:E.
  - destruct (split_find_some rel i E) as (Hsp & r & Hr & Hz). rewrite Hz in *. rewrite Hsp in Hs.
    assert (Hns : slash ∉ ztake i rel) by (eapply split_no_slash; rewrite Hsp; by left).
    apply Forall_cons in Hs as [Hc Hs]. destruct (ztake i rel) as [|c q] eqn:Et; [done|].
    rewrite Hr. rewrite zlen_cons. pose proof (zlen_nonneg q). rewrite (proj2 (Z.eqb_neq _ 0)) by lia.
    unfold FromUtf8. rewrite IH; [|rewrite Hr, length_app in Hf; cbn in Hf; lia|done].
    by apply path_append_twice, safe_head.
  - rewrite split_find_none in Hs by done. apply Forall_cons in Hs as [Hc _].
    destruct rel; [done|]. rewrite zlen_cons. pose proof (zlen_nonneg rel).
    rewrite (proj2 (Z.eqb_neq _ 0)) by lia. done.
Qed.

Lemma IsSafe_components rel : IsSafeRelativePath rel = true ->
  Forall (fun c => SafeComponent c = true) (split_on rel).
Proof.
  unfold IsSafeRelativePath. repeat (case_if; [done|]). rewrite safe_loop_spec by lia.
  intros H. apply Forall_forall. intros c Hc. rewrite forallb_forall in H. by apply H, list_elem_of_In.
Qed.

(** *** Unique names *)

Lemma to_string_inj i j : to_string i = to_string j -> i = j.
Proof. unfold to_string. intros H. apply sbytes_inj in H. by apply (inj pretty) in H. Qed.

Lemma numbered_inj stem ext i j : numbered stem ext i = numbered stem ext j -> i = j.
Proof.
  unfold numbered. intros H. apply app_inv_head in H. apply app_inv_head in H. apply app_inv_tail in H.
  by apply to_string_inj.
Qed.

Lemma unique_loop_spec n i ex base stem ext rd :
  (exists k, i <= k < i + Z.of_nat n /\ unique_loop n i ex base stem ext rd = numbered stem ext k /\
     ex (path_append base (numbered stem ext k)) = false /\
     forall j, i <= j < k -> ex (path_append base (numbered stem ext j)) = true) \/
  (unique_loop n i ex base stem ext rd = numbered stem ext rd /\
     forall j, i <= j < i + Z.of_nat n -> ex (path_append base (numbered stem ext j)) = true).
Proof.
  revert i. induction n as [|n IH]; intros i; cbn [unique_loop].
  { right. split; [done|]. lia. }
  unfold FromUtf8. destruct (ex (path_append base (numbered stem ext i))) eqn:E; cbn [negb].
  - destruct (IH (i + 1)) as [(k & Hk & H1 & H2 & H3)|[H1 H2]].
    + left. exists k. repeat split; try done; try lia. intros j Hj.
      destruct (decide (j = i)) as [->|]; [done|]. apply H3. lia.
    + right. split; [done|]. intros j Hj. destruct (decide (j = i)) as [->|]; [done|]. apply H2. lia.
  - left. exists i. repeat split; try done; lia.
Qed.

Lemma stem_ext_app name is_dir : let '(stem, ext) := stem_ext name is_dir in stem ++ ext = name.
Proof.
  unfold stem_ext. destruct is_dir; [by rewrite app_nil_r|]. destruct (rfind_byte _ name) as [dot|].
  - case_if; [apply ztake_zdrop|by rewrite app_nil_r].
  - by rewrite app_nil_r.
Qed.

Lemma path_append_inj base p q :
  (match p with x :: _ => x <> slash | [] => False end) ->
  (match q with x :: _ => x <> slash | [] => False end) ->
  path_append base p = path_append base q -> p = q.
Proof.
  destruct p as [|x p], q as [|y q]; try done. intros Hx Hy. rewrite !path_append_joint by done.
  apply app_inv_head.
Qed.

(** ** Properties *)

(** The UTF-8 check accepts exactly the concatenations of encodings of Unicode scalar values:
    no overlong form, no surrogate, no truncated sequence. *)
Theorem ValidUtf8_iff s :
  is_bytes s -> ValidUtf8 s = true <-> exists cps, Forall scalar cps /\ s = concat (utf8_encode <$> cps).
Proof. intros Hb. apply utf8_loop_spec; [done|lia]. Qed.

(** C21: A path is accepted exactly when it has 1 to 4096 bytes, is valid UTF-8 and every component
    is safe; a leading, doubled or trailing separator makes an empty component. *)
Theorem IsSafeRelativePath_iff rel :
  IsSafeRelativePath rel = true <->
  1 <= zlen rel <= kMaxPathBytes /\ ValidUtf8 rel = true /\
  Forall (fun c => SafeComponent c = true) (split_on rel).
Proof.
  split.
  - intros H. split; [|split; [|by apply IsSafe_components]]; revert H; unfold IsSafeRelativePath;
      repeat (case_if; [done|]); intros _; zbool; [|done].
    pose proof (zlen_nonneg rel). lia.
  - intros (Hl & Hu & Hs). unfold IsSafeRelativePath. pose proof (safe_head rel Hs) as Hh.
    destruct rel as [|x rel]; [done|]. rewrite Hu.
    rewrite (proj2 (Z.eqb_neq (zlen (x :: rel)) 0)) by lia.
    rewrite Z.gtb_ltb, (proj2 (Z.ltb_ge _ _)) by lia. cbn [orb negb].
    change (znth (x :: rel) 0) with x. rewrite (proj2 (Z.eqb_neq x slash)) by done.
    rewrite safe_loop_spec by lia. apply forallb_forall. intros c Hc. rewrite Forall_forall in Hs.
    by apply Hs, list_elem_of_In.
Qed.

(** C19: A safe path joined under a directory names a place strictly below it: resolving the joined
    path visits the directory and then descends the components, never leaving it. *)
Theorem JoinSafe_contained base rel root :
  IsSafeRelativePath rel = true -> base <> [] ->
  JoinSafe base rel = path_append base rel /\
  resolve root (split_on (JoinSafe base rel)) = reverse (split_on rel) ++ resolve root (split_on base).
Proof.
  intros Hs Hb. apply IsSafe_components in Hs. assert (Hj : JoinSafe base rel = path_append base rel)
    by (apply join_loop_spec; [lia|done]).
  split; [done|]. rewrite Hj. pose proof (safe_head rel Hs) as Hh. destruct rel as [|x rel]; [done|].
  rewrite path_append_joint by done. unfold joint.
  destruct (Z.eqb_spec (zlen base) 0) as [H0|_]; [by apply zlen_nil_inv in H0|]. cbn [orb].
  destruct (ends_in_slash base) eqn:E.
  - destruct base as [|y b' _] using rev_ind; [done|]. unfold ends_in_slash in E.
    rewrite znth_last_app in E by done. change (znth [y] (zlen [y] - 1)) with y in E.
    apply Z.eqb_eq in E as ->.
    rewrite <- app_assoc. cbn [app]. rewrite !split_on_app. unfold resolve at 1. rewrite fold_left_app.
    fold (resolve root (split_on b')). fold (resolve (resolve root (split_on b')) (split_on (x :: rel))).
    rewrite resolve_safe by done. f_equal. unfold resolve. rewrite fold_left_app. done.
  - rewrite <- app_assoc. cbn [app]. rewrite split_on_app. unfold resolve at 1. rewrite fold_left_app.
    fold (resolve root (split_on base)). fold (resolve (resolve root (split_on base)) (split_on (x :: rel))).
    by rewrite resolve_safe.
Qed.

(** [UniqueName] keeps a free name; otherwise it returns the first free numbered name, the
    number before the extension; the random fallback is used only when all 10000 are taken. *)
Theorem UniqueName_first_free ex rd base name is_dir :
  let '(stem, ext) := stem_ext name is_dir in
  stem ++ ext = name /\
  ((ex (path_append base name) = false /\ UniqueName ex rd base name is_dir = name) \/
   (exists k, 1 <= k <= 10000 /\ UniqueName ex rd base name is_dir = numbered stem ext k /\
      ex (path_append base (numbered stem ext k)) = false /\
      ex (path_append base name) = true /\
      forall j, 1 <= j < k -> ex (path_append base (numbered stem ext j)) = true) \/
   (UniqueName ex rd base name is_dir = numbered stem ext rd /\
      forall j, 1 <= j <= 10000 -> ex (path_append base (numbered stem ext j)) = true)).
Proof.
  pose proof (stem_ext_app name is_dir) as Ha. unfold UniqueName.
  destruct (stem_ext name is_dir) as [stem ext]. split; [done|]. unfold FromUtf8.
  destruct (ex (path_append base name)) eqn:E; cbn [negb]; [|by left]. right.
  destruct (unique_loop_spec (Z.to_nat 10000) 1 ex base stem ext rd) as [(k & H1 & H2 & H3 & H4)|[H1 H2]].
  - left. exists k. repeat split; try done; lia.
  - right. split; [done|]. intros j Hj. apply H2. lia.
Qed.

(** When fewer than 10000 entries exist, the name returned is free: the candidates are distinct
    paths, so one of them is not taken. *)
Theorem UniqueName_free ex rd base name is_dir taken :
  (match name with x :: _ => x <> slash | [] => False end) ->
  (forall p, ex p = true -> p ∈ taken) -> zlen taken < 10000 ->
  ex (path_append base (UniqueName ex rd base name is_dir)) = false.
Proof.
  intros Hn Ht Hlen. pose proof (UniqueName_first_free ex rd base name is_dir) as H.
  destruct (stem_ext name is_dir) as [stem ext] eqn:Es.
  destruct H as (Ha & [[H ->]|[(k & _ & -> & H & _)|[_ H]]]); [done|done|]. exfalso.
  assert (Hhead : match stem with x :: _ => x <> slash | [] => False end).
  { unfold stem_ext in Es. destruct is_dir; [by injection Es as <- <-|].
    destruct (rfind_byte (Z.eqb 46) name) as [dot|]; [|by injection Es as <- <-].
    destruct (Z.gtb_spec dot 0); injection Es as <- <-; [|done].
    destruct name as [|x name]; [done|]. unfold ztake. by destruct (Z.to_nat dot) eqn:?; [lia|]. }
  pose (cands := (fun j => path_append base (numbered stem ext j)) <$> seqZ 1 10000).
  assert (Hnd : NoDup cands).
  { apply NoDup_fmap_2_strong; [|apply NoDup_seqZ]. intros i j _ _ He.
    apply path_append_inj in He; [by apply numbered_inj in He| |]; unfold numbered; by destruct stem. }
  assert (Hle : (length cands <= length taken)%nat).
  { apply NoDup_incl_length; [by apply NoDup_ListNoDup|]. intros p Hp. apply list_elem_of_In in Hp.
    apply list_elem_of_fmap in Hp as (j & -> & Hj). apply elem_of_seqZ in Hj.
    apply list_elem_of_In, Ht, H. lia. }
  unfold cands in Hle. rewrite length_fmap, length_seqZ in Hle. unfold zlen in Hlen. lia.
Qed.

(** [BaseName] is the last component. *)
Theorem BaseName_last rel : last (split_on rel) = Some (BaseName rel).
Proof.
  assert (H : forall rel, match rfind_byte (Z.eqb slash) rel with
    | None => split_on rel = [rel]
    | Some i => 0 <= i /\ exists k ks, split_on rel = k :: ks /\ last ks = Some (zdrop (i + 1) rel)
    end).
  { induction rel0 as [|c r IH]; cbn [rfind_byte split_on]; [done|].
    destruct (rfind_byte (Z.eqb slash) r) as [i|].
    - destruct IH as (Hi & k & ks & Hsp & IH). split; [lia|].
      assert (Hz : zdrop (1 + i + 1) (c :: r) = zdrop (i + 1) r).
      { unfold zdrop. by replace (Z.to_nat (1 + i + 1)) with (S (Z.to_nat (i + 1))) by lia. }
      rewrite Hz, Hsp. destruct (c =? slash); [|by exists (c :: k), ks].
      exists [], (k :: ks). split; [done|]. by rewrite last_cons, IH.
    - rewrite Z.eqb_sym. destruct (c =? slash); rewrite IH; [|done]. split; [lia|]. by exists [], [r]. }
  specialize (H rel). unfold BaseName. destruct (rfind_byte _ rel) as [i|]; [|by rewrite H].
  destruct H as (_ & k & ks & -> & H). by rewrite last_cons, H.
Qed.

(** ** Witnesses *)

Lemma ValidUtf8_iff_witness :
  ValidUtf8 [0xE4; 0xB8; 0xAD] = true <->
  exists cps, Forall scalar cps /\ [0xE4; 0xB8; 0xAD] = concat (utf8_encode <$> cps).
Proof. apply (ValidUtf8_iff [0xE4; 0xB8; 0xAD]). repeat constructor; done. Defined.

Lemma JoinSafe_contained_witness :
  resolve [sbytes "home"] (split_on (JoinSafe (sbytes "save") (sbytes "a/b.txt"))) =
    [sbytes "b.txt"; sbytes "a"; sbytes "save"; sbytes "home"].
Proof.
  rewrite (proj2 (JoinSafe_contained (sbytes "save") (sbytes "a/b.txt") [sbytes "home"]
    ltac:(vm_compute; reflexivity) ltac:(discriminate))).
  vm_compute. reflexivity.
Defined.

(** Two names are taken: the second number is free. *)
Definition taken_names : list bytes := [sbytes "/s/a.txt"; sbytes "/s/a (1).txt"].
Definition is_taken (p : bytes) : bool := bool_decide (p ∈ taken_names).

Lemma UniqueName_free_witness :
  UniqueName is_taken 0 (sbytes "/s") (sbytes "a.txt") false = sbytes "a (2).txt" /\
  is_taken (path_append (sbytes "/s") (UniqueName is_taken 0 (sbytes "/s") (sbytes "a.txt") false)) = false.
Proof.
  split; [vm_compute; reflexivity|].
  apply (UniqueName_free is_taken 0 (sbytes "/s") (sbytes "a.txt") false taken_names).
  - discriminate.
  - intros p. apply bool_decide_eq_true_1.
  - reflexivity.
Defined.
