(* ===== verification/FileIO.v ===== *)
(** * File access and hashing ([core/src/transfer/file_io.{h,cpp}], [core/src/transfer/sha256.{h,cpp}])

    The POSIX branch, over a model disk: a map from paths to contents and a set of directories.
    What the system calls of one operation answer before they complete is a script of [sys]
    answers taken from the world: interrupted, cut short, or failed; when the script is used up
    the call completes.  An open file is its path.  The hash function of the crypto library is
    an argument.  The theorems: reads and writes are complete whatever the interruptions and
    short transfers; writing a file atomically leaves the old or the new content; the streamed
    hash is the hash of the content. *)
From S2P Require Export Paths.
#[local] Open Scope Z_scope.

(** ** Definitions *)

Inductive sys := Short (n : Z) | Intr | Err.

Record World := mkWorld {
  w_files : gmap bytes bytes;
  w_dirs : gset bytes;
  w_calls : list (list sys);
}.
#[export] Instance eta_World : Eta World := fun w => mkWorld w.(w_files) w.(w_dirs) w.(w_calls).

(** The script of the next operation. *)
Definition next_calls (w : World) : list sys * World :=
  match w.(w_calls) with
  | [] => ([], w)
  | t :: ts => (t, w <| w_calls := ts |>)
  end.

Definition content_of (w : World) (p : bytes) : bytes := default [] (w.(w_files) !! p).
Definition is_regular_file (w : World) (p : bytes) : bool := bool_decide (is_Some (w.(w_files) !! p)).
Definition is_directory (w : World) (p : bytes) : bool := bool_decide (p ∈ w.(w_dirs)).
Definition exists_path (w : World) (p : bytes) : bool := is_regular_file w p || is_directory w p.

(** A call that is not retried: only its first answer counts. *)
Definition fails (t : list sys) : bool := match t with Err :: _ => true | _ => false end.

(** *** [FileReader] *)

Record FileReader := mkReader { r_fp : option bytes; r_size : Z }.
Definition FileReader_new : FileReader := mkReader None 0.
Definition FileReader_Close (r : FileReader) : FileReader := FileReader_new.

(** [Open]: the answers are those of [fopen] and of the seek that measures the file. *)
Definition FileReader_Open (p : bytes) (w : World) : bool * FileReader * World :=
  let '(t, w) := next_calls w in
  if fails t then (false, FileReader_new, w) else
  match w.(w_files) !! p with
  | None => (false, FileReader_new, w)
  | Some c => if fails (tail t) then (false, FileReader_new, w)
              else (true, mkReader (Some p) (zlen c), w)
  end.

(** The [pread] loop; [got] is what has been read. *)
Fixpoint pread_loop (t : list sys) (content : bytes) (offset len : Z) (got : bytes) : option bytes :=
  if zlen got >=? len then Some got else
  match t with
  | [] => Some (got ++ slice (offset + zlen got) (len - zlen got) content)
  | Intr :: t => pread_loop t content offset len got
  | Err :: _ => None
  | Short n :: t =>
      let d := slice (offset + zlen got) (Z.min (Z.max 1 n) (len - zlen got)) content in
      if zlen d =? 0 then Some got else pread_loop t content offset len (got ++ d)
  end.

(** [ReadAt]: [None] is [false]. *)
Definition ReadAt (r : FileReader) (offset len : Z) (w : World) : option bytes * World :=
  match r.(r_fp) with
  | None => (None, w)
  | Some p =>
      if len =? 0 then (Some [], w) else
      let '(t, w) := next_calls w in
      (pread_loop t (content_of w p) offset len [], w)
  end.

(** *** [FileWriter] *)

Record FileWriter := mkWriter { fp_ : option bytes }.
Definition FileWriter_new : FileWriter := mkWriter None.

(** The [open] retried on [EINTR], and what is left of the script. *)
Fixpoint open_loop (t : list sys) : bool * list sys :=
  match t with
  | Intr :: t => open_loop t
  | Err :: t => (false, t)
  | Short _ :: t => (true, t)
  | [] => (true, [])
  end.

Definition FileWriter_Open (p : bytes) (w : World) : bool * FileWriter * World :=
  let '(t, w) := next_calls w in
  let '(ok, t) := open_loop t in
  if negb ok then (false, FileWriter_new, w) else
  let w := if is_regular_file w p then w else w <| w_files ::= <[p := []]> |> in
  if fails t then (false, FileWriter_new, w) else (true, mkWriter (Some p), w).

(** The [pwrite] loop, from [total] bytes written: the result and the file's content. *)
Fixpoint pwrite_loop (t : list sys) (content : bytes) (offset : Z) (buf : bytes) (total : Z)
  : bool * bytes :=
  if total >=? zlen buf then (true, content) else
  match t with
  | [] => (true, overwrite (offset + total) (zdrop total buf) content)
  | Intr :: t => pwrite_loop t content offset buf total
  | Err :: _ => (false, content)
  | Short n :: t =>
      let n := Z.min (Z.max 0 n) (zlen buf - total) in
      pwrite_loop t (overwrite (offset + total) (slice total n buf) content) offset buf (total + n)
  end.

Definition WriteAt (f : FileWriter) (offset : Z) (buf : bytes) (w : World) : bool * World :=
  match f.(fp_) with
  | None => (false, w)
  | Some p =>
      if zlen buf =? 0 then (true, w) else
      let '(t, w) := next_calls w in
      let '(ok, c) := pwrite_loop t (content_of w p) offset buf 0 in
      (ok, w <| w_files ::= <[p := c]> |>)
  end.

(** [EnsureSize]: [fstat], then [ftruncate] when the file is shorter. *)
Definition EnsureSize (f : FileWriter) (size : Z) (w : World) : bool * World :=
  match f.(fp_) with
  | None => (false, w)
  | Some p =>
      let '(t, w) := next_calls w in
      if fails t then (false, w) else
      let c := content_of w p in
      if zlen c >=? size then (true, w) else
      if fails (tail t) then (false, w) else
      (true, w <| w_files ::= <[p := c ++ replicate (Z.to_nat (size - zlen c)) 0]> |>)
  end.

(** *** Helpers *)

(** The directories [create_directories] makes: the path and its ancestors. *)
Definition parent_path (p : bytes) : bytes :=
  match rfind_byte (Z.eqb slash) p with Some i => ztake i p | None => [] end.
Fixpoint ancestors (fuel : nat) (p : bytes) : list bytes :=
  match fuel with
  | O => []
  | S fuel => match p with [] => [] | _ => p :: ancestors fuel (parent_path p) end
  end.

Definition EnsureDir (dir : bytes) (w : World) : bool * World :=
  if is_directory w dir then (true, w) else
  let '(t, w) := next_calls w in
  if fails t || is_regular_file w dir then (false, w) else
  (true, w <| w_dirs ::= union (list_to_set (ancestors (S (length dir)) dir)) |>).

(** [std::filesystem::rename] of a file: the destination is replaced. *)
Definition RenameReplace (from to : bytes) (w : World) : bool * World :=
  let '(t, w) := next_calls w in
  match w.(w_files) !! from with
  | Some c =>
      if fails t || is_directory w to then (false, w) else
      (true, w <| w_files := <[to := c]> (delete from w.(w_files)) |>)
  | None => (false, w)
  end.

Definition remove_file (p : bytes) (w : World) : World := w <| w_files ::= delete p |>.

(** [WriteFileAtomic]: the answers are those of [fopen], [fwrite] and [fflush]. *)
Definition WriteFileAtomic (path data : bytes) (w : World) : bool * World :=
  let tmp := path ++ sbytes ".tmp" in
  let '(t, w) := next_calls w in
  if fails t then (false, w) else
  let written := match t with
                 | _ :: Short n :: _ => ztake n data
                 | _ :: Err :: _ => []
                 | _ => data
                 end in
  let w := w <| w_files ::= <[tmp := written]> |> in
  let ok := (zlen data =? 0) || (zlen written =? zlen data) in
  let flushed := match t with _ :: _ :: Err :: _ => false | _ => true end in
  if negb ok || negb flushed then (false, remove_file tmp w) else RenameReplace tmp path w.

(** The [fread] loop: the chunks until a short one. *)
Fixpoint fread_loop (fuel : nat) (bufsize : Z) (content : bytes) (pos : Z) : list bytes :=
  match fuel with
  | O => []
  | S fuel =>
      let d := slice pos bufsize content in
      d :: (if zlen d <? bufsize then [] else fread_loop fuel bufsize content (pos + zlen d))
  end.

(** [ReadFileToString]: [None] is [false]; the answers are those of [fopen] and [ferror]. *)
Definition ReadFileToString (p : bytes) (w : World) : option bytes * World :=
  let '(t, w) := next_calls w in
  if fails t then (None, w) else
  match w.(w_files) !! p with
  | None => (None, w)
  | Some c =>
      let out := concat (fread_loop (S (length c)) 65536 c 0) in
      if fails (tail t) then (None, w) else (Some out, w)
  end.

Definition CreateEmptyFile (p : bytes) (w : World) : bool * World :=
  let '(t, w) := next_calls w in
  if fails t then (false, w) else (true, w <| w_files ::= <[p := []]> |>).

(** [FreeSpace]: [space] is what [std::filesystem::space] reports. *)
Definition FreeSpace (space : option Z) : Z := match space with Some n => n | None => 0 end.

(** *** SHA-256 *)

Definition kHex : bytes := sbytes "0123456789abcdef".

Fixpoint ToHex (d : bytes) : bytes :=
  match d with
  | [] => []
  | b :: d => znth kHex (Z.shiftr b 4) :: znth kHex (Z.land b 0xF) :: ToHex d
  end.

Section sha256.
(** The digest of a whole input: [EVP_DigestFinal_ex] after the updates. *)
Context (EVP_sha256 : bytes -> bytes).

(** The digest context is the input absorbed so far. *)
Definition Sha256_Reset : bytes := [].
Definition Sha256_Update (ctx data : bytes) : bytes := if zlen data =? 0 then ctx else ctx ++ data.
Definition FinishHex (ctx : bytes) : bytes * bytes := (ToHex (EVP_sha256 ctx), Sha256_Reset).

Definition Sha256Hex (data : bytes) : bytes := (FinishHex (Sha256_Update Sha256_Reset data)).1.

(** The loop of [Sha256File]: [cancelled k] is the poll before the k-th read; [None] when
    cancelled. *)
Fixpoint hash_loop (fuel k : nat) (cancelled : nat -> bool) (bufsize : Z) (content : bytes) (pos : Z)
  (ctx : bytes) : option bytes :=
  match fuel with
  | O => None
  | S fuel =>
      if cancelled k then None else
      let d := slice pos bufsize content in
      let ctx := if zlen d >? 0 then Sha256_Update ctx d else ctx in
      if zlen d <? bufsize then Some ctx
      else hash_loop fuel (S k) cancelled bufsize content (pos + zlen d) ctx
  end.

Definition Sha256File (p : bytes) (cancelled : nat -> bool) (w : World) : option bytes * World :=
  let '(t, w) := next_calls w in
  if fails t then (None, w) else
  match w.(w_files) !! p with
  | None => (None, w)
  | Some c =>
      match hash_loop (S (S (length c))) 0 cancelled (2 ^ 20) c 0 Sha256_Reset with
      | None => (None, w)
      | Some ctx => if fails (tail t) then (None, w) else (Some (FinishHex ctx).1, w)
      end
  end.

End sha256.

(** An answer script without a hard failure. *)
Definition no_error (t : list sys) : Prop := Forall (fun a => a <> Err) t.

(** ** Lemmas *)

Lemma slice_ge {A} o n (l : list A) : zlen l <= o -> slice o n l = [].
Proof. intros H. unfold slice. rewrite zdrop_all by done. apply take_nil. Qed.

Lemma slice_min {A} o n (l : list A) : 0 <= o -> 0 <= n -> zlen (slice o n l) < n ->
  slice o n l = zdrop o l.
Proof.
  intros Ho Hn H. unfold slice in *. apply ztake_all. rewrite zlen_ztake in H. lia.
Qed.

(** A slice read so far and the bytes that follow it. *)
Lemma slice_grow {A} o k n (l : list A) : 0 <= o -> 0 <= k -> 0 <= n -> zlen (slice o k l) = k ->
  slice o k l ++ slice (o + k) n l = slice o (k + n) l.
Proof. intros. by rewrite slice_split. Qed.

Lemma pread_loop_spec t c off len got :
  no_error t -> 0 <= off -> zlen got <= len -> got = slice off (zlen got) c ->
  pread_loop t c off len got = Some (slice off len c).
Proof.
  intros Ht. revert got. induction Ht as [|a t Ha _ IH]; intros got Ho Hl Hg; cbn [pread_loop];
    pose proof (zlen_nonneg got); destruct (Z.geb_spec (zlen got) len);
    try (replace len with (zlen got) by lia; by rewrite <- Hg).
  - f_equal. rewrite Hg at 1. rewrite slice_grow by (done || lia || by rewrite <- Hg). f_equal. lia.
  - destruct a as [n| |]; [|by apply IH|done].
    set (m := Z.min (Z.max 1 n) (len - zlen got)). assert (Hm : 1 <= m <= len - zlen got) by lia.
    pose proof (zlen_slice (off + zlen got) m c ltac:(lia) ltac:(lia)) as Hlen.
    destruct (Z.eqb_spec (zlen (slice (off + zlen got) m c)) 0) as [Hz|Hz].
    + f_equal. replace len with (zlen got + (len - zlen got)) by lia.
      rewrite slice_split, <- Hg by lia. rewrite slice_ge by lia. by rewrite app_nil_r.
    + apply IH; [done|rewrite zlen_app; lia|]. rewrite zlen_app, slice_split, <- Hg by lia. f_equal.
      clearbody m. destruct (Z_lt_le_dec (zlen (slice (off + zlen got) m c)) m) as [Hs|Hs].
      * rewrite (slice_min _ m) by lia. symmetry. unfold slice. apply ztake_all. lia.
      * f_equal. lia.
Qed.

(** Without the assumption that no call fails: what is returned is still read from the offset. *)
Lemma pread_loop_prefix t c off len got res :
  0 <= off -> zlen got <= len -> got = slice off (zlen got) c -> pread_loop t c off len got = Some res ->
  zlen res <= len /\ res = slice off (zlen res) c.
Proof.
  intros Ho. revert got. induction t as [|a t IH]; intros got Hl Hg; cbn [pread_loop]; pose proof (zlen_nonneg got);
    destruct (Z.geb_spec (zlen got) len); try (by intros [= <-]).
  - intros [= <-]. rewrite zlen_app, zlen_slice by lia. split; [lia|]. rewrite slice_split, <- Hg by lia. f_equal.
    destruct (Z_lt_le_dec (zlen c - (off + zlen got)) (len - zlen got)) as [Hs|]; [|f_equal; lia].
    unfold slice. rewrite (ztake_all (len - zlen got)) by (zlen_simpl; lia). symmetry.
    destruct (Z_lt_le_dec (zlen c) (off + zlen got)); [rewrite zdrop_all by lia; apply take_nil|].
    apply ztake_all. zlen_simpl. lia.
  - destruct a as [n| |]; [|by apply IH|done].
    set (m := Z.min (Z.max 1 n) (len - zlen got)). assert (Hm : 1 <= m <= len - zlen got) by lia.
    pose proof (zlen_slice (off + zlen got) m c ltac:(lia) ltac:(lia)) as Hlen.
    destruct (Z.eqb_spec (zlen (slice (off + zlen got) m c)) 0) as [Hz|Hz]; [by intros [= <-]|].
    apply IH; [rewrite zlen_app; lia|]. rewrite zlen_app, slice_split, <- Hg by lia. f_equal. clearbody m.
    destruct (Z_lt_le_dec (zlen (slice (off + zlen got) m c)) m) as [Hs|Hs]; [|f_equal; lia].
    rewrite (slice_min _ m) by lia. symmetry. unfold slice. apply ztake_all. lia.
Qed.

Lemma pwrite_loop_spec t c off buf total :
  no_error t -> 0 <= off -> 0 <= total <= zlen buf ->
  pwrite_loop t (overwrite off (ztake total buf) c) off buf total = (true, overwrite off buf c).
Proof.
  intros Ht Ho. revert total. induction Ht as [|a t Ha _ IH]; intros total Hr; cbn [pwrite_loop];
    destruct (Z.geb_spec total (zlen buf)); try (by rewrite ztake_all by lia).
  - f_equal. replace (off + total) with (off + zlen (ztake total buf)) by (rewrite zlen_ztake; lia).
    rewrite overwrite_app by done. by rewrite ztake_zdrop.
  - destruct a as [n| |]; [|by apply IH|done].
    set (m := Z.min (Z.max 0 n) (zlen buf - total)).
    replace (off + total) with (off + zlen (ztake total buf)) by (rewrite zlen_ztake; lia).
    rewrite overwrite_app by done.
    replace (ztake total buf ++ slice total m buf) with (ztake (total + m) buf); [apply IH; lia|].
    pose proof (slice_split 0 total m buf ltac:(lia) ltac:(lia) ltac:(lia)) as Hs.
    unfold slice in Hs at 1 2. by rewrite Z.add_0_l in Hs.
Qed.

Lemma fread_loop_spec fuel bufsize c pos :
  0 < bufsize -> 0 <= pos -> zlen c - pos < Z.of_nat fuel -> concat (fread_loop fuel bufsize c pos) = zdrop pos c.
Proof.
  intros Hb. revert pos. induction fuel as [|fuel IH]; intros pos Hp Hf; cbn [fread_loop concat].
  { rewrite zdrop_all; [done|lia]. }
  pose proof (zlen_slice pos bufsize c Hp ltac:(lia)) as Hl.
  destruct (Z.ltb_spec (zlen (slice pos bufsize c)) bufsize).
  - cbn. rewrite app_nil_r. by apply slice_min; lia.
  - rewrite IH by lia. unfold slice. rewrite <- (ztake_zdrop bufsize (zdrop pos c)) at 3. f_equal.
    rewrite zdrop_zdrop by lia. f_equal. fold (slice pos bufsize c). lia.
Qed.

Lemma hash_loop_spec fuel k cancelled bufsize c pos ctx :
  0 < bufsize -> 0 <= pos <= zlen c -> zlen c - pos < Z.of_nat fuel ->
  hash_loop fuel k cancelled bufsize c pos ctx = None \/
  hash_loop fuel k cancelled bufsize c pos ctx = Some (ctx ++ zdrop pos c).
Proof.
  intros Hb. revert k pos ctx. induction fuel as [|fuel IH]; intros k pos ctx Hp Hf; [lia|].
  cbn [hash_loop]. destruct (cancelled k); [by left|].
  pose proof (zlen_slice pos bufsize c ltac:(lia) ltac:(lia)) as Hl.
  set (d := slice pos bufsize c) in *. assert (Hc : (if zlen d >? 0 then Sha256_Update ctx d else ctx) = ctx ++ d).
  { unfold Sha256_Update. pose proof (zlen_nonneg d). destruct (Z.gtb_spec (zlen d) 0).
    - by rewrite (proj2 (Z.eqb_neq _ _)) by lia.
    - by rewrite (zlen_nil_inv d), app_nil_r by lia. }
  rewrite Hc. destruct (Z.ltb_spec (zlen d) bufsize).
  - right. do 2 f_equal. unfold d in *. apply slice_min; lia.
  - replace (zdrop pos c) with (d ++ zdrop (pos + zlen d) c).
    + rewrite app_assoc. apply IH; lia.
    + unfold d, slice. rewrite <- (ztake_zdrop bufsize (zdrop pos c)) at 3. f_equal.
      rewrite zdrop_zdrop by lia. f_equal. fold (slice pos bufsize c). unfold d in *. lia.
Qed.

Lemma hash_loop_total fuel k bufsize c pos ctx :
  0 < bufsize -> 0 <= pos <= zlen c -> zlen c - pos < Z.of_nat fuel ->
  hash_loop fuel k (fun _ => false) bufsize c pos ctx <> None.
Proof.
  intros Hb. revert k pos ctx. induction fuel as [|fuel IH]; intros k pos ctx Hp Hf; [lia|].
  cbn [hash_loop]. pose proof (zlen_slice pos bufsize c ltac:(lia) ltac:(lia)) as Hl.
  destruct (Z.ltb_spec (zlen (slice pos bufsize c)) bufsize); [done|]. apply IH; lia.
Qed.

Definition hex_digit (c : Z) : bool := existsb (Z.eqb c) kHex.
Definition hex_pair_ok (b : Z) : bool :=
  hex_digit (znth kHex (Z.shiftr b 4)) && hex_digit (znth kHex (Z.land b 0xF)) &&
  forallb (fun b' => negb ((znth kHex (Z.shiftr b 4) =? znth kHex (Z.shiftr b' 4)) &&
                           (znth kHex (Z.land b 0xF) =? znth kHex (Z.land b' 0xF))) || (b =? b'))
    (seqZ 0 256).

Lemma hex_pair b : in_u8 b -> hex_pair_ok b = true.
Proof. apply all_bytes. vm_compute. reflexivity. Qed.

Lemma next_files w : w_files (next_calls w).2 = w_files w.
Proof. unfold next_calls. by destruct (w_calls w). Qed.

(** The disk after [WriteFileAtomic]. *)
Lemma WriteFileAtomic_spec path data w :
  let '(ok, w') := WriteFileAtomic path data w in
  (if ok then w'.(w_files) !! path = Some data else w'.(w_files) !! path = w.(w_files) !! path) /\
  (forall q, q <> path -> q <> path ++ sbytes ".tmp" -> w'.(w_files) !! q = w.(w_files) !! q).
Proof.
  assert (Hne : path ++ sbytes ".tmp" <> path).
  { intros H. apply (f_equal length) in H. rewrite length_app in H. cbn in H. lia. }
  pose proof next_files as Hnext.
  unfold WriteFileAtomic. generalize dependent (path ++ sbytes ".tmp"). intros tmp Hne.
  pose proof (Hnext w) as Hf. destruct (next_calls w) as [t w1]. cbn in Hf.
  destruct (fails t); [by rewrite Hf|].
  set (written := match t with _ :: Short n :: _ => ztake n data | _ :: Err :: _ => [] | _ => data end).
  set (flushed := match t with _ :: _ :: Err :: _ => false | _ => true end).
  destruct (negb ((zlen data =? 0) || (zlen written =? zlen data)) || negb flushed) eqn:E.
  - unfold remove_file. cbn [upd_field w_files]. rewrite Hf.
    split; [by rewrite lookup_delete_ne, lookup_insert_ne|].
    intros q Hq Hq'. by rewrite lookup_delete_ne, lookup_insert_ne.
  - apply orb_false_iff in E as [E _]. apply negb_false_iff, orb_true_iff in E.
    assert (Hw : written = data).
    { destruct E as [E|E]; zbool.
      - apply zlen_nil_inv in E. unfold written. rewrite E. destruct t as [|? [|[]]]; try done. apply take_nil.
      - unfold written in *. destruct t as [|? [|[n| |] ?]]; try done.
        + rewrite zlen_ztake in E. pose proof (zlen_nonneg data).
          destruct (Z_le_dec (zlen data) n); [by apply ztake_all|].
          rewrite (zlen_nil_inv data) by lia. apply take_nil.
        + symmetry. by apply zlen_nil_inv. }
    rewrite Hw. unfold RenameReplace.
    set (w2 := w1 <| w_files ::= <[tmp := data]> |>).
    pose proof (Hnext w2) as Hf2. destruct (next_calls w2) as [t2 w3]. cbn in Hf2.
    rewrite Hf2, Hf, lookup_insert_eq. destruct (fails t2 || is_directory w3 path).
    + rewrite Hf2, Hf. split; [by rewrite lookup_insert_ne|]. intros q ? ?. by rewrite lookup_insert_ne.
    + cbn [upd_field w_files]. split; [by rewrite lookup_insert_eq|].
      intros q ? ?. by rewrite lookup_insert_ne, lookup_delete_ne, lookup_insert_ne.
Qed.

(** *** Whole-file reads *)

Lemma no_error_fails t : no_error t -> fails t = false /\ fails (tail t) = false.
Proof.
  unfold no_error. destruct t as [|a [|b t]]; [done| |].
  - intros [Ha _]%Forall_cons. by destruct a.
  - intros [Ha Ht]%Forall_cons. apply Forall_cons in Ht as [Hb _]. by destruct a, b.
Qed.

Lemma fread_all c : concat (fread_loop (S (length c)) 65536 c 0) = c.
Proof. rewrite fread_loop_spec; [done|done|done|unfold zlen; lia]. Qed.

Lemma ReadFileToString_complete p w c :
  w.(w_files) !! p = Some c -> no_error (next_calls w).1 -> (ReadFileToString p w).1 = Some c.
Proof.
  intros Hc Ht. unfold ReadFileToString. pose proof (next_files w) as Hf. destruct (next_calls w) as [t w1].
  cbn in Hf, Ht. destruct (no_error_fails t Ht) as [-> ->]. by rewrite Hf, Hc, fread_all.
Qed.

Lemma Sha256Hex_ctx sha c : (FinishHex sha c).1 = Sha256Hex sha c.
Proof.
  unfold Sha256Hex, Sha256_Update, Sha256_Reset. destruct (Z.eqb_spec (zlen c) 0) as [H0|]; [|done].
  by apply zlen_nil_inv in H0 as ->.
Qed.

Lemma hash_all c k : hash_loop (S (S (length c))) 0 k (2 ^ 20) c 0 Sha256_Reset = None \/
  hash_loop (S (S (length c))) 0 k (2 ^ 20) c 0 Sha256_Reset = Some c.
Proof.
  pose proof (zlen_nonneg c). apply (hash_loop_spec _ 0 k (2 ^ 20) c 0 Sha256_Reset); unfold zlen in *; lia.
Qed.

Lemma Sha256File_sound sha p cancelled w h :
  (Sha256File sha p cancelled w).1 = Some h -> exists c, w.(w_files) !! p = Some c /\ h = Sha256Hex sha c.
Proof.
  unfold Sha256File. pose proof (next_files w) as Hf. destruct (next_calls w) as [t w1]. cbn in Hf.
  destruct (fails t); [done|]. rewrite Hf. destruct (w_files w !! p) as [c|]; [|done].
  destruct (hash_all c cancelled) as [-> | ->]; [done|]. destruct (fails (tail t)); [done|].
  intros [= <-]. exists c. split; [done|]. exact (Sha256Hex_ctx sha c).
Qed.

Lemma Sha256File_complete sha p w c : w.(w_files) !! p = Some c -> no_error (next_calls w).1 ->
  (Sha256File sha p (fun _ => false) w).1 = Some (Sha256Hex sha c).
Proof.
  intros Hc Ht. unfold Sha256File. pose proof (next_files w) as Hf. destruct (next_calls w) as [t w1].
  cbn in Hf, Ht. destruct (no_error_fails t Ht) as [-> ->]. rewrite Hf, Hc.
  destruct (hash_all c (fun _ => false)) as [Hn| ->]; [|cbv iota; by rewrite Sha256Hex_ctx]. exfalso.
  pose proof (zlen_nonneg c).
  apply (hash_loop_total (S (S (length c))) 0 (2 ^ 20) c 0 Sha256_Reset); unfold zlen in *; try lia. exact Hn.
Qed.

Lemma Sha256File_files sha p cancelled w : w_files (Sha256File sha p cancelled w).2 = w_files w.
Proof.
  unfold Sha256File. pose proof (next_files w) as Hf. destruct (next_calls w) as [t w1]. cbn in Hf.
  destruct (fails t); [done|]. destruct (w_files w1 !! p) as [c|]; [|done].
  destruct (hash_loop _ _ _ _ _ _ _); [|done]. by destruct (fails (tail t)).
Qed.

(** *** The effect of each operation on the files *)

Lemma pwrite_loop_prefix t c off buf total : 0 <= off -> 0 <= total <= zlen buf ->
  exists k, total <= k <= zlen buf /\
    (pwrite_loop t (overwrite off (ztake total buf) c) off buf total).2 = overwrite off (ztake k buf) c /\
    ((pwrite_loop t (overwrite off (ztake total buf) c) off buf total).1 = true -> k = zlen buf).
Proof.
  intros Ho. revert total. induction t as [|a t IH]; intros total Hr; cbn [pwrite_loop];
    destruct (Z.geb_spec total (zlen buf)); try (exists total; repeat split; (done || lia)).
  - exists (zlen buf). split; [lia|]. split; [|done]. cbn [snd].
    replace (off + total) with (off + zlen (ztake total buf)) by (rewrite zlen_ztake; lia).
    by rewrite overwrite_app, ztake_zdrop, ztake_all by lia.
  - destruct a as [n| |]; [|by apply IH|exists total; repeat split; (done || lia)].
    set (m := Z.min (Z.max 0 n) (zlen buf - total)).
    replace (off + total) with (off + zlen (ztake total buf)) by (rewrite zlen_ztake; lia).
    rewrite overwrite_app by done.
    replace (ztake total buf ++ slice total m buf) with (ztake (total + m) buf).
    + destruct (IH (total + m)) as (k & Hk & H1 & H2); [lia|]. exists k. split; [lia|]. by split.
    + pose proof (slice_split 0 total m buf ltac:(lia) ltac:(lia) ltac:(lia)) as Hs.
      unfold slice in Hs at 1 2. by rewrite Z.add_0_l in Hs.
Qed.

Lemma content_insert w p c : content_of (w <| w_files ::= <[p := c]> |>) p = c.
Proof. unfold content_of. cbn [upd_field w_files]. by rewrite lookup_insert_eq. Qed.

Lemma content_files w w' p : w'.(w_files) !! p = w.(w_files) !! p -> content_of w' p = content_of w p.
Proof. intros H. unfold content_of. by rewrite H. Qed.

Lemma ReadAt_result r off len w : 0 <= off -> 0 <= len ->
  w_files (ReadAt r off len w).2 = w_files w /\
  forall res, (ReadAt r off len w).1 = Some res -> exists p, r.(r_fp) = Some p /\
    zlen res <= len /\ res = slice off (zlen res) (content_of w p).
Proof.
  intros Ho Hl. unfold ReadAt. destruct (r_fp r) as [q|]; [|done].
  destruct (Z.eqb_spec len 0) as [->|]; [split; [done|]; intros res [= <-]; by exists q|].
  pose proof (next_files w) as Hf. destruct (next_calls w) as [t w1]. cbn [fst snd] in *. split; [done|].
  intros res H. exists q. split; [done|]. rewrite <- (content_files w w1) by (by rewrite Hf).
  by apply pread_loop_prefix in H.
Qed.

Lemma FileReader_Open_result p w : let '(ok, r, w') := FileReader_Open p w in
  w_files w' = w_files w /\ (r.(r_fp) = None \/ r.(r_fp) = Some p).
Proof.
  unfold FileReader_Open. pose proof (next_files w) as Hf. destruct (next_calls w) as [t w1]. cbn in Hf.
  destruct (fails t); [split; [done|by left]|]. destruct (w_files w1 !! p); [|split; [done|by left]].
  destruct (fails (tail t)); split; try done; [by left|by right].
Qed.

(** A write stores a prefix of its buffer, all of it when it succeeds. *)
Lemma WriteAt_result f p off buf w :
  f.(fp_) = Some p -> 0 <= off ->
  exists k, 0 <= k <= zlen buf /\
    content_of (WriteAt f off buf w).2 p = overwrite off (ztake k buf) (content_of w p) /\
    ((WriteAt f off buf w).1 = true -> k = zlen buf) /\
    (forall q, q <> p -> (WriteAt f off buf w).2.(w_files) !! q = w.(w_files) !! q).
Proof.
  intros Hp Ho. unfold WriteAt. rewrite Hp. pose proof (zlen_nonneg buf).
  destruct (Z.eqb_spec (zlen buf) 0) as [H0|_].
  { exists 0. split; [lia|]. apply zlen_nil_inv in H0 as ->. by repeat split. }
  pose proof (next_files w) as Hf. destruct (next_calls w) as [t w1]. cbn in Hf.
  assert (Hc : content_of w1 p = content_of w p) by (apply content_files; by rewrite Hf). rewrite Hc.
  pose proof (pwrite_loop_prefix t (content_of w p) off buf 0 Ho ltac:(lia)) as (k & Hk & H1 & H2).
  rewrite overwrite_nil in H1, H2. destruct (pwrite_loop t (content_of w p) off buf 0) as [ok c].
  cbn [fst snd] in *. exists k. split; [lia|]. split; [by rewrite content_insert|]. split; [done|].
  intros q Hq. cbn [upd_field w_files]. by rewrite lookup_insert_ne, Hf.
Qed.

Lemma WriteAt_exists f off buf w p : is_Some (w.(w_files) !! p) -> is_Some ((WriteAt f off buf w).2.(w_files) !! p).
Proof.
  intros H. unfold WriteAt. destruct (fp_ f) as [q|]; [|done]. case_if; [done|].
  pose proof (next_files w) as Hf. destruct (next_calls w) as [t w1]. cbn in Hf.
  destruct (pwrite_loop t (content_of w1 q) off buf 0) as [ok c]. cbn [snd upd_field w_files].
  destruct (decide (q = p)) as [->|Hne]; [rewrite lookup_insert_eq; by eexists|]. by rewrite lookup_insert_ne, Hf.
Qed.

(** Opening for writing creates the file when it is missing and changes nothing else. *)
Lemma FileWriter_Open_result p w :
  let '(ok, f, w') := FileWriter_Open p w in
  (f.(fp_) = None \/ f.(fp_) = Some p) /\ (ok = true -> f.(fp_) = Some p /\ is_Some (w'.(w_files) !! p)) /\
  (forall q, q <> p -> w'.(w_files) !! q = w.(w_files) !! q) /\
  (is_Some (w.(w_files) !! p) -> w'.(w_files) !! p = w.(w_files) !! p) /\
  content_of w' p = content_of w p.
Proof.
  unfold FileWriter_Open. pose proof (next_files w) as Hf. destruct (next_calls w) as [t w1]. cbn in Hf.
  destruct (open_loop t) as [ok t']. destruct ok; cbn [negb].
  2:{ unfold content_of. rewrite Hf. repeat split; (by left) || done. }
  unfold is_regular_file. case_bool_decide as Hr; rewrite Hf in Hr.
  - destruct (fails t'); unfold content_of; rewrite Hf; repeat split; try done; (by left) || by right.
  - assert (Hn : w_files w !! p = None) by (destruct (w_files w !! p) eqn:E; [by destruct Hr; eexists|done]).
    destruct (fails t'); (split; [by (left + right)|]); unfold content_of; cbn [upd_field w_files];
      rewrite lookup_insert_eq, Hn; (split; [by intros; split|]); (split; [|by split; [intros []|]]);
      intros q Hq; by rewrite lookup_insert_ne, Hf.
Qed.

Lemma EnsureSize_result f p size w :
  f.(fp_) = Some p -> is_Some (w.(w_files) !! p) ->
  let '(ok, w') := EnsureSize f size w in
  (forall q, q <> p -> w'.(w_files) !! q = w.(w_files) !! q) /\ is_Some (w'.(w_files) !! p) /\
  (ok = true -> content_of w' p = content_of w p ++ replicate (Z.to_nat (size - zlen (content_of w p))) 0).
Proof.
  intros Hp Hs. unfold EnsureSize. rewrite Hp. pose proof (next_files w) as Hf.
  destruct (next_calls w) as [t w1]. cbn in Hf.
  assert (Hc : content_of w1 p = content_of w p) by (apply content_files; by rewrite Hf).
  destruct (fails t); [by rewrite Hf|].
  destruct (Z.geb_spec (zlen (content_of w1 p)) size) as [Hge|Hlt].
  { rewrite Hf, Hc in *. split; [done|]. split; [done|]. intros _.
    replace (Z.to_nat _) with 0%nat by lia. cbn. by rewrite app_nil_r. }
  destruct (fails (tail t)); [by rewrite Hf|]. cbn [upd_field w_files].
  split; [intros q Hq; by rewrite lookup_insert_ne, Hf|]. split; [rewrite lookup_insert_eq; by eexists|].
  intros _. by rewrite content_insert, Hc.
Qed.

Lemma RenameReplace_result from to w : from <> to ->
  let '(ok, w') := RenameReplace from to w in
  (forall q, q <> from -> q <> to -> w'.(w_files) !! q = w.(w_files) !! q) /\
  (if ok then exists c, w.(w_files) !! from = Some c /\ w'.(w_files) !! to = Some c
   else w'.(w_files) = w.(w_files)).
Proof.
  intros Hne. unfold RenameReplace. pose proof (next_files w) as Hf. destruct (next_calls w) as [t w1]. cbn in Hf.
  rewrite Hf. destruct (w_files w !! from) as [c|] eqn:E; [|by rewrite Hf].
  destruct (fails t || is_directory w1 to); [by rewrite Hf|]. cbn [upd_field w_files]. split.
  - intros q H1 H2. by rewrite lookup_insert_ne, lookup_delete_ne.
  - exists c. by rewrite lookup_insert_eq.
Qed.

Lemma CreateEmptyFile_result p w :
  let '(ok, w') := CreateEmptyFile p w in
  (forall q, q <> p -> w'.(w_files) !! q = w.(w_files) !! q) /\
  (if ok then w'.(w_files) !! p = Some [] else w'.(w_files) = w.(w_files)).
Proof.
  unfold CreateEmptyFile. pose proof (next_files w) as Hf. destruct (next_calls w) as [t w1]. cbn in Hf.
  destruct (fails t); [by rewrite Hf|]. cbn [upd_field w_files]. rewrite Hf, lookup_insert_eq. split; [|done].
  intros q Hq. by rewrite lookup_insert_ne.
Qed.

Lemma EnsureDir_files d w : w_files (EnsureDir d w).2 = w_files w.
Proof.
  unfold EnsureDir. case_if; [done|]. pose proof (next_files w). destruct (next_calls w) as [t w1].
  cbn in *. by destruct (fails t || is_regular_file w1 d).
Qed.

(** ** Properties *)

(** A read returns the requested bytes, fewer only at the end of the file, whatever the
    interruptions and short reads. *)
Theorem ReadAt_complete r p offset len w :
  r.(r_fp) = Some p -> no_error (next_calls w).1 -> 0 <= offset -> 0 <= len ->
  (ReadAt r offset len w).1 = Some (slice offset len (content_of w p)).
Proof.
  intros Hp Ht Ho Hl. unfold ReadAt. rewrite Hp. destruct (Z.eqb_spec len 0) as [->|Hne].
  - done.
  - assert (Hc : content_of (next_calls w).2 p = content_of w p) by (unfold next_calls; by destruct (w_calls w)).
    destruct (next_calls w) as [t w']. cbn in *. rewrite Hc. apply pread_loop_spec; try done; lia.
Qed.

(** A write stores all its bytes at the offset and changes no other byte and no other file,
    whatever the interruptions and short writes; reading them back gives what was written. *)
Theorem WriteAt_complete f p offset buf w :
  f.(fp_) = Some p -> no_error (next_calls w).1 -> 0 <= offset -> buf <> [] ->
  let '(ok, w') := WriteAt f offset buf w in
  ok = true /\ content_of w' p = overwrite offset buf (content_of w p) /\
  slice offset (zlen buf) (content_of w' p) = buf /\
  forall q, q <> p -> w'.(w_files) !! q = w.(w_files) !! q.
Proof.
  intros Hp Ht Ho Hb. unfold WriteAt. rewrite Hp.
  destruct (Z.eqb_spec (zlen buf) 0) as [H0|_]; [by apply zlen_nil_inv in H0|].
  assert (Hf : w_files (next_calls w).2 = w_files w) by (unfold next_calls; by destruct (w_calls w)).
  destruct (next_calls w) as [t w1]. cbn in Hf, Ht.
  pose proof (pwrite_loop_spec t (content_of w1 p) offset buf 0 Ht Ho) as Hw. rewrite overwrite_nil in Hw.
  pose proof (zlen_nonneg buf). rewrite Hw by lia. clear Hw.
  assert (Hc : content_of w1 p = content_of w p) by (unfold content_of; by rewrite Hf). rewrite Hc.
  assert (Hn : content_of (w1 <| w_files ::= <[p := overwrite offset buf (content_of w p)]> |>) p =
    overwrite offset buf (content_of w p)).
  { unfold content_of. cbn [upd_field w_files]. by rewrite lookup_insert_eq. }
  rewrite Hn. split; [done|]. split; [done|]. split; [by apply slice_overwrite|].
  intros q Hq. cbn [upd_field w_files]. by rewrite lookup_insert_ne, Hf.
Qed.

(** [WriteFileAtomic] leaves the new content when it succeeds and the old state of the path when
    it does not, and touches nothing but the path and its temporary sibling. *)
Theorem WriteFileAtomic_atomic path data w :
  let '(ok, w') := WriteFileAtomic path data w in
  (if ok then w'.(w_files) !! path = Some data else w'.(w_files) !! path = w.(w_files) !! path) /\
  (forall q, q <> path -> q <> path ++ sbytes ".tmp" -> w'.(w_files) !! q = w.(w_files) !! q).
Proof. apply WriteFileAtomic_spec. Qed.

(** [ToHex] writes two lower-case hex digits per byte and is injective. *)
Theorem ToHex_injective d e :
  is_bytes d -> is_bytes e ->
  (ToHex d = ToHex e -> d = e) /\ zlen (ToHex d) = 2 * zlen d /\ Forall (fun c => hex_digit c = true) (ToHex d).
Proof.
  intros Hd He. split; [|split].
  - revert e He. induction Hd as [|a d Ha _ IH]; intros [|b e] He; cbn [ToHex]; try done.
    apply Forall_cons in He as [Hb He]. intros [= H1 H2 H3]. pose proof (hex_pair a Ha) as Hp.
    unfold hex_pair_ok in Hp. apply andb_true_iff in Hp as [_ Hp]. rewrite forallb_forall in Hp.
    specialize (Hp b). cbv beta in Hp. rewrite H1, H2, !Z.eqb_refl in Hp. cbn [andb negb orb] in Hp.
    f_equal; [|by apply IH]. apply Z.eqb_eq, Hp, list_elem_of_In, elem_of_seqZ. unfold in_u8 in Hb. lia.
  - clear e He. induction Hd as [|a d _ _ IH]; [done|]. cbn [ToHex]. rewrite !zlen_cons, IH. lia.
  - clear e He. induction Hd as [|a d Ha _ IH]; cbn [ToHex]; [constructor|].
    pose proof (hex_pair a Ha) as Hp. unfold hex_pair_ok in Hp. apply andb_true_iff in Hp as [Hp _].
    apply andb_true_iff in Hp as [H1 H2]. by repeat constructor.
Qed.

(** Streaming a file through the hash gives the hash of its content, unless it was cancelled or
    could not be read; reading it to a string gives its content. *)
Theorem Sha256File_content sha p cancelled w :
  (forall h, (Sha256File sha p cancelled w).1 = Some h ->
     exists c, w.(w_files) !! p = Some c /\ h = Sha256Hex sha c) /\
  (forall c, (ReadFileToString p w).1 = Some c -> w.(w_files) !! p = Some c) /\
  (forall c, w.(w_files) !! p = Some c -> no_error (next_calls w).1 ->
     (Sha256File sha p (fun _ => false) w).1 = Some (Sha256Hex sha c) /\ (ReadFileToString p w).1 = Some c).
Proof.
  split; [apply Sha256File_sound|]. split.
  - intros c. unfold ReadFileToString. pose proof (next_files w) as Hf. destruct (next_calls w) as [t w1]. cbn in Hf.
    rewrite Hf. destruct (fails t); [done|]. destruct (w_files w !! p) as [d|]; [|done]. rewrite fread_all.
    destruct (fails (tail t)); [done|]. by intros [= ->].
  - intros c Hc Ht. split; [by apply Sha256File_complete|by apply ReadFileToString_complete].
Qed.

(** ** Witnesses *)

Definition sample_world : World := mkWorld {[ [97] := [1; 2; 3; 4; 5] ]} ∅ [[Intr; Short 1]].

Lemma ReadAt_complete_witness :
  (ReadAt (mkReader (Some [97]) 5) 1 10 sample_world).1 = Some [2; 3; 4; 5].
Proof.
  refine (ReadAt_complete (mkReader (Some [97]) 5) [97] 1 10 sample_world eq_refl _ _ _); [|lia|lia].
  repeat constructor; discriminate.
Defined.

Lemma WriteAt_complete_witness :
  let '(ok, w') := WriteAt (mkWriter (Some [97])) 3 [7; 8; 9] sample_world in
  ok = true /\ content_of w' [97] = overwrite 3 [7; 8; 9] (content_of sample_world [97]) /\
  slice 3 (zlen [7; 8; 9]) (content_of w' [97]) = [7; 8; 9] /\
  forall q, q <> [97] -> w'.(w_files) !! q = sample_world.(w_files) !! q.
Proof.
  apply (WriteAt_complete (mkWriter (Some [97])) [97] 3 [7; 8; 9] sample_world); [done| |lia|done].
  repeat constructor; discriminate.
Defined.

Lemma ToHex_injective_witness : zlen (ToHex [10; 255]) = 2 * zlen [10; 255].
Proof. apply (ToHex_injective [10; 255] [10; 255]); repeat constructor; done. Defined.

Lemma Sha256File_content_witness :
  (Sha256File (fun c => ztake 2 c) [97] (fun _ => false) sample_world).1 =
    Some (Sha256Hex (fun c => ztake 2 c) [1; 2; 3; 4; 5]).
Proof.
  apply (Sha256File_content (fun c => ztake 2 c) [97] (fun _ => false) sample_world); [done|].
  repeat constructor; discriminate.
Defined.
