(* ===== verification/Manifest.v ===== *)
(** * The transfer manifest ([core/src/transfer/manifest.{h,cpp}])

    The manifest lists the files, directories and top-level entries of a share.  The sender
    builds it from the file system and serialises it; the receiver validates what it is sent.
    [std::filesystem] queries are arguments, grouped in [FileSystem].  The theorems: the blocks
    of a file partition it; what [FromJson] accepts satisfies [manifest_ok], and every manifest
    that does is read back from its serialisation; what the sender builds is accepted. *)
From S2P Require Export Protocol Paths Json.
#[local] Open Scope Z_scope.

(** ** Definitions *)

Record ManifestFile := mkFile { path : string; size : Z }.
Record ManifestRoot := mkRoot { name : string; is_dir : bool }.
Record Manifest := mkManifest {
  files : list ManifestFile;
  dirs : list string;
  roots : list ManifestRoot;
  total_bytes : Z;
}.

Definition Manifest_default : Manifest := mkManifest [] [] [] 0.

Definition BlockCountFor (size : Z) : Z :=
  if size =? 0 then 0 else u32 (u64 (size + kBlockPayloadSize - 1) / kBlockPayloadSize).

Definition BlockLenFor (size index : Z) : Z :=
  let offset := u64 (index * kBlockPayloadSize) in
  if offset >=? size then 0 else
  let remain := size - offset in
  u16 (if remain <? kBlockPayloadSize then remain else kBlockPayloadSize).

(** [p.substr(0, p.find('/'))] *)
Definition root_of (p : string) : string :=
  of_sbytes (match find_byte (Z.eqb slash) (sbytes p) with
             | Some i => ztake i (sbytes p) | None => sbytes p end).

Definition has_slash (s : string) : bool :=
  match find_byte (Z.eqb slash) (sbytes s) with Some _ => true | None => false end.

Section json.
Context `{JL : JsonLib}.

Definition ToJson (m : Manifest) : json :=
  let files := jarr (map (fun f => jobj [("path", jstr f.(path)); ("size", juns f.(size))]) m.(files)) in
  let roots := jarr (map (fun r => jobj [("name", jstr r.(name)); ("dir", jbool r.(is_dir))]) m.(roots)) in
  jobj [("files", files); ("dirs", jarr (map jstr m.(dirs))); ("roots", roots);
        ("total_bytes", juns m.(total_bytes))].

(** The loop of [FromJson] over the roots; [names] is [root_names]. *)
Fixpoint roots_loop (rs : list json) (names : gset string) (acc : list ManifestRoot)
  : result (gset string * list ManifestRoot) :=
  match rs with
  | [] => Ok (names, acc)
  | r :: rs =>
      match find r "name" with
      | None => Fail "manifest.roots entry invalid"
      | Some n =>
          if negb (is_object r) || negb (is_string n) then Fail "manifest.roots entry invalid" else
          name ← lift (get_string n);
          is_dir ← lift (value_ get_bool r "dir" false);
          if negb (IsSafeRelativePath (sbytes name)) || has_slash name
          then Fail "manifest root name unsafe" else
          if decide (name ∈ names) then Fail "duplicate root" else
          roots_loop rs ({[name]} ∪ names) (acc ++ [mkRoot name is_dir])
      end
  end.

Fixpoint dirs_loop (names : gset string) (ds : list json) (seen : gset string) (acc : list string)
  : result (gset string * list string) :=
  match ds with
  | [] => Ok (seen, acc)
  | d :: ds =>
      if negb (is_string d) then Fail "manifest.dirs entry invalid" else
      p ← lift (get_string d);
      if negb (IsSafeRelativePath (sbytes p)) then Fail "manifest dir path unsafe" else
      if decide (p ∈ seen) then Fail "duplicate manifest entry" else
      if negb (bool_decide (root_of p ∈ names)) then Fail "manifest dir outside roots" else
      dirs_loop names ds ({[p]} ∪ seen) (acc ++ [p])
  end.

Fixpoint files_loop (names : gset string) (fs : list json) (seen : gset string) (total : Z)
  (acc : list ManifestFile) : result (Z * list ManifestFile) :=
  match fs with
  | [] => Ok (total, acc)
  | f :: fs =>
      match find f "path", find f "size" with
      | Some fp, Some fsz =>
          if negb (is_object f) || negb (is_string fp) || negb (is_number_unsigned fsz)
          then Fail "manifest.files entry invalid" else
          p ← lift (get_string fp);
          sz ← lift (get_u64 fsz);
          if negb (IsSafeRelativePath (sbytes p)) then Fail "manifest file path unsafe" else
          if sz >? kMaxFileSize then Fail "file too large" else
          if decide (p ∈ seen) then Fail "duplicate manifest entry" else
          if negb (bool_decide (root_of p ∈ names)) then Fail "manifest file outside roots" else
          let total := u64 (total + sz) in
          if total <? sz then Fail "total size overflow" else
          files_loop names fs ({[p]} ∪ seen) total (acc ++ [mkFile p sz])
      | _, _ => Fail "manifest.files entry invalid"
      end
  end.

(** The two inner loops of the nesting check. *)
Definition nested (f : ManifestFile) (d : string) : bool :=
  starts_with (sbytes f.(path) ++ [slash]) (sbytes d).
Definition is_dir_root (f : ManifestFile) (r : ManifestRoot) : bool :=
  r.(is_dir) && String.eqb r.(name) f.(path).

Fixpoint nesting_loop (ds : list string) (rs : list ManifestRoot) (fs : list ManifestFile) : result unit :=
  match fs with
  | [] => Ok tt
  | f :: fs =>
      if existsb (nested f) ds then Fail "directory nested in file" else
      if existsb (is_dir_root f) rs then Fail "root type mismatch" else
      nesting_loop ds rs fs
  end.

Definition FromJson (j : json) : result Manifest :=
  if negb (is_object j) then Fail "manifest not an object" else
  match find j "files" with
  | None => Fail "manifest.files missing"
  | Some fs =>
      if negb (is_array fs) then Fail "manifest.files missing" else
      let ds := find j "dirs" in
      if match ds with Some d => negb (is_array d) | None => false end then Fail "manifest.dirs invalid" else
      match find j "roots" with
      | None => Fail "manifest.roots missing"
      | Some rs =>
          if negb (is_array rs) then Fail "manifest.roots missing" else
          if zlen (elements_of fs) >? kMaxFilesPerTransfer then Fail "too many files" else
          '(names, roots) ← roots_loop (elements_of rs) ∅ [];
          '(seen, dirs) ← dirs_loop names (match ds with Some d => elements_of d | None => [] end) ∅ [];
          '(total, files) ← files_loop names (elements_of fs) seen 0 [];
          _ ← nesting_loop dirs roots files;
          Ok (mkManifest files dirs roots total)
      end
  end.

End json.

(** *** Building from the file system *)

Inductive file_type := Regular | Directory | Symlink | OtherType.

(** One entry of a recursive listing: its status ([None] on error), its path relative to the
    parent of the listed directory, as components ([None] on error), and its size. *)
Record dir_entry := mkEntry {
  e_path : string;
  e_status : option file_type;
  e_rel : option (list string);
  e_size : option Z;
}.

(** The [std::filesystem] queries; [inl] carries [ec.message()]. *)
Record FileSystem := mkFS {
  symlink_status : string -> string + file_type;
  filename : string -> string;
  file_size : string -> option Z;
  recursive_listing : string -> string + list dir_entry;
}.

(** [rel] from the components of [rel_fs]. *)
Fixpoint join_components (rel : bytes) (comps : list string) : bytes :=
  match comps with
  | [] => rel
  | c :: cs => join_components ((if zlen rel =? 0 then rel else rel ++ [slash]) ++ sbytes c) cs
  end.

(** The accumulators of [BuildManifest]: the manifest and the absolute path of each file. *)
Definition building : Type := Manifest * list string.
Definition add_root (r : ManifestRoot) (b : building) : building :=
  let '(m, fs) := b in (mkManifest m.(files) m.(dirs) (m.(roots) ++ [r]) m.(total_bytes), fs).
Definition add_dir (d : string) (b : building) : building :=
  let '(m, fs) := b in (mkManifest m.(files) (m.(dirs) ++ [d]) m.(roots) m.(total_bytes), fs).
Definition add_file (p : string) (sz : Z) (abs : string) (b : building) : building :=
  let '(m, fs) := b in
  (mkManifest (m.(files) ++ [mkFile p sz]) m.(dirs) m.(roots) (u64 (m.(total_bytes) + sz)), fs ++ [abs]).

(** One entry of the listing loop. *)
Definition entry_step (b : building) (e : dir_entry) : result building :=
  match e.(e_status) with
  | None => Ok b
  | Some Symlink => Ok b
  | Some st =>
      match e.(e_rel) with
      | None => Fail "relative path failed"
      | Some comps =>
          let rel := of_sbytes (join_components [] comps) in
          if negb (IsSafeRelativePath (join_components [] comps)) then Fail ("unsafe path: " +:+ rel) else
          match st with
          | Directory => Ok (add_dir rel b)
          | Regular =>
              match e.(e_size) with
              | None => Fail ("cannot size " +:+ rel)
              | Some sz =>
                  if sz >? kMaxFileSize then Fail ("file too large: " +:+ rel) else
                  if zlen b.1.(files) >=? kMaxFilesPerTransfer then Fail "too many files" else
                  Ok (add_file rel sz e.(e_path) b)
              end
          | _ => Ok b
          end
      end
  end.

Fixpoint entries_loop (es : list dir_entry) (b : building) : result building :=
  match es with
  | [] => Ok b
  | e :: es => b ← entry_step b e; entries_loop es b
  end.

(** One path of [abs_paths]; [names] is [root_names]. *)
Definition path_step (fs : FileSystem) (raw : string) (names : gset string) (b : building)
  : result (gset string * building) :=
  match fs.(symlink_status) raw with
  | inl msg => Fail ("cannot stat " +:+ raw +:+ ": " +:+ msg)
  | inr Symlink => Fail ("symlink not supported: " +:+ raw)
  | inr st =>
      let name := fs.(filename) raw in
      if (slen name =? 0) || negb (IsSafeRelativePath (sbytes name)) || has_slash name
      then Fail ("unsafe name: " +:+ name) else
      if decide (name ∈ names) then Fail ("duplicate name: " +:+ name) else
      b ← match st with
          | Regular =>
              match fs.(file_size) raw with
              | None => Fail ("cannot size " +:+ raw)
              | Some sz =>
                  if sz >? kMaxFileSize then Fail ("file too large: " +:+ raw) else
                  Ok (add_file name sz raw (add_root (mkRoot name false) b))
              end
          | Directory =>
              match fs.(recursive_listing) raw with
              | inl msg => Fail ("cannot list " +:+ raw +:+ ": " +:+ msg)
              | inr es => entries_loop es (add_dir name (add_root (mkRoot name true) b))
              end
          | _ => Fail ("not a file or directory: " +:+ raw)
          end;
      if zlen b.1.(files) >? kMaxFilesPerTransfer then Fail "too many files" else
      Ok ({[name]} ∪ names, b)
  end.

Fixpoint paths_loop (fs : FileSystem) (raws : list string) (names : gset string) (b : building)
  : result building :=
  match raws with
  | [] => Ok b
  | raw :: raws => '(names, b) ← path_step fs raw names b; paths_loop fs raws names b
  end.

(** The byte order of [std::string], for [std::sort]. *)
Fixpoint lex_le (a b : bytes) : bool :=
  match a, b with
  | [], _ => true
  | _, [] => false
  | x :: a, y :: b => (x <? y) || ((x =? y) && lex_le a b)
  end.
Definition string_le (s t : string) : Prop := lex_le (sbytes s) (sbytes t) = true.
#[export] Instance string_le_dec : RelDecision string_le := fun s t => decide (_ = true).

Definition BuildManifest (fs : FileSystem) (abs_paths : list string) : result building :=
  b ← paths_loop fs abs_paths ∅ (Manifest_default, []);
  let '(m, abs) := b in
  match m.(roots) with
  | [] => Fail "nothing to share"
  | _ => Ok (mkManifest m.(files) (merge_sort string_le m.(dirs)) m.(roots) m.(total_bytes), abs)
  end.

(** *** Specification *)

Definition root_names (m : Manifest) : list string := name <$> m.(roots).
Definition entry_paths (m : Manifest) : list string := m.(dirs) ++ (path <$> m.(files)).
Definition sum_sizes (fs : list ManifestFile) : Z := foldr (fun f a => f.(size) + a) 0 fs.
Definition safe_path (p : string) : Prop := IsSafeRelativePath (sbytes p) = true.

(** What the receiver relies on. *)
Record manifest_ok (m : Manifest) : Prop := {
  ok_count : zlen m.(files) <= kMaxFilesPerTransfer;
  ok_roots : Forall (fun r => safe_path r.(name) /\ has_slash r.(name) = false) m.(roots);
  ok_root_names : NoDup (root_names m);
  ok_paths : Forall safe_path (entry_paths m);
  ok_distinct : NoDup (entry_paths m);
  ok_under_roots : Forall (fun p => root_of p ∈ root_names m) (entry_paths m);
  ok_sizes : Forall (fun f => 0 <= f.(size) <= kMaxFileSize) m.(files);
  ok_dirs : forall f d, f ∈ m.(files) -> d ∈ m.(dirs) -> nested f d = false;
  ok_types : forall f r, f ∈ m.(files) -> r ∈ m.(roots) -> is_dir_root f r = false;
  ok_total : m.(total_bytes) = sum_sizes m.(files) /\ m.(total_bytes) < 2 ^ 64;
}.

(** ** Lemmas *)

Lemma BlockCountFor_ceil sz : 0 <= sz <= kMaxFileSize -> BlockCountFor sz = (sz + 1099) / 1100.
Proof.
  unfold BlockCountFor, kMaxFileSize, kBlockPayloadSize. intros H.
  destruct (Z.eqb_spec sz 0) as [->|]; [done|].
  rewrite (u64_small _) by (unfold in_u64; lia). replace (sz + 1100 - 1) with (sz + 1099) by lia.
  apply u32_small. unfold in_u32. Z.div_mod_to_equations; lia.
Qed.

Lemma BlockLenFor_spec sz i : 0 <= sz <= kMaxFileSize -> 0 <= i < 2 ^ 32 ->
  BlockLenFor sz i = Z.max 0 (Z.min 1100 (sz - 1100 * i)).
Proof.
  unfold BlockLenFor, kMaxFileSize, kBlockPayloadSize. intros H Hi.
  rewrite (u64_small (i * 1100)) by (unfold in_u64; lia).
  destruct (Z.geb_spec (i * 1100) sz); [lia|].
  destruct (Z.ltb_spec (sz - i * 1100) 1100); rewrite u16_small; unfold in_u16; lia.
Qed.

(** The payload bytes of the first [n] blocks. *)
Fixpoint sum_lens (sz : Z) (n : nat) : Z :=
  match n with O => 0 | S n => sum_lens sz n + BlockLenFor sz (Z.of_nat n) end.

Lemma sum_lens_min sz n : 0 <= sz <= kMaxFileSize -> Z.of_nat n < 2 ^ 32 ->
  sum_lens sz n = Z.min sz (1100 * Z.of_nat n).
Proof.
  intros H. induction n as [|n IH]; intros Hn; cbn [sum_lens]; [lia|].
  rewrite IH, BlockLenFor_spec by lia. lia.
Qed.

Lemma sum_sizes_app a b : sum_sizes (a ++ b) = sum_sizes a + sum_sizes b.
Proof. unfold sum_sizes. induction a as [|f a IH]; cbn; lia. Qed.

Lemma sum_sizes_nonneg l : Forall (fun f => 0 <= f.(size) <= kMaxFileSize) l -> 0 <= sum_sizes l.
Proof. induction 1; cbn [sum_sizes foldr]; [lia|]. unfold sum_sizes in *. lia. Qed.

Section json_lemmas.
Context `{JL : JsonLib}.

(** *** What the loops of [FromJson] accept *)

Definition roots_inv (names : gset string) (acc : list ManifestRoot) : Prop :=
  names = list_to_set (name <$> acc) /\ NoDup (name <$> acc) /\
  Forall (fun r => safe_path r.(name) /\ has_slash r.(name) = false) acc.

Lemma NoDup_snoc {A} (l : list A) x : NoDup l -> x ∉ l -> NoDup (l ++ [x]).
Proof.
  intros Hl Hx. apply NoDup_app. split; [exact Hl|]. split; [|apply NoDup_singleton].
  intros y Hy Hin. apply list_elem_of_singleton in Hin as ->. contradiction.
Qed.

Lemma roots_loop_sound rs names acc names' acc' :
  roots_inv names acc -> roots_loop rs names acc = Ok (names', acc') -> roots_inv names' acc'.
Proof.
  revert names acc. induction rs as [|r rs IH]; intros names acc Hi; cbn [roots_loop].
  { by intros [= <- <-]. }
  destruct (find r "name") as [n|]; [|done]. intros H. ok_inv H.
  apply result_bind_inv in H as (nm & _ & H). apply result_bind_inv in H as (d & _ & H). ok_inv H.
  apply orb_false_iff in E0 as [E0 E2]. apply negb_false_iff in E0.
  apply (IH _ _) in H; [done|]. destruct Hi as (-> & Hn & Hf). split; [|split].
  - rewrite fmap_app, list_to_set_app_L. cbn. set_solver.
  - rewrite fmap_app. apply NoDup_snoc; [done|]. cbn. set_solver.
  - apply Forall_app. split; [done|]. by constructor.
Qed.

(** The invariant of the directory and file loops. *)
Definition entries_inv (names seen : gset string) (ds : list string) (fs : list ManifestFile) : Prop :=
  seen = list_to_set (ds ++ (path <$> fs)) /\ NoDup (ds ++ (path <$> fs)) /\
  Forall safe_path (ds ++ (path <$> fs)) /\
  Forall (fun p => root_of p ∈ names) (ds ++ (path <$> fs)).

Lemma dirs_loop_sound names ds seen acc seen' acc' :
  entries_inv names seen acc [] -> dirs_loop names ds seen acc = Ok (seen', acc') ->
  entries_inv names seen' acc' [].
Proof.
  revert seen acc. induction ds as [|d ds IH]; intros seen acc Hi; cbn [dirs_loop].
  { by intros [= <- <-]. }
  intros H. ok_inv H. apply result_bind_inv in H as (p & _ & H). ok_inv H.
  apply negb_false_iff in E0, E1. apply bool_decide_eq_true in E1.
  apply IH in H; [done|]. unfold entries_inv in *. cbn in *. rewrite !app_nil_r in *.
  destruct Hi as (-> & Hn & Hs & Hr). repeat split.
  - rewrite list_to_set_app_L. cbn. set_solver.
  - apply NoDup_snoc; [done|]. set_solver.
  - apply Forall_app. split; [done|]. by constructor.
  - apply Forall_app. split; [done|]. by constructor.
Qed.

Lemma files_loop_sound names fs seen total acc ds total' acc' :
  entries_inv names seen ds acc -> Forall (fun f => 0 <= f.(size) <= kMaxFileSize) acc ->
  total = sum_sizes acc -> total < 2 ^ 64 ->
  files_loop names fs seen total acc = Ok (total', acc') ->
  (exists seen', entries_inv names seen' ds acc') /\
  Forall (fun f => 0 <= f.(size) <= kMaxFileSize) acc' /\ total' = sum_sizes acc' /\ total' < 2 ^ 64 /\
  length acc' = (length acc + length fs)%nat.
Proof.
  revert seen total acc. induction fs as [|f fs IH]; intros seen total acc Hi Hsz Ht Hlt; cbn [files_loop].
  { intros [= <- <-]. split; [by exists seen|]. repeat split; (done || cbn; lia). }
  destruct (find f "path") as [fp|]; [|done]. destruct (find f "size") as [fsz|]; [|done].
  intros H. ok_inv H. apply result_bind_inv in H as (p & _ & H). apply result_bind_inv in H as (sz & Hz & H).
  ok_inv H. apply negb_false_iff in E0, E2. apply bool_decide_eq_true in E2.
  assert (Hr : in_u64 sz).
  { apply lift_inv in Hz. unfold get_u64 in Hz. apply bind_ret_inv in Hz as (k & _ & Hk). injection Hk as <-.
    apply u64_range. }
  unfold in_u64 in Hr. zbool. pose proof (sum_sizes_nonneg acc Hsz) as Hpos.
  assert (Hsum : u64 (total + sz) = total + sz).
  { destruct (decide (total + sz < 2 ^ 64)); [apply u64_small; unfold in_u64; lia|].
    exfalso. unfold u64 in *. replace (total + sz) with (1 * 2 ^ 64 + (total + sz - 2 ^ 64)) in * by lia.
    rewrite Z.add_comm, Z.mod_add, Z.mod_small in * by lia. lia. }
  rewrite Hsum in *. apply IH in H.
  - destruct H as (? & ? & ? & ? & Hlen). split; [done|]. split; [done|]. split; [done|]. split; [done|].
    rewrite Hlen, length_app. cbn. lia.
  - destruct Hi as (-> & Hn & Hs & Hro). unfold entries_inv. rewrite fmap_app, app_assoc. repeat split.
    + rewrite list_to_set_app_L. cbn. set_solver.
    + apply NoDup_snoc; [done|]. set_solver.
    + apply Forall_app. split; [done|]. by constructor.
    + apply Forall_app. split; [done|]. by constructor.
  - apply Forall_app. split; [done|]. constructor; [cbn; lia|constructor].
  - rewrite sum_sizes_app. cbn. lia.
  - unfold u64 in Hsum. pose proof (Z.mod_pos_bound (total + sz) (2 ^ 64)). lia.
Qed.

Lemma existsb_false {A} (f : A -> bool) l : existsb f l = false <-> Forall (fun x => f x = false) l.
Proof.
  induction l as [|x l IH]; cbn; [done|]. rewrite Forall_cons, orb_false_iff, IH. done.
Qed.

Lemma nesting_loop_iff ds rs fs : nesting_loop ds rs fs = Ok tt <->
  Forall (fun f => Forall (fun d => nested f d = false) ds /\ Forall (fun r => is_dir_root f r = false) rs) fs.
Proof.
  induction fs as [|f fs IH]; cbn [nesting_loop]; [done|].
  rewrite Forall_cons, <- !existsb_false, <- IH.
  destruct (existsb (nested f) ds), (existsb (is_dir_root f) rs); intuition discriminate.
Qed.

(** *** The serialised entries are read back *)

Lemma roots_loop_complete rs names acc :
  NoDup (name <$> rs) -> Forall (fun r => safe_path r.(name) /\ has_slash r.(name) = false) rs ->
  (forall r, r ∈ rs -> r.(name) ∉ names) ->
  roots_loop (map (fun r => jobj [("name", jstr r.(name)); ("dir", jbool r.(is_dir))]) rs) names acc =
    Ok (list_to_set (name <$> rs) ∪ names, acc ++ rs).
Proof.
  intros Hn Hf. revert names acc. induction Hf as [|[nm d] rs [Hs Hsl] _ IH]; intros names acc Hd.
  { cbn. by rewrite app_nil_r, (left_id_L ∅ (∪)). }
  cbn [map fmap list_fmap name is_dir] in *. apply NoDup_cons in Hn as [Hni Hn]. cbn [roots_loop].
  json_simpl. cbn [negb orb lift mbind result_bind]. rewrite Hs, Hsl. cbn [negb orb].
  destruct (decide (nm ∈ names)) as [Hin|_].
  { exfalso. eapply (Hd (mkRoot nm d)); [by left|done]. }
  rewrite IH; [|done|].
  - f_equal. f_equal; [set_solver|by rewrite <- app_assoc].
  - intros r Hr. apply not_elem_of_union. split; [|apply Hd; by right].
    intros Hin%elem_of_singleton. apply Hni. rewrite <- Hin. apply list_elem_of_fmap. eauto.
Qed.

Lemma dirs_loop_complete names ds seen acc :
  NoDup ds -> Forall safe_path ds -> Forall (fun p => root_of p ∈ names) ds -> (forall d, d ∈ ds -> d ∉ seen) ->
  dirs_loop names (map jstr ds) seen acc = Ok (list_to_set ds ∪ seen, acc ++ ds).
Proof.
  intros Hn Hs. revert seen acc. induction Hs as [|d ds Hd _ IH]; intros seen acc Hr Hsn.
  { cbn. by rewrite app_nil_r, (left_id_L ∅ (∪)). }
  apply NoDup_cons in Hn as [Hni Hn]. apply Forall_cons in Hr as [Hr Hrs]. cbn [map dirs_loop].
  json_simpl. cbn [negb orb lift mbind result_bind]. rewrite Hd. cbn [negb].
  destruct (decide (d ∈ seen)) as [Hin|_]; [by exfalso; eapply Hsn; [left|]|].
  rewrite bool_decide_true by done. cbn [negb]. rewrite IH; [|done|done|].
  - f_equal. f_equal; [set_solver|by rewrite <- app_assoc].
  - intros k Hk. apply not_elem_of_union. split; [|apply Hsn; by right]. by intros ->%elem_of_singleton.
Qed.

Lemma files_loop_complete names fs seen total acc :
  NoDup (path <$> fs) -> Forall safe_path (path <$> fs) -> Forall (fun p => root_of p ∈ names) (path <$> fs) ->
  (forall f, f ∈ fs -> f.(path) ∉ seen) -> Forall (fun f => 0 <= f.(size) <= kMaxFileSize) fs ->
  0 <= total -> total + sum_sizes fs < 2 ^ 64 ->
  files_loop names (map (fun f => jobj [("path", jstr f.(path)); ("size", juns f.(size))]) fs) seen total acc =
    Ok (total + sum_sizes fs, acc ++ fs).
Proof.
  intros Hn Hs Hr Hsn Hsz. revert seen total acc Hn Hs Hr Hsn.
  induction Hsz as [|[p sz] fs Hp Hsz IH]; intros seen total acc Hn Hs Hr Hsn Ht Hlt.
  { cbn. by rewrite app_nil_r, Z.add_0_r. }
  cbn [fmap list_fmap map path size] in *. apply NoDup_cons in Hn as [Hni Hn].
  apply Forall_cons in Hs as [Hps Hs]. apply Forall_cons in Hr as [Hpr Hr]. cbn [files_loop].
  json_simpl. unfold get_u64. json_simpl. cbn [negb orb lift mbind result_bind outcome_bind].
  pose proof (sum_sizes_nonneg fs Hsz). cbn [sum_sizes foldr size] in Hlt. fold (sum_sizes fs) in Hlt.
  unfold kMaxFileSize, kBlockPayloadSize in Hp.
  rewrite (u64_small sz) by (unfold in_u64; lia). rewrite Hps. cbn [negb].
  unfold kMaxFileSize, kBlockPayloadSize. rewrite Z.gtb_ltb, (proj2 (Z.ltb_ge _ _)) by lia.
  destruct (decide (p ∈ seen)) as [Hin|_].
  { exfalso. eapply (Hsn (mkFile p sz)); [by left|done]. }
  rewrite bool_decide_true by done. cbn [negb]. rewrite (u64_small (total + sz)) by (unfold in_u64; lia).
  rewrite (proj2 (Z.ltb_ge _ _)) by lia. rewrite IH; try done; try lia.
  - f_equal. f_equal; [cbn; lia|by rewrite <- app_assoc].
  - intros f Hf. apply not_elem_of_union. split; [|apply Hsn; by right].
    intros Hin%elem_of_singleton. apply Hni. rewrite <- Hin. apply list_elem_of_fmap. eauto.
Qed.

End json_lemmas.

(** ** Properties *)

(** The blocks of a file partition it: there is one for every started 1100 bytes, every block
    but the last is full, none is empty, those past the end are, and the lengths add up. *)
Theorem blocks_partition sz :
  0 <= sz <= kMaxFileSize ->
  0 <= BlockCountFor sz < 2 ^ 32 /\
  sum_lens sz (Z.to_nat (BlockCountFor sz)) = sz /\
  (forall i, 0 <= i < BlockCountFor sz -> 1 <= BlockLenFor sz i <= kBlockPayloadSize) /\
  (forall i, 0 <= i < BlockCountFor sz - 1 -> BlockLenFor sz i = kBlockPayloadSize) /\
  (forall i, BlockCountFor sz <= i < 2 ^ 32 -> BlockLenFor sz i = 0).
Proof.
  intros H. rewrite BlockCountFor_ceil by done. unfold kMaxFileSize, kBlockPayloadSize in *.
  assert (Hc : 0 <= (sz + 1099) / 1100 < 2 ^ 32) by (Z.div_mod_to_equations; lia).
  split; [done|]. split; [rewrite sum_lens_min; [rewrite Z2Nat.id; Z.div_mod_to_equations; lia|done|lia]|].
  repeat split; intros; rewrite ?BlockLenFor_spec by (done || lia); Z.div_mod_to_equations; lia.
Qed.

Section json_properties.
Context `{JL : JsonLib}.

(** C18: A manifest [FromJson] accepts is well formed. *)
Theorem FromJson_sound j m : FromJson j = Ok m -> manifest_ok m.
Proof.
  unfold FromJson. intros H. ok_inv H. destruct (find j "files") as [fs|]; [|done]. ok_inv H.
  destruct (find j "roots") as [rs|]; [|done]. ok_inv H.
  apply result_bind_inv in H as ([names rts] & Hr & H). apply result_bind_inv in H as ([seen ds] & Hd & H).
  apply result_bind_inv in H as ([total fls] & Hf & H). apply result_bind_inv in H as ([] & Hn & H).
  injection H as <-.
  apply roots_loop_sound in Hr as (-> & Hrn & Hrf); [|repeat split; constructor].
  apply dirs_loop_sound in Hd; [|repeat split; constructor].
  apply (files_loop_sound _ _ _ _ _ ds) in Hf as ((seen' & -> & Hnd & Hs & Hu) & Hsz & Ht & Hlt & Hlen);
    [|done|constructor|done|done].
  apply nesting_loop_iff in Hn. rewrite Forall_forall in Hn. zbool.
  split; cbn [files dirs roots total_bytes]; try done.
  - unfold zlen in *. rewrite Hlen. cbn. lia.
  - unfold root_names, entry_paths. cbn [roots dirs files]. eapply Forall_impl; [exact Hu|].
    intros p Hp. cbv beta in Hp. by apply elem_of_list_to_set in Hp.
  - intros f d Hfi Hdi. destruct (Hn f Hfi) as [Hx _]. rewrite Forall_forall in Hx. by apply Hx.
  - intros f r Hfi Hri. destruct (Hn f Hfi) as [_ Hx]. rewrite Forall_forall in Hx. by apply Hx.
Qed.

Lemma roundtrip_spec m : manifest_ok m -> FromJson (ToJson m) = Ok m.
Proof.
  intros [Hc Hr Hrn Hp Hd Hu Hsz Hds Hty [Ht Hlt]]. unfold FromJson, ToJson.
  destruct m as [fs ds rs tot]. unfold root_names, entry_paths in *. cbn [files dirs roots total_bytes] in *.
  json_simpl. cbn [negb]. json_simpl. cbn [negb]. json_simpl. cbn [negb].
  replace (zlen (map _ fs)) with (zlen fs) by (unfold zlen; by rewrite length_map).
  rewrite Z.gtb_ltb, (proj2 (Z.ltb_ge _ _)) by done.
  apply NoDup_app in Hd as (Hd1 & Hd2 & Hd3). apply Forall_app in Hp as [Hp1 Hp2].
  rewrite Forall_forall in Hu.
  rewrite (roots_loop_complete rs) by (done || set_solver). cbn [mbind result_bind].
  rewrite (dirs_loop_complete _ ds); [|done|done| |set_solver].
  2:{ apply Forall_forall. intros p Hpi. apply elem_of_union_l, elem_of_list_to_set, Hu, elem_of_app. by left. }
  cbn [mbind result_bind].
  rewrite (files_loop_complete _ fs); [|done|done| | |done|lia|lia].
  2:{ apply Forall_forall. intros p Hpi. apply elem_of_union_l, elem_of_list_to_set, Hu, elem_of_app. by right. }
  2:{ intros f Hf Hin. apply elem_of_union in Hin as [Hin|Hin]; [|by apply elem_of_empty in Hin].
      apply elem_of_list_to_set in Hin. apply (Hd2 _ Hin). apply list_elem_of_fmap. eauto. }
  cbn [mbind result_bind app]. rewrite (proj2 (nesting_loop_iff ds rs fs)).
  - done.
  - apply Forall_forall. intros f Hf. split; apply Forall_forall; intros x Hx; [by apply Hds|by apply Hty].
Qed.

(** Every well-formed manifest is read back from its serialisation. *)
Theorem manifest_roundtrip m : manifest_ok m -> FromJson (ToJson m) = Ok m.
Proof. exact (roundtrip_spec m). Qed.

(** A root whose [dir] member is present and not a boolean makes [FromJson] raise instead of
    rejecting the manifest. *)
Theorem FromJson_raises nm v fs :
  safe_path nm -> (match view v with VBool _ => False | _ => True end) -> (zlen fs <= kMaxFilesPerTransfer) ->
  FromJson (jobj [("files", jarr fs); ("roots", jarr [jobj [("name", jstr nm); ("dir", v)]])]) = Raise.
Proof.
  intros Hs Hv Hfs. unfold FromJson. json_simpl. cbn [negb]. json_simpl. cbn [negb]. json_simpl.
  rewrite Z.gtb_ltb, (proj2 (Z.ltb_ge _ _)) by done. cbn [roots_loop]. json_simpl. cbn [negb orb].
  json_simpl. cbn [negb orb lift mbind result_bind]. unfold get_bool. by destruct (view v).
Qed.

(** The nesting check compares directories with files only: a manifest in which one file lies
    inside another is accepted. *)
Theorem FromJson_accepts_nested_files a b sa sb :
  safe_path a -> has_slash a = false -> safe_path (a +:+ "/" +:+ b) -> root_of (a +:+ "/" +:+ b) = a ->
  root_of a = a -> 0 <= sa <= kMaxFileSize -> 0 <= sb <= kMaxFileSize -> a <> a +:+ "/" +:+ b ->
  FromJson (ToJson (mkManifest [mkFile a sa; mkFile (a +:+ "/" +:+ b) sb] [] [mkRoot a false] (sa + sb))) =
    Ok (mkManifest [mkFile a sa; mkFile (a +:+ "/" +:+ b) sb] [] [mkRoot a false] (sa + sb)).
Proof.
  intros Ha Hsl Hab Hr Hra Hsa Hsb Hne. apply roundtrip_spec.
  unfold kMaxFileSize, kBlockPayloadSize in *.
  split; unfold root_names, entry_paths; cbn [files dirs roots total_bytes fmap list_fmap name path app size].
  - done.
  - by repeat constructor.
  - apply NoDup_singleton.
  - by repeat constructor.
  - apply NoDup_cons; split; [by intros ?%list_elem_of_singleton|apply NoDup_singleton].
  - apply Forall_cons; split; [rewrite Hra; by left|]. apply Forall_cons; split; [rewrite Hr; by left|done].
  - apply Forall_cons; split; [exact Hsa|]. apply Forall_cons; split; [exact Hsb|done].
  - intros f d _ Hd. by apply elem_of_nil in Hd.
  - intros f r _ Hx. apply list_elem_of_singleton in Hx as ->. done.
  - cbn. lia.
Qed.

End json_properties.

(** ** Witnesses *)

Lemma blocks_partition_witness : sum_lens 2500 (Z.to_nat (BlockCountFor 2500)) = 2500.
Proof.
  assert (H : 0 <= 2500 <= kMaxFileSize) by (vm_compute; split; discriminate).
  apply (blocks_partition 2500 H).
Defined.

Definition sample_manifest : Manifest :=
  mkManifest [mkFile "d/a.txt" 2500; mkFile "b.bin" 0] ["d"; "d/empty"]
    [mkRoot "d" true; mkRoot "b.bin" false] 2500.

Lemma manifest_roundtrip_witness :
  manifest_ok sample_manifest /\ FromJson (ToJson sample_manifest) = Ok sample_manifest.
Proof.
  assert (H : manifest_ok sample_manifest).
  { split; unfold root_names, entry_paths; cbn [sample_manifest files dirs roots total_bytes fmap list_fmap name path app].
    - done.
    - repeat constructor; vm_compute; done.
    - apply (bool_decide_unpack _). by vm_compute.
    - repeat constructor; vm_compute; done.
    - apply (bool_decide_unpack _). by vm_compute.
    - apply (bool_decide_unpack _). by vm_compute.
    - repeat constructor; cbn; vm_compute; done.
    - intros f d Hf Hd. repeat (apply elem_of_cons in Hf as [->|Hf]; [repeat (apply elem_of_cons in Hd as [->|Hd]; [by vm_compute|]); by apply elem_of_nil in Hd|]). by apply elem_of_nil in Hf.
    - intros f d Hf Hd. repeat (apply elem_of_cons in Hf as [->|Hf]; [repeat (apply elem_of_cons in Hd as [->|Hd]; [by vm_compute|]); by apply elem_of_nil in Hd|]). by apply elem_of_nil in Hf.
    - done. }
  split; [exact H|]. exact (manifest_roundtrip sample_manifest H).
Defined.

Lemma FromJson_sound_witness : manifest_ok sample_manifest.
Proof. apply (FromJson_sound (ToJson sample_manifest)). vm_compute. reflexivity. Defined.

Lemma FromJson_raises_witness :
  FromJson (jobj [("files", jarr []); ("roots", jarr [jobj [("name", jstr "a"); ("dir", juns 1)]])]) = Raise.
Proof. apply (FromJson_raises "a" (juns 1) []); [vm_compute; reflexivity|exact I|vm_compute; discriminate]. Defined.

Lemma FromJson_accepts_nested_files_witness :
  let m := mkManifest [mkFile "a" 5; mkFile "a/b" 6] [] [mkRoot "a" false] 11 in
  FromJson (ToJson m) = Ok m.
Proof.
  apply (FromJson_accepts_nested_files "a" "b" 5 6); try (vm_compute; reflexivity);
    try (vm_compute; split; discriminate). discriminate.
Defined.
