(* ===== verification/Storage.v ===== *)
(** * Persistent state ([core/src/storage/storage.{h,cpp}])

    [config.json] and [transfers.json] in the data directory, written atomically.  A missing or
    corrupt file reads as the empty object or array.  The theorems: what is saved is loaded
    back, and a failed save keeps what was there. *)
From S2P Require Export FileIO Json.
#[local] Open Scope Z_scope.

(** ** Definitions *)

Section storage.
Context `{JL : JsonLib} (data_dir_ : bytes).

Definition config_path : bytes := path_append data_dir_ (sbytes "config.json").
Definition receives_path : bytes := path_append data_dir_ (sbytes "transfers.json").

Definition EnsureDataDir (w : World) : bool * World := EnsureDir data_dir_ w.

Definition LoadJson (p : bytes) (w : World) : json * World :=
  let '(text, w) := ReadFileToString p w in
  match text with
  | None => (jnull, w)
  | Some text => let j := parse (of_sbytes text) in (if is_discarded j then jnull else j, w)
  end.

(** [SaveJson]; [dump(2)] may raise. *)
Definition SaveJson (p : bytes) (j : json) (w : World) : outcome (bool * World) :=
  let '(ok, w) := EnsureDir data_dir_ w in
  if negb ok then Ret (false, w) else
  text ← dump 2 j;
  Ret (WriteFileAtomic p (sbytes text) w).

Definition LoadConfig (w : World) : json * World :=
  let '(j, w) := LoadJson config_path w in
  (if is_object j then j else jempty_object, w).

Definition SaveConfig (config : json) (w : World) : outcome (bool * World) :=
  SaveJson config_path config w.

Definition LoadReceives (w : World) : json * World :=
  let '(j, w) := LoadJson receives_path w in
  (match find j "receives" with
   | Some r => if is_object j && is_array r then r else jempty_array
   | None => jempty_array
   end, w).

Definition receives_doc (receives : json) : json :=
  jobj [("version", jint 1); ("receives", receives)].
Definition SaveReceives (receives : json) (w : World) : outcome (bool * World) :=
  SaveJson receives_path (receives_doc receives) w.

(** ** Lemmas *)

(** A save that reports success has the text in place; one that does not leaves the file. *)
Lemma SaveJson_spec p j w ok w' :
  SaveJson p j w = Ret (ok, w') ->
  if ok then exists text, dump 2 j = Ret text /\ w'.(w_files) !! p = Some (sbytes text)
  else w'.(w_files) !! p = w.(w_files) !! p.
Proof.
  unfold SaveJson. pose proof (EnsureDir_files data_dir_ w) as Hf. destruct (EnsureDir data_dir_ w) as [e w1].
  cbn in Hf. destruct e; cbn [negb]; [|by intros [= <- <-]; rewrite Hf].
  destruct (dump 2 j) as [text|]; [|done]. cbn. intros [= Hw].
  pose proof (WriteFileAtomic_spec p (sbytes text) w1) as H. rewrite Hw in H.
  destruct H as [H _]. destruct ok; [by exists text|by rewrite H, Hf].
Qed.

(** Reading a file whose script has no failure. *)
Lemma LoadJson_spec p w c :
  no_error (next_calls w).1 -> w.(w_files) !! p = Some c ->
  (LoadJson p w).1 = let j := parse (of_sbytes c) in if is_discarded j then jnull else j.
Proof.
  intros Ht Hc. unfold LoadJson. pose proof (ReadFileToString_complete p w c Hc Ht) as Hr.
  destruct (ReadFileToString p w) as [r w1]. cbn in Hr. by rewrite Hr.
Qed.

Lemma receives_reload l w w' :
  (forall text, dump 2 (receives_doc (jarr l)) = Ret text -> reads_as (receives_doc (jarr l)) (parse text)) ->
  SaveReceives (jarr l) w = Ret (true, w') -> no_error (next_calls w').1 ->
  Forall2 reads_as l (elements_of (LoadReceives w').1).
Proof.
  intros Hp Hs Ht. apply SaveJson_spec in Hs. destruct Hs as (text & Hd & Hf). unfold LoadReceives.
  pose proof (LoadJson_spec receives_path w' _ Ht Hf) as Hl.
  destruct (LoadJson receives_path w') as [j w2]. cbn in Hl |- *. rewrite of_sbytes_sbytes in Hl. specialize (Hp _ Hd).
  destruct (reads_obj _ _ Hp) as (Ho & Hnd & _). rewrite Hnd in Hl. rewrite Hl.
  destruct (reads_member _ _ "receives" (jarr l) Hp) as (v & -> & Hv); [by cbn; simplify_map_eq|].
  destruct (reads_arr _ _ Hv) as [Ha Hv']. by rewrite Ho, Ha.
Qed.

(** ** Properties *)

(** The configuration and the receive list saved successfully are loaded back, as the library reads what it wrote;
    a save that fails keeps the file that was there. *)
Theorem storage_roundtrip kvs l w w' ok :
  let config := jobj kvs in
  (forall text, dump 2 config = Ret text -> reads_as config (parse text)) ->
  SaveConfig config w = Ret (ok, w') -> no_error (next_calls w').1 ->
  (if ok then reads_as config (LoadConfig w').1 else w'.(w_files) !! config_path = w.(w_files) !! config_path) /\
  forall v v' ok',
    (forall text, dump 2 (receives_doc (jarr l)) = Ret text -> reads_as (receives_doc (jarr l)) (parse text)) ->
    SaveReceives (jarr l) v = Ret (ok', v') -> no_error (next_calls v').1 ->
    if ok' then Forall2 reads_as l (elements_of (LoadReceives v').1) else v'.(w_files) !! receives_path = v.(w_files) !! receives_path.
Proof.
  intros config Hp Hs Ht. split.
  - apply SaveJson_spec in Hs. destruct ok; [|done]. destruct Hs as (text & Hd & Hf).
    unfold LoadConfig. pose proof (LoadJson_spec config_path w' _ Ht Hf) as Hl.
    destruct (LoadJson config_path w') as [j w2]. cbn in Hl |- *. rewrite of_sbytes_sbytes in Hl. specialize (Hp _ Hd).
    destruct (reads_obj _ _ Hp) as (Ho & Hnd & _). rewrite Hnd in Hl. by rewrite Hl, Ho.
  - intros v v' ok' Hp' Hs' Ht'. destruct ok'; [by eapply receives_reload|]. by apply SaveJson_spec in Hs'.
Qed.

(** A missing or unparsable file reads as the default. *)
Theorem load_defaults w :
  (w.(w_files) !! config_path = None -> (LoadConfig w).1 = jempty_object) /\
  (w.(w_files) !! receives_path = None -> (LoadReceives w).1 = jempty_array) /\
  is_object (LoadConfig w).1 = true /\ is_array (LoadReceives w).1 = true.
Proof.
  assert (Hn : forall p, w.(w_files) !! p = None -> (LoadJson p w).1 = jnull).
  { intros p Hp. unfold LoadJson, ReadFileToString. pose proof (next_files w) as Hf.
    destruct (next_calls w) as [t w1]. cbn in Hf. destruct (fails t); [done|]. by rewrite Hf, Hp. }
  split; [|split; [|split]].
  - intros Hp. apply Hn in Hp. unfold LoadConfig. destruct (LoadJson config_path w) as [j w1].
    cbn in *. rewrite Hp. unfold is_object, jnull. by rewrite view_mk.
  - intros Hp. apply Hn in Hp. unfold LoadReceives. destruct (LoadJson receives_path w) as [j w1].
    cbn in *. rewrite Hp. unfold find, jnull. by rewrite view_mk.
  - unfold LoadConfig. destruct (LoadJson config_path w) as [j w1]. cbn. destruct (is_object j) eqn:E; [done|].
    unfold jempty_object. apply is_object_jobj.
  - unfold LoadReceives. destruct (LoadJson receives_path w) as [j w1]. cbn.
    destruct (find j "receives") as [r|]; [|apply is_array_jarr].
    destruct (is_object j && is_array r) eqn:E; [|apply is_array_jarr]. by apply andb_true_iff in E as [_ E].
Qed.

End storage.

(** ** Witnesses *)

Lemma storage_roundtrip_witness :
  exists w', SaveConfig [100] (jobj []) (mkWorld ∅ ∅ []) = Ret (true, w') /\
    reads_as (jobj []) (LoadConfig [100] w').1.
Proof.
  eexists. split; [vm_compute; reflexivity|].
  refine (proj1 (storage_roundtrip [100] [] [] (mkWorld ∅ ∅ []) _ true _ _ _)).
  - intros text H. assert (text = "{}"%string) as -> by (by injection H). apply (ra_object (JL := JsonTree) _ _ ∅ ∅); [done|done|].
    intros k. rewrite lookup_empty. constructor.
  - vm_compute. reflexivity.
  - constructor.
Defined.

Lemma load_defaults_witness : is_object (LoadConfig [100] (mkWorld ∅ ∅ [])).1 = true.
Proof. apply (load_defaults [100] (mkWorld ∅ ∅ [])). Defined.
