(* ===== verification/Receiver.v ===== *)
(** * The receiving engine ([core/src/transfer/receiver.{h,cpp}])

    One [ReceiverTransfer] per session.  Datagrams are queued by the transport thread and
    handled in batches by the writer thread, which writes them into part files, marks the
    bitmap, reports with SACKs, verifies a complete file against the announced hash and renames
    it into place.  The state holds the model disk; times, the moments at which a stop request
    is seen, and system-call failures are inputs.  What leaves the engine (datagrams and
    callbacks) is the list [out_]. *)
From S2P Require Export Bitmap FileIO Manifest.
#[local] Open Scope Z_scope.

(** ** Definitions *)

Definition kPersistIntervalMs : Z := 2000.
Definition kRateWindowMs : Z := 500.
Definition kCompleteSackRepeats : Z := 5.
Definition kMaxQueueBytes : Z := 64 * 1024 * 1024.

Record ReceiverProgress := mkRxProgress {
  p_bytes_total : Z; p_bytes_received : Z; p_files_total : Z; p_files_done : Z;
  p_current_file : Z; p_recv_rate_bps : Z; p_loss_permille : Z; p_duplicates : Z;
}.

Record ReceiverFileState := mkFileState { fs_index : Z; fs_have : list SackRun; fs_verified : bool }.

(** The callbacks and datagrams. *)
Inductive RxEffect :=
| OnFileOk (index : Z)
| OnFileBad (index : Z) (reason : string)
| OnAllDone
| OnError (code message : string)
| OnPersist (states : list ReceiverFileState)
| SendDatagram (stream : string) (wire : bytes).

Record FileRx := mkFileRx {
  f_index : Z;
  f_size : Z;
  f_blocks : Z;
  part_path : bytes;
  final_path : bytes;
  bitmap : BlockBitmap;
  writer : option FileWriter;
  expected_sha256 : bytes;
  complete : bool;
  verified : bool;
  verifying : bool;
  dirty : bool;
  last_sack_ms : Z;
  received_since_sack : Z;
  expected_since_sack : Z;
  f_frontier : Z;
  complete_sacks_sent : Z;
}.
#[export] Instance eta_FileRx : Eta FileRx := fun f => mkFileRx f.(f_index) f.(f_size) f.(f_blocks)
  f.(part_path) f.(final_path) f.(bitmap) f.(writer) f.(expected_sha256) f.(complete) f.(verified)
  f.(verifying) f.(dirty) f.(last_sack_ms) f.(received_since_sack) f.(expected_since_sack)
  f.(f_frontier) f.(complete_sacks_sent).

(** A fresh [FileRx] of a manifest file. *)
Definition FileRx_new (index size : Z) (final : bytes) : FileRx :=
  mkFileRx index size (BlockCountFor size) (final ++ sbytes ".ctpart") final
    (Reset (BlockCountFor size)) None [] false false false false 0 0 0 0 0.

Record Pending := mkPending { p_file : Z; p_block : Z; p_len : Z; p_payload : bytes }.

Record Receiver := mkReceiver {
  manifest_ : Manifest;
  save_dir_ : bytes;
  rx_ : list FileRx;
  created_dirs_ : list bytes;
  joinable_ : bool; (** [thread_.joinable()] *)
  stop_ : bool;
  finished_ : bool;
  failed_ : bool;
  queue_ : list Pending;
  queue_bytes_ : Z;
  pending_done_ : list (Z * bytes);
  last_persist_ms_ : Z;
  last_rate_ms_ : Z;
  rate_bytes_ : Z;
  rate_expected_ : Z;
  rate_received_ : Z;
  bytes_received_ : Z;
  files_done_ : Z;
  current_file_ : Z;
  recv_rate_bps_ : Z;
  loss_permille_ : Z;
  duplicates_ : Z;
  initial_check_ : bool; (** the local of [Run] *)
  world_ : World;
  out_ : list RxEffect;
}.
#[export] Instance eta_Receiver : Eta Receiver := fun r => mkReceiver r.(manifest_) r.(save_dir_) r.(rx_)
  r.(created_dirs_) r.(joinable_) r.(stop_) r.(finished_) r.(failed_) r.(queue_) r.(queue_bytes_)
  r.(pending_done_) r.(last_persist_ms_) r.(last_rate_ms_) r.(rate_bytes_) r.(rate_expected_)
  r.(rate_received_) r.(bytes_received_) r.(files_done_) r.(current_file_) r.(recv_rate_bps_)
  r.(loss_permille_) r.(duplicates_) r.(initial_check_) r.(world_) r.(out_).

Definition ReceiverTransfer_new (w : World) : Receiver :=
  mkReceiver Manifest_default [] [] [] false false false false [] 0 [] 0 0 0 0 0 0 0 (-1) 0 0 0 true w [].

Definition emit (e : RxEffect) (r : Receiver) : Receiver := r <| out_ ::= (fun o => o ++ [e]) |>.
(** [*rx_[i]], and its update. *)
Definition file_at (r : Receiver) (i : Z) : option FileRx := r.(rx_) !! Z.to_nat i.
Definition set_file (i : Z) (f : FileRx) (r : Receiver) : Receiver := r <| rx_ ::= <[Z.to_nat i := f]> |>.

Definition Fail_ (code message : string) (r : Receiver) : Receiver :=
  if r.(failed_) then r else emit (OnError code message) (r <| failed_ := true |>).

(** *** [Start] *)

(** The lambda [mapped]: the path with its root renamed. *)
Definition mapped (final_names : gmap string string) (rel : string) : bytes :=
  let sl := find_byte (Z.eqb slash) (sbytes rel) in
  let root := root_of rel in
  let head := match final_names !! root with Some n => sbytes n | None => sbytes root end in
  match sl with None => head | Some i => head ++ zdrop i (sbytes rel) end.

(** The loops of [Start]; [inl] carries the error message. *)
Fixpoint start_dirs (final_names : gmap string string) (ds : list string) (r : Receiver)
  : option string * Receiver :=
  match ds with
  | [] => (None, r)
  | d :: ds =>
      let p := JoinSafe r.(save_dir_) (mapped final_names d) in
      let existed := exists_path r.(world_) p in
      let '(ok, w) := EnsureDir p r.(world_) in
      let r := r <| world_ := w |> in
      if negb ok then (Some "mkdir"%string, r) else
      start_dirs final_names ds (if existed then r else r <| created_dirs_ ::= (fun c => c ++ [p]) |>)
  end.

(** [resume_by_index[s.index] = &s]: the last entry of an index wins. *)
Definition resume_by_index (resume : list ReceiverFileState) (i : Z) : option ReceiverFileState :=
  foldl (fun a s => if s.(fs_index) =? i then Some s else a) None resume.

(** One file of the manifest. *)
Definition start_file (final_names : gmap string string) (resume : list ReceiverFileState) (i : Z)
  (mf : ManifestFile) (r : Receiver) : option string * Receiver :=
  let final := JoinSafe r.(save_dir_) (mapped final_names mf.(path)) in
  let f := FileRx_new (u16 i) mf.(size) final in
  let rit := resume_by_index resume f.(f_index) in
  if match rit with
     | Some s => s.(fs_verified) && is_regular_file r.(world_) f.(final_path) | None => false end
  then
    let f := f <| verified := true |> <| complete := true |>
               <| bitmap := SetRuns f.(bitmap) [mkSackRun 0 f.(f_blocks)] |> in
    (None, r <| bytes_received_ ::= (fun b => u64 (b + f.(f_size))) |>
             <| files_done_ ::= (fun n => u32 (n + 1)) |> <| rx_ ::= (fun l => l ++ [f]) |>)
  else
  let '(ok, w) := EnsureDir (parent_path f.(final_path)) r.(world_) in
  let r := r <| world_ := w |> in
  if negb ok then (Some "mkdir"%string, r) else
  if f.(f_blocks) =? 0 then (None, r <| rx_ ::= (fun l => l ++ [f <| complete := true |>]) |>) else
  let part_exists := is_regular_file r.(world_) f.(part_path) in
  let '(ok, wr, w) := FileWriter_Open f.(part_path) r.(world_) in
  let r := r <| world_ := w |> in
  if negb ok then (Some "open part"%string, r) else
  let '(ok, w) := EnsureSize wr f.(f_size) r.(world_) in
  let r := r <| world_ := w |> in
  if negb ok then (Some "allocate part file"%string, r) else
  let f := f <| writer := Some wr |> in
  match rit with
  | Some s =>
      if part_exists then
        let b := SetRuns f.(bitmap) s.(fs_have) in
        let '(base, b) := AckBase b in
        let f := f <| bitmap := b |> <| f_frontier := base |>
                   <| complete ::= (fun c => c || Complete b) |> in
        (None, r <| bytes_received_ ::=
                    (fun n => u64 (n + Z.min (b.(count_) * kBlockPayloadSize) f.(f_size))) |>
                 <| rx_ ::= (fun l => l ++ [f]) |>)
      else (None, r <| rx_ ::= (fun l => l ++ [f]) |>)
  | None => (None, r <| rx_ ::= (fun l => l ++ [f]) |>)
  end.

Fixpoint start_files (final_names : gmap string string) (resume : list ReceiverFileState) (i : Z)
  (fs : list ManifestFile) (r : Receiver) : option string * Receiver :=
  match fs with
  | [] => (None, r)
  | mf :: fs =>
      match start_file final_names resume i mf r with
      | (Some e, r) => (Some e, r)
      | (None, r) => start_files final_names resume (i + 1) fs r
      end
  end.

Definition Start (manifest : Manifest) (save_dir : bytes) (final_names : gmap string string)
  (resume : list ReceiverFileState) (r : Receiver) : option string * Receiver :=
  if r.(joinable_) then (Some "already started"%string, r) else
  let r := r <| manifest_ := manifest |> <| save_dir_ := save_dir |> in
  let '(ok, w) := EnsureDir save_dir r.(world_) in
  let r := r <| world_ := w |> in
  if negb ok then (Some "save dir"%string, r) else
  match start_dirs final_names manifest.(dirs) r with
  | (Some e, r) => (Some e, r)
  | (None, r) =>
      match start_files final_names resume 0 manifest.(files) (r <| rx_ := [] |>) with
      | (Some e, r) => (Some e, r)
      | (None, r) => (None, r <| stop_ := false |> <| joinable_ := true |> <| initial_check_ := true |>)
      end
  end.

(** *** Queries *)

Definition HaveRuns_all (r : Receiver) : list (Z * list SackRun) :=
  foldl (fun out f => if f.(verified) || (f.(bitmap).(count_) =? 0) then out
                      else zm_set f.(f_index) (HaveRuns f.(bitmap) (2 ^ 20)) out) [] r.(rx_).

Definition VerifiedFiles (r : Receiver) : list Z :=
  f_index <$> List.filter verified r.(rx_).

Definition Snapshot (r : Receiver) : list ReceiverFileState :=
  (fun f => mkFileState f.(f_index) (if f.(verified) then [] else HaveRuns f.(bitmap) (2 ^ 20)) f.(verified))
    <$> r.(rx_).

Definition Progress (r : Receiver) : ReceiverProgress :=
  mkRxProgress r.(manifest_).(total_bytes) (Z.min r.(bytes_received_) r.(manifest_).(total_bytes))
    (u32 (zlen r.(manifest_).(files))) r.(files_done_) r.(current_file_) r.(recv_rate_bps_)
    r.(loss_permille_) r.(duplicates_).

(** *** Transport thread and owner *)

Definition OnBlock (data : option bytes) (dlen : Z) (r : Receiver) : Receiver :=
  match DecodeBlock data dlen with
  | None => r
  | Some (h, payload) =>
      if h.(file_index) >=? zlen r.(rx_) then r else
      let p := mkPending h.(file_index) h.(block_index) h.(len) payload in
      if r.(queue_bytes_) + h.(len) >? kMaxQueueBytes then r else
      r <| queue_bytes_ ::= Z.add h.(len) |> <| queue_ ::= (fun q => q ++ [p]) |>
  end.

Definition OnFileDone (index : Z) (sha256 : bytes) (r : Receiver) : Receiver :=
  r <| pending_done_ ::= zm_set index sha256 |>.

Definition Stop (r : Receiver) : Receiver :=
  r <| stop_ := true |> <| joinable_ := false |> <| rx_ ::= fmap (fun f => f <| writer := None |>) |>.

(** [std::filesystem::is_empty] on an existing directory. *)
Definition dir_is_empty (w : World) (d : bytes) : bool :=
  is_directory w d &&
  forallb (fun p => negb (starts_with (d ++ [slash]) p)) (map fst (map_to_list w.(w_files)) ++ elements w.(w_dirs)).

Definition Cleanup (r : Receiver) : Receiver :=
  let r := Stop r in
  let w := foldl (fun w f => if f.(verified) then w else remove_file f.(part_path) w) r.(world_) r.(rx_) in
  let w := foldl (fun w d => if dir_is_empty w d then w <| w_dirs ::= (fun s => s ∖ {[d]}) |> else w)
             w (reverse r.(created_dirs_)) in
  r <| world_ := w |>.

(** *** Writer thread *)

Section writer_thread.
Context (EVP_sha256 : bytes -> bytes).

(** The holes that start below the frontier, last first, the last one cut at the frontier. *)
Fixpoint cut_holes (frontier : Z) (hs : list SackRun) : list SackRun :=
  match hs with
  | [] => []
  | h :: hs => if h.(start) >=? frontier then cut_holes frontier hs
               else (if u32 (h.(start) + h.(length_)) >? frontier
                     then mkSackRun h.(start) (frontier - h.(start)) else h) :: hs
  end.

Definition SendSack (i now : Z) (r : Receiver) : Receiver :=
  match file_at r i with
  | None => r
  | Some f =>
      let '(base, b) := AckBase f.(bitmap) in
      let flags := if Complete b then Z.lor 0 kSackFlagComplete else 0 in
      let frontier := Z.max f.(f_frontier) base in
      let '(holes, b) := if negb (Z.testbit flags 0) then Holes b base kSackMaxRuns else ([], b) in
      let holes := reverse (cut_holes frontier (reverse holes)) in
      let s := mkSack f.(f_index) flags base frontier b.(count_)
                 (u32 (Z.min r.(recv_rate_bps_) 0xFFFFFFFF)) r.(loss_permille_) holes in
      let f' := f <| bitmap := b |> <| last_sack_ms := now |> <| dirty := false |>
                  <| complete_sacks_sent ::= (fun n => if Z.testbit flags 0 then u32 (n + 1) else n) |>
                  <| expected_since_sack := 0 |> <| received_since_sack := 0 |> in
      emit (SendDatagram kStreamSack (EncodeSack s))
        (set_file i f' r <| rate_expected_ ::= (fun n => u32 (n + f.(expected_since_sack))) |>)
  end.

(** What [MaybeVerify] sees of [stop_]: at the k-th poll of the hash loop, and afterwards. *)
Record StopView := mkStopView { cancelled : nat -> bool; stopped : bool }.
(** What its calls in one iteration of the thread see: each may see something else of [stop_]. *)
Definition StopViews : Type := Receiver -> StopView.

Definition MaybeVerify (sv : StopView) (i : Z) (r : Receiver) : Receiver :=
  match file_at r i with
  | None => r
  | Some f =>
      if f.(verified) || f.(verifying) || negb f.(complete) || (zlen f.(expected_sha256) =? 0) then r else
      let f := f <| verifying := true |> <| writer := None |> in
      let '(hex, w) :=
        if f.(f_blocks) =? 0 then
          let '(ok, w) := CreateEmptyFile f.(part_path) r.(world_) in
          (if ok then Some (Sha256Hex EVP_sha256 []) else None, w)
        else Sha256File EVP_sha256 f.(part_path) sv.(cancelled) r.(world_) in
      let r := r <| world_ := w |> in
      if sv.(stopped) then set_file i (f <| verifying := false |>) r else
      match hex with
      | None => Fail_ "io" "verify read failed" (set_file i f r)
      | Some hex =>
          if negb (bool_decide (hex = f.(expected_sha256))) then
            let had := Z.min (f.(bitmap).(count_) * kBlockPayloadSize) f.(f_size) in
            let '(wr, w) :=
              if f.(f_blocks) >? 0
              then let '(_, wr, w) := FileWriter_Open f.(part_path) r.(world_) in (Some wr, w)
              else (f.(writer), r.(world_)) in
            let f := f <| bitmap := Reset f.(f_blocks) |> <| complete := false |> <| verifying := false |>
                       <| f_frontier := 0 |> <| complete_sacks_sent := 0 |> <| writer := wr |> in
            emit (OnFileBad f.(f_index) "sha256_mismatch")
              (set_file i f (r <| bytes_received_ ::= (fun n => n - Z.min n had) |> <| world_ := w |>))
          else
            let '(ok, w) := RenameReplace f.(part_path) f.(final_path) r.(world_) in
            let r := r <| world_ := w |> in
            if negb ok then Fail_ "io" "rename failed" (set_file i f r) else
            emit (OnFileOk f.(f_index))
              (set_file i (f <| verified := true |> <| verifying := false |>)
                 (r <| files_done_ ::= (fun n => u32 (n + 1)) |>))
      end
  end.

Definition AcceptBlock (p : Pending) (r : Receiver) : bool * Receiver :=
  match file_at r p.(p_file) with
  | None => (false, r)
  | Some f =>
      if f.(verified) || (f.(f_blocks) =? 0) || (p.(p_block) >=? f.(f_blocks)) then (false, r) else
      if negb (p.(p_len) =? BlockLenFor f.(f_size) p.(p_block)) then (false, r) else
      let f' := f <| dirty := true |> in
      let f' := if p.(p_block) >=? f.(f_frontier)
                then f' <| expected_since_sack ::= (fun n => u32 (n + (p.(p_block) - f.(f_frontier) + 1))) |>
                        <| f_frontier := u32 (p.(p_block) + 1) |>
                else f' in
      let fresh := negb (Test f.(bitmap) p.(p_block)) in
      let r := set_file p.(p_file) f' (r <| current_file_ := f.(f_index) |>) in
      (fresh, if fresh then r else r <| duplicates_ ::= (fun n => u32 (n + 1)) |>)
  end.

Definition set_blocks (b : BlockBitmap) (blocks : list Z) : BlockBitmap :=
  foldl (fun b i => (Bitmap.Set_ b i).2) b blocks.

Definition FlushRun (sv : StopViews) (i first_block : Z) (data : bytes) (blocks : list Z) (now : Z) (r : Receiver)
  : bool * Receiver :=
  match file_at r i with
  | None => (true, r)
  | Some f =>
      if zlen blocks =? 0 then (true, r) else
      let '(ok, w) := match f.(writer) with
                      | None => (false, r.(world_))
                      | Some wr => WriteAt wr (first_block * kBlockPayloadSize) data r.(world_)
                      end in
      let r := r <| world_ := w |> in
      if negb ok then (false, Fail_ "io" ("write failed: " +:+ of_sbytes (BaseName f.(final_path))) r) else
      let b := set_blocks f.(bitmap) blocks in
      let f := f <| bitmap := b |> <| complete ::= (fun c => c || Complete b) |>
                 <| received_since_sack ::= (fun n => u32 (n + zlen blocks)) |> in
      let r := set_file i f r <| rate_received_ ::= (fun n => u32 (n + zlen blocks)) |>
                 <| rate_bytes_ ::= (fun n => u64 (n + zlen data)) |>
                 <| bytes_received_ ::= (fun n => u64 (n + zlen data)) |> in
      (true, if f.(complete) then let r := SendSack i now r in MaybeVerify (sv r) i r else r)
  end.

(** The locals of [HandleBatch]; the lambda [flush] clears them. *)
Record RunBuf := mkRun { run_file : option Z; run_first : Z; run_data : bytes; run_blocks : list Z }.
Definition RunBuf_empty : RunBuf := mkRun None 0 [] [].

Definition flush (sv : StopViews) (b : RunBuf) (now : Z) (r : Receiver) : bool * RunBuf * Receiver :=
  match b.(run_file) with
  | None => (true, b, r)
  | Some i => let '(ok, r) := FlushRun sv i b.(run_first) b.(run_data) b.(run_blocks) now r in
              (ok, mkRun None b.(run_first) [] [], r)
  end.

Definition contiguous (b : RunBuf) (p : Pending) : bool :=
  bool_decide (b.(run_file) = Some p.(p_file)) &&
  match last b.(run_blocks) with
  | None => false
  | Some back => (p.(p_block) =? u32 (back + 1)) &&
                 (zlen b.(run_data) =? zlen b.(run_blocks) * kBlockPayloadSize)
  end.

Fixpoint batch_loop (sv : StopViews) (batch : list Pending) (b : RunBuf) (now : Z) (r : Receiver) : Receiver :=
  match batch with
  | [] => (flush sv b now r).2
  | p :: batch =>
      let '(ok, b, r) := if negb (contiguous b p) then flush sv b now r else (true, b, r) in
      if negb ok then r else
      let '(fresh, r) := AcceptBlock p r in
      if negb fresh then batch_loop sv batch b now r else
      let b := match b.(run_file) with
               | None => mkRun (Some p.(p_file)) p.(p_block) b.(run_data) b.(run_blocks)
               | Some _ => b
               end in
      let b := mkRun b.(run_file) b.(run_first) (b.(run_data) ++ p.(p_payload)) (b.(run_blocks) ++ [p.(p_block)]) in
      if zlen b.(run_data) >=? 2 ^ 20 then
        let '(ok, b, r) := flush sv b now r in
        if negb ok then r else batch_loop sv batch b now r
      else batch_loop sv batch b now r
  end.

Definition HandleBatch (sv : StopViews) (batch : list Pending) (now : Z) (r : Receiver) : Receiver :=
  batch_loop sv batch RunBuf_empty now r.

(** The body of the loop of [SendSacks]. *)
Definition sack_one (now : Z) (force : bool) (r : Receiver) (i : Z) : Receiver :=
  match file_at r i with
  | None => r
  | Some f =>
      if f.(verified) then r else
      if f.(complete) then
        if (f.(complete_sacks_sent) <? kCompleteSackRepeats) &&
           (u32 (now - f.(last_sack_ms)) >=? kSackCompleteRepeatMs)
        then SendSack i now r else r
      else if negb f.(dirty) && negb force then r
      else if negb force && (u32 (now - f.(last_sack_ms)) <? kSackIntervalMs) then r
      else SendSack i now r
  end.

Definition SendSacks (now : Z) (force : bool) (r : Receiver) : Receiver :=
  foldl (sack_one now force) r (seqZ 0 (zlen r.(rx_))).

Definition Persist (force : bool) (now : Z) (r : Receiver) : Receiver :=
  if negb force && (u32 (now - r.(last_persist_ms_)) <? kPersistIntervalMs) then r else
  let r := r <| last_persist_ms_ := now |> in
  emit (OnPersist (Snapshot r)) r.

Definition UpdateRates (now : Z) (r : Receiver) : Receiver :=
  if u32 (now - r.(last_rate_ms_)) <? kRateWindowMs then r else
  let elapsed := u32 (now - r.(last_rate_ms_)) in
  let lost := if r.(rate_expected_) >? r.(rate_received_) then r.(rate_expected_) - r.(rate_received_) else 0 in
  r <| last_rate_ms_ := now |>
    <| recv_rate_bps_ := i64 (u64 (r.(rate_bytes_) * 8000) / elapsed) |>
    <| rate_bytes_ := 0 |>
    <| loss_permille_ := if r.(rate_expected_) >? 0
                         then u16 (Z.min 1000 (u32 (lost * 1000) / r.(rate_expected_))) else 0 |>
    <| rate_expected_ := 0 |> <| rate_received_ := 0 |>.

Definition AllVerified (r : Receiver) : bool := forallb verified r.(rx_).

(** One entry of [done]. *)
Definition done_one (sv : StopViews) (r : Receiver) (d : Z * bytes) : Receiver :=
  match file_at r d.1 with
  | None => r
  | Some f => let r := set_file d.1 (f <| expected_sha256 := d.2 |>) r in MaybeVerify (sv r) d.1 r
  end.

Definition mark_dirty (f : FileRx) : FileRx :=
  if f.(complete) && negb f.(verified) then f <| dirty := true |> else f.

(** One iteration of [Run], with the times [NowMs] returns to it and to the two [Persist] calls;
    [false] when the thread leaves. *)
Definition Run_iter (sv : StopViews) (now now2 now3 : Z) (r : Receiver) : bool * Receiver :=
  if r.(stop_) || r.(failed_) then (false, Persist true now r) else
  let batch := r.(queue_) in
  let done := r.(pending_done_) in
  let r := r <| queue_ := [] |> <| pending_done_ := [] |> <| queue_bytes_ := 0 |> in
  let r := HandleBatch sv batch now r in
  if r.(failed_) then (false, r) else
  let r := foldl (done_one sv) r done in
  let r := if r.(initial_check_) then r <| initial_check_ := false |> <| rx_ ::= fmap mark_dirty |> else r in
  let r := SendSacks now false r in
  let r := UpdateRates now r in
  let r := Persist false now2 r in
  if AllVerified r then
    (false, emit OnAllDone (Persist true now3 r <| finished_ := true |>))
  else (true, r).

End writer_thread.

(** ** Lemmas *)

(** *** Block geometry *)

Lemma max_size sz : 0 <= sz <= kBlockPayloadSize * max_blocks -> 0 <= sz <= kMaxFileSize.
Proof. unfold kMaxFileSize, kBlockPayloadSize, max_blocks. lia. Qed.

Lemma blocks_bound sz : 0 <= sz <= kBlockPayloadSize * max_blocks ->
  0 <= BlockCountFor sz <= max_blocks /\ (BlockCountFor sz = 0 <-> sz = 0) /\
  sz <= BlockCountFor sz * 1100 < sz + 1100.
Proof.
  intros H. rewrite BlockCountFor_ceil by by apply max_size. unfold kBlockPayloadSize, max_blocks in *.
  Z.div_mod_to_equations. lia.
Qed.

(** Two contents of the same size that agree on every block are equal. *)
Lemma blocks_determine (c d : bytes) n : zlen c = zlen d -> zlen c <= n * 1100 ->
  (forall b, 0 <= b < n -> slice (b * 1100) 1100 c = slice (b * 1100) 1100 d) -> c = d.
Proof.
  intros Hl Hn H. apply list_eq. intros j. destruct (decide (j < length c)%nat) as [Hj|Hj].
  - set (b := Z.of_nat j / 1100). assert (Hb : 0 <= b < n) by (unfold b, zlen in *; Z.div_mod_to_equations; lia).
    specialize (H b Hb). apply (f_equal (fun l => l !! (j - Z.to_nat (b * 1100))%nat)) in H.
    assert (Hr : b * 1100 <= Z.of_nat j < b * 1100 + 1100) by (unfold b; Z.div_mod_to_equations; lia).
    rewrite !lookup_slice in H by lia. by replace (Z.to_nat (b * 1100) + (j - Z.to_nat (b * 1100)))%nat with j in H by lia.
  - rewrite !lookup_ge_None_2; [done| |]; unfold zlen in *; lia.
Qed.

(** A write inside a file leaves every slice that is disjoint from it. *)
Lemma slice_overwrite_in off d l o n : 0 <= off -> 0 <= o -> 0 <= n -> off + zlen d <= zlen l ->
  o + n <= off \/ off + zlen d <= o -> slice o n (overwrite off d l) = slice o n l.
Proof.
  intros Ho Ho' Hn Hl Hd. destruct (decide (d = [])) as [->|Hne]; [done|].
  apply list_eq. intros i. unfold slice, ztake, zdrop. rewrite !lookup_take, !lookup_drop.
  case_decide; [|done]. rewrite lookup_overwrite by done. unfold zlen in *.
  repeat case_decide; try lia; try done. symmetry. apply lookup_ge_None. lia.
Qed.

Lemma zlen_overwrite_in off d l : 0 <= off -> off + zlen d <= zlen l -> zlen (overwrite off d l) = zlen l.
Proof.
  intros Ho Hl. destruct (decide (d = [])) as [->|Hne]; [done|]. rewrite zlen_overwrite by done. lia.
Qed.

(** A complete bitmap has every block. *)
Lemma Complete_all b k : wf_bitmap b -> Complete b = true -> 0 <= k < b.(size_) -> Test b k = true.
Proof.
  intros Hw Hc Hk. unfold Complete in Hc. apply Z.eqb_eq in Hc. rewrite (wf_count b Hw) in Hc.
  pose proof (wf_size b Hw). apply (proj1 (popcount_full (Test b) (Z.to_nat b.(size_)))); lia.
Qed.

Lemma set_blocks_spec b first n k : wf_bitmap b -> 0 <= first -> 0 <= n -> 0 <= k ->
  wf_bitmap (set_blocks b (seqZ first n)) /\ (set_blocks b (seqZ first n)).(size_) = b.(size_) /\
  Test (set_blocks b (seqZ first n)) k = Test b k || ((first <=? k) && (k <? first + n) && (k <? b.(size_))).
Proof.
  intros Hw Hf Hn Hk. unfold set_blocks, seqZ. revert b first Hw Hf.
  assert (Hgen : forall m b first, wf_bitmap b -> 0 <= first ->
    let b' := foldl (fun b i => (Bitmap.Set_ b i).2) b ((fun i => Z.of_nat i + first) <$> seq 0 m) in
    wf_bitmap b' /\ b'.(size_) = b.(size_) /\
    Test b' k = Test b k || ((first <=? k) && (k <? first + Z.of_nat m) && (k <? b.(size_)))).
  { induction m as [|m IH]; intros b first Hw Hf; cbn zeta.
    - cbn [seq fmap list_fmap foldl]. split; [done|]. split; [done|].
      replace ((first <=? k) && (k <? first + Z.of_nat 0)) with false; [by rewrite andb_false_l, orb_false_r|].
      destruct (Z.leb_spec first k), (Z.ltb_spec k (first + Z.of_nat 0)); cbn; (done || lia).
    - rewrite seq_S, fmap_app, foldl_app. cbn [fmap list_fmap foldl]. destruct (IH b first Hw Hf) as (W & Sz & T).
      split; [apply wf_Set; [done|lia]|]. split; [by rewrite Set_size|].
      rewrite Test_Set by (done || lia). rewrite Sz, T, <- orb_assoc. f_equal. cbn [Nat.add].
      destruct (Z.leb_spec first k), (Z.ltb_spec k (first + Z.of_nat m)), (Z.eqb_spec k (Z.of_nat m + first)),
        (Z.ltb_spec k (first + Z.of_nat (S m))), (Z.ltb_spec k (size_ b)), (Z.ltb_spec (Z.of_nat m + first) (size_ b));
        cbn; try done; lia. }
  intros b first Hw Hf. specialize (Hgen (Z.to_nat n) b first Hw Hf). cbn zeta in Hgen.
  by rewrite Z2Nat.id in Hgen by done.
Qed.

(** The bytes of an honest run on disk: each block of the run reads as the source's. *)
Lemma run_block_slices c data s first n sz b :
  0 <= first -> 0 < n -> zlen s = sz -> zlen c = sz ->
  first * 1100 + zlen data = Z.min ((first + n) * 1100) sz -> data = slice (first * 1100) (zlen data) s ->
  first <= b < first + n ->
  slice (b * 1100) 1100 (overwrite (first * 1100) data c) = slice (b * 1100) 1100 s.
Proof.
  intros Hf Hn Hs Hc Hl Hd Hb. destruct (decide (data = [])) as [->|Hne].
  { rewrite overwrite_nil. rewrite zlen_nil in Hl. rewrite !slice_ge; [done|lia|lia]. }
  apply list_eq. intros j. destruct (decide (j < 1100)%nat) as [Hj|Hj].
  2:{ rewrite !lookup_ge_None_2; [done| |]; unfold slice, ztake; rewrite length_take; lia. }
  rewrite !lookup_slice by lia. rewrite lookup_overwrite by (done || lia).
  destruct (decide (Z.to_nat (b * 1100) + j < length s)%nat) as [Hin|Hin].
  - rewrite decide_True by (unfold zlen in *; lia). rewrite Hd at 1.
    rewrite lookup_slice by (unfold zlen in *; lia). f_equal. lia.
  - rewrite (lookup_ge_None_2 s) by lia. unfold zlen in *. repeat case_decide; try lia; try done.
Qed.

Lemma seqZ_snoc m n : 0 <= n -> seqZ m n ++ [m + n] = seqZ m (n + 1).
Proof.
  intros Hn. rewrite (seqZ_app m n 1) by lia. f_equal.
Qed.

Lemma last_seqZ m n : 0 < n -> last (seqZ m n) = Some (m + n - 1).
Proof.
  intros Hn. replace n with ((n - 1) + 1) at 1 by lia. rewrite <- seqZ_snoc by lia.
  rewrite last_snoc. f_equal. lia.
Qed.
