(* ===== verification/ReceiverProofs.v ===== *)
(** * Correctness of the receiving engine

    The runs of [Receiver] as sequences of events in any order: datagrams, announced hashes,
    iterations of the writer thread, a stop, and arbitrary failures of the system calls.  The
    invariant [rx_inv] relates every file's bitmap to what is on the disk; the theorems derive
    from it that verified files are intact and that blocks marked received are stored, and
    state what a SACK tells the sender. *)
From S2P Require Export Receiver.
#[local] Open Scope Z_scope.

(** ** Definitions *)

Inductive RxEvent :=
| EvBlock (data : option bytes) (dlen : Z)
| EvFileDone (index : Z) (sha256 : bytes)
| EvIter (sv : StopViews) (now now2 now3 : Z)
| EvStop
| EvCalls (calls : list (list sys)). (** what the next system calls answer *)

Definition rx_step (sha : bytes -> bytes) (r : Receiver) (e : RxEvent) : Receiver :=
  match e with
  | EvBlock data dlen => OnBlock data dlen r
  | EvFileDone index sha256 => OnFileDone index sha256 r
  | EvIter sv now now2 now3 => if r.(joinable_) then (Run_iter sha sv now now2 now3 r).2 else r
  | EvStop => Stop r
  | EvCalls calls => r <| world_ ::= (fun w => w <| w_calls := calls |>) |>
  end.

Section invariant.
Context (sha : bytes -> bytes).
(** Whether the sender's datagrams carry the bytes of the files [src], and the hashes announced
    for each file. *)
Context (honest : Prop) (src : Z -> bytes) (announced : Z -> bytes -> Prop).

(** A queued block of an honest sender. *)
Definition pending_ok (p : Pending) : Prop :=
  0 <= p.(p_file) /\ 0 <= p.(p_block) /\ zlen p.(p_payload) = p.(p_len) /\
  (honest -> p.(p_payload) = slice (p.(p_block) * kBlockPayloadSize) p.(p_len) (src p.(p_file))).

Definition event_ok (e : RxEvent) : Prop :=
  match e with
  | EvBlock data dlen =>
      forall h payload, DecodeBlock data dlen = Some (h, payload) ->
        pending_ok (mkPending h.(file_index) h.(block_index) h.(len) payload)
  | EvFileDone index sha256 => 0 <= index /\ announced index sha256
  | _ => True
  end.

(** File [i] against the disk. *)
Record file_inv (w : World) (i : Z) (f : FileRx) : Prop := {
  fi_index : f.(f_index) = i;
  fi_size : 0 <= f.(f_size) <= kBlockPayloadSize * max_blocks;
  fi_src : honest -> zlen (src i) = f.(f_size);
  fi_blocks : f.(f_blocks) = BlockCountFor f.(f_size);
  fi_bitmap : wf_bitmap f.(bitmap) /\ f.(bitmap).(size_) = f.(f_blocks);
  fi_front : 0 <= f.(f_frontier) < 2 ^ 32;
  fi_part : f.(verified) = false -> 0 < f.(f_blocks) ->
    is_Some (w.(w_files) !! f.(part_path)) /\ zlen (content_of w f.(part_path)) = f.(f_size);
  fi_data : honest -> f.(verified) = false -> forall b, 0 <= b -> Test f.(bitmap) b = true ->
    slice (b * kBlockPayloadSize) kBlockPayloadSize (content_of w f.(part_path)) =
    slice (b * kBlockPayloadSize) kBlockPayloadSize (src i);
  fi_complete : f.(complete) = true -> f.(verified) = false -> Complete f.(bitmap) = true;
  fi_writer : forall wr, f.(writer) = Some wr -> wr.(fp_) = None \/ wr.(fp_) = Some f.(part_path);
  fi_hash : f.(expected_sha256) = [] \/ announced i f.(expected_sha256);
  fi_verified : f.(verified) = true -> exists c, w.(w_files) !! f.(final_path) = Some c /\
    announced i (Sha256Hex sha c) /\ (honest -> c = src i);
}.

(** No two of the engine's paths coincide. *)
Definition paths_of (fs : list FileRx) : list bytes := concat ((fun f => [f.(part_path); f.(final_path)]) <$> fs).

Record rx_inv (r : Receiver) : Prop := {
  ri_paths : NoDup (paths_of r.(rx_));
  ri_files : forall k f, r.(rx_) !! k = Some f -> file_inv r.(world_) (Z.of_nat k) f;
  ri_queue : Forall pending_ok r.(queue_);
  ri_done : Forall (fun d => 0 <= d.1 /\ announced d.1 d.2) r.(pending_done_);
}.

(** The run being collected by [HandleBatch]: fresh contiguous blocks of one file. *)
Definition run_inv (r : Receiver) (b : RunBuf) : Prop :=
  match b.(run_file) with
  | None => b.(run_data) = [] /\ b.(run_blocks) = []
  | Some i => exists f n, 0 <= i /\ file_at r i = Some f /\ f.(verified) = false /\ 0 < n /\
      b.(run_blocks) = seqZ b.(run_first) n /\ 0 <= b.(run_first) /\ b.(run_first) + n <= f.(f_blocks) /\
      (forall k, b.(run_first) <= k < b.(run_first) + n -> Test f.(bitmap) k = false) /\
      b.(run_first) * kBlockPayloadSize + zlen b.(run_data) =
        Z.min ((b.(run_first) + n) * kBlockPayloadSize) f.(f_size) /\
      (honest -> b.(run_data) = slice (b.(run_first) * kBlockPayloadSize) (zlen b.(run_data)) (src i))
  end.

(** ** Lemmas *)

(** *** Updating one file *)

Lemma paths_lookup fs k f : fs !! k = Some f -> paths_of fs ≡ₚ [f.(part_path); f.(final_path)] ++ paths_of (delete k fs).
Proof.
  intros H. unfold paths_of. rewrite <- (take_drop_middle fs k f H) at 1.
  rewrite delete_take_drop, !fmap_app, !concat_app, fmap_cons. cbn [concat].
  rewrite Permutation_app_swap_app. done.
Qed.

Lemma paths_insert fs k f f' : fs !! k = Some f -> f'.(part_path) = f.(part_path) -> f'.(final_path) = f.(final_path) ->
  paths_of (<[k := f']> fs) = paths_of fs.
Proof.
  intros H Hp Hf. unfold paths_of. f_equal. rewrite list_fmap_insert, Hp, Hf.
  apply list_insert_id. by rewrite list_lookup_fmap, H.
Qed.

Lemma paths_elem fs j g : fs !! j = Some g -> g.(part_path) ∈ paths_of fs /\ g.(final_path) ∈ paths_of fs.
Proof. intros H. rewrite (paths_lookup fs j g H). split; [left|right; left]. Qed.

Lemma paths_distinct fs k f j g : NoDup (paths_of fs) -> fs !! k = Some f -> fs !! j = Some g ->
  f.(part_path) <> f.(final_path) /\
  (j <> k -> g.(part_path) <> f.(part_path) /\ g.(part_path) <> f.(final_path) /\
             g.(final_path) <> f.(part_path) /\ g.(final_path) <> f.(final_path)).
Proof.
  intros Hn Hk Hj. rewrite (paths_lookup fs k f Hk) in Hn. apply NoDup_app in Hn as (H1 & H2 & _).
  split; [apply NoDup_cons in H1 as [H1 _]; intros He; apply H1; rewrite He; left|]. intros Hne.
  assert (Hin : g.(part_path) ∈ paths_of (delete k fs) /\ g.(final_path) ∈ paths_of (delete k fs)).
  { destruct (decide (j < k)%nat).
    - apply (paths_elem _ j). by rewrite list_lookup_delete_lt.
    - apply (paths_elem _ (pred j)). rewrite list_lookup_delete_ge by lia. by replace (S (pred j)) with j by lia. }
  destruct Hin as [Hp Hf]. repeat split; intros He; [apply (H2 f.(part_path))|apply (H2 f.(final_path))
    |apply (H2 f.(part_path))|apply (H2 f.(final_path))]; try (rewrite <- He; done); (left || (right; left)).
Qed.

(** A file's invariant depends on its own two paths only. *)
Lemma file_inv_frame w w' i f :
  w'.(w_files) !! f.(part_path) = w.(w_files) !! f.(part_path) ->
  w'.(w_files) !! f.(final_path) = w.(w_files) !! f.(final_path) ->
  file_inv w i f -> file_inv w' i f.
Proof.
  intros Hp Hf [H1 H2 H3 H4 H5 H6 H7 H8 H9 H10 H11 H12].
  assert (Hc : content_of w' f.(part_path) = content_of w f.(part_path)) by by apply content_files.
  split; try done; [by rewrite Hp, Hc | by rewrite Hc | by rewrite Hf].
Qed.

(** Replacing a file that keeps its paths, in a world that differs on these paths only. *)
Lemma rx_inv_update r i f f' w' :
  rx_inv r -> file_at r i = Some f -> f'.(part_path) = f.(part_path) -> f'.(final_path) = f.(final_path) ->
  (forall q, q <> f.(part_path) -> q <> f.(final_path) -> w'.(w_files) !! q = r.(world_).(w_files) !! q) ->
  file_inv w' (Z.of_nat (Z.to_nat i)) f' ->
  rx_inv (set_file i f' (r <| world_ := w' |>)).
Proof.
  unfold file_at. intros [Hn Hfs Hq Hd] Hi Hp Hf Hw Hinv. split; cbn [upd_field set_file rx_ world_ queue_ pending_done_].
  - by erewrite paths_insert.
  - intros k g Hk. destruct (decide (k = Z.to_nat i)) as [->|Hne].
    + rewrite list_lookup_insert_eq in Hk by (by eapply lookup_lt_Some). by injection Hk as <-.
    + rewrite list_lookup_insert_ne in Hk by done.
      destruct (paths_distinct _ (Z.to_nat i) f k g Hn Hi Hk) as [_ Hdist]. destruct (Hdist Hne) as (D1 & D2 & D3 & D4).
      apply (file_inv_frame r.(world_)); [by apply Hw|by apply Hw|by apply Hfs].
  - done.
  - done.
Qed.

(** The invariant reads these fields only. *)
Lemma rx_inv_ext r r' : r'.(rx_) = r.(rx_) -> w_files r'.(world_) = w_files r.(world_) ->
  r'.(queue_) = r.(queue_) -> r'.(pending_done_) = r.(pending_done_) -> rx_inv r -> rx_inv r'.
Proof.
  intros H1 H2 H3 H4 [P1 P2 P3 P4]. split; rewrite ?H1, ?H3, ?H4; try done.
  intros k f Hk. apply (file_inv_frame r.(world_)); rewrite ?H2; [done|done|by apply P2].
Qed.

Lemma file_at_set i f r g : file_at r i = Some g -> file_at (set_file i f r) i = Some f.
Proof. unfold file_at. intros H. cbn. apply list_lookup_insert_eq. by eapply lookup_lt_Some. Qed.

Lemma file_at_set_ne i j f r : Z.to_nat i <> Z.to_nat j -> file_at (set_file i f r) j = file_at r j.
Proof. unfold file_at. intros H. cbn. by apply list_lookup_insert_ne. Qed.

Lemma file_at_inv r i f : rx_inv r -> file_at r i = Some f -> file_inv r.(world_) (Z.of_nat (Z.to_nat i)) f.
Proof. intros Hi H. by apply Hi. Qed.

(** *** Operations on one file *)

Lemma rx_inv_set r i f f' :
  rx_inv r -> file_at r i = Some f -> f'.(part_path) = f.(part_path) -> f'.(final_path) = f.(final_path) ->
  file_inv r.(world_) (Z.of_nat (Z.to_nat i)) f' -> rx_inv (set_file i f' r).
Proof.
  intros Hr Hi Hp Hf Hinv. eapply rx_inv_ext; [..|by apply (rx_inv_update r i f f' r.(world_))]; done.
Qed.

(** A change of the bookkeeping of a file: the same blocks, paths and status. *)
Lemma file_inv_same w i f f' :
  file_inv w i f ->
  f'.(f_index) = f.(f_index) -> f'.(f_size) = f.(f_size) -> f'.(f_blocks) = f.(f_blocks) ->
  f'.(part_path) = f.(part_path) -> f'.(final_path) = f.(final_path) ->
  f'.(verified) = f.(verified) -> f'.(complete) = f.(complete) ->
  (f'.(writer) = f.(writer) \/ f'.(writer) = None) -> f'.(expected_sha256) = f.(expected_sha256) ->
  0 <= f'.(f_frontier) < 2 ^ 32 ->
  wf_bitmap f'.(bitmap) -> (forall k, Test f'.(bitmap) k = Test f.(bitmap) k) ->
  f'.(bitmap).(size_) = f.(bitmap).(size_) -> f'.(bitmap).(count_) = f.(bitmap).(count_) ->
  file_inv w i f'.
Proof.
  intros [H1 H2 H3 H4 [H5 H5'] H6 H7 H8 H9 H10 H11 H12] E1 E2 E3 E4 E5 E6 E7 E8 E9 Hfr Hwf HT Hs Hc.
  split; rewrite ?E1, ?E2, ?E3, ?E4, ?E5, ?E6, ?E7, ?E9, ?Hs; try done.
  - intros Hh Hv b Hb Ht. rewrite HT in Ht. by apply H8.
  - intros Hco Hv. unfold Complete. rewrite Hc, Hs. by apply H9.
  - intros wr Hwr. destruct E8 as [E8|E8]; rewrite E8 in Hwr; [by apply H10|done].
Qed.

Lemma rx_inv_emit e r : rx_inv r -> rx_inv (emit e r).
Proof. intros H. by eapply rx_inv_ext; [..|exact H]. Qed.

Lemma rx_inv_Fail code msg r : rx_inv r -> rx_inv (Fail_ code msg r).
Proof.
  intros H. unfold Fail_. case_if; [done|]. apply rx_inv_emit. by eapply rx_inv_ext; [..|exact H].
Qed.

Lemma rx_inv_SendSack i now r : rx_inv r -> rx_inv (SendSack i now r).
Proof.
  intros Hr. unfold SendSack. destruct (file_at r i) as [f|] eqn:Ef; [|done].
  pose proof (file_at_inv r i f Hr Ef) as Hfi. pose proof (fi_bitmap _ _ _ Hfi) as [Hwf Hsz].
  pose proof (blocks_bound _ (fi_size _ _ _ Hfi)) as [Hb _].
  pose proof (AckBase_spec _ Hwf) as HA. destruct (AckBase (bitmap f)) as [base b].
  destruct HA as (Hbase & _ & _ & Hwfb & HTb & Hsb & Hcb).
  assert (HH : forall b2, b2 = b \/ b2 = (Holes b base kSackMaxRuns).2 ->
    wf_bitmap b2 /\ (forall k, Test b2 k = Test (bitmap f) k) /\ size_ b2 = size_ (bitmap f) /\ count_ b2 = count_ (bitmap f)).
  { intros b2 [->| ->]; [done|].
    pose proof (Holes_spec b base kSackMaxRuns Hwfb ltac:(rewrite Hsb, Hsz, (fi_blocks _ _ _ Hfi); lia)
      ltac:(lia) ltac:(done)) as (_ & H1 & H2 & H3 & H4).
    split; [done|]. split; [intros k; by rewrite H2|]. by rewrite H3, H4. }
  set (fl := if Complete b then Z.lor 0 kSackFlagComplete else 0).
  assert (Hfin : forall holes b2, b2 = b \/ b2 = (Holes b base kSackMaxRuns).2 ->
    (if negb (Z.testbit fl 0) then Holes b base kSackMaxRuns else ([], b)) = (holes, b2) -> True) by done.
  destruct (if negb (Z.testbit fl 0) then Holes b base kSackMaxRuns else ([], b)) as [holes b2] eqn:Eh.
  assert (Hb2 : b2 = b \/ b2 = (Holes b base kSackMaxRuns).2).
  { destruct (negb (Z.testbit fl 0)); [right; by rewrite Eh|left; by injection Eh]. }
  destruct (HH b2 Hb2) as (W & T & S1 & C1).
  apply rx_inv_emit. eapply rx_inv_ext; [..|eapply (rx_inv_set r i f); [exact Hr|exact Ef| | |]]; try done.
  eapply file_inv_same; [exact Hfi|..]; cbn; try done; [by left|]. apply (fi_front _ _ _ Hfi).
Qed.

(** The content of a complete part file of an honest sender. *)
Lemma complete_content w i f : file_inv w i f -> f.(complete) = true -> f.(verified) = false -> honest ->
  0 < f.(f_blocks) -> w.(w_files) !! f.(part_path) = Some (src i).
Proof.
  intros Hf Hc Hv Hh Hb. destruct (fi_part _ _ _ Hf Hv Hb) as [[c Hs] Hl].
  assert (Hct : content_of w (part_path f) = c) by (unfold content_of; by rewrite Hs).
  rewrite Hs. f_equal. rewrite Hct in Hl. pose proof (blocks_bound _ (fi_size _ _ _ Hf)) as (Hbb & _ & Hbs).
  pose proof (fi_blocks _ _ _ Hf) as Hfb. destruct (fi_bitmap _ _ _ Hf) as [Hwf Hsz].
  apply (blocks_determine c (src i) (f_blocks f)).
  - by rewrite Hl, (fi_src _ _ _ Hf Hh).
  - rewrite Hl, Hfb. lia.
  - intros b Hbr. pose proof (fi_data _ _ _ Hf Hh Hv b ltac:(lia)) as Hd. unfold kBlockPayloadSize in Hd.
    rewrite Hct in Hd. apply Hd, Complete_all; [done|by apply (fi_complete _ _ _ Hf)|lia].
Qed.

Lemma rx_inv_MaybeVerify sv i r : rx_inv r -> rx_inv (MaybeVerify sha sv i r).
Proof.
  intros Hr. unfold MaybeVerify. destruct (file_at r i) as [f|] eqn:Ef; [|done].
  destruct (verified f || verifying f || negb (complete f) || (zlen (expected_sha256 f) =? 0)) eqn:E; [done|].
  apply orb_false_iff in E as [E Ene]. apply orb_false_iff in E as [E Eco].
  apply orb_false_iff in E as [Ev _]. apply negb_false_iff in Eco. apply Z.eqb_neq in Ene.
  pose proof (file_at_inv r i f Hr Ef) as Hfi. set (k := Z.of_nat (Z.to_nat i)) in *.
  destruct (paths_distinct _ _ f _ f (ri_paths _ Hr) Ef Ef) as [Hne _].
  set (f1 := f <| verifying := true |> <| writer := None |>).
  assert (Hf1 : file_inv (world_ r) k f1).
  { eapply file_inv_same; [exact Hfi|..]; try done; [by right|apply (fi_front _ _ _ Hfi)|apply (fi_bitmap _ _ _ Hfi)]. }
  (* the digest and what computing it changes *)
  set (dig := if f_blocks f1 =? 0 then _ else _).
  assert (Hdig : (forall q, q <> part_path f -> w_files dig.2 !! q = w_files (world_ r) !! q) /\
    (0 < f_blocks f -> w_files dig.2 = w_files (world_ r)) /\
    forall h, dig.1 = Some h -> exists c, w_files dig.2 !! part_path f = Some c /\ h = Sha256Hex sha c /\
      (honest -> c = src k)).
  { unfold dig. cbn [f_blocks part_path f1 upd_field]. destruct (Z.eqb_spec (f_blocks f) 0) as [H0|H0].
    - pose proof (CreateEmptyFile_result (part_path f) (world_ r)) as HC.
      destruct (CreateEmptyFile (part_path f) (world_ r)) as [ok w]. destruct HC as [HC1 HC2]. cbn [fst snd].
      split; [done|]. split; [lia|]. intros h Hh. destruct ok; [|done]. injection Hh as <-.
      exists []. split; [done|]. split; [done|]. intros Hho. symmetry. apply zlen_nil_inv.
      rewrite (fi_src _ _ _ Hfi Hho). apply (blocks_bound _ (fi_size _ _ _ Hfi)). by rewrite <- (fi_blocks _ _ _ Hfi).
    - pose proof (Sha256File_files sha (part_path f) (cancelled sv) (world_ r)) as HF.
      pose proof (Sha256File_sound sha (part_path f) (cancelled sv) (world_ r)) as HS.
      destruct (Sha256File sha (part_path f) (cancelled sv) (world_ r)) as [hx w]. cbn [fst snd] in *.
      split; [by rewrite HF|]. split; [done|]. intros h ->. destruct (HS h eq_refl) as (c & Hc & ->).
      exists c. rewrite HF. split; [done|]. split; [done|]. intros Hho.
      pose proof (blocks_bound _ (fi_size _ _ _ Hfi)) as [Hbb _]. rewrite <- (fi_blocks _ _ _ Hfi) in Hbb.
      rewrite (complete_content _ _ _ Hfi Eco Ev Hho ltac:(lia)) in Hc. by injection Hc. }
  destruct dig as [hex w1]. cbn [fst snd] in Hdig. destruct Hdig as (Hw1 & Hw1' & Hhex).
  (* a file record that keeps the blocks, in the new world *)
  assert (Hframe : forall g, file_inv (world_ r) k g -> part_path g = part_path f -> final_path g = final_path f ->
    f_blocks g = f_blocks f -> verified g = false ->
    (f_blocks f = 0 -> forall b, 0 <= b -> Test (bitmap g) b = false) -> file_inv w1 k g).
  { intros g Hg Hp Hfp Hbl Hvg H0. destruct (decide (0 < f_blocks f)) as [Hpos|Hz].
    - apply (file_inv_frame (world_ r)); rewrite ?Hw1'; done.
    - destruct Hg. split; try done.
      + intros _ Hx. exfalso. lia.
      + intros _ _ b Hb Ht. rewrite H0 in Ht; [done| |done].
        pose proof (blocks_bound _ (fi_size _ _ _ Hfi)) as [Hbb _]. rewrite <- (fi_blocks _ _ _ Hfi) in Hbb. lia.
      + rewrite Hvg. done. }
  assert (Hnil : f_blocks f = 0 -> forall b, 0 <= b -> Test (bitmap f) b = false).
  { intros H0 b Hb. destruct (fi_bitmap _ _ _ Hfi) as [_ Hs]. apply Test_out. lia. }
  assert (Hupd : forall g (r' : Receiver), rx_ r' = rx_ r -> queue_ r' = queue_ r -> pending_done_ r' = pending_done_ r ->
    (forall q, q <> part_path f -> q <> final_path f -> w_files (world_ r') !! q = w_files (world_ r) !! q) ->
    part_path g = part_path f -> final_path g = final_path f -> file_inv (world_ r') k g -> rx_inv (set_file i g r')).
  { intros g r' H1 H2 H3 H4 H5 H6 H7. eapply rx_inv_ext; [..|eapply (rx_inv_update r i f g (world_ r'))]; try done.
    - cbn. by rewrite H1. }
  destruct (stopped sv).
  { apply Hupd; try done; [intros; by apply Hw1|]. apply Hframe; try done.
    eapply file_inv_same; [exact Hfi|..]; try done; [by right|apply (fi_front _ _ _ Hfi)|apply (fi_bitmap _ _ _ Hfi)]. }
  destruct hex as [hex|].
  2:{ apply rx_inv_Fail, Hupd; try done; [intros; by apply Hw1|]. by apply Hframe. }
  destruct (Hhex hex eq_refl) as (c & Hc & -> & Hcs). clear Hhex.
  case_bool_decide as Hh; cbn [negb].
  - (* verified: renamed into place *)
    pose proof (RenameReplace_result (part_path f) (final_path f) w1 Hne) as HR.
    change (part_path f1) with (part_path f). change (final_path f1) with (final_path f). cbn [world_ upd_field].
    destruct (RenameReplace (part_path f) (final_path f) w1) as [ok w2]. destruct HR as [HR1 HR2].
    destruct ok; cbn [negb].
    + destruct HR2 as (c' & Hc' & Hfin). rewrite Hc in Hc'. injection Hc' as <-.
      apply rx_inv_emit, Hupd; try done; [intros q Hq1 Hq2; cbn; by rewrite HR1, Hw1 by done|].
      destruct Hf1 as [G1 G2 G3 G4 G5 G6 G7 G8 G9 G10 G11 G12]. split; try done.
      intros _. exists c. split; [exact Hfin|]. split; [|done]. rewrite Hh.
      change (announced k (expected_sha256 f)). destruct (fi_hash _ _ _ Hfi) as [Hx|Hx]; [|done]. by rewrite Hx in Ene.
    + apply rx_inv_Fail, Hupd; try done; [intros q Hq1 Hq2; cbn; by rewrite HR2, Hw1 by done|].
      apply (file_inv_frame w1); cbn; [by rewrite HR2|by rewrite HR2|]. by apply Hframe.
  - (* mismatch: start over *)
    assert (Hbm : 0 <= f_blocks f < 2 ^ 32).
    { pose proof (blocks_bound _ (fi_size _ _ _ Hfi)) as [Hbb _]. rewrite <- (fi_blocks _ _ _ Hfi) in Hbb.
      unfold max_blocks in Hbb. lia. }
    assert (Hg : forall wr, (forall x, wr = Some x -> fp_ x = None \/ fp_ x = Some (part_path f)) ->
      file_inv (world_ r) k (f1 <| bitmap := Reset (f_blocks f1) |> <| complete := false |> <| verifying := false |>
        <| f_frontier := 0 |> <| complete_sacks_sent := 0 |> <| writer := wr |>)).
    { intros wr Hwr. destruct Hf1 as [G1 G2 G3 G4 G5 G6 G7 G8 G9 G10 G11 G12]. split; try done; cbn.
      - split; [by apply wf_Reset|done].
      - intros _ _ b Hb Ht. by rewrite Test_Reset in Ht. }
    change (f_blocks f1) with (f_blocks f) in *. change (part_path f1) with (part_path f). cbn [world_ upd_field].
    destruct (Z.gtb_spec (f_blocks f) 0) as [Hpos|Hz].
    + pose proof (FileWriter_Open_result (part_path f) w1) as HO.
      destruct (FileWriter_Open (part_path f) w1) as [[ok wr] w2]. destruct HO as (HO1 & _ & HO3 & HO4 & HO5).
      apply rx_inv_emit, Hupd; try done; [intros q Hq1 Hq2; cbn; by rewrite HO3, Hw1 by done|].
      apply (file_inv_frame w1); cbn; [by apply HO4; rewrite Hc|by apply HO3|].
      apply Hframe; try done; [apply Hg; by intros x [= <-]|]. intros _ b _. apply Test_Reset.
    + apply rx_inv_emit, Hupd; try done; [intros q Hq1 Hq2; cbn; by rewrite Hw1 by done|].
      apply Hframe; try done; [by apply Hg|]. intros _ b _. apply Test_Reset.
Qed.

(** *** Batches *)

(** A run survives a change of the receiver that keeps its file's blocks and status. *)
Lemma run_inv_keep r r' b : run_inv r b ->
  (forall i f, file_at r i = Some f -> exists f', file_at r' i = Some f' /\ f'.(verified) = f.(verified) /\
     f'.(f_blocks) = f.(f_blocks) /\ f'.(f_size) = f.(f_size) /\ f'.(bitmap) = f.(bitmap)) -> run_inv r' b.
Proof.
  unfold run_inv. destruct (run_file b) as [i|]; [|done].
  intros (f & n & H1 & H2 & H3 & H4 & H5 & H6 & H7 & H8 & H9 & H10) Hk.
  destruct (Hk i f H2) as (f' & K1 & K2 & K3 & K4 & K5). exists f', n.
  rewrite K2, K3, K4, K5. repeat split; try done.
Qed.

Lemma AcceptBlock_inv p r : rx_inv r -> pending_ok p ->
  rx_inv (AcceptBlock p r).2 /\
  (forall b, run_inv r b -> run_inv (AcceptBlock p r).2 b) /\
  ((AcceptBlock p r).1 = true -> exists f, file_at (AcceptBlock p r).2 p.(p_file) = Some f /\
     f.(verified) = false /\ p.(p_block) < f.(f_blocks) /\
     p.(p_len) = BlockLenFor f.(f_size) p.(p_block) /\ Test f.(bitmap) p.(p_block) = false).
Proof.
  intros Hr (Hpf & Hpb & _). unfold AcceptBlock. destruct (file_at r (p_file p)) as [f|] eqn:Ef; [|done].
  destruct (verified f || (f_blocks f =? 0) || (p_block p >=? f_blocks f)) eqn:E; [done|].
  destruct (negb (p_len p =? BlockLenFor (f_size f) (p_block p))) eqn:El; [done|].
  apply orb_false_iff in E as [E E2]. apply orb_false_iff in E as [Ev _]. apply negb_false_iff in El. zbool.
  pose proof (file_at_inv r _ f Hr Ef) as Hfi.
  set (f' := if p_block p >=? f_frontier f then _ else _).
  assert (Hf' : f'.(f_index) = f.(f_index) /\ f'.(f_size) = f.(f_size) /\ f'.(f_blocks) = f.(f_blocks) /\
    f'.(part_path) = f.(part_path) /\ f'.(final_path) = f.(final_path) /\ f'.(verified) = f.(verified) /\
    f'.(complete) = f.(complete) /\ f'.(writer) = f.(writer) /\ f'.(expected_sha256) = f.(expected_sha256) /\
    f'.(bitmap) = f.(bitmap) /\ 0 <= f'.(f_frontier) < 2 ^ 32).
  { unfold f'. destruct (p_block p >=? f_frontier f); do 10 (split; [done|]);
      [apply u32_range|exact (fi_front _ _ _ Hfi)]. }
  clearbody f'. destruct Hf' as (F1 & F2 & F3 & F4 & F5 & F6 & F7 & F8 & F9 & F10 & F11).
  set (r1 := set_file (p_file p) f' (r <| current_file_ := f_index f |>)).
  assert (Hr1 : rx_inv r1).
  { eapply rx_inv_ext; [..|apply (rx_inv_set r (p_file p) f f' Hr Ef F4 F5)]; try done.
    eapply file_inv_same; [exact Hfi|..]; rewrite ?F10; try done; [by left|apply (fi_bitmap _ _ _ Hfi)]. }
  assert (Hrun : forall b, run_inv r b -> run_inv r1 b).
  { intros b Hb. eapply run_inv_keep; [exact Hb|]. intros i g Hi.
    destruct (decide (Z.to_nat (p_file p) = Z.to_nat i)) as [He|He].
    - exists f'. unfold r1. unfold file_at in *. cbn. rewrite He in *. rewrite Ef in Hi. injection Hi as <-.
      split; [apply list_lookup_insert_eq; by eapply lookup_lt_Some|]. done.
    - exists g. split; [|done]. unfold r1. unfold file_at in *. cbn. by rewrite list_lookup_insert_ne. }
  assert (Hat : file_at r1 (p_file p) = Some f') by (eapply (file_at_set _ f' (r <| current_file_ := f_index f |>) f); exact Ef).
  destruct (negb (Test (bitmap f) (p_block p))) eqn:Et; cbn [fst snd].
  - split; [done|]. split; [done|]. intros _. exists f'. split; [done|]. rewrite F2, F3, F6, F10.
    apply negb_true_iff in Et. repeat split; (done || lia).
  - split; [by eapply rx_inv_ext; [..|exact Hr1]|]. split; [|done].
    intros b Hb. eapply run_inv_keep; [apply Hrun, Hb|]. intros i g Hi. exists g. by split.
Qed.

Lemma rx_inv_FlushRun sv i b now r : rx_inv r -> run_inv r b -> b.(run_file) = Some i ->
  rx_inv (FlushRun sha sv i b.(run_first) b.(run_data) b.(run_blocks) now r).2.
Proof.
  intros Hr Hb Hbf. unfold run_inv in Hb. rewrite Hbf in Hb.
  destruct Hb as (f & n & Hi & Ef & Hv & Hn & Hbl & Hfst & Hbnd & Hfresh & Hlen & Hdata).
  unfold FlushRun. rewrite Ef, Hbl.
  rewrite (proj2 (Z.eqb_neq (zlen (seqZ (run_first b) n)) 0)) by (unfold zlen; rewrite length_seqZ; lia).
  pose proof (file_at_inv r i f Hr Ef) as Hfi. rewrite Z2Nat.id in Hfi by done.
  pose proof (blocks_bound _ (fi_size _ _ _ Hfi)) as (Hbb & _ & _). rewrite <- (fi_blocks _ _ _ Hfi) in Hbb.
  destruct (fi_part _ _ _ Hfi Hv ltac:(lia)) as [[c Hc] Hpl].
  set (data := run_data b) in *. set (first := run_first b) in *. unfold kBlockPayloadSize in *.
  pose proof (zlen_nonneg data) as Hdn.
  (* the world after the write *)
  set (wres := match writer f with None => (false, world_ r) | Some wr => WriteAt wr (first * 1100) data (world_ r) end).
  assert (Hw : exists k, 0 <= k <= zlen data /\
    content_of wres.2 (part_path f) = overwrite (first * 1100) (ztake k data) (content_of (world_ r) (part_path f)) /\
    (wres.1 = true -> k = zlen data) /\
    (forall q, q <> part_path f -> w_files wres.2 !! q = w_files (world_ r) !! q) /\
    is_Some (w_files wres.2 !! part_path f)).
  { unfold wres. destruct (writer f) as [wr|] eqn:Ew; [|by exists 0; repeat split; rewrite ?Hc; eauto].
    destruct (fi_writer _ _ _ Hfi wr Ew) as [Hp|Hp].
    - exists 0. unfold WriteAt. rewrite Hp. by repeat split; rewrite ?Hc; eauto.
    - destruct (WriteAt_result wr (part_path f) (first * 1100) data (world_ r) Hp ltac:(lia)) as (k & K1 & K2 & K3 & K4).
      exists k. repeat split; try done; try lia. by apply WriteAt_exists; rewrite ?Hc; eauto. }
  destruct wres as [ok w]. cbn [fst snd] in Hw. destruct Hw as (k & Hk & Hct & Hok & Hfr & Hex).
  assert (Hlenk : zlen (ztake k data) <= zlen data) by (rewrite zlen_ztake; lia).
  assert (Hwl : zlen (content_of w (part_path f)) = f_size f).
  { rewrite Hct, zlen_overwrite_in; lia. }
  (* blocks already received keep their bytes *)
  assert (Hold : honest -> forall b, 0 <= b -> Test (bitmap f) b = true ->
    slice (b * 1100) 1100 (content_of w (part_path f)) = slice (b * 1100) 1100 (src i)).
  { intros Hh b' Hb' Ht. rewrite Hct, slice_overwrite_in; try lia.
    - by apply (fi_data _ _ _ Hfi Hh Hv).
    - destruct (decide (first <= b' < first + n)) as [Hin|Hout]; [by rewrite (Hfresh b' Hin) in Ht|]. lia. }
  destruct ok; cbn [negb snd].
  2:{ apply rx_inv_Fail. eapply rx_inv_ext; [..|eapply (rx_inv_update r i f f w Hr Ef eq_refl eq_refl)].
      - cbn. symmetry. by apply list_insert_id.
      - done.
      - done.
      - done.
      - intros q Hq _. by apply Hfr.
      - rewrite Z2Nat.id by done.
        destruct (paths_distinct _ _ f _ f (ri_paths _ Hr) Ef Ef) as [Hne _].
        destruct Hfi as [G1 G2 G3 G4 G5 G6 G7 G8 G9 G10 G11 G12]. split; try done; [intros Hh _; by apply Hold|by rewrite Hv]. }
  rewrite Hok in Hct by done. rewrite ztake_all in Hct by lia.
  destruct (fi_bitmap _ _ _ Hfi) as [Hwf Hsz].
  set (f1 := f <| bitmap := set_blocks (bitmap f) (seqZ first n) |> <| complete ::= _ |> <| received_since_sack ::= _ |>).
  assert (HS : forall k, 0 <= k -> wf_bitmap (set_blocks (bitmap f) (seqZ first n)) /\
    size_ (set_blocks (bitmap f) (seqZ first n)) = f_blocks f /\
    Test (set_blocks (bitmap f) (seqZ first n)) k = Test (bitmap f) k || ((first <=? k) && (k <? first + n))).
  { intros k' Hk'. destruct (set_blocks_spec (bitmap f) first n k' Hwf Hfst ltac:(lia) Hk') as (S1 & S2 & S3).
    split; [done|]. split; [by rewrite S2|]. rewrite S3, Hsz.
    destruct (Z.leb_spec first k'), (Z.ltb_spec k' (first + n)), (Z.ltb_spec k' (f_blocks f)); try done; lia. }
  assert (Hf1 : file_inv w i f1).
  { destruct (HS 0 ltac:(lia)) as (S1 & S2 & _). destruct Hfi as [G1 G2 G3 G4 G5 G6 G7 G8 G9 G10 G11 G12].
    split; try done.
    - intros Hh _ b' Hb' Ht. change (bitmap f1) with (set_blocks (bitmap f) (seqZ first n)) in Ht.
      change (part_path f1) with (part_path f). destruct (HS b' Hb') as (_ & _ & S3). rewrite S3 in Ht.
      apply orb_true_iff in Ht as [Ht|Ht]; [by apply Hold|]. zbool. unfold kBlockPayloadSize.
      rewrite Hct. apply (run_block_slices _ _ _ first n (f_size f)); try done; try lia; [by apply G3|by apply Hdata].
    - intros Hco _. change (Complete (set_blocks (bitmap f) (seqZ first n)) = true).
      cbn in Hco. apply orb_true_iff in Hco as [Hco|Hco]; [|done].
      (* already complete: nothing was fresh *)
      exfalso. pose proof (Complete_all _ first Hwf (G9 Hco Hv) ltac:(lia)) as Ht.
      rewrite (Hfresh first) in Ht by lia. done.
    - intros Hx. change (verified f1) with (verified f) in Hx. by rewrite Hv in Hx. }
  match goal with |- rx_inv (if _ then MaybeVerify sha _ i (SendSack i now ?x) else _) => set (r2 := x) end.
  assert (Hr2 : rx_inv r2).
  { eapply rx_inv_ext; [..|eapply (rx_inv_update r i f f1 w Hr Ef eq_refl eq_refl)]; try done.
    - intros q Hq _. by apply Hfr.
    - by rewrite Z2Nat.id. }
  destruct (complete f1); [|done]. by apply rx_inv_MaybeVerify, rx_inv_SendSack.
Qed.

Lemma flush_inv sv b now r : rx_inv r -> run_inv r b ->
  rx_inv (flush sha sv b now r).2 /\ (flush sha sv b now r).1.2.(run_file) = None /\
  (flush sha sv b now r).1.2.(run_data) = [] /\ (flush sha sv b now r).1.2.(run_blocks) = [].
Proof.
  intros Hr Hb. unfold flush. destruct (run_file b) as [i|] eqn:E.
  - pose proof (rx_inv_FlushRun sv i b now r Hr Hb E) as H.
    by destruct (FlushRun sha sv i (run_first b) (run_data b) (run_blocks b) now r).
  - unfold run_inv in Hb. rewrite E in Hb. by destruct Hb.
Qed.

Lemma run_inv_empty r b : b.(run_file) = None -> b.(run_data) = [] -> b.(run_blocks) = [] -> run_inv r b.
Proof. intros H1 H2 H3. unfold run_inv. by rewrite H1. Qed.

(** A fresh block extends the run it follows, or starts one. *)
Lemma run_inv_start r p f b : pending_ok p -> file_inv r.(world_) p.(p_file) f ->
  file_at r p.(p_file) = Some f -> f.(verified) = false ->
  p.(p_block) < f.(f_blocks) -> p.(p_len) = BlockLenFor f.(f_size) p.(p_block) -> Test f.(bitmap) p.(p_block) = false ->
  b.(run_data) = [] -> b.(run_blocks) = [] ->
  run_inv r (mkRun (Some p.(p_file)) p.(p_block) (b.(run_data) ++ p.(p_payload)) (b.(run_blocks) ++ [p.(p_block)])).
Proof.
  intros (Hpf & Hpb & Hpl & Hpay) Hfi Hat Hv Hb Hl Ht -> ->. unfold run_inv. cbn [run_file run_first run_data run_blocks app].
  pose proof (fi_size _ _ _ Hfi) as Hsz. pose proof (blocks_bound _ Hsz) as (Hbb & _ & Hbs).
  rewrite <- (fi_blocks _ _ _ Hfi) in *. unfold max_blocks in *.
  rewrite BlockLenFor_spec in Hl by (apply max_size in Hsz; lia).
  exists f, 1. repeat split; try done; try lia.
  - intros k Hk. replace k with (p_block p) by lia. done.
  - unfold kBlockPayloadSize. lia.
  - intros Hh. rewrite Hpl. by apply Hpay.
Qed.

Lemma run_inv_extend r p f b : pending_ok p -> file_inv r.(world_) p.(p_file) f ->
  file_at r p.(p_file) = Some f ->
  p.(p_block) < f.(f_blocks) -> p.(p_len) = BlockLenFor f.(f_size) p.(p_block) -> Test f.(bitmap) p.(p_block) = false ->
  run_inv r b -> contiguous b p = true ->
  run_inv r (mkRun b.(run_file) b.(run_first) (b.(run_data) ++ p.(p_payload)) (b.(run_blocks) ++ [p.(p_block)])).
Proof.
  intros (Hpf & Hpb & Hpl & Hpay) Hfi Hat Hb Hl Ht Hrun Hc. unfold contiguous in Hc.
  apply andb_true_iff in Hc as [Hc1 Hc2]. apply bool_decide_eq_true in Hc1. unfold run_inv in *.
  rewrite Hc1 in *. cbn [run_file run_first run_data run_blocks].
  destruct Hrun as (f' & n & H1 & H2 & H3 & H4 & H5 & H6 & H7 & H8 & H9 & H10).
  rewrite Hat in H2. injection H2 as <-. rewrite H5, last_seqZ in Hc2 by done. zbool.
  pose proof (fi_size _ _ _ Hfi) as Hsz. pose proof (blocks_bound _ Hsz) as (Hbb & _ & Hbs).
  rewrite <- (fi_blocks _ _ _ Hfi) in *. unfold max_blocks in *.
  assert (Hpn : p_block p = run_first b + n).
  { rewrite H. replace (run_first b + n - 1 + 1) with (run_first b + n) by lia. apply u32_small. unfold in_u32. lia. }
  assert (Hzb : zlen (seqZ (run_first b) n) = n) by (unfold zlen; rewrite length_seqZ; lia).
  rewrite BlockLenFor_spec in Hl by (apply max_size in Hsz; lia). unfold kBlockPayloadSize in *.
  exists f, (n + 1). rewrite H5, Hpn, seqZ_snoc, zlen_app by lia. rewrite Hzb in H0.
  repeat split; try done; try lia.
  - intros k Hk. destruct (decide (k = run_first b + n)) as [->|]; [by rewrite <- Hpn|]. apply H8. lia.
  - intros Hh. rewrite slice_split by (pose proof (zlen_nonneg (run_data b)); pose proof (zlen_nonneg (p_payload p)); lia).
    f_equal; [by apply H10|]. rewrite Hpay at 1 by done. rewrite Hpl. f_equal. lia.
Qed.

Lemma batch_loop_inv sv batch b now r : rx_inv r -> run_inv r b -> Forall pending_ok batch ->
  rx_inv (batch_loop sha sv batch b now r).
Proof.
  intros Hr Hb Hq. revert b r Hr Hb. induction Hq as [|p batch Hp Hq IH]; intros b r Hr Hb; cbn [batch_loop].
  { by apply flush_inv. }
  set (fl := if negb (contiguous b p) then flush sha sv b now r else (true, b, r)).
  assert (Hfl : rx_inv fl.2 /\ run_inv fl.2 fl.1.2 /\ (fl.1.2.(run_file) = None \/ contiguous fl.1.2 p = true)).
  { unfold fl. destruct (contiguous b p) eqn:Ec; cbn [negb]; [by split; [|split; [|right]]|].
    destruct (flush_inv sv b now r Hr Hb) as (F1 & F2 & F3 & F4). split; [done|]. split; [by apply run_inv_empty|by left]. }
  destruct fl as [[ok b1] r1]. cbn [fst snd] in Hfl. destruct Hfl as (Hr1 & Hb1 & Hc1).
  destruct ok; cbn [negb]; [|done].
  destruct (AcceptBlock_inv p r1 Hr1 Hp) as (Ha1 & Ha2 & Ha3). specialize (Ha2 b1 Hb1).
  destruct (AcceptBlock p r1) as [fresh r2]. cbn [fst snd] in *.
  destruct fresh; cbn [negb]; [|by apply IH].
  destruct (Ha3 eq_refl) as (f & Hat & Hv & Hbk & Hln & Ht).
  pose proof (file_at_inv r2 _ f Ha1 Hat) as Hfi. rewrite Z2Nat.id in Hfi by apply Hp.
  set (b2 := match run_file b1 with None => _ | Some _ => b1 end).
  assert (Hb2 : run_inv r2 (mkRun b2.(run_file) b2.(run_first) (b2.(run_data) ++ p.(p_payload)) (b2.(run_blocks) ++ [p.(p_block)]))).
  { unfold b2. destruct (run_file b1) as [i|] eqn:Ei.
    - destruct Hc1 as [Hc1|Hc1]; [done|]. by apply (run_inv_extend r2 p f).
    - unfold run_inv in Hb1. rewrite Ei in Hb1. destruct Hb1. cbn [run_file run_first run_data run_blocks].
      by apply (run_inv_start r2 p f). }
  set (b3 := mkRun b2.(run_file) b2.(run_first) (b2.(run_data) ++ p.(p_payload)) (b2.(run_blocks) ++ [p.(p_block)])) in *.
  clearbody b3.
  destruct (zlen (run_data b3) >=? 2 ^ 20).
  - destruct (flush_inv sv b3 now r2 Ha1 Hb2) as (F1 & F2 & F3 & F4).
    destruct (flush sha sv b3 now r2) as [[ok b4] r3]. cbn [fst snd] in *.
    destruct ok; cbn [negb]; [|done]. apply IH; [done|]. by apply run_inv_empty.
  - by apply IH.
Qed.

(** *** Every event *)

Lemma rx_inv_foldl {A} (g : Receiver -> A -> Receiver) (P : A -> Prop) l r :
  (forall r x, P x -> rx_inv r -> rx_inv (g r x)) -> Forall P l -> rx_inv r -> rx_inv (foldl g r l).
Proof. intros Hg Hl. revert r. induction Hl as [|x l Hx _ IH]; intros r Hr; [done|]. cbn. by apply IH, Hg. Qed.

Lemma rx_inv_done_one sv r d : 0 <= d.1 /\ announced d.1 d.2 -> rx_inv r -> rx_inv (done_one sha sv r d).
Proof.
  intros [H0 Ha] Hr. unfold done_one. destruct (file_at r d.1) as [f|] eqn:Ef; [|done].
  apply rx_inv_MaybeVerify. apply (rx_inv_set r d.1 f); try done.
  pose proof (file_at_inv r _ f Hr Ef) as Hfi. rewrite Z2Nat.id in * by done.
  destruct Hfi as [G1 G2 G3 G4 G5 G6 G7 G8 G9 G10 G11 G12]. split; try done. by right.
Qed.

Lemma rx_inv_map (g : FileRx -> FileRx) r r' :
  (forall w i f, file_inv w i f -> file_inv w i (g f)) ->
  (forall f, part_path (g f) = part_path f /\ final_path (g f) = final_path f) ->
  rx_ r' = g <$> rx_ r -> world_ r' = world_ r -> queue_ r' = queue_ r -> pending_done_ r' = pending_done_ r ->
  rx_inv r -> rx_inv r'.
Proof.
  intros Hg Hp H1 H2 H3 H4 [P1 P2 P3 P4]. split; rewrite ?H1, ?H2, ?H3, ?H4; try done.
  - replace (paths_of (g <$> rx_ r)) with (paths_of (rx_ r)); [done|]. unfold paths_of. f_equal.
    rewrite <- list_fmap_compose. apply list_fmap_ext. intros k f _. cbn. by destruct (Hp f) as [-> ->].
  - intros k f Hk. rewrite list_lookup_fmap in Hk. destruct (rx_ r !! k) as [f0|] eqn:E; [|done].
    injection Hk as <-. by apply Hg, P2.
Qed.

Lemma rx_inv_sack_one now force r i : rx_inv r -> rx_inv (sack_one now force r i).
Proof.
  intros Hr. unfold sack_one. destruct (file_at r i) as [f|]; [|done].
  repeat case_if; try done; by apply rx_inv_SendSack.
Qed.

Lemma rx_inv_Persist force now r : rx_inv r -> rx_inv (Persist force now r).
Proof. intros Hr. unfold Persist. case_if; [done|]. apply rx_inv_emit. by eapply rx_inv_ext; [..|exact Hr]. Qed.

Lemma rx_inv_UpdateRates now r : rx_inv r -> rx_inv (UpdateRates now r).
Proof. intros Hr. unfold UpdateRates. case_if; [done|]. by eapply rx_inv_ext; [..|exact Hr]. Qed.

Lemma rx_inv_Run_iter sv now now2 now3 r : rx_inv r -> rx_inv (Run_iter sha sv now now2 now3 r).2.
Proof.
  intros Hr. unfold Run_iter. case_if; [by apply rx_inv_Persist|].
  set (r1 := HandleBatch _ _ _ _ _).
  assert (H1 : rx_inv r1).
  { apply batch_loop_inv; [|by apply run_inv_empty|apply (ri_queue _ Hr)].
    destruct Hr as [P1 P2 P3 P4]. split; try done; constructor. }
  case_if; [done|].
  set (r2 := foldl (done_one sha sv) r1 _).
  assert (H2 : rx_inv r2).
  { eapply (rx_inv_foldl _ (fun d => 0 <= d.1 /\ announced d.1 d.2)); [|apply (ri_done _ Hr)|done].
    intros; by apply rx_inv_done_one. }
  set (r3 := if initial_check_ r2 then _ else r2).
  assert (H3 : rx_inv r3).
  { unfold r3. case_if; [|done]. eapply (rx_inv_map mark_dirty r2); try done.
    - intros w i f Hf. unfold mark_dirty. case_if; [|done].
      eapply file_inv_same; [exact Hf|..]; try done; [by left|apply (fi_front _ _ _ Hf)|apply (fi_bitmap _ _ _ Hf)].
    - intros f. unfold mark_dirty. by case_if. }
  assert (H4 : rx_inv (Persist false now2 (UpdateRates now (SendSacks now false r3)))).
  { apply rx_inv_Persist, rx_inv_UpdateRates. eapply (rx_inv_foldl _ (fun _ => True)); [|by apply Forall_true|done].
    intros; by apply rx_inv_sack_one. }
  case_if; [|done]. apply rx_inv_emit. eapply rx_inv_ext; [..|apply rx_inv_Persist, H4]; done.
Qed.

Lemma zm_set_Forall {V} (P : Z * V -> Prop) k v m : Forall P m -> P (k, v) -> Forall P (zm_set k v m).
Proof.
  unfold zm_set. intros Hm Hk. induction Hm as [|[k' v'] m Hp Hm IH]; cbn; [by constructor|].
  repeat case_if; by repeat constructor.
Qed.

Lemma rx_inv_step r e : rx_inv r -> event_ok e -> rx_inv (rx_step sha r e).
Proof.
  intros Hr He. destruct e as [data dlen|index h|sv now now2 now3| |calls]; cbn [rx_step].
  - unfold OnBlock. destruct (DecodeBlock data dlen) as [[h payload]|] eqn:E; [|done].
    case_if; [done|]. case_if; [done|]. destruct Hr as [P1 P2 P3 P4]. split; try done.
    cbn. apply Forall_app. split; [done|]. constructor; [by apply He|constructor].
  - unfold OnFileDone. destruct Hr as [P1 P2 P3 P4]. split; try done. cbn. by apply zm_set_Forall.
  - case_if; [by apply rx_inv_Run_iter|done].
  - unfold Stop. eapply (rx_inv_map (fun f => f <| writer := None |>) r); try done.
    intros w i f Hf. eapply file_inv_same; [exact Hf|..]; try done; [by right|apply (fi_front _ _ _ Hf)|apply (fi_bitmap _ _ _ Hf)].
  - destruct Hr as [P1 P2 P3 P4]. split; try done. intros k f Hk.
    by apply (file_inv_frame r.(world_)); [| |apply P2].
Qed.

Lemma rx_inv_run r es : rx_inv r -> Forall event_ok es -> rx_inv (run_events (rx_step sha) r es).
Proof.
  intros Hr He. revert r Hr. induction He as [|e es He _ IH]; intros r Hr; [done|]. cbn. by apply IH, rx_inv_step.
Qed.

End invariant.

(** *** [Start] establishes the invariant *)

Definition final_of (save : bytes) (fn : gmap string string) (mf : ManifestFile) : bytes :=
  JoinSafe save (mapped fn mf.(path)).
Definition part_of (save : bytes) (fn : gmap string string) (mf : ManifestFile) : bytes :=
  final_of save fn mf ++ sbytes ".ctpart".

(** The paths of a transfer: distinct, with no part file left over from an earlier one. *)
Record paths_ok (m : Manifest) (save : bytes) (fn : gmap string string) (w : World) : Prop := {
  po_distinct : NoDup (concat ((fun mf => [part_of save fn mf; final_of save fn mf]) <$> m.(files)));
  po_fresh : Forall (fun mf => w.(w_files) !! part_of save fn mf = None) m.(files);
  po_count : zlen m.(files) <= kMaxFilesPerTransfer;
  po_sizes : Forall (fun mf => 0 <= mf.(Manifest.size) <= kBlockPayloadSize * max_blocks) m.(files);
}.

(** The sizes of the manifest are those of the source files. *)
Definition sizes_match (m : Manifest) (src : Z -> bytes) : Prop :=
  forall i mf, m.(files) !! i = Some mf -> zlen (src (Z.of_nat i)) = mf.(Manifest.size).

Section start.
Context (sha : bytes -> bytes) (honest : Prop) (src : Z -> bytes) (announced : Z -> bytes -> Prop).
Context (save : bytes) (fn : gmap string string).

Lemma start_dirs_spec ds r : let '(_, r') := start_dirs fn ds r in
  w_files r'.(world_) = w_files r.(world_) /\ r'.(save_dir_) = r.(save_dir_) /\
  r'.(queue_) = r.(queue_) /\ r'.(pending_done_) = r.(pending_done_).
Proof.
  revert r. induction ds as [|d ds IH]; intros r; cbn [start_dirs]; [done|].
  pose proof (EnsureDir_files (JoinSafe (save_dir_ r) (mapped fn d)) (world_ r)) as Hf.
  destruct (EnsureDir (JoinSafe (save_dir_ r) (mapped fn d)) (world_ r)) as [ok w]. cbn in Hf.
  destruct ok; cbn [negb]; [|done].
  match goal with |- context [start_dirs fn ds ?x] => specialize (IH x); destruct (start_dirs fn ds x) as [e r'] end.
  destruct IH as (-> & -> & -> & ->).
  destruct (exists_path (world_ r) (JoinSafe (save_dir_ r) (mapped fn d))); done.
Qed.

(** What the loop maintains: the files started so far satisfy the invariant, the paths of the
    remaining ones are distinct from theirs and unused. *)
Record starting (r : Receiver) (fs : list ManifestFile) : Prop := {
  st_save : r.(save_dir_) = save;
  st_queue : r.(queue_) = [] /\ r.(pending_done_) = [];
  st_paths : NoDup (paths_of r.(rx_) ++ concat ((fun mf => [part_of save fn mf; final_of save fn mf]) <$> fs));
  st_files : forall k f, r.(rx_) !! k = Some f -> file_inv sha honest src announced r.(world_) (Z.of_nat k) f;
  st_fresh : Forall (fun mf => r.(world_).(w_files) !! part_of save fn mf = None) fs;
  st_sizes : Forall (fun mf => 0 <= mf.(Manifest.size) <= kBlockPayloadSize * max_blocks) fs;
  st_src : honest -> forall k mf, fs !! k = Some mf -> zlen (src (zlen r.(rx_) + Z.of_nat k)) = mf.(Manifest.size);
  st_count : zlen r.(rx_) + zlen fs <= kMaxFilesPerTransfer;
}.

Lemma starting_step r mf fs f w :
  starting r (mf :: fs) -> f.(part_path) = part_of save fn mf -> f.(final_path) = final_of save fn mf ->
  (forall q, q <> part_of save fn mf -> w.(w_files) !! q = r.(world_).(w_files) !! q) ->
  file_inv sha honest src announced w (zlen r.(rx_)) f ->
  starting (r <| world_ := w |> <| rx_ ::= (fun l => l ++ [f]) |>) fs.
Proof.
  intros [S1 S2 S3 S4 S5 S6 S7 S8] Hp Hf Hw Hfi. rewrite fmap_cons in S3. cbn [concat] in S3.
  apply Forall_cons in S5 as [S5 S5']. apply Forall_cons in S6 as [S6 S6'].
  assert (Hother : forall q, q ∈ paths_of r.(rx_) \/ q ∈ concat ((fun mf => [part_of save fn mf; final_of save fn mf]) <$> fs) ->
    q <> part_of save fn mf).
  { intros q Hq ->. apply NoDup_app in S3 as (N1 & N2 & N3). destruct Hq as [Hq|Hq].
    - apply (N2 _ Hq). apply elem_of_app. left. left.
    - apply NoDup_app in N3 as (_ & N4 & _). apply (N4 (part_of save fn mf)); [left|done]. }
  split; cbn [upd_field save_dir_ queue_ pending_done_ rx_ world_]; try done.
  - unfold paths_of in *. rewrite fmap_app, concat_app. cbn [fmap list_fmap concat]. rewrite Hp, Hf, app_nil_r.
    by rewrite <- app_assoc.
  - intros k g Hk. apply lookup_app_Some in Hk as [Hk|[Hk1 Hk2]].
    + destruct (paths_elem _ _ _ Hk) as [E1 E2].
      apply (file_inv_frame sha honest src announced r.(world_)); [apply Hw, Hother; by left|apply Hw, Hother; by left|by apply S4].
    + apply list_lookup_singleton_Some in Hk2 as [Hz <-]. unfold zlen in Hfi.
      by replace (Z.of_nat k) with (Z.of_nat (length (rx_ r))) by lia.
  - rewrite Forall_forall in *. intros mf' Hin. rewrite Hw; [by apply S5'|]. apply Hother. right.
    apply list_elem_of_In, in_concat. exists [part_of save fn mf'; final_of save fn mf'].
    split; [|by left]. apply list_elem_of_In, list_elem_of_fmap. by exists mf'.
  - intros Hh k mf' Hk. rewrite zlen_app, zlen_cons, zlen_nil. rewrite <- (S7 Hh (S k) mf' Hk). f_equal. f_equal. lia.
  - rewrite zlen_app, zlen_cons, zlen_nil. rewrite zlen_cons in S8. lia.
Qed.

Lemma file_inv_new w i sz final : 0 <= sz <= kBlockPayloadSize * max_blocks -> (honest -> zlen (src i) = sz) ->
  (0 < BlockCountFor sz -> is_Some (w_files w !! (final ++ sbytes ".ctpart")) /\
     zlen (content_of w (final ++ sbytes ".ctpart")) = sz) ->
  forall wr, (forall x, wr = Some x -> fp_ x = None \/ fp_ x = Some (final ++ sbytes ".ctpart")) ->
  file_inv sha honest src announced w i (FileRx_new i sz final <| writer := wr |>) /\
  (BlockCountFor sz = 0 -> file_inv sha honest src announced w i (FileRx_new i sz final <| complete := true |>)).
Proof.
  intros Hs Hsrc Hpart wr Hwr. pose proof (blocks_bound sz Hs) as [Hb _]. unfold max_blocks in Hb.
  assert (Hw : wf_bitmap (Reset (BlockCountFor sz))) by (apply wf_Reset; lia).
  split; [|intros H0]; split; try done; cbn; try lia; try (by left); try (intros; by rewrite Test_Reset in *).
  intros _ _. unfold Complete. cbn. by rewrite H0.
Qed.

Lemma start_file_spec r mf fs :
  starting r (mf :: fs) -> forall r', start_file fn [] (zlen r.(rx_)) mf r = (None, r') ->
  starting r' fs /\ zlen r'.(rx_) = zlen r.(rx_) + 1.
Proof.
  intros Hst r' Hs. unfold start_file in Hs.
  pose proof (st_count _ _ Hst) as Hc. rewrite zlen_cons in Hc. unfold kMaxFilesPerTransfer in Hc.
  pose proof (zlen_nonneg r.(rx_)). pose proof (zlen_nonneg fs).
  rewrite u16_small in Hs by (unfold in_u16; lia). rewrite (st_save _ _ Hst) in Hs.
  pose proof (st_sizes _ _ Hst) as Hsz. apply Forall_cons in Hsz as [Hsz _].
  pose proof (st_fresh _ _ Hst) as Hfr. apply Forall_cons in Hfr as [Hfr _].
  assert (Hsrc : honest -> zlen (src (zlen r.(rx_))) = mf.(Manifest.size)).
  { intros Hh. rewrite <- (st_src _ _ Hst Hh 0%nat mf eq_refl). f_equal. f_equal. lia. }
  fold (final_of save fn mf) in Hs. cbn [resume_by_index foldl f_index FileRx_new] in Hs.
  pose proof (EnsureDir_files (parent_path (final_of save fn mf)) (world_ r)) as Hd.
  change (final_path (FileRx_new (zlen (rx_ r)) (Manifest.size mf) (final_of save fn mf))) with (final_of save fn mf) in Hs.
  destruct (EnsureDir (parent_path (final_of save fn mf)) (world_ r)) as [ok w1]. cbn [snd] in Hd.
  destruct ok; cbn [negb] in Hs; [|done].
  change (f_blocks (FileRx_new (zlen (rx_ r)) (Manifest.size mf) (final_of save fn mf))) with (BlockCountFor (Manifest.size mf)) in Hs.
  destruct (Z.eqb_spec (BlockCountFor (Manifest.size mf)) 0) as [Hz|Hz].
  { injection Hs as <-. split; [|cbn; by rewrite zlen_app].
    apply (starting_step r mf fs _ w1 Hst); try done; [intros; by rewrite Hd|].
    apply (file_inv_new w1 _ _ (final_of save fn mf) Hsz Hsrc) with (wr := None); [lia|done|done]. }
  pose proof (FileWriter_Open_result (part_of save fn mf) w1) as HO.
  change (part_path (FileRx_new (zlen (rx_ r)) (Manifest.size mf) (final_of save fn mf))) with (part_of save fn mf) in Hs.
  cbn [world_ upd_field] in Hs.
  destruct (FileWriter_Open (part_of save fn mf) w1) as [[ok wr] w2]. destruct HO as (HO1 & HO2 & HO3 & _ & HO5).
  destruct ok; cbn [negb] in Hs; [|done]. destruct (HO2 eq_refl) as [Hfp Hex].
  cbn [world_ upd_field] in Hs.
  pose proof (EnsureSize_result wr (part_of save fn mf) (Manifest.size mf) w2 Hfp Hex) as HE.
  change (f_size (FileRx_new (zlen (rx_ r)) (Manifest.size mf) (final_of save fn mf))) with (Manifest.size mf) in Hs.
  destruct (EnsureSize wr (Manifest.size mf) w2) as [ok w3]. destruct HE as (HE1 & HE2 & HE3).
  destruct ok; cbn [negb] in Hs; [|done]. specialize (HE3 eq_refl). injection Hs as <-.
  split; [|cbn; by rewrite zlen_app].
  apply (starting_step r mf fs _ w3 Hst); try done.
  - intros q Hq. by rewrite HE1, HO3, Hd.
  - apply (file_inv_new w3 _ _ (final_of save fn mf) Hsz Hsrc).
    + intros _. split; [done|]. fold (part_of save fn mf). rewrite HE3, HO5.
      unfold content_of. rewrite Hd, Hfr. cbn. rewrite zlen_replicate, zlen_nil. lia.
    + intros x [= <-]. by right.
Qed.

Lemma start_files_spec fs r : starting r fs -> forall r', start_files fn [] (zlen r.(rx_)) fs r = (None, r') -> starting r' [].
Proof.
  revert r. induction fs as [|mf fs IH]; intros r Hst r'; cbn [start_files]; [by intros [= <-]|].
  destruct (start_file fn [] (zlen (rx_ r)) mf r) as [[e|] r1] eqn:E; [done|].
  destruct (start_file_spec r mf fs Hst r1 E) as [Hst1 Hl]. rewrite <- Hl. by apply IH.
Qed.

Lemma Start_inv m w r : paths_ok m save fn w -> (honest -> sizes_match m src) ->
  Start m save fn [] (ReceiverTransfer_new w) = (None, r) -> rx_inv sha honest src announced r.
Proof.
  intros [P1 P2 P3 P4] Hsm Hs. unfold Start in Hs. cbn [joinable_ ReceiverTransfer_new] in Hs.
  cbn [world_ upd_field ReceiverTransfer_new] in Hs. pose proof (EnsureDir_files save w) as Hd.
  destruct (EnsureDir save w) as [ok w1]. cbn [snd] in Hd. destruct ok; cbn [negb] in Hs; [|done].
  match type of Hs with context [start_dirs fn ?ds ?x] =>
    pose proof (start_dirs_spec ds x) as HD; destruct (start_dirs fn ds x) as [[e|] r1] end; [done|].
  destruct HD as (D1 & D2 & D3 & D4).
  assert (Hst : starting (r1 <| rx_ := [] |>) (files m)).
  { split; cbn; try done.
    - eapply Forall_impl; [exact P2|]. intros mf Hmf. cbn. rewrite D1. cbn. by rewrite Hd. }
  change 0 with (zlen (rx_ (r1 <| rx_ := [] |>))) in Hs.
  destruct (start_files fn [] (zlen (rx_ (r1 <| rx_ := [] |>))) (files m) (r1 <| rx_ := [] |>)) as [[e|] r2] eqn:E; [done|].
  apply start_files_spec in E; [|done]. injection Hs as <-. destruct E as [S1 [S2 S2'] S3 S4 _ _ _ _].
  cbn [fmap list_fmap concat] in S3. rewrite app_nil_r in S3.
  split; cbn; rewrite ?S2, ?S2'; try done.
Qed.

End start.

(** *** What a SACK says *)

(** Runs in ascending order, apart from each other. *)
Definition runs_sorted : list SackRun -> Prop := StronglySorted (fun a b => a.(start) + a.(length_) <= b.(start)).

Lemma ref_runs_sorted P i n : runs_sorted (ref_runs P i n) /\ Forall (fun r => i <= r.(start) /\ 1 <= r.(length_)) (ref_runs P i n).
Proof.
  split; [|apply ref_runs_pos]. revert i. induction n as [|n IH]; intros i; cbn [ref_runs]; [constructor|].
  specialize (IH (i + 1)). pose proof (ref_runs_pos P (i + 1) n) as Hp. destruct (P i); [|done].
  destruct (ref_runs P (i + 1) n) as [|r rs]; [by repeat constructor|].
  apply StronglySorted_inv in IH as [IH1 IH2]. apply Forall_cons in Hp as [[Hr1 Hr2] Hp].
  destruct (Z.eqb_spec (start r) (i + 1)) as [He|He].
  - constructor; [done|]. eapply Forall_impl; [exact IH2|]. intros x Hx. cbn in *. lia.
  - constructor; [by constructor|]. constructor; cbn; [lia|].
    eapply Forall_impl; [exact Hp|]. intros x [Hx _]. cbn. lia.
Qed.

Lemma runs_sorted_take n rs : runs_sorted rs -> runs_sorted (take n rs).
Proof.
  intros H. revert n. induction H as [|r rs Hs IH Hf]; intros [|n]; cbn; try by constructor.
  constructor; [apply IH|]. by apply Forall_take.
Qed.

Lemma runs_sorted_snoc rs r : runs_sorted (rs ++ [r]) -> runs_sorted rs /\
  Forall (fun a => a.(start) + a.(length_) <= r.(start)) rs.
Proof.
  induction rs as [|a rs IH]; cbn; [split; constructor|]. intros H. apply StronglySorted_inv in H as [H1 H2].
  destruct (IH H1) as [K1 K2]. apply Forall_app in H2 as [H2 H3]. apply Forall_cons in H3 as [H3 _].
  split; by constructor.
Qed.

Lemma covered_app k rs qs : covered k (rs ++ qs) <-> covered k rs \/ covered k qs.
Proof. unfold covered. apply Exists_app. Qed.

(** Cutting at the frontier keeps exactly the positions below it. *)
Lemma cut_holes_covered fr rs : runs_sorted rs ->
  Forall (fun r => wf_run r /\ r.(start) + r.(length_) < 2 ^ 32) rs ->
  forall k, covered k (reverse (cut_holes fr (reverse rs))) <-> covered k rs /\ k < fr.
Proof.
  induction rs as [|r rs IH] using rev_ind; intros Hs Hw k.
  { cbn. split; [intros H; inversion H|intros [H _]; inversion H]. }
  apply runs_sorted_snoc in Hs as [Hs Hb]. apply Forall_app in Hw as [Hw Hr]. apply Forall_cons in Hr as [[Hr Hr'] _].
  unfold wf_run, in_u32 in Hr. rewrite reverse_snoc. cbn [cut_holes].
  assert (Hbelow : covered k rs -> k < start r).
  { intros Hc. unfold covered in Hc. apply Exists_exists in Hc as (x & Hx & Hin). unfold in_run in Hin.
    rewrite Forall_forall in Hb. specialize (Hb x Hx). cbv beta in Hb. lia. }
  assert (Hone : forall a, covered k [a] <-> in_run k a).
  { intros a. unfold covered. rewrite Exists_cons, Exists_nil. tauto. }
  destruct (Z.geb_spec (start r) fr).
  - rewrite IH, covered_app, Hone by done. unfold in_run. split; [tauto|]. intros [[Hc|Hc] Hk]; [tauto|lia].
  - rewrite u32_small by (unfold in_u32; lia). rewrite reverse_cons, reverse_involutive, !covered_app, !Hone.
    destruct (Z.gtb_spec (start r + length_ r) fr); unfold in_run; cbn [start length_].
    + split; [intros [Hc|Hc]; [split; [tauto|specialize (Hbelow Hc); lia]|split; [right; lia|lia]]|].
      intros [[Hc|Hc] Hk]; [tauto|right; lia].
    + split; [intros [Hc|Hc]; [split; [tauto|specialize (Hbelow Hc); lia]|split; [right; lia|lia]]|].
      intros [[Hc|Hc] Hk]; [tauto|right; lia].
Qed.

Lemma cut_holes_length fr rs : zlen (cut_holes fr rs) <= zlen rs.
Proof. induction rs as [|r rs IH]; cbn; [done|]. case_if; rewrite !zlen_cons; lia. Qed.

(** Cutting drops nothing when every run starts below the frontier. *)
Lemma cut_holes_full fr rs : runs_sorted rs -> zlen (cut_holes fr (reverse rs)) = zlen rs \/
  exists r, r ∈ rs /\ fr <= r.(start).
Proof.
  destruct rs as [|r rs _] using rev_ind; intros Hs; [by left|]. rewrite reverse_snoc. cbn [cut_holes].
  destruct (Z.geb_spec (start r) fr).
  - right. exists r. split; [|done]. apply elem_of_app. right. left.
  - left. rewrite zlen_cons, zlen_app, zlen_cons, zlen_nil. unfold zlen. rewrite length_reverse. lia.
Qed.

Lemma cut_holes_wf fr rs : 0 <= fr < 2 ^ 32 -> Forall wf_run rs -> Forall wf_run (cut_holes fr rs).
Proof.
  intros Hfr. induction 1 as [|r rs Hr Hrs IH]; cbn; [constructor|]. case_if; [done|]. constructor; [|done].
  zbool. unfold wf_run, in_u32 in *. case_if; cbn; lia.
Qed.

Lemma cut_holes_nonzero fr rs : Forall (fun r => r.(length_) <> 0) rs -> Forall (fun r => r.(length_) <> 0) (cut_holes fr rs).
Proof.
  induction 1 as [|r rs Hr Hrs IH]; cbn; [constructor|]. destruct (Z.geb_spec (start r) fr); [done|].
  constructor; [|done]. case_if; cbn; lia.
Qed.

(** [AckBase] again, on the bitmap with the cached value, and the range of the count. *)
Lemma AckBase_idem b : wf_bitmap b -> (AckBase b).1 = (AckBase (AckBase b).2).1.
Proof.
  intros Hwf. pose proof (AckBase_spec b Hwf) as H. destruct (AckBase b) as [a b']. cbn [fst snd].
  destruct H as (Ha & Hb & Hc & Hwf' & HT & Hs & _).
  pose proof (AckBase_spec b' Hwf') as H'. destruct (AckBase b') as [a' b'']. cbn [fst].
  destruct H' as (Ha' & Hb' & Hc' & _). rewrite Hs in *. destruct (Z.lt_trichotomy a a') as [Hl|[Hl|Hl]]; [exfalso|done|exfalso].
  - specialize (Hb' a ltac:(lia)). rewrite HT, Hc in Hb' by lia. done.
  - specialize (Hb a' ltac:(lia)). rewrite <- HT, Hc' in Hb by lia. done.
Qed.

Lemma count_range b : wf_bitmap b -> 0 <= b.(count_) <= b.(size_).
Proof.
  intros Hwf. rewrite (wf_count b Hwf). pose proof (popcount_bound (Test b) (Z.to_nat b.(size_))).
  pose proof (wf_size b Hwf). lia.
Qed.

Lemma runs_sorted_app rs qs : runs_sorted (rs ++ qs) ->
  forall a b, a ∈ rs -> b ∈ qs -> a.(start) + a.(length_) <= b.(start).
Proof.
  induction rs as [|r rs IH]; intros H a b Ha Hb; [by apply not_elem_of_nil in Ha|].
  apply StronglySorted_inv in H as [H1 H2]. apply elem_of_cons in Ha as [->|Ha]; [|by apply IH].
  rewrite Forall_forall in H2. apply H2. apply elem_of_app. by right.
Qed.

(** The holes a SACK lists: blocks that are missing, below the frontier; all of them unless the
    list is full. *)
Lemma sack_holes b base fr :
  wf_bitmap b -> b.(size_) <= max_blocks -> 0 <= fr < 2 ^ 32 -> base = (AckBase b).1 ->
  let hs := reverse (cut_holes fr (reverse (Holes b base kSackMaxRuns).1)) in
  zlen hs <= kSackMaxRuns /\ Forall wf_run hs /\ Forall (fun r => r.(length_) <> 0) hs /\
  (forall k, covered k hs -> Test b k = false /\ base <= k < fr) /\
  (zlen hs < kSackMaxRuns -> forall k, base <= k -> k < b.(size_) -> k < fr -> Test b k = false -> covered k hs).
Proof.
  intros Hwf Hmax Hfr Hbase. pose proof (AckBase_spec b Hwf) as HA. destruct (AckBase b) as [a b'] eqn:Ea.
  cbn in Hbase. subst base. destruct HA as (Ha & _). pose proof (wf_size b Hwf).
  destruct (Holes_spec b a kSackMaxRuns Hwf Hmax ltac:(lia) ltac:(done)) as [-> _].
  rewrite Ea. cbn [fst]. rewrite Z.max_id.
  set (P := fun k => negb (Test b k)). set (n := Z.to_nat (b.(size_) - a)). set (rs := ref_runs P a n).
  destruct (ref_runs_sorted P a n) as [Hs Hp]. fold rs in Hs, Hp.
  assert (Hw : Forall (fun r => wf_run r /\ start r + length_ r < 2 ^ 32) rs).
  { pose proof (ref_runs_wf P a n) as Hrw. unfold n, rs, max_blocks in *.
    eapply Forall_impl; [apply Hrw; lia|]. cbn. intros x [Hx ?]. split; [done|lia]. }
  change kSackMaxRuns with 140. set (qs := ztake 140 rs).
  assert (Hqs : runs_sorted qs) by (unfold qs, ztake; by apply runs_sorted_take).
  assert (Hqw : Forall (fun r => wf_run r /\ start r + length_ r < 2 ^ 32) qs) by (by apply Forall_take).
  assert (Hqp : Forall (fun r => a <= start r /\ 1 <= length_ r) qs) by (by apply Forall_take).
  assert (Hcov : forall k, covered k rs <-> a <= k < a + Z.of_nat n /\ P k = true) by (intros; apply ref_runs_covered).
  assert (Hql : zlen qs <= 140) by (unfold qs; zlen_simpl; lia).
  assert (Hlen : zlen (reverse (cut_holes fr (reverse qs))) = zlen (cut_holes fr (reverse qs))).
  { unfold zlen. by rewrite length_reverse. }
  split; [|split; [|split; [|split]]].
  - rewrite Hlen. pose proof (cut_holes_length fr (reverse qs)) as Hc.
    replace (zlen (reverse qs)) with (zlen qs) in Hc by (unfold zlen; by rewrite length_reverse). lia.
  - apply Forall_reverse, cut_holes_wf; [done|]. apply Forall_reverse. eapply Forall_impl; [exact Hqw|]. by intros x [? _].
  - apply Forall_reverse. apply cut_holes_nonzero.
    + apply Forall_reverse. eapply Forall_impl; [exact Hqp|]. cbn. intros; lia.
  - intros k Hk. apply cut_holes_covered in Hk as [Hk Hkf]; [|done|done].
    assert (covered k rs) as Hr%Hcov.
    { rewrite <- (firstn_skipn (Z.to_nat 140) rs). apply covered_app. by left. }
    unfold P in Hr. destruct (Test b k); [by destruct Hr|]. split; [done|lia].
  - intros Hfew k Hk1 Hk2 Hk3 Ht. apply cut_holes_covered; [done|done|]. split; [|done].
    assert (covered k rs) as Hr by (apply Hcov; unfold P, n; rewrite Ht; split; [lia|done]).
    rewrite <- (firstn_skipn (Z.to_nat 140) rs) in Hr. apply covered_app in Hr as [Hr|Hr]; [done|exfalso].
    rewrite Hlen in Hfew. apply Exists_exists in Hr as (x & Hx & Hin). unfold in_run in Hin.
    rewrite <- (firstn_skipn (Z.to_nat 140) rs) in Hs.
    destruct (cut_holes_full fr qs Hqs) as [He|(y & Hy & Hyf)].
    + assert (zlen qs = 140).
      { unfold qs, ztake, zlen in *. apply list_elem_of_lookup in Hx as (j & Hj). rewrite lookup_drop in Hj.
        apply lookup_lt_Some in Hj. rewrite length_take. lia. }
      lia.
    + pose proof (runs_sorted_app _ _ Hs y x Hy Hx) as Hyx.
      rewrite Forall_forall in Hqp. specialize (Hqp y Hy). cbv beta in Hqp. lia.
Qed.

(** ** Properties *)

(** C14: Whatever an honest sender's datagrams meet on the way (loss, duplication, reordering), in
    whatever order hashes, iterations and stops happen, and whichever system calls fail, a file
    put in place holds exactly the source's bytes, and a hash announced for it is their hash. *)
Theorem received_files_intact sha src announced m save fn w r es k f :
  paths_ok m save fn w -> sizes_match m src ->
  Start m save fn [] (ReceiverTransfer_new w) = (None, r) ->
  Forall (event_ok True src announced) es ->
  (run_events (rx_step sha) r es).(rx_) !! k = Some f -> f.(verified) = true ->
  (run_events (rx_step sha) r es).(world_).(w_files) !! f.(final_path) = Some (src (Z.of_nat k)) /\
  announced (Z.of_nat k) (Sha256Hex sha (src (Z.of_nat k))).
Proof.
  intros Hp Hsz Hs He Hk Hv.
  pose proof (Start_inv sha True src announced save fn m w r Hp (fun _ => Hsz) Hs) as Hr.
  apply (rx_inv_run _ _ _ _ _ es) in Hr; [|done].
  destruct (fi_verified _ _ _ _ _ _ _ (ri_files _ _ _ _ _ Hr k f Hk) Hv) as (c & Hc & Ha & Hh).
  by rewrite <- (Hh I).
Qed.

(** C15: Against a sender that is not honest: a file is put in place only when its content has a hash
    that was announced for it. *)
Theorem verified_hash_announced sha announced m save fn w r es k f :
  paths_ok m save fn w -> Start m save fn [] (ReceiverTransfer_new w) = (None, r) ->
  Forall (event_ok False (fun _ => []) announced) es ->
  (run_events (rx_step sha) r es).(rx_) !! k = Some f -> f.(verified) = true ->
  exists c, (run_events (rx_step sha) r es).(world_).(w_files) !! f.(final_path) = Some c /\
    announced (Z.of_nat k) (Sha256Hex sha c).
Proof.
  intros Hp Hs He Hk Hv.
  pose proof (Start_inv sha False (fun _ => []) announced save fn m w r Hp (fun x : False => match x with end) Hs) as Hr.
  apply (rx_inv_run _ _ _ _ _ es) in Hr; [|done].
  destruct (fi_verified _ _ _ _ _ _ _ (ri_files _ _ _ _ _ Hr k f Hk) Hv) as (c & Hc & Ha & _). eauto.
Qed.

(** C16: In a transfer that started fresh (no blocks resumed, no part file left over under the paths of
    the transfer, all of them distinct) and whose datagrams come from an honest sender of files with
    the sizes of the manifest, lost, duplicated and reordered at will: a block the bitmap marks as
    received, which a SACK and the persisted state rely on, is on the disk with the source's bytes,
    and the part file of a complete bitmap is the source. *)
Theorem marked_blocks_stored sha src announced m save fn w r es k f b :
  paths_ok m save fn w -> sizes_match m src ->
  Start m save fn [] (ReceiverTransfer_new w) = (None, r) ->
  Forall (event_ok True src announced) es ->
  let r' := run_events (rx_step sha) r es in
  r'.(rx_) !! k = Some f -> f.(verified) = false -> 0 <= b -> Test f.(bitmap) b = true ->
  slice (b * kBlockPayloadSize) (BlockLenFor f.(f_size) b) (content_of r'.(world_) f.(part_path)) =
  slice (b * kBlockPayloadSize) (BlockLenFor f.(f_size) b) (src (Z.of_nat k)) /\
  (Complete f.(bitmap) = true -> 0 < f.(f_blocks) -> content_of r'.(world_) f.(part_path) = src (Z.of_nat k)).
Proof.
  intros Hp Hsz Hs He r' Hk Hv Hb Ht. unfold r' in *. clear r'.
  pose proof (Start_inv sha True src announced save fn m w r Hp (fun _ => Hsz) Hs) as Hr.
  apply (rx_inv_run _ _ _ _ _ es) in Hr; [|done]. pose proof (ri_files _ _ _ _ _ Hr k f Hk) as Hf.
  pose proof (blocks_bound _ (fi_size _ _ _ _ _ _ _ Hf)) as (Hbb & _ & Hbs).
  pose proof (fi_blocks _ _ _ _ _ _ _ Hf) as Hfb. rewrite <- Hfb in *.
  destruct (fi_bitmap _ _ _ _ _ _ _ Hf) as [Hwf Hsz'].
  assert (Hlt : b < f_blocks f).
  { destruct (Z_lt_le_dec b (f_blocks f)); [done|]. rewrite Test_out in Ht by lia. done. }
  split.
  - pose proof (fi_data _ _ _ _ _ _ _ Hf I Hv b Hb Ht) as Hd.
    pose proof (max_size _ (fi_size _ _ _ _ _ _ _ Hf)). unfold max_blocks in Hbb.
    rewrite BlockLenFor_spec by lia. apply (f_equal (ztake (0 `max` (1100 `min` (f_size f - 1100 * b))))) in Hd.
    unfold slice in *. unfold kBlockPayloadSize in *. unfold ztake in *. rewrite !take_take in Hd.
    by replace (Z.to_nat (0 `max` (1100 `min` (f_size f - 1100 * b))) `min` Z.to_nat 1100)%nat
      with (Z.to_nat (0 `max` (1100 `min` (f_size f - 1100 * b)))) in Hd by lia.
  - intros Hc Hpos. destruct (fi_part _ _ _ _ _ _ _ Hf Hv Hpos) as [_ Hpl].
    apply (blocks_determine _ _ (f_blocks f)).
    + by rewrite Hpl, (fi_src _ _ _ _ _ _ _ Hf I).
    + rewrite Hpl. lia.
    + intros b' Hb'. pose proof (fi_data _ _ _ _ _ _ _ Hf I Hv b' ltac:(lia)) as Hd. unfold kBlockPayloadSize in Hd.
      apply Hd, Complete_all; [done|done|lia].
Qed.

(** C17: What a SACK tells the sender is true of the receiver's bitmap when it is sent: all blocks
    below [ack_base] are held and [ack_base] itself is the first missing block, the count and the
    complete flag are the bitmap's, every listed hole is missing and below the frontier, and the
    list is exhaustive below the frontier unless it is full. *)
Theorem sack_truthful i now r f :
  file_at r i = Some f -> wf_bitmap f.(bitmap) -> f.(bitmap).(size_) <= max_blocks ->
  0 <= f.(f_frontier) < 2 ^ 32 -> in_u16 f.(f_index) -> in_u16 r.(loss_permille_) -> 0 <= r.(recv_rate_bps_) ->
  exists wire s, (SendSack i now r).(out_) = r.(out_) ++ [SendDatagram kStreamSack wire] /\
    zlen wire <= kMaxDatagram /\ DecodeSack (Some wire) (zlen wire) = Some s /\
    s.(s_file_index) = f.(f_index) /\ s.(received_count) = f.(bitmap).(count_) /\
    Z.testbit s.(s_flags) 0 = Complete f.(bitmap) /\
    (forall k, 0 <= k < s.(ack_base) -> Test f.(bitmap) k = true) /\
    (s.(ack_base) < f.(bitmap).(size_) -> Test f.(bitmap) s.(ack_base) = false) /\
    (forall k, covered k s.(holes) -> Test f.(bitmap) k = false /\ s.(ack_base) <= k < s.(frontier)) /\
    (zlen s.(holes) < kSackMaxRuns -> forall k, 0 <= k < f.(bitmap).(size_) -> k < s.(frontier) ->
       Test f.(bitmap) k = false -> covered k s.(holes)).
Proof.
  intros Hi Hwf Hmax Hfr Hidx Hloss Hrate. unfold SendSack. rewrite Hi.
  pose proof (AckBase_spec _ Hwf) as HA. pose proof (AckBase_idem _ Hwf) as Hid.
  destruct (AckBase (bitmap f)) as [base b] eqn:Ea.
  destruct HA as (Hb1 & Hb2 & Hb3 & Hwfb & HT & Hsz & Hct). cbn [fst snd] in Hid.
  pose proof (wf_size _ Hwf) as Hs0. pose proof (count_range _ Hwf) as Hcr.
  assert (HC : Complete b = Complete (bitmap f)) by (unfold Complete; by rewrite Hsz, Hct).
  set (fr := Z.max (f_frontier f) base).
  assert (Hfr' : 0 <= fr < 2 ^ 32) by (unfold fr; lia).
  destruct (sack_holes b base fr Hwfb ltac:(lia) Hfr' ltac:(done)) as (HL & HW & HN & HH1 & HH2).
  destruct (Holes_spec b base kSackMaxRuns Hwfb ltac:(lia) ltac:(lia) ltac:(done)) as (_ & HH & HHT & HHs & HHc).
  destruct (Holes b base kSackMaxRuns) as [hs hb]. cbn [fst snd] in *.
  set (hs' := reverse (cut_holes fr (reverse hs))) in *. rewrite HC.
  assert (Hno : Complete (bitmap f) = true -> forall k, 0 <= k < size_ (bitmap f) -> Test (bitmap f) k = true).
  { intros Hc k Hk. by apply (Complete_all _ k Hwf). }
  set (hh := if Complete (bitmap f) then [] else hs').
  set (s := mkSack (f_index f) (if Complete (bitmap f) then 1 else 0) base fr (count_ (bitmap f))
     (u32 (Z.min (recv_rate_bps_ r) 0xFFFFFFFF)) (loss_permille_ r) hh).
  exists (EncodeSack s), s.
  assert (Hss : wf_sack s).
  { unfold wf_sack, s, hh. cbn. split; [done|]. split; [unfold in_u8; case_if; lia|]. unfold max_blocks in *.
    split; [unfold in_u32; lia|]. split; [done|]. split; [unfold in_u32; lia|].
    split; [apply u32_range|]. split; [done|]. case_if; [constructor|done]. }
  assert (Hsn : Forall (fun r => r.(length_) <> 0) s.(holes)) by (cbn; unfold hh; case_if; [constructor|done]).
  destruct (sack_spec s Hss Hsn) as [Hl Hd].
  assert (Ht : ztake kSackMaxRuns (holes s) = holes s).
  { unfold ztake. apply take_ge. cbn. unfold hh. destruct (Complete (bitmap f)); [cbn; lia|]. unfold zlen in HL. lia. }
  rewrite Ht in Hd.
  assert (HtestF : Z.testbit s.(s_flags) 0 = Complete (bitmap f)) by (cbn; by destruct (Complete (bitmap f))).
  split; [|split; [done|]; split; [exact Hd|]; split; [done|]; split; [done|]; split; [done|];
    split; [exact Hb2|]; split; [exact Hb3|]; split].
  - unfold s, hh. change (Z.lor 0 kSackFlagComplete) with 1.
    destruct (Complete (bitmap f)); cbn -[EncodeSack]; rewrite ?HHc, ?Hct; [done|]. by fold hs'.
  - intros k Hk. cbn in Hk |- *. unfold hh in Hk. destruct (Complete (bitmap f)); [inversion Hk|].
    rewrite <- HT. by apply HH1.
  - intros Hfew k Hk Hkf Hm. cbn in Hfew, Hkf |- *. unfold hh in *. destruct (Complete (bitmap f)).
    + rewrite Hno in Hm by done. done.
    + assert (base <= k). { destruct (Z_lt_le_dec k base); [rewrite Hb2 in Hm by lia; done|done]. }
      apply HH2; [done|done|lia|done|by rewrite HT].
Qed.

(** ** Witnesses *)

(** One file of 3 bytes received with a toy hash function: announced hash, block, iteration. *)
Definition sample_sha : bytes -> bytes := id.
Definition sample_src (i : Z) : bytes := [1; 2; 3].
Definition sample_announced (i : Z) (h : bytes) : Prop := h = Sha256Hex sample_sha [1; 2; 3].
Definition sample_manifest : Manifest := mkManifest [mkFile "a" 3] [] [mkRoot "a" false] 3.
Definition sample_world : World := mkWorld ∅ ∅ [].
Definition sample_save : bytes := [slash; 100].
Definition sample_start : Receiver := (Start sample_manifest sample_save ∅ [] (ReceiverTransfer_new sample_world)).2.
Definition sample_block : bytes :=
  default [] (EncodeBlock (mkBlockHeader 0 0 0 3) (Some [1; 2; 3]) (Some (replicate 15 0)) 15).2.
Definition sample_view : StopViews := fun _ => mkStopView (fun _ => false) false.
Definition sample_half : list RxEvent :=
  [EvBlock (Some sample_block) 15; EvIter sample_view 10 11 12].
Definition sample_events : list RxEvent := EvFileDone 0 (Sha256Hex sample_sha [1; 2; 3]) :: sample_half ++ [EvIter sample_view 20 21 22].
Definition file_of (es : list RxEvent) : FileRx :=
  default (FileRx_new 0 0 []) ((run_events (rx_step sample_sha) sample_start es).(rx_) !! 0%nat).

Lemma sample_started : Start sample_manifest sample_save ∅ [] (ReceiverTransfer_new sample_world) = (None, sample_start).
Proof.
  assert (H : (Start sample_manifest sample_save ∅ [] (ReceiverTransfer_new sample_world)).1 = None) by (vm_compute; reflexivity).
  rewrite <- H. apply surjective_pairing.
Qed.

Lemma sample_paths : paths_ok sample_manifest sample_save ∅ sample_world.
Proof.
  split.
  - match goal with |- NoDup ?l => assert (H : bool_decide (NoDup l) = true) by (vm_compute; reflexivity) end.
    by apply bool_decide_eq_true in H.
  - constructor; [done|constructor].
  - done.
  - repeat constructor; done.
Qed.

Lemma sample_sizes : sizes_match sample_manifest sample_src.
Proof. intros [|i] mf H; [injection H as <-; done|done]. Qed.

Lemma sample_events_ok honest src : (honest -> src 0 = [1; 2; 3]) ->
  Forall (event_ok honest src sample_announced) sample_events.
Proof.
  intros Hsrc. constructor; [done|]. constructor; [|repeat constructor]. intros h payload H.
  assert (D : DecodeBlock (Some sample_block) 15 = Some (mkBlockHeader 0 0 0 3, [1; 2; 3])) by (vm_compute; reflexivity).
  rewrite D in H. injection H as <- <-. unfold pending_ok. cbn -[slice]. repeat split; try done.
  intros Hh. by rewrite (Hsrc Hh).
Qed.

Lemma sample_half_ok : Forall (event_ok True sample_src sample_announced) sample_half.
Proof.
  pose proof (sample_events_ok True sample_src (fun _ => eq_refl)) as H. unfold sample_events in H. apply Forall_cons in H as [_ H].
  by apply Forall_app in H as [H _].
Qed.

Lemma sample_verified :
  (run_events (rx_step sample_sha) sample_start sample_events).(rx_) !! 0%nat = Some (file_of sample_events) /\
  (file_of sample_events).(verified) = true /\
  (run_events (rx_step sample_sha) sample_start sample_half).(rx_) !! 0%nat = Some (file_of sample_half) /\
  (file_of sample_half).(verified) = false /\ Test (file_of sample_half).(bitmap) 0 = true.
Proof. do 4 (split; [vm_compute; reflexivity|]). vm_compute; reflexivity. Qed.

Lemma received_files_intact_witness :
  (run_events (rx_step sample_sha) sample_start sample_events).(world_).(w_files) !! (file_of sample_events).(final_path) =
    Some [1; 2; 3].
Proof.
  destruct sample_verified as (H1 & H2 & _).
  exact (proj1 (received_files_intact sample_sha sample_src sample_announced _ _ _ _ _ sample_events 0 _
    sample_paths sample_sizes sample_started (sample_events_ok True sample_src (fun _ => eq_refl)) H1 H2)).
Defined.

Lemma verified_hash_announced_witness :
  exists c, (run_events (rx_step sample_sha) sample_start sample_events).(world_).(w_files) !!
    (file_of sample_events).(final_path) = Some c /\ sample_announced 0 (Sha256Hex sample_sha c).
Proof.
  destruct sample_verified as (H1 & H2 & _).
  exact (verified_hash_announced sample_sha sample_announced _ _ _ _ _ sample_events 0 _
    sample_paths sample_started (sample_events_ok False _ (False_ind _)) H1 H2).
Defined.

Lemma marked_blocks_stored_witness :
  slice 0 3 (content_of (run_events (rx_step sample_sha) sample_start sample_half).(world_) (file_of sample_half).(part_path)) =
  [1; 2; 3].
Proof.
  destruct sample_verified as (_ & _ & H3 & H4 & H5).
  pose proof (marked_blocks_stored sample_sha sample_src sample_announced _ _ _ _ _ sample_half 0 _ 0
    sample_paths sample_sizes sample_started sample_half_ok H3 H4 ltac:(lia) H5) as [H _].
  etransitivity; [|etransitivity; [exact H|vm_compute; reflexivity]].
  assert (Hs : (file_of sample_half).(f_size) = 3) by (vm_compute; reflexivity). rewrite Hs. reflexivity.
Defined.

(** A file of 3 blocks of which the last is held: the SACK lists the two first as a hole. *)
Definition sample_rx : Receiver :=
  ReceiverTransfer_new sample_world <| rx_ := [FileRx_new 0 3300 [97] <| bitmap := SetRuns (Reset 3) [mkSackRun 2 1] |>
    <| f_frontier := 3 |>] |>.

Lemma sack_truthful_witness :
  exists wire s, (SendSack 0 5 sample_rx).(out_) = [SendDatagram kStreamSack wire] /\
    DecodeSack (Some wire) (zlen wire) = Some s /\ s.(received_count) = 1.
Proof.
  assert (Hi : file_at sample_rx 0 = Some (FileRx_new 0 3300 [97] <| bitmap := SetRuns (Reset 3) [mkSackRun 2 1] |>
    <| f_frontier := 3 |>)) by reflexivity.
  assert (Hwf : wf_bitmap (SetRuns (Reset 3) [mkSackRun 2 1])).
  { apply (SetRuns_spec (Reset 3) [mkSackRun 2 1] 0); [by apply wf_Reset| |done]. repeat constructor; done. }
  destruct (sack_truthful 0 5 sample_rx _ Hi Hwf) as (wire & s & H1 & _ & H2 & _ & H3 & _);
    [done|done|done|done|done|]. exists wire, s. split; [exact H1|]. split; [exact H2|exact H3].
Defined.
