(* ===== verification/Thread.v ===== *)
(** * Threads of the core

    A thread runs against its environment: whenever it reads the clock, a shared variable, takes
    a lock, calls the transport or sleeps, the other threads may have acted.  Every such point
    takes the next input of a finite tape, which carries what the environment did and answered.
    A computation [thread S A] maps a state to the value it returns, [None] when the tape ends
    first, and the state reached, so that a statement about all tapes is a statement about every
    prefix of every execution.  Loops run with the length of the tape as fuel;
    [iter_suspended] shows that this is enough. *)
From S2P Require Export Prelude.
#[local] Open Scope Z_scope.

(** ** Definitions *)

Definition thread (S A : Type) : Type := S -> option A * S.
#[global] Instance thread_ret {S} : MRet (thread S) := fun A a s => (Some a, s).
#[global] Instance thread_bind {S} : MBind (thread S) := fun A B f m s =>
  match m s with (Some a, s) => f a s | (None, s) => (None, s) end.

(** The interface of a state that carries a tape of inputs [I]. *)
Class Thread (S I : Type) := {
  inputs : S -> list I;
  absorb : I -> list I -> S -> S; (** the state once input [i] happened, with the rest of the tape *)
  inputs_absorb : forall i tl s, inputs (absorb i tl s) = tl;
}.

Section operations.
Context {S I : Type} `{Thread S I}.

Definition tick : thread S I := fun s =>
  match inputs s with [] => (None, s) | i :: tl => (Some i, absorb i tl s) end.
Definition gets {A} (f : S -> A) : thread S A := fun s => (Some (f s), s).
Definition modify (f : S -> S) : thread S unit := fun s => (Some tt, f s).

Fixpoint loop {A B} (fuel : nat) (body : A -> thread S (A + B)) (a : A) : thread S B :=
  match fuel with
  | O => fun s => (None, s)
  | Datatypes.S fuel => r ← body a; match r with inl a => loop fuel body a | inr b => mret b end
  end.

(** [while]: [inl] continues, [inr] leaves with the result. *)
Definition iter {A B} (body : A -> thread S (A + B)) (a : A) : thread S B := fun s =>
  loop (Datatypes.S (length (inputs s))) body a s.

(** [for] over a list, left by [false]. *)
Fixpoint for_each {A} (body : A -> thread S bool) (l : list A) : thread S bool :=
  match l with
  | [] => mret true
  | a :: l => ok ← body a; if ok : bool then for_each body l else mret false
  end.

(** *** Specifications *)

(** [J] is preserved, also when the tape ends, and a returned value satisfies [Q]. *)
Definition triple (J : S -> Prop) {A} (m : thread S A) (Q : A -> Prop) : Prop :=
  forall s, J s -> J (m s).2 /\ forall a, (m s).1 = Some a -> Q a.

(** A computation that stops early only because the tape ended; [Q] bounds what is left of it
    from what it started with. *)
Definition live {A} (m : thread S A) (Q : nat -> A -> nat -> Prop) : Prop :=
  forall s, match m s with
            | (Some a, s') => Q (length (inputs s)) a (length (inputs s'))
            | (None, s') => inputs s' = []
            end.
Definition shrinks {A} (n : nat) (a : A) (n' : nat) : Prop := (n' <= n)%nat.
Definition consumes {A} (n : nat) (a : A) (n' : nat) : Prop := (n' < n)%nat.
(** A round of a loop takes an input unless it leaves the loop. *)
Definition rounds {A B} (n : nat) (r : A + B) (n' : nat) : Prop :=
  match r with inl _ => (n' < n)%nat | inr _ => (n' <= n)%nat end.

End operations.

(** ** Lemmas *)

Section rules.
Context {S I : Type} `{Thread S I}.
Implicit Type J : S -> Prop.

Lemma triple_ret J {A} (a : A) (Q : A -> Prop) : Q a -> triple J (mret a) Q.
Proof. intros HQ s HJ. split; [done|]. by intros ? [= <-]. Qed.

Lemma triple_bind J {A B} (m : thread S A) (k : A -> thread S B) P Q :
  triple J m P -> (forall a, P a -> triple J (k a) Q) -> triple J (m ≫= k) Q.
Proof.
  intros Hm Hk s HJ. destruct (Hm s HJ) as [H1 H2]. unfold mbind, thread_bind.
  destruct (m s) as [[a|] s']; cbn in *; [by apply Hk; [apply H2|]|done].
Qed.

Lemma triple_weaken J {A} (m : thread S A) (P Q : A -> Prop) :
  triple J m P -> (forall a, P a -> Q a) -> triple J m Q.
Proof. intros Hm HPQ s HJ. destruct (Hm s HJ). eauto. Qed.

Lemma triple_gets J {A} (f : S -> A) (Q : A -> Prop) : (forall s, J s -> Q (f s)) -> triple J (gets f) Q.
Proof. intros HQ s HJ. split; [done|]. intros ? [= <-]. by apply HQ. Qed.

Lemma triple_modify J (f : S -> S) (Q : unit -> Prop) : (forall s, J s -> J (f s)) -> Q tt -> triple J (modify f) Q.
Proof. intros Hf HQ s HJ. split; [by apply Hf|]. by intros [] _. Qed.

Lemma triple_tick J (Q : I -> Prop) :
  (forall i tl s, inputs s = i :: tl -> J s -> J (absorb i tl s)) -> (forall i, Q i) -> triple J tick Q.
Proof. intros Ha HQ s HJ. unfold tick. destruct (inputs s) eqn:E; split; cbn; auto; done. Qed.

Lemma triple_loop J {A B} n (body : A -> thread S (A + B)) P Q :
  (forall a, P a -> triple J (body a) (fun r => match r with inl a => P a | inr b => Q b end)) ->
  forall a, P a -> triple J (loop n body a) Q.
Proof.
  intros Hb. induction n as [|n IH]; intros a Ha; cbn [loop]; [by intros s HJ; split|].
  eapply triple_bind; [by apply Hb|]. intros [a'|b] Hr; [by apply IH|by apply triple_ret].
Qed.

Lemma triple_iter J {A B} (body : A -> thread S (A + B)) (P : A -> Prop) Q a :
  (forall a, P a -> triple J (body a) (fun r => match r with inl a => P a | inr b => Q b end)) ->
  P a -> triple J (iter body a) Q.
Proof. intros Hb Ha s HJ. by apply (triple_loop J _ body P Q Hb a Ha). Qed.

Lemma triple_for J {A} (body : A -> thread S bool) (l : list A) :
  (forall a, a ∈ l -> triple J (body a) (fun _ => True)) -> triple J (for_each body l) (fun _ => True).
Proof.
  induction l as [|a l IH]; intros Hb; cbn [for_each]; [by apply triple_ret|].
  eapply triple_bind; [apply Hb; left|]. intros [] _; [|by apply triple_ret].
  apply IH. intros b Hin. apply Hb. by right.
Qed.

(** *** Progress *)

Lemma live_ret {A} (a : A) : live (mret a) shrinks.
Proof. intros s. cbn. unfold shrinks. lia. Qed.

Lemma live_gets {A} (f : S -> A) : live (gets f) shrinks.
Proof. intros s. cbn. unfold shrinks. lia. Qed.

Lemma live_modify (f : S -> S) : (forall s, inputs (f s) = inputs s) -> live (modify f) shrinks.
Proof. intros Hf s. cbn. unfold shrinks. rewrite Hf. lia. Qed.

Lemma live_tick : live tick consumes.
Proof.
  intros s. unfold tick. destruct (inputs s) as [|i tl] eqn:E; [done|]. rewrite inputs_absorb. unfold consumes. cbn. lia.
Qed.

Lemma live_weaken {A} (m : thread S A) : live m consumes -> live m shrinks.
Proof. intros Hm s. specialize (Hm s). destruct (m s) as [[]]; [|done]. unfold consumes, shrinks in *. lia. Qed.

Lemma live_bind {A B} (m : thread S A) (k : A -> thread S B) :
  live m shrinks -> (forall a, live (k a) shrinks) -> live (m ≫= k) shrinks.
Proof.
  intros Hm Hk s. specialize (Hm s). unfold mbind, thread_bind. destruct (m s) as [[a|] s']; [|done].
  specialize (Hk a s'). destruct (k a s') as [[]]; [|done]. unfold shrinks in *. lia.
Qed.

(** The first step consumes an input. *)
Lemma live_bind_consumes {A B} (m : thread S A) (k : A -> thread S B) :
  live m consumes -> (forall a, live (k a) shrinks) -> live (m ≫= k) consumes.
Proof.
  intros Hm Hk s. specialize (Hm s). unfold mbind, thread_bind. destruct (m s) as [[a|] s']; [|done].
  specialize (Hk a s'). destruct (k a s') as [[]]; [|done]. unfold shrinks, consumes in *. lia.
Qed.

Lemma live_round_bind {A B C} (m : thread S A) (k : A -> thread S (B + C)) :
  live m shrinks -> (forall a, live (k a) rounds) -> live (m ≫= k) rounds.
Proof.
  intros Hm Hk s. specialize (Hm s). unfold mbind, thread_bind. destruct (m s) as [[a|] s']; [|done].
  specialize (Hk a s'). unfold shrinks, rounds in *. destruct (k a s') as [[[]|]]; [lia|lia|done].
Qed.

Lemma live_round {A B} (m : thread S (A + B)) : live m consumes -> live m rounds.
Proof. intros Hm s. specialize (Hm s). unfold consumes, rounds in *. destruct (m s) as [[[]|]]; [lia|lia|done]. Qed.

Lemma live_leave {A B} (b : B) : live (mret (inr b : A + B)) rounds.
Proof. intros s. cbn. lia. Qed.

Lemma live_loop {A B} n (body : A -> thread S (A + B)) :
  (forall a, live (body a) rounds) -> forall a s, (length (inputs s) < n)%nat ->
  match loop n body a s with
  | (Some b, s') => shrinks (length (inputs s)) b (length (inputs s'))
  | (None, s') => inputs s' = []
  end.
Proof.
  intros Hb. induction n as [|n IH]; intros a s Hn; [lia|]. cbn [loop]. specialize (Hb a s).
  unfold mbind, thread_bind. destruct (body a s) as [[[a'|b]|] s']; [| |done]; unfold rounds, shrinks in *.
  - specialize (IH a' s' ltac:(lia)). destruct (loop n body a' s') as [[]]; [lia|done].
  - cbn. lia.
Qed.

(** A loop whose every round observes the environment is suspended only by the end of the tape:
    the fuel is never what stops it. *)
Lemma iter_suspended {A B} (body : A -> thread S (A + B)) a :
  (forall a, live (body a) rounds) -> live (iter body a) shrinks.
Proof. intros Hb s. apply (live_loop _ body Hb a s). lia. Qed.

Lemma live_for {A} (body : A -> thread S bool) (l : list A) :
  (forall a, live (body a) shrinks) -> live (for_each body l) shrinks.
Proof.
  intros Hb. induction l as [|a l IH]; cbn [for_each]; [apply live_ret|].
  apply live_bind; [done|]. intros []; [done|apply live_ret].
Qed.

End rules.

(** *** What a computation does to the state, as a preorder *)

Definition follows {S A} (R : S -> S -> Prop) (m : thread S A) : Prop := forall s, R s (m s).2.

Section follows.
Context {S I : Type} `{Thread S I} (R : S -> S -> Prop) `{!PreOrder R}.

Lemma follows_ret {A} (a : A) : follows R (mret a).
Proof. by intros s. Qed.

Lemma follows_gets {A} (f : S -> A) : follows R (gets f).
Proof. by intros s. Qed.

Lemma follows_bind {A B} (m : thread S A) (k : A -> thread S B) :
  follows R m -> (forall a, follows R (k a)) -> follows R (m ≫= k).
Proof.
  intros Hm Hk s. specialize (Hm s). unfold mbind, thread_bind. destruct (m s) as [[a|] s']; [|done].
  etransitivity; [exact Hm|apply Hk].
Qed.

Lemma follows_iter {A B} (body : A -> thread S (A + B)) a : (forall a, follows R (body a)) -> follows R (iter body a).
Proof.
  intros Hb s. unfold iter. generalize (Datatypes.S (length (inputs s))). intros n. revert a s.
  induction n as [|n IH]; intros a s; cbn [loop]; [done|].
  apply follows_bind; [done|]. intros [a'|b]; [exact (IH a')|apply follows_ret].
Qed.

Lemma follows_for {A} (body : A -> thread S bool) (l : list A) : (forall a, follows R (body a)) -> follows R (for_each body l).
Proof.
  intros Hb. induction l as [|a l IH]; cbn [for_each]; [apply follows_ret|].
  apply follows_bind; [done|]. intros []; [done|apply follows_ret].
Qed.

End follows.

Create HintDb follows.
#[export] Hint Resolve follows_ret follows_gets follows_for : follows.

Ltac follow :=
  repeat first
    [ progress intros
    | match goal with
      | |- follows _ (_ ≫= _) => apply follows_bind
      | |- follows _ (iter _ _) => apply follows_iter
      | |- follows _ (match ?x with _ => _ end) => destruct x
      end
    | solve [auto with follows typeclass_instances] ].

(** The hint database of progress goals: [live_auto] follows the structure of a computation. *)
Create HintDb live.
#[export] Hint Resolve live_ret live_gets live_for live_tick live_weaken : live.

Ltac live_auto :=
  repeat first
    [ progress intros
    | match goal with
      | |- live (mret (inr _)) rounds => apply live_leave
      | |- live (_ ≫= _) shrinks => apply live_bind
      | |- live (_ ≫= _) consumes => apply live_bind_consumes
      | |- live (iter _ _) shrinks => apply iter_suspended
      | |- live (match ?x with _ => _ end) _ => destruct x
      | |- live (modify _) shrinks => apply live_modify
      end
    | solve [auto with live] ].
