(* ===== verification/Sender.v ===== *)
(** * The sending engine ([core/src/transfer/sender.{h,cpp}])

    One [SenderTransfer] per session: the sender thread sweeps the files in manifest order,
    hashing them on the way, and resends the holes the receiver's SACKs report, under a token
    bucket.  The thread is a [thread] computation ([Thread]): at every shared access, clock
    reading, call to the link or sleep it takes an input that carries the calls the other threads
    made meanwhile ([OnSack], [OnFileOk], [OnFileBad], [SetPaused], [Stop]), the clock and the
    link's answers.  What leaves the engine is the list [out_].  [double]s are IEEE binary64
    values of [SpecFloat], rounded to nearest. *)
From Stdlib Require Import SpecFloat.
From S2P Require Export Bitmap FileIO Manifest Thread.
#[local] Open Scope Z_scope.

(** ** Definitions *)

(** *** [double] *)

Definition double : Type := spec_float.
Definition to_double (z : Z) : double := binary_normalize 53 1024 z 0 false.
Definition dadd : double -> double -> double := SFadd 53 1024.
Definition dsub : double -> double -> double := SFsub 53 1024.
Definition dmul : double -> double -> double := SFmul 53 1024.
Definition ddiv : double -> double -> double := SFdiv 53 1024.
(** [std::max] and [std::min]. *)
Definition dmax (a b : double) : double := if SFltb a b then b else a.
Definition dmin (a b : double) : double := if SFltb b a then b else a.
(** The truncating conversion to an integer type. *)
Definition to_int (d : double) : Z :=
  match d with
  | S754_finite s m e =>
      let v := if 0 <=? e then Zpos m * 2 ^ e else Zpos m / 2 ^ (- e) in
      if s then - v else v
  | _ => 0
  end.

(** *** State *)

Definition kMaxInflightFiles : Z := 8.
Definition kBucketBlocks : Z := 256.
Definition kMaxRepairsPerPass : Z := 4096.
Definition kLinkDownTimeoutMs : Z := 20000.
Definition kMinRateBps : Z := 300000.
Definition kMaxRateBps : Z := 1000000000.
Definition kRateUpdateMs : Z := 200.
Definition kReadChunkBlocks : Z := 256.

Record SenderProgress := mkTxProgress {
  q_bytes_total : Z; q_bytes_sent : Z; q_bytes_acked : Z; q_files_total : Z; q_files_done : Z;
  q_current_file : Z; q_send_rate_bps : Z; q_target_bps : Z; q_repairs : Z;
}.

(** The callbacks, the datagrams and the sleeps. *)
Inductive TxEffect :=
| TxFileDone (index : Z) (sha256 : bytes)
| TxAllDone
| TxError (code message : string)
| TxDatagram (stream : string) (wire : bytes) (result : Z)
| TxSleep (ms : Z).

Record FileTx := mkFileTx {
  t_index : Z;
  t_size : Z;
  t_blocks : Z;
  t_path : bytes;
  skip : BlockBitmap;
  sweep_ms : list Z;
  repair_ms : list (Z * Z);
  sweep_done : bool;
  t_sha256 : bytes;
  reader : option FileReader;
  t_ok : bool;
  announced : bool;
  t_sack : Sack;
  sack_seq : Z;
  acked_bytes : Z;
}.
#[export] Instance eta_FileTx : Eta FileTx := fun f => mkFileTx f.(t_index) f.(t_size) f.(t_blocks) f.(t_path)
  f.(skip) f.(sweep_ms) f.(repair_ms) f.(sweep_done) f.(t_sha256) f.(reader) f.(t_ok) f.(announced)
  f.(t_sack) f.(sack_seq) f.(acked_bytes).

(** A call made by another thread. *)
Inductive TxCall :=
| CallSack (data : option bytes) (len : Z)
| CallFileOk (index : Z)
| CallFileBad (index : Z)
| CallPaused (paused : bool)
| CallStop.

(** What the environment did and answers at one observation: the calls since the last one, the
    nanoseconds since [start_], the result of [SendDatagram] and that of [LinkEstimate]. *)
Record TxInput := mkTxInput {
  i_calls : list TxCall; i_ns : Z; i_send : Z; i_est : option (Z * Z);
}.

Record Sender := mkSender {
  manifest_ : Manifest;
  files_ : list bytes;
  joinable_ : bool; (** [thread_.joinable()] *)
  stop_ : bool;
  paused_ : bool;
  finished_ : bool;
  failed_ : bool;
  tx_ : list FileTx;
  inflight_ : list Z; (** the files' positions in [tx_] *)
  tokens_ : double;
  last_token_ms_ : double;
  target_bps_ : Z;
  aimd_bps_ : Z;
  rtt_ms_ : Z;
  last_rate_update_ms_ : Z;
  window_bytes_ : Z;
  window_start_ms_ : Z;
  link_down_since_ms_ : Z;
  bytes_sent_ : Z;
  bytes_acked_ : Z;
  files_done_ : Z;
  current_file_ : Z;
  send_rate_bps_ : Z;
  target_bps_atomic_ : Z;
  repairs_ : Z;
  max_loss_permille_ : Z;
  world_ : World;
  out_ : list TxEffect;
  env_ : list TxInput;
}.
#[export] Instance eta_Sender : Eta Sender := fun s => mkSender s.(manifest_) s.(files_) s.(joinable_) s.(stop_)
  s.(paused_) s.(finished_) s.(failed_) s.(tx_) s.(inflight_) s.(tokens_) s.(last_token_ms_) s.(target_bps_)
  s.(aimd_bps_) s.(rtt_ms_) s.(last_rate_update_ms_) s.(window_bytes_) s.(window_start_ms_)
  s.(link_down_since_ms_) s.(bytes_sent_) s.(bytes_acked_) s.(files_done_) s.(current_file_)
  s.(send_rate_bps_) s.(target_bps_atomic_) s.(repairs_) s.(max_loss_permille_) s.(world_) s.(out_) s.(env_).

Definition SenderTransfer_new (w : World) (env : list TxInput) : Sender :=
  mkSender Manifest_default [] false false false false false [] [] (to_double 0) (to_double 0) 0 200000000 100
    0 0 0 0 0 0 0 (-1) 0 0 0 0 w [] env.

Definition emit (e : TxEffect) (s : Sender) : Sender := s <| out_ ::= (fun o => o ++ [e]) |>.
(** [*tx_[i]], and its update. *)
Definition file_at (i : Z) (s : Sender) : option FileTx := s.(tx_) !! Z.to_nat i.
Definition set_file (i : Z) (f : FileTx) (s : Sender) : Sender := s <| tx_ ::= <[Z.to_nat i := f]> |>.
Definition upd_file (i : Z) (g : FileTx -> FileTx) (s : Sender) : Sender :=
  match file_at i s with Some f => set_file i (g f) s | None => s end.

(** *** Owner *)

Definition FileTx_new (have : list (Z * list SackRun)) (i : Z) (mf : ManifestFile) (path : bytes) : FileTx :=
  let index := u16 i in
  let blocks := BlockCountFor mf.(Manifest.size) in
  let skip := Reset blocks in
  let skip := match zm_find index have with Some runs => SetRuns skip runs | None => skip end in
  mkFileTx index mf.(Manifest.size) blocks path skip (replicate (Z.to_nat (u32 (blocks + kBucketBlocks - 1) / kBucketBlocks)) 0) []
    false [] None false false Sack_default 0 0.

Definition start_verified (s : Sender) (v : Z) : Sender :=
  match file_at v s with
  | None => s
  | Some f => set_file v (f <| t_ok := true |> <| announced := true |>) s
                <| files_done_ ::= (fun n => u32 (n + 1)) |>
                <| bytes_acked_ ::= (fun n => u64 (n + f.(t_size))) |>
  end.

Definition Start (manifest : Manifest) (files : list bytes) (have : list (Z * list SackRun)) (verified : list Z)
  (s : Sender) : option string * Sender :=
  if s.(joinable_) then (Some "already started"%string, s) else
  if negb (zlen files =? zlen manifest.(Manifest.files)) then (Some "manifest / file list mismatch"%string, s) else
  let s := s <| manifest_ := manifest |> <| files_ := files |>
             <| tx_ := imap (fun i fp => FileTx_new have (Z.of_nat i) fp.1 fp.2) (zip manifest.(Manifest.files) files) |> in
  let s := foldl start_verified s verified in
  (None, s <| stop_ := false |> <| joinable_ := true |>).

(** [Stop] before it joins the thread. *)
Definition Stop (s : Sender) : Sender := s <| stop_ := true |>.

Definition SetPaused (paused : bool) (s : Sender) : Sender := s <| paused_ := paused |>.

Definition Progress (s : Sender) : SenderProgress :=
  mkTxProgress s.(manifest_).(total_bytes) s.(bytes_sent_) (Z.min s.(bytes_acked_) s.(manifest_).(total_bytes))
    (u32 (zlen s.(manifest_).(Manifest.files))) s.(files_done_) s.(current_file_) s.(send_rate_bps_)
    s.(target_bps_atomic_) s.(repairs_).

Definition Fail_ (code message : string) (s : Sender) : Sender :=
  if s.(failed_) then s else emit (TxError code message) (s <| failed_ := true |>).

Definition OnSack (data : option bytes) (len : Z) (st : Sender) : Sender :=
  match DecodeSack data len with
  | None => st
  | Some s =>
      if s.(s_file_index) >=? zlen st.(tx_) then st else
      match file_at s.(s_file_index) st with
      | None => st
      | Some f =>
          let acked := Z.min (u64 (s.(received_count) * kBlockPayloadSize)) f.(t_size) in
          let acked := if Z.testbit s.(s_flags) 0 then f.(t_size) else acked in
          if (f.(sack_seq) >? 0) && (s.(received_count) <? f.(t_sack).(received_count)) then st else
          let f' := f <| t_sack := s |> <| sack_seq ::= (fun n => u32 (n + 1)) |> in
          let '(f', st) :=
            if acked >? f.(acked_bytes)
            then (f' <| acked_bytes := acked |>,
                  st <| bytes_acked_ ::= (fun n => u64 (n + (acked - f.(acked_bytes)))) |>)
            else (f', st) in
          set_file s.(s_file_index) f' st <| max_loss_permille_ ::= Z.max s.(loss_permille) |>
      end
  end.

Definition OnFileBad (index : Z) (s : Sender) : Sender :=
  if index >=? zlen s.(tx_) then s else
  match file_at index s with
  | None => s
  | Some f =>
      if f.(t_ok) then s else
      let f' := f <| skip := Reset f.(t_blocks) |> in
      let '(f', s) := if f.(acked_bytes) >? 0
                      then (f' <| acked_bytes := 0 |>,
                            s <| bytes_acked_ ::= (fun n => n - Z.min n f.(acked_bytes)) |>)
                      else (f', s) in
      set_file index (f' <| t_sack := Sack_default |> <| sack_seq := 0 |>) s
  end.

Definition OnFileOk (index : Z) (s : Sender) : Sender :=
  if index >=? zlen s.(tx_) then s else
  match file_at index s with
  | None => s
  | Some f =>
      if f.(t_ok) then s else
      let f' := f <| t_ok := true |> in
      let '(f', s) := if f.(t_size) >? f.(acked_bytes)
                      then (f' <| acked_bytes := f.(t_size) |>,
                            s <| bytes_acked_ ::= (fun n => u64 (n + (f.(t_size) - f.(acked_bytes)))) |>)
                      else (f', s) in
      set_file index f' s <| files_done_ ::= (fun n => u32 (n + 1)) |>
  end.

Definition tx_call (s : Sender) (c : TxCall) : Sender :=
  match c with
  | CallSack data len => OnSack data len s
  | CallFileOk index => OnFileOk index s
  | CallFileBad index => OnFileBad index s
  | CallPaused p => SetPaused p s
  | CallStop => Stop s
  end.

(** The calls of a tape. *)
Definition calls_of (tape : list TxInput) : list TxCall := concat (i_calls <$> tape).

#[export] Program Instance sender_thread : Thread Sender TxInput := {
  inputs := env_;
  absorb i tl s := foldl tx_call s i.(i_calls) <| env_ := tl |>;
}.
Next Obligation. done. Qed.
Notation tx := (thread Sender).

(** *** Sender thread *)

(** A read of a shared variable. *)
Definition load {A} (f : Sender -> A) : tx A := _ ← tick; gets f.
Definition do_file (i : Z) (g : FileTx -> FileTx) : tx unit := modify (upd_file i g).
(** A field of file [i]; the pointer is never null. *)
Definition on_file {A} (d : A) (g : FileTx -> A) (i : Z) (s : Sender) : A :=
  match file_at i s with Some f => g f | None => d end.
Definition NowMs : tx Z := i ← tick; mret (u32 (i.(i_ns) / 1000000)).
Definition NowMsExact : tx double := i ← tick; mret (ddiv (to_double i.(i_ns)) (to_double 1000000)).
Definition sleep_for (ms : Z) : tx unit := _ ← modify (emit (TxSleep ms)); _ ← tick; mret tt.

Definition PauseWait : tx bool :=
  p ← load paused_;
  if negb p then st ← load stop_; mret (negb st) else
  _ ← iter (fun _ => _ ← tick; w ← gets (fun s => negb s.(paused_) || s.(stop_));
                     mret (if w : bool then inr tt else inl tt)) tt;
  now ← NowMsExact;
  _ ← modify (fun s => s <| last_token_ms_ := now |> <| tokens_ := to_double 0 |>);
  st ← load stop_; mret (negb st).

Definition aimd_next (loss aimd : Z) : Z :=
  let aimd := if loss >? 100 then to_int (dmul (to_double aimd) (ddiv (to_double 7) (to_double 10)))
              else if loss >? 30 then to_int (dmul (to_double aimd) (ddiv (to_double 9) (to_double 10)))
              else aimd + 2000000 in
  Z.max kMinRateBps (Z.min aimd kMaxRateBps).

Definition target_of (aimd bwe : Z) : Z :=
  let target := if bwe >? 0 then Z.min aimd (bwe + bwe / 10) else aimd in
  Z.max kMinRateBps (Z.min target kMaxRateBps).

Definition UpdateRate : tx unit :=
  now ← NowMs;
  _ ← modify (fun s => s <| last_rate_update_ms_ := now |>);
  i ← tick;
  let bwe := match i.(i_est) with Some (bwe, _) => bwe | None => 0 end in
  _ ← modify (fun s => match i.(i_est) with
                       | Some (_, rtt) => if rtt >? 0 then s <| rtt_ms_ := rtt |> else s
                       | None => s end);
  loss ← load max_loss_permille_;
  _ ← modify (fun s =>
    let aimd := aimd_next loss s.(aimd_bps_) in
    let target := target_of aimd bwe in
    let s := s <| max_loss_permille_ := 0 |> <| aimd_bps_ := aimd |> <| target_bps_ := target |>
               <| target_bps_atomic_ := target |> in
    let elapsed := u32 (now - s.(window_start_ms_)) in
    if elapsed >=? 1000
    then s <| send_rate_bps_ := i64 (u64 (s.(window_bytes_) * 8000) / elapsed) |> <| window_bytes_ := 0 |>
           <| window_start_ms_ := now |>
    else s);
  mret tt.

(** The refilled and capped bucket. *)
Definition refill (now : double) (s : Sender) : double :=
  let rate := ddiv (to_double s.(target_bps_)) (to_double 8000) in
  let tokens := dadd s.(tokens_) (dmul (dsub now s.(last_token_ms_)) rate) in
  let burst := dmax (to_double (64 * 1024)) (dmul rate (to_double 50)) in
  if SFltb burst tokens then burst else tokens.

Definition WaitTokens (bytes : Z) : tx bool :=
  iter (fun _ =>
    st ← load stop_;
    if st : bool then mret (inr false) else
    now ← NowMsExact;
    ms ← NowMs;
    last ← gets last_rate_update_ms_;
    _ ← (if u32 (ms - last) >=? kRateUpdateMs then UpdateRate else mret tt);
    _ ← modify (fun s => s <| tokens_ := refill now s |> <| last_token_ms_ := now |>);
    tokens ← gets tokens_;
    if SFleb (to_double bytes) tokens
    then _ ← modify (fun s => s <| tokens_ := dsub tokens (to_double bytes) |>); mret (inr true)
    else
    rate ← gets (fun s => ddiv (to_double s.(target_bps_)) (to_double 8000));
    let deficit_ms := ddiv (dsub (to_double bytes) tokens) rate in
    _ ← sleep_for (to_int (dmin (to_double 10) (dmax (to_double 1) deficit_ms)));
    mret (inl tt)) tt.

Definition block_header (f : FileTx) (block len : Z) : BlockHeader :=
  mkBlockHeader (if u32 (block + 1) =? f.(t_blocks) then kBlockFlagLast else 0) f.(t_index) block len.
(** The wire buffer: [n] of its bytes are the datagram. *)
Definition block_wire (h : BlockHeader) (payload : bytes) : bytes :=
  let '(n, w) := EncodeBlock h (Some payload) (Some (replicate (Z.to_nat (kBlockHeaderSize + kBlockPayloadSize)) 0))
                   (kBlockHeaderSize + kBlockPayloadSize) in
  ztake n (default [] w).

(** One attempt to hand the datagram to the link. *)
Definition send_round (wire : bytes) (len : Z) (repair : bool) : tx (unit + bool) :=
  st ← load stop_;
  if st : bool then mret (inr false) else
  inp ← tick;
  let r := inp.(i_send) in
  _ ← modify (emit (TxDatagram kStreamData wire r));
  if r =? 0 then
    _ ← modify (fun s => s <| link_down_since_ms_ := 0 |> <| bytes_sent_ ::= (fun n => u64 (n + len)) |>
                           <| window_bytes_ ::= (fun n => u64 (n + len)) |>
                           <| repairs_ ::= (fun n => if repair then u32 (n + 1) else n) |>);
    mret (inr true)
  else if r =? 1 then _ ← sleep_for 2; mret (inl tt) else
  now ← NowMs;
  _ ← modify (fun s => if s.(link_down_since_ms_) =? 0
                       then s <| link_down_since_ms_ := if now =? 0 then 1 else now |> else s);
  down ← gets (fun s => u32 (now - s.(link_down_since_ms_)) >? kLinkDownTimeoutMs);
  if down : bool then _ ← modify (Fail_ "link_down" "transport unavailable"); mret (inr false)
  else _ ← sleep_for 20; mret (inl tt).

Definition SendBlock (i block : Z) (payload : bytes) (len : Z) (repair : bool) : tx bool :=
  wire ← gets (on_file [] (fun f => block_wire (block_header f block len) payload) i);
  iter (fun _ => send_round wire len repair) tt.

(** [buf], or [None] when it fails. *)
Definition ReadBlocks (i first_block count : Z) : tx (option bytes) := fun s =>
  match file_at i s with
  | None => (Some None, s)
  | Some f =>
      let opened :=
        match f.(reader) with
        | Some r => inr (r, s)
        | None =>
            let '(ok, r, w) := FileReader_Open f.(t_path) s.(world_) in
            let s := upd_file i (fun f => f <| reader := Some r |>) (s <| world_ := w |>) in
            if negb ok then inl (Fail_ "io" "open failed: " s) else
            if negb (r.(r_size) =? f.(t_size))
            then inl (Fail_ "file_changed" ("file size changed: " +:+ of_sbytes (BaseName f.(t_path))) s)
            else inr (r, s)
        end in
      match opened with
      | inl s => (Some None, s)
      | inr (r, s) =>
          let offset := u64 (first_block * kBlockPayloadSize) in
          let want := Z.min (u64 (count * kBlockPayloadSize)) (f.(t_size) - Z.min f.(t_size) offset) in
          let '(got, w) := ReadAt r offset want s.(world_) in
          let s := s <| world_ := w |> in
          match got with
          | Some buf =>
              if zlen buf =? want then (Some (Some buf), s)
              else (Some None, Fail_ "io" ("read failed: " +:+ of_sbytes (BaseName f.(t_path))) s)
          | None => (Some None, Fail_ "io" ("read failed: " +:+ of_sbytes (BaseName f.(t_path))) s)
          end
      end
  end.

Definition reap (s : Sender) : Sender :=
  foldl (fun s i => if on_file false t_ok i s
                    then upd_file i (fun f => f <| reader := None |> <| repair_ms := [] |>) s
                    else s <| inflight_ ::= (fun l => l ++ [i]) |>)
    (s <| inflight_ := [] |>) s.(inflight_).
Definition ReapInflight : tx unit := _ ← tick; modify reap.

Definition LastSent (f : FileTx) (block : Z) : Z :=
  let t := znth f.(sweep_ms) (block / kBucketBlocks) in
  match zm_find block f.(repair_ms) with Some u => if u >? t then u else t | None => t end.

(** The holes a pass resends, from the file's state. *)
Definition repair_holes (f : FileTx) : list SackRun :=
  let sack := f.(t_sack) in
  let holes := if f.(sack_seq) >? 0 then sack.(holes) else [] in
  if f.(sweep_done) then
    let frontier := if f.(sack_seq) >? 0 then Z.max sack.(frontier) sack.(ack_base) else 0 in
    if frontier <? f.(t_blocks) then holes ++ [mkSackRun frontier (f.(t_blocks) - frontier)] else holes
  else holes.

Definition may_resend (f : FileTx) (block now hold : Z) : bool :=
  let last := LastSent f block in negb (negb (last =? 0) && (u32 (now - last) <? hold)).

(** One block of a run: [None] aborts the pass, otherwise the budget left. *)
Definition repair_block (i block now hold budget : Z) : tx (option Z) :=
  has ← load (on_file false (fun f => Test f.(skip) block) i);
  if has : bool then mret (Some budget) else
  due ← gets (on_file false (fun f => may_resend f block now hold) i);
  if negb due then mret (Some budget) else
  go ← PauseWait;
  if negb go then mret None else
  buf ← ReadBlocks i block 1;
  match buf with
  | None => mret None
  | Some buf =>
      len ← gets (on_file 0 (fun f => BlockLenFor f.(t_size) block) i);
      ok ← WaitTokens len;
      if negb ok then mret None else
      ok ← SendBlock i block buf len true;
      if negb ok then mret None else
      now ← NowMs;
      _ ← do_file i (fun f => f <| repair_ms ::= zm_set block now |>);
      mret (Some (u32 (budget - 1)))
  end.

Definition repair_run (i now hold : Z) (budget : Z) (run : SackRun) : tx (option Z) :=
  end_ ← gets (on_file 0 (fun f => Z.min (run.(start) + run.(length_)) f.(t_blocks)) i);
  iter (fun '(block, budget) =>
    if (block <? end_) && (budget >? 0) then
      r ← repair_block i block now hold budget;
      mret (match r with None => inr None | Some budget => inl (u32 (block + 1), budget) end)
    else mret (inr (Some budget))) (run.(start), budget).

Fixpoint repair_runs (i now hold : Z) (budget : Z) (runs : list SackRun) : tx (option Z) :=
  match runs with
  | [] => mret (Some budget)
  | run :: runs =>
      r ← repair_run i now hold budget run;
      match r with
      | None => mret None
      | Some budget => if budget =? 0 then mret (Some 0) else repair_runs i now hold budget runs
      end
  end.

(** [None] is [false]; otherwise the budget left. *)
Definition RepairFile (i now hold budget : Z) : tx (option Z) :=
  f ← load (file_at i);
  match f with
  | None => mret (Some budget)
  | Some f =>
      if (f.(sack_seq) >? 0) && Z.testbit f.(t_sack).(s_flags) 0 then mret (Some budget) else
      let holes := repair_holes f in
      if zlen holes =? 0 then mret (Some budget) else
      _ ← (if f.(sack_seq) >? 0
           then do_file i (fun g => g <| repair_ms ::= List.filter (fun e => e.1 >=? f.(t_sack).(ack_base)) |>)
           else mret tt);
      repair_runs i now hold budget holes
  end.

Fixpoint repair_files (now hold budget : Z) (did : bool) (fs : list Z) : tx (bool * bool) :=
  match fs with
  | [] => mret (true, did)
  | i :: fs =>
      ok ← load (on_file false t_ok i);
      if ok : bool then repair_files now hold budget did fs else
      r ← RepairFile i now hold budget;
      match r with
      | None => mret (false, did)
      | Some rest =>
          let did := did || negb (rest =? budget) in
          if rest =? 0 then mret (true, did) else repair_files now hold rest did fs
      end
  end.

(** The result and [*did_work]. *)
Definition RepairPass : tx (bool * bool) :=
  inflight ← gets inflight_;
  if (length inflight =? 0)%nat then mret (true, false) else
  now ← NowMs;
  rtt ← gets rtt_ms_;
  let hold := Z.max kRepairMinHoldMs (u32 (u32 (Z.quot (rtt * 3) 2) + kSackIntervalMs)) in
  repair_files now hold kMaxRepairsPerPass false inflight.

(** One block of the sweep, at position [j] of the buffer; the result and [since_repair]. *)
Definition sweep_block (i block j since : Z) (buf : bytes) : tx (option Z) :=
  len ← gets (on_file 0 (fun f => BlockLenFor f.(t_size) block) i);
  has ← load (on_file false (fun f => Test f.(skip) block) i);
  sent ← (if has : bool then mret true else
          ok ← WaitTokens len;
          if negb ok then mret false
          else SendBlock i block (slice (j * kBlockPayloadSize) len buf) len false);
  if negb sent then mret None else
  now ← NowMs;
  _ ← do_file i (fun f => f <| sweep_ms ::= <[Z.to_nat (block / kBucketBlocks) := now]> |>);
  if since + 1 >=? 64 then
    _ ← ReapInflight;
    r ← RepairPass;
    mret (if r.1 : bool then Some 0 else None)
  else mret (Some (since + 1)).

(** The inner loop: blocks [block + j] for the [n] values of [j] from [j]. *)
Fixpoint sweep_chunk (n : nat) (i block j since : Z) (buf : bytes) : tx (option Z) :=
  match n with
  | O => mret (Some since)
  | S n => r ← sweep_block i (block + j) j since buf;
           match r with None => mret None | Some since => sweep_chunk n i block (j + 1) since buf end
  end.

Section sender_thread.
Context (EVP_sha256 : bytes -> bytes).

(** One round of the outer loop: a chunk is read, hashed and sent; [None] is [return false]. *)
Definition sweep_round (i blocks : Z) (st : Z * Z * bytes) : tx (Z * Z * bytes + option bytes) :=
  let '(block, since, ctx) := st in
  if block <? blocks then
    go ← PauseWait;
    if negb go then mret (inr None) else
    let n := Z.min kReadChunkBlocks (blocks - block) in
    buf ← ReadBlocks i block n;
    match buf with
    | None => mret (inr None)
    | Some buf =>
        r ← sweep_chunk (Z.to_nat n) i block 0 since buf;
        mret (match r with
              | None => inr None
              | Some since => inl (block + n, since, Sha256_Update ctx buf)
              end)
    end
  else mret (inr (Some ctx)).

Definition SweepFile (i : Z) : tx bool :=
  blocks ← gets (on_file 0 t_blocks i);
  ctx ← iter (sweep_round i blocks) (0, 0, Sha256_Reset);
  match ctx with
  | None => mret false
  | Some ctx => _ ← do_file i (fun f => f <| t_sha256 := (FinishHex EVP_sha256 ctx).1 |> <| sweep_done := true |>);
                mret true
  end.

Definition running (st : Sender) : bool := negb st.(stop_) && negb st.(failed_).

(** The two [while] loops of [Run]; [limit] is the number of files that may stay in flight. *)
Definition drain (limit : Z) : tx unit :=
  iter (fun _ =>
    go ← load running;
    if negb go then mret (inr tt) else
    _ ← ReapInflight;
    n ← gets (fun s => zlen s.(inflight_));
    if n <=? limit then mret (inr tt) else
    r ← RepairPass;
    if negb r.1 then mret (inr tt) else
    _ ← (if negb r.2 then sleep_for 5 else mret tt);
    mret (inl tt)) tt.

(** The callback, and the file joins those in flight. *)
Definition announce (i : Z) (was : bool) : tx unit :=
  _ ← modify (fun s => if was then s
                       else match file_at i s with
                            | Some f => emit (TxFileDone f.(t_index) f.(t_sha256)) s
                            | None => s end);
  modify (fun s => s <| inflight_ ::= (fun l => l ++ [i]) |>).

(** One round of the [for]; [false] is [break]. *)
Definition run_file (i : Z) : tx bool :=
  go ← load running;
  if negb go then mret false else
  ok ← load (on_file true t_ok i);
  if ok : bool then mret true else
  _ ← modify (fun s => s <| current_file_ := on_file 0 t_index i s |>);
  blocks ← gets (on_file 0 t_blocks i);
  swept ← (if blocks =? 0
           then _ ← do_file i (fun f => f <| t_sha256 := Sha256Hex EVP_sha256 [] |> <| sweep_done := true |>); mret true
           else SweepFile i);
  if negb swept then mret false else
  was ← load (on_file true announced i);
  _ ← do_file i (fun f => f <| announced := true |>);
  _ ← announce i was;
  _ ← drain (kMaxInflightFiles - 1);
  mret true.

(** The loops of [Run]. *)
Definition run_files : tx unit :=
  now ← NowMsExact;
  _ ← modify (fun s => s <| last_token_ms_ := now |>);
  now ← NowMs;
  _ ← modify (fun s => s <| window_start_ms_ := now |>);
  _ ← UpdateRate;
  n ← gets (fun s => zlen s.(tx_));
  _ ← for_each run_file (seqZ 0 n);
  _ ← modify (fun s => s <| current_file_ := -1 |>);
  drain 0.

Definition Run : tx unit :=
  _ ← run_files;
  _ ← modify (fun s => s <| tx_ ::= fmap (fun f => f <| reader := None |>) |>);
  go ← load running;
  if go : bool then modify (fun s => emit TxAllDone (s <| finished_ := true |>)) else mret tt.

End sender_thread.
