(* ===== verification/SenderProofs.v ===== *)
(** * Correctness of the sending engine

    Every statement is about an arbitrary tape of inputs, so about every prefix of every
    interleaving of the sender thread with the calls of the other threads.  The invariant
    [tx_inv] and the growth relation [grows] are kept by every operation; from them follow what
    the datagrams and the announced hashes contain, that a sweep leaves no block out, that the
    engine finishes only when every file is confirmed, and the accounting of acknowledged
    bytes. *)
From S2P Require Export Sender.
#[local] Open Scope Z_scope.

(** ** Definitions *)

Section invariant.
Context (sha : bytes -> bytes).
(** The transfer: the manifest's files, the paths they are read from, and the disk. *)
Context (mfiles : list ManifestFile) (paths : list bytes) (disk : gmap bytes bytes).
(** What was acknowledged and done when the transfer started. *)
Context (acked0 : Z).

Definition source (p : bytes) : bytes := default [] (disk !! p).

(** The transfer fits the types, and the files have the manifest's sizes. *)
Record transfer_ok : Prop := {
  to_len : length paths = length mfiles;
  to_count : zlen mfiles <= kMaxFilesPerTransfer;
  to_size : forall k mf p, mfiles !! k = Some mf -> paths !! k = Some p ->
    0 <= mf.(Manifest.size) <= kMaxFileSize /\ zlen (source p) = mf.(Manifest.size);
  to_total : 0 <= acked0 /\ acked0 + sum_sizes mfiles < 2 ^ 64;
}.

(** A datagram carries a block of a file of the transfer; an announced hash is the file's. *)
Definition effect_ok (e : TxEffect) : Prop :=
  match e with
  | TxDatagram stream wire _ => stream = kStreamData /\
      exists h payload mf p, DecodeBlock (Some wire) (zlen wire) = Some (h, payload) /\
        mfiles !! Z.to_nat h.(file_index) = Some mf /\ paths !! Z.to_nat h.(file_index) = Some p /\
        0 <= h.(file_index) /\ 0 <= h.(block_index) < BlockCountFor mf.(Manifest.size) /\
        h.(len) = BlockLenFor mf.(Manifest.size) h.(block_index) /\
        payload = slice (h.(block_index) * kBlockPayloadSize) h.(len) (source p)
  | TxFileDone index hash => 0 <= index /\ exists p, paths !! Z.to_nat index = Some p /\ hash = Sha256Hex sha (source p)
  | TxAllDone => False
  | _ => True
  end.

(** The positions a SACK names are not negative. *)
Definition sack_range (k : Sack) : Prop :=
  Forall (fun r => 0 <= r.(start)) k.(holes) /\ 0 <= k.(frontier) /\ 0 <= k.(ack_base).

(** What the transport delivers is a buffer of bytes. *)
Definition call_ok (c : TxCall) : Prop :=
  match c with CallSack (Some data) _ => is_bytes data | _ => True end.
Definition input_ok (i : TxInput) : Prop := Forall call_ok i.(i_calls).

(** File [k] of the engine. *)
Record filetx_inv (k : nat) (f : FileTx) : Prop := {
  ft_static : exists mf p, mfiles !! k = Some mf /\ paths !! k = Some p /\ f.(t_index) = Z.of_nat k /\
    f.(t_size) = mf.(Manifest.size) /\ f.(t_blocks) = BlockCountFor mf.(Manifest.size) /\ f.(t_path) = p;
  ft_reader : forall rd, f.(reader) = Some rd -> rd.(r_fp) = None \/ rd.(r_fp) = Some f.(t_path);
  ft_hash : f.(sweep_done) = true -> f.(t_sha256) = Sha256Hex sha (source f.(t_path));
  ft_acked : 0 <= f.(acked_bytes) <= f.(t_size);
  ft_sack : sack_range f.(t_sack);
}.

Definition sum_acked (fs : list FileTx) : Z := foldr (fun f n => f.(acked_bytes) + n) 0 fs.

Record tx_inv (s : Sender) : Prop := {
  ti_len : length s.(tx_) = length mfiles;
  ti_files : forall k f, s.(tx_) !! k = Some f -> filetx_inv k f;
  ti_disk : s.(world_).(w_files) = disk;
  ti_out : Forall effect_ok s.(out_);
  ti_acked : s.(bytes_acked_) = acked0 + sum_acked s.(tx_);
  ti_env : Forall input_ok s.(env_);
  ti_inflight : Forall (fun i => (Z.to_nat i < length s.(tx_))%nat) s.(inflight_);
}.

(** What only grows: the effects, the confirmed files, the blocks to send; a file leaves the
    files in flight only when it is confirmed. *)
Record grows (s s' : Sender) : Prop := {
  gr_out : s.(out_) `prefix_of` s'.(out_);
  gr_file : forall k f, s.(tx_) !! k = Some f -> exists f', s'.(tx_) !! k = Some f' /\
    (f.(t_ok) = true -> f'.(t_ok) = true) /\ (f.(sweep_done) = true -> f'.(sweep_done) = true) /\
    (forall b, Test f'.(skip) b = true -> Test f.(skip) b = true);
  gr_len : length s'.(tx_) = length s.(tx_);
  gr_halted : running s = false -> running s' = false;
  gr_inflight : forall i, i ∈ s.(inflight_) -> i ∈ s'.(inflight_) \/ on_file false t_ok i s' = true;
}.

(** The invariant of a computation that started in [s0]. *)
Definition from (s0 s : Sender) : Prop := tx_inv s /\ grows s0 s.

End invariant.

(** ** Lemmas *)

Lemma grows_refl s : grows s s.
Proof. split; try done; eauto. Qed.

Lemma grows_trans s1 s2 s3 : grows s1 s2 -> grows s2 s3 -> grows s1 s3.
Proof.
  intros [A1 A2 A3 A5 A4] [B1 B2 B3 B5 B4]. split.
  - by etrans.
  - intros k f Hk. destruct (A2 k f Hk) as (f' & Hk' & C1 & C2 & C3). destruct (B2 k f' Hk') as (f'' & Hk'' & D1 & D2 & D3).
    exists f''. split; [done|]. split; auto.
  - congruence.
  - auto.
  - intros i Hi. destruct (A4 i Hi) as [Hi'|Hok]; [by apply B4|]. right. unfold on_file, file_at in *.
    destruct (tx_ s2 !! Z.to_nat i) as [f|] eqn:E; [|done]. destruct (B2 _ _ E) as (f' & -> & C & _). by apply C.
Qed.

(** A step that leaves the files and the files in flight alone. *)
Lemma grows_same s s' : s'.(tx_) = s.(tx_) -> s'.(inflight_) = s.(inflight_) -> s.(out_) `prefix_of` s'.(out_) ->
  (running s = false -> running s' = false) -> grows s s'.
Proof. intros H1 H2 H3 H4. split; rewrite ?H1, ?H2; eauto. Qed.

(** Updating one file. *)
Lemma upd_file_lookup i g s k : (upd_file i g s).(tx_) !! k =
  (if decide (k = Z.to_nat i) then g else id) <$> s.(tx_) !! k.
Proof.
  unfold upd_file, file_at. destruct (tx_ s !! Z.to_nat i) as [f|] eqn:E.
  - cbn. case_decide; subst.
    + rewrite list_lookup_insert_eq by (by eapply lookup_lt_Some). by rewrite E.
    + rewrite list_lookup_insert_ne by done. by destruct (tx_ s !! k).
  - case_decide; subst; [by rewrite E|]. by destruct (tx_ s !! k).
Qed.

Lemma upd_file_rest i g s : (upd_file i g s).(out_) = s.(out_) /\ (upd_file i g s).(inflight_) = s.(inflight_) /\
  (upd_file i g s).(world_) = s.(world_) /\ (upd_file i g s).(bytes_acked_) = s.(bytes_acked_) /\
  length (upd_file i g s).(tx_) = length s.(tx_) /\ (upd_file i g s).(files_done_) = s.(files_done_) /\
  (upd_file i g s).(env_) = s.(env_) /\ running (upd_file i g s) = running s.
Proof. unfold upd_file. destruct (file_at i s); [|done]. cbn. by rewrite length_insert. Qed.

Lemma upd_file_set i f g s : file_at i s = Some f -> upd_file i g s = set_file i (g f) s.
Proof. intros H. unfold upd_file. by rewrite H. Qed.

Lemma sum_acked_insert fs k f f' : fs !! k = Some f ->
  sum_acked (<[k := f']> fs) = sum_acked fs + f'.(acked_bytes) - f.(acked_bytes).
Proof.
  revert k. induction fs as [|g fs IH]; intros [|k] H; [done|done|injection H as ->; cbn; lia|].
  change (<[S k:=f']> (g :: fs)) with (g :: <[k:=f']> fs). cbn [sum_acked foldr].
  specialize (IH k H). unfold sum_acked in IH. lia.
Qed.

Lemma on_file_upd {A} (d : A) g i h s : file_at i s <> None -> on_file d g i (upd_file i h s) = on_file d (g ∘ h) i s.
Proof.
  intros Hi. unfold on_file, file_at. rewrite upd_file_lookup. rewrite decide_True by done. unfold file_at in Hi.
  by destruct (tx_ s !! Z.to_nat i).
Qed.

(** *** The calls of the other threads *)

Section invariant_lemmas.
Context (sha : bytes -> bytes) (mfiles : list ManifestFile) (paths : list bytes) (disk : gmap bytes bytes) (acked0 : Z).
Context (Hok : transfer_ok mfiles paths disk acked0).
Notation tx_inv := (tx_inv sha mfiles paths disk acked0).
Notation from := (from sha mfiles paths disk acked0).
Notation filetx_inv := (filetx_inv sha mfiles paths disk).
Notation effect_ok := (effect_ok sha mfiles paths disk).

(** A file whose static fields, reader and hash are kept. *)
Definition same_source (f f' : FileTx) : Prop :=
  f'.(t_index) = f.(t_index) /\ f'.(t_size) = f.(t_size) /\ f'.(t_blocks) = f.(t_blocks) /\ f'.(t_path) = f.(t_path).

Lemma filetx_keep k f f' : filetx_inv k f -> same_source f f' ->
  (forall rd, f'.(reader) = Some rd -> rd.(r_fp) = None \/ rd.(r_fp) = Some f.(t_path)) ->
  (f'.(sweep_done) = true -> f'.(t_sha256) = Sha256Hex sha (source disk f.(t_path))) ->
  0 <= f'.(acked_bytes) <= f.(t_size) -> sack_range f'.(t_sack) -> filetx_inv k f'.
Proof.
  intros [H1 H2 H3 H4 H5] (E1 & E2 & E3 & E4) Hr Hh Ha Hk. split; rewrite ?E1, ?E2, ?E3, ?E4; done.
Qed.

Lemma znth_bytes l i : is_bytes l -> 0 <= znth l i.
Proof.
  intros H. unfold znth. revert l H. induction (Z.to_nat i) as [|n IH]; intros l H; destruct H as [|b l [Hb _] H]; try done.
  by apply IH.
Qed.

Lemma Get32_bytes l : is_bytes l -> 0 <= Get32 l.
Proof.
  intros H. unfold Get32. rewrite !Z.lor_nonneg. repeat split; try apply u32_range. by apply znth_bytes.
Qed.

Lemma decoded_range data len k : match data with Some d => is_bytes d | None => True end ->
  DecodeSack data len = Some k -> sack_range k.
Proof.
  unfold DecodeSack. destruct data as [d|]; [|done]. intros Hd. case_if; [done|]. case_if; [done|]. case_if; [done|].
  destruct (get_runs (Z.to_nat (Get16 (zdrop 6 d))) (zdrop kSackHeaderSize d)) as [hs|] eqn:E; cbn [mbind option_bind]; [|done].
  intros [= <-]. unfold sack_range. cbn [holes frontier ack_base].
  assert (Hz : forall n l, is_bytes l -> is_bytes (zdrop n l)) by (intros; by apply Forall_drop).
  split; [|split; apply Get32_bytes; by apply Hz].
  assert (Hl : is_bytes (zdrop kSackHeaderSize d)) by by apply Hz. revert E Hl. generalize (zdrop kSackHeaderSize d).
  generalize (Z.to_nat (Get16 (zdrop 6 d))). intros n. revert hs. induction n as [|n IH]; intros hs l; cbn; [by intros [= <-]|].
  case_if; [done|]. destruct (get_runs n (zdrop kSackRunSize l)) as [rs|] eqn:E; cbn; [|done]. intros [= <-] Hl.
  constructor; [by apply Get32_bytes|]. apply (IH rs _ E). by apply Hz.
Qed.

(** Replacing a file of the state by one that shares its source. *)
Lemma tx_inv_upd s i f g :
  tx_inv s -> file_at i s = Some f -> filetx_inv (Z.to_nat i) (g f) -> (g f).(acked_bytes) = f.(acked_bytes) ->
  tx_inv (upd_file i g s).
Proof.
  intros [A1 A2 A3 A4 A5 A6 A7] Hi Hg Ha. destruct (upd_file_rest i g s) as (R1 & R2 & R3 & R4 & R5 & R6 & R7 & _).
  split; rewrite ?R1, ?R2, ?R3, ?R4, ?R5, ?R7; try done.
  - intros k f' Hk. rewrite upd_file_lookup in Hk. case_decide; subst.
    + unfold file_at in Hi. rewrite Hi in Hk. by injection Hk as <-.
    + apply A2. by destruct (tx_ s !! k).
  - unfold upd_file. rewrite Hi. cbn. rewrite (sum_acked_insert _ _ f) by exact Hi. lia.
Qed.

Lemma grows_upd s i f g :
  file_at i s = Some f -> (f.(t_ok) = true -> (g f).(t_ok) = true) -> (f.(sweep_done) = true -> (g f).(sweep_done) = true) ->
  (forall b, Test (g f).(skip) b = true -> Test f.(skip) b = true) -> grows s (upd_file i g s).
Proof.
  intros Hi H1 H1' H2. destruct (upd_file_rest i g s) as (R1 & R2 & R3 & R4 & R5 & _ & _ & R8).
  split; rewrite ?R1, ?R2, ?R5, ?R8; try done.
  - intros k f' Hk. rewrite upd_file_lookup, Hk. cbn. eexists. split; [done|]. case_decide; subst; [|done].
    unfold file_at in Hi. rewrite Hi in Hk. injection Hk as <-. done.
  - by left.
Qed.

(** A change outside the files, the effects and the accounting. *)
Lemma from_same s0 s s' : s'.(tx_) = s.(tx_) -> s'.(inflight_) = s.(inflight_) -> s'.(out_) = s.(out_) ->
  s'.(world_) = s.(world_) -> s'.(bytes_acked_) = s.(bytes_acked_) -> s'.(env_) = s.(env_) ->
  (running s = false -> running s' = false) -> from s0 s -> from s0 s'.
Proof.
  intros H1 H2 H3 H4 H5 H6 H7 [[A1 A2 A3 A4 A5 A6 A7] Hg]. split.
  - split; rewrite ?H1, ?H2, ?H3, ?H4, ?H5, ?H6; done.
  - apply (grows_trans _ s); [done|]. apply grows_same; [done|done|by rewrite H3|done].
Qed.

Lemma from_upd s0 s i f g :
  from s0 s -> file_at i s = Some f -> filetx_inv (Z.to_nat i) (g f) -> (g f).(acked_bytes) = f.(acked_bytes) ->
  (f.(t_ok) = true -> (g f).(t_ok) = true) -> (f.(sweep_done) = true -> (g f).(sweep_done) = true) ->
  (forall b, Test (g f).(skip) b = true -> Test f.(skip) b = true) -> from s0 (upd_file i g s).
Proof.
  intros [Hi Hg] Hf H1 H2 H3 H3' H4. split; [by eapply tx_inv_upd|].
  apply (grows_trans _ s); [done|]. by eapply grows_upd.
Qed.

Lemma from_emit s0 s e : effect_ok e -> from s0 s -> from s0 (emit e s).
Proof.
  intros He [[A1 A2 A3 A4 A5 A6 A7] Hg]. split.
  - split; try done. cbn. apply Forall_app; split; [done|by constructor].
  - apply (grows_trans _ s); [done|]. apply grows_same; [done|done| |done]. cbn. by apply prefix_app_r.
Qed.

Lemma from_Fail s0 s c m : from s0 s -> from s0 (Fail_ c m s).
Proof. intros H. unfold Fail_. case_if; [done|]. apply from_emit; [done|].
  apply (from_same s0 s); try done. unfold running. cbn. by rewrite andb_false_r.
Qed.

Lemma sum_acked_bound s k f : tx_inv s -> s.(tx_) !! k = Some f ->
  0 <= f.(acked_bytes) <= f.(t_size) /\ 0 <= sum_acked s.(tx_) - f.(acked_bytes) /\
  sum_acked s.(tx_) - f.(acked_bytes) + f.(t_size) <= sum_sizes mfiles.
Proof.
  intros [A1 A2 _ _ _ _ _] Hk.
  assert (Hall : forall k f, s.(tx_) !! k = Some f -> 0 <= acked_bytes f <= t_size f /\
    exists mf, mfiles !! k = Some mf /\ t_size f = mf.(Manifest.size)).
  { intros j g Hj. destruct (A2 j g Hj) as [(mf & p & M1 & _ & _ & M4 & _) _ _ Ha _]. split; [done|]. eauto. }
  clear A2. split; [exact (proj1 (Hall k f Hk))|]. revert Hk A1 Hall. generalize s.(tx_). intros fs. clear Hok s.
  revert k mfiles. induction fs as [|g fs IH]; intros k ms Hk Hl Hall; [done|]. destruct ms as [|m ms]; [done|].
  destruct (Hall 0%nat g eq_refl) as (Hg & mf & [= <-] & Hgs).
  assert (Hall' : forall k f, fs !! k = Some f -> 0 <= acked_bytes f <= t_size f /\
    exists mf, ms !! k = Some mf /\ t_size f = mf.(Manifest.size)) by (intros j h Hj; apply (Hall (S j) h Hj)).
  assert (Hsum : 0 <= sum_acked fs <= sum_sizes ms).
  { clear IH Hk Hall k. injection Hl as Hl. revert ms Hl Hall'. induction fs as [|h fs IH]; intros [|n ms] Hl H; try done.
    destruct (H 0%nat h eq_refl) as (Hh & mf & [= <-] & Hhs). injection Hl as Hl.
    specialize (IH ms Hl (fun j => H (S j))). unfold sum_sizes, sum_acked in *. cbn. lia. }
  destruct k as [|k]; unfold sum_sizes, sum_acked in *; cbn in *.
  - injection Hk as <-. lia.
  - injection Hl as Hl. specialize (IH k ms Hk Hl Hall'). lia.
Qed.

(** A call that replaces file [i] and adjusts [bytes_acked_] by the same amount. *)
Lemma from_acked s0 s i f f' d :
  from s0 s -> file_at i s = Some f -> same_source f f' -> f'.(reader) = f.(reader) ->
  f'.(sweep_done) = f.(sweep_done) -> f'.(t_sha256) = f.(t_sha256) -> 0 <= f'.(acked_bytes) <= f.(t_size) ->
  sack_range f'.(t_sack) ->
  d = s.(bytes_acked_) + (f'.(acked_bytes) - f.(acked_bytes)) ->
  (f.(t_ok) = true -> f'.(t_ok) = true) -> (forall b, Test f'.(skip) b = true -> Test f.(skip) b = true) ->
  from s0 (set_file i f' (s <| bytes_acked_ := d |>)).
Proof.
  intros [[A1 A2 A3 A4 A5 A6 A7] Hg] Hi Hs Hr Hd Hh Ha Hrg -> Hk Hb. pose proof (A2 _ _ Hi) as Hf. split.
  - split; cbn; try done.
    + by rewrite length_insert.
    + intros k g Hgk. destruct (decide (k = Z.to_nat i)) as [->|].
      * rewrite list_lookup_insert_eq in Hgk by (by eapply lookup_lt_Some). injection Hgk as <-.
        apply (filetx_keep _ f); [done|done| |by rewrite Hd, Hh; apply Hf|done|done]. rewrite Hr. apply Hf.
      * rewrite list_lookup_insert_ne in Hgk by done. by apply A2.
    + rewrite (sum_acked_insert _ _ f) by done. lia.
    + by rewrite length_insert.
  - apply (grows_trans _ s); [done|]. pose proof (grows_upd s i f (fun _ => f') Hi Hk ltac:(cbn; congruence) Hb) as Hu.
    rewrite (upd_file_set _ f) in Hu by done. destruct Hu as [B1 B2 B3 B5 B4]. split; try done.
Qed.

(** [from_acked] up to the fields the invariant does not read. *)
Lemma from_acked_same s0 s s' i f f' :
  from s0 s -> file_at i s = Some f -> same_source f f' -> f'.(reader) = f.(reader) ->
  f'.(sweep_done) = f.(sweep_done) -> f'.(t_sha256) = f.(t_sha256) -> 0 <= f'.(acked_bytes) <= f.(t_size) ->
  sack_range f'.(t_sack) ->
  (f.(t_ok) = true -> f'.(t_ok) = true) -> (forall b, Test f'.(skip) b = true -> Test f.(skip) b = true) ->
  s'.(tx_) = <[Z.to_nat i := f']> s.(tx_) -> s'.(inflight_) = s.(inflight_) -> s'.(out_) = s.(out_) ->
  s'.(world_) = s.(world_) -> s'.(env_) = s.(env_) -> (running s = false -> running s' = false) ->
  s'.(bytes_acked_) = s.(bytes_acked_) + (f'.(acked_bytes) - f.(acked_bytes)) -> from s0 s'.
Proof.
  intros Hs Hi H1 H2 H3 H4 H5 H5' H6 H7 E1 E2 E3 E4 E6 E7 E5.
  by apply (from_same s0 (set_file i f' (s <| bytes_acked_ := s.(bytes_acked_) + (f'.(acked_bytes) - f.(acked_bytes)) |>)));
    [..|apply (from_acked s0 s i f f')].
Qed.

Lemma from_call s0 s c : call_ok c -> from s0 s -> from s0 (tx_call s c).
Proof.
  intros Hc Hs. pose proof Hs as [Hi _]. pose proof (ti_acked _ _ _ _ _ _ Hi) as Hacc.
  pose proof (to_total _ _ _ _ Hok) as [Ht0 Htot]. destruct c as [data len|i|i|p|]; cbn [tx_call].
  - unfold OnSack. destruct (DecodeSack data len) as [k|] eqn:Ek; [|done]. apply decoded_range in Ek; [|done]. case_if; [done|].
    destruct (file_at (s_file_index k) s) as [f|] eqn:Ef; [|done]. case_if; [done|].
    destruct (sum_acked_bound s _ f Hi Ef) as (B1 & B2 & B3). pose proof (ft_sack _ _ _ _ _ _ (ti_files _ _ _ _ _ _ Hi _ _ Ef)).
    set (acked := if Z.testbit (s_flags k) 0 then t_size f else _).
    assert (Hack : acked_bytes f < acked -> 0 <= acked <= t_size f).
    { intros. split; [lia|]. unfold acked. case_if; lia. }
    clearbody acked. destruct (Z.gtb_spec acked (acked_bytes f)).
    + apply (from_acked_same s0 s _ (s_file_index k) f (f <| t_sack := k |> <| sack_seq ::= (fun n => u32 (n + 1)) |>
        <| acked_bytes := acked |>)); try done; cbn; [lia|]. apply u64_small. unfold in_u64. lia.
    + apply (from_acked_same s0 s _ (s_file_index k) f (f <| t_sack := k |> <| sack_seq ::= (fun n => u32 (n + 1)) |>));
        try done; cbn. lia.
  - unfold OnFileOk. case_if; [done|]. destruct (file_at i s) as [f|] eqn:Ef; [|done]. case_if; [done|].
    destruct (sum_acked_bound s _ f Hi Ef) as (B1 & B2 & B3). pose proof (ft_sack _ _ _ _ _ _ (ti_files _ _ _ _ _ _ Hi _ _ Ef)). destruct (Z.gtb_spec (t_size f) (acked_bytes f)).
    + apply (from_acked_same s0 s _ i f (f <| t_ok := true |> <| acked_bytes := t_size f |>)); try done; cbn; [lia|].
      apply u64_small. unfold in_u64. lia.
    + apply (from_acked_same s0 s _ i f (f <| t_ok := true |>)); try done; cbn. lia.
  - unfold OnFileBad. case_if; [done|]. destruct (file_at i s) as [f|] eqn:Ef; [|done]. case_if; [done|].
    destruct (sum_acked_bound s _ f Hi Ef) as (B1 & B2 & B3). pose proof (ft_sack _ _ _ _ _ _ (ti_files _ _ _ _ _ _ Hi _ _ Ef)). destruct (Z.gtb_spec (acked_bytes f) 0).
    + apply (from_acked_same s0 s _ i f (f <| skip := Reset (t_blocks f) |> <| acked_bytes := 0 |>
        <| t_sack := Sack_default |> <| sack_seq := 0 |>)); try done; cbn; [lia| |lia]. intros b. by rewrite Test_Reset.
    + apply (from_acked_same s0 s _ i f (f <| skip := Reset (t_blocks f) |>
        <| t_sack := Sack_default |> <| sack_seq := 0 |>)); try done; cbn; [|lia]. intros b. by rewrite Test_Reset.
  - by apply (from_same s0 s).
  - by apply (from_same s0 s).
Qed.

Lemma from_absorb s0 i tl s : env_ s = i :: tl -> from s0 s -> from s0 (absorb i tl s).
Proof.
  intros He Hs. assert (Hi : Forall input_ok (i :: tl)) by (rewrite <- He; apply Hs).
  apply Forall_cons in Hi as [Hi Htl]. clear He. cbn [absorb sender_thread].
  enough (H : from s0 (foldl tx_call s i.(i_calls))).
  { destruct H as [[A1 A2 A3 A4 A5 A6 A7] Hg]. split; [by split|]. apply (grows_trans _ _ _ Hg). by apply grows_same. }
  clear Htl tl. revert s Hs. induction Hi as [|c cs Hc Hcs IH]; intros s Hs; cbn [foldl]; [done|].
  by apply IH, from_call.
Qed.

(** *** The operations of the thread *)

Notation keeps m Q := (forall s0, triple (from s0) m Q).

Lemma keeps_tick (Q : TxInput -> Prop) : (forall i, Q i) -> keeps tick Q.
Proof. intros HQ s0. apply triple_tick; [|done]. intros. by apply from_absorb. Qed.

Lemma keeps_ret {A} (a : A) (Q : A -> Prop) : Q a -> keeps (mret a : tx A) Q.
Proof. intros HQ s0. by apply triple_ret. Qed.

Lemma keeps_bind {A B} (m : tx A) (k : A -> tx B) (Q : B -> Prop) :
  (forall s0, triple (from s0) m (fun a => triple (from s0) (k a) Q)) -> keeps (m ≫= k) Q.
Proof. intros Hm s0. eapply triple_bind; [apply Hm|done]. Qed.

Lemma keeps_gets {A} (f : Sender -> A) : keeps (gets f) (fun _ => True).
Proof. intros s0. by apply triple_gets. Qed.

Lemma keeps_load {A} (f : Sender -> A) : keeps (load f) (fun _ => True).
Proof. intros s0. eapply triple_bind; [by apply (keeps_tick (fun _ => True))|]. intros _ _. apply keeps_gets. Qed.

(** A change of what the invariant does not read. *)
Lemma keeps_modify (f : Sender -> Sender) :
  (forall s, (f s).(tx_) = s.(tx_) /\ (f s).(inflight_) = s.(inflight_) /\ (f s).(out_) = s.(out_) /\
             (f s).(world_) = s.(world_) /\ (f s).(bytes_acked_) = s.(bytes_acked_) /\ (f s).(env_) = s.(env_) /\
             running (f s) = running s) ->
  keeps (modify f) (fun _ => True).
Proof.
  intros Hf s0. apply triple_modify; [|done]. intros s Hs. destruct (Hf s) as (H1 & H2 & H3 & H4 & H5 & H6 & H7).
  apply (from_same s0 s); try done. by rewrite H7.
Qed.

Lemma keeps_emit e : effect_ok e -> keeps (modify (emit e)) (fun _ => True).
Proof. intros He s0. apply triple_modify; [|done]. intros s. by apply from_emit. Qed.

Lemma keeps_Fail c m : keeps (modify (Fail_ c m)) (fun _ => True).
Proof. intros s0. apply triple_modify; [|done]. intros s Hs. by apply from_Fail. Qed.

(** *** Blocks *)

(** What the thread may send: a block of file [i] with its bytes. *)
Definition block_ok (i block : Z) (payload : bytes) (len : Z) : Prop :=
  exists mf p, mfiles !! Z.to_nat i = Some mf /\ paths !! Z.to_nat i = Some p /\
    0 <= block < BlockCountFor mf.(Manifest.size) /\ len = BlockLenFor mf.(Manifest.size) block /\
    payload = slice (block * kBlockPayloadSize) len (source disk p).

Lemma acked_count_range mf k : mfiles !! k = Some mf -> 0 <= mf.(Manifest.size) <= kMaxFileSize.
Proof.
  intros Hk. destruct (paths !! k) as [p|] eqn:Hp; [by apply (to_size _ _ _ _ Hok k mf p)|].
  apply lookup_ge_None in Hp. rewrite (to_len _ _ _ _ Hok) in Hp. apply lookup_lt_Some in Hk. lia.
Qed.

Lemma block_count mf k : mfiles !! k = Some mf ->
  0 <= BlockCountFor mf.(Manifest.size) < 2 ^ 32 /\
  mf.(Manifest.size) <= BlockCountFor mf.(Manifest.size) * 1100 < mf.(Manifest.size) + 1100.
Proof.
  intros Hk. pose proof (acked_count_range _ _ Hk) as H. rewrite BlockCountFor_ceil by done.
  unfold kMaxFileSize, kBlockPayloadSize in *. Z.div_mod_to_equations. lia.
Qed.

Lemma block_len mf k block : mfiles !! k = Some mf -> 0 <= block < BlockCountFor mf.(Manifest.size) ->
  BlockLenFor mf.(Manifest.size) block = Z.min 1100 (mf.(Manifest.size) - 1100 * block) /\
  0 < BlockLenFor mf.(Manifest.size) block.
Proof.
  intros Hk Hb. pose proof (block_count _ _ Hk). pose proof (acked_count_range _ _ Hk).
  rewrite BlockLenFor_spec by lia. lia.
Qed.

Lemma file_source s i f : tx_inv s -> file_at i s = Some f -> exists mf p,
  mfiles !! Z.to_nat i = Some mf /\ paths !! Z.to_nat i = Some p /\ f.(t_index) = Z.of_nat (Z.to_nat i) /\
  f.(t_size) = mf.(Manifest.size) /\ f.(t_blocks) = BlockCountFor mf.(Manifest.size) /\ f.(t_path) = p.
Proof. intros Hi Hf. exact (ft_static _ _ _ _ _ _ (ti_files _ _ _ _ _ _ Hi _ _ Hf)). Qed.

Lemma file_exists s i mf : tx_inv s -> mfiles !! Z.to_nat i = Some mf -> exists f, file_at i s = Some f.
Proof.
  intros Hi Hm. apply lookup_lt_Some in Hm. rewrite <- (ti_len _ _ _ _ _ _ Hi) in Hm.
  by apply lookup_lt_is_Some in Hm as [f Hf]; exists f.
Qed.

(** The datagram of a block. *)
Lemma wire_ok s i f block payload len : tx_inv s -> file_at i s = Some f -> block_ok i block payload len ->
  exists h, DecodeBlock (Some (block_wire (block_header f block len) payload))
    (zlen (block_wire (block_header f block len) payload)) = Some (h, payload) /\
    h.(file_index) = Z.of_nat (Z.to_nat i) /\ h.(block_index) = block /\ h.(BlockCodec.len) = len.
Proof.
  intros Hi Hf (mf & p & Hm & Hp & Hb & Hl & Hpay). exists (block_header f block len).
  destruct (file_source s i f Hi Hf) as (mf' & p' & Hm' & Hp' & Hidx & _).
  pose proof (block_len _ _ _ Hm Hb) as [Hlen Hlen0]. pose proof (block_count _ _ Hm) as [Hc _]. rewrite <- Hl in Hlen, Hlen0.
  pose proof (to_size _ _ _ _ Hok _ _ _ Hm Hp) as [_ Hsrc].
  assert (Hz : zlen payload = len).
  { rewrite Hpay, zlen_slice by (unfold kBlockPayloadSize; lia). rewrite Hsrc. unfold kBlockPayloadSize in *. lia. }
  assert (Hn : (Z.to_nat i < length mfiles)%nat) by (by eapply lookup_lt_Some).
  pose proof (to_count _ _ _ _ Hok) as Hcnt. unfold zlen, kMaxFilesPerTransfer in Hcnt.
  assert (Hw : wf_header (block_header f block len)).
  { unfold wf_header, block_header. cbn. rewrite Hidx. unfold in_u8, in_u16, in_u32.
    split; [case_if; unfold kBlockFlagLast; lia|lia]. }
  assert (Hle : len <= kBlockPayloadSize) by (unfold kBlockPayloadSize; lia).
  destruct (DecodeBlock_bytes _ _ Hw Hle Hz) as [HL HD].
  enough (Hwire : block_wire (block_header f block len) payload = block_bytes (block_header f block len) ++ payload).
  { rewrite Hwire. split; [exact HD|]. cbn. by rewrite Hidx. }
  unfold block_wire. rewrite EncodeBlock_layout; cbn [BlockCodec.len block_header] in *.
  - cbn [default from_option id]. unfold ztake. rewrite app_assoc, take_app_le.
    + rewrite take_ge; [done|]. unfold zlen in HL. lia.
    + unfold zlen in HL. lia.
  - lia.
  - lia.
  - zlen_simpl. unfold kBlockHeaderSize, kBlockPayloadSize in *. lia.
  - lia.
Qed.

Lemma wire_effect s i f block payload len r : tx_inv s -> file_at i s = Some f -> block_ok i block payload len ->
  effect_ok (TxDatagram kStreamData (block_wire (block_header f block len) payload) r).
Proof.
  intros Hi Hf Hb. destruct (wire_ok _ _ _ _ _ _ Hi Hf Hb) as (h & HD & E1 & E2 & E3).
  destruct Hb as (mf & p & Hm & Hp & Hb & Hl & Hpay). split; [done|]. exists h, payload, mf, p.
  rewrite E1, E2, E3, Nat2Z.id. repeat split; try done; lia.
Qed.

(** *** Operations that send nothing *)

Lemma keeps_any_tick : keeps tick (fun _ => True).
Proof. by apply keeps_tick. Qed.

#[local] Hint Resolve keeps_any_tick keeps_gets keeps_load keeps_Fail : keeps.

(** One step through a computation: its head is one of the operations known to keep the
    invariant. *)
Ltac keeps_step :=
  lazymatch goal with
  | |- triple _ (mret _) _ => apply triple_ret; try solve [repeat case_match; done]
  | |- triple _ (modify _) _ => apply keeps_modify; intros ?
  | |- triple _ (_ ≫= _) _ => eapply triple_bind; [first [solve [eauto with keeps] | apply keeps_modify; intros ?]|cbv beta; intros ? ?]
  | |- triple _ (if ?b then _ else _) _ => destruct b
  | |- triple _ (match ?x with _ => _ end) _ => destruct x
  | |- triple _ (gets _) _ => apply keeps_gets
  end.
Ltac keeps_auto := repeat (keeps_step; try done).

Lemma keeps_NowMs : keeps NowMs (fun _ => True).
Proof. intros s0. unfold NowMs. keeps_auto. Qed.

Lemma keeps_NowMsExact : keeps NowMsExact (fun _ => True).
Proof. intros s0. unfold NowMsExact. keeps_auto. Qed.
#[local] Hint Resolve keeps_NowMs keeps_NowMsExact : keeps.

Lemma keeps_sleep ms : keeps (sleep_for ms) (fun _ => True).
Proof. intros s0. unfold sleep_for. eapply triple_bind; [by apply keeps_emit|]. intros _ _. keeps_auto. Qed.
#[local] Hint Resolve keeps_sleep : keeps.

Lemma keeps_PauseWait : keeps PauseWait (fun _ => True).
Proof.
  intros s0. unfold PauseWait. do 2 keeps_step; [keeps_auto|].
  eapply triple_bind.
  - apply (triple_iter _ _ (fun _ => True) (fun _ => True)); [|done]. intros [] _. keeps_auto.
  - intros _ _. keeps_auto.
Qed.

Lemma keeps_UpdateRate : keeps UpdateRate (fun _ => True).
Proof.
  intros s0. unfold UpdateRate. keeps_auto.
  - destruct (i_est a1) as [[bwe rtt]|]; [|done]. by case_if.
  - cbn zeta. by case_if.
Qed.
#[local] Hint Resolve keeps_PauseWait keeps_UpdateRate : keeps.

Lemma keeps_WaitTokens n : keeps (WaitTokens n) (fun _ => True).
Proof.
  intros s0. unfold WaitTokens. apply (triple_iter _ _ (fun _ => True) (fun _ => True)); [|done]. intros [] _.
  do 5 keeps_step; try done. eapply triple_bind; [|intros _ _; keeps_auto].
  case_if; [apply keeps_UpdateRate|by apply triple_ret].
Qed.
#[local] Hint Resolve keeps_WaitTokens : keeps.

(** *** Operations on one file *)

Lemma from_upd_file s0 s i g :
  (forall f, file_at i s = Some f -> filetx_inv (Z.to_nat i) f -> filetx_inv (Z.to_nat i) (g f) /\
     (g f).(acked_bytes) = f.(acked_bytes) /\ (f.(t_ok) = true -> (g f).(t_ok) = true) /\
     (f.(sweep_done) = true -> (g f).(sweep_done) = true) /\ (g f).(skip) = f.(skip)) ->
  from s0 s -> from s0 (upd_file i g s).
Proof.
  intros Hg Hs. destruct (file_at i s) as [f|] eqn:Ef.
  - destruct (Hg f eq_refl (ti_files _ _ _ _ _ _ (proj1 Hs) _ _ Ef)) as (H1 & H2 & H3 & H4 & H5).
    apply (from_upd s0 s i f); try done. by rewrite H5.
  - unfold upd_file. by rewrite Ef.
Qed.

(** An update of the bookkeeping: send times, announcement. *)
Lemma keeps_do_file i g :
  (forall f, same_source f (g f) /\ (g f).(reader) = f.(reader) /\ (g f).(sweep_done) = f.(sweep_done) /\
     (g f).(t_sha256) = f.(t_sha256) /\ (g f).(acked_bytes) = f.(acked_bytes) /\ (g f).(t_ok) = f.(t_ok) /\
     (g f).(t_sack) = f.(t_sack) /\ (g f).(skip) = f.(skip)) ->
  keeps (do_file i g) (fun _ => True).
Proof.
  intros Hg s0. apply triple_modify; [|done]. intros s. apply from_upd_file. intros f _ Hf.
  destruct (Hg f) as (H1 & H2 & H3 & H4 & H5 & H6 & H7 & H8). rewrite H5, H6, H3. split; [|done].
  apply (filetx_keep _ f); rewrite ?H2, ?H3, ?H4, ?H5, ?H7; try done; apply Hf.
Qed.

Definition block_offset (block : Z) : Z := block * kBlockPayloadSize.

(** What [ReadBlocks] returns is the source, as many bytes as asked for. *)
Lemma keeps_ReadBlocks i block n : 0 <= block < 2 ^ 32 -> 0 <= n < 2 ^ 32 ->
  keeps (ReadBlocks i block n) (fun r => forall buf, r = Some buf -> exists mf p,
    mfiles !! Z.to_nat i = Some mf /\ paths !! Z.to_nat i = Some p /\
    zlen buf = Z.min (n * 1100) (mf.(Manifest.size) - Z.min mf.(Manifest.size) (block * 1100)) /\
    buf = slice (block * 1100) (zlen buf) (source disk p)).
Proof.
  intros Hb Hn s0 s Hs. unfold ReadBlocks. destruct (file_at i s) as [f|] eqn:Ef; [|by split; [|intros ? [= <-]]].
  destruct (file_source s i f (proj1 Hs) Ef) as (mf & p & Hm & Hp & Hidx & Hsz & Hbl & Hpath).
  set (opened := match reader f with Some r => inr (r, s) | None => _ end).
  assert (Hopen : match opened with
    | inl s' => from s0 s'
    | inr (r, s') => from s0 s' /\ (r.(r_fp) = None \/ r.(r_fp) = Some p)
    end).
  { unfold opened. clear opened. destruct (reader f) as [r|] eqn:Er.
    - split; [done|]. rewrite <- Hpath. exact (ft_reader _ _ _ _ _ _ (ti_files _ _ _ _ _ _ (proj1 Hs) _ _ Ef) r Er).
    - pose proof (FileReader_Open_result (t_path f) s.(world_)) as HO.
      destruct (FileReader_Open (t_path f) (world_ s)) as [[ok r] w]. destruct HO as [HO1 HO2].
      assert (Hs1 : from s0 (upd_file i (fun f => f <| reader := Some r |>) (s <| world_ := w |>))).
      { apply from_upd_file.
        - intros g Hg Hgi. change (file_at i s = Some g) in Hg. rewrite Ef in Hg. injection Hg as <-.
          split; [|done]. apply (filetx_keep _ f); try done; try apply Hgi. intros rd [= <-]. exact HO2.
        - destruct Hs as [[A1 A2 A3 A4 A5 A6 A7] Hg]. split; [split; try done; cbn; by rewrite HO1|].
          apply (grows_trans _ _ _ Hg). by apply grows_same. }
      case_if; [by apply from_Fail|]. case_if; [by apply from_Fail|]. split; [done|]. by rewrite <- Hpath. }
  destruct opened as [s'|[r s']]; [by split; [|intros ? [= <-]]|]. destruct Hopen as [Hs' Hr].
  pose proof (acked_count_range _ _ Hm) as Hrange. unfold kMaxFileSize, kBlockPayloadSize in Hrange.
  assert (E1 : u64 (block * kBlockPayloadSize) = block * 1100) by (apply u64_small; unfold in_u64, kBlockPayloadSize; lia).
  assert (E2 : u64 (n * kBlockPayloadSize) = n * 1100) by (apply u64_small; unfold in_u64, kBlockPayloadSize; lia).
  rewrite E1, E2, Hsz.
  set (want := Z.min (n * 1100) (Manifest.size mf - Z.min (Manifest.size mf) (block * 1100))).
  destruct (ReadAt_result r (block * 1100) want s'.(world_) ltac:(lia) ltac:(lia)) as [HR1 HR2].
  destruct (ReadAt r (block * 1100) want (world_ s')) as [got w]. cbn [fst snd] in *.
  assert (Hs2 : from s0 (s' <| world_ := w |>)).
  { destruct Hs' as [[A1 A2 A3 A4 A5 A6 A7] Hg]. split; [split; try done; cbn; by rewrite HR1|].
    apply (grows_trans _ _ _ Hg). by apply grows_same. }
  destruct got as [buf|]; [|by split; [apply from_Fail|intros ? [= <-]]].
  destruct (Z.eqb_spec (zlen buf) want) as [Hw|]; [|by split; [apply from_Fail|intros ? [= <-]]].
  split; [done|]. intros ? [= <-] buf' [= <-]. exists mf, p. split; [done|]. split; [done|]. split; [done|].
  destruct (HR2 buf eq_refl) as (q & Hq & _ & Hbuf). assert (q = p) as -> by (destruct Hr; congruence).
  unfold content_of in Hbuf. by rewrite (ti_disk _ _ _ _ _ _ (proj1 Hs')) in Hbuf.
Qed.

(** The length of a block and its datagram, read from the state. *)
Lemma keeps_len i block mf : mfiles !! Z.to_nat i = Some mf ->
  keeps (gets (on_file 0 (fun f => BlockLenFor f.(t_size) block) i)) (fun len => len = BlockLenFor mf.(Manifest.size) block).
Proof.
  intros Hm s0. apply triple_gets. intros s Hs. destruct (file_exists s i mf (proj1 Hs) Hm) as [f Hf].
  unfold on_file. rewrite Hf. destruct (file_source s i f (proj1 Hs) Hf) as (mf' & p' & Hm' & _ & _ & -> & _).
  rewrite Hm in Hm'. by injection Hm' as <-.
Qed.

Lemma keeps_wire i block payload len : block_ok i block payload len ->
  keeps (gets (on_file [] (fun f => block_wire (block_header f block len) payload) i))
    (fun wire => forall r, effect_ok (TxDatagram kStreamData wire r)).
Proof.
  intros (mf & p & Hm & Hrest) s0. apply triple_gets. intros s Hs r.
  destruct (file_exists s i mf (proj1 Hs) Hm) as [f Hf]. unfold on_file. rewrite Hf.
  apply (wire_effect s i f); [apply Hs|done|]. by exists mf, p.
Qed.

Lemma keeps_send_round wire len rep : (forall r, effect_ok (TxDatagram kStreamData wire r)) ->
  keeps (send_round wire len rep) (fun r => match r with inl _ => True | inr _ => True end).
Proof.
  intros Hw s0. unfold send_round. do 3 keeps_step; try done. cbn zeta. eapply triple_bind; [apply keeps_emit, Hw|]. intros _ _.
  keeps_step; [keeps_auto|]. keeps_step; [keeps_auto|]. keeps_step. keeps_step; [by case_if|].
  do 2 keeps_step; keeps_auto.
Qed.

Lemma keeps_SendBlock i block payload len rep : block_ok i block payload len ->
  keeps (SendBlock i block payload len rep) (fun _ => True).
Proof.
  intros Hb s0. unfold SendBlock. eapply triple_bind.
  - by apply keeps_wire.
  - intros wire Hw. apply (triple_iter _ _ (fun _ => True) (fun _ => True)); [|done]. intros [] _.
    eapply triple_weaken; [by apply keeps_send_round|]. by intros [].
Qed.

Lemma repair_holes_range s i f : tx_inv s -> file_at i s = Some f -> Forall (fun r => 0 <= r.(start)) (repair_holes f).
Proof.
  intros Hi Hf. destruct (ft_sack _ _ _ _ _ _ (ti_files _ _ _ _ _ _ Hi _ _ Hf)) as (H1 & H2 & H3).
  unfold repair_holes. assert (Hh : Forall (fun r => 0 <= start r) (if sack_seq f >? 0 then holes (t_sack f) else [])).
  { by destruct (sack_seq f >? 0). }
  destruct (sweep_done f); [|done]. destruct (_ <? _); [|done]. apply Forall_app. split; [done|].
  constructor; [|done]. cbn. destruct (sack_seq f >? 0); lia.
Qed.

Lemma keeps_repair_block i block now hold budget mf :
  mfiles !! Z.to_nat i = Some mf -> 0 <= block < BlockCountFor mf.(Manifest.size) ->
  keeps (repair_block i block now hold budget) (fun _ => True).
Proof.
  intros Hm Hb s0. pose proof (block_count _ _ Hm) as [Hc _]. pose proof (acked_count_range _ _ Hm) as Hr.
  unfold repair_block. do 2 keeps_step; [by apply triple_ret|]. do 2 keeps_step; [by apply triple_ret|].
  do 2 keeps_step; [by apply triple_ret|]. eapply triple_bind; [apply keeps_ReadBlocks; lia|].
  intros buf Hbuf. destruct buf as [buf|]; [|by apply triple_ret].
  destruct (Hbuf buf eq_refl) as (mf' & p & Hm' & Hp & Hlen & Heq). rewrite Hm in Hm'. injection Hm' as <-.
  eapply triple_bind.
  { by apply keeps_len. }
  intros len ->. do 2 keeps_step; [by apply triple_ret|]. eapply triple_bind.
  { apply keeps_SendBlock. exists mf, p. repeat split; try done; try lia.
    destruct (block_len _ _ _ Hm Hb) as [Hl Hl0]. rewrite Heq. unfold kBlockPayloadSize. f_equal.
    rewrite Hl in *. lia. }
  intros ok _. keeps_step; [by apply triple_ret|]. keeps_step. eapply triple_bind; [|by intros; apply triple_ret].
  apply keeps_do_file. intros f. by repeat split.
Qed.

Lemma keeps_repair_run i now hold budget run : 0 <= run.(start) ->
  keeps (repair_run i now hold budget run) (fun _ => True).
Proof.
  intros Hst s0. unfold repair_run. eapply triple_bind.
  - apply (triple_gets _ _ (fun e => e <= 0 \/ exists mf, mfiles !! Z.to_nat i = Some mf /\ e <= BlockCountFor mf.(Manifest.size))).
    intros s Hs. unfold on_file. destruct (file_at i s) as [f|] eqn:Hf; [right|by left].
    destruct (file_source s i f (proj1 Hs) Hf) as (mf & p' & Hm & _ & _ & _ & -> & _). exists mf. split; [done|lia].
  - intros e He. apply (triple_iter _ _ (fun '(b, _) => 0 <= b) (fun _ => True)); [|done].
    intros [block bud] Hbl. destruct (Z.ltb_spec block e); cbn [andb]; [|by apply triple_ret].
    keeps_step; [|by apply triple_ret]. destruct He as [He|(mf & Hm & He)]; [lia|].
    eapply triple_bind; [apply (keeps_repair_block i block now hold bud mf Hm); lia|].
    intros [b|] _; apply triple_ret; [|done]. pose proof (u32_range (block + 1)) as Hu. unfold in_u32 in Hu. lia.
Qed.

Lemma keeps_RepairFile i now hold budget : keeps (RepairFile i now hold budget) (fun _ => True).
Proof.
  intros s0. unfold RepairFile. eapply triple_bind.
  - intros s Hs. unfold load. eapply (triple_bind _ _ _ (fun _ => True)
      (fun f => forall g, f = Some g -> Forall (fun r => 0 <= r.(start)) (repair_holes g))); [apply keeps_any_tick| |done].
    intros _ _. apply triple_gets. intros s1 Hs1 g Hg. by apply (repair_holes_range s1 i g (proj1 Hs1)).
  - intros [f|] Hf; [|by apply triple_ret]. specialize (Hf f eq_refl). keeps_step; [by apply triple_ret|].
    cbn zeta. keeps_step; [by apply triple_ret|]. eapply triple_bind.
    + instantiate (1 := fun _ => True). case_if; [|by apply triple_ret]. apply keeps_do_file. intros g. by repeat split.
    + intros _ _. revert budget. induction Hf as [|run runs Hr Hrs IH]; intros budget; cbn [repair_runs]; [by apply triple_ret|].
      eapply triple_bind; [by apply keeps_repair_run|]. intros [b|] _; [|by apply triple_ret]. keeps_step; [by apply triple_ret|done].
Qed.

Lemma keeps_repair_files now hold budget did fs : keeps (repair_files now hold budget did fs) (fun _ => True).
Proof.
  intros s0. revert budget did. induction fs as [|i fs IH]; intros budget did; cbn [repair_files]; [by apply triple_ret|].
  do 2 keeps_step; [done|]. eapply triple_bind; [apply keeps_RepairFile|]. intros [b|] _; [|by apply triple_ret].
  cbn zeta. by case_if; [apply triple_ret|].
Qed.

Lemma keeps_RepairPass : keeps RepairPass (fun _ => True).
Proof.
  intros s0. unfold RepairPass. do 2 keeps_step; [by apply triple_ret|]. do 2 keeps_step. apply keeps_repair_files.
Qed.
#[local] Hint Resolve keeps_RepairPass : keeps.

(** Forgetting the confirmed files: the fold, with the files still to visit counted as in
    flight. *)
Definition with_pending (l : list Z) (s : Sender) : Sender := s <| inflight_ ::= (fun k => k ++ l) |>.

Lemma reap_step i l s : tx_inv s -> (Z.to_nat i < length s.(tx_))%nat ->
  let s1 := if on_file false t_ok i s
            then upd_file i (fun f => f <| reader := None |> <| repair_ms := [] |>) s
            else s <| inflight_ ::= (fun l => l ++ [i]) |> in
  tx_inv s1 /\ length s1.(tx_) = length s.(tx_) /\ grows (with_pending (i :: l) s) (with_pending l s1).
Proof.
  intros Hi Hv s1. unfold s1. clear s1. unfold on_file. destruct (file_at i s) as [f|] eqn:Ef.
  - destruct (t_ok f) eqn:Eok.
    + set (g := fun f : FileTx => f <| reader := None |> <| repair_ms := [] |>).
      assert (Hf : from s (upd_file i g s)).
      { apply from_upd_file; [|by split; [|apply grows_refl]]. intros h _ Hh. split; [|done].
        by apply (filetx_keep _ h); try done; apply Hh. }
      split; [apply Hf|]. split; [apply upd_file_rest|]. destruct Hf as [_ [G1 G2 G3 G5 G4]]. destruct (upd_file_rest i g s) as (R1 & R2 & _).
      split; [exact G1|exact G2|exact G3|exact G5|]. intros j Hj. cbn in Hj |- *. rewrite R2.
      rewrite !elem_of_app, elem_of_cons in Hj. destruct Hj as [Hj|[->|Hj]]; [left|right|left]; try (apply elem_of_app; tauto).
      change (on_file false t_ok i (upd_file i g s) = true). rewrite on_file_upd by by rewrite Ef.
      unfold on_file. by rewrite Ef.
    + split; [|split; [done|]; apply grows_same; try done; cbn; by rewrite <- app_assoc].
      destruct Hi as [A1 A2 A3 A4 A5 A6 A7]. split; try done. apply Forall_app. by repeat constructor.
  - split; [|split; [done|]; apply grows_same; try done; cbn; by rewrite <- app_assoc].
    destruct Hi as [A1 A2 A3 A4 A5 A6 A7]. split; try done. apply Forall_app. by repeat constructor.
Qed.

Lemma from_reap s0 s : from s0 s -> from s0 (reap s).
Proof.
  intros [Hi Hg]. unfold reap.
  enough (H : forall l st, tx_inv st -> Forall (fun i => (Z.to_nat i < length st.(tx_))%nat) l ->
    let st' := foldl (fun s i => if on_file false t_ok i s
      then upd_file i (fun f => f <| reader := None |> <| repair_ms := [] |>) s
      else s <| inflight_ ::= (fun l => l ++ [i]) |>) st l in
    tx_inv st' /\ grows (with_pending l st) st').
  { destruct (H (inflight_ s) (s <| inflight_ := [] |>)) as [H1 H2]; [by destruct Hi; split|apply Hi|].
    split; [exact H1|]. apply (grows_trans _ _ _ Hg). apply (grows_trans _ (with_pending (inflight_ s) (s <| inflight_ := [] |>))).
    - by apply grows_same.
    - exact H2. }
  intros l. induction l as [|i l IH]; intros st Hst Hl; cbn [foldl].
  - split; [done|]. apply grows_same; try done. cbn. by rewrite app_nil_r.
  - apply Forall_cons in Hl as [Hv Hl]. destruct (reap_step i l st Hst Hv) as (H1 & Hlen & H2).
    destruct (IH _ H1) as [H3 H4]; [by rewrite Hlen|]. split; [exact H3|].
    by eapply grows_trans.
Qed.

Lemma keeps_Reap : keeps ReapInflight (fun _ => True).
Proof. intros s0. unfold ReapInflight. keeps_step. apply triple_modify; [|done]. intros s. apply from_reap. Qed.
#[local] Hint Resolve keeps_Reap : keeps.

Lemma slice_slice {A} a m o n (l : list A) : 0 <= a -> 0 <= o -> 0 <= n -> o + n <= m ->
  slice o n (slice a m l) = slice (a + o) n l.
Proof.
  intros. unfold slice, ztake, zdrop. rewrite skipn_firstn_comm, take_take, drop_drop.
  f_equal; [lia|]. f_equal. lia.
Qed.

(** One block of a sweep, whose buffer starts at block [b0]. *)
Lemma keeps_sweep_block i b0 j m since buf mf p :
  mfiles !! Z.to_nat i = Some mf -> paths !! Z.to_nat i = Some p -> 0 <= b0 -> 0 <= j < m ->
  b0 + m <= BlockCountFor mf.(Manifest.size) -> buf = slice (b0 * 1100) (m * 1100) (source disk p) ->
  keeps (sweep_block i (b0 + j) j since buf) (fun _ => True).
Proof.
  intros Hm Hp Hb0 Hj Hle Hbuf s0. unfold sweep_block. eapply triple_bind.
  { by apply keeps_len. }
  intros len ->. keeps_step. destruct (block_len mf (Z.to_nat i) (b0 + j) Hm ltac:(lia)) as [Hl Hl0].
  eapply (triple_bind _ _ _ (fun _ => True)).
  { keeps_step; [by apply triple_ret|]. keeps_step. keeps_step; [by apply triple_ret|].
    apply keeps_SendBlock. exists mf, p. repeat split; try done; try lia. rewrite Hbuf. unfold kBlockPayloadSize in *.
    rewrite slice_slice by lia. f_equal. lia. }
  intros sent _. keeps_step; [by apply triple_ret|]. keeps_step. eapply triple_bind.
  { apply keeps_do_file. intros f. by repeat split. }
  intros _ _. keeps_auto.
Qed.

Lemma keeps_sweep_chunk n i b0 j m since buf mf p :
  mfiles !! Z.to_nat i = Some mf -> paths !! Z.to_nat i = Some p -> 0 <= b0 -> 0 <= j -> j + Z.of_nat n = m ->
  b0 + m <= BlockCountFor mf.(Manifest.size) -> buf = slice (b0 * 1100) (m * 1100) (source disk p) ->
  keeps (sweep_chunk n i b0 j since buf) (fun _ => True).
Proof.
  intros Hm Hp Hb0 Hj Hn Hle Hbuf s0. revert j since Hj Hn. induction n as [|n IH]; intros j since Hj Hn; cbn [sweep_chunk].
  { by apply triple_ret. }
  eapply triple_bind; [by apply (keeps_sweep_block i b0 j m since buf mf p); try done; lia|].
  intros [k|] _; [|by apply triple_ret]. apply IH; lia.
Qed.

Lemma Update_app ctx d : Sha256_Update ctx d = ctx ++ d.
Proof.
  unfold Sha256_Update. destruct (Z.eqb_spec (zlen d) 0) as [H|]; [|done].
  apply zlen_nil_inv in H as ->. by rewrite app_nil_r.
Qed.

(** The hash context of a sweep is the part of the source that was read. *)
Lemma ctx_grow (src : bytes) block n : 0 <= block -> 0 <= n ->
  Sha256_Update (ztake (block * 1100) src) (slice (block * 1100) (n * 1100) src) = ztake ((block + n) * 1100) src.
Proof.
  intros. rewrite Update_app. unfold slice, ztake, zdrop. rewrite <- (take_drop (Z.to_nat (block * 1100)) (take (Z.to_nat ((block + n) * 1100)) src)).
  rewrite take_take, skipn_firstn_comm. f_equal; f_equal; lia.
Qed.

Lemma sweep_buffer mf p k block n buf : mfiles !! k = Some mf -> paths !! k = Some p -> 0 <= block -> 0 <= n ->
  block + n <= BlockCountFor mf.(Manifest.size) ->
  zlen buf = Z.min (n * 1100) (mf.(Manifest.size) - Z.min mf.(Manifest.size) (block * 1100)) ->
  buf = slice (block * 1100) (zlen buf) (source disk p) -> buf = slice (block * 1100) (n * 1100) (source disk p).
Proof.
  intros Hm Hp Hb Hn Hle Hlen Hbuf. pose proof (to_size _ _ _ _ Hok _ _ _ Hm Hp) as [Hr Hsrc].
  pose proof (block_count _ _ Hm) as [_ Hc]. rewrite Hbuf at 1.
  destruct (Z_lt_le_dec (mf.(Manifest.size)) ((block + n) * 1100)) as [Hlt|Hge]; [|f_equal; lia].
  unfold slice. rewrite !ztake_all; [done| |]; zlen_simpl; lia.
Qed.

(** *** Sweeping a file *)

(** What is known of a file's number of blocks when it is read from the state. *)
Lemma triple_blocks s0 i : triple (from s0) (gets (on_file 0 t_blocks i))
  (fun n => (n = 0 /\ mfiles !! Z.to_nat i = None) \/
     exists mf p, mfiles !! Z.to_nat i = Some mf /\ paths !! Z.to_nat i = Some p /\ n = BlockCountFor mf.(Manifest.size)).
Proof.
  apply triple_gets. intros s Hs. destruct (file_at i s) as [f|] eqn:Ef; unfold on_file; rewrite Ef.
  - right. destruct (file_source s i f (proj1 Hs) Ef) as (mf & p & Hm & Hp & _ & _ & -> & _). by exists mf, p.
  - left. split; [done|]. apply lookup_ge_None in Ef. apply lookup_ge_None. by rewrite <- (ti_len _ _ _ _ _ _ (proj1 Hs)).
Qed.

(** Storing the hash of the source. *)
Lemma keeps_set_hash i h :
  (forall p, paths !! Z.to_nat i = Some p -> h = Sha256Hex sha (source disk p)) ->
  keeps (do_file i (fun f => f <| t_sha256 := h |> <| sweep_done := true |>)) (fun _ => True).
Proof.
  intros Hh s0. apply triple_modify; [|done]. intros s Hs. apply from_upd_file; [|done]. intros f Hf Hfi.
  split; [|done]. apply (filetx_keep _ f); try done; try apply Hfi. intros _. cbn.
  destruct (file_source s i f (proj1 Hs) Hf) as (mf & p & _ & Hp & _ & _ & _ & ->). by apply Hh.
Qed.

(** The rounds of the sweep: what has been hashed is what has been read. *)
Definition blocks_of (i blocks : Z) : Prop :=
  (blocks = 0 /\ mfiles !! Z.to_nat i = None) \/
  exists mf p, mfiles !! Z.to_nat i = Some mf /\ paths !! Z.to_nat i = Some p /\ blocks = BlockCountFor mf.(Manifest.size).

Definition sweep_inv (i blocks : Z) (st : Z * Z * bytes) : Prop :=
  let '(block, _, ctx) := st in 0 <= block <= blocks /\
  forall p, paths !! Z.to_nat i = Some p -> ctx = ztake (block * 1100) (source disk p).

Lemma chunk_size block blocks : block < blocks ->
  0 < Z.min kReadChunkBlocks (blocks - block) /\ block + Z.min kReadChunkBlocks (blocks - block) <= blocks.
Proof. unfold kReadChunkBlocks. lia. Qed.

Lemma keeps_sweep_round i blocks st : blocks_of i blocks -> sweep_inv i blocks st ->
  keeps (sweep_round i blocks st) (fun r => match r with
    | inl st => sweep_inv i blocks st
    | inr r => forall ctx, r = Some ctx -> forall p, paths !! Z.to_nat i = Some p -> ctx = source disk p
    end).
Proof.
  destruct st as [[block since] ctx]. intros Hbl [Hb Hctx] s0. unfold sweep_round. destruct (Z.ltb_spec block blocks) as [Hlt|].
  - destruct Hbl as [[-> _]|(mf & p & Hm & Hp & ->)]; [lia|]. pose proof (block_count _ _ Hm) as [Hc _].
    keeps_step. keeps_step; [by apply triple_ret|]. cbn zeta. pose proof (chunk_size _ _ Hlt) as Hn.
    generalize dependent (Z.min kReadChunkBlocks (BlockCountFor (Manifest.size mf) - block)). intros n Hn.
    eapply triple_bind; [apply keeps_ReadBlocks; lia|]. intros [buf|] Hbuf; [|by apply triple_ret].
    destruct (Hbuf buf eq_refl) as (mf' & p' & Hm' & Hp' & Hlen & Heq). rewrite Hm in Hm'. rewrite Hp in Hp'.
    injection Hm' as <-. injection Hp' as <-.
    pose proof (sweep_buffer mf p _ block n buf Hm Hp ltac:(lia) ltac:(lia) ltac:(lia) Hlen Heq) as Hsl.
    eapply triple_bind; [by apply (keeps_sweep_chunk _ i block 0 n since buf mf p); try done; lia|].
    intros [k|] _; apply triple_ret; [|done]. split; [lia|]. intros q Hq. rewrite Hp in Hq. injection Hq as <-.
    rewrite Hsl, (Hctx p Hp). apply ctx_grow; lia.
  - apply triple_ret. intros c [= <-] p Hp. rewrite (Hctx p Hp). apply ztake_all.
    destruct Hbl as [[-> Hm]|(mf & p' & Hm & Hp' & ->)].
    { apply lookup_ge_None in Hm. apply lookup_lt_Some in Hp. rewrite (to_len _ _ _ _ Hok) in Hp. lia. }
    pose proof (block_count _ _ Hm). destruct (to_size _ _ _ _ Hok _ _ _ Hm Hp). lia.
Qed.

Lemma sweep_inv_start i blocks : blocks_of i blocks -> sweep_inv i blocks (0, 0, Sha256_Reset).
Proof.
  intros Hbl. split; [|by intros p Hp]. destruct Hbl as [[-> _]|(mf & p' & Hm & _ & ->)]; [lia|].
  pose proof (block_count _ _ Hm). lia.
Qed.

Lemma keeps_SweepFile i : keeps (SweepFile sha i) (fun _ => True).
Proof.
  intros s0. unfold SweepFile. eapply triple_bind; [apply triple_blocks|]. intros blocks Hbl.
  eapply (triple_bind _ _ _ (fun r => forall ctx, r = Some ctx -> forall p, paths !! Z.to_nat i = Some p -> ctx = source disk p)).
  - apply (triple_iter _ _ (sweep_inv i blocks)); [|by apply sweep_inv_start]. intros st Hst. by apply keeps_sweep_round.
  - intros [ctx|] Hctx; [|by apply triple_ret]. eapply triple_bind; [|by intros; apply triple_ret].
    apply keeps_set_hash. intros p Hp. rewrite Sha256Hex_ctx. by rewrite (Hctx ctx eq_refl p Hp).
Qed.

(** *** The whole run *)

(** A fact that lasts: what grows keeps it. *)
Definition lasting (K : Sender -> Prop) : Prop := forall s s', grows s s' -> K s -> K s'.

Lemma lasting_triple {A} (m : tx A) Q K s0 : lasting K -> keeps m Q ->
  triple (fun s => from s0 s /\ K s) m Q.
Proof.
  intros HK Hm s [Hs Hk]. destruct (Hm s s (conj (proj1 Hs) (grows_refl s))) as [[Hi Hg] HQ]. split; [|exact HQ].
  split; [split; [done|]|by apply (HK s)]. by apply (grows_trans _ s); [apply Hs|].
Qed.

(** A sweep that succeeded leaves the file swept. *)
Definition swept (i : Z) (s : Sender) : Prop := forall f, file_at i s = Some f -> f.(sweep_done) = true.

Lemma lasting_swept i : lasting (swept i).
Proof.
  intros s s' [_ G2 G3 _ _] Hs f Hf. unfold swept, file_at in *.
  destruct (tx_ s !! Z.to_nat i) as [g|] eqn:Eg.
  - destruct (G2 _ _ Eg) as (f' & Hf' & _ & Hd & _). rewrite Hf in Hf'. injection Hf' as <-. by apply Hd, Hs.
  - apply lookup_ge_None in Eg. apply lookup_lt_Some in Hf. lia.
Qed.

Lemma swept_upd i g s : (forall f, (g f).(sweep_done) = true) -> swept i (upd_file i g s).
Proof.
  intros Hg f Hf. unfold file_at in Hf. rewrite upd_file_lookup, decide_True in Hf by done.
  destruct (tx_ s !! Z.to_nat i); [|done]. injection Hf as <-. apply Hg.
Qed.

Lemma SweepFile_swept i s s' : SweepFile sha i s = (Some true, s') -> swept i s'.
Proof.
  unfold SweepFile, mbind, thread_bind. cbn [gets]. destruct (iter _ _ s) as [[[ctx|]|] s1]; [|by intros [=]|by intros [=]].
  cbn. intros [= <-]. by apply swept_upd.
Qed.

Lemma keeps_drain n : keeps (drain n) (fun _ => True).
Proof.
  intros s0. unfold drain. apply (triple_iter _ _ (fun _ => True) (fun _ => True)); [|done]. intros [] _.
  do 2 keeps_step; [by apply triple_ret|]. do 3 keeps_step; [by apply triple_ret|]. do 2 keeps_step; [by apply triple_ret|].
  eapply (triple_bind _ _ _ (fun _ => True)); [|intros; by apply triple_ret]. keeps_step; [apply keeps_sleep|by apply triple_ret].
Qed.
#[local] Hint Resolve keeps_drain : keeps.

(** After the sweep: the announcement, and the file joins those in flight. *)
Lemma keeps_announce i was s0 : (Z.to_nat i < length mfiles)%nat ->
  triple (fun s => from s0 s /\ swept i s) (announce i was) (fun _ => True).
Proof.
  intros Hv. unfold announce. eapply (triple_bind _ _ _ (fun _ => True)).
  - apply triple_modify; [|done]. intros s [Hs Hw]. split; [|by destruct was, (file_at i s)].
    destruct was; [done|]. destruct (file_at i s) as [f|] eqn:Ef; [|done]. apply from_emit; [|done].
    destruct (file_source s i f (proj1 Hs) Ef) as (mf & p & _ & Hp & -> & _ & _ & Hpath).
    split; [lia|]. exists p. rewrite Nat2Z.id. split; [done|]. rewrite <- Hpath.
    apply (ft_hash _ _ _ _ _ _ (ti_files _ _ _ _ _ _ (proj1 Hs) _ _ Ef)). by apply Hw.
  - intros _ _. apply triple_modify; [|done]. intros s [[[A1 A2 A3 A4 A5 A6 A7] Hg] Hw]. split; [|done]. split.
    + split; try done. cbn. apply Forall_app. split; [done|]. constructor; [|done]. by rewrite A1.
    + apply (grows_trans _ _ _ Hg). split; cbn; eauto. intros j Hj. left. apply elem_of_app. by left.
Qed.

(** Continuing with what a successful operation established. *)
Lemma triple_establish {B} (m : tx bool) (k : bool -> tx B) K Q s0 :
  keeps m (fun _ => True) -> (forall s s', m s = (Some true, s') -> K s') ->
  triple (from s0) (k false) Q -> triple (fun s => from s0 s /\ K s) (k true) Q -> triple (from s0) (m ≫= k) Q.
Proof.
  intros Hm HK Hf Ht s Hs. destruct (Hm s0 s Hs) as [H1 _]. specialize (HK s). unfold mbind, thread_bind.
  destruct (m s) as [[[]|] s1]; cbn in *; [|by apply Hf|done].
  destruct (Ht s1) as [[H2 _] H3]; [by split; [|apply HK]|]. done.
Qed.

(** An empty file has the hash of nothing; the others are swept. *)
Definition sweep_step (i blocks : Z) : tx bool :=
  if blocks =? 0
  then _ ← do_file i (fun f => f <| t_sha256 := Sha256Hex sha [] |> <| sweep_done := true |>); mret true
  else SweepFile sha i.

Lemma keeps_empty_hash i : (Z.to_nat i < length mfiles)%nat -> blocks_of i 0 ->
  keeps (do_file i (fun f => f <| t_sha256 := Sha256Hex sha [] |> <| sweep_done := true |>)) (fun _ => True).
Proof.
  intros Hv Hbl. apply keeps_set_hash. intros p Hp. f_equal. destruct Hbl as [[_ Hm]|(mf & p' & Hm & Hp' & Hz0)].
  { apply lookup_ge_None in Hm. lia. }
  pose proof (block_count _ _ Hm). destruct (to_size _ _ _ _ Hok _ _ _ Hm Hp) as [? Hz]. symmetry. apply zlen_nil_inv. lia.
Qed.

Lemma keeps_sweep_step i blocks : (Z.to_nat i < length mfiles)%nat -> blocks_of i blocks ->
  keeps (sweep_step i blocks) (fun _ => True).
Proof.
  intros Hv Hbl s0. unfold sweep_step. destruct (Z.eqb_spec blocks 0) as [->|_]; [|apply keeps_SweepFile].
  eapply triple_bind; [by apply keeps_empty_hash|by intros; apply triple_ret].
Qed.

Lemma sweep_step_swept i blocks s s' : sweep_step i blocks s = (Some true, s') -> swept i s'.
Proof.
  unfold sweep_step. destruct (blocks =? 0); [|apply SweepFile_swept]. intros [= <-]. by apply swept_upd.
Qed.

Lemma keeps_run_file i : (Z.to_nat i < length mfiles)%nat -> keeps (run_file sha i) (fun _ => True).
Proof.
  intros Hv s0. unfold run_file. do 2 keeps_step; [by apply triple_ret|]. do 2 keeps_step; [by apply triple_ret|].
  keeps_step; [done|]. eapply triple_bind; [apply triple_blocks|]. intros blocks Hbl.
  apply (triple_establish _ _ (swept i)).
  - by apply keeps_sweep_step.
  - apply sweep_step_swept.
  - cbn [negb]. by apply triple_ret.
  - cbn [negb]. pose proof (lasting_swept i) as HL.
    eapply triple_bind; [by apply (lasting_triple _ (fun _ => True)); [|apply keeps_load]|]. intros was _.
    eapply triple_bind; [apply (lasting_triple _ (fun _ => True)); [done|apply keeps_do_file; intros f; by repeat split]|].
    intros _ _. eapply triple_bind; [by apply keeps_announce|]. intros _ _.
    eapply triple_bind; [by apply (lasting_triple _ (fun _ => True)); [|apply keeps_drain]|]. intros _ _. by apply triple_ret.
Qed.

Lemma keeps_run_files : keeps (run_files sha) (fun _ => True).
Proof.
  intros s0. unfold run_files. keeps_step. keeps_step; [done|]. keeps_step. keeps_step; [done|]. keeps_step.
  eapply triple_bind.
  { apply (triple_gets _ _ (fun n => n = zlen mfiles)). intros s Hs. unfold zlen. by rewrite (ti_len _ _ _ _ _ _ (proj1 Hs)). }
  intros n ->. eapply triple_bind.
  { apply triple_for. intros i Hi. apply keeps_run_file. apply elem_of_seqZ in Hi. unfold zlen in Hi. lia. }
  intros _ _. keeps_step; [done|]. apply keeps_drain.
Qed.

(** *** An operation fails only in an engine that was stopped or has failed *)

Definition halts {A} (bad : A -> bool) (m : tx A) : Prop :=
  forall s a s', tx_inv s -> m s = (Some a, s') -> bad a = true -> running s' = false.

Lemma halts_ret {A} bad (a : A) : bad a = false -> halts bad (mret a).
Proof. intros Ha s b s' _ [= <- <-]. by rewrite Ha. Qed.

(** Sequencing: what follows a bad result only has to return. *)
Lemma halts_bind {A B} (bad0 : A -> bool) (bad : B -> bool) Q (m : tx A) (k : A -> tx B) :
  keeps m Q -> halts bad0 m ->
  (forall a, Q a -> bad0 a = true -> keeps (k a) (fun _ => True)) ->
  (forall a, Q a -> bad0 a = false -> halts bad (k a)) -> halts bad (m ≫= k).
Proof.
  intros Hm H0 Hb Hk s b s' Hi. unfold mbind, thread_bind. destruct (m s) as [[a|] s1] eqn:E; [|done]. intros Hrun Hbad.
  destruct (Hm s s (conj Hi (grows_refl s))) as [[Hi1 _] HQ]. rewrite E in Hi1, HQ. cbn in *. specialize (HQ a eq_refl).
  destruct (bad0 a) eqn:Ea; [|by apply (Hk a HQ Ea s1 b s')].
  destruct (Hb a HQ Ea s1 s1 (conj Hi1 (grows_refl s1))) as [[_ Hg] _]. rewrite Hrun in Hg. cbn in Hg.
  apply (gr_halted _ _ Hg). by apply (H0 s a s1).
Qed.

(** An operation whose results are never bad. *)
Lemma halts_then {A B} (bad : B -> bool) Q (m : tx A) (k : A -> tx B) :
  keeps m Q -> (forall a, Q a -> halts bad (k a)) -> halts bad (m ≫= k).
Proof. intros Hm Hk. by apply (halts_bind (fun _ => false) bad Q); [|intros s a s' _ _|..]; auto. Qed.

Lemma halts_iter {A B} (bad : B -> bool) (P : A -> Prop) (body : A -> tx (A + B)) a :
  (forall a, P a -> keeps (body a) (fun r => match r with inl a => P a | inr _ => True end)) ->
  (forall a, P a -> halts (fun r => match r with inl _ => false | inr b => bad b end) (body a)) ->
  P a -> halts bad (iter body a).
Proof.
  intros Hk Hh Ha s. unfold iter. generalize (S (length (inputs s))). intros n. revert a Ha s.
  induction n as [|n IH]; intros a Ha s b s' Hi; cbn [loop]; [done|]. unfold mbind, thread_bind.
  destruct (body a s) as [[r|] s1] eqn:E; [|done]. destruct (Hk a Ha s s (conj Hi (grows_refl s))) as [[Hi1 _] HQ].
  rewrite E in Hi1, HQ. cbn in *. specialize (HQ r eq_refl). destruct r as [a'|b']; [by apply IH|].
  intros [= <- <-] Hb. by apply (Hh a Ha s (inr b') s1).
Qed.

(** Reading that the engine stopped. *)
Lemma halts_stop : halts id (load stop_).
Proof.
  intros s a s' Hi. unfold load, mbind, thread_bind, gets. destruct (tick s) as [[i|] s1]; [|done].
  intros [= <- <-] Hs. unfold running. unfold id in Hs. by rewrite Hs.
Qed.

Lemma Fail_halted c m s : running (Fail_ c m s) = false.
Proof. unfold running, Fail_. destruct (failed_ s) eqn:E; cbn; rewrite ?E; by rewrite andb_false_r. Qed.

Lemma halts_Fail {A} bad c m (k : tx A) : keeps k (fun _ => True) -> halts bad (_ ← modify (Fail_ c m); k).
Proof.
  intros Hk. apply (halts_bind (fun _ => true) _ (fun _ => True)); [apply keeps_Fail| |done|done].
  intros s a s' _ [= _ <-] _. apply Fail_halted.
Qed.

Lemma halts_PauseWait : halts negb PauseWait.
Proof.
  assert (Hlast : halts negb (st ← load stop_; mret (negb st))).
  { apply (halts_bind id _ (fun _ => True)); [apply keeps_load|apply halts_stop| |].
    - intros a _ _ s0. by apply triple_ret.
    - intros a _ Ha. apply halts_ret. unfold id in Ha. by rewrite Ha. }
  unfold PauseWait. eapply halts_then; [apply keeps_load|]. intros p _. case_if; [exact Hlast|].
  eapply (halts_then _ (fun _ => True)).
  { intros s0. apply (triple_iter _ _ (fun _ => True) (fun _ => True)); [|done]. intros [] _. keeps_auto. }
  intros _ _. eapply halts_then; [apply keeps_NowMsExact|]. intros now _.
  eapply halts_then; [apply keeps_modify; by intros s|]. intros _ _. exact Hlast.
Qed.

Lemma halts_WaitTokens n : halts negb (WaitTokens n).
Proof.
  unfold WaitTokens. apply (halts_iter _ (fun _ => True)); [intros [] _ s0| |done].
  - do 5 keeps_step; try done. eapply triple_bind; [|intros _ _; keeps_auto].
    case_if; [apply keeps_UpdateRate|by apply triple_ret].
  - intros [] _. apply (halts_bind id _ (fun _ => True)); [apply keeps_load|apply halts_stop| |].
    + intros [] _ Ha; [|done]. intros s0. by apply triple_ret.
    + intros [] _ Ha; [done|]. eapply halts_then; [apply keeps_NowMsExact|]. intros ? _.
      eapply halts_then; [apply keeps_NowMs|]. intros ? _. eapply halts_then; [apply keeps_gets|]. intros ? _.
      eapply (halts_then _ (fun _ => True)); [intros s0; keeps_step; [apply keeps_UpdateRate|by apply triple_ret]|]. intros ? _.
      eapply halts_then; [apply keeps_modify; by intros s|]. intros ? _. eapply halts_then; [apply keeps_gets|]. intros ? _.
      case_if.
      * eapply halts_then; [apply keeps_modify; by intros s|]. intros ? _. by apply halts_ret.
      * eapply halts_then; [apply keeps_gets|]. intros ? _. eapply halts_then; [apply keeps_sleep|]. intros ? _. by apply halts_ret.
Qed.

Definition is_none {A} (o : option A) : bool := match o with None => true | Some _ => false end.

Lemma halts_ReadBlocks i block n : (Z.to_nat i < length mfiles)%nat -> halts is_none (ReadBlocks i block n).
Proof.
  intros Hv s r s' Hi. unfold ReadBlocks. destruct (file_at i s) as [f|] eqn:Ef.
  2: { apply lookup_ge_None in Ef. rewrite (ti_len _ _ _ _ _ _ Hi) in Ef. lia. }
  set (opened := match reader f with Some r => inr (r, s) | None => _ end).
  assert (Ho : match opened with inl s => running s = false | inr _ => True end).
  { unfold opened. destruct (reader f); [done|]. destruct (FileReader_Open (t_path f) (world_ s)) as [[ok rd] w].
    case_if; [apply Fail_halted|]. case_if; [apply Fail_halted|done]. }
  destruct opened as [s1|[rd s1]]; [by intros [= <- <-]|].
  destruct (ReadAt rd _ _ (world_ s1)) as [[buf|] w]; [|intros [= <- <-] _; apply Fail_halted].
  case_if; intros [= <- <-]; [done|]. intros _. apply Fail_halted.
Qed.

Lemma halts_SendBlock i block payload len rep : block_ok i block payload len -> halts negb (SendBlock i block payload len rep).
Proof.
  intros Hb. unfold SendBlock. eapply halts_then.
  { by apply keeps_wire. }
  intros wire Hw. apply (halts_iter _ (fun _ => True)); [intros [] _ s0; by apply keeps_send_round| |done].
  - intros [] _. unfold send_round. apply (halts_bind id _ (fun _ => True)); [apply keeps_load|apply halts_stop| |].
    + intros [] _ Ha; [|done]. intros s0. by apply triple_ret.
    + intros [] _ Ha; [done|]. eapply halts_then; [by apply (keeps_tick (fun _ => True))|]. intros inp _. cbn zeta.
      eapply halts_then; [apply keeps_emit, Hw|]. intros _ _.
      destruct (i_send inp =? 0).
      { eapply halts_then; [apply keeps_modify; by intros s|]. intros ? _. by apply halts_ret. }
      destruct (i_send inp =? 1).
      { eapply halts_then; [apply keeps_sleep|]. intros ? _. by apply halts_ret. }
      eapply halts_then; [apply keeps_NowMs|]. intros now _.
      eapply halts_then; [apply keeps_modify; intros s; by case_if|]. intros ? _.
      eapply halts_then; [apply keeps_gets|]. intros down _. destruct down.
      * apply halts_Fail. intros s0. by apply triple_ret.
      * eapply halts_then; [apply keeps_sleep|]. intros ? _. by apply halts_ret.
Qed.

(** The result of a step that may fail decides the rest of the pass. *)
Ltac halts_go H :=
  eapply (halts_bind _ _ _ _ _); [|exact H| |]; [eauto with keeps|intros [] _ ?; [done|]; intros ?; by apply triple_ret
    |intros [] _ ?; [|done]; cbn [negb]].

Lemma halts_repair_block i block now hold budget mf :
  mfiles !! Z.to_nat i = Some mf -> 0 <= block < BlockCountFor mf.(Manifest.size) ->
  halts is_none (repair_block i block now hold budget).
Proof.
  intros Hm Hb. pose proof (block_count _ _ Hm) as [Hc _]. assert (Hv : (Z.to_nat i < length mfiles)%nat) by (by eapply lookup_lt_Some).
  unfold repair_block. eapply halts_then; [apply keeps_load|]. intros has _. destruct has; [by apply halts_ret|].
  eapply halts_then; [apply keeps_gets|]. intros due _. destruct due; cbn [negb]; [|by apply halts_ret].
  halts_go halts_PauseWait.
  eapply (halts_bind _ _ _ _ _); [apply keeps_ReadBlocks; lia|by apply halts_ReadBlocks| |].
  { intros [buf|] _ ?; [done|]. intros ?. by apply triple_ret. }
  intros [buf|] Hbuf ?; [|done]. destruct (Hbuf buf eq_refl) as (mf' & p & Hm' & Hp & Hlen & Heq). rewrite Hm in Hm'. injection Hm' as <-.
  eapply halts_then.
  { by apply keeps_len. }
  intros len ->. halts_go (halts_WaitTokens (BlockLenFor (Manifest.size mf) block)).
  assert (Hbo : block_ok i block buf (BlockLenFor (Manifest.size mf) block)).
  { exists mf, p. repeat split; try done; try lia.
    destruct (block_len _ _ _ Hm Hb) as [Hl Hl0]. rewrite Heq. unfold kBlockPayloadSize. f_equal. rewrite Hl in *. lia. }
  eapply (halts_bind _ _ _ _ _); [by apply keeps_SendBlock|by apply halts_SendBlock| |].
  { intros [] _ ?; [done|]. intros ?. by apply triple_ret. }
  intros [] _ ?; [|done]. cbn [negb]. eapply halts_then; [apply keeps_NowMs|]. intros ? _.
  eapply (halts_then _ (fun _ => True)); [apply keeps_do_file; intros f; by repeat split|]. intros ? _. by apply halts_ret.
Qed.

(** A failing step ends the pass with nothing more than a return. *)
Ltac halts_opt H K :=
  eapply (halts_bind is_none _ _ _ _);
    [apply K|apply H|intros [?|] _ ?; [done|]; intros ?; by apply triple_ret|intros [?|] _ ?; [|done]].

Lemma triple_end i run : keeps (gets (on_file 0 (fun f => Z.min (run.(start) + run.(length_)) f.(t_blocks)) i))
  (fun e => e <= 0 \/ exists mf, mfiles !! Z.to_nat i = Some mf /\ e <= BlockCountFor mf.(Manifest.size)).
Proof.
  intros s0. apply triple_gets. intros s Hs. unfold on_file. destruct (file_at i s) as [f|] eqn:Hf; [right|by left].
  destruct (file_source s i f (proj1 Hs) Hf) as (mf & p' & Hm & _ & _ & _ & -> & _). exists mf. split; [done|lia].
Qed.

Lemma halts_repair_run i now hold budget run : 0 <= run.(start) -> halts is_none (repair_run i now hold budget run).
Proof.
  intros Hst. unfold repair_run. eapply halts_then; [apply triple_end|]. intros e He. cbv beta in He.
  apply (halts_iter _ (fun '(b, _) => 0 <= b)); [| |done]; intros [block bud] Hbl.
  - intros s0. destruct (Z.ltb_spec block e); cbn [andb]; [|by apply triple_ret].
    keeps_step; [|by apply triple_ret]. destruct He as [He|(mf & Hm & He)]; [lia|].
    eapply triple_bind; [apply (keeps_repair_block i block now hold bud mf Hm); lia|].
    intros [b|] _; apply triple_ret; [|done]. pose proof (u32_range (block + 1)) as Hu. unfold in_u32 in Hu. lia.
  - destruct (Z.ltb_spec block e); cbn [andb]; [|by apply halts_ret]. destruct (bud >? 0); [|by apply halts_ret].
    destruct He as [He|(mf & Hm & He)]; [lia|].
    halts_opt (halts_repair_block i block now hold bud mf Hm ltac:(lia)) (keeps_repair_block i block now hold bud mf Hm ltac:(lia)).
    by apply halts_ret.
Qed.

Lemma halts_RepairFile i now hold budget : halts is_none (RepairFile i now hold budget).
Proof.
  unfold RepairFile. eapply (halts_then _ (fun f => forall g, f = Some g -> Forall (fun r => 0 <= r.(start)) (repair_holes g))).
  { intros s0 s Hs. unfold load. eapply (triple_bind _ _ _ (fun _ => True)); [apply keeps_any_tick| |done].
    intros _ _. apply triple_gets. intros s1 Hs1 g Hg. by apply (repair_holes_range s1 i g (proj1 Hs1)). }
  intros [f|] Hf; [|by apply halts_ret]. specialize (Hf f eq_refl). case_if; [by apply halts_ret|]. cbn zeta.
  destruct (zlen (repair_holes f) =? 0); [by apply halts_ret|]. eapply (halts_then _ (fun _ => True)).
  { intros s0. case_if; [|by apply triple_ret]. apply keeps_do_file. intros g. by repeat split. }
  intros _ _. revert budget. induction Hf as [|run runs Hr Hrs IH]; intros budget; cbn [repair_runs]; [by apply halts_ret|].
  halts_opt (halts_repair_run i now hold budget run Hr) (keeps_repair_run i now hold budget run Hr).
  case_if; [by apply halts_ret|done].
Qed.

Lemma halts_repair_files now hold budget did fs : halts (fun r => negb r.1) (repair_files now hold budget did fs).
Proof.
  revert budget did. induction fs as [|i fs IH]; intros budget did; cbn [repair_files]; [by apply halts_ret|].
  eapply halts_then; [apply keeps_load|]. intros ok _. destruct ok; [done|].
  halts_opt (halts_RepairFile i now hold budget) (keeps_RepairFile i now hold budget).
  cbn zeta. case_if; [by apply halts_ret|done].
Qed.

Lemma halts_RepairPass : halts (fun r => negb r.1) RepairPass.
Proof.
  unfold RepairPass. eapply halts_then; [apply keeps_gets|]. intros l _. case_if; [by apply halts_ret|].
  eapply halts_then; [apply keeps_NowMs|]. intros now _. eapply halts_then; [apply keeps_gets|]. intros rtt _.
  apply halts_repair_files.
Qed.

Lemma halts_sweep_block i b0 j m since buf mf p :
  mfiles !! Z.to_nat i = Some mf -> paths !! Z.to_nat i = Some p -> 0 <= b0 -> 0 <= j < m ->
  b0 + m <= BlockCountFor mf.(Manifest.size) -> buf = slice (b0 * 1100) (m * 1100) (source disk p) ->
  halts is_none (sweep_block i (b0 + j) j since buf).
Proof.
  intros Hm Hp Hb0 Hj Hle Hbuf. unfold sweep_block. eapply halts_then; [by apply keeps_len|]. intros len ->.
  eapply halts_then; [apply keeps_load|]. intros has _.
  destruct (block_len mf (Z.to_nat i) (b0 + j) Hm ltac:(lia)) as [Hl Hl0].
  assert (Hbo : block_ok i (b0 + j) (slice (j * kBlockPayloadSize) (BlockLenFor (Manifest.size mf) (b0 + j)) buf)
    (BlockLenFor (Manifest.size mf) (b0 + j))).
  { exists mf, p. repeat split; try done; try lia. rewrite Hbuf. unfold kBlockPayloadSize in *.
    rewrite slice_slice by lia. f_equal. lia. }
  eapply (halts_bind negb _ (fun _ => True)).
  - intros s0. keeps_step; [by apply triple_ret|]. keeps_step. keeps_step; [by apply triple_ret|]. by apply keeps_SendBlock.
  - destruct has; [by apply halts_ret|].
    eapply (halts_bind negb _ (fun _ => True)); [apply keeps_WaitTokens|apply halts_WaitTokens| |].
    + intros [] _ ?; [done|]. intros ?. by apply triple_ret.
    + intros [] _ ?; [|done]. by apply halts_SendBlock.
  - intros [] _ ?; [done|]. intros ?. by apply triple_ret.
  - intros [] _ ?; [|done]. cbn [negb]. eapply halts_then; [apply keeps_NowMs|]. intros now _.
    eapply (halts_then _ (fun _ => True)); [apply keeps_do_file; intros f; by repeat split|]. intros _ _.
    case_if; [|by apply halts_ret]. eapply halts_then; [apply keeps_Reap|]. intros _ _.
    apply (halts_bind (fun r => negb r.1) _ (fun _ => True)); [apply keeps_RepairPass|apply halts_RepairPass| |].
    + intros r _ _ ?. by apply triple_ret.
    + intros [[] ?] _ ?; [|done]. by apply halts_ret.
Qed.

Lemma halts_sweep_chunk n i b0 j m since buf mf p :
  mfiles !! Z.to_nat i = Some mf -> paths !! Z.to_nat i = Some p -> 0 <= b0 -> 0 <= j -> j + Z.of_nat n = m ->
  b0 + m <= BlockCountFor mf.(Manifest.size) -> buf = slice (b0 * 1100) (m * 1100) (source disk p) ->
  halts is_none (sweep_chunk n i b0 j since buf).
Proof.
  intros Hm Hp Hb0 Hj Hn Hle Hbuf. revert j since Hj Hn. induction n as [|n IH]; intros j since Hj Hn; cbn [sweep_chunk].
  { by apply halts_ret. }
  halts_opt (halts_sweep_block i b0 j m since buf mf p Hm Hp ltac:(lia) ltac:(lia) Hle Hbuf)
    (keeps_sweep_block i b0 j m since buf mf p Hm Hp ltac:(lia) ltac:(lia) Hle Hbuf). apply IH; lia.
Qed.

Lemma halts_sweep_round i blocks st : blocks_of i blocks -> sweep_inv i blocks st ->
  halts (fun r => match r with inl _ => false | inr r => is_none r end) (sweep_round i blocks st).
Proof.
  destruct st as [[block since] ctx]. intros Hbl [Hb Hctx]. unfold sweep_round. destruct (Z.ltb_spec block blocks) as [Hlt|];
    [|by apply halts_ret].
  destruct Hbl as [[-> _]|(mf & p & Hm & Hp & ->)]; [lia|]. pose proof (block_count _ _ Hm) as [Hc _].
  assert (Hv : (Z.to_nat i < length mfiles)%nat) by (by eapply lookup_lt_Some).
  halts_go halts_PauseWait. cbn zeta. pose proof (chunk_size _ _ Hlt) as Hn.
  generalize dependent (Z.min kReadChunkBlocks (BlockCountFor (Manifest.size mf) - block)). intros n Hn.
  eapply (halts_bind is_none _ _ _ _); [apply keeps_ReadBlocks; lia|by apply halts_ReadBlocks| |].
  { intros [buf|] _ ?; [done|]. intros ?. by apply triple_ret. }
  intros [buf|] Hbuf ?; [|done]. destruct (Hbuf buf eq_refl) as (mf' & p' & Hm' & Hp' & Hlen & Heq).
  rewrite Hm in Hm'. rewrite Hp in Hp'. injection Hm' as <-. injection Hp' as <-.
  pose proof (sweep_buffer mf p _ block n buf Hm Hp ltac:(lia) ltac:(lia) ltac:(lia) Hlen Heq) as Hsl.
  halts_opt (halts_sweep_chunk (Z.to_nat n) i block 0 n since buf mf p Hm Hp ltac:(lia) ltac:(lia) ltac:(lia) ltac:(lia) Hsl)
    (keeps_sweep_chunk (Z.to_nat n) i block 0 n since buf mf p Hm Hp ltac:(lia) ltac:(lia) ltac:(lia) ltac:(lia) Hsl).
  by apply halts_ret.
Qed.

Lemma halts_SweepFile i : halts negb (SweepFile sha i).
Proof.
  unfold SweepFile. eapply (halts_then _ (blocks_of i)); [intros s0; apply triple_blocks|]. intros blocks Hbl.
  eapply (halts_bind is_none _ (fun _ => True)).
  - intros s0. apply (triple_iter _ _ (sweep_inv i blocks)); [|by apply sweep_inv_start]. intros st Hst.
    eapply triple_weaken; [by apply keeps_sweep_round|]. by intros [st'|r].
  - apply (halts_iter _ (sweep_inv i blocks)); [| |by apply sweep_inv_start]; intros st Hst.
    + intros s0. eapply triple_weaken; [by apply keeps_sweep_round|]. by intros [st'|r].
    + by apply halts_sweep_round.
  - intros [ctx|] _ ?; [done|]. intros ?. by apply triple_ret.
  - intros [ctx|] _ ?; [|done]. intros s b s' _. cbn. by intros [= <- _].
Qed.

(** *** Every file is settled: confirmed, in flight, or the engine halted *)

Lemma bind_inv {A B} (m : tx A) (k : A -> tx B) s b s' :
  (m ≫= k) s = (Some b, s') -> exists a s1, m s = (Some a, s1) /\ k a s1 = (Some b, s').
Proof. unfold mbind, thread_bind. destruct (m s) as [[a|] s1]; [|done]. by exists a, s1. Qed.

Lemma keeps_inv {A} (m : tx A) Q s a s' :
  keeps m Q -> tx_inv s -> m s = (Some a, s') -> tx_inv s' /\ grows s s' /\ Q a.
Proof.
  intros Hm Hi E. destruct (Hm s s (conj Hi (grows_refl s))) as [[H1 H2] H3]. rewrite E in *. cbn in *. auto.
Qed.

Lemma load_value {A} (f : Sender -> A) s a s' : load f s = (Some a, s') -> a = f s'.
Proof. unfold load. intros H. apply bind_inv in H as (i & s1 & _ & H). by injection H as <- <-. Qed.

Definition settled (i : Z) (s : Sender) : Prop :=
  running s = false \/ i ∈ s.(inflight_) \/ on_file false t_ok i s = true.

Lemma lasting_ok i : lasting (fun s => on_file false t_ok i s = true).
Proof.
  intros s s' [_ G2 _ _ _] H. unfold on_file, file_at in *. destruct (tx_ s !! Z.to_nat i) as [f|] eqn:E; [|done].
  destruct (G2 _ _ E) as (f' & -> & Hk & _). by apply Hk.
Qed.

Lemma lasting_settled i : lasting (settled i).
Proof.
  intros s s' Hg [H|[H|H]]; [left; by apply (gr_halted _ _ Hg)| |right; right; by apply (lasting_ok i s)].
  right. by apply (gr_inflight _ _ Hg).
Qed.

Lemma halts_sweep_step i blocks : (Z.to_nat i < length mfiles)%nat -> blocks_of i blocks ->
  halts negb (sweep_step i blocks).
Proof.
  intros Hv Hbl. unfold sweep_step. destruct (Z.eqb_spec blocks 0) as [->|_]; [|apply halts_SweepFile].
  eapply halts_then; [by apply keeps_empty_hash|]. intros _ _. by apply halts_ret.
Qed.

Lemma run_file_settles i s b s' : tx_inv s -> (Z.to_nat i < length mfiles)%nat -> run_file sha i s = (Some b, s') ->
  settled i s' /\ (b = false -> running s' = false).
Proof.
  intros Hi Hv H. unfold run_file in H. apply bind_inv in H as (go & s1 & E1 & H).
  destruct (keeps_inv _ _ _ _ _ (keeps_load running) Hi E1) as (I1 & _ & _). apply load_value in E1.
  destruct go; cbn [negb] in H; [clear E1|by injection H as <- <-; split; [left|]].
  apply bind_inv in H as (ok & s2 & E2 & H). destruct (keeps_inv _ _ _ _ _ (keeps_load _) I1 E2) as (I2 & _ & _).
  apply load_value in E2. destruct ok.
  { injection H as <- <-. split; [|done]. right; right. unfold on_file in *. by destruct (file_at i s2) eqn:Ef;
      [|apply lookup_ge_None in Ef; rewrite (ti_len _ _ _ _ _ _ I2) in Ef; lia]. }
  clear E2. apply bind_inv in H as (u & s3 & E3 & H).
  apply (keeps_inv _ (fun _ => True)) in E3 as (I3 & _ & _); [|by apply keeps_modify|done].
  apply bind_inv in H as (blocks & s4 & E4 & H).
  destruct (keeps_inv _ (blocks_of i) _ _ _ (fun s0 => triple_blocks s0 i) I3 E4) as (I4 & _ & Hbl). clear E4.
  change (if blocks =? 0 then _ else SweepFile sha i) with (sweep_step i blocks) in H.
  apply bind_inv in H as (sw & s5 & E5 & H). pose proof (halts_sweep_step i blocks Hv Hbl _ _ _ I4 E5) as H5.
  destruct (keeps_inv _ _ _ _ _ (keeps_sweep_step i blocks Hv Hbl) I4 E5) as (I5 & _ & _). destruct sw; cbn [negb] in H.
  - apply bind_inv in H as (was & s6 & E6 & H). destruct (keeps_inv _ _ _ _ _ (keeps_load _) I5 E6) as (I6 & G6 & _).
    apply bind_inv in H as (u7 & s7 & E7 & H).
    apply (keeps_inv _ (fun _ => True)) in E7 as (I7 & G7 & _); [|apply keeps_do_file; intros f; by repeat split|done].
    apply bind_inv in H as (u8 & s8 & E8 & H). apply bind_inv in H as (u9 & s9 & E9 & H). injection H as <- <-.
    split; [|done]. pose proof (sweep_step_swept _ _ _ _ E5) as Hs5.
    assert (Hs7 : swept i s7) by (apply (lasting_swept i s6); [done|by apply (lasting_swept i s5)]).
    assert (I8 : tx_inv s8).
    { destruct (keeps_announce i was s7 Hv s7) as [[[Hx _] _] _]; [by split; [split; [|apply grows_refl]|]|]. by rewrite E8 in Hx. }
    apply (keeps_inv _ (fun _ => True)) in E9 as (_ & G9 & _); [|apply keeps_drain|done].
    apply (lasting_settled i s8); [done|]. right; left. unfold announce in E8. apply bind_inv in E8 as (? & ? & _ & E8).
    injection E8 as _ <-. cbn. apply elem_of_app. right. by left.
  - injection H as <- <-. split; [left|intros _]; by apply H5.
Qed.

Lemma for_settles l s b s' : tx_inv s -> (forall i, i ∈ l -> (Z.to_nat i < length mfiles)%nat) ->
  for_each (run_file sha) l s = (Some b, s') -> forall i, i ∈ l -> settled i s'.
Proof.
  revert s. induction l as [|j l IH]; intros s Hi Hv H i Hin; [by apply not_elem_of_nil in Hin|]. cbn [for_each] in H.
  apply bind_inv in H as (ok & s1 & E & H). pose proof (run_file_settles j s ok s1 Hi (Hv j ltac:(left)) E) as [Hs Hf].
  destruct (keeps_inv _ (fun _ => True) _ _ _ (keeps_run_file j (Hv j ltac:(left))) Hi E) as (I1 & _ & _).
  destruct ok; [|injection H as <- <-; left; by apply Hf].
  apply elem_of_cons in Hin as [->|Hin].
  - apply (keeps_inv _ (fun _ => True)) in H as (_ & G & _); [by apply (lasting_settled j s1)| |done].
    intros s0. apply triple_for. intros k Hk. apply keeps_run_file, Hv. by right.
  - apply (IH s1); try done. intros k Hk. apply Hv. by right.
Qed.

(** The last round of a loop that returned. *)
Lemma iter_last {A B} (P : A -> Prop) (body : A -> tx (A + B)) a s b s' :
  (forall a, P a -> keeps (body a) (fun r => match r with inl a => P a | inr _ => True end)) ->
  P a -> tx_inv s -> iter body a s = (Some b, s') ->
  exists a1 s1, P a1 /\ tx_inv s1 /\ body a1 s1 = (Some (inr b), s').
Proof.
  intros Hk. unfold iter. generalize (S (length (inputs s))). intros n. revert a s.
  induction n as [|n IH]; intros a s Ha Hi; cbn [loop]; [done|]. intros H. apply bind_inv in H as (r & s1 & E & H).
  destruct (keeps_inv _ _ _ _ _ (Hk a Ha) Hi E) as (I1 & _ & HQ).
  destruct r as [a'|b']; [by apply (IH a' s1)|]. injection H as -> ->. by exists a, s.
Qed.

Lemma drain_done n s s' : tx_inv s -> drain n s = (Some tt, s') -> running s' = false \/ zlen s'.(inflight_) <= n.
Proof.
  intros Hi H. unfold drain in H. apply (iter_last (fun _ => True)) in H as ([] & s1 & _ & I1 & H); [|intros [] _ s0|done|done].
  - apply bind_inv in H as (go & s2 & E2 & H). destruct (keeps_inv _ _ _ _ _ (keeps_load running) I1 E2) as (I2 & _ & _).
    apply load_value in E2. destruct go; cbn [negb] in H; [|injection H as <-; by left].
    apply bind_inv in H as (u & s3 & E3 & H). destruct (keeps_inv _ _ _ _ _ keeps_Reap I2 E3) as (I3 & _ & _).
    apply bind_inv in H as (k & s4 & E4 & H). injection E4 as <- <-.
    destruct (Z.leb_spec (zlen (inflight_ s3)) n); [injection H as <-; by right|].
    apply bind_inv in H as (r & s5 & E5 & H). pose proof (halts_RepairPass _ _ _ I3 E5) as Hh.
    destruct r as [[] did]; cbn in H, Hh; [|injection H as <-; left; by apply Hh].
    apply bind_inv in H as (? & ? & _ & H). discriminate H.
  - do 2 keeps_step; [by apply triple_ret|]. do 3 keeps_step; [by apply triple_ret|]. do 2 keeps_step; [by apply triple_ret|].
    eapply (triple_bind _ _ _ (fun _ => True)); [|intros; by apply triple_ret]. keeps_step; [apply keeps_sleep|by apply triple_ret].
Qed.

Lemma run_files_settles s s' : tx_inv s -> run_files sha s = (Some tt, s') ->
  running s' = false \/ forall k f, s'.(tx_) !! k = Some f -> f.(t_ok) = true.
Proof.
  intros Hi H. pose proof (keeps_inv _ _ _ _ _ keeps_run_files Hi H) as (I' & _ & _). unfold run_files in H.
  apply bind_inv in H as (? & s1 & E & H). apply (keeps_inv _ _ _ _ _ keeps_NowMsExact Hi) in E as (I1 & _ & _).
  apply bind_inv in H as (? & s2 & E & H). apply (keeps_inv _ (fun _ => True)) in E as (I2 & _ & _); [|by apply keeps_modify|done].
  apply bind_inv in H as (? & s3 & E & H). apply (keeps_inv _ _ _ _ _ keeps_NowMs I2) in E as (I3 & _ & _).
  apply bind_inv in H as (? & s4 & E & H). apply (keeps_inv _ (fun _ => True)) in E as (I4 & _ & _); [|by apply keeps_modify|done].
  apply bind_inv in H as (? & s5 & E & H). apply (keeps_inv _ _ _ _ _ keeps_UpdateRate I4) in E as (I5 & _ & _).
  apply bind_inv in H as (n & s6 & E & H). injection E as <- <-.
  assert (Hv : forall i, i ∈ seqZ 0 (zlen s5.(tx_)) -> (Z.to_nat i < length mfiles)%nat).
  { intros i Hin. apply elem_of_seqZ in Hin. unfold zlen in Hin. rewrite (ti_len _ _ _ _ _ _ I5) in Hin. lia. }
  apply bind_inv in H as (b & s7 & E & H). pose proof (for_settles _ _ _ _ I5 Hv E) as Hs.
  assert (I7 : tx_inv s7 /\ grows s5 s7).
  { apply (keeps_inv _ (fun _ => True)) in E as (? & ? & _); [done| |done]. intros s0. apply triple_for. intros k Hk.
    apply keeps_run_file. by apply Hv. }
  destruct I7 as [I7 G7]. apply bind_inv in H as (? & s8 & E8 & H).
  apply (keeps_inv _ (fun _ => True)) in E8 as (I8 & G8 & _); [|by apply keeps_modify|done].
  pose proof (keeps_inv _ _ _ _ _ (keeps_drain 0) I8 H) as (_ & G9 & _).
  destruct (drain_done _ _ _ I8 H) as [Hh|Hz]; [by left|]. destruct (running s') eqn:Hr; [|by left]. right. intros k f Hk.
  assert (Hin : Z.of_nat k ∈ seqZ 0 (zlen s5.(tx_))).
  { apply elem_of_seqZ. apply lookup_lt_Some in Hk. rewrite (ti_len _ _ _ _ _ _ I') in Hk. unfold zlen. rewrite (ti_len _ _ _ _ _ _ I5). lia. }
  destruct (lasting_settled _ _ _ G9 (lasting_settled _ _ _ G8 (Hs _ Hin))) as [Hh|[Hh|Hh]].
  - by rewrite Hh in Hr.
  - pose proof (zlen_nonneg (inflight_ s')). assert (inflight_ s' = []) as Hnil by (apply zlen_nil_inv; lia).
    rewrite Hnil in Hh. by apply not_elem_of_nil in Hh.
  - unfold on_file, file_at in Hh. rewrite Nat2Z.id, Hk in Hh. done.
Qed.

(** What a run leaves: effects that are right, and [on_all_done] last, when every file is
    confirmed. *)
Lemma Run_spec s : tx_inv s ->
  let s' := (Run sha s).2 in
  exists o, Forall effect_ok o /\
    (s'.(out_) = o \/ (s'.(out_) = o ++ [TxAllDone] /\ forall k f, s'.(tx_) !! k = Some f -> f.(t_ok) = true)) /\
    s'.(bytes_acked_) = acked0 + sum_acked s'.(tx_).
Proof.
  intros Hi s'. unfold s', Run, mbind, thread_bind. clear s'.
  destruct (keeps_run_files s s (conj Hi (grows_refl s))) as [[I1 _] _].
  destruct (run_files sha s) as [[[]|] s1] eqn:E1; cbn [snd fst] in *.
  2: { exists (out_ s1). split; [apply I1|]. split; [by left|apply I1]. }
  pose proof (run_files_settles s s1 Hi E1) as Hset.
  set (s2 := s1 <| tx_ ::= fmap (fun f => f <| reader := None |>) |>).
  assert (H2 : from s1 s2).
  { destruct I1 as [A1 A2 A3 A4 A5 A6 A7]. split; [split; cbn; try done|split; cbn; try done].
    - by rewrite length_map.
    - intros k f Hk. apply list_lookup_fmap_Some in Hk as (g & -> & Hg). specialize (A2 k g Hg).
      by apply (filetx_keep _ g); try done; apply A2.
    - rewrite A5. f_equal. clear. induction (tx_ s1) as [|f fs IH]; [done|]. cbn. unfold sum_acked in IH. by rewrite <- IH.
    - by rewrite length_map.
    - intros k f Hk. exists (f <| reader := None |>). by rewrite list_lookup_fmap, Hk.
    - by rewrite length_map.
    - by left. }
  cbn [modify]. change (upd_field tx_ _ s1) with s2. unfold load, mbind, thread_bind.
  destruct (keeps_any_tick s1 s2 H2) as [[I3 G3] _].
  destruct (tick s2) as [[i|] s3]; cbn [gets fst snd] in *; [|exists (out_ s3); split; [apply I3|split; [by left|apply I3]]].
  destruct (running s3) eqn:Hr; cbn; [|exists (out_ s3); split; [apply I3|split; [by left|apply I3]]].
  exists (out_ s3). split; [apply I3|]. split; [|apply I3]. right. split; [done|]. intros k f Hk.
  destruct Hset as [Hh|Hall]; [by rewrite (gr_halted _ _ G3 Hh) in Hr|].
  destruct (tx_ s1 !! k) as [g|] eqn:Eg; [|apply lookup_ge_None in Eg; apply lookup_lt_Some in Hk; rewrite (gr_len _ _ G3) in Hk; lia].
  destruct (gr_file _ _ G3 k g Eg) as (f' & Hf' & Hokk & _). rewrite Hk in Hf'. injection Hf' as <-. apply Hokk. by apply (Hall k).
Qed.
End invariant_lemmas.

(** *** The state after [Start] *)

Section start.
Context (sha : bytes -> bytes) (m : Manifest) (files : list bytes) (have : list (Z * list SackRun)).
Context (w : World) (env : list TxInput).
Hypothesis Hlen : length files = length m.(Manifest.files).
Hypothesis Hcount : zlen m.(Manifest.files) <= kMaxFilesPerTransfer.
Hypothesis Hsize : Forall (fun mf => 0 <= mf.(Manifest.size)) m.(Manifest.files).

(** The files as [Start] makes them, confirmed or not. *)
Definition fresh_file (k : nat) (f : FileTx) : Prop :=
  (exists mf p, m.(Manifest.files) !! k = Some mf /\ files !! k = Some p /\ f.(t_index) = Z.of_nat k /\
    f.(t_size) = mf.(Manifest.size) /\ f.(t_blocks) = BlockCountFor mf.(Manifest.size) /\ f.(t_path) = p) /\
  f.(reader) = None /\ f.(sweep_done) = false /\ f.(acked_bytes) = 0 /\ f.(t_sack) = Sack_default.

Record fresh (s : Sender) : Prop := {
  fr_len : length s.(tx_) = length m.(Manifest.files);
  fr_files : forall k f, s.(tx_) !! k = Some f -> fresh_file k f;
  fr_world : s.(world_) = w; fr_out : s.(out_) = []; fr_env : s.(env_) = env; fr_inflight : s.(inflight_) = [];
}.

Lemma fresh_verified s v : fresh s -> fresh (start_verified s v).
Proof.
  intros [F1 F2 F3 F4 F5 F6]. unfold start_verified. destruct (file_at v s) as [f|] eqn:Ef; [|done].
  split; try done; cbn; [by rewrite length_insert|]. intros k g Hk. destruct (decide (k = Z.to_nat v)) as [->|].
  - rewrite list_lookup_insert_eq in Hk by (by eapply lookup_lt_Some). injection Hk as <-. exact (F2 _ f Ef).
  - rewrite list_lookup_insert_ne in Hk by done. by apply F2.
Qed.

Lemma Start_fresh verified s : Start m files have verified (SenderTransfer_new w env) = (None, s) -> fresh s.
Proof.
  unfold Start. cbn [joinable_ SenderTransfer_new]. case_if; [done|]. intros [= <-].
  match goal with |- fresh (upd_field _ _ (upd_field _ _ (foldl _ ?s0 _))) => assert (H : fresh s0) end.
  { split; try done; cbn.
    - rewrite length_imap, length_zip_with. lia.
    - intros k f Hk. apply list_lookup_imap_Some in Hk as ([mf p] & Hz & ->). apply lookup_zip_with_Some in Hz as (mf' & p' & [= <- <-] & Hm & Hp).
      split; [|by repeat split]. exists mf, p. cbn. repeat split; try done. apply u16_small. apply lookup_lt_Some in Hm.
      unfold in_u16, zlen, kMaxFilesPerTransfer in *. lia. }
  enough (Hf : forall l s, fresh s -> fresh (foldl start_verified s l)).
  { specialize (Hf verified _ H). destruct Hf. by split. }
  clear. intros l. induction l as [|v l IH]; intros s Hs; cbn [foldl]; [done|]. apply IH. by apply fresh_verified.
Qed.

Lemma fresh_acked s : fresh s -> sum_acked s.(tx_) = 0.
Proof.
  intros Hf. assert (H : forall k f, s.(tx_) !! k = Some f -> f.(acked_bytes) = 0) by (intros k f Hk; apply (fr_files _ Hf k f Hk)).
  revert H. generalize s.(tx_). intros fs. induction fs as [|f fs IH]; intros H; [done|]. unfold sum_acked in *. cbn.
  rewrite (H 0%nat f eq_refl), IH; [done|]. intros k g. apply (H (S k) g).
Qed.

Lemma fresh_inv s : fresh s -> Forall input_ok env ->
  tx_inv sha m.(Manifest.files) files w.(w_files) s.(bytes_acked_) s.
Proof.
  intros Hf He. pose proof (fresh_acked s Hf) as Ha. destruct Hf as [F1 F2 F3 F4 F5 F6].
  split; rewrite ?F3, ?F4, ?F5, ?F6, ?Ha; try done; [|lia]. intros k f Hk.
  destruct (F2 k f Hk) as (Hs & Hr & Hd & Hz & Hsk). split; rewrite ?Hr, ?Hd, ?Hz, ?Hsk; try done.
  destruct Hs as (mf & p & Hm & _ & _ & -> & _). split; [done|]. rewrite Forall_forall in Hsize. apply Hsize.
  by eapply list_elem_of_lookup_2.
Qed.

End start.

(** A started engine satisfies the invariant. *)
Lemma started_inv sha m files have checked w env s :
  Start m files have checked (SenderTransfer_new w env) = (None, s) ->
  transfer_ok m.(Manifest.files) files w.(w_files) s.(bytes_acked_) -> Forall input_ok env ->
  tx_inv sha m.(Manifest.files) files w.(w_files) s.(bytes_acked_) s.
Proof.
  intros Hs Hok He. pose proof Hok as [H1 H2 H3 H4].
  assert (Hsize : Forall (fun mf => 0 <= mf.(Manifest.size)) m.(Manifest.files)).
  { apply Forall_lookup. intros k mf Hk. destruct (files !! k) as [p|] eqn:Hp; [by apply (H3 k mf p)|].
    apply lookup_ge_None in Hp. apply lookup_lt_Some in Hk. lia. }
  apply (fresh_inv sha m files w env); try done. exact (Start_fresh m files have w env H1 H2 checked s Hs).
Qed.

(** All it emits is true of the source, the final [on_all_done] apart. *)
Lemma Start_outputs sha m files have checked w env s :
  Start m files have checked (SenderTransfer_new w env) = (None, s) ->
  transfer_ok m.(Manifest.files) files w.(w_files) s.(bytes_acked_) -> Forall input_ok env ->
  Forall (fun e => effect_ok sha m.(Manifest.files) files w.(w_files) e \/ e = TxAllDone) (Run sha s).2.(out_).
Proof.
  intros Hs Hok He. destruct (Run_spec sha _ _ _ _ Hok s) as (o & Ho & Hcase & _); [by eapply started_inv|].
  assert (H : Forall (fun e => effect_ok sha m.(Manifest.files) files w.(w_files) e \/ e = TxAllDone) o)
    by (eapply Forall_impl; [exact Ho|]; intros; by left).
  destruct Hcase as [->|[-> _]]; [done|]. apply Forall_app. split; [done|]. constructor; [by right|constructor].
Qed.

(** ** Properties *)

(** C2: In every execution, whatever the other threads, the clock and the link do: each datagram
    carries a block of a file of the transfer with exactly the file's bytes, each announced hash
    is the hash of the file's content, the bytes acknowledged are the sum over the files, and
    [on_all_done] is the last effect and only comes when the receiver confirmed every file. *)
Theorem sender_sends_source sha m files have verified w env s :
  Start m files have verified (SenderTransfer_new w env) = (None, s) ->
  transfer_ok m.(Manifest.files) files w.(w_files) s.(bytes_acked_) -> Forall input_ok env ->
  let s' := (Run sha s).2 in
  exists o, Forall (effect_ok sha m.(Manifest.files) files w.(w_files)) o /\
    (s'.(out_) = o \/ (s'.(out_) = o ++ [TxAllDone] /\ forall k f, s'.(tx_) !! k = Some f -> f.(t_ok) = true)) /\
    s'.(bytes_acked_) = s.(bytes_acked_) + sum_acked s'.(tx_).
Proof.
  intros Hs Hok He. apply Run_spec; [done|]. by eapply started_inv.
Qed.

(** *** Example *)

Definition tx_sha : bytes -> bytes := id.
(** Two blocks: 1500 bytes. *)
Definition tx_content : bytes := replicate 1500 7.
Definition tx_world : World := mkWorld {[ [97] := tx_content ]} ∅ [].
Definition tx_manifest : Manifest := mkManifest [mkFile "a" 1500] [] [mkRoot "a" false] 1500.
(** The clock advances by 3 ms at each observation; the receiver confirms the file at the 130th. *)
Definition tx_env : list TxInput :=
  map (fun k => mkTxInput (if k =? 130 then [CallFileOk 0] else []) (k * 3000000) 0 None) (seqZ 1 300).
Definition tx_start : Sender := (Start tx_manifest [[97]] [] [] (SenderTransfer_new tx_world tx_env)).2.

Lemma tx_started : Start tx_manifest [[97]] [] [] (SenderTransfer_new tx_world tx_env) = (None, tx_start).
Proof.
  assert (H : (Start tx_manifest [[97]] [] [] (SenderTransfer_new tx_world tx_env)).1 = None) by (vm_compute; reflexivity).
  unfold tx_start. by destruct (Start _ _ _ _ _) as [r s]; cbn in H; subst r.
Qed.

Lemma tx_sample_ok : transfer_ok tx_manifest.(Manifest.files) [[97]] tx_world.(w_files) 0.
Proof.
  split; [done|done| |done]. intros [|[|k]] mf p Hm Hp; try discriminate. injection Hm as <-. injection Hp as <-.
  split; [done|]. vm_compute. reflexivity.
Qed.

Lemma tx_env_ok : Forall input_ok tx_env.
Proof.
  apply Forall_map. apply Forall_forall. intros k _. unfold compose, input_ok. cbn. case_match; [|done].
  by apply Forall_singleton.
Qed.

Lemma sender_sends_source_witness :
  (Run tx_sha tx_start).1 = Some tt /\ List.last (Run tx_sha tx_start).2.(out_) (TxSleep 0) = TxAllDone /\
  exists o, Forall (effect_ok tx_sha tx_manifest.(Manifest.files) [[97]] tx_world.(w_files)) o /\
    ((Run tx_sha tx_start).2.(out_) = o \/ ((Run tx_sha tx_start).2.(out_) = o ++ [TxAllDone] /\
       forall k f, (Run tx_sha tx_start).2.(tx_) !! k = Some f -> f.(t_ok) = true)) /\
    (Run tx_sha tx_start).2.(bytes_acked_) = 0 + sum_acked (Run tx_sha tx_start).2.(tx_).
Proof.
  split; [vm_compute; reflexivity|]. split; [vm_compute; reflexivity|].
  exact (sender_sends_source tx_sha tx_manifest [[97]] [] [] tx_world tx_env tx_start tx_started tx_sample_ok tx_env_ok).
Defined.
