(* ===== verification/SenderProgress.v ===== *)
(** * Progress of the sending engine

    A sweep that succeeds has handed every block the receiver did not hold to the link:
    [SweepFile_covers].  The interpreter's fuel is enough: a run returns or has consumed its whole
    tape of inputs ([Run_suspended]). *)
From S2P Require Export SenderProofs.
#[local] Open Scope Z_scope.

(** ** Lemmas *)

Lemma live_load {A} (f : Sender -> A) : live (load f) consumes.
Proof. unfold load. live_auto. Qed.
#[export] Hint Resolve live_load : live.

Lemma live_upd_file i g : live (do_file i g) shrinks.
Proof. unfold do_file. apply live_modify. intros s. apply upd_file_rest. Qed.
#[export] Hint Resolve live_upd_file : live.

Lemma live_NowMs : live NowMs consumes.
Proof. unfold NowMs. live_auto. Qed.

Lemma live_NowMsExact : live NowMsExact consumes.
Proof. unfold NowMsExact. live_auto. Qed.

Lemma live_emit e : live (modify (emit e)) shrinks.
Proof. by apply live_modify. Qed.

Lemma live_Fail c m : live (modify (Fail_ c m)) shrinks.
Proof. apply live_modify. intros s. unfold Fail_. by case_if. Qed.
#[export] Hint Resolve live_NowMs live_NowMsExact live_emit live_Fail : live.

Lemma live_sleep ms : live (sleep_for ms) shrinks.
Proof. unfold sleep_for. live_auto. Qed.
#[export] Hint Resolve live_sleep : live.

(** A round that starts with an observation. *)
Lemma live_round_observe {A B C} (m : tx A) (k : A -> tx (B + C)) :
  live m consumes -> (forall a, live (k a) shrinks) -> live (m ≫= k) rounds.
Proof. intros Hm Hk. apply live_round. by apply live_bind_consumes. Qed.

Lemma live_PauseWait : live PauseWait consumes.
Proof.
  unfold PauseWait. apply live_bind_consumes; [auto with live|]. intros p. destruct p; cbn [negb].
  - apply live_bind; [|live_auto; done]. apply iter_suspended. intros []. apply live_round_observe; live_auto.
  - live_auto.
Qed.

Lemma live_UpdateRate : live UpdateRate shrinks.
Proof.
  unfold UpdateRate. live_auto; cbn zeta; by repeat case_match.
Qed.
#[export] Hint Resolve live_PauseWait live_UpdateRate : live.

Lemma live_WaitTokens n : live (WaitTokens n) shrinks.
Proof.
  unfold WaitTokens. apply iter_suspended. intros []. apply live_round_observe; [auto with live|]. intros st.
  live_auto; auto with live.
Qed.
#[export] Hint Resolve live_WaitTokens : live.

Lemma live_SendBlock i block payload len rep : live (SendBlock i block payload len rep) shrinks.
Proof.
  unfold SendBlock. apply live_bind; [apply live_gets|]. intros wire. apply iter_suspended. intros [].
  unfold send_round. apply live_round_observe; [auto with live|]. intros st. live_auto; unfold Fail_; by repeat case_match.
Qed.

Lemma live_ReadBlocks i block n : live (ReadBlocks i block n) shrinks.
Proof.
  intros s. unfold ReadBlocks. destruct (file_at i s) as [f|]; [|unfold shrinks; cbn; lia].
  set (opened := match reader f with Some r => inr (r, s) | None => _ end).
  assert (Ho : match opened with inl s1 => env_ s1 = env_ s | inr (_, s1) => env_ s1 = env_ s end).
  { unfold opened. destruct (reader f); [done|]. destruct (FileReader_Open (t_path f) (world_ s)) as [[ok rd] w].
    set (s1 := upd_file i _ (s <| world_ := w |>)). assert (He : env_ s1 = env_ s).
    { unfold s1. etransitivity; [apply upd_file_rest|done]. }
   
    clearbody s1. unfold Fail_. destruct ok, (r_size rd =? t_size f), (failed_ s1); exact He. }
  unfold shrinks. destruct opened as [s1|[rd s1]]; cbn; [by rewrite Ho|].
  destruct (ReadAt rd _ _ (world_ s1)) as [[buf|] w]; [case_if|]; unfold Fail_; cbn; try destruct (failed_ s1); cbn; by rewrite Ho.
Qed.
#[export] Hint Resolve live_SendBlock live_ReadBlocks : live.

Lemma live_repair_block i block now hold budget : live (repair_block i block now hold budget) consumes.
Proof. unfold repair_block. apply live_bind_consumes; [auto with live|]. intros has. live_auto. Qed.

Lemma live_repair_run i now hold budget run : live (repair_run i now hold budget run) shrinks.
Proof.
  unfold repair_run. apply live_bind; [apply live_gets|]. intros e. apply iter_suspended. intros [block bud].
  case_if; [|apply live_leave]. apply live_round_observe; [apply live_repair_block|]. live_auto.
Qed.

Lemma live_repair_runs i now hold budget runs : live (repair_runs i now hold budget runs) shrinks.
Proof.
  revert budget. induction runs as [|run runs IH]; intros budget; cbn [repair_runs]; [apply live_ret|].
  apply live_bind; [apply live_repair_run|]. intros [b|]; [|apply live_ret]. case_if; [apply live_ret|done].
Qed.
#[export] Hint Resolve live_repair_runs : live.

Lemma live_RepairFile i now hold budget : live (RepairFile i now hold budget) shrinks.
Proof. unfold RepairFile. live_auto. Qed.
#[export] Hint Resolve live_RepairFile : live.

Lemma live_repair_files now hold budget did fs : live (repair_files now hold budget did fs) shrinks.
Proof.
  revert budget did. induction fs as [|i fs IH]; intros budget did; cbn [repair_files]; [apply live_ret|].
  live_auto; cbn zeta; live_auto.
Qed.
#[export] Hint Resolve live_repair_files : live.

Lemma live_RepairPass : live RepairPass shrinks.
Proof. unfold RepairPass. live_auto. Qed.

Lemma reap_env s : env_ (reap s) = env_ s.
Proof.
  unfold reap. generalize (inflight_ s). intros l.
  enough (H : forall st, env_ (foldl (fun s i => if on_file false t_ok i s
    then upd_file i (fun f => f <| reader := None |> <| repair_ms := [] |>) s
    else s <| inflight_ ::= (fun l => l ++ [i]) |>) st l) = env_ st) by by rewrite H.
  induction l as [|i l IH]; intros st; cbn [foldl]; [done|]. rewrite IH. case_if; [|done]. apply upd_file_rest.
Qed.

Lemma live_Reap : live ReapInflight consumes.
Proof. unfold ReapInflight. apply live_bind_consumes; [apply live_tick|]. intros _. apply live_modify, reap_env. Qed.
#[export] Hint Resolve live_RepairPass live_Reap : live.

Lemma live_sweep_block i block j since buf : live (sweep_block i block j since buf) shrinks.
Proof. unfold sweep_block. live_auto. Qed.

Lemma live_sweep_chunk n i block j since buf : live (sweep_chunk n i block j since buf) shrinks.
Proof.
  revert j since. induction n as [|n IH]; intros j since; cbn [sweep_chunk]; [apply live_ret|].
  apply live_bind; [apply live_sweep_block|]. intros [k|]; [done|apply live_ret].
Qed.
#[export] Hint Resolve live_sweep_chunk : live.

Lemma live_SweepFile sha i : live (SweepFile sha i) shrinks.
Proof.
  unfold SweepFile. apply live_bind; [apply live_gets|]. intros blocks. apply live_bind; [|live_auto].
  apply iter_suspended. intros [[block since] ctx]. unfold sweep_round. case_if; [|apply live_leave].
  apply live_round_observe; [auto with live|]. intros go. live_auto.
Qed.
#[export] Hint Resolve live_SweepFile : live.

Lemma live_drain n : live (drain n) shrinks.
Proof.
  unfold drain. apply iter_suspended. intros []. apply live_round_observe; [auto with live|]. intros go. live_auto.
Qed.
#[export] Hint Resolve live_drain : live.

Lemma live_announce i was : live (announce i was) shrinks.
Proof. unfold announce. live_auto; by repeat case_match. Qed.
#[export] Hint Resolve live_announce : live.

Lemma live_run_file sha i : live (run_file sha i) shrinks.
Proof. unfold run_file. live_auto; by repeat case_match. Qed.
#[export] Hint Resolve live_run_file : live.

Lemma live_run_files sha : live (run_files sha) shrinks.
Proof. unfold run_files. live_auto. Qed.
#[export] Hint Resolve live_run_files : live.

(** ** What a sweep sends *)

(** Block [b] of file [i] was accepted by the link. *)
Definition sent (i b : Z) (s : Sender) : Prop :=
  exists wire h payload, TxDatagram kStreamData wire 0 ∈ s.(out_) /\
    DecodeBlock (Some wire) (zlen wire) = Some (h, payload) /\ h.(file_index) = Z.of_nat (Z.to_nat i) /\ h.(block_index) = b.

Lemma lasting_sent i b : lasting (sent i b).
Proof.
  intros s s' [[o Ho] _ _ _ _] (wire & h & p & Hin & Hrest). exists wire, h, p. split; [|done].
  rewrite Ho. apply elem_of_app. by left.
Qed.

(** A block the receiver did not hold in [s] was sent by [s']. *)
Definition covers (i b : Z) (s s' : Sender) : Prop :=
  forall f, file_at i s = Some f -> Test f.(skip) b = false -> sent i b s'.

Lemma covers_later i b s s1 s' : grows s s1 -> covers i b s1 s' -> covers i b s s'.
Proof.
  intros Hg Hc f Hf Hs. destruct (gr_file _ _ Hg _ _ Hf) as (f' & Hf' & _ & _ & Hk). apply (Hc f'); [done|].
  destruct (Test (skip f') b) eqn:E; [|done]. by rewrite (Hk b E) in Hs.
Qed.

Lemma covers_then i b s s1 s' : grows s1 s' -> covers i b s s1 -> covers i b s s'.
Proof. intros Hg Hc f Hf Hs. apply (lasting_sent i b s1); [done|]. by apply (Hc f). Qed.

Section coverage.
Context (sha : bytes -> bytes) (mfiles : list ManifestFile) (paths : list bytes) (disk : gmap bytes bytes) (acked0 : Z).
Context (Hok : transfer_ok mfiles paths disk acked0).
Notation tx_inv := (tx_inv sha mfiles paths disk acked0).
Notation block_ok := (block_ok mfiles paths disk).
Notation keeps m Q := (forall s0, triple (from sha mfiles paths disk acked0 s0) m Q).

Lemma SendBlock_sent i block payload len rep s s' :
  tx_inv s -> block_ok i block payload len -> SendBlock i block payload len rep s = (Some true, s') -> sent i block s'.
Proof.
  intros Hi Hb H. unfold SendBlock in H. apply bind_inv in H as (wire & s1 & E & H).
  pose proof (proj2 (proj2 (keeps_inv sha mfiles paths disk acked0 _ _ _ _ _ (keeps_wire sha mfiles paths disk acked0 Hok _ _ _ _ Hb) Hi E))) as He.
  injection E as <- <-.
  pose proof Hb as (mf & p & Hm & _). destruct (file_exists sha _ _ _ _ s i mf Hi Hm) as [f Hf].
  destruct (wire_ok sha mfiles paths disk acked0 Hok s i f block payload len Hi Hf Hb) as (h & HD & E1 & E2 & _).
  apply (iter_last sha mfiles paths disk acked0 (fun _ => True)) in H as ([] & s2 & _ & I2 & H); [|intros [] _ s0|done|done].
  - apply bind_inv in H as (st & s3 & E3 & H). destruct st; [discriminate H|].
    apply bind_inv in H as (inp & s4 & E4 & H). apply bind_inv in H as (u & s5 & E5 & H). injection E5 as _ <-.
    destruct (Z.eqb_spec (i_send inp) 0) as [H0|].
    + apply bind_inv in H as (u' & s6 & E6 & H). injection E6 as _ <-. injection H as <-.
      exists (on_file [] (fun f => block_wire (block_header f block len) payload) i s), h, payload.
      split; [cbn; rewrite H0; apply elem_of_app; right; left|]. unfold on_file. by rewrite Hf.
    + exfalso. destruct (i_send inp =? 1).
      * apply bind_inv in H as (? & ? & _ & H). discriminate H.
      * apply bind_inv in H as (? & ? & _ & H). apply bind_inv in H as (? & ? & _ & H). apply bind_inv in H as (down & ? & _ & H).
        destruct down; apply bind_inv in H as (? & ? & _ & H); discriminate H.
  - by apply keeps_send_round.
Qed.

Lemma sweep_block_covers i b0 j m since buf mf p k s s' :
  mfiles !! Z.to_nat i = Some mf -> paths !! Z.to_nat i = Some p -> 0 <= b0 -> 0 <= j < m ->
  b0 + m <= BlockCountFor mf.(Manifest.size) -> buf = slice (b0 * 1100) (m * 1100) (source disk p) ->
  tx_inv s -> sweep_block i (b0 + j) j since buf s = (Some (Some k), s') -> covers i (b0 + j) s s'.
Proof.
  intros Hm Hp Hb0 Hj Hle Hbuf Hi H. unfold sweep_block in H.
  pose proof (block_len mfiles paths disk acked0 Hok mf (Z.to_nat i) (b0 + j) Hm ltac:(lia)) as [Hl Hl0].
  apply bind_inv in H as (len & s1 & E & H).
  destruct (keeps_inv sha mfiles paths disk acked0 _ _ _ _ _ (keeps_len sha mfiles paths disk acked0 i (b0 + j) mf Hm) Hi E) as (I1 & G1 & ->). clear E.
  apply bind_inv in H as (has & s2 & E & H).
  destruct (keeps_inv sha mfiles paths disk acked0 _ _ _ _ _ (keeps_load sha mfiles paths disk acked0 Hok _) I1 E) as (I2 & G2 & _).
  apply load_value in E. apply bind_inv in H as (snt & s3 & E3 & H).
  assert (Hbo : block_ok i (b0 + j) (slice (j * kBlockPayloadSize) (BlockLenFor (Manifest.size mf) (b0 + j)) buf)
    (BlockLenFor (Manifest.size mf) (b0 + j))).
  { exists mf, p. repeat split; try done; try lia. rewrite Hbuf. unfold kBlockPayloadSize in *.
    rewrite slice_slice by lia. f_equal. lia. }
  destruct snt; [cbn [negb] in H|discriminate H].
  assert (Hc : covers i (b0 + j) s s3 /\ tx_inv s3).
  { destruct has.
    - injection E3 as <-. split; [|done]. apply (covers_later i (b0 + j) s s2); [by eapply grows_trans|].
      intros f Hf Hs. unfold on_file in E. rewrite Hf in E. congruence.
    - apply bind_inv in E3 as (ok & s4 & E4 & E3).
      destruct (keeps_inv sha mfiles paths disk acked0 _ _ _ _ _ (keeps_WaitTokens sha mfiles paths disk acked0 Hok _) I2 E4) as (I4 & _ & _).
      destruct ok; [cbn [negb] in E3|discriminate E3]. split.
      + intros f _ _. by apply (SendBlock_sent _ _ _ _ _ _ _ I4 Hbo E3).
      + by apply (keeps_inv sha mfiles paths disk acked0 _ _ _ _ _ (keeps_SendBlock sha mfiles paths disk acked0 Hok _ _ _ _ false Hbo) I4 E3). }
  destruct Hc as [Hc I3]. apply (covers_then i _ s s3); [|done].
  assert (Hrest : keeps (now ← NowMs;
    _ ← do_file i (fun f => f <| sweep_ms ::= <[Z.to_nat ((b0 + j) / kBucketBlocks) := now]> |>);
    if since + 1 >=? 64 then _ ← ReapInflight; r ← RepairPass; mret (if r.1 : bool then Some 0 else None)
    else mret (Some (since + 1))) (fun _ => True)).
  { intros s0. eapply triple_bind; [by apply keeps_NowMs|]. intros now _.
    eapply triple_bind; [apply keeps_do_file; [done|intros f; by repeat split]|]. intros _ _. case_if; [|by apply triple_ret].
    eapply triple_bind; [by apply keeps_Reap|]. intros _ _. eapply triple_bind; [by apply keeps_RepairPass|].
    intros r _. by apply triple_ret. }
  by apply (keeps_inv sha mfiles paths disk acked0 _ _ _ _ _ Hrest I3 H).
Qed.

Lemma sweep_chunk_covers n i b0 j m since buf mf p k s s' :
  mfiles !! Z.to_nat i = Some mf -> paths !! Z.to_nat i = Some p -> 0 <= b0 -> 0 <= j -> j + Z.of_nat n = m ->
  b0 + m <= BlockCountFor mf.(Manifest.size) -> buf = slice (b0 * 1100) (m * 1100) (source disk p) ->
  tx_inv s -> sweep_chunk n i b0 j since buf s = (Some (Some k), s') ->
  forall b, b0 + j <= b < b0 + m -> covers i b s s'.
Proof.
  intros Hm Hp Hb0 Hj Hn Hle Hbuf. revert j since s Hj Hn. induction n as [|n IH]; intros j since s Hj Hn Hi H b Hb; [lia|].
  cbn [sweep_chunk] in H. apply bind_inv in H as (r & s1 & E & H). destruct r as [k1|]; [|discriminate H].
  destruct (keeps_inv sha mfiles paths disk acked0 _ _ _ _ _ (keeps_sweep_block sha mfiles paths disk acked0 Hok i b0 j m since buf mf p Hm Hp Hb0 ltac:(lia) Hle Hbuf)
    Hi E) as (I1 & G1 & _).
  destruct (decide (b = b0 + j)) as [->|Hne].
  - apply (covers_then i _ s s1); [|by apply (sweep_block_covers i b0 j m since buf mf p k1 s s1); try done; lia].
    by apply (keeps_inv sha mfiles paths disk acked0 _ _ _ _ _ (keeps_sweep_chunk sha mfiles paths disk acked0 Hok n i b0 (j + 1) m k1 buf mf p Hm Hp Hb0 ltac:(lia) ltac:(lia) Hle Hbuf) I1 H).
  - apply (covers_later i b s s1); [done|]. apply (IH (j + 1) k1 s1); try done; lia.
Qed.

(** A loop invariant that reads the state. *)
Lemma iter_inv {A B} (P : A -> Prop) (I : A -> Sender -> Prop) (Q : B -> Sender -> Prop) (body : A -> tx (A + B)) :
  (forall a, P a -> keeps (body a) (fun r => match r with inl a => P a | inr _ => True end)) ->
  (forall a s r s', P a -> tx_inv s -> I a s -> body a s = (Some r, s') ->
     match r with inl a' => I a' s' | inr b => Q b s' end) ->
  forall a s b s', P a -> tx_inv s -> I a s -> iter body a s = (Some b, s') -> Q b s'.
Proof.
  intros Hk Hb. unfold iter. intros a s b s'. generalize (S (length (inputs s))). intros n. revert a s.
  induction n as [|n IH]; intros a s Ha Hi HI; cbn [loop]; [done|]. intros H. apply bind_inv in H as (r & s1 & E & H).
  destruct (keeps_inv sha mfiles paths disk acked0 _ _ _ _ _ (Hk a Ha) Hi E) as (I1 & _ & HP).
  specialize (Hb a s r s1 Ha Hi HI E). destruct r as [a'|b']; [by apply (IH a' s1)|]. by injection H as -> ->.
Qed.

(** The blocks below the sweep's position are covered. *)
Definition covered_to (i block : Z) (s s' : Sender) : Prop :=
  grows s s' /\ forall b, 0 <= b < block -> covers i b s s'.

Lemma sweep_round_covers i blocks st s s1 r s' :
  blocks_of mfiles paths i blocks -> sweep_inv paths disk i blocks st -> tx_inv s1 -> covered_to i st.1.1 s s1 ->
  sweep_round i blocks st s1 = (Some r, s') ->
  match r with
  | inl st' => covered_to i st'.1.1 s s'
  | inr o => o <> None -> covered_to i blocks s s'
  end.
Proof.
  destruct st as [[block since] ctx]. intros Hbl [Hb Hctx] I1 [Hg Hc] H. cbn [fst] in Hc. unfold sweep_round in H.
  destruct (Z.ltb_spec block blocks) as [Hlt|].
  2: { injection H as <- <-. intros _. split; [done|]. intros b Hb'. apply Hc. lia. }
  destruct Hbl as [[-> _]|(mf & p & Hm & Hp & ->)]; [lia|].
  pose proof (block_count mfiles paths disk acked0 Hok _ _ Hm) as [Hcnt _].
  apply bind_inv in H as (go & s2 & E2 & H).
  destruct (keeps_inv sha mfiles paths disk acked0 _ _ _ _ _ (keeps_PauseWait sha mfiles paths disk acked0 Hok) I1 E2) as (I2 & G2 & _).
  destruct go; cbn [negb] in H; [|by injection H as <- <-]. pose proof (chunk_size _ _ Hlt) as Hn.
  generalize dependent (Z.min kReadChunkBlocks (BlockCountFor (Manifest.size mf) - block)). intros n H Hn.
  apply bind_inv in H as (o & s3 & E3 & H).
  destruct (keeps_inv sha mfiles paths disk acked0 _ _ _ _ _ (keeps_ReadBlocks sha mfiles paths disk acked0 Hok i block n ltac:(lia) ltac:(lia)) I2 E3)
    as (I3 & G3 & Hbuf).
  destruct o as [buf|]; [|by injection H as <- <-]. destruct (Hbuf buf eq_refl) as (mf' & p' & Hm' & Hp' & Hlen & Heq).
  rewrite Hm in Hm'. rewrite Hp in Hp'. injection Hm' as <-. injection Hp' as <-.
  pose proof (sweep_buffer mfiles paths disk acked0 Hok mf p _ block n buf Hm Hp ltac:(lia) ltac:(lia) ltac:(lia) Hlen Heq) as Hsl.
  apply bind_inv in H as (r4 & s4 & E4 & H). injection H as <- <-.
  destruct (keeps_inv sha mfiles paths disk acked0 _ _ _ _ _
    (keeps_sweep_chunk sha mfiles paths disk acked0 Hok (Z.to_nat n) i block 0 n since buf mf p Hm Hp ltac:(lia) ltac:(lia) ltac:(lia) ltac:(lia) Hsl) I3 E4)
    as (I4 & G4 & _).
  destruct r4 as [k|]; [|done]. cbn [fst]. assert (Hg3 : grows s s3) by (apply (grows_trans _ s2); [by apply (grows_trans _ s1)|done]).
  split; [by apply (grows_trans _ s3)|]. intros b Hb'. destruct (Z_lt_le_dec b block).
  - apply (covers_then i b s s1); [apply (grows_trans _ s2); [done|by apply (grows_trans _ s3)]|]. apply Hc. lia.
  - apply (covers_later i b s s3); [done|].
    apply (sweep_chunk_covers (Z.to_nat n) i block 0 n since buf mf p k s3 s4); try done; lia.
Qed.

Lemma SweepFile_covers_all i s s' : tx_inv s -> SweepFile sha i s = (Some true, s') ->
  forall f b, file_at i s = Some f -> 0 <= b < f.(t_blocks) -> Test f.(skip) b = false -> sent i b s'.
Proof.
  intros Hi H f b Hf Hb Hs. unfold SweepFile in H. apply bind_inv in H as (blocks & s1 & E1 & H).
  destruct (keeps_inv sha mfiles paths disk acked0 _ (blocks_of mfiles paths i) _ _ _ (fun s0 => triple_blocks sha mfiles paths disk acked0 s0 i) Hi E1)
    as (_ & _ & Hbl).
  injection E1 as Hbv <-. unfold on_file in Hbv. rewrite Hf in Hbv. apply bind_inv in H as (o & s2 & E2 & H).
  destruct o as [ctx|]; [|by injection H]. cbn in H. injection H as <-.
  assert (Hk : forall st, sweep_inv paths disk i blocks st -> keeps (sweep_round i blocks st)
    (fun r => match r with inl st => sweep_inv paths disk i blocks st | inr _ => True end)).
  { intros st Hst s0. eapply triple_weaken; [by apply keeps_sweep_round|]. by intros [st'|r]. }
  assert (Hcov : covered_to i blocks s s2).
  { apply (iter_inv (sweep_inv paths disk i blocks) (fun st s1 => covered_to i st.1.1 s s1)
      (fun o s2 => o <> None -> covered_to i blocks s s2) (sweep_round i blocks) Hk) in E2; try done.
    - intros st s1 r s3 Hst I1 Hc E. by apply (sweep_round_covers i blocks st s s1 r s3).
    - by apply sweep_inv_start with (disk := disk) (acked0 := acked0) (mfiles := mfiles).
    - split; [apply grows_refl|]. cbn. lia. }
  destruct Hcov as [_ Hcov].
  assert (Hsent : sent i b s2) by (apply (Hcov b ltac:(lia) f Hf Hs)).
  destruct Hsent as (wire & h & pl & Hin & Hrest). exists wire, h, pl. split; [|done].
  by rewrite (proj1 (upd_file_rest _ _ _)).
Qed.
End coverage.

(** ** Properties *)

(** The fuel of the loops is enough: the sender thread returns, or it has consumed every input of its
    environment and waits for the next one. *)
Theorem Run_suspended sha s : (Run sha s).1 = Some tt \/ (Run sha s).2.(env_) = [].
Proof.
  assert (H : live (Run sha) shrinks) by (unfold Run; live_auto; done). specialize (H s).
  destruct (Run sha s) as [[[]|] s']; [by left|by right].
Qed.

(** C22: In a state of a started engine ([tx_inv], which [Start] establishes and every step keeps): a sweep
    of a file that succeeds has handed every block the receiver did not hold when the sweep began to
    the link, and the link accepted it: nothing is left out, whatever the receiver reports, the clock
    and the link do meanwhile. *)
Theorem SweepFile_covers sha mfiles paths disk acked0 i s s' :
  transfer_ok mfiles paths disk acked0 -> tx_inv sha mfiles paths disk acked0 s -> SweepFile sha i s = (Some true, s') ->
  forall f b, file_at i s = Some f -> 0 <= b < f.(t_blocks) -> Test f.(skip) b = false -> sent i b s'.
Proof. intros Hok. by apply SweepFile_covers_all. Qed.

Lemma SweepFile_covers_witness :
  (SweepFile tx_sha 0 tx_start).1 = Some true /\ sent 0 1 (SweepFile tx_sha 0 tx_start).2.
Proof.
  assert (H : (SweepFile tx_sha 0 tx_start).1 = Some true) by (vm_compute; reflexivity). split; [exact H|].
  assert (Hi : tx_inv tx_sha tx_manifest.(Manifest.files) [[97]] tx_world.(w_files) 0 tx_start).
  { assert (Hz : tx_start.(bytes_acked_) = 0) by (vm_compute; reflexivity). rewrite <- Hz at 1.
    by apply (started_inv _ _ _ [] [] tx_world tx_env tx_start tx_started tx_sample_ok tx_env_ok). }
  assert (E : SweepFile tx_sha 0 tx_start = (Some true, (SweepFile tx_sha 0 tx_start).2)).
  { rewrite <- H. apply surjective_pairing. }
  assert (Hf : exists f, file_at 0 tx_start = Some f /\ f.(t_blocks) = 2 /\ Test f.(skip) 1 = false).
  { eexists. split; [reflexivity|]. split; vm_compute; reflexivity. }
  destruct Hf as (f & Hf & Hb & Hs).
  apply (SweepFile_covers tx_sha tx_manifest.(Manifest.files) [[97]] tx_world.(w_files) 0 0 tx_start _ tx_sample_ok Hi
    E f); [exact Hf|lia|exact Hs].
Defined.
