(* ===== verification/EndToEnd.v ===== *)
(** * From the sender's disk to the receiver's

    The composition of the two engines: the datagrams and hashes that reach the receiver are
    among those the sender emitted, each any number of times and in any order, and the SACKs that
    reach the sender are arbitrary.  The sender's theorems say what it emits, the receiver's what
    it makes of that; neither engine is looked into here. *)
From S2P Require Export ReceiverProofs.
From S2P Require SenderProofs.
#[local] Open Scope Z_scope.

(** ** Definitions *)

(** The network between the engines: loss, duplication and reordering, no invention.  The hashes
    travel on the reliable control stream, which may be cut at any point. *)
Definition carried (sent : list Sender.TxEffect) (e : RxEvent) : Prop :=
  match e with
  | EvBlock data dlen => exists wire r, data = Some wire /\ dlen = zlen wire /\
      Sender.TxDatagram kStreamData wire r ∈ sent
  | EvFileDone index sha256 => Sender.TxFileDone index sha256 ∈ sent
  | _ => True
  end.

Section transfer.
Context (sha : bytes -> bytes) (m : Manifest) (files : list bytes) (disk : gmap bytes bytes).
Notation source := (SenderProofs.source disk).

Definition src_of (i : Z) : bytes := default [] (source <$> files !! Z.to_nat i).
Definition announced_of (i : Z) (h : bytes) : Prop := exists p, files !! Z.to_nat i = Some p /\ h = Sha256Hex sha (source p).

(** ** Lemmas *)

Context (acked0 : Z) (Hok : SenderProofs.transfer_ok m.(Manifest.files) files disk acked0).

Lemma src_sizes : sizes_match m src_of.
Proof.
  intros i mf Hm. unfold src_of. rewrite Nat2Z.id. destruct (files !! i) as [p|] eqn:Hp.
  - by apply (SenderProofs.to_size _ _ _ _ Hok i mf p).
  - apply lookup_ge_None in Hp. apply lookup_lt_Some in Hm. pose proof (SenderProofs.to_len _ _ _ _ Hok). lia.
Qed.

Lemma carried_ok sent e : Forall (fun x => SenderProofs.effect_ok sha m.(Manifest.files) files disk x \/ x = Sender.TxAllDone) sent ->
  carried sent e -> event_ok True src_of announced_of e.
Proof.
  intros Hs Hc. rewrite Forall_forall in Hs. destruct e as [data dlen|index hash| | |]; try done; cbn [carried] in Hc.
  - destruct Hc as (wire & r & -> & -> & Hin). apply Hs in Hin as [[_ (h & pl & mf & p & Hd & Hm & Hp & Hi & Hb & Hl & Hpl)]|]; [|done].
    intros h' pl' Hd'. rewrite Hd in Hd'. injection Hd' as <- <-. unfold pending_ok. cbn -[slice].
    destruct (SenderProofs.block_len _ _ _ _ Hok _ _ _ Hm Hb) as [Hlen Hpos].
    destruct (SenderProofs.to_size _ _ _ _ Hok _ _ _ Hm Hp) as [_ Hsz].
    split; [done|]. split; [lia|]. split.
    + rewrite Hpl, zlen_slice, Hsz by (unfold kBlockPayloadSize; lia). unfold kBlockPayloadSize in *. lia.
    + intros _. rewrite Hpl. unfold src_of. by rewrite Hp.
  - apply Hs in Hc as [[Hi (p & Hp & ->)]|]; [|done]. split; [done|]. by exists p.
Qed.

End transfer.

(** ** Properties *)

(** C1: What the receiver puts in place is what the sender read: for every execution of the sender
    (whatever its clock, its link and the calls of its session do), and every execution of a
    receiver of the same manifest that is fed with some of the sender's datagrams and hashes, in
    any order and any number of times, with arbitrary failures of the receiver's system calls,
    stops included: a file the receiver has verified is on its disk with exactly the bytes the
    sender's disk holds for that file of the manifest. *)
Theorem transfer_end_to_end sha m files have checked w env s save fn wr r es k f :
  Sender.Start m files have checked (Sender.SenderTransfer_new w env) = (None, s) ->
  SenderProofs.transfer_ok m.(Manifest.files) files w.(w_files) s.(Sender.bytes_acked_) -> Forall SenderProofs.input_ok env ->
  paths_ok m save fn wr -> Start m save fn [] (ReceiverTransfer_new wr) = (None, r) ->
  Forall (carried (Sender.Run sha s).2.(Sender.out_)) es ->
  let r' := run_events (rx_step sha) r es in
  r'.(rx_) !! k = Some f -> f.(verified) = true ->
  exists p, files !! k = Some p /\ r'.(world_).(w_files) !! f.(final_path) = Some (default [] (w.(w_files) !! p)).
Proof.
  intros Hs Hok He Hp Hr Hes r' Hk Hv.
  assert (Hout : Forall (fun x => SenderProofs.effect_ok sha m.(Manifest.files) files w.(w_files) x \/ x = Sender.TxAllDone)
    (Sender.Run sha s).2.(Sender.out_)) by by eapply SenderProofs.Start_outputs.
  pose proof (Start_inv sha True (src_of files w.(w_files)) (announced_of sha files w.(w_files)) save fn m wr r Hp
    (fun _ => src_sizes m files _ _ Hok) Hr) as Hi.
  apply (rx_inv_run _ _ _ _ _ es) in Hi; [|by eapply Forall_impl; [exact Hes|intros e; by eapply carried_ok]].
  destruct (fi_verified _ _ _ _ _ _ _ (ri_files _ _ _ _ _ Hi k f Hk) Hv) as (c & Hc & (p & Hpk & _) & Hh).
  rewrite Nat2Z.id in Hpk. exists p. split; [done|]. unfold r'. rewrite Hc, (Hh I). unfold src_of. by rewrite Nat2Z.id, Hpk.
Qed.

(** *** Example *)

(** The network that delivers what the sender emitted, the last first, with a turn of the writer
    thread at each of the other effects. *)
Definition event_of (e : Sender.TxEffect) : RxEvent :=
  match e with
  | Sender.TxDatagram _ wire _ => EvBlock (Some wire) (zlen wire)
  | Sender.TxFileDone index hash => EvFileDone index hash
  | _ => EvIter sample_view 20 21 22
  end.
Notation e2e_sent := (Sender.Run SenderProofs.tx_sha SenderProofs.tx_start).2.(Sender.out_).
Definition e2e_events : list RxEvent := map event_of (reverse e2e_sent) ++ [EvIter sample_view 40 41 42].
Definition e2e_rx : Receiver := (Start SenderProofs.tx_manifest sample_save ∅ [] (ReceiverTransfer_new sample_world)).2.
Notation e2e_end := (run_events (rx_step SenderProofs.tx_sha) e2e_rx e2e_events).
Definition e2e_file : FileRx := default (FileRx_new 0 0 []) (e2e_end.(rx_) !! 0%nat).

Lemma e2e_started : Start SenderProofs.tx_manifest sample_save ∅ [] (ReceiverTransfer_new sample_world) = (None, e2e_rx).
Proof.
  assert (H : (Start SenderProofs.tx_manifest sample_save ∅ [] (ReceiverTransfer_new sample_world)).1 = None) by (vm_compute; reflexivity).
  unfold e2e_rx. by destruct (Start _ _ _ _ _) as [e r]; cbn in H; subst e.
Qed.

Lemma e2e_paths : paths_ok SenderProofs.tx_manifest sample_save ∅ sample_world.
Proof.
  split.
  - match goal with |- NoDup ?l => assert (H : bool_decide (NoDup l) = true) by (vm_compute; reflexivity) end.
    by apply bool_decide_eq_true in H.
  - constructor; [done|constructor].
  - done.
  - repeat constructor; done.
Qed.

Lemma datagrams_on_data sha mfiles paths disk l :
  Forall (fun e => SenderProofs.effect_ok sha mfiles paths disk e \/ e = Sender.TxAllDone) l ->
  Forall (fun e => match e with Sender.TxDatagram st _ _ => st = kStreamData | _ => True end) l.
Proof. intros H. eapply Forall_impl; [exact H|]. intros [] [He|He]; try done. apply He. Qed.

Lemma e2e_datagrams : Forall (fun e => match e with Sender.TxDatagram st _ _ => st = kStreamData | _ => True end) e2e_sent.
Proof.
  exact (datagrams_on_data _ _ _ _ _ (SenderProofs.Start_outputs SenderProofs.tx_sha SenderProofs.tx_manifest [[97]] [] []
    SenderProofs.tx_world SenderProofs.tx_env SenderProofs.tx_start SenderProofs.tx_started SenderProofs.tx_sample_ok
    SenderProofs.tx_env_ok)).
Qed.

Lemma e2e_carried : Forall (carried e2e_sent) e2e_events.
Proof.
  pose proof e2e_datagrams as Hd. unfold e2e_events. revert Hd. generalize e2e_sent. intros l Hd. apply Forall_app.
  split; [|by repeat constructor]. apply Forall_map, Forall_forall.
  intros e He. rewrite elem_of_reverse in He. rewrite Forall_forall in Hd. specialize (Hd e He).
  destruct e as [| | |st wire r|]; try done. unfold compose. cbn. subst st. by exists wire, r.
Qed.

Lemma transfer_end_to_end_witness :
  exists p, [[97]] !! 0%nat = Some p /\
    e2e_end.(world_).(w_files) !! e2e_file.(final_path) = Some (default [] (SenderProofs.tx_world.(w_files) !! p)).
Proof.
  assert (H : e2e_end.(rx_) !! 0%nat = Some e2e_file /\ e2e_file.(verified) = true).
  { assert (Hv : (fun f => f.(verified)) <$> (e2e_end.(rx_) !! 0%nat) = Some true) by (vm_compute; reflexivity).
    unfold e2e_file. destruct (rx_ e2e_end !! 0%nat) as [f|]; [|done]. split; [done|]. by injection Hv. }
  destruct H as [Hf Hv].
  exact (transfer_end_to_end SenderProofs.tx_sha SenderProofs.tx_manifest [[97]] [] [] SenderProofs.tx_world
    SenderProofs.tx_env SenderProofs.tx_start sample_save ∅ sample_world e2e_rx e2e_events 0 e2e_file
    SenderProofs.tx_started SenderProofs.tx_sample_ok SenderProofs.tx_env_ok e2e_paths e2e_started e2e_carried Hf Hv).
Defined.
