(* ===== verification/Peer.v ===== *)
(** * The connection to the service ([core/src/runtime/peer.{h,cpp}])

    [Peer] owns the MiniRTC peer: it opens and closes it, forwards calls to it, and turns its
    callbacks into tasks of the core loop.  A gate shared with the callbacks guarantees silence
    after [Close].  MiniRTC itself is behind its C interface: the calls made to it are the list an
    operation returns, what it answers is an argument. *)
From S2P Require Export Protocol.

(** ** Definitions *)

(** *** The enumerations of [minirtc.h] *)

Inductive MiniRtcSignalStatus :=
| MINIRTC_SIGNAL_CONNECTING | MINIRTC_SIGNAL_CONNECTED | MINIRTC_SIGNAL_FAILED | MINIRTC_SIGNAL_CLOSED
| MINIRTC_SIGNAL_RECONNECTING | MINIRTC_SIGNAL_TLS_ERROR.
Inductive MiniRtcSessionStatus :=
| MINIRTC_SESSION_CONNECTING | MINIRTC_SESSION_CONNECTED | MINIRTC_SESSION_DISCONNECTED
| MINIRTC_SESSION_FAILED | MINIRTC_SESSION_CLOSED.
Inductive MiniRtcShareEvent :=
| MINIRTC_SHARE_CREATED | MINIRTC_SHARE_CLOSED | MINIRTC_SHARE_CLAIMED | MINIRTC_SHARE_FAILED.
Inductive MiniRtcClaimResult :=
| MINIRTC_CLAIM_OK | MINIRTC_CLAIM_CODE_NOT_FOUND | MINIRTC_CLAIM_CODE_EXPIRED | MINIRTC_CLAIM_SHARE_BUSY
| MINIRTC_CLAIM_RATE_LIMITED | MINIRTC_CLAIM_ERROR.
Inductive MiniRtcPath := MINIRTC_PATH_UNKNOWN | MINIRTC_PATH_P2P | MINIRTC_PATH_TURN | MINIRTC_PATH_WS_RELAY.
Inductive MiniRtcTurnMode := MINIRTC_TURN_DISABLED | MINIRTC_TURN_AUTO | MINIRTC_TURN_FORCE.

#[export] Instance signal_dec : EqDecision MiniRtcSignalStatus.
Proof. solve_decision. Defined.
#[export] Instance claim_dec : EqDecision MiniRtcClaimResult.
Proof. solve_decision. Defined.
#[export] Instance path_dec : EqDecision MiniRtcPath.
Proof. solve_decision. Defined.
#[export] Instance turn_dec : EqDecision MiniRtcTurnMode.
Proof. solve_decision. Defined.

Definition SignalStatusName (s : MiniRtcSignalStatus) : string :=
  match s with
  | MINIRTC_SIGNAL_CONNECTING => "connecting"
  | MINIRTC_SIGNAL_CONNECTED => "connected"
  | MINIRTC_SIGNAL_FAILED => "failed"
  | MINIRTC_SIGNAL_CLOSED => "closed"
  | MINIRTC_SIGNAL_RECONNECTING => "reconnecting"
  | MINIRTC_SIGNAL_TLS_ERROR => "tls_error"
  end.

Definition SessionStatusName (s : MiniRtcSessionStatus) : string :=
  match s with
  | MINIRTC_SESSION_CONNECTING => "connecting"
  | MINIRTC_SESSION_CONNECTED => "connected"
  | MINIRTC_SESSION_DISCONNECTED => "disconnected"
  | MINIRTC_SESSION_FAILED => "failed"
  | MINIRTC_SESSION_CLOSED => "closed"
  end.

Definition PathName (p : MiniRtcPath) : string :=
  match p with
  | MINIRTC_PATH_P2P => "p2p"
  | MINIRTC_PATH_TURN => "turn"
  | MINIRTC_PATH_WS_RELAY => "relay"
  | MINIRTC_PATH_UNKNOWN => "unknown"
  end.

Definition ClaimResultName (r : MiniRtcClaimResult) : string :=
  match r with
  | MINIRTC_CLAIM_OK => "ok"
  | MINIRTC_CLAIM_CODE_NOT_FOUND => "code_not_found"
  | MINIRTC_CLAIM_CODE_EXPIRED => "code_expired"
  | MINIRTC_CLAIM_SHARE_BUSY => "share_busy"
  | MINIRTC_CLAIM_RATE_LIMITED => "rate_limited"
  | MINIRTC_CLAIM_ERROR => "error"
  end.

(** *** State *)

Record PeerConfig := mkPeerConfig {
  server_host : string; server_port : Z; server_tls : bool; server_path : string; log_dir : string;
  turn_mode : MiniRtcTurnMode; enable_srtp : bool; enable_upnp : bool; enable_ws_relay : bool;
  force_ws_relay : bool; ice_timeout_ms : Z; app : string; version : string; platform : string;
  kcp_window : Z;
}.

Record SessionInfo := mkSessionInfo {
  status : MiniRtcSessionStatus; i_session_id : string; i_role : string; i_resume_token : string;
  i_meta_json : string; i_path : MiniRtcPath; reason : string;
}.

(** The calls into MiniRTC. *)
Inductive RtcCall :=
| MiniRtcCreate (p : PeerConfig)
| MiniRtcAddDataStream (stream : string) (reliable : bool)
| MiniRtcSetReliableWindow (stream : string) (window : Z)
| MiniRtcConnect
| MiniRtcDestroy
| MiniRtcCreateShare (mode : string) (ttl_sec : Z) (meta_json : string)
| MiniRtcCloseShare (share_id : string)
| MiniRtcClaim (code resume_token : option string)
| MiniRtcLeave (session_id : string)
| MiniRtcSend (session_id stream : string) (data : bytes)
| MiniRtcGetLinkEstimate (session_id : string).

Section peer.
(** [K] is a data sink, [N] the network statistics. *)
Context {K N : Type} `{EqDecision K}.

(** The tasks posted to the core loop: each calls the callback of the same name. *)
Inductive PeerTask :=
| on_notifications (snapshot : string)
| on_signal (st : MiniRtcSignalStatus) (peer_id : string)
| on_share (ev : MiniRtcShareEvent) (share_id code : string) (expires_at : Z) (detail : string)
| on_claim (r : MiniRtcClaimResult) (session_id resume_token message : string)
| on_session (info : SessionInfo)
| on_stats (session_id : string) (stats : N)
| on_ctrl (session_id : string) (data : bytes).

(** [gate_peer] is [gate->peer != nullptr], [peer_] is [peer_ != nullptr]. *)
Record Peer := mkPeer {
  cfg_ : PeerConfig; open : bool; gate_peer : bool; sinks : list (string * K); peer_ : bool;
}.
#[export] Instance eta_Peer : Eta Peer := fun p => mkPeer p.(cfg_) p.(open) p.(gate_peer) p.(sinks) p.(peer_).

Definition Peer_new (cfg : PeerConfig) : Peer := mkPeer cfg true true [] false.

(** *** Operations: the result, the calls to MiniRTC, the new state *)

(** [created] and [connected] are the answers of [MiniRtcCreate] and [MiniRtcConnect]; the result
    is the error message, [None] on success. *)
Definition Connect (created : bool) (connected : Z) (p : Peer) : option string * list RtcCall * Peer :=
  if p.(peer_) then (None, [], p) else
  if negb p.(open) then (Some "peer closed"%string, [], p) else
  let calls := [MiniRtcCreate p.(cfg_)] in
  if negb created then (Some "MiniRtcCreate failed"%string, calls, p) else
  let calls := calls ++ [MiniRtcAddDataStream kStreamCtrl true; MiniRtcAddDataStream kStreamData false;
                         MiniRtcAddDataStream kStreamSack false;
                         MiniRtcSetReliableWindow kStreamCtrl p.(cfg_).(kcp_window); MiniRtcConnect] in
  if negb (connected =? 0)%Z
  then (Some "MiniRtcConnect failed"%string, calls ++ [MiniRtcDestroy], p)
  else (None, calls, p <| peer_ := true |>).

Definition Close (p : Peer) : list RtcCall * Peer :=
  (if p.(peer_) then [MiniRtcDestroy] else [],
   p <| open := false |> <| gate_peer := false |> <| peer_ := false |> <| sinks := [] |>).

(** A call that is forwarded while the peer exists; [rc] is MiniRTC's answer. *)
Definition forward (c : RtcCall) (rc : Z) (p : Peer) : Z * list RtcCall :=
  if negb p.(peer_) then (-1, [])%Z else (rc, [c]).

Definition CreateShare (mode : string) (ttl_sec : Z) (meta_json : string) : Z -> Peer -> Z * list RtcCall :=
  forward (MiniRtcCreateShare mode ttl_sec meta_json).
Definition CloseShare (share_id : string) : Z -> Peer -> Z * list RtcCall := forward (MiniRtcCloseShare share_id).
Definition nonempty (s : string) : option string := if String.eqb s "" then None else Some s.
Definition Claim (code resume_token : string) : Z -> Peer -> Z * list RtcCall :=
  forward (MiniRtcClaim (nonempty code) (nonempty resume_token)).
Definition Leave (session_id : string) : Z -> Peer -> Z * list RtcCall := forward (MiniRtcLeave session_id).

Definition Send (session_id stream : string) (data : bytes) (rc : Z) (p : Peer) : Z * list RtcCall :=
  if negb p.(open) then (-1, [])%Z else
  if negb p.(peer_) then (-1, [])%Z else (rc, [MiniRtcSend session_id stream data]).

Definition GetLinkEstimate (session_id : string) (rc : Z) (p : Peer) : bool * list RtcCall :=
  if negb p.(open) || negb p.(peer_) then (false, []) else ((rc =? 0)%Z, [MiniRtcGetLinkEstimate session_id]).

Definition SetDataSink (session_id : string) (sink : K) (p : Peer) : Peer :=
  p <| sinks ::= sm_set session_id sink |>.
Definition RemoveDataSink (session_id : string) (expected : K) (p : Peer) : Peer :=
  match sm_find session_id p.(sinks) with
  | Some k => if decide (k = expected) then p <| sinks ::= sm_erase session_id |> else p
  | None => p
  end.

(** *** The callbacks of MiniRTC: the tasks they post *)

(** [S]: a C string that may be null. *)
Definition S_ (s : option string) : string := default ""%string s.
(** [CT_PEER_GATE] *)
Definition gated (t : PeerTask) (p : Peer) : list PeerTask :=
  if negb p.(open) || negb p.(gate_peer) then [] else [t].

Definition OnNotifications (json : option string) : Peer -> list PeerTask := gated (on_notifications (S_ json)).
Definition OnSignalStatus (st : MiniRtcSignalStatus) (peer_id : option string) : Peer -> list PeerTask :=
  gated (on_signal st (S_ peer_id)).
Definition OnShareEvent (ev : MiniRtcShareEvent) (share_id code : option string) (expires_at : Z) (detail : option string)
  : Peer -> list PeerTask := gated (on_share ev (S_ share_id) (S_ code) expires_at (S_ detail)).
Definition OnClaimResult (r : MiniRtcClaimResult) (session_id token message : option string) : Peer -> list PeerTask :=
  gated (on_claim r (S_ session_id) (S_ token) (S_ message)).
Definition OnSessionStatus (st : MiniRtcSessionStatus) (sid role token meta : option string) (path : MiniRtcPath)
  (why : option string) : Peer -> list PeerTask :=
  gated (on_session (mkSessionInfo st (S_ sid) (S_ role) (S_ token) (S_ meta) path (S_ why))).

(** Tasks, and the sink that is called on this thread. *)
Definition OnReceiveData (data : option bytes) (sid stream : option string) (p : Peer)
  : list PeerTask * option (K * string * bytes) :=
  match data, sid, stream with
  | Some data, Some sid, Some stream =>
      if String.eqb stream kStreamCtrl then (gated (on_ctrl sid data) p, None) else
      match sm_find sid p.(sinks) with
      | Some k => ([], Some (k, stream, data))
      | None => ([], None)
      end
  | _, _, _ => ([], None)
  end.

Definition OnNetStats (sid : option string) (stats : option N) (p : Peer) : list PeerTask :=
  match stats with None => [] | Some st => gated (on_stats (S_ sid) st) p end.

(** *** Sequences of operations *)

Inductive PeerOp :=
| PConnect (created : bool) (connected : Z)
| PClose
| PForward (c : RtcCall) (rc : Z)
| PSend (session_id stream : string) (data : bytes) (rc : Z)
| PEstimate (session_id : string) (rc : Z)
| PSetSink (session_id : string) (sink : K)
| PRemoveSink (session_id : string) (expected : K)
| PCallback (t : PeerTask)
| PData (data : option bytes) (sid stream : option string).

(** What MiniRTC is asked and what is posted, with the state. *)
Definition peer_step (s : list RtcCall * list PeerTask * Peer) (o : PeerOp) : list RtcCall * list PeerTask * Peer :=
  let '(calls, tasks, p) := s in
  match o with
  | PConnect created connected => let '(_, c, p) := Connect created connected p in (calls ++ c, tasks, p)
  | PClose => let '(c, p) := Close p in (calls ++ c, tasks, p)
  | PForward c rc => (calls ++ (forward c rc p).2, tasks, p)
  | PSend sid stream data rc => (calls ++ (Send sid stream data rc p).2, tasks, p)
  | PEstimate sid rc => (calls ++ (GetLinkEstimate sid rc p).2, tasks, p)
  | PSetSink sid k => (calls, tasks, SetDataSink sid k p)
  | PRemoveSink sid k => (calls, tasks, RemoveDataSink sid k p)
  | PCallback t => (calls, tasks ++ gated t p, p)
  | PData data sid stream => (calls, tasks ++ (OnReceiveData data sid stream p).1, p)
  end.

(** ** Lemmas *)

Definition closed (p : Peer) : Prop := p.(open) = false /\ p.(peer_) = false.

Lemma gated_closed t p : closed p -> gated t p = [].
Proof. intros [H _]. unfold gated. by rewrite H. Qed.

Lemma OnReceiveData_closed data sid stream p : closed p -> (OnReceiveData data sid stream p).1 = [].
Proof.
  intros H. unfold OnReceiveData. destruct data, sid, stream; try done. case_match; [by apply gated_closed|].
  by case_match.
Qed.

Lemma peer_step_closed calls tasks p o : closed p ->
  exists p', peer_step (calls, tasks, p) o = (calls, tasks, p') /\ closed p'.
Proof.
  intros Hc. pose proof Hc as [Ho Hp]. destruct o; cbn [peer_step].
  - unfold Connect. rewrite Hp, Ho. cbn. rewrite app_nil_r. eauto.
  - unfold Close. rewrite Hp. cbn. rewrite app_nil_r. eexists. by split.
  - unfold forward. rewrite Hp. cbn. rewrite app_nil_r. eauto.
  - unfold Send. rewrite Ho. cbn. rewrite app_nil_r. eauto.
  - unfold GetLinkEstimate. rewrite Ho. cbn. rewrite app_nil_r. eauto.
  - eexists. split; [done|]. exact Hc.
  - eexists. split; [done|]. unfold RemoveDataSink. repeat case_match; done.
  - rewrite gated_closed, app_nil_r by done. eauto.
  - rewrite OnReceiveData_closed, app_nil_r by done. eauto.
Qed.

(** ** Properties *)

(** Once [Close] has run, whatever operations and callbacks follow, MiniRTC is not called again and
    no task is posted: the peer can be destroyed and the core is not called from it. *)
Theorem closed_peer_silent calls tasks p ops :
  let '(c, p') := Close p in
  exists p'', run_events peer_step (calls ++ c, tasks, p') ops = (calls ++ c, tasks, p'').
Proof.
  unfold Close. set (c := if peer_ p then _ else _).
  match goal with |- exists _, run_events _ (_, _, ?q) _ = _ => assert (H : closed q) by done; revert H; generalize q end.
  generalize (calls ++ c). clear. intros calls.
  induction ops as [|o ops IH]; intros p Hp; cbn [run_events]; [eauto|].
  destruct (peer_step_closed calls tasks p o Hp) as (p' & -> & Hp'). by apply IH.
Qed.

End peer.
