(* ===== verification/ReceiverDone.v ===== *)
(** * What the receiving engine's callbacks mean to its owner

    A verified file stays verified; [on_file_ok] is called for verified files only, and
    [on_all_done] only once every file is verified. *)
From S2P Require Export ReceiverProofs.
#[local] Open Scope Z_scope.

(** ** Lemmas *)

#[export] Instance iter_event_dec e : Decision (exists sv now now2 now3, e = EvIter sv now now2 now3).
Proof. destruct e; try (right; by intros (? & ? & ? & ? & ?)). left. by eauto. Defined.

(** A later version of a file. *)
Definition file_later (f f' : FileRx) : Prop :=
  (f'.(f_index), f'.(f_size)) = (f.(f_index), f.(f_size)) /\ f'.(final_path) = f.(final_path) /\ (f.(verified) = true -> f'.(verified) = true).

(** A file with that index is verified. *)
Definition verified_index (i : Z) (r : Receiver) : Prop :=
  exists k f, r.(rx_) !! k = Some f /\ f.(f_index) = i /\ f.(verified) = true.

Record advances (r r' : Receiver) : Prop := {
  ad_len : length r'.(rx_) = length r.(rx_);
  ad_files : forall k f, r.(rx_) !! k = Some f -> exists f', r'.(rx_) !! k = Some f' /\ file_later f f';
  ad_finished : r'.(finished_) = r.(finished_);
  ad_out : forall e, e ∈ r'.(out_) -> e ∈ r.(out_) \/ (e <> OnAllDone /\ forall i, e = OnFileOk i -> verified_index i r');
}.

Lemma file_later_refl f : file_later f f.
Proof. by repeat split. Qed.

Lemma file_later_trans f1 f2 f3 : file_later f1 f2 -> file_later f2 f3 -> file_later f1 f3.
Proof. intros (A & B & C) (A' & B' & C'). split; [congruence|]. split; [congruence|auto]. Qed.

Lemma verified_later i r r' : advances r r' -> verified_index i r -> verified_index i r'.
Proof.
  intros H (k & f & Hk & Hi & Hv). destruct (ad_files _ _ H _ _ Hk) as (f' & Hk' & A & _ & C).
  exists k, f'. split; [done|]. split; [congruence|auto].
Qed.

Lemma advances_trans r1 r2 r3 : advances r1 r2 -> advances r2 r3 -> advances r1 r3.
Proof.
  intros H1 H2. split.
  - by rewrite (ad_len _ _ H2), (ad_len _ _ H1).
  - intros k f Hk. destruct (ad_files _ _ H1 _ _ Hk) as (f' & Hk' & L). destruct (ad_files _ _ H2 _ _ Hk') as (f'' & Hk'' & L').
    exists f''. split; [done|]. by apply (file_later_trans _ f').
  - by rewrite (ad_finished _ _ H2), (ad_finished _ _ H1).
  - intros e He. apply (ad_out _ _ H2) in He as [He|He]; [|by right].
    apply (ad_out _ _ H1) in He as [He|[Hne Hi]]; [by left|]. right. split; [done|]. intros i ->.
    apply (verified_later i r2); [done|by apply Hi].
Qed.

Lemma advances_same r r' : r'.(rx_) = r.(rx_) -> r'.(finished_) = r.(finished_) -> r'.(out_) = r.(out_) -> advances r r'.
Proof.
  intros A B C. split; rewrite ?A, ?C; try done; [|by left]. intros k f Hk. exists f. split; [done|apply file_later_refl].
Qed.

Lemma advances_refl r : advances r r.
Proof. by apply advances_same. Qed.

Lemma advances_emit e r : e <> OnAllDone -> (forall i, e = OnFileOk i -> verified_index i r) -> advances r (emit e r).
Proof.
  intros Hne Hi. split; try done.
  - intros k f Hk. exists f. split; [done|apply file_later_refl].
  - intros e' He. unfold emit in He. cbn in He. apply elem_of_app in He as [He|He]; [by left|].
    apply list_elem_of_singleton in He as ->. by right.
Qed.

Lemma advances_set i f f' r : file_at r i = Some f -> file_later f f' -> advances r (set_file i f' r).
Proof.
  intros Hf Hl. unfold file_at in Hf. split; try done; cbn.
  - by rewrite length_insert.
  - intros k g Hk. destruct (decide (k = Z.to_nat i)) as [->|].
    + rewrite Hf in Hk. injection Hk as <-. exists f'. split; [|done]. apply list_lookup_insert_eq. by eapply lookup_lt_Some.
    + exists g. split; [by rewrite list_lookup_insert_ne|apply file_later_refl].
  - by left.
Qed.

Lemma advances_fmap g r : (forall f, file_later f (g f)) -> advances r (r <| rx_ ::= fmap g |>).
Proof.
  intros Hg. split; try done; cbn; [by rewrite length_fmap| |by left].
  intros k f Hk. exists (g f). split; [by rewrite list_lookup_fmap, Hk|done].
Qed.

Lemma advances_Fail c m r : advances r (Fail_ c m r).
Proof.
  unfold Fail_. case_match; [apply advances_refl|].
  apply (advances_trans _ (r <| failed_ := true |>)); [by apply advances_same|by apply advances_emit].
Qed.

(** Proves [advances r r'] by undoing the steps that lead to [r']. *)
Ltac advance :=
  lazymatch goal with
  | |- advances ?r ?r => apply advances_refl
  | |- advances _ (_, ?Y).2 => cbn [snd]; advance
  | |- advances _ (Fail_ _ _ ?Y) => apply (advances_trans _ Y); [advance|apply advances_Fail]
  | |- advances _ (emit _ ?Y) => apply (advances_trans _ Y); [advance|try by apply advances_emit]
  | |- advances _ (upd_field _ _ ?Y) => apply (advances_trans _ Y); [advance|by apply advances_same]
  | |- advances _ (set_file _ _ ?Y) => apply (advances_trans _ Y); [advance|try (eapply advances_set; [done|by repeat split])]
  | |- advances _ (if ?b then _ else _) => let E := fresh "E" in destruct b eqn:E; advance
  | |- _ => idtac
  end.

Lemma advances_SendSack i now r : advances r (SendSack i now r).
Proof.
  unfold SendSack. destruct (file_at r i) as [f|] eqn:Ef; [|advance].
  destruct (AckBase (bitmap f)) as [base b]. destruct (if negb _ then _ else _) as [hs b']. advance.
Qed.

Lemma advances_verified i f f' r : file_at r i = Some f -> file_later f f' -> f'.(verified) = true ->
  advances r (emit (OnFileOk f.(f_index)) (set_file i f' r)).
Proof.
  intros Hf Hl Hv. apply (advances_trans _ (set_file i f' r)); [by apply (advances_set i f)|]. apply advances_emit; [done|].
  intros j [= <-]. exists (Z.to_nat i), f'. split; [|split; [by destruct Hl as [[= -> _] _]|done]]. cbn. apply list_lookup_insert_eq.
  unfold file_at in Hf. by eapply lookup_lt_Some.
Qed.

Lemma advances_MaybeVerify sha sv i r : advances r (MaybeVerify sha sv i r).
Proof.
  unfold MaybeVerify. destruct (file_at r i) as [f|] eqn:Ef; [|advance]. case_match; [advance|].
  destruct (if f_blocks _ =? 0 then _ else _) as [hex w]. case_match; [advance|].
  destruct hex as [hex|]; [|advance]. case_match.
  - destruct (if f_blocks _ >? 0 then _ else _) as [wr w']. advance.
  - destruct (RenameReplace _ _ _) as [ok w']. destruct ok; cbn [negb]; [|advance].
    apply (advances_trans _ (r <| world_ := w' |> <| files_done_ ::= (fun n => u32 (n + 1)) |>)); [advance|].
    by apply (advances_verified i f).
Qed.

Lemma advances_AcceptBlock p r : advances r (AcceptBlock p r).2.
Proof.
  unfold AcceptBlock. destruct (file_at r _) as [f|] eqn:Ef; [|advance].
  case_if; [apply advances_refl|]. case_if; [apply advances_refl|].
  match goal with |- context [set_file _ ?g _] => set (f' := g) end.
  assert (H : advances r (set_file (p_file p) f' (r <| current_file_ := f_index f |>))).
  { advance. apply (advances_set _ f); [done|]. unfold f'. case_match; by repeat split. }
  cbn [snd]. case_if; [done|]. by apply (advances_trans _ _ _ H), advances_same.
Qed.

Lemma advances_FlushRun sha sv i first data blocks now r : advances r (FlushRun sha sv i first data blocks now r).2.
Proof.
  unfold FlushRun. destruct (file_at r i) as [f|] eqn:Ef; [|advance]. case_if; [advance|].
  match goal with |- context [let '(_, _) := ?x in _] => destruct x as [ok w] end. destruct ok; cbn [negb snd]; [|advance].
  match goal with |- advances _ (if _ then MaybeVerify _ _ _ (SendSack _ _ ?Y) else _) => assert (H : advances r Y) by advance end.
  case_match; [|done]. eapply advances_trans; [exact H|]. eapply advances_trans; [apply advances_SendSack|apply advances_MaybeVerify].
Qed.

Lemma advances_flush sha sv b now r : advances r (flush sha sv b now r).2.
Proof.
  unfold flush. destruct (run_file b) as [i|]; [|advance].
  pose proof (advances_FlushRun sha sv i (run_first b) (run_data b) (run_blocks b) now r) as H.
  by destruct (FlushRun _ _ _ _ _ _ _ _) as [ok r'].
Qed.

Lemma advances_batch sha sv batch b now r : advances r (batch_loop sha sv batch b now r).
Proof.
  revert b r. induction batch as [|p batch IH]; intros b r; cbn [batch_loop]; [apply advances_flush|].
  pose proof (advances_flush sha sv b now r) as Hf.
  assert (H1 : advances r (if negb (contiguous b p) then flush sha sv b now r else (true, b, r)).2) by (case_match; [done|advance]).
  destruct (if negb (contiguous b p) then _ else _) as [[ok b1] r1]. cbn [snd] in H1. destruct ok; cbn [negb]; [|done].
  apply (advances_trans _ r1); [done|]. pose proof (advances_AcceptBlock p r1) as H2.
  destruct (AcceptBlock p r1) as [fresh r2]. cbn [snd] in H2. apply (advances_trans _ r2); [done|].
  destruct fresh; cbn [negb]; [|apply IH]. case_match; [|apply IH].
  match goal with |- context [flush sha sv ?b2 now r2] => pose proof (advances_flush sha sv b2 now r2) as H3;
    destruct (flush sha sv b2 now r2) as [[ok' b3] r3] end.
  cbn [snd] in H3. destruct ok'; cbn [negb]; [|done]. by eapply advances_trans; [|apply IH].
Qed.

Lemma advances_fold {A} (step : Receiver -> A -> Receiver) l r : (forall r a, advances r (step r a)) -> advances r (foldl step r l).
Proof. intros H. revert r. induction l as [|a l IH]; intros r; [apply advances_refl|]. by eapply advances_trans; [|apply IH]. Qed.

Lemma advances_sack now force r i : advances r (sack_one now force r i).
Proof.
  unfold sack_one. destruct (file_at r i); [|advance]. repeat case_match; first [apply advances_SendSack|advance].
Qed.

Lemma advances_done sha sv r d : advances r (done_one sha sv r d).
Proof.
  unfold done_one. destruct (file_at r d.1) as [f|] eqn:E; [|advance].
  eapply advances_trans; [|apply advances_MaybeVerify]. by apply (advances_set _ f).
Qed.

Lemma advances_Persist force now r : advances r (Persist force now r).
Proof. unfold Persist. advance. Qed.

Lemma advances_rates now r : advances r (UpdateRates now r).
Proof. unfold UpdateRates. case_if; [apply advances_refl|]. apply advances_same; reflexivity. Qed.

(** ** The meaning of the callbacks *)

Record done_inv (r : Receiver) : Prop := {
  dn_finished : r.(finished_) = true -> AllVerified r = true;
  dn_all : OnAllDone ∈ r.(out_) -> r.(finished_) = true;
  dn_ok : forall i, OnFileOk i ∈ r.(out_) -> verified_index i r;
}.

Lemma AllVerified_later r r' : advances r r' -> AllVerified r = true -> AllVerified r' = true.
Proof.
  intros H Hv. unfold AllVerified in *. rewrite forallb_forall in Hv |- *. intros f' Hf'. apply list_elem_of_In in Hf'.
  apply list_elem_of_lookup in Hf' as (k & Hk'). assert (Hk : (k < length (rx_ r))%nat).
  { rewrite <- (ad_len _ _ H). by eapply lookup_lt_Some. }
  apply lookup_lt_is_Some_2 in Hk as [f Hk]. destruct (ad_files _ _ H _ _ Hk) as (g & Hg & _ & _ & Hl).
  rewrite Hk' in Hg. injection Hg as <-. apply Hl, Hv, list_elem_of_In. by eapply list_elem_of_lookup_2.
Qed.

Lemma done_advances r r' : advances r r' -> done_inv r -> done_inv r'.
Proof.
  intros H [D1 D2 D3]. split.
  - intros Hf. apply (AllVerified_later r); [done|]. apply D1. by rewrite <- (ad_finished _ _ H).
  - intros Ho. rewrite (ad_finished _ _ H). apply (ad_out _ _ H) in Ho as [Ho|[Ho _]]; [by apply D2|done].
  - intros i Ho. apply (ad_out _ _ H) in Ho as [Ho|[_ Ho]]; [|by apply Ho]. apply (verified_later i r); [done|by apply D3].
Qed.

(** An iteration only adds the final callback to steps of this kind. *)
Lemma Run_iter_advances sha sv now now2 now3 r : let r' := (Run_iter sha sv now now2 now3 r).2 in
  advances r r' \/ exists r1, advances r r1 /\ AllVerified r1 = true /\ r' = emit OnAllDone (r1 <| finished_ := true |>).
Proof.
  cbn zeta. unfold Run_iter. case_if; [left; apply advances_Persist|].
  set (r1 := r <| queue_ := [] |> <| pending_done_ := [] |> <| queue_bytes_ := 0 |>).
  assert (H1 : advances r (HandleBatch sha sv (queue_ r) now r1)).
  { apply (advances_trans _ r1); [by apply advances_same|apply advances_batch]. }
  revert H1. generalize (HandleBatch sha sv (queue_ r) now r1). intros r2 H2. case_if; [by left|].
  assert (H3 : advances r (foldl (done_one sha sv) r2 (pending_done_ r))).
  { apply (advances_trans _ r2); [done|]. apply advances_fold. intros. apply advances_done. }
  revert H3. generalize (foldl (done_one sha sv) r2 (pending_done_ r)). intros r3 H3.
  set (r4 := if initial_check_ r3 then _ else r3).
  assert (H4 : advances r r4).
  { apply (advances_trans _ r3); [done|]. unfold r4. case_match; [|apply advances_refl].
    apply (advances_trans _ (r3 <| initial_check_ := false |>)); [by apply advances_same|]. apply advances_fmap.
    intros f. unfold mark_dirty. case_match; by repeat split. }
  set (r5 := Persist false now2 (UpdateRates now (SendSacks now false r4))).
  assert (H5 : advances r r5).
  { apply (advances_trans _ r4); [done|]. unfold r5. apply (advances_trans _ (SendSacks now false r4)).
    - apply advances_fold. intros. apply advances_sack.
    - eapply advances_trans; [apply advances_rates|apply advances_Persist]. }
  destruct (AllVerified r5) eqn:Ha; cbn [snd]; [|by left]. right. exists (Persist true now3 r5).
  split; [eapply advances_trans; [exact H5|apply advances_Persist]|]. split; [|reflexivity].
  apply (AllVerified_later r5); [apply advances_Persist|done].
Qed.

Lemma done_Run_iter sha sv now now2 now3 r : done_inv r -> done_inv (Run_iter sha sv now now2 now3 r).2.
Proof.
  intros Hd. destruct (Run_iter_advances sha sv now now2 now3 r) as [H|(r1 & H & Ha & ->)]; [by apply (done_advances r)|].
  pose proof (done_advances _ _ H Hd) as [D1 D2 D3]. split; [exact (fun _ => Ha)|exact (fun _ => eq_refl)|].
  intros i Hi. unfold emit in Hi. cbn in Hi. apply elem_of_app in Hi as [Hi|Hi]; [|by apply list_elem_of_singleton in Hi].
  exact (D3 i Hi).
Qed.

Lemma advances_Stop r : advances r (Stop r).
Proof.
  unfold Stop. apply (advances_trans _ (r <| stop_ := true |> <| joinable_ := false |>)); [by apply advances_same|].
  apply advances_fmap. by repeat split.
Qed.

Lemma advances_Cleanup r : advances r (Cleanup r).
Proof. unfold Cleanup. apply (advances_trans _ (Stop r)); [apply advances_Stop|by apply advances_same]. Qed.

(** Every event but an iteration is a step of this kind. *)
Lemma step_advances sha r e : (forall sv now now2 now3, e <> EvIter sv now now2 now3) -> advances r (rx_step sha r e).
Proof.
  intros He. destruct e; cbn [rx_step].
  - unfold OnBlock. destruct (DecodeBlock data dlen) as [[h payload]|]; [|advance]. advance.
  - by apply advances_same.
  - by destruct (He sv now now2 now3).
  - apply advances_Stop.
  - by apply advances_same.
Qed.

Lemma done_step sha r e : done_inv r -> done_inv (rx_step sha r e).
Proof.
  intros Hd. destruct (decide (exists sv now now2 now3, e = EvIter sv now now2 now3)) as [(sv & now & now2 & now3 & ->)|He].
  - cbn [rx_step]. case_match; [by apply done_Run_iter|done].
  - apply (done_advances r); [|done]. apply step_advances. intros sv now now2 now3 ->. apply He. eauto.
Qed.

Lemma finished_step sha r e : r.(finished_) = true -> (rx_step sha r e).(finished_) = true.
Proof.
  intros Hf. destruct (decide (exists sv now now2 now3, e = EvIter sv now now2 now3)) as [(sv & now & now2 & now3 & ->)|He].
  - cbn [rx_step]. case_match; [|done]. destruct (Run_iter_advances sha sv now now2 now3 r) as [Ha|(r1 & _ & _ & ->)]; [|reflexivity].
    by rewrite (ad_finished _ _ Ha).
  - rewrite (ad_finished r); [done|]. apply step_advances. intros sv now now2 now3 ->. apply He. eauto.
Qed.

(** [Start] calls no callback and does not finish. *)
Definition silent (r : Receiver) : Prop := r.(finished_) = false /\ r.(out_) = [].

Lemma start_dirs_silent fn ds r : silent r -> silent (start_dirs fn ds r).2.
Proof.
  revert r. induction ds as [|d ds IH]; intros r Hr; cbn [start_dirs]; [done|].
  destruct (EnsureDir _ _) as [ok w]. destruct ok; cbn [negb]; [|done]. apply IH. case_match; done.
Qed.

Lemma start_files_silent fn resume i fs r : silent r -> silent (start_files fn resume i fs r).2.
Proof.
  revert i r. induction fs as [|mf fs IH]; intros i r Hr; cbn [start_files]; [done|].
  assert (H : silent (start_file fn resume i mf r).2).
  { unfold start_file. case_if; [done|]. destruct (EnsureDir _ _) as [ok w]. destruct ok; cbn [negb]; [|done].
    case_if; [done|]. destruct (FileWriter_Open _ _) as [[ok wr] w']. destruct ok; cbn [negb]; [|done].
    destruct (EnsureSize _ _ _) as [ok w'']. destruct ok; cbn [negb]; [|done].
    destruct (resume_by_index _ _); [|done]. case_if; [|done]. by destruct (AckBase _). }
  destruct (start_file fn resume i mf r) as [[e|] r']; [done|]. by apply IH.
Qed.

Lemma Start_silent m save fn resume w : done_inv (Start m save fn resume (ReceiverTransfer_new w)).2.
Proof.
  assert (H : silent (Start m save fn resume (ReceiverTransfer_new w)).2).
  { unfold Start. cbn [joinable_ ReceiverTransfer_new]. destruct (EnsureDir _ _) as [ok w']. destruct ok; cbn [negb]; [|done].
    match goal with |- context [start_dirs fn ?ds ?r0] => pose proof (start_dirs_silent fn ds r0 (conj eq_refl eq_refl)) as H1;
      destruct (start_dirs fn ds r0) as [[e|] r1] end; [done|]. cbn [snd] in H1.
    pose proof (start_files_silent fn resume 0 (files m) (r1 <| rx_ := [] |>)) as H2.
    destruct (start_files _ _ _ _ _) as [[e|] r2]; by apply H2. }
  destruct H as [Hf Ho]. split; rewrite ?Hf, ?Ho; try done; intros *; by intros ?%elem_of_nil.
Qed.

(** ** The files of the manifest *)

(** The engine has the files of the manifest, each with its size and where it is to be placed. *)
Definition of_manifest (m : Manifest) (save : bytes) (names : gmap string string) (r : Receiver) : Prop :=
  Forall2 (fun mf f => f.(f_size) = mf.(size) /\ f.(final_path) = JoinSafe save (mapped names mf.(path))) m.(files) r.(rx_).

Lemma of_manifest_advances m save names r r' : advances r r' -> of_manifest m save names r -> of_manifest m save names r'.
Proof.
  intros H Hm. unfold of_manifest in *. apply Forall2_same_length_lookup. split.
  - rewrite (ad_len _ _ H). by eapply Forall2_length.
  - intros k mf f' Hmf Hf'. destruct (Forall2_lookup_l _ _ _ _ _ Hm Hmf) as (f & Hf & [A B]).
    destruct (ad_files _ _ H _ _ Hf) as (g & Hg & [= _ C] & D & _). rewrite Hf' in Hg. injection Hg as <-. split; congruence.
Qed.

Lemma of_manifest_step sha m save names r e : of_manifest m save names r -> of_manifest m save names (rx_step sha r e).
Proof.
  intros Hm. destruct (decide (exists sv now now2 now3, e = EvIter sv now now2 now3)) as [(sv & now & now2 & now3 & ->)|He].
  - cbn [rx_step]. case_match; [|done]. destruct (Run_iter_advances sha sv now now2 now3 r) as [Ha|(r1 & Ha & _ & ->)].
    + by apply (of_manifest_advances _ _ _ r).
    + by apply (of_manifest_advances m save names r r1 Ha).
  - apply (of_manifest_advances _ _ _ r); [|done]. apply step_advances. intros sv now now2 now3 ->. apply He. eauto.
Qed.

Lemma start_file_rx fn resume i mf r r' : start_file fn resume i mf r = (None, r') -> r'.(save_dir_) = r.(save_dir_) /\
  exists f, r'.(rx_) = r.(rx_) ++ [f] /\ f.(f_size) = mf.(size) /\ f.(final_path) = JoinSafe r.(save_dir_) (mapped fn mf.(path)).
Proof.
  unfold start_file. case_if; [intros [= <-]; split; [done|]; by eexists|].
  destruct (EnsureDir _ _) as [ok w]. destruct ok; cbn [negb]; [|done].
  case_if; [intros [= <-]; split; [done|]; by eexists|]. destruct (FileWriter_Open _ _) as [[ok wr] w']. destruct ok; cbn [negb]; [|done].
  destruct (EnsureSize _ _ _) as [ok w'']. destruct ok; cbn [negb]; [|done].
  destruct (resume_by_index _ _); [|intros [= <-]; split; [done|]; by eexists].
  case_if; [|intros [= <-]; split; [done|]; by eexists]. destruct (AckBase _). intros [= <-]. split; [done|]. by eexists.
Qed.

Lemma start_files_rx fn resume i fs r r' : start_files fn resume i fs r = (None, r') ->
  exists l, r'.(rx_) = r.(rx_) ++ l /\
    Forall2 (fun mf f => f.(f_size) = mf.(size) /\ f.(final_path) = JoinSafe r.(save_dir_) (mapped fn mf.(path))) fs l.
Proof.
  revert i r. induction fs as [|mf fs IH]; intros i r; cbn [start_files].
  { intros [= <-]. exists []. by rewrite app_nil_r. }
  destruct (start_file fn resume i mf r) as [[e|] r1] eqn:E; [done|]. intros H. apply start_file_rx in E as (S1 & f & R1 & F1).
  apply IH in H as (l & R2 & F2). exists (f :: l). rewrite R2, R1, <- app_assoc. split; [done|]. constructor; [done|]. by rewrite S1 in F2.
Qed.

Lemma start_dirs_save fn ds r : (start_dirs fn ds r).2.(save_dir_) = r.(save_dir_).
Proof.
  revert r. induction ds as [|d ds IH]; intros r; cbn [start_dirs]; [done|].
  destruct (EnsureDir _ _) as [ok w]. destruct ok; cbn [negb]; [|done]. rewrite IH. by case_match.
Qed.

Lemma Start_of_manifest m save fn resume w r : Start m save fn resume (ReceiverTransfer_new w) = (None, r) -> of_manifest m save fn r.
Proof.
  unfold Start. cbn [joinable_ ReceiverTransfer_new]. destruct (EnsureDir _ _) as [ok w']. destruct ok; cbn [negb]; [|done].
  match goal with |- context [start_dirs fn ?ds ?r0] => pose proof (start_dirs_save fn ds r0) as Hs; destruct (start_dirs fn ds r0) as [[e|] r1] end;
    [done|]. cbn in Hs. destruct (start_files _ _ _ _ _) as [[e|] r2] eqn:E; [done|]. intros [= <-].
  apply start_files_rx in E as (l & R & F). cbn in R, F. rewrite Hs in F. unfold of_manifest. cbn. by rewrite R.
Qed.
