(* ===== verification/SenderCalls.v ===== *)
(** * What the calls of the session do to the sending engine

    A file counts as confirmed only through [OnFileOk], or because the receiver held it when the
    engine was started: nothing the sender thread does confirms a file. *)
From S2P Require Export SenderProofs.
#[local] Open Scope Z_scope.

(** ** Definitions *)

Definition oks (s : Sender) : list bool := t_ok <$> s.(tx_).

(** The files are the same; one that is confirmed in [s'] was confirmed in [s], or by a call among
    [cs]. *)
Definition confirmed_by (cs : list TxCall) (s s' : Sender) : Prop :=
  length s'.(tx_) = length s.(tx_) /\ forall k, oks s' !! k = Some true -> oks s !! k = Some true \/ exists i, Z.to_nat i = k /\ CallFileOk i ∈ cs.

(** The thread went from [s] to [s'] and took the calls in between. *)
Definition took (s s' : Sender) : Prop :=
  exists tape, s.(env_) = tape ++ s'.(env_) /\ confirmed_by (calls_of tape) s s'.

(** ** Lemmas *)

Lemma confirmed_same cs s s' : oks s' = oks s -> confirmed_by cs s s'.
Proof.
  intros H. split; [|intros k Hk; left; by rewrite <- H].
  apply (f_equal length) in H. unfold oks in H. by rewrite !length_fmap in H.
Qed.

Lemma confirmed_trans cs cs' s1 s2 s3 : confirmed_by cs s1 s2 -> confirmed_by cs' s2 s3 -> confirmed_by (cs ++ cs') s1 s3.
Proof.
  intros [L1 H1] [L2 H2]. split; [congruence|]. intros k Hk. apply H2 in Hk as [Hk|(i & Hi & Hc)].
  - apply H1 in Hk as [Hk|(i & Hi & Hc)]; [by left|]. right. exists i. split; [done|]. apply elem_of_app. by left.
  - right. exists i. split; [done|]. apply elem_of_app. by right.
Qed.

#[export] Instance took_preorder : PreOrder took.
Proof.
  split.
  - intros s. exists []. split; [done|]. by apply confirmed_same.
  - intros s1 s2 s3 (t1 & E1 & H1) (t2 & E2 & H2). exists (t1 ++ t2). split; [by rewrite E1, E2, app_assoc|].
    unfold calls_of. rewrite fmap_app, concat_app. by apply (confirmed_trans _ _ _ s2).
Qed.

(** A step that leaves the confirmations and the tape alone. *)
Lemma took_same s s' : oks s' = oks s -> s'.(env_) = s.(env_) -> took s s'.
Proof. intros H E. exists []. split; [by rewrite E|by apply confirmed_same]. Qed.

Lemma oks_insert i f f' s s' : s'.(tx_) = <[Z.to_nat i := f']> s.(tx_) -> file_at i s = Some f -> f'.(t_ok) = f.(t_ok) ->
  oks s' = oks s.
Proof.
  intros Hs Hf He. unfold oks. rewrite Hs, list_fmap_insert, He. apply list_insert_id.
  unfold file_at in Hf. by rewrite list_lookup_fmap, Hf.
Qed.

Lemma oks_upd i g s : (forall f, (g f).(t_ok) = f.(t_ok)) -> oks (upd_file i g s) = oks s.
Proof. intros Hg. unfold upd_file. destruct (file_at i s) as [f|] eqn:E; [|done]. by apply (oks_insert i f (g f)). Qed.

(** *** The calls *)

Lemma OnSack_oks data len s : oks (OnSack data len s) = oks s.
Proof.
  unfold OnSack. destruct (DecodeSack data len) as [k|]; [|done]. case_if; [done|].
  destruct (file_at _ s) as [f|] eqn:E; [|done]. case_if; [done|].
  repeat case_if; (eapply oks_insert; [reflexivity|exact E|reflexivity]).
Qed.

Lemma OnFileBad_oks i s : oks (OnFileBad i s) = oks s.
Proof.
  unfold OnFileBad. case_if; [done|]. destruct (file_at _ s) as [f|] eqn:E; [|done]. destruct (t_ok f) eqn:Ho; [done|].
  case_if; (eapply oks_insert; [reflexivity|exact E|reflexivity]).
Qed.

Lemma OnFileOk_confirms i s : confirmed_by [CallFileOk i] s (OnFileOk i s).
Proof.
  unfold OnFileOk. case_if; [by apply confirmed_same|]. destruct (file_at _ s) as [f|] eqn:E; [|by apply confirmed_same].
  destruct (t_ok f); [by apply confirmed_same|]. split.
  { destruct (t_size f >? acked_bytes f); cbn; by rewrite length_insert. }
  intros k Hk. destruct (decide (k = Z.to_nat i)) as [->|Hne].
  - right. exists i. split; [done|left].
  - left. unfold oks in *. destruct (t_size f >? acked_bytes f); cbn in Hk; by rewrite list_fmap_insert, list_lookup_insert_ne in Hk.
Qed.

Lemma tx_call_confirms s c : confirmed_by [c] s (tx_call s c).
Proof.
  destruct c; cbn [tx_call].
  - by apply confirmed_same, OnSack_oks.
  - apply OnFileOk_confirms.
  - by apply confirmed_same, OnFileBad_oks.
  - by apply confirmed_same.
  - by apply confirmed_same.
Qed.

Lemma tx_calls_confirm cs s : confirmed_by cs s (foldl tx_call s cs).
Proof.
  revert s. induction cs as [|c cs IH]; intros s; cbn [foldl]; [by apply confirmed_same|].
  apply (confirmed_trans [c] cs _ (tx_call s c)); [apply tx_call_confirms|apply IH].
Qed.

(** *** The thread *)

Lemma took_tick : follows took tick.
Proof.
  intros s. unfold tick. destruct (inputs s) as [|i tl] eqn:E; [reflexivity|]. exists [i].
  split; [exact E|]. unfold calls_of. cbn. rewrite app_nil_r. apply tx_calls_confirm.
Qed.

Lemma took_modify f : (forall s, took s (f s)) -> follows took (modify f).
Proof. intros H s. apply H. Qed.

Lemma took_emit e s : took s (emit e s).
Proof. by apply took_same. Qed.

Lemma took_Fail c m s : took s (Fail_ c m s).
Proof. unfold Fail_. case_if; by apply took_same. Qed.

Lemma took_do_file i g : (forall f, (g f).(t_ok) = f.(t_ok)) -> follows took (do_file i g).
Proof. intros Hg s. apply took_same; [by apply oks_upd|apply upd_file_rest]. Qed.

#[export] Hint Resolve took_tick took_modify took_emit took_Fail took_do_file : follows.

Lemma took_load {A} (f : Sender -> A) : follows took (load f).
Proof. unfold load. follow. Qed.
Lemma took_NowMs : follows took NowMs.
Proof. unfold NowMs. follow. Qed.
Lemma took_NowMsExact : follows took NowMsExact.
Proof. unfold NowMsExact. follow. Qed.
Lemma took_sleep ms : follows took (sleep_for ms).
Proof. unfold sleep_for. follow. Qed.
#[export] Hint Resolve took_load took_NowMs took_NowMsExact took_sleep : follows.

Ltac took_step := apply took_modify; intros ?; repeat case_match; try (by apply took_same); try apply took_Fail; try apply took_emit.

Lemma took_PauseWait : follows took PauseWait.
Proof. unfold PauseWait. follow. took_step. Qed.

Lemma took_UpdateRate : follows took UpdateRate.
Proof. unfold UpdateRate. follow; took_step. Qed.
#[export] Hint Resolve took_PauseWait took_UpdateRate : follows.

Lemma took_WaitTokens n : follows took (WaitTokens n).
Proof. unfold WaitTokens. follow; took_step. Qed.
#[export] Hint Resolve took_WaitTokens : follows.

Lemma took_SendBlock i block payload len rep : follows took (SendBlock i block payload len rep).
Proof. unfold SendBlock, send_round. follow; took_step. Qed.

Lemma took_ReadBlocks i block n : follows took (ReadBlocks i block n).
Proof.
  intros s. unfold ReadBlocks. destruct (file_at i s) as [f|] eqn:Ef; [|reflexivity].
  set (opened := match reader f with Some r => inr (r, s) | None => _ end).
  assert (Ho : match opened with inl s1 => took s s1 | inr (_, s1) => took s s1 end).
  { unfold opened. destruct (reader f); [reflexivity|]. destruct (FileReader_Open (t_path f) (world_ s)) as [[ok rd] w].
    set (s1 := upd_file i _ (s <| world_ := w |>)). assert (H1 : took s s1).
    { unfold s1. apply (transitivity (y := s <| world_ := w |>)); [by apply took_same|].
      apply took_same; [by apply oks_upd|apply upd_file_rest]. }
    clearbody s1. destruct ok; cbn [negb]; [|by etransitivity; [|apply took_Fail]].
    case_if; [by etransitivity; [|apply took_Fail]|done]. }
  clearbody opened. destruct opened as [s1|[rd s1]]; [done|].
  destruct (ReadAt rd _ _ (world_ s1)) as [[buf|] w]; [case_if|]; cbn [snd];
    (etransitivity; [exact Ho|]); try (by apply took_same);
    (apply (transitivity (y := s1 <| world_ := w |>)); [by apply took_same|apply took_Fail]).
Qed.
#[export] Hint Resolve took_SendBlock took_ReadBlocks : follows.

Lemma took_reap : follows took ReapInflight.
Proof.
  unfold ReapInflight. follow. apply took_modify. intros s. unfold reap.
  apply (transitivity (y := s <| inflight_ := [] |>)); [by apply took_same|]. generalize (s <| inflight_ := [] |>).
  generalize (inflight_ s). clear. intros l. induction l as [|i l IH]; intros s; cbn [foldl]; [reflexivity|].
  etransitivity; [|apply IH]. case_if; [|by apply took_same]. apply took_same; [by apply oks_upd|apply upd_file_rest].
Qed.

Lemma took_repair_block i block now hold budget : follows took (repair_block i block now hold budget).
Proof. unfold repair_block. follow. Qed.
#[export] Hint Resolve took_reap took_repair_block : follows.

Lemma took_repair_runs i now hold budget runs : follows took (repair_runs i now hold budget runs).
Proof. revert budget. induction runs as [|run runs IH]; intros budget; cbn [repair_runs]; unfold repair_run; follow. Qed.
#[export] Hint Resolve took_repair_runs : follows.

Lemma took_repair_files now hold budget did fs : follows took (repair_files now hold budget did fs).
Proof. revert budget did. induction fs as [|i fs IH]; intros budget did; cbn [repair_files]; unfold RepairFile; follow. Qed.
#[export] Hint Resolve took_repair_files : follows.

Lemma took_RepairPass : follows took RepairPass.
Proof. unfold RepairPass. follow. Qed.
#[export] Hint Resolve took_RepairPass : follows.

Lemma took_sweep_chunk n i block j since buf : follows took (sweep_chunk n i block j since buf).
Proof. revert j since. induction n as [|n IH]; intros j since; cbn [sweep_chunk]; unfold sweep_block; follow. Qed.
#[export] Hint Resolve took_sweep_chunk : follows.

Lemma took_SweepFile sha i : follows took (SweepFile sha i).
Proof. unfold SweepFile, sweep_round. follow. Qed.

Lemma took_drain n : follows took (drain n).
Proof. unfold drain. follow. Qed.
#[export] Hint Resolve took_SweepFile took_drain : follows.

Lemma took_run_file sha i : follows took (run_file sha i).
Proof. unfold run_file, announce. follow; took_step. Qed.
#[export] Hint Resolve took_run_file : follows.

Lemma took_Run sha : follows took (Run sha).
Proof.
  assert (Hclose : follows took (modify (fun s => s <| tx_ ::= fmap (fun f => f <| reader := None |>) |>))).
  { apply took_modify. intros s. apply took_same; [|done]. unfold oks. cbn. rewrite <- list_fmap_compose.
    by apply list_fmap_ext. }
  unfold Run, run_files. follow; took_step.
Qed.
