(* ===== verification/TransferSession.v ===== *)
(** * Transfer sessions ([core/src/share/transfer_session.{h,cpp}])

    One [TransferSession] per paired session drives the control protocol and owns one of the two
    engines.  All its methods run on the core loop.  The receiving engine is embedded as its
    state; the sending engine runs on a thread of its own, so the session holds the state it
    started in, the calls made to it so far and the inputs its thread has consumed, whose calls
    are the first of those made ([TxRuns]).  The engines post their callbacks to the loop: they
    run in the order of emission, any time later ([Posted]).  A method may raise a JSON exception,
    so it returns an [outcome]; what leaves the session is the list [eff_]. *)
From S2P Require Export BlockCodec CtrlCodec FileIO Manifest Peer.
From S2P Require Import Json.
From S2P Require Sender Receiver ReceiverProofs.
#[local] Existing Instance Sender.eta_Sender.
#[local] Open Scope Z_scope.

(** ** Definitions *)

Inductive TransferState :=
| kConnecting | kOffering | kWaitingOffer | kTransferring | kVerifying | kCompleted | kFailed | kCancelled.
#[export] Instance state_dec : EqDecision TransferState.
Proof. solve_decision. Defined.

Definition TransferStateName (s : TransferState) : string :=
  match s with
  | kConnecting => "connecting"
  | kOffering => "offering"
  | kWaitingOffer => "waiting_offer"
  | kTransferring => "transferring"
  | kVerifying => "verifying"
  | kCompleted => "completed"
  | kFailed => "failed"
  | kCancelled => "cancelled"
  end.

Definition Terminal (s : TransferState) : bool :=
  match s with kCompleted | kFailed | kCancelled => true | _ => false end.

Record TransferSnapshot := mkSnap {
  transfer_id : string; session_id : string; role : string; state : TransferState;
  error_code : string; error_message : string; path : MiniRtcPath;
  bytes_total : Z; bytes_done : Z; files_total : Z; files_done : Z; rate_bps : Z; loss_permille : Z;
  current_file : Z;
}.
#[export] Instance eta_Snapshot : Eta TransferSnapshot := fun p => mkSnap p.(transfer_id) p.(session_id) p.(role)
  p.(state) p.(error_code) p.(error_message) p.(path) p.(bytes_total) p.(bytes_done) p.(files_total)
  p.(files_done) p.(rate_bps) p.(loss_permille) p.(current_file).

(** The sending engine as its owner sees it: where it started, the calls made to it, the inputs its
    thread consumed and where it is. *)
Record TxEngine := mkTxEngine {
  tx_started : Sender.Sender; tx_calls : list Sender.TxCall; tx_tape : list Sender.TxInput;
  tx_now : Sender.Sender;
}.
#[export] Instance eta_TxEngine : Eta TxEngine := fun e => mkTxEngine e.(tx_started) e.(tx_calls) e.(tx_tape) e.(tx_now).

#[export] Instance call_dec : EqDecision Sender.TxCall.
Proof. solve_decision. Defined.

(** The state with a tape to run on. *)
Definition with_tape (tape : list Sender.TxInput) (s : Sender.Sender) : Sender.Sender := s <| Sender.env_ := tape |>.

(** The inputs the thread has taken. *)
Definition tx_consumed (e : TxEngine) : list Sender.TxInput :=
  take (length e.(tx_tape) - length e.(tx_now).(Sender.env_)) e.(tx_tape).
(** The shared variables now: the last calls are made but not seen yet. *)
Definition tx_view (e : TxEngine) : Sender.Sender :=
  foldl Sender.tx_call e.(tx_now) (drop (length (Sender.calls_of (tx_consumed e))) e.(tx_calls)).

(** The posted callbacks of the engines. *)
Inductive SessTask :=
| TaskFileDone (index : Z) (sha256 : bytes)
| TaskSenderAllDone
| TaskError (code message : string)
| TaskFileOk (index : Z)
| TaskFileBad (index : Z) (reason : string)
| TaskReceiverAllDone
| TaskPersist (st : list Receiver.ReceiverFileState).

Definition tx_task (e : Sender.TxEffect) : option SessTask :=
  match e with
  | Sender.TxFileDone i h => Some (TaskFileDone i h)
  | Sender.TxAllDone => Some TaskSenderAllDone
  | Sender.TxError c m => Some (TaskError c m)
  | _ => None
  end.
Definition rx_task (e : Receiver.RxEffect) : option SessTask :=
  match e with
  | Receiver.OnFileOk i => Some (TaskFileOk i)
  | Receiver.OnFileBad i r => Some (TaskFileBad i r)
  | Receiver.OnAllDone => Some TaskReceiverAllDone
  | Receiver.OnError c m => Some (TaskError c m)
  | Receiver.OnPersist st => Some (TaskPersist st)
  | Receiver.SendDatagram _ _ => None
  end.

Section session.
Context `{JL : JsonLib} (EVP_sha256 : bytes -> bytes).

(** Callbacks, and calls to the link and the loop. *)
Inductive SessEffect :=
| OnState (snap : TransferSnapshot)
| OnProgress (snap : TransferSnapshot)
| OnPersistRecord (record : json)
| LinkSendCtrl (msg : json)
| LinkSetPath (p : MiniRtcPath)
| LinkSetSackHandler
| LinkSetBlockHandler
| LinkDetach
| PostProgress (delay_ms : Z).

Record TransferSession := mkSession {
  is_sender_ : bool;
  snap_ : TransferSnapshot;
  transport_ready_ : bool;
  offer_sent_ : bool;
  accept_received_ : bool;
  paused_ : bool;
  progress_scheduled_ : bool;
  done_sent_ : bool;
  sender_confirmed_ : bool;
  manifest_ : Manifest;
  files_ : list bytes;
  sender_ : option TxEngine;
  sender_file_ok_ : list bool;
  save_dir_ : bytes;
  resume_ : json;
  names_ : gmap string string;
  receiver_ : option Receiver.Receiver;
  posted_ : nat; (** the callbacks of the engine that have run *)
  eff_ : list SessEffect;
}.
#[export] Instance eta_Session : Eta TransferSession := fun s => mkSession s.(is_sender_) s.(snap_)
  s.(transport_ready_) s.(offer_sent_) s.(accept_received_) s.(paused_) s.(progress_scheduled_) s.(done_sent_)
  s.(sender_confirmed_) s.(manifest_) s.(files_) s.(sender_) s.(sender_file_ok_) s.(save_dir_) s.(resume_)
  s.(names_) s.(receiver_) s.(posted_) s.(eff_).

Definition TransferSession_new (transfer_id session_id role : string) : TransferSession :=
  mkSession (String.eqb role "sender") (mkSnap transfer_id session_id role kConnecting "" "" MINIRTC_PATH_UNKNOWN 0 0 0 0 0 0 (-1))
    false false false false false false false Manifest_default [] None [] [] jnull ∅ None 0 [].

Definition emit (e : SessEffect) (s : TransferSession) : TransferSession := s <| eff_ ::= (fun l => l ++ [e]) |>.

(** A call to the sending engine, when there is one. *)
Definition call_sender (c : Sender.TxCall) (s : TransferSession) : TransferSession :=
  s <| sender_ ::= fmap (fun e => e <| tx_calls ::= (fun l => l ++ [c]) |>) |>.
(** [if (sender_) sender_->Stop(); if (receiver_) receiver_->Stop();] *)
Definition stop_engines (s : TransferSession) : TransferSession :=
  call_sender Sender.CallStop s <| receiver_ ::= fmap Receiver.Stop |>.

Definition destroy (s : TransferSession) : TransferSession := stop_engines (emit LinkDetach s).

Definition SetSenderInput (manifest : Manifest) (files : list bytes) (s : TransferSession) : TransferSession :=
  s <| manifest_ := manifest |> <| files_ := files |>
    <| sender_file_ok_ := replicate (length manifest.(Manifest.files)) false |>
    <| snap_ ::= (fun p => p <| bytes_total := manifest.(total_bytes) |>
                             <| files_total := u32 (zlen manifest.(Manifest.files)) |>) |>.

Definition SetReceiverInput (save_dir : bytes) (resume : json) (s : TransferSession) : TransferSession :=
  s <| save_dir_ := save_dir |> <| resume_ := resume |>.

Definition SetState (st : TransferState) (s : TransferSession) : TransferSession :=
  if bool_decide (s.(snap_).(state) = st) || Terminal s.(snap_).(state) then s else
  let s := s <| snap_ ::= (fun p => p <| state := st |>) |> in
  emit (OnState s.(snap_)) s.

Definition SendCtrl (msg : json) (s : TransferSession) : outcome TransferSession :=
  _ ← dump (-1) msg;
  Ret (emit (LinkSendCtrl msg) s).

Definition Fail (code message : string) (s : TransferSession) : outcome TransferSession :=
  if Terminal s.(snap_).(state) then Ret s else
  let s := s <| snap_ ::= (fun p => p <| error_code := code |> <| error_message := message |>) |> in
  let s := stop_engines s in
  s ← (if negb (String.eqb code "session_end") && negb (String.eqb code "peer_error")
       then SendCtrl (jobj [("type", jstr "error"); ("code", jstr code); ("msg", jstr message)]%string) s
       else Ret s);
  Ret (SetState kFailed s).

Definition ScheduleProgress (s : TransferSession) : TransferSession :=
  if s.(progress_scheduled_) then s else
  emit (PostProgress kProgressIntervalMs) (s <| progress_scheduled_ := true |>).

(** The fields of the snapshot the engine fills in. *)
Definition read_progress (s : TransferSession) : TransferSession :=
  match s.(is_sender_), s.(sender_), s.(receiver_) with
  | true, Some e, _ =>
      let p := Sender.Progress (tx_view e) in
      s <| snap_ ::= (fun q => q <| bytes_done := p.(Sender.q_bytes_acked) |> <| files_done := p.(Sender.q_files_done) |>
                                 <| rate_bps := p.(Sender.q_send_rate_bps) |> <| current_file := p.(Sender.q_current_file) |>) |>
  | _, _, Some r =>
      let p := Receiver.Progress r in
      s <| snap_ ::= (fun q => q <| bytes_done := p.(Receiver.p_bytes_received) |> <| files_done := p.(Receiver.p_files_done) |>
                                 <| rate_bps := p.(Receiver.p_recv_rate_bps) |>
                                 <| loss_permille := p.(Receiver.p_loss_permille) |>
                                 <| current_file := p.(Receiver.p_current_file) |>) |>
  | _, _, None => s
  end.

Definition EmitProgress (force : bool) (s : TransferSession) : TransferSession :=
  let s := read_progress s in
  if force then emit (OnProgress s.(snap_)) s else ScheduleProgress s.

(** The task of [ScheduleProgress]. *)
Definition progress_task (s : TransferSession) : TransferSession :=
  let s := s <| progress_scheduled_ := false |> in
  if Terminal s.(snap_).(state) then s else EmitProgress true s.

(** *** Sender *)

Definition StartOffer (s : TransferSession) : outcome TransferSession :=
  if s.(offer_sent_) || (zlen s.(files_) =? 0) then
    (if zlen s.(files_) =? 0 then Fail "no_files" "nothing to send" s else Ret s)
  else
  let s := SetState kOffering (s <| offer_sent_ := true |>) in
  SendCtrl (jobj [("type", jstr "offer"); ("manifest", ToJson s.(manifest_))]%string) s.

(** The array of runs [[start, length], ...]. *)
Fixpoint runs_of (rs : list json) : outcome (list SackRun) :=
  match rs with
  | [] => Ret []
  | r :: rs =>
      match (if is_array r then elements_of r else []) with
      | [a; b] => start ← get_u32 a; length ← get_u32 b; runs ← runs_of rs; Ret (mkSackRun start length :: runs)
      | _ => runs_of rs
      end
  end.

(** One entry of [accept.files]. *)
Definition accept_file (count : Z) (acc : list (Z * list SackRun) * list Z) (f : json)
  : outcome (list (Z * list SackRun) * list Z) :=
  let '(have, verified) := acc in
  match find f "index" with
  | None => Ret acc
  | Some i =>
      if negb (is_number_unsigned i) then Ret acc else
      idx ← get_u16 i;
      if idx >=? count then Ret acc else
      v ← value_ get_bool f "verified" false;
      if v : bool then Ret (have, verified ++ [idx]) else
      match find f "have" with
      | None => Ret acc
      | Some h =>
          if negb (is_array h) then Ret acc else
          runs ← runs_of (elements_of h);
          Ret (if zlen runs =? 0 then have else zm_set idx runs have, verified)
      end
  end.
Fixpoint accept_files (count : Z) (fs : list json) (acc : list (Z * list SackRun) * list Z)
  : outcome (list (Z * list SackRun) * list Z) :=
  match fs with [] => Ret acc | f :: fs => acc ← accept_file count acc f; accept_files count fs acc end.

(** [sender_file_ok_[v] = true] *)
Definition mark_ok (s : TransferSession) (v : Z) : TransferSession :=
  s <| sender_file_ok_ ::= <[Z.to_nat v := true]> |>.

(** [w] is the disk the engine will read. *)
Definition HandleAccept (w : World) (j : json) (s : TransferSession) : outcome TransferSession :=
  if negb s.(is_sender_) || s.(accept_received_) then Ret s else
  let s := s <| accept_received_ := true |> in
  '(have, verified) ← match find j "files" with
    | Some fs => if is_array fs then accept_files (zlen s.(manifest_).(Manifest.files)) (elements_of fs) ([], []) else Ret ([], [])
    | None => Ret ([], [])
    end;
  let '(err, t) := Sender.Start s.(manifest_) s.(files_) have verified (Sender.SenderTransfer_new w []) in
  let s := emit LinkSetSackHandler (s <| sender_ := Some (mkTxEngine t [] [] t) |>) in
  match err with
  | Some e => Fail "start" e s
  | None =>
      let s := foldl mark_ok s verified in
      Ret (EmitProgress false (SetState kTransferring s))
  end.

Definition HandleFileAck (j : json) (ok : bool) (s : TransferSession) : outcome TransferSession :=
  match s.(is_sender_), s.(sender_), find j "index" with
  | true, Some _, Some i =>
      if negb (is_number_unsigned i) then Ret s else
      idx ← get_u16 i;
      if idx >=? zlen s.(sender_file_ok_) then Ret s else
      if ok then
        (if default false (s.(sender_file_ok_) !! Z.to_nat idx) then Ret s
         else Ret (call_sender (Sender.CallFileOk idx) (mark_ok s idx)))
      else Ret (call_sender (Sender.CallFileBad idx) s)
  | _, _, _ => Ret s
  end.

Definition OnSenderFileDone (index : Z) (sha256 : bytes) (s : TransferSession) : outcome TransferSession :=
  s ← SendCtrl (jobj [("type", jstr "file_done"); ("index", juns index); ("sha256", jstr (of_sbytes sha256))]%string) s;
  Ret (EmitProgress true s).

(** Everything is done: the counters show the totals. *)
Definition all_done (s : TransferSession) : TransferSession :=
  s <| snap_ ::= (fun p => p <| bytes_done := p.(bytes_total) |> <| files_done := p.(files_total) |>) |>.

Definition OnSenderAllDone (s : TransferSession) : outcome TransferSession :=
  if s.(done_sent_) then Ret s else
  s ← SendCtrl (jobj [("type", jstr "transfer_done")]%string) (s <| done_sent_ := true |>);
  Ret (EmitProgress true (SetState kCompleted (all_done s))).

(** *** Receiver *)

Definition ManifestSignature (m : Manifest) : bytes :=
  Sha256Hex EVP_sha256 (concat ((fun f => sbytes f.(Manifest.path) ++ sbytes ":" ++ to_string f.(Manifest.size) ++ [10]) <$> m.(Manifest.files))).

(** Persisted names, then new ones; [rd] is the value of the [std::random_device]. *)
Definition ChooseNames (w : World) (rd : Z) (s : TransferSession) : outcome (gmap string string) :=
  names ← match find s.(resume_) "names" with
    | Some ns =>
        match view ns with
        | VObject m => kvs ← omapM (fun kv => v ← get_string kv.2; Ret (kv.1, v)) (map_to_list m); Ret (list_to_map kvs)
        | _ => Ret ∅
        end
    | None => Ret ∅
    end;
  Ret (foldl (fun names r =>
    match names !! r.(name) with
    | Some _ => names
    | None => <[r.(name) := of_sbytes (UniqueName (exists_path w) rd s.(save_dir_) (sbytes r.(name)) r.(is_dir))]> names
    end) names s.(manifest_).(roots)).

(** One entry of [resume.files]. *)
Definition resume_entry (f : json) : outcome Receiver.ReceiverFileState :=
  index ← value_ get_i32 f "index" 0;
  verified ← value_ get_bool f "verified" false;
  have ← match find f "have" with
    | Some h => if is_array h then runs_of (elements_of h) else Ret []
    | None => Ret []
    end;
  Ret (Receiver.mkFileState (u16 index) have verified).

(** [resume_.clear()] *)
Definition json_clear (j : json) : json :=
  match view j with
  | VObject _ => jempty_object
  | VArray _ => jempty_array
  | VString _ => jstr ""
  | VBool _ => jbool false
  | VUnsigned _ => juns 0
  | VInteger _ => jint 0
  | _ => j
  end.

(** The resume state, [None] when the record is for another manifest. *)
Definition resume_of (s : TransferSession) : outcome (option (list Receiver.ReceiverFileState)) :=
  if negb (is_object s.(resume_)) then Ret None else
  sig ← value_ get_string s.(resume_) "manifest_sig" ""%string;
  if negb (bool_decide (sbytes sig = ManifestSignature s.(manifest_))) then Ret None else
  match find s.(resume_) "files" with
  | Some fs => if is_array fs then st ← omapM resume_entry (elements_of fs); Ret (Some st) else Ret None
  | None => Ret None
  end.

(** [accept.files]: the verified files, then the runs held of the others. *)
Definition runs_json (runs : list SackRun) : json :=
  jarr ((fun r => jarr [juns r.(start); juns r.(length_)]) <$> runs).
Definition accept_list (r : Receiver.Receiver) : list json :=
  let verified := Receiver.VerifiedFiles r in
  ((fun v => jobj [("index", juns v); ("verified", jbool true)]%string) <$> verified) ++
  ((fun e => jobj [("index", juns e.1); ("have", runs_json e.2)]%string) <$>
     List.filter (fun e => negb (existsb (Z.eqb e.1) verified)) (Receiver.HaveRuns_all r)).

Definition HandleOffer (w : World) (rd : Z) (j : json) (s : TransferSession) : outcome TransferSession :=
  if s.(is_sender_) then Ret s else
  match s.(receiver_) with
  | Some _ => Ret s
  | None =>
      match find j "manifest" with
      | None => Fail "bad_offer" "missing manifest" s
      | Some mj =>
          match FromJson mj with
          | Raise => Throw
          | Prelude.Fail e => Fail "bad_offer" e s
          | Ok m =>
              let s := s <| manifest_ := m |> in
              if zlen s.(save_dir_) =? 0 then Fail "no_save_dir" "save directory not set" s else
              let s := s <| snap_ ::= (fun p => p <| bytes_total := m.(total_bytes) |>
                                                  <| files_total := u32 (zlen m.(Manifest.files)) |>) |> in
              st ← resume_of s;
              let '(resume_state, s) := match st with
                | Some st => (st, s)
                | None => ([], s <| resume_ ::= json_clear |>) end in
              names ← ChooseNames w rd s;
              let s := s <| names_ := names |> in
              let '(err, r) := Receiver.Start m s.(save_dir_) names resume_state (Receiver.ReceiverTransfer_new w) in
              let s := emit LinkSetBlockHandler (s <| receiver_ := Some r |>) in
              match err with
              | Some e => Fail "start" e s
              | None =>
                  s ← SendCtrl (jobj [("type", jstr "accept"); ("files", jarr (accept_list r))]%string) s;
                  Ret (EmitProgress false (SetState kTransferring s))
              end
          end
      end
  end.

Definition OnReceiverFileOk (index : Z) (s : TransferSession) : outcome TransferSession :=
  s ← SendCtrl (jobj [("type", jstr "file_ok"); ("index", juns index)]%string) s;
  Ret (EmitProgress true s).

Definition OnReceiverFileVerified (index : Z) (ok : bool) (reason : string) (s : TransferSession) : outcome TransferSession :=
  if negb ok then SendCtrl (jobj [("type", jstr "file_bad"); ("index", juns index); ("reason", jstr reason)]%string) s
  else Ret s.

Definition OnReceiverAllDone (s : TransferSession) : TransferSession :=
  if Terminal s.(snap_).(state) then s else
  let s := all_done s in
  if negb s.(sender_confirmed_) then EmitProgress true (SetState kVerifying s) else
  EmitProgress true (emit (OnPersistRecord jnull) (SetState kCompleted s)).

Definition PersistReceiver (st : list Receiver.ReceiverFileState) (s : TransferSession) : TransferSession :=
  if Terminal s.(snap_).(state) then s else
  emit (OnPersistRecord (jobj [
    ("manifest_sig", jstr (of_sbytes (ManifestSignature s.(manifest_))));
    ("names", mk (VObject (jstr <$> s.(names_))));
    ("files", jarr ((fun f => jobj [("index", juns f.(Receiver.fs_index)); ("verified", jbool f.(Receiver.fs_verified));
                                    ("have", runs_json f.(Receiver.fs_have))]) <$> st))]%string)) s.

(** *** Transport lifecycle *)

Definition OnTransportReady (p : MiniRtcPath) (s : TransferSession) : outcome TransferSession :=
  let s := emit (LinkSetPath p) (s <| snap_ ::= (fun q => q <| path := p |>) |>) in
  let first := negb s.(transport_ready_) in
  let s := s <| transport_ready_ := true |> in
  if negb first then Ret s else
  if s.(is_sender_) then StartOffer s else Ret (SetState kWaitingOffer s).

Definition OnTransportDown (s : TransferSession) : TransferSession := s <| transport_ready_ := false |>.

Definition OnPathChanged (p : MiniRtcPath) (s : TransferSession) : TransferSession :=
  EmitProgress true (emit (LinkSetPath p) (s <| snap_ ::= (fun q => q <| path := p |>) |>)).

(** [receiver_ && receiver_->Finished()] *)
Definition receiver_finished (s : TransferSession) : bool :=
  match s.(receiver_) with Some r => r.(Receiver.finished_) | None => false end.

Definition OnSessionEnd (reason : string) (s : TransferSession) : outcome TransferSession :=
  if Terminal s.(snap_).(state) then Ret s else
  if negb s.(is_sender_) && receiver_finished s && (String.eqb reason "share_closed" || String.eqb reason "peer_left")
  then Ret (OnReceiverAllDone (s <| sender_confirmed_ := true |>))
  else Fail "session_end" reason s.

(** *** Control dispatch *)

Definition OnFileDoneMessage (j : json) (s : TransferSession) : outcome TransferSession :=
  match s.(is_sender_), s.(receiver_), find j "index", find j "sha256" with
  | false, Some _, Some i, Some h =>
      index ← get_u16 i; sha ← get_string h;
      Ret (s <| receiver_ ::= fmap (Receiver.OnFileDone index (sbytes sha)) |>)
  | _, _, _, _ => Ret s
  end.

Definition OnCtrlMessage (w : World) (rd : Z) (text : string) (s : TransferSession) : outcome TransferSession :=
  match ParseCtrlMessage text with
  | None => Ret s
  | Some (j, type) =>
      if String.eqb type "offer" then HandleOffer w rd j s
      else if String.eqb type "accept" then HandleAccept w j s
      else if String.eqb type "file_done" then OnFileDoneMessage j s
      else if String.eqb type "file_ok" then HandleFileAck j true s
      else if String.eqb type "file_bad" then HandleFileAck j false s
      else if String.eqb type "transfer_done" then
        (if s.(is_sender_) then Ret s else
         let s := s <| sender_confirmed_ := true |> in
         Ret (if receiver_finished s then OnReceiverAllDone s else s))
      else if String.eqb type "pause" then Ret (call_sender (Sender.CallPaused true) s)
      else if String.eqb type "resume" then
        Ret (if s.(paused_) then s else call_sender (Sender.CallPaused false) s)
      else if String.eqb type "cancel" then
        Ret (if Terminal s.(snap_).(state) then s else
             SetState kCancelled (stop_engines (s <| snap_ ::= (fun p => p <| error_code := "peer_cancelled"%string |>) |>)))
      else if String.eqb type "error" then
        code ← value_ get_string j "code" "error"%string;
        Fail "peer_error" code s
      else Ret s
  end.

(** *** User control *)

Definition Pause (s : TransferSession) : outcome TransferSession :=
  if s.(paused_) || Terminal s.(snap_).(state) then Ret s else
  let s := call_sender (Sender.CallPaused true) (s <| paused_ := true |>) in
  if negb s.(is_sender_) then SendCtrl (jobj [("type", jstr "pause")]%string) s else Ret s.

Definition Resume (s : TransferSession) : outcome TransferSession :=
  if negb s.(paused_) || Terminal s.(snap_).(state) then Ret s else
  let s := call_sender (Sender.CallPaused false) (s <| paused_ := false |>) in
  if negb s.(is_sender_) then SendCtrl (jobj [("type", jstr "resume")]%string) s else Ret s.

Definition Cancel (reason : string) (s : TransferSession) : outcome TransferSession :=
  if Terminal s.(snap_).(state) then Ret s else
  let s := s <| snap_ ::= (fun p => p <| error_code := reason |>) |> in
  s ← SendCtrl (jobj [("type", jstr "cancel"); ("reason", jstr reason)]%string) s;
  let s := call_sender Sender.CallStop s <| receiver_ ::= fmap Receiver.Cleanup |> in
  let s := SetState kCancelled s in
  Ret (if negb s.(is_sender_) then emit (OnPersistRecord jnull) s else s).

(** *** Events *)

Definition tasks (s : TransferSession) : list SessTask :=
  match s.(sender_) with Some e => omap tx_task e.(tx_now).(Sender.out_) | None => [] end ++
  match s.(receiver_) with Some r => omap rx_task r.(Receiver.out_) | None => [] end.

Definition run_task (t : SessTask) (s : TransferSession) : outcome TransferSession :=
  match t with
  | TaskFileDone i h => OnSenderFileDone i h s
  | TaskSenderAllDone => OnSenderAllDone s
  | TaskError c m => Fail c m s
  | TaskFileOk i => OnReceiverFileOk i s
  | TaskFileBad i r => OnReceiverFileVerified i false r s
  | TaskReceiverAllDone => Ret (OnReceiverAllDone s)
  | TaskPersist st => Ret (PersistReceiver st s)
  end.

(** The sender thread consumes more inputs, whose calls are calls that were made. *)
Definition tx_runs (more : list Sender.TxInput) (e : TxEngine) : TxEngine :=
  let tape := e.(tx_tape) ++ more in
  if e.(tx_started).(Sender.joinable_) && bool_decide (Sender.calls_of tape = take (length (Sender.calls_of tape)) e.(tx_calls))
  then e <| tx_tape := tape |> <| tx_now := (Sender.Run EVP_sha256 (with_tape tape e.(tx_started))).2 |>
  else e.

Inductive SessEvent :=
| TransportReady (p : MiniRtcPath)
| TransportDown
| PathChanged (p : MiniRtcPath)
| SessionEnd (reason : string)
| CtrlMessage (w : World) (rd : Z) (text : string)
| UserPause
| UserResume
| UserCancel (reason : string)
| Posted
| ProgressTimer
| Sack (data : option bytes) (len : Z)
| TxRuns (more : list Sender.TxInput)
| Rx (e : ReceiverProofs.RxEvent). (** a datagram or a turn of the writer thread *)

Definition session_step (s : TransferSession) (e : SessEvent) : outcome TransferSession :=
  match e with
  | TransportReady p => OnTransportReady p s
  | TransportDown => Ret (OnTransportDown s)
  | PathChanged p => Ret (OnPathChanged p s)
  | SessionEnd reason => OnSessionEnd reason s
  | CtrlMessage w rd text => OnCtrlMessage w rd text s
  | UserPause => Pause s
  | UserResume => Resume s
  | UserCancel reason => Cancel reason s
  | Posted =>
      match tasks s !! s.(posted_) with
      | Some t => run_task t (s <| posted_ ::= S |>)
      | None => Ret s
      end
  | ProgressTimer => Ret (progress_task s)
  | Sack data len => Ret (call_sender (Sender.CallSack data len) s)
  | TxRuns more => Ret (s <| sender_ ::= fmap (tx_runs more) |>)
  | Rx e => Ret (s <| receiver_ ::= fmap (fun r => ReceiverProofs.rx_step EVP_sha256 r e) |>)
  end.

Fixpoint run_session (s : TransferSession) (es : list SessEvent) : outcome TransferSession :=
  match es with [] => Ret s | e :: es => s ← session_step s e; run_session s es end.

End session.
