(* ===== verification/TransferSessionProofs.v ===== *)
(** * Correctness of transfer sessions

    Runs of a session over events in any order.  A terminal state is never left; a receiving
    session completes only with every file verified by its own engine, whatever the peer says; a
    sending session completes only when the peer has confirmed every file. *)
From S2P Require Export TransferSession.
From S2P Require ReceiverDone SenderCalls.
#[local] Open Scope Z_scope.

(** ** Lemmas *)

Section terminal.
Context `{JL : JsonLib} (sha : bytes -> bytes).
Implicit Types s : TransferSession.

Definition states_of (l : list SessEffect) : list TransferSnapshot :=
  omap (fun e => match e with OnState p => Some p | _ => None end) l.

(** The role is kept, and a terminal session stays as it is for its owner: same state, same error, no
    transition. *)
Definition settled s s' : Prop := s'.(is_sender_) = s.(is_sender_) /\
  (Terminal s.(snap_).(state) = true -> s'.(snap_).(state) = s.(snap_).(state) /\
    s'.(snap_).(error_code) = s.(snap_).(error_code) /\ states_of s'.(eff_) = states_of s.(eff_)).

#[export] Instance settled_preorder : PreOrder settled.
Proof.
  split; [by intros s|]. intros s1 s2 s3 [R1 H1] [R2 H2]. split; [congruence|]. intros Ht.
  destruct (H1 Ht) as (A & B & C). destruct H2 as (A' & B' & C'); [congruence|]. split; [congruence|]. split; congruence.
Qed.

(** A step of other fields only. *)
Lemma settled_same s s' : s'.(is_sender_) = s.(is_sender_) -> s'.(snap_).(state) = s.(snap_).(state) ->
  s'.(snap_).(error_code) = s.(snap_).(error_code) -> s'.(eff_) = s.(eff_) -> settled s s'.
Proof. intros R A B C. split; [done|]. intros _. by rewrite C. Qed.

(** A step of a session that is not terminal. *)
Lemma settled_live s s' : Terminal s.(snap_).(state) = false -> s'.(is_sender_) = s.(is_sender_) -> settled s s'.
Proof. intros Hf R. split; [done|]. intros Ht. congruence. Qed.

Lemma settled_emit e s : (forall p, e <> OnState p) -> settled s (emit e s).
Proof.
  intros He. split; [done|]. intros _. split; [done|]. split; [done|]. unfold emit, states_of. cbn. rewrite omap_app. cbn.
  destruct e; cbn; rewrite ?app_nil_r; try done. by destruct (He snap).
Qed.

Lemma settled_SetState st s : settled s (SetState st s).
Proof. unfold SetState. case_if; [reflexivity|]. apply settled_live; [|done]. by apply orb_false_iff in Heqb as [_ ?]. Qed.

Lemma settled_progress f s : settled s (EmitProgress f s).
Proof.
  unfold EmitProgress. assert (Hr : settled s (read_progress s)) by (unfold read_progress; repeat case_match; by apply settled_same).
  transitivity (read_progress s); [done|]. destruct f; [by apply settled_emit|]. unfold ScheduleProgress. case_if; [reflexivity|].
  transitivity (read_progress s <| progress_scheduled_ := true |>); [by apply settled_same|by apply settled_emit].
Qed.

Lemma settled_all_done s : settled s (OnReceiverAllDone s).
Proof.
  unfold OnReceiverAllDone. case_if; [reflexivity|]. apply settled_live; [done|].
  destruct (negb _); (transitivity (is_sender_ (all_done s)); [|done]);
    (etransitivity; [apply settled_progress|]); apply settled_SetState.
Qed.

Lemma settled_persist st s : settled s (PersistReceiver sha st s).
Proof. unfold PersistReceiver. case_if; [reflexivity|]. by apply settled_live. Qed.

Lemma settled_marks l s : settled s (foldl mark_ok s l).
Proof. revert s. induction l as [|v l IH]; intros s; [reflexivity|]. transitivity (mark_ok s v); [by apply settled_same|apply IH]. Qed.

(** The handlers that may raise. *)
Definition calm (R : TransferSession -> TransferSession -> Prop) (h : TransferSession -> outcome TransferSession) : Prop :=
  forall s s', h s = Ret s' -> R s s'.

Lemma bind_ret {A B} (m : outcome A) (f : A -> outcome B) b : (x ← m; f x) = Ret b -> exists a, m = Ret a /\ f a = Ret b.
Proof. destruct m as [a|]; [eauto|done]. Qed.

Lemma ret_inj {A} (a b : A) : Ret a = Ret b -> a = b.
Proof. by intros [= ->]. Qed.

Lemma calm_SendCtrl m : calm settled (SendCtrl m).
Proof. intros s s' H. unfold SendCtrl in H. apply bind_ret in H as (t & _ & H). apply ret_inj in H as <-. by apply settled_emit. Qed.

Lemma calm_Fail c m : calm settled (Fail c m).
Proof.
  intros s s' H. unfold Fail in H. destruct (Terminal _) eqn:E; [apply ret_inj in H as <-; reflexivity|].
  apply settled_live; [done|]. apply bind_ret in H as (s1 & E1 & H). apply ret_inj in H as <-.
  transitivity (is_sender_ s1); [apply settled_SetState|]. destruct (negb _ && negb _).
  - apply calm_SendCtrl in E1 as [E1 _]. by rewrite E1.
  - by apply ret_inj in E1 as <-.
Qed.

End terminal.

#[export] Hint Resolve calm_SendCtrl calm_Fail settled_progress settled_SetState settled_all_done settled_persist
  settled_marks : session.
#[export] Hint Extern 1 (settled _ (emit _ _)) => by apply settled_emit : session.
#[export] Hint Extern 2 (settled _ _) => by apply settled_same : session.

(** Proves [R s s'] by undoing the steps that lead to [s']; the hint database [session] knows the
    steps. *)
Ltac undo :=
  first [solve [apply settled_live; [congruence|done]] |
  lazymatch goal with
  | |- _ ?s ?s => reflexivity
  | |- _ _ (if ?b then _ else _) => let E := fresh "E" in destruct b eqn:E; undo
  | |- _ _ (EmitProgress _ ?Y) => undo_at Y
  | |- _ _ (SetState _ ?Y) => undo_at Y
  | |- _ _ (emit _ ?Y) => undo_at Y
  | |- _ _ (upd_field _ _ ?Y) => undo_at Y
  | |- _ _ (all_done ?Y) => undo_at Y
  | |- _ _ (stop_engines ?Y) => undo_at Y
  | |- _ _ (call_sender _ ?Y) => undo_at Y
  | |- _ _ (mark_ok ?Y _) => undo_at Y
  | |- _ _ (foldl mark_ok ?Y _) => undo_at Y
  | |- _ _ (OnReceiverAllDone ?Y) => undo_at Y
  | |- _ _ (PersistReceiver _ _ ?Y) => undo_at Y
  | H : _ ?s0 = Ret ?a |- ?R _ ?a =>
      transitivity s0; [undo|revert H; match goal with |- ?h _ = _ -> _ =>
        let Hc := fresh "Hc" in enough (Hc : calm R h) by exact (Hc _ _); auto with session end]
  | |- _ => idtac
  end]
with undo_at Y := transitivity Y; [undo|auto with session].

(** Splits a handler's result along its binds and tests. *)
Ltac handler H :=
  repeat first
    [ progress (cbn beta iota zeta in H)
    | match type of H with
      | Ret _ = Ret ?y => apply ret_inj in H; first [is_var y; subst y | symmetry in H]
      | Throw = _ => discriminate H
      | mbind _ _ = _ => let a := fresh "a" in let E := fresh "E" in apply bind_ret in H as (a & E & H)
      | (if ?b then _ else _) = _ => let E := fresh "E" in destruct b eqn:E
      | (match ?x with _ => _ end) = _ => let E := fresh "E" in destruct x eqn:E
      end ].

Lemma take_prefix_app {A} (c l x : list A) : c = take (length c) l -> c = take (length c) (l ++ x).
Proof. intros H. rewrite take_app_le; [done|]. rewrite H, length_take. lia. Qed.

(** *** What most handlers leave alone *)

(** The calls of a session to its sending engine other than a confirmation. *)
Definition no_confirm (cs : list Sender.TxCall) : Prop := Forall (fun c => forall i, c <> Sender.CallFileOk i) cs.

Inductive tx_later : option TxEngine -> option TxEngine -> Prop :=
| tl_none : tx_later None None
| tl_some e e' cs : no_confirm cs -> e'.(tx_started) = e.(tx_started) -> e'.(tx_tape) = e.(tx_tape) ->
    e'.(tx_now) = e.(tx_now) -> e'.(tx_calls) = e.(tx_calls) ++ cs -> tx_later (Some e) (Some e').
Inductive rx_later : option Receiver.Receiver -> option Receiver.Receiver -> Prop :=
| rl_none : rx_later None None
| rl_some r r' : ReceiverDone.advances r r' -> rx_later (Some r) (Some r').

Section plain.
Context `{JL : JsonLib} (sha : bytes -> bytes).
Implicit Types s : TransferSession.

(** A step that neither creates an engine, nor confirms a file, nor completes the transfer. *)
Record plain s s' : Prop := {
  pl_role : s'.(is_sender_) = s.(is_sender_);
  pl_accept : s'.(accept_received_) = s.(accept_received_);
  pl_ok : s'.(sender_file_ok_) = s.(sender_file_ok_);
  pl_manifest : s'.(manifest_) = s.(manifest_);
  pl_tx : tx_later s.(sender_) s'.(sender_);
  pl_rx : rx_later s.(receiver_) s'.(receiver_);
  pl_done : s'.(snap_).(state) = kCompleted -> s.(snap_).(state) = kCompleted;
}.

Lemma tx_later_refl e : tx_later e e.
Proof. destruct e as [e|]; [|constructor]. apply (tl_some _ _ []); try done; [constructor|by rewrite app_nil_r]. Qed.

#[export] Instance plain_preorder : PreOrder plain.
Proof.
  split.
  - intros s. split; try done; [apply tx_later_refl|]. destruct (receiver_ s); constructor. apply ReceiverDone.advances_refl.
  - intros s1 s2 s3 [A1 A2 A3 A0 A4 A5 A6] [B1 B2 B3 B0 B4 B5 B6]. split; try congruence; [| |auto].
    + destruct A4 as [|e e' cs Hc T1 T2 T3 T4]; [done|]. inversion B4 as [|x e'' cs' Hc' U1 U2 U3 U4 E1 E2]; subst.
      apply (tl_some _ _ (cs ++ cs')); try congruence; [by apply Forall_app|]. by rewrite U4, T4, app_assoc.
    + destruct A5 as [|r r' H]; [done|]. inversion B5 as [|r1 r2 H']; subst. constructor. by apply (ReceiverDone.advances_trans _ r').
Qed.

Lemma plain_same s s' : s'.(is_sender_) = s.(is_sender_) -> s'.(accept_received_) = s.(accept_received_) ->
  s'.(sender_file_ok_) = s.(sender_file_ok_) -> s'.(manifest_) = s.(manifest_) -> s'.(sender_) = s.(sender_) -> s'.(receiver_) = s.(receiver_) ->
  s'.(snap_).(state) = s.(snap_).(state) -> plain s s'.
Proof.
  intros A B C C' D E F. split; try congruence; [rewrite D; apply tx_later_refl|]. rewrite E.
  destruct (receiver_ s); constructor. apply ReceiverDone.advances_refl.
Qed.

Lemma plain_SetState st s : st <> kCompleted -> plain s (SetState st s).
Proof.
  intros Hst. unfold SetState. case_if; [reflexivity|]. split; try done; cbn; [apply tx_later_refl|].
  destruct (receiver_ s); constructor. apply ReceiverDone.advances_refl.
Qed.

Lemma plain_progress f s : plain s (EmitProgress f s).
Proof.
  assert (Hr : plain s (read_progress s)) by (unfold read_progress; repeat case_match; by apply plain_same).
  unfold EmitProgress. transitivity (read_progress s); [done|]. destruct f; [by apply plain_same|].
  unfold ScheduleProgress. case_if; [reflexivity|by apply plain_same].
Qed.

Lemma plain_call c s : (forall i, c <> Sender.CallFileOk i) -> plain s (call_sender c s).
Proof.
  intros Hc. split; try done; cbn.
  - destruct (sender_ s) as [e|]; cbn; [|constructor]. apply (tl_some _ _ [c]); try done. by constructor.
  - destruct (receiver_ s); constructor. apply ReceiverDone.advances_refl.
Qed.

Lemma plain_receiver g s : (forall r, ReceiverDone.advances r (g r)) -> plain s (s <| receiver_ ::= fmap g |>).
Proof.
  intros Hg. split; try done; cbn; [apply tx_later_refl|]. destruct (receiver_ s); constructor. apply Hg.
Qed.

Lemma plain_stop s : plain s (stop_engines s).
Proof.
  unfold stop_engines. transitivity (call_sender Sender.CallStop s); [by apply plain_call|].
  apply plain_receiver, ReceiverDone.advances_Stop.
Qed.

Lemma plain_SendCtrl m : calm plain (SendCtrl m).
Proof. intros s s' H. unfold SendCtrl in H. apply bind_ret in H as (t & _ & H). apply ret_inj in H as <-. by apply plain_same. Qed.

Lemma plain_persist st s : plain s (PersistReceiver sha st s).
Proof. unfold PersistReceiver. case_if; [reflexivity|by apply plain_same]. Qed.

End plain.

#[export] Hint Resolve plain_SendCtrl plain_progress plain_persist plain_stop : session.
#[export] Hint Extern 1 (plain _ (SetState _ _)) => by apply plain_SetState : session.
#[export] Hint Extern 1 (plain _ (call_sender _ _)) => by apply plain_call : session.
#[export] Hint Extern 2 (plain _ _) => by apply plain_same : session.

Lemma plain_Fail `{JL : JsonLib} c m : calm plain (Fail c m).
Proof. intros s s' H. unfold Fail in H. handler H; [undo|]. handler E0; undo. Qed.
#[export] Hint Resolve plain_Fail : session.

Section handlers.
Context `{JL : JsonLib} (sha : bytes -> bytes).

Lemma calm_OnSenderAllDone : calm settled OnSenderAllDone.
Proof. intros s s' H. unfold OnSenderAllDone in H. handler H; undo.
Qed.

Lemma calm_StartOffer : calm settled StartOffer.
Proof. intros s s' H. unfold StartOffer in H. handler H; undo. Qed.

Lemma calm_OnTransportReady p : calm settled (OnTransportReady p).
Proof. intros s s' H. unfold OnTransportReady in H. pose proof calm_StartOffer. handler H; undo. Qed.

Lemma calm_OnSessionEnd r : calm settled (OnSessionEnd r).
Proof.
  intros s s' H. unfold OnSessionEnd in H. handler H; undo.
Qed.

Lemma calm_HandleAccept w j : calm settled (HandleAccept w j).
Proof. intros s s' H. unfold HandleAccept in H. handler H; undo. Qed.

Lemma calm_HandleFileAck j ok : calm settled (HandleFileAck j ok).
Proof. intros s s' H. unfold HandleFileAck in H. handler H; undo. Qed.

Lemma calm_OnSenderFileDone i h : calm settled (OnSenderFileDone i h).
Proof. intros s s' H. unfold OnSenderFileDone in H. handler H; undo. Qed.

Lemma calm_HandleOffer w rd j : calm settled (HandleOffer sha w rd j).
Proof. intros s s' H. unfold HandleOffer in H. handler H; undo; destruct a0; injection E5 as <- <-; undo. Qed.

Lemma calm_OnReceiverFileOk i : calm settled (OnReceiverFileOk i).
Proof. intros s s' H. unfold OnReceiverFileOk in H. handler H; undo. Qed.

Lemma calm_OnReceiverFileVerified i ok r : calm settled (OnReceiverFileVerified i ok r).
Proof. intros s s' H. unfold OnReceiverFileVerified in H. handler H; undo. Qed.

Lemma calm_OnFileDoneMessage j : calm settled (OnFileDoneMessage j).
Proof. intros s s' H. unfold OnFileDoneMessage in H. handler H; undo. Qed.

Lemma calm_OnCtrlMessage w rd text : calm settled (OnCtrlMessage sha w rd text).
Proof.
  intros s s' H. unfold OnCtrlMessage in H. pose proof calm_HandleOffer. pose proof calm_HandleAccept.
  pose proof calm_HandleFileAck. pose proof calm_OnFileDoneMessage. handler H; undo.
Qed.

Lemma calm_Pause : calm settled Pause.
Proof. intros s s' H. unfold Pause in H. handler H; undo. Qed.

Lemma calm_Resume : calm settled Resume.
Proof. intros s s' H. unfold Resume in H. handler H; undo. Qed.

Lemma calm_Cancel r : calm settled (Cancel r).
Proof. intros s s' H. unfold Cancel in H. handler H; undo. Qed.

Lemma calm_run_task t : calm settled (run_task sha t).
Proof.
  intros s s' H. unfold run_task in H. pose proof calm_OnSenderFileDone. pose proof calm_OnSenderAllDone.
  pose proof calm_OnReceiverFileOk. pose proof calm_OnReceiverFileVerified. handler H; undo.
Qed.

Lemma calm_step e s s' : session_step sha s e = Ret s' -> settled s s'.
Proof.
  intros H. unfold session_step in H. pose proof calm_OnTransportReady. pose proof calm_OnSessionEnd.
  pose proof calm_OnCtrlMessage. pose proof calm_Pause. pose proof calm_Resume. pose proof calm_Cancel.
  pose proof calm_run_task. unfold OnTransportDown, OnPathChanged, progress_task in H. handler H; undo.
Qed.
End handlers.

(** ** The invariant of a session *)

(** What the sending engine has been told, against the session's record of confirmed files. *)
Record engine_inv (sha : bytes -> bytes) (oks : list bool) (e : TxEngine) : Prop := {
  ei_calls : forall i, Sender.CallFileOk i ∈ e.(tx_calls) -> oks !! Z.to_nat i = Some true;
  ei_start : forall k, SenderCalls.oks e.(tx_started) !! k = Some true -> oks !! k = Some true;
  ei_silent : e.(tx_started).(Sender.out_) = [];
  ei_len : e.(tx_started).(Sender.joinable_) = true -> length e.(tx_started).(Sender.tx_) = length oks;
  ei_seen : Sender.calls_of e.(tx_tape) = take (length (Sender.calls_of e.(tx_tape))) e.(tx_calls);
  ei_now : e.(tx_now) = e.(tx_started) \/
    e.(tx_started).(Sender.joinable_) = true /\
    e.(tx_now) = (Sender.Run sha (with_tape e.(tx_tape) e.(tx_started))).2;
}.

(** The engine's transfer is one of [SenderProofs], and what the transport delivered is bytes. *)
Definition engine_fits (e : TxEngine) : Prop :=
  let s := e.(tx_started) in
  SenderProofs.transfer_ok s.(Sender.manifest_).(Manifest.files) s.(Sender.files_) s.(Sender.world_).(w_files) s.(Sender.bytes_acked_) /\
  Forall SenderProofs.input_ok e.(tx_tape) /\
  SenderProofs.fresh s.(Sender.manifest_) s.(Sender.files_) s.(Sender.world_) [] s.

Section invariant.
(** [m0] is the manifest the sender was given. *)
Context `{JL : JsonLib} (sha : bytes -> bytes) (m0 : Manifest).
Implicit Types s : TransferSession.

Record sess_inv s : Prop := {
  si_receiver : s.(is_sender_) = false -> s.(sender_) = None /\
    (forall r, s.(receiver_) = Some r -> ReceiverDone.done_inv r) /\
    (s.(snap_).(state) = kCompleted -> receiver_finished s = true);
  si_sender : s.(is_sender_) = true -> s.(receiver_) = None /\
    (s.(manifest_) = m0 /\ length s.(sender_file_ok_) = length m0.(Manifest.files)) /\
    (s.(accept_received_) = false -> s.(sender_) = None) /\
    (s.(sender_) = None -> s.(snap_).(state) <> kCompleted) /\
    (forall e, s.(sender_) = Some e -> engine_inv sha s.(sender_file_ok_) e /\
       (engine_fits e -> s.(snap_).(state) = kCompleted -> Forall (eq true) s.(sender_file_ok_)));
}.

Lemma engine_later oks e e' : tx_later (Some e) (Some e') -> engine_inv sha oks e -> engine_inv sha oks e'.
Proof.
  intros H [I1 I2 I3 I4 I5 I6]. inversion H as [|x y cs Hc T1 T2 T3 T4]; subst. split; rewrite ?T1, ?T2, ?T3; try done.
  - intros i. rewrite T4. intros [Hi|Hi]%elem_of_app; [by apply I1|]. unfold no_confirm in Hc. rewrite Forall_forall in Hc.
    by destruct (Hc _ Hi i).
  - rewrite T4. by apply take_prefix_app.
Qed.

Lemma fits_later e e' : tx_later (Some e) (Some e') -> engine_fits e' -> engine_fits e.
Proof. intros H. inversion H as [|x y cs Hc T1 T2 T3 T4]; subst. unfold engine_fits. by rewrite T1, T2. Qed.

Lemma inv_plain s s' : plain s s' -> sess_inv s -> sess_inv s'.
Proof.
  intros [P1 P2 P3 P0 P4 P5 P6] [Hr Ht]. split; intros Hrole; rewrite P1 in Hrole.
  - destruct (Hr Hrole) as (A & B & C). rewrite A in P4. inversion P4; subst. split; [done|]. split.
    + intros r Er. rewrite Er in P5. inversion P5 as [|r0 r1 Had E0]; subst. apply (ReceiverDone.done_advances r0); [done|]. by apply B.
    + intros Hc. specialize (C (P6 Hc)). unfold receiver_finished in *. destruct P5 as [|r0 r1 Had]; [done|].
      by rewrite (ReceiverDone.ad_finished _ _ Had).
  - destruct (Ht Hrole) as (A & B & C & D & E). rewrite A in P5. inversion P5; subst. split; [done|].
    split; [destruct B; split; congruence|]. split; [|split].
    + intros Ha. rewrite P2 in Ha. rewrite (C Ha) in P4. by inversion P4.
    + intros Hn. rewrite Hn in P4. inversion P4 as [E0 E1|]; subst. intros Hc. apply D; auto.
    + intros e He. rewrite He in P4. inversion P4 as [|x y cs Hc T1 T2 T3 T4 E0 E1]; subst. symmetry in E0.
      destruct (E x E0) as [Hi Hd]. assert (Hl : tx_later (Some x) (Some e)) by (by apply (tl_some _ _ cs)).
      rewrite P3. split; [by apply (engine_later _ x)|]. intros Hf Hs. apply Hd; [by apply (fits_later _ e)|auto].
Qed.

(** The start of a session. *)
Lemma inv_receiver_new tid sid save resume : sess_inv (SetReceiverInput save resume (TransferSession_new tid sid "receiver")).
Proof. by split. Qed.

Lemma inv_sender_new tid sid files : sess_inv (SetSenderInput m0 files (TransferSession_new tid sid "sender")).
Proof. split; [done|]. intros _. cbn. split; [done|]. by rewrite length_replicate. Qed.

(** *** The receiver's handlers *)

Lemma inv_HandleOffer w rd j s s' : sess_inv s -> HandleOffer sha w rd j s = Ret s' -> sess_inv s'.
Proof.
  intros Hi H. unfold HandleOffer in H. destruct (is_sender_ s) eqn:Er; [by apply ret_inj in H as <-|].
  destruct (receiver_ s) eqn:Erx; [by apply ret_inj in H as <-|]. destruct (si_receiver s Hi Er) as (A & _ & C).
  assert (Hnc : state (snap_ s) <> kCompleted) by (intros Hc; apply C in Hc; unfold receiver_finished in Hc; by rewrite Erx in Hc).
  (* A session that received nothing yet, and one that has just created its engine. *)
  assert (Hidle : forall t, is_sender_ t = false -> sender_ t = None -> receiver_ t = None -> state (snap_ t) = state (snap_ s) -> sess_inv t).
  { intros t T1 T2 T3 T4. split; [|congruence]. intros _. split; [done|]. rewrite T3, T4. by split. }
  assert (Hnew : forall t r, is_sender_ t = false -> sender_ t = None -> receiver_ t = Some r -> ReceiverDone.done_inv r ->
    state (snap_ t) = state (snap_ s) -> sess_inv t).
  { intros t r T1 T2 T3 T4 T5. split; [|congruence]. intros _. split; [done|]. rewrite T3, T5. split; [|done]. by intros ? [= <-]. }
  destruct (Json.find j "manifest"); [|by eapply inv_plain; [eapply plain_Fail|]].
  destruct (FromJson j0) as [m|e|]; [|by eapply inv_plain; [eapply plain_Fail|]|done].
  destruct (zlen _ =? 0); [eapply inv_plain; [by eapply plain_Fail|]; by apply Hidle|].
  apply bind_ret in H as (st & Est & H).
  match type of H with (let '(_, _) := ?p in _) = _ => assert (Hs : exists l t, p = (l, t) /\ is_sender_ t = false /\ sender_ t = None /\
    receiver_ t = None /\ state (snap_ t) = state (snap_ s)) by (destruct st; by repeat eexists) end.
  destruct Hs as (l & t & Ep & T1 & T2 & T3 & T4). rewrite Ep in H. cbn beta iota in H.
  apply bind_ret in H as (names & En & H).
  pose proof (ReceiverDone.Start_silent m (save_dir_ (t <| names_ := names |>)) names l w) as Hd.
  destruct (Receiver.Start m _ names l _) as [err r]. cbn [snd] in Hd.
  match type of H with match err with Some e => Fail _ e ?t1 | None => _ end = _ => assert (Hi1 : sess_inv t1) by (by apply (Hnew _ r)) end.
  destruct err as [e|]; [by eapply inv_plain; [eapply plain_Fail|]|].
  apply bind_ret in H as (s2 & E2 & H). apply ret_inj in H as <-. eapply inv_plain; [|exact Hi1]. undo.
Qed.

(** *** The sender's handlers *)

Lemma start_verified_oks v t k : SenderCalls.oks (Sender.start_verified t v) !! k = Some true ->
  SenderCalls.oks t !! k = Some true \/ Z.to_nat v = k.
Proof.
  unfold Sender.start_verified. destruct (Sender.file_at v t) as [f|]; [|by left]. unfold SenderCalls.oks. cbn.
  rewrite list_fmap_insert. destruct (decide (k = Z.to_nat v)) as [->|Hne]; [by right|].
  rewrite list_lookup_insert_ne by done. by left.
Qed.

Lemma start_verified_rest v t : let t' := Sender.start_verified t v in
  length t'.(Sender.tx_) = length t.(Sender.tx_) /\ t'.(Sender.out_) = t.(Sender.out_) /\
  t'.(Sender.joinable_) = t.(Sender.joinable_).
Proof. cbn. unfold Sender.start_verified. destruct (Sender.file_at v t); cbn; by rewrite ?length_insert. Qed.

Lemma start_verifieds l t : let t' := foldl Sender.start_verified t l in
  length t'.(Sender.tx_) = length t.(Sender.tx_) /\ t'.(Sender.out_) = t.(Sender.out_) /\
  (forall k, SenderCalls.oks t' !! k = Some true -> SenderCalls.oks t !! k = Some true \/ exists v, v ∈ l /\ Z.to_nat v = k).
Proof.
  cbn. revert t. induction l as [|v l IH]; intros t; cbn [foldl]; [split; [done|]; split; [done|by left]|].
  destruct (start_verified_rest v t) as (A & B & _). destruct (IH (Sender.start_verified t v)) as (A' & B' & C').
  split; [congruence|]. split; [congruence|]. intros k Hk. apply C' in Hk as [Hk|(u & Hu & Hk)].
  - apply start_verified_oks in Hk as [Hk|Hk]; [by left|]. right. exists v. split; [left|done].
  - right. exists u. split; [by right|done].
Qed.

Lemma Start_engine m files have checked w err t :
  Sender.Start m files have checked (Sender.SenderTransfer_new w []) = (err, t) ->
  t.(Sender.out_) = [] /\
  (t.(Sender.joinable_) = true -> err = None /\ length t.(Sender.tx_) = length m.(Manifest.files)) /\
  (forall k, SenderCalls.oks t !! k = Some true -> err = None /\ exists v, v ∈ checked /\ Z.to_nat v = k).
Proof.
  unfold Sender.Start. cbn [Sender.joinable_ Sender.SenderTransfer_new]. destruct (negb _) eqn:En.
  - intros [= <- <-]. split; [done|]. split; [done|]. intros k Hk. done.
  - intros [= <- <-]. match goal with |- context [foldl Sender.start_verified ?t0 _] => set (t1 := t0) end.
    destruct (start_verifieds checked t1) as (A & B & C). split; [by cbn; rewrite B|]. split.
    + intros _. split; [done|]. cbn. rewrite A. unfold t1. cbn. rewrite length_imap, length_zip_with. zbool. unfold zlen in *. lia.
    + intros k Hk. split; [done|]. apply C in Hk as [Hk|Hk]; [|done]. exfalso. unfold SenderCalls.oks, t1 in Hk. cbn in Hk.
      rewrite list_lookup_fmap, list_lookup_imap in Hk. by destruct (zip _ _ !! k).
Qed.

Lemma marks_spec l s : let s' := foldl mark_ok s l in
  length s'.(sender_file_ok_) = length s.(sender_file_ok_) /\
  (forall k, s.(sender_file_ok_) !! k = Some true -> s'.(sender_file_ok_) !! k = Some true) /\
  (forall v, v ∈ l -> (Z.to_nat v < length s.(sender_file_ok_))%nat -> s'.(sender_file_ok_) !! Z.to_nat v = Some true) /\
  s'.(is_sender_) = s.(is_sender_) /\ s'.(receiver_) = s.(receiver_) /\ s'.(manifest_) = s.(manifest_) /\
  s'.(accept_received_) = s.(accept_received_) /\ s'.(sender_) = s.(sender_) /\ s'.(snap_) = s.(snap_).
Proof.
  cbn. revert s. induction l as [|v l IH]; intros s; cbn [foldl]; [split; [done|]; split; [done|]; split; [by intros v ?%elem_of_nil|done]|].
  destruct (IH (mark_ok s v)) as (A & B & C & D). cbn in A, B, C, D. rewrite length_insert in A, C.
  assert (Hm : forall k, s.(sender_file_ok_) !! k = Some true -> <[Z.to_nat v := true]> s.(sender_file_ok_) !! k = Some true).
  { intros k Hk. destruct (decide (k = Z.to_nat v)) as [->|]; [|by rewrite list_lookup_insert_ne].
    apply list_lookup_insert_eq. by eapply lookup_lt_Some. }
  split; [done|]. split; [by auto|]. split; [|done].
  intros u [->|Hu]%elem_of_cons Hlt; [|by apply C]. apply B. by apply list_lookup_insert_eq.
Qed.

(** A peer names a file only once the index is checked. *)
Lemma accept_files_range n fs acc have checked : accept_files n fs acc = Ret (have, checked) ->
  Forall (fun v => 0 <= v < n) acc.2 -> Forall (fun v => 0 <= v < n) checked.
Proof.
  revert acc. induction fs as [|f fs IH]; intros acc H Hacc; cbn [accept_files] in H; [by injection H as ->|].
  apply bind_ret in H as (acc' & E & H). apply (IH _ H). clear IH H. destruct acc as [hv vs]. unfold accept_file in E.
  handler E; try done. apply Forall_app. split; [done|]. apply Forall_singleton. unfold get_u16 in E2.
  apply bind_ret in E2 as (z & _ & E2). apply ret_inj in E2 as <-. pose proof (u16_range z). unfold in_u16 in *. lia.
Qed.

Lemma inv_engine s e : s.(is_sender_) = true -> s.(receiver_) = None -> s.(accept_received_) = true ->
  s.(manifest_) = m0 /\ length s.(sender_file_ok_) = length m0.(Manifest.files) -> s.(sender_) = Some e ->
  engine_inv sha s.(sender_file_ok_) e ->
  (engine_fits e -> s.(snap_).(state) = kCompleted -> Forall (eq true) s.(sender_file_ok_)) -> sess_inv s.
Proof.
  intros A B C D E F G. split; [congruence|]. intros _. split; [done|]. split; [done|]. split; [congruence|].
  split; [congruence|]. intros e' He. rewrite E in He. injection He as <-. by split.
Qed.

Lemma inv_HandleAccept w j s s' : sess_inv s -> HandleAccept w j s = Ret s' -> sess_inv s'.
Proof.
  intros Hi H. unfold HandleAccept in H. destruct (is_sender_ s) eqn:Er; [|by apply ret_inj in H as <-].
  destruct (accept_received_ s) eqn:Ea; [by apply ret_inj in H as <-|]. cbn [negb orb] in H.
  destruct (si_sender s Hi Er) as (A & [Bm B] & C & D & _). specialize (D (C Ea)).
  apply bind_ret in H as ([have checked] & Eh & H). cbn beta iota in H.
  assert (Hr : Forall (fun v => 0 <= v < zlen (files (manifest_ s))) checked).
  { destruct (Json.find j "files"); [|injection Eh as <- <-; constructor]. destruct (is_array j0); [|injection Eh as <- <-; constructor].
    eapply accept_files_range; [exact Eh|constructor]. }
  destruct (Sender.Start _ _ have checked _) as [err t] eqn:Es.
  apply Start_engine in Es as (So & Sj & Sk). cbn in Sj, Sk.
  match type of H with match err with Some e => Fail _ e ?t1 | None => _ end = _ => set (s1 := t1) in * end.
  assert (Hcall : forall ok, (forall k, SenderCalls.oks t !! k = Some true -> ok !! k = Some true) ->
    (Sender.joinable_ t = true -> length (Sender.tx_ t) = length ok) -> engine_inv sha ok (mkTxEngine t [] [] t)).
  { intros ok K1 K2. split; try done; [by intros i ?%elem_of_nil|by left]. }
  destruct err as [e|].
  - eapply inv_plain; [by eapply plain_Fail|]. apply (inv_engine s1 (mkTxEngine t [] [] t)); try done.
    apply Hcall; [intros k Hk; by destruct (Sk k Hk)|intros Hj; by destruct (Sj Hj)].
  - apply ret_inj in H as <-. destruct (marks_spec checked s1) as (M1 & M2 & M3 & M4 & M5 & M6 & M7 & M8 & M9).
    apply (inv_plain (foldl mark_ok s1 checked)); [undo|].
    apply (inv_engine _ (mkTxEngine t [] [] t)); rewrite ?M1, ?M4, ?M5, ?M6, ?M7, ?M8, ?M9; try done.
    apply Hcall.
    + intros k Hk. destruct (Sk k Hk) as (_ & v & Hv & <-). apply M3; [done|]. rewrite Forall_forall in Hr.
      specialize (Hr v Hv). cbn. rewrite B, <- Bm. unfold zlen in Hr. lia.
    + intros Hj. destruct (Sj Hj) as [_ ->]. by rewrite M1, Bm.
Qed.

Lemma inv_HandleFileAck j ok s s' : sess_inv s -> HandleFileAck j ok s = Ret s' -> sess_inv s'.
Proof.
  intros Hi H. unfold HandleFileAck in H. destruct (is_sender_ s) eqn:Er; [|by apply ret_inj in H as <-].
  destruct (sender_ s) as [e|] eqn:Es; [|by apply ret_inj in H as <-].
  destruct (si_sender s Hi Er) as (A & B & C & D & E). destruct (E e Es) as [[I1 I2 I3 I4 I5 I6] Hd].
  handler H; try done; [|by eapply inv_plain; [by apply plain_call|]]. zbool.
  assert (Hm : forall k, sender_file_ok_ s !! k = Some true -> <[Z.to_nat a := true]> (sender_file_ok_ s) !! k = Some true).
  { intros k Hk. destruct (decide (k = Z.to_nat a)) as [->|]; [|by rewrite list_lookup_insert_ne].
    apply list_lookup_insert_eq. by eapply lookup_lt_Some. }
  assert (Ha : 0 <= a < zlen (sender_file_ok_ s)).
  { unfold get_u16 in E2. apply bind_ret in E2 as (z & _ & E2). apply ret_inj in E2 as <-. pose proof (u16_range z).
    unfold in_u16 in *. lia. }
  apply (inv_engine _ (e <| tx_calls ::= (fun l => l ++ [Sender.CallFileOk a]) |>)); try done; cbn.
  - destruct (accept_received_ s); [done|]. by rewrite C in Es.
  - by rewrite length_insert.
  - by rewrite Es.
  - split; cbn; try done.
    + intros i [Hin|Hin]%elem_of_app; [by apply Hm, I1|]. apply list_elem_of_singleton in Hin. injection Hin as ->.
      apply list_lookup_insert_eq. unfold zlen in Ha. lia.
    + intros k Hk. by apply Hm, I2.
    + rewrite length_insert. exact I4.
    + apply take_prefix_app. exact I5.
  - intros Hf Hc. rewrite Forall_forall. intros b Hb. apply list_elem_of_lookup in Hb as (k & Hk).
    specialize (Hd Hf Hc). rewrite Forall_forall in Hd. destruct (decide (k = Z.to_nat a)) as [->|Hne].
    + rewrite list_lookup_insert_eq in Hk by (unfold zlen in Ha; lia). by injection Hk.
    + rewrite list_lookup_insert_ne in Hk by done. apply Hd. by eapply list_elem_of_lookup_2.
Qed.

(** The sender's final callback means that every file was confirmed. *)
Lemma engine_all_confirmed oks e : engine_inv sha oks e -> engine_fits e ->
  Sender.TxAllDone ∈ e.(tx_now).(Sender.out_) -> Forall (eq true) oks.
Proof.
  intros [I1 I2 I3 I4 I5 I6] (Hok & Hin & Hf) Hdone. destruct I6 as [I6|[Hj I6]].
  { rewrite I6, I3 in Hdone. by apply elem_of_nil in Hdone. }
  set (s0 := with_tape (tx_tape e) (tx_started e)) in *. specialize (I4 Hj).
  assert (Hfr : SenderProofs.fresh (Sender.manifest_ (tx_started e)) (Sender.files_ (tx_started e)) (Sender.world_ (tx_started e)) (tx_tape e) s0).
  { by destruct Hf. }
  assert (Hsz : Forall (fun mf => 0 <= mf.(Manifest.size)) (files (Sender.manifest_ (tx_started e)))).
  { apply Forall_lookup. intros k mf Hk. destruct (Sender.files_ (tx_started e) !! k) as [p|] eqn:Hp.
    - by apply (SenderProofs.to_size _ _ _ _ Hok k mf p).
    - apply lookup_ge_None in Hp. apply lookup_lt_Some in Hk. pose proof (SenderProofs.to_len _ _ _ _ Hok). lia. }
  pose proof (SenderProofs.fresh_inv sha _ _ _ (tx_tape e) (SenderProofs.to_len _ _ _ _ Hok) Hsz s0 Hfr Hin) as Ht.
  destruct (SenderProofs.Run_spec sha _ _ _ _ Hok s0 Ht) as (o & Ho & Hcase & _). rewrite <- I6 in *.
  assert (Hall : forall k f, Sender.tx_ (tx_now e) !! k = Some f -> Sender.t_ok f = true).
  { destruct Hcase as [Eo|[_ Hall]]; [|done]. rewrite Eo, Forall_forall in *. by destruct (Ho _ Hdone). }
  destruct (SenderCalls.took_Run sha s0) as (tape & Et & Hl & Hc). rewrite <- I6 in *.
  apply Forall_lookup. intros k b Hk. assert (Hlt : (k < length (Sender.tx_ (tx_now e)))%nat).
  { rewrite Hl. change (Sender.tx_ s0) with (Sender.tx_ (tx_started e)). rewrite I4. by eapply lookup_lt_Some. }
  apply lookup_lt_is_Some_2 in Hlt as [f Hkf]. specialize (Hc k). unfold SenderCalls.oks in Hc at 1.
  rewrite list_lookup_fmap, Hkf in Hc. cbn in Hc. rewrite (Hall k f Hkf) in Hc.
  enough (oks !! k = Some true) by congruence. destruct (Hc eq_refl) as [Hs|(i & <- & Hi)]; [by apply I2|]. apply I1.
  assert (Hsub : Sender.CallFileOk i ∈ Sender.calls_of (tx_tape e)).
  { change (Sender.env_ s0) with (tx_tape e) in Et. rewrite Et. unfold Sender.calls_of. rewrite fmap_app, concat_app.
    apply elem_of_app. by left. }
  rewrite I5 in Hsub. apply elem_of_take in Hsub as (q & Hq & _). by eapply list_elem_of_lookup_2.
Qed.

(** *** Completion *)

Lemma inv_complete_receiver s : sess_inv s -> s.(is_sender_) = false -> receiver_finished s = true ->
  sess_inv (SetState kCompleted s).
Proof.
  intros Hi Hr Hf. destruct (si_receiver s Hi Hr) as (A & B & C). unfold SetState. case_if; [done|].
  split; [|cbn; congruence]. intros _. by split.
Qed.

Lemma inv_OnReceiverAllDone s : sess_inv s -> s.(is_sender_) = false -> receiver_finished s = true -> sess_inv (OnReceiverAllDone s).
Proof.
  intros Hi Hr Hf. unfold OnReceiverAllDone. case_if; [done|].
  assert (Hd : sess_inv (all_done s)) by (by eapply inv_plain; [|exact Hi]; apply plain_same).
  case_if.
  - eapply inv_plain; [|exact Hd]. undo.
  - eapply inv_plain; [|by apply (inv_complete_receiver (all_done s))]. undo.
Qed.

Lemma inv_complete_sender s e : sess_inv s -> s.(is_sender_) = true -> s.(sender_) = Some e ->
  Sender.TxAllDone ∈ e.(tx_now).(Sender.out_) -> sess_inv (SetState kCompleted s).
Proof.
  intros Hi Hr He Hd. destruct (si_sender s Hi Hr) as (A & B & C & D & E). destruct (E e He) as [Ei _].
  unfold SetState. case_if; [done|]. apply (inv_engine _ e); try done; cbn.
  - destruct (accept_received_ s); [done|]. by rewrite C in He.
  - intros Hf _. by apply (engine_all_confirmed _ e).
Qed.

Lemma inv_OnSenderAllDone s s' e : sess_inv s -> s.(is_sender_) = true -> s.(sender_) = Some e ->
  Sender.TxAllDone ∈ e.(tx_now).(Sender.out_) -> OnSenderAllDone s = Ret s' -> sess_inv s'.
Proof.
  intros Hi Hr He Hd H. unfold OnSenderAllDone in H. handler H; [done|].
  assert (Hp : plain s (all_done a)) by undo. pose proof (inv_plain _ _ Hp Hi) as Hi'.
  pose proof (pl_tx _ _ Hp) as Ht. rewrite He in Ht. inversion Ht as [|x e' cs Hc T1 T2 T3 T4 E1 E2]; subst.
  eapply inv_plain; [|apply (inv_complete_sender (all_done a) e'); [done| |done|by rewrite T3]].
  - undo.
  - by rewrite (pl_role _ _ Hp).
Qed.

(** *** All events *)

Lemma tasks_sender s t : sess_inv s -> s.(is_sender_) = true -> t ∈ tasks s ->
  exists e x, s.(sender_) = Some e /\ x ∈ e.(tx_now).(Sender.out_) /\ tx_task x = Some t.
Proof.
  intros Hi Hr Ht. destruct (si_sender s Hi Hr) as (A & _). unfold tasks in Ht. rewrite A, app_nil_r in Ht.
  destruct (sender_ s) as [e|]; [|by apply elem_of_nil in Ht]. apply list_elem_of_omap in Ht as (x & Hx & Hxt). by exists e, x.
Qed.

Lemma tasks_receiver s t : sess_inv s -> s.(is_sender_) = false -> t ∈ tasks s ->
  exists r x, s.(receiver_) = Some r /\ x ∈ r.(Receiver.out_) /\ rx_task x = Some t.
Proof.
  intros Hi Hr Ht. destruct (si_receiver s Hi Hr) as (A & _). unfold tasks in Ht. rewrite A in Ht. cbn in Ht.
  destruct (receiver_ s) as [r|]; [|by apply elem_of_nil in Ht]. apply list_elem_of_omap in Ht as (x & Hx & Hxt). by exists r, x.
Qed.

Lemma inv_run_task s t s' : sess_inv s -> t ∈ tasks s -> run_task sha t (s <| posted_ ::= S |>) = Ret s' -> sess_inv s'.
Proof.
  intros Hi Ht H. assert (Hi1 : sess_inv (s <| posted_ ::= S |>)) by (by eapply inv_plain; [|exact Hi]; apply plain_same).
  assert (Hp : forall h, calm plain h -> h (s <| posted_ ::= S |>) = Ret s' -> sess_inv s').
  { intros h Hc E. eapply inv_plain; [by apply Hc|done]. }
  destruct t; cbn [run_task] in H.
  - apply (Hp (OnSenderFileDone index sha256)); [|done]. intros a b E. unfold OnSenderFileDone in E. handler E; undo.
  - destruct (is_sender_ s) eqn:Er.
    + destruct (tasks_sender s _ Hi Er Ht) as (e & x & He & Hx & Hxt). destruct x; try done. by eapply inv_OnSenderAllDone.
    + destruct (tasks_receiver s _ Hi Er Ht) as (r & x & _ & _ & Hxt). by destruct x.
  - by apply (Hp (Fail code message)); [apply plain_Fail|].
  - apply (Hp (OnReceiverFileOk index)); [|done]. intros a b E. unfold OnReceiverFileOk in E. handler E; undo.
  - apply (Hp (OnReceiverFileVerified index false reason)); [|done]. intros a b E. unfold OnReceiverFileVerified in E. handler E; undo.
  - apply ret_inj in H as <-. destruct (is_sender_ s) eqn:Er.
    + destruct (tasks_sender s _ Hi Er Ht) as (e & x & _ & _ & Hxt). by destruct x.
    + destruct (tasks_receiver s _ Hi Er Ht) as (r & x & Hr & Hx & Hxt). destruct x; try done.
      apply inv_OnReceiverAllDone; [done|done|]. unfold receiver_finished. cbn. rewrite Hr.
      destruct (si_receiver s Hi Er) as (_ & B & _). by apply (ReceiverDone.dn_all _ (B r Hr)).
  - apply ret_inj in H as <-. eapply inv_plain; [|exact Hi1]. undo.
Qed.

Lemma inv_OnCtrlMessage w rd text s s' : sess_inv s -> OnCtrlMessage sha w rd text s = Ret s' -> sess_inv s'.
Proof.
  intros Hi H. unfold OnCtrlMessage in H. destruct (ParseCtrlMessage text) as [[j type]|]; [|by apply ret_inj in H as <-].
  destruct (String.eqb type "offer"); [by eapply inv_HandleOffer|]. destruct (String.eqb type "accept"); [by eapply inv_HandleAccept|].
  destruct (String.eqb type "file_done").
  { eapply inv_plain; [|exact Hi]. unfold OnFileDoneMessage in H. handler H; try undo. apply plain_receiver.
    intros r0. by apply ReceiverDone.advances_same. }
  destruct (String.eqb type "file_ok"); [by eapply inv_HandleFileAck|]. destruct (String.eqb type "file_bad"); [by eapply inv_HandleFileAck|].
  destruct (String.eqb type "transfer_done").
  { destruct (is_sender_ s) eqn:Er; [by apply ret_inj in H as <-|]. apply ret_inj in H as <-.
    assert (H1 : sess_inv (s <| sender_confirmed_ := true |>)) by (by eapply inv_plain; [|exact Hi]; apply plain_same).
    cbn zeta. case_if; [|done]. by apply inv_OnReceiverAllDone. }
  handler H; eapply inv_plain; try exact Hi; undo.
Qed.

Lemma engine_runs oks more e : engine_inv sha oks e -> engine_inv sha oks (tx_runs sha more e) /\
  (engine_fits (tx_runs sha more e) -> engine_fits e).
Proof.
  intros Hi. unfold tx_runs. case_if; [|done]. destruct Hi as [I1 I2 I3 I4 I5 I6]. apply andb_true_iff in Heqb as [Hj Hs].
  apply bool_decide_eq_true in Hs. split.
  - split; try done. right. by split.
  - intros (F1 & F2 & F3). split; [done|]. split; [|done]. cbn in F2. by apply Forall_app in F2 as [F2 _].
Qed.

Lemma inv_TxRuns more s : sess_inv s -> sess_inv (s <| sender_ ::= fmap (tx_runs sha more) |>).
Proof.
  intros Hi. destruct (sender_ s) as [e|] eqn:Es.
  - destruct (is_sender_ s) eqn:Er; [|destruct (si_receiver s Hi Er) as [A _]; congruence].
    destruct (si_sender s Hi Er) as (A & B & C & D & E). destruct (E e Es) as [Ei Ed]. destruct (engine_runs _ more e Ei) as [Hr Hf].
    apply (inv_engine _ (tx_runs sha more e)); try done; cbn.
    + destruct (accept_received_ s); [done|]. by rewrite C in Es.
    + by rewrite Es.
    + intros Hfit. apply Ed. by apply Hf.
  - eapply inv_plain; [|exact Hi]. apply plain_same; try done. cbn. by rewrite Es.
Qed.

Lemma inv_Rx e s : sess_inv s -> sess_inv (s <| receiver_ ::= fmap (fun r => ReceiverProofs.rx_step sha r e) |>).
Proof.
  intros Hi. destruct (is_sender_ s) eqn:Er.
  - destruct (si_sender s Hi Er) as [A _]. eapply inv_plain; [|exact Hi]. apply plain_same; try done. cbn. by rewrite A.
  - destruct (si_receiver s Hi Er) as (A & B & C). split; [|cbn; congruence]. intros _. split; [done|]. cbn. split.
    + intros r Hr. destruct (receiver_ s) as [r0|]; [|done]. injection Hr as <-. by apply ReceiverDone.done_step, B.
    + intros Hc. specialize (C Hc). unfold receiver_finished in *. cbn. destruct (receiver_ s); [|done].
      by apply ReceiverDone.finished_step.
Qed.

Lemma inv_step e s s' : sess_inv s -> session_step sha s e = Ret s' -> sess_inv s'.
Proof.
  intros Hi H. destruct e; cbn [session_step] in H.
  - eapply inv_plain; [|exact Hi]. unfold OnTransportReady, StartOffer in H. handler H; undo.
  - apply ret_inj in H as <-. eapply inv_plain; [|exact Hi]. unfold OnTransportDown. undo.
  - apply ret_inj in H as <-. eapply inv_plain; [|exact Hi]. unfold OnPathChanged. undo.
  - unfold OnSessionEnd in H. handler H; [done| |by eapply inv_plain; [eapply plain_Fail|]]. zbool.
    apply inv_OnReceiverAllDone; try done. by eapply inv_plain; [|exact Hi]; apply plain_same.
  - by eapply inv_OnCtrlMessage.
  - eapply inv_plain; [|exact Hi]. unfold Pause in H. handler H; undo.
  - eapply inv_plain; [|exact Hi]. unfold Resume in H. handler H; undo.
  - eapply inv_plain; [|exact Hi]. unfold Cancel in H. handler H; undo; apply plain_receiver, ReceiverDone.advances_Cleanup.
  - destruct (tasks s !! posted_ s) as [t|] eqn:Et; [|by apply ret_inj in H as <-]. eapply inv_run_task; try done.
    by eapply list_elem_of_lookup_2.
  - apply ret_inj in H as <-. eapply inv_plain; [|exact Hi]. unfold progress_task. undo.
  - apply ret_inj in H as <-. eapply inv_plain; [|exact Hi]. undo.
  - apply ret_inj in H as <-. by apply inv_TxRuns.
  - apply ret_inj in H as <-. by apply inv_Rx.
Qed.

End invariant.

Lemma settled_run `{JL : JsonLib} sha s es s' : run_session sha s es = Ret s' -> settled s s'.
Proof.
  revert s. induction es as [|e es IH]; intros s H; cbn [run_session] in H; [apply ret_inj in H as <-; reflexivity|].
  apply bind_ret in H as (s1 & E & H). transitivity s1; [by eapply calm_step|by apply IH].
Qed.

Lemma inv_run `{JL : JsonLib} sha m0 s es s' : sess_inv sha m0 s -> run_session sha s es = Ret s' -> sess_inv sha m0 s'.
Proof.
  revert s. induction es as [|e es IH]; intros s Hi H; cbn [run_session] in H; [by apply ret_inj in H as <-|].
  apply bind_ret in H as (s1 & E & H). apply (IH s1); [by eapply inv_step|done].
Qed.

(** ** The files of the accepted offer *)

Section offer.
Context `{JL : JsonLib} (sha : bytes -> bytes).
Implicit Types s : TransferSession.

(** A step that leaves alone what an accepted offer fixed, but for the progress of the receiving engine. *)
Record kept s s' : Prop := {
  kp_role : s'.(is_sender_) = s.(is_sender_);
  kp_manifest : s'.(manifest_) = s.(manifest_);
  kp_save : s'.(save_dir_) = s.(save_dir_);
  kp_rx : rx_later s.(receiver_) s'.(receiver_);
}.

#[export] Instance kept_preorder : PreOrder kept.
Proof.
  split; [intros s; split; try done; destruct (receiver_ s); constructor; apply ReceiverDone.advances_refl|].
  intros s1 s2 s3 [A1 A2 A3 A4] [B1 B2 B3 B4]. split; try congruence. destruct A4 as [|r r' H]; [done|].
  inversion B4 as [|r1 r2 H']; subst. constructor. by apply (ReceiverDone.advances_trans _ r').
Qed.

Lemma kept_receiver g s : (forall r, ReceiverDone.advances r (g r)) -> kept s (s <| receiver_ ::= fmap g |>).
Proof. intros Hg. split; try done. cbn. destruct (receiver_ s); constructor. apply Hg. Qed.
Lemma kept_same s s' : s'.(is_sender_) = s.(is_sender_) -> s'.(manifest_) = s.(manifest_) -> s'.(save_dir_) = s.(save_dir_) ->
  s'.(receiver_) = s.(receiver_) -> kept s s'.
Proof. intros A B C D. split; try done. rewrite D. destruct (receiver_ s); constructor. apply ReceiverDone.advances_refl. Qed.
Lemma kept_SetState st s : kept s (SetState st s).
Proof. unfold SetState. case_if; [reflexivity|]. by apply kept_same. Qed.
Lemma kept_progress f s : kept s (EmitProgress f s).
Proof.
  assert (Hr : kept s (read_progress s)) by (unfold read_progress; repeat case_match; by apply kept_same).
  unfold EmitProgress. transitivity (read_progress s); [done|]. destruct f; [by apply kept_same|].
  unfold ScheduleProgress. case_if; [reflexivity|by apply kept_same].
Qed.
Lemma kept_stop s : kept s (stop_engines s).
Proof.
  unfold stop_engines. transitivity (call_sender Sender.CallStop s); [by apply kept_same|].
  apply kept_receiver, ReceiverDone.advances_Stop.
Qed.
Lemma kept_SendCtrl m : calm kept (SendCtrl m).
Proof. intros s s' H. unfold SendCtrl in H. apply bind_ret in H as (t & _ & H). apply ret_inj in H as <-. by apply kept_same. Qed.
Lemma kept_persist st s : kept s (PersistReceiver sha st s).
Proof. unfold PersistReceiver. case_if; [reflexivity|by apply kept_same]. Qed.
Lemma kept_marks l s : kept s (foldl mark_ok s l).
Proof. revert s. induction l as [|v l IH]; intros s; [reflexivity|]. transitivity (mark_ok s v); [by apply kept_same|apply IH]. Qed.
Lemma kept_all_done s : kept s (OnReceiverAllDone s).
Proof.
  unfold OnReceiverAllDone. case_if; [reflexivity|]. assert (H : kept s (all_done s)) by by apply kept_same.
  case_if; (etransitivity; [|apply kept_progress]).
  - etransitivity; [exact H|apply kept_SetState].
  - transitivity (SetState kCompleted (all_done s)); [|by apply kept_same]. etransitivity; [exact H|apply kept_SetState].
Qed.
End offer.

#[export] Hint Resolve kept_SendCtrl kept_progress kept_persist kept_stop kept_SetState kept_all_done kept_marks : session.
#[export] Hint Extern 2 (kept _ _) => by apply kept_same : session.

Lemma kept_Fail `{JL : JsonLib} c m : calm kept (Fail c m).
Proof. intros s s' H. unfold Fail in H. handler H; [undo|]. handler E0; undo. Qed.
#[export] Hint Resolve kept_Fail : session.

Section offered.
Context `{JL : JsonLib} (sha : bytes -> bytes) (save : bytes).
Implicit Types s : TransferSession.

(** Every event but a message keeps it, and so does every message but an offer. *)
Lemma kept_step e s s' : (forall w rd text, e <> CtrlMessage w rd text) -> (forall x, e <> Rx x) -> session_step sha s e = Ret s' -> kept s s'.
Proof.
  intros Hc Hx H. destruct e; cbn [session_step] in H; try (by destruct (Hc w rd text)); try (by destruct (Hx e)).
  - unfold OnTransportReady, StartOffer in H. handler H; undo.
  - apply ret_inj in H as <-. unfold OnTransportDown. undo.
  - apply ret_inj in H as <-. unfold OnPathChanged. undo.
  - unfold OnSessionEnd in H. handler H; undo.
  - unfold Pause in H. handler H; undo.
  - unfold Resume in H. handler H; undo.
  - unfold Cancel in H. handler H; undo; apply kept_receiver, ReceiverDone.advances_Cleanup.
  - destruct (tasks s !! posted_ s) as [t|]; [|by apply ret_inj in H as <-].
    unfold run_task, OnSenderFileDone, OnSenderAllDone, OnReceiverFileOk, OnReceiverFileVerified in H. handler H; undo.
  - apply ret_inj in H as <-. unfold progress_task. undo.
  - apply ret_inj in H as <-. undo.
  - apply ret_inj in H as <-. by apply kept_same.
Qed.
Lemma kept_message w rd text s s' : (forall j, ParseCtrlMessage text <> Some (j, "offer"%string)) -> OnCtrlMessage sha w rd text s = Ret s' -> kept s s'.
Proof.
  intros Ho H. unfold OnCtrlMessage in H. destruct (ParseCtrlMessage text) as [[j type]|]; [|by apply ret_inj in H as <-].
  destruct (String.eqb_spec type "offer") as [->|_]; [by destruct (Ho j)|].
  destruct (String.eqb type "accept"); [unfold HandleAccept in H; handler H; undo|].
  destruct (String.eqb type "file_done").
  { unfold OnFileDoneMessage in H. handler H; try undo. apply kept_receiver. intros r0. by apply ReceiverDone.advances_same. }
  unfold HandleFileAck in H. handler H; undo.
Qed.

(** The manifest of an offer among the events. *)
Definition offered (es : list SessEvent) (m : Manifest) : Prop :=
  exists w rd text j mj, CtrlMessage w rd text ∈ es /\ ParseCtrlMessage text = Some (j, "offer"%string) /\
    Json.find j "manifest" = Some mj /\ FromJson mj = Ok m.

(** The engine of a session that goes on is that of the manifest offered. *)
Definition ended s : Prop := Terminal s.(snap_).(state) = true /\ s.(snap_).(state) <> kCompleted.
Record receives (es : list SessEvent) s : Prop := {
  rc_save : s.(save_dir_) = save;
  rc_role : s.(is_sender_) = false;
  rc_engine : forall r, s.(receiver_) = Some r -> ended s \/
    offered es s.(manifest_) /\ exists names, ReceiverDone.of_manifest s.(manifest_) save names r;
}.

Lemma offered_app es e m : offered es m -> offered (es ++ [e]) m.
Proof. intros (w & rd & t & j & mj & H & R). exists w, rd, t, j, mj. split; [|done]. apply elem_of_app. by left. Qed.
Lemma receives_app es e s : receives es s -> receives (es ++ [e]) s.
Proof. intros [A R B]. split; [done|done|]. intros r Hr. destruct (B r Hr) as [?|[Ho ?]]; [by left|right]. split; [by apply offered_app|done]. Qed.

Lemma receives_kept es s s' : settled s s' -> kept s s' -> receives es s -> receives es s'.
Proof.
  intros [_ Hs] [K1 K2 K3 K4] [A R B]. split; [congruence|congruence|]. intros r' Hr'. rewrite Hr' in K4.
  inversion K4 as [|r x Had E]; subst. destruct (B r (eq_sym E)) as [[Ht Hn]|[Ho (names & Hm)]].
  - left. destruct (Hs Ht) as [E' _]. split; by rewrite E'.
  - right. rewrite K2. split; [done|]. exists names. by apply (ReceiverDone.of_manifest_advances _ _ _ r).
Qed.

Lemma Fail_ended c m s s' : s.(snap_).(state) <> kCompleted -> Fail c m s = Ret s' -> ended s'.
Proof.
  intros Hn H. split; [|by intros Hc%(pl_done _ _ (plain_Fail _ _ _ _ H))].
  unfold Fail in H. destruct (Terminal (state (snap_ s))) eqn:E; [by apply ret_inj in H as <-|].
  apply bind_ret in H as (s1 & _ & H). apply ret_inj in H as <-. unfold SetState.
  destruct (bool_decide_reflect (state (snap_ s1) = kFailed)) as [E1|]; cbn [orb]; [by rewrite E1|].
  by destruct (Terminal (state (snap_ s1))) eqn:E1.
Qed.

Lemma receives_offer es w rd text j s s' : sess_inv sha Manifest_default s -> receives es s -> CtrlMessage w rd text ∈ es ->
  ParseCtrlMessage text = Some (j, "offer"%string) -> HandleOffer sha w rd j s = Ret s' -> receives es s'.
Proof.
  intros Hi Hc He Hp H. destruct Hc as [A R B]. unfold HandleOffer in H. rewrite R in H.
  destruct (receiver_ s) eqn:Erx; [apply ret_inj in H as <-; split; [done|done|by rewrite Erx]|].
  destruct (si_receiver _ _ s Hi R) as (_ & _ & C).
  assert (Hnc : state (snap_ s) <> kCompleted) by (intros Hc; apply C in Hc; unfold receiver_finished in Hc; by rewrite Erx in Hc).
  assert (Hidle : forall c e t, is_sender_ t = false -> save_dir_ t = save -> receiver_ t = None -> Fail c e t = Ret s' -> receives es s').
  { intros c e t T1 T2 T3 HF. apply kept_Fail in HF as [K1 _ K3 K4]. split; [congruence|congruence|]. intros r Hr. rewrite Hr, T3 in K4.
    by inversion K4. }
  destruct (Json.find j "manifest") as [mj|] eqn:Ej; [|by apply (Hidle _ _ _ R A Erx H)].
  destruct (FromJson mj) as [m|e|] eqn:Em; [|by apply (Hidle _ _ _ R A Erx H)|done].
  destruct (zlen _ =? 0); [by eapply Hidle; [..|exact H]|].
  apply bind_ret in H as (st & _ & H).
  match type of H with (let '(_, _) := ?p in _) = _ => assert (Hs : exists l t, p = (l, t) /\ is_sender_ t = false /\ save_dir_ t = save /\
    manifest_ t = m /\ state (snap_ t) = state (snap_ s)) by (destruct st; by repeat eexists) end.
  destruct Hs as (l & t & Ep & T1 & T2 & T3 & T4). rewrite Ep in H. cbn beta iota in H.
  apply bind_ret in H as (names & _ & H).
  destruct (Receiver.Start m _ names l _) as [err r] eqn:Es.
  match type of H with match err with Some e => Fail _ e ?t1 | None => _ end = _ => set (s1 := t1) in * end.
  assert (Hs1 : is_sender_ s1 = false /\ save_dir_ s1 = save /\ manifest_ s1 = m /\ receiver_ s1 = Some r) by done.
  destruct Hs1 as (S1 & S2 & S3 & S4). destruct err as [e|].
  - pose proof (Fail_ended _ _ s1 _ ltac:(by rewrite <- T4 in Hnc) H) as Hend. apply kept_Fail in H as [K1 _ K3 _].
    split; [congruence|congruence|]. intros r' _. by left.
  - apply bind_ret in H as (s2 & E2 & H). apply ret_inj in H as <-.
    assert (K : kept s1 (EmitProgress false (SetState kTransferring s2))) by undo.
    change (save_dir_ (t <| names_ := names |>)) with (save_dir_ t) in Es. rewrite T2 in Es. apply ReceiverDone.Start_of_manifest in Es.
    destruct K as [K1 K2 K3 K4]. split; [congruence|congruence|]. intros r' Hr'. right. rewrite K2, S3. split; [by exists w, rd, text, j, mj|].
    exists names. rewrite Hr', S4 in K4. inversion K4 as [|? ? Had]; subst. by apply (ReceiverDone.of_manifest_advances _ _ _ r).
Qed.

Lemma receives_step es e s s' : sess_inv sha Manifest_default s -> receives es s -> session_step sha s e = Ret s' -> receives (es ++ [e]) s'.
Proof.
  intros Hi Hc H. pose proof (calm_step _ _ _ _ H) as Hs. apply (receives_app _ e) in Hc.
  assert (Hk : kept s s' -> receives (es ++ [e]) s') by (intros Hk; by apply (receives_kept _ s)).
  destruct e; try (apply Hk; eapply kept_step; [..|exact H]; done).
  - cbn [session_step] in H. destruct (ParseCtrlMessage text) as [[j ty]|] eqn:Ep.
    + destruct (String.eqb_spec ty "offer") as [->|Hne].
      * eapply receives_offer; [done|done| |exact Ep|]; [apply elem_of_app; right; by left|].
        unfold OnCtrlMessage in H. by rewrite Ep in H.
      * apply Hk. eapply kept_message; [|exact H]. intros j' E. rewrite Ep in E. by injection E as _ ->.
    + apply Hk. eapply kept_message; [|exact H]. by rewrite Ep.
  - cbn [session_step] in H. apply ret_inj in H as <-. destruct Hc as [A R B]. split; [done|done|]. intros r Hr. cbn in Hr.
    destruct (receiver_ s) as [r0|]; [|done]. injection Hr as <-. destruct (B r0 eq_refl) as [?|[Ho (names & Hm)]]; [by left|right].
    split; [done|]. exists names. by apply ReceiverDone.of_manifest_step.
Qed.

Lemma receives_run pre es s s' : sess_inv sha Manifest_default s -> receives pre s -> run_session sha s es = Ret s' -> receives (pre ++ es) s'.
Proof.
  revert pre s. induction es as [|e es IH]; intros pre s Hi Hc H; cbn [run_session] in H; [apply ret_inj in H as <-; by rewrite app_nil_r|].
  apply bind_ret in H as (s1 & E & H). rewrite (cons_middle e pre es), app_assoc. apply (IH _ s1); [by eapply inv_step|by apply (receives_step _ _ s)|done].
Qed.
End offered.

(** ** Properties *)

Section properties.
Context `{JL : JsonLib} (sha : bytes -> bytes).

(** C6: A terminal state is final: whatever the peer sends, the engines report and the user does, the
    state and the error of a completed, failed or cancelled transfer never change, and no further
    transition is reported. *)
Theorem terminal_final s es s' : Terminal s.(snap_).(state) = true -> run_session sha s es = Ret s' ->
  s'.(snap_).(state) = s.(snap_).(state) /\ s'.(snap_).(error_code) = s.(snap_).(error_code) /\
  states_of s'.(eff_) = states_of s.(eff_).
Proof. intros Ht H. by apply (settled_run sha s es s' H). Qed.


(** C4: A sending session completes only after an [accept] started its engine, and only when every file of the manifest was
    confirmed: by the receiver's [accept], or by a [file_ok] message.  The latter is for an engine that fits ([engine_fits]): as
    [Start] leaves it, with files whose sizes on its disk are those of the manifest and within the limits of the protocol, and
    with inputs made of bytes. *)
Theorem sender_completes_confirmed tid sid m files es s' :
  run_session sha (SetSenderInput m files (TransferSession_new tid sid "sender")) es = Ret s' -> s'.(snap_).(state) = kCompleted ->
  exists e, s'.(sender_) = Some e /\ length s'.(sender_file_ok_) = length m.(Manifest.files) /\
    (engine_fits e -> Forall (eq true) s'.(sender_file_ok_)).
Proof.
  intros H Hc. pose proof (settled_run _ _ _ _ H) as [Hrole _].
  apply (inv_run _ m _ _ _ (inv_sender_new sha m tid sid files)) in H as [_ Ht].
  destruct (Ht Hrole) as (_ & [_ B] & _ & D & E). destruct (sender_ s') as [e|]; [|by destruct (D eq_refl)].
  exists e. destruct (E e eq_refl) as [_ Ed]. split; [done|]. split; [done|]. intros Hf. by apply Ed.
Qed.

(** A message of the peer can end the process: an [accept] whose [verified] member is not a boolean
    raises a JSON exception that nothing catches. *)
Theorem accept_type_raises w rd text s i v : s.(is_sender_) = true -> s.(accept_received_) = false ->
  0 <= i < zlen s.(manifest_).(Manifest.files) -> i < 2 ^ 16 -> get_bool v = Throw ->
  parse text = jobj [("type", jstr "accept"); ("files", jarr [jobj [("index", juns i); ("verified", v)]])]%string ->
  session_step sha s (CtrlMessage w rd text) = Throw.
Proof.
  intros Hr Ha Hi Hi16 Hv Hp. cbn [session_step]. unfold OnCtrlMessage, ParseCtrlMessage. rewrite Hp. json_simpl.
  cbn [negb String.eqb Ascii.eqb Bool.eqb]. unfold HandleAccept. rewrite Hr, Ha. cbn [negb orb]. json_simpl.
  cbn [accept_files accept_file]. unfold accept_file. json_simpl. cbn [negb]. unfold get_u16. json_simpl.
  rewrite u16_small by (unfold in_u16; lia). destruct (Z.geb_spec i (zlen (files (manifest_ s)))); [lia|]. by rewrite Hv.
Qed.

(** The first [accept] starts the sending engine whatever the session's state, and unpaused: also
    after the user cancelled the transfer or while it is paused.  The engine runs, no call has
    stopped or paused it, and the session still shows the old state. *)
Theorem accept_ignores_state w rd text s : s.(is_sender_) = true -> s.(accept_received_) = false ->
  zlen s.(files_) = zlen s.(manifest_).(Manifest.files) ->
  parse text = jobj [("type", jstr "accept"); ("files", jarr [])]%string ->
  exists s' e, session_step sha s (CtrlMessage w rd text) = Ret s' /\ s'.(sender_) = Some e /\
    e.(tx_started).(Sender.joinable_) = true /\ e.(tx_started).(Sender.paused_) = false /\ e.(tx_calls) = [] /\
    s'.(paused_) = s.(paused_) /\
    (Terminal s.(snap_).(state) = true -> s'.(snap_).(state) = s.(snap_).(state)).
Proof.
  intros Hr Ha Hf Hp. cbn [session_step]. unfold OnCtrlMessage, ParseCtrlMessage. rewrite Hp. json_simpl.
  cbn [negb String.eqb Ascii.eqb Bool.eqb]. unfold HandleAccept. rewrite Hr, Ha. cbn [negb orb]. json_simpl.
  cbn [accept_files]. unfold mbind, outcome_bind.
  assert (Hst : exists t, Sender.Start (manifest_ s) (files_ s) [] [] (Sender.SenderTransfer_new w []) = (None, t) /\
    Sender.joinable_ t = true /\ Sender.paused_ t = false).
  { unfold Sender.Start. cbn [Sender.joinable_ Sender.SenderTransfer_new]. rewrite Hf, Z.eqb_refl. cbn [negb]. eexists.
    split; [reflexivity|]. by split. }
  destruct Hst as (t & Et & Hj & Hpz). rewrite Et. cbn [foldl].
  match goal with |- context [Ret (ScheduleProgress (read_progress (SetState kTransferring ?x)))] => set (s1 := x) end.
  change (ScheduleProgress (read_progress (SetState kTransferring s1))) with (EmitProgress false (SetState kTransferring s1)).
  assert (Hp1 : plain s1 (EmitProgress false (SetState kTransferring s1))) by undo.
  assert (Hq : forall st s, sender_ (SetState st s) = sender_ s /\ paused_ (SetState st s) = paused_ s).
  { intros st u. unfold SetState. by case_if. }
  assert (Hq' : forall f s, sender_ (EmitProgress f s) = sender_ s /\ paused_ (EmitProgress f s) = paused_ s).
  { intros f u. assert (Hu : sender_ (read_progress u) = sender_ u /\ paused_ (read_progress u) = paused_ u)
      by (unfold read_progress; by repeat case_match).
    unfold EmitProgress, ScheduleProgress. destruct f; [exact Hu|]. case_if; exact Hu. }
  eexists _, (mkTxEngine t [] [] t). split; [done|]. rewrite !(proj1 (Hq' _ _)), !(proj2 (Hq' _ _)), !(proj1 (Hq _ _)), !(proj2 (Hq _ _)).
  split; [done|]. split; [done|]. split; [done|]. split; [done|]. split; [done|].
  intros Ht. assert (Hs : settled s1 (EmitProgress false (SetState kTransferring s1))) by undo. by apply Hs.
Qed.

(** Two roots of one offer can get the same name on the disk: the directory [n] is there, so it is
    saved under its first free numbered name [n1], which is also the name of the second root. *)
Theorem ChooseNames_collides w rd s n n1 d :
  Json.find s.(resume_) "names" = None -> s.(manifest_).(roots) = [mkRoot n true; mkRoot n1 d] -> n <> n1 ->
  sbytes n1 = numbered (sbytes n) [] 1 ->
  exists_path w (path_append s.(save_dir_) (sbytes n)) = true ->
  exists_path w (path_append s.(save_dir_) (sbytes n1)) = false ->
  exists names, ChooseNames w rd s = Ret names /\ names !! n = Some n1 /\ names !! n1 = Some n1.
Proof.
  intros Hres Hroots Hne Hn He He1. unfold ChooseNames. rewrite Hres, Hroots. unfold mbind, outcome_bind. eexists. split; [reflexivity|].
  assert (E1 : UniqueName (exists_path w) rd (save_dir_ s) (sbytes n) true = sbytes n1).
  { unfold UniqueName, FromUtf8. rewrite He. cbn [negb stem_ext]. replace (Z.to_nat 10000) with (S (Z.to_nat 9999)) by lia.
    cbn [unique_loop]. rewrite <- Hn. unfold FromUtf8. by rewrite He1. }
  assert (E2 : UniqueName (exists_path w) rd (save_dir_ s) (sbytes n1) d = sbytes n1).
  { unfold UniqueName, FromUtf8. by rewrite He1. }
  cbn [foldl name is_dir]. rewrite !lookup_empty, E1, of_sbytes_sbytes. rewrite lookup_insert_ne by done.
  rewrite lookup_empty, E2, of_sbytes_sbytes. split; [|by rewrite lookup_insert_eq].
  rewrite lookup_insert_ne by done. by rewrite lookup_insert_eq.
Qed.
End properties.

(** ** Witnesses *)

(** The messages of the examples, by name. *)
Definition texts (manifest : jtree) (hash : string) (t : string) : jtree :=
  let obj l := JT (VObject (list_to_map l)) in let str s := JT (VString s) in
  (if String.eqb t "offer" then obj [("type", str "offer"); ("manifest", manifest)]
   else if String.eqb t "accept" then obj [("type", str "accept"); ("files", JT (VArray []))]
   else if String.eqb t "bad accept" then
     obj [("type", str "accept"); ("files", JT (VArray [obj [("index", JT (VUnsigned 0)); ("verified", JT (VUnsigned 1))]]))]
   else if String.eqb t "file_done" then obj [("type", str "file_done"); ("index", JT (VUnsigned 0)); ("sha256", str hash)]
   else if String.eqb t "file_ok" then obj [("type", str "file_ok"); ("index", JT (VUnsigned 0))]
   else if String.eqb t "transfer_done" then obj [("type", str "transfer_done")]
   else JT VDiscarded)%string.
Definition sample_texts : string -> jtree :=
  texts (ToJson (JL := JsonTree) ReceiverProofs.sample_manifest) (of_sbytes (Sha256Hex ReceiverProofs.sample_sha [1; 2; 3])).
Definition sample_json : JsonLib := JsonTreeWith sample_texts.
#[local] Existing Instance sample_json.

(** A receiving session: offer, hash, block, verification, confirmation. *)
Definition rx_session : TransferSession :=
  SetReceiverInput ReceiverProofs.sample_save (JT VNull) (TransferSession_new "t" "s" "receiver").
Definition rx_session_events : list SessEvent :=
  [TransportReady MINIRTC_PATH_P2P; CtrlMessage ReceiverProofs.sample_world 0 "offer";
   CtrlMessage ReceiverProofs.sample_world 0 "file_done"] ++
  (Rx <$> tail ReceiverProofs.sample_events) ++ replicate 4 Posted ++ [CtrlMessage ReceiverProofs.sample_world 0 "transfer_done"].
Notation rx_session_end := (run_session ReceiverProofs.sample_sha rx_session rx_session_events).

Definition the {A} (d : A) (o : outcome A) : A := match o with Ret a => a | Throw => d end.

Lemma the_ret {A} (d : A) o : returns o = true -> o = Ret (the d o).
Proof. by destruct o. Qed.


(** A sending session: accept, confirmation, the run of the engine, its callbacks. *)
Definition tx_session : TransferSession :=
  SetSenderInput SenderProofs.tx_manifest [[97]] (TransferSession_new "t" "s" "sender").
Definition tx_accepted : list SessEvent := [TransportReady MINIRTC_PATH_P2P; CtrlMessage SenderProofs.tx_world 0 "accept"].
Definition tx_session_events : list SessEvent :=
  tx_accepted ++ [CtrlMessage SenderProofs.tx_world 0 "file_ok"; TxRuns SenderProofs.tx_env; Posted; Posted].
Notation tx_session_end := (run_session SenderProofs.tx_sha tx_session tx_session_events).

Lemma sender_completes_confirmed_witness :
  length (the tx_session tx_session_end).(sender_file_ok_) = 1%nat /\ Forall (eq true) (the tx_session tx_session_end).(sender_file_ok_).
Proof.
  assert (H : returns tx_session_end = true) by (vm_compute; reflexivity).
  assert (He : exists e, (the tx_session tx_session_end).(sender_) = Some e /\
    e.(tx_tape) = SenderProofs.tx_env /\ e.(tx_started) = (Sender.Start SenderProofs.tx_manifest [[97]] [] [] (Sender.SenderTransfer_new SenderProofs.tx_world [])).2).
  { assert (Hv : (fun e => (e.(tx_tape), e.(tx_started))) <$> (the tx_session tx_session_end).(sender_) = Some (SenderProofs.tx_env,
      (Sender.Start SenderProofs.tx_manifest [[97]] [] [] (Sender.SenderTransfer_new SenderProofs.tx_world [])).2)) by (vm_compute; reflexivity).
    apply fmap_Some in Hv as (e & He & Hp). exists e. split; [exact He|].
    split; [exact (eq_sym (f_equal fst Hp))|exact (eq_sym (f_equal snd Hp))]. }
  destruct He as (e & He & Ht & Hs).
  destruct (sender_completes_confirmed (JL := sample_json) SenderProofs.tx_sha "t" "s" SenderProofs.tx_manifest [[97]] tx_session_events
    (the tx_session tx_session_end) (the_ret tx_session _ H)) as (e' & He' & Hl & Hok); [vm_compute; reflexivity|].
  rewrite He in He'. injection He' as <-. split; [exact Hl|]. apply Hok. unfold engine_fits. rewrite Ht, Hs. split; [exact SenderProofs.tx_sample_ok|]. split; [exact SenderProofs.tx_env_ok|].
  apply (SenderProofs.Start_fresh SenderProofs.tx_manifest [[97]] [] SenderProofs.tx_world [] eq_refl ltac:(done) []). vm_compute. reflexivity.
Defined.

(** Cancelled by the user; the peer and the user go on. *)
Definition tx_cancelled : TransferSession :=
  the tx_session (run_session SenderProofs.tx_sha tx_session [TransportReady MINIRTC_PATH_P2P; UserPause; UserCancel "user"]).
Notation tx_after := (run_session SenderProofs.tx_sha tx_cancelled (tl tx_session_events ++ [SessionEnd "peer_left"])).

Lemma terminal_final_witness :
  (the tx_session tx_after).(snap_).(state) = kCancelled /\ (the tx_session tx_after).(snap_).(error_code) = "user"%string.
Proof.
  assert (H : returns tx_after = true) by (vm_compute; reflexivity).
  assert (Hc : tx_cancelled.(snap_).(state) = kCancelled /\ tx_cancelled.(snap_).(error_code) = "user"%string)
    by (split; vm_compute; reflexivity).
  destruct (terminal_final (JL := sample_json) SenderProofs.tx_sha tx_cancelled (tl tx_session_events ++ [SessionEnd "peer_left"])
    (the tx_session tx_after)) as (A & B & _); [by rewrite (proj1 Hc)|exact (the_ret tx_session _ H)|].
  rewrite A, B. exact Hc.
Defined.

Lemma accept_type_raises_witness :
  session_step SenderProofs.tx_sha tx_session (CtrlMessage SenderProofs.tx_world 0 "bad accept") = Throw.
Proof.
  apply (accept_type_raises (JL := sample_json) SenderProofs.tx_sha SenderProofs.tx_world 0 "bad accept" tx_session 0 (JT (VUnsigned 1)));
    [done|done| |done|done|vm_compute; reflexivity]. by cbn.
Defined.

Lemma accept_ignores_state_witness :
  exists s' e, session_step SenderProofs.tx_sha tx_cancelled (CtrlMessage SenderProofs.tx_world 0 "accept") = Ret s' /\
    s'.(sender_) = Some e /\ e.(tx_started).(Sender.joinable_) = true /\ e.(tx_calls) = [] /\ s'.(paused_) = true /\
    s'.(snap_).(state) = kCancelled.
Proof.
  destruct (accept_ignores_state (JL := sample_json) SenderProofs.tx_sha SenderProofs.tx_world 0 "accept" tx_cancelled)
    as (s' & e & H1 & H2 & H3 & _ & H5 & H6 & H7); [vm_compute; reflexivity ..|].
  exists s', e. split; [exact H1|]. split; [exact H2|]. split; [exact H3|]. split; [exact H5|]. split.
  - rewrite H6. vm_compute. reflexivity.
  - rewrite H7 by (vm_compute; reflexivity). vm_compute. reflexivity.
Defined.

(** A save directory with a directory [a]; the offer has the roots [a] and [a (1)]. *)
Definition two_roots : TransferSession :=
  SetReceiverInput (sbytes "/d") (JT VNull) (TransferSession_new "t" "s" "receiver")
    <| manifest_ := mkManifest [mkFile "a/x" 1; mkFile "a (1)/x" 1] [] [mkRoot "a" true; mkRoot "a (1)" true] 2 |>.

Lemma ChooseNames_collides_witness :
  exists names, ChooseNames (mkWorld ∅ {[ sbytes "/d/a" ]} []) 0 two_roots = Ret names /\
    names !! "a"%string = Some "a (1)"%string /\ names !! "a (1)"%string = Some "a (1)"%string.
Proof.
  apply (ChooseNames_collides (JL := sample_json) _ 0 two_roots "a" "a (1)" true); vm_compute; done.
Defined.
