(* ===== verification/Config.v ===== *)
(** * Configuration ([core/src/api/config.{h,cpp}])

    A [Config] is filled from JSON in steps that stop at the first wrong type; what was taken before
    the failure stays.  The build settings are arguments: [CT_DEVELOPER_MODE], [CT_SERVICE_HOST] and
    [CT_LINK_HOST]. *)
From S2P Require Export Peer.
From S2P Require Export Json.
#[local] Open Scope Z_scope.

(** ** Definitions *)

Record Config := mkConfig {
  data_dir : string; log_dir : string; log_level : string; server_host : string; server_port : Z;
  server_tls : bool; server_path : string; link_host : string; turn_mode : string; ws_relay : string;
  enable_srtp : bool; enable_upnp : bool; ice_timeout_ms : Z; save_dir : string; share_mode : string;
  share_ttl_sec : Z; app_version : string; platform : string;
}.
#[export] Instance eta_Config : Eta Config := fun c => mkConfig c.(data_dir) c.(log_dir) c.(log_level) c.(server_host)
  c.(server_port) c.(server_tls) c.(server_path) c.(link_host) c.(turn_mode) c.(ws_relay) c.(enable_srtp)
  c.(enable_upnp) c.(ice_timeout_ms) c.(save_dir) c.(share_mode) c.(share_ttl_sec) c.(app_version) c.(platform).

(** Sequential composition of the steps of [Merge]: the error, if any, and the configuration. *)
Definition step : Type := Config -> option string * Config.
Definition ok_step : step := fun c => (None, c).
Definition then_ (a b : step) : step := fun c => match a c with (None, c) => b c | (Some e, c) => (Some e, c) end.
Infix ";;;" := then_ (at level 60, right associativity).

Section config.
Context `{JL : JsonLib} (CT_DEVELOPER_MODE : bool) (CT_SERVICE_HOST CT_LINK_HOST : string).

Definition Config_new : Config :=
  let c := mkConfig "" "" "info" CT_SERVICE_HOST 443 true "/ws" CT_LINK_HOST "auto" "auto" true false 15000 "" "once" 600 "0.1.0" "" in
  if CT_DEVELOPER_MODE && String.eqb c.(server_host) ""
  then c <| server_host := "127.0.0.1"%string |> <| server_port := 8080 |> <| server_tls := false |>
  else c.

Definition Take {T} (get : json -> outcome T) (j : json) (key : string) (set : T -> Config -> Config) : step := fun c =>
  match find j key with
  | None => (None, c)
  | Some v =>
      if is_null v then (None, c) else
      match get v with
      | Ret t => (None, set t c)
      | Throw => (Some ("config." +:+ key +:+ " has the wrong type")%string, c)
      end
  end.

Definition HasServiceOverrides (j : json) : bool :=
  existsb (contains j) ["server"; "link_host"; "turn_mode"; "ws_relay"; "enable_srtp"; "enable_upnp"; "ice_timeout_ms"]%string.

(** [#if CT_DEVELOPER_MODE] *)
Definition developer (s : step) : step := if CT_DEVELOPER_MODE then s else ok_step.

(** The members of an object [key] of [j], when it is one. *)
Definition in_object (j : json) (key : string) (s : json -> step) : step :=
  match find j key with
  | Some o => if is_object o then s o else ok_step
  | None => ok_step
  end.

Definition one_of (v : string) (choices : list string) : bool := existsb (String.eqb v) choices.
Definition require (b : Config -> bool) (error : string) : step := fun c => if b c then (None, c) else (Some error, c).

Definition Merge (j : json) : step := fun c =>
  if negb (is_object j) then (Some "config must be an object"%string, c) else
  (Take get_string j "data_dir" (fun v c => c <| data_dir := v |>) ;;;
   Take get_string j "log_dir" (fun v c => c <| log_dir := v |>) ;;;
   Take get_string j "log_level" (fun v c => c <| log_level := v |>) ;;;
   developer
    (Take get_string j "link_host" (fun v c => c <| link_host := v |>) ;;;
     Take get_string j "turn_mode" (fun v c => c <| turn_mode := v |>) ;;;
     Take get_string j "ws_relay" (fun v c => c <| ws_relay := v |>) ;;;
     Take get_bool j "enable_srtp" (fun v c => c <| enable_srtp := v |>) ;;;
     Take get_bool j "enable_upnp" (fun v c => c <| enable_upnp := v |>) ;;;
     Take get_i32 j "ice_timeout_ms" (fun v c => c <| ice_timeout_ms := v |>)) ;;;
   Take get_string j "save_dir" (fun v c => c <| save_dir := v |>) ;;;
   Take get_string j "app_version" (fun v c => c <| app_version := v |>) ;;;
   Take get_string j "platform" (fun v c => c <| platform := v |>) ;;;
   developer (in_object j "server" (fun server =>
     Take get_string server "host" (fun v c => c <| server_host := v |>) ;;;
     Take get_i32 server "port" (fun v c => c <| server_port := v |>) ;;;
     Take get_bool server "tls" (fun v c => c <| server_tls := v |>) ;;;
     Take get_string server "path" (fun v c => c <| server_path := v |>))) ;;;
   in_object j "share" (fun share =>
     Take get_string share "mode" (fun v c => c <| share_mode := v |>) ;;;
     Take get_i32 share "ttl_sec" (fun v c => c <| share_ttl_sec := v |>)) ;;;
   require (fun c => one_of c.(turn_mode) ["auto"; "force"; "off"]%string) "config.turn_mode must be auto|force|off" ;;;
   require (fun c => one_of c.(ws_relay) ["auto"; "force"; "off"]%string) "config.ws_relay must be auto|force|off" ;;;
   require (fun c => one_of c.(share_mode) ["once"; "open"]%string) "config.share.mode must be once|open" ;;;
   (fun c => (None, if String.eqb c.(server_path) "" then c <| server_path := "/ws"%string |> else c))) c.

Definition ToJson (c : Config) : json :=
  jobj (app (if CT_DEVELOPER_MODE then
     [("server", jobj [("host", jstr c.(server_host)); ("port", jint c.(server_port)); ("tls", jbool c.(server_tls));
                       ("path", jstr c.(server_path))]);
      ("link_host", jstr c.(link_host)); ("turn_mode", jstr c.(turn_mode)); ("ws_relay", jstr c.(ws_relay));
      ("enable_srtp", jbool c.(enable_srtp)); ("enable_upnp", jbool c.(enable_upnp));
      ("ice_timeout_ms", jint c.(ice_timeout_ms))]
     else [])
    [("data_dir", jstr c.(data_dir)); ("log_dir", jstr c.(log_dir)); ("log_level", jstr c.(log_level));
     ("service_available", jbool (negb (String.eqb c.(server_host) ""))); ("save_dir", jstr c.(save_dir));
     ("share", jobj [("mode", jstr c.(share_mode)); ("ttl_sec", jint c.(share_ttl_sec))]);
     ("app_version", jstr c.(app_version)); ("platform", jstr c.(platform))])%string.

End config.

(** The peer's configuration; the fields that are not set keep the defaults of [PeerConfig]. *)
Definition ToPeerConfig (c : Config) : PeerConfig :=
  mkPeerConfig c.(server_host) c.(server_port) c.(server_tls) c.(server_path) ""
    (if String.eqb c.(turn_mode) "force" then MINIRTC_TURN_FORCE
     else if String.eqb c.(turn_mode) "off" then MINIRTC_TURN_DISABLED else MINIRTC_TURN_AUTO)
    c.(enable_srtp) c.(enable_upnp) (negb (String.eqb c.(ws_relay) "off")) (String.eqb c.(ws_relay) "force")
    c.(ice_timeout_ms) "crosstransfer" c.(app_version) c.(platform) 1024.

Definition PeerAffectingDiff (c o : Config) : bool :=
  negb (String.eqb c.(server_host) o.(server_host)) || negb (c.(server_port) =? o.(server_port)) ||
  negb (Bool.eqb c.(server_tls) o.(server_tls)) || negb (String.eqb c.(server_path) o.(server_path)) ||
  negb (String.eqb c.(turn_mode) o.(turn_mode)) || negb (String.eqb c.(ws_relay) o.(ws_relay)) ||
  negb (Bool.eqb c.(enable_srtp) o.(enable_srtp)) || negb (Bool.eqb c.(enable_upnp) o.(enable_upnp)) ||
  negb (c.(ice_timeout_ms) =? o.(ice_timeout_ms)).

(** ** Lemmas *)

(** The modes are among the known ones, and there is a path to connect to. *)
Record config_ok (c : Config) : Prop := {
  co_turn : one_of c.(turn_mode) ["auto"; "force"; "off"]%string = true;
  co_relay : one_of c.(ws_relay) ["auto"; "force"; "off"]%string = true;
  co_share : one_of c.(share_mode) ["once"; "open"]%string = true;
  co_path : c.(server_path) <> ""%string;
}.

(** The numbers fit [int]. *)
Definition in_i32 (x : Z) : Prop := - 2 ^ 31 <= x < 2 ^ 31.
Definition config_fits (c : Config) : Prop :=
  in_i32 c.(server_port) /\ in_i32 c.(ice_timeout_ms) /\ in_i32 c.(share_ttl_sec).

Lemma i32_small x : in_i32 x -> i32 x = x.
Proof. unfold in_i32, i32. intros H. rewrite Z.mod_small by lia. lia. Qed.

Section lemmas.
Context `{JL : JsonLib} (dev : bool).

Lemma then_ok a b c c' : then_ a b c = (None, c') -> exists c1, a c = (None, c1) /\ b c1 = (None, c').
Proof. unfold then_. destruct (a c) as [[e|] c1]; [done|eauto]. Qed.

Lemma require_ok b e c c' : require b e c = (None, c') -> b c = true /\ c' = c.
Proof. unfold require. destruct (b c); [|done]. by intros [= <-]. Qed.

Lemma then_run a b c c1 : a c = (None, c1) -> then_ a b c = b c1.
Proof. unfold then_. by intros ->. Qed.

Lemma then_assoc a b d c : then_ (then_ a b) d c = then_ a (then_ b d) c.
Proof. unfold then_. by destruct (a c) as [[e|] c1]. Qed.

(** A member that [ToJson] wrote. *)
Lemma Take_string j k v set c : find j k = Some (jstr v) -> Take get_string j k set c = (None, set v c).
Proof. unfold Take. intros ->. rewrite get_string_jstr. unfold is_null, jstr. by rewrite view_mk. Qed.
Lemma Take_bool j k v set c : find j k = Some (jbool v) -> Take get_bool j k set c = (None, set v c).
Proof. unfold Take. intros ->. rewrite get_bool_jbool. unfold is_null, jbool. by rewrite view_mk. Qed.
Lemma Take_int j k v set c : find j k = Some (jint v) -> in_i32 v -> Take get_i32 j k set c = (None, set v c).
Proof.
  unfold Take. intros -> Hv. unfold is_null, jint. rewrite view_mk. unfold get_i32, get_number.
  rewrite (number_integer _ v) by apply view_mk. cbn. by rewrite i32_small.
Qed.

(** What a step does not touch. *)
Definition keeps {A} (f : Config -> A) (s : step) : Prop := forall c, f (s c).2 = f c.

Lemma keeps_then {A} (f : Config -> A) a b : keeps f a -> keeps f b -> keeps f (a ;;; b).
Proof. intros Ha Hb c. unfold then_. specialize (Ha c). destruct (a c) as [[e|] c1]; [done|]. by rewrite Hb. Qed.

Lemma keeps_Take {A T} (f : Config -> A) (get : json -> outcome T) j k set : (forall v c, f (set v c) = f c) -> keeps f (Take get j k set).
Proof. intros Hs c. unfold Take. destruct (find j k); [|done]. case_if; [done|]. destruct (get j0); [apply Hs|done]. Qed.

Lemma keeps_require {A} (f : Config -> A) b e : keeps f (require b e).
Proof. intros c. unfold require. by case_if. Qed.

Lemma keeps_object {A} (f : Config -> A) j k s : (forall o, keeps f (s o)) -> keeps f (in_object j k s).
Proof. intros Hs. unfold in_object. destruct (find j k); [|by intros c]. case_if; [apply Hs|by intros c]. Qed.

End lemmas.

(** What [ToJson] carries in a release build. *)
Definition with_preferences (c c0 : Config) : Config :=
  c0 <| data_dir := c.(data_dir) |> <| log_dir := c.(log_dir) |> <| log_level := c.(log_level) |> <| save_dir := c.(save_dir) |>
     <| share_mode := c.(share_mode) |> <| share_ttl_sec := c.(share_ttl_sec) |> <| app_version := c.(app_version) |>
     <| platform := c.(platform) |>.

(** One member of a document that [ToJson] wrote. *)
Ltac take_step :=
  first [rewrite then_assoc|
    erewrite then_run; [|
      let found := (rewrite find_jobj; by simplify_map_eq) in
      first [apply Take_string; found|apply Take_bool; found|eapply Take_int; [found|done]|reflexivity]]].

(** ** Properties *)

Section properties.
Context `{JL : JsonLib} (dev : bool).

(** In a release build [Merge] changes nothing but the preferences, up to its last step, which gives
    the path of the server its default. *)
Lemma Merge_keeps_service {A} (f : Config -> A) j c e c' : Merge false j c = (e, c') ->
  (forall v c, f (c <| data_dir := v |>) = f c) -> (forall v c, f (c <| log_dir := v |>) = f c) ->
  (forall v c, f (c <| log_level := v |>) = f c) -> (forall v c, f (c <| save_dir := v |>) = f c) ->
  (forall v c, f (c <| app_version := v |>) = f c) -> (forall v c, f (c <| platform := v |>) = f c) ->
  (forall v c, f (c <| share_mode := v |>) = f c) -> (forall v c, f (c <| share_ttl_sec := v |>) = f c) ->
  (forall v c, f (c <| server_path := v |>) = f c) -> f c' = f c.
Proof.
  intros E H1 H2 H3 H4 H5 H6 H7 H8 H9. change (f (e, c').2 = f c). rewrite <- E. clear E. unfold Merge. case_if; [done|].
  unfold developer. cbv beta iota. match goal with |- f (?m c).2 = f c => enough (Hk : keeps f m) by apply Hk end.
  repeat first [apply keeps_then|apply keeps_Take; assumption|apply keeps_require|apply keeps_object; intros ?|by intros ?].
  intros c1. cbn. case_if; auto.
Qed.

(** A step that gives an empty path its default when it succeeds and changes the path in no other way. *)
Definition defaults_path (s : step) : Prop := forall c,
  (s c).2.(server_path) =
    if bool_decide ((s c).1 = None) && String.eqb c.(server_path) "" then "/ws"%string else c.(server_path).

Lemma defaults_then a b : keeps server_path a -> defaults_path b -> defaults_path (a ;;; b).
Proof.
  intros Ha Hb c. specialize (Ha c). unfold then_. destruct (a c) as [[x|] c1]; cbn [fst snd] in *; [done|].
  by rewrite Hb, Ha.
Qed.

Lemma Merge_path j c e c' : Merge false j c = (e, c') ->
  c'.(server_path) = if bool_decide (e = None) && String.eqb c.(server_path) "" then "/ws"%string else c.(server_path).
Proof.
  unfold Merge. case_if; [by intros [= <- <-]|]. unfold developer. cbv beta iota.
  match goal with |- ?m c = _ -> _ => enough (Hk : defaults_path m) end.
  { intros E. specialize (Hk c). by rewrite E in Hk. }
  repeat (apply defaults_then;
    [repeat first [apply keeps_then|apply keeps_Take; done|apply keeps_require|apply keeps_object; intros ?|by intros ?]|]).
  intros c1. cbn [fst snd]. rewrite bool_decide_true by done. cbn [andb]. by case_if.
Qed.

(** C23: A configuration [Merge] accepts has known modes and a server path, and in a release build the
    service settings, the path of the server among them, are the ones built in: no JSON, accepted or
    not, changes them, and only an empty path gets its default when the JSON is accepted. *)
Theorem Merge_valid j c : let '(e, c') := Merge dev j c in
  (e = None -> config_ok c') /\
  (dev = false -> c'.(server_host) = c.(server_host) /\ c'.(server_port) = c.(server_port) /\ c'.(server_tls) = c.(server_tls) /\
     c'.(link_host) = c.(link_host) /\ c'.(turn_mode) = c.(turn_mode) /\ c'.(ws_relay) = c.(ws_relay) /\
     c'.(enable_srtp) = c.(enable_srtp) /\ c'.(enable_upnp) = c.(enable_upnp) /\ c'.(ice_timeout_ms) = c.(ice_timeout_ms) /\
     c'.(server_path) = if bool_decide (e = None) && String.eqb c.(server_path) "" then "/ws"%string else c.(server_path)).
Proof.
  destruct (Merge dev j c) as [e c'] eqn:E. split.
  - intros ->. unfold Merge in E. destruct (negb (is_object j)); [done|].
    repeat match type of E with then_ _ _ _ = _ => apply then_ok in E as (? & ? & E) end.
    repeat match goal with H : require _ _ _ = (None, _) |- _ => apply require_ok in H as [? ->] end.
    injection E as <-. destruct (String.eqb _ "") eqn:Ep; split; try done. by apply String.eqb_neq.
  - intros ->. repeat split; try (by apply (Merge_keeps_service _ j c e c' E)). by apply (Merge_path j c e c' E).
Qed.

(** What is saved is what is loaded: a configuration survives [ToJson] and [Merge], completely in a
    developer build, in its preferences in a release build. *)
Theorem config_roundtrip c c0 : config_ok c -> config_ok c0 -> config_fits c ->
  Merge dev (ToJson dev c) c0 = (None, if dev then c else with_preferences c c0).
Proof.
  intros [O1 O2 O3 O4] [P1 P2 P3 P4] (F1 & F2 & F3). unfold Merge, ToJson.
  rewrite is_object_jobj. cbn [negb]. unfold developer, in_object. rewrite !find_jobj.
  destruct dev; cbn [app list_to_map foldr fst snd]; rewrite ?lookup_insert_eq;
    repeat (rewrite lookup_insert_ne by done); rewrite ?lookup_insert_eq, ?is_object_jobj.
  - repeat take_step. unfold then_, require. cbn -[one_of].
    rewrite O1. cbn -[one_of]. rewrite O2. cbn -[one_of]. rewrite O3. cbn -[one_of]. rewrite (proj2 (String.eqb_neq _ _) O4). by destruct c.
  - repeat take_step. unfold then_, require. cbn -[one_of].
    rewrite P1. cbn -[one_of]. rewrite P2. cbn -[one_of]. rewrite O3. cbn -[one_of]. rewrite (proj2 (String.eqb_neq _ _) P4). reflexivity.
Qed.

(** Only a change that leaves the peer as it is keeps the running peer: when [PeerAffectingDiff] is
    false the two peer configurations differ in the application's version and platform at most. *)
Theorem PeerAffectingDiff_sound c o : PeerAffectingDiff c o = false ->
  exists v p, ToPeerConfig o = ToPeerConfig (c <| app_version := v |> <| platform := p |>).
Proof.
  intros H. unfold PeerAffectingDiff in H. zbool.
  repeat match goal with H : String.eqb _ _ = true |- _ => apply String.eqb_eq in H | H : Bool.eqb _ _ = true |- _ => apply Bool.eqb_prop in H end.
  exists o.(app_version), o.(platform). unfold ToPeerConfig. cbn.
  repeat match goal with H : _ c = _ o |- _ => rewrite H; clear H end. reflexivity.
Qed.
End properties.

(** ** Witnesses *)

Definition sample_config : Config := Config_new true "" "" <| server_host := "example.org"%string |> <| share_ttl_sec := 60 |>.

Lemma config_roundtrip_witness :
  Merge (JL := JsonTree) true (ToJson true sample_config) (Config_new true "" "") = (None, sample_config).
Proof.
  apply (config_roundtrip true sample_config (Config_new true "" "")); [by split|by split|].
  unfold config_fits, in_i32. cbn. lia.
Defined.

Lemma PeerAffectingDiff_sound_witness :
  exists v p, ToPeerConfig (sample_config <| share_mode := "open"%string |>) =
    ToPeerConfig (sample_config <| app_version := v |> <| platform := p |>).
Proof. apply (PeerAffectingDiff_sound sample_config (sample_config <| share_mode := "open"%string |>)). reflexivity. Defined.
