(* ===== verification/SessionSpec.v ===== *)
(** * The life of a transfer, and its refinement by the session

    The specification of [core/src/share/transfer_session.h] as its owner sees it is a machine of eight
    states ([lifecycle]): a sender connects, offers, transfers and completes; a receiver connects,
    waits for the offer, transfers, verifies and completes; either can fail or be cancelled before its
    end.  [session_refines_lifecycle] shows that the states a session reports, over any events that begin
    with the transport ready and never take it down again, are a path of that machine. *)
From S2P Require Export TransferSessionProofs.
From S2P Require Import TransferSession.
#[local] Open Scope Z_scope.

(** ** The abstract machine *)

Inductive lifecycle (sender : bool) : TransferState -> TransferState -> Prop :=
| lc_offer : sender = true -> lifecycle sender kConnecting kOffering
| lc_accepted : sender = true -> lifecycle sender kOffering kTransferring
| lc_sent : sender = true -> lifecycle sender kTransferring kCompleted
| lc_wait : sender = false -> lifecycle sender kConnecting kWaitingOffer
| lc_offered : sender = false -> lifecycle sender kWaitingOffer kTransferring
| lc_verifying : sender = false -> lifecycle sender kTransferring kVerifying
| lc_received a : sender = false -> a = kTransferring \/ a = kVerifying -> lifecycle sender a kCompleted
| lc_end a b : Terminal a = false -> b = kFailed \/ b = kCancelled -> lifecycle sender a b.

(** [walk sender a l b]: from [a], through the states [l], to [b]. *)
Inductive walk (sender : bool) : TransferState -> list TransferState -> TransferState -> Prop :=
| walk_stay a : walk sender a [] a
| walk_move a b l c : lifecycle sender a b -> walk sender b l c -> walk sender a (b :: l) c.

Lemma walk_app r a l b k c : walk r a l b -> walk r b k c -> walk r a (l ++ k) c.
Proof. induction 1 as [|a b' l b Hm _ IH]; intros H; [done|]. cbn. econstructor; [done|by apply IH]. Qed.

(** ** Steps that follow the machine *)

Definition present {A} (o : option A) : bool := match o with Some _ => true | None => false end.

Section spec.
Context `{JL : JsonLib} (sha : bytes -> bytes).
Implicit Types s : TransferSession.

Definition history s : list TransferState := (fun p => p.(state)) <$> states_of s.(eff_).

Definition goes s s' : Prop := s'.(is_sender_) = s.(is_sender_) /\
  exists l, history s' = history s ++ l /\ walk s.(is_sender_) s.(snap_).(state) l s'.(snap_).(state).

#[export] Instance goes_preorder : PreOrder goes.
Proof.
  split.
  - intros s. split; [done|]. exists []. rewrite app_nil_r. split; [done|constructor].
  - intros s1 s2 s3 [R1 (l1 & H1 & W1)] [R2 (l2 & H2 & W2)]. split; [congruence|]. exists (l1 ++ l2).
    rewrite H2, H1, app_assoc. split; [done|]. eapply walk_app; [done|]. by rewrite R1 in W2.
Qed.

(** A step that neither moves the transport, nor creates an engine, and changes the state only to end. *)
Record quiet s s' : Prop := {
  qu_goes : goes s s';
  qu_ready : s.(transport_ready_) = true -> s'.(transport_ready_) = true;
  qu_tx : present s'.(sender_) = present s.(sender_);
  qu_rx : present s'.(receiver_) = present s.(receiver_);
  qu_state : s'.(snap_).(state) = s.(snap_).(state) \/ Terminal s'.(snap_).(state) = true;
}.

#[export] Instance quiet_preorder : PreOrder quiet.
Proof.
  split; [intros s; split; try done; by left|]. intros s1 s2 s3 [A1 A2 A3 A4 A5] [B1 B2 B3 B4 B5].
  split; [by transitivity s2|auto|congruence|congruence|]. destruct B5 as [->|]; [|by right]. done.
Qed.

Lemma goes_same s s' : s'.(is_sender_) = s.(is_sender_) -> s'.(snap_).(state) = s.(snap_).(state) ->
  states_of s'.(eff_) = states_of s.(eff_) -> goes s s'.
Proof. intros R A B. split; [done|]. exists []. unfold history. rewrite A, B, app_nil_r. split; [done|constructor]. Qed.

Lemma quiet_same s s' : s'.(is_sender_) = s.(is_sender_) -> (s.(transport_ready_) = true -> s'.(transport_ready_) = true) ->
  present s'.(sender_) = present s.(sender_) -> present s'.(receiver_) = present s.(receiver_) ->
  s'.(snap_).(state) = s.(snap_).(state) -> states_of s'.(eff_) = states_of s.(eff_) -> quiet s s'.
Proof. intros A B C D E F. split; try done; [by apply goes_same|by left]. Qed.

Lemma states_of_snoc l e : (forall p, e <> OnState p) -> states_of (l ++ [e]) = states_of l.
Proof. intros He. unfold states_of. rewrite omap_app. destruct e; cbn; rewrite ?app_nil_r; try done. by destruct (He snap). Qed.

Lemma quiet_emit e s : (forall p, e <> OnState p) -> quiet s (emit e s).
Proof. intros He. apply quiet_same; try done. cbn. by apply states_of_snoc. Qed.

(** Reporting a state the machine allows. *)
Lemma goes_SetState st s :
  s.(snap_).(state) = st \/ Terminal s.(snap_).(state) = true \/ lifecycle s.(is_sender_) s.(snap_).(state) st ->
  goes s (SetState st s).
Proof.
  intros H. unfold SetState. case_if; [reflexivity|]. apply orb_false_iff in Heqb as [H1 H2].
  apply bool_decide_eq_false in H1. destruct H as [?|[?|H]]; [done|congruence|]. split; [done|]. exists [st].
  unfold history, emit, states_of. cbn. rewrite omap_app, fmap_app. split; [done|]. econstructor; [done|constructor].
Qed.

Lemma quiet_SetState st s :
  s.(snap_).(state) = st \/ Terminal s.(snap_).(state) = true \/ lifecycle s.(is_sender_) s.(snap_).(state) st ->
  Terminal st = true -> quiet s (SetState st s).
Proof.
  intros H Ht. split; [by apply goes_SetState| | | |]; unfold SetState; case_if; cbn; try done; [by left|by right].
Qed.

Lemma quiet_end st s : st = kFailed \/ st = kCancelled -> quiet s (SetState st s).
Proof.
  intros H. apply quiet_SetState; [|by destruct H; subst].
  destruct (Terminal (state (snap_ s))) eqn:E; [by right; left|]. right. right. by apply lc_end.
Qed.

Lemma quiet_progress f s : quiet s (EmitProgress f s).
Proof.
  assert (Hr : quiet s (read_progress s)) by (unfold read_progress; repeat case_match; by apply quiet_same).
  unfold EmitProgress. transitivity (read_progress s); [done|]. destruct f; [by apply quiet_emit|].
  unfold ScheduleProgress. case_if; [reflexivity|].
  transitivity (read_progress s <| progress_scheduled_ := true |>); [by apply quiet_same|by apply quiet_emit].
Qed.

Lemma quiet_call c s : quiet s (call_sender c s).
Proof. apply quiet_same; try done. cbn. by destruct (sender_ s). Qed.

Lemma quiet_stop s : quiet s (stop_engines s).
Proof. apply quiet_same; try done; cbn; [by destruct (sender_ s)|by destruct (receiver_ s)]. Qed.

Lemma quiet_receiver g s : quiet s (s <| receiver_ ::= fmap g |>).
Proof. apply quiet_same; try done. cbn. by destruct (receiver_ s). Qed.

Lemma quiet_SendCtrl m : calm quiet (SendCtrl m).
Proof. intros s s' H. unfold SendCtrl in H. apply bind_ret in H as (t & _ & H). apply ret_inj in H as <-. by apply quiet_emit. Qed.

Lemma quiet_persist st s : quiet s (PersistReceiver sha st s).
Proof. unfold PersistReceiver. case_if; [reflexivity|by apply quiet_emit]. Qed.

End spec.

#[export] Hint Resolve quiet_SendCtrl quiet_progress quiet_persist quiet_stop quiet_call quiet_receiver : session.
#[export] Hint Extern 1 (quiet _ (SetState _ _)) => apply quiet_end; tauto : session.
#[export] Hint Extern 1 (quiet _ (emit _ _)) => by apply quiet_emit : session.
#[export] Hint Extern 2 (quiet _ _) => by apply quiet_same : session.

Lemma quiet_Fail `{JL : JsonLib} c m : calm quiet (Fail c m).
Proof. intros s s' H. unfold Fail in H. handler H; [undo|]. handler E0; undo. Qed.
#[export] Hint Resolve quiet_Fail : session.

(** ** The phases of a session *)

Section phases.
Context `{JL : JsonLib} (sha : bytes -> bytes).
Implicit Types s : TransferSession.

(** Where a live session is: a sender transfers from the creation of its engine on, a receiver too. *)
Definition phase_ok s : Prop :=
  if s.(is_sender_) then
    s.(snap_).(state) = (if present s.(sender_) then kTransferring else kOffering)
  else if present s.(receiver_) then s.(snap_).(state) = kTransferring \/ s.(snap_).(state) = kVerifying
  else s.(snap_).(state) = kWaitingOffer.

Definition on_course s : Prop :=
  s.(transport_ready_) = true /\ (Terminal s.(snap_).(state) = true \/ phase_ok s).

Lemma quiet_course s s' : quiet s s' -> on_course s -> goes s s' /\ on_course s'.
Proof.
  intros [G R T X S] [Hr Hp]. split; [done|]. split; [auto|]. destruct S as [S|S]; [|by left]. rewrite S.
  destruct Hp as [Hp|Hp]; [by left|right]. unfold phase_ok in *. destruct G as [-> _]. by rewrite T, X, S.
Qed.

(** A quiet step after a step that is on course. *)
Lemma course_quiet s s' s'' : goes s s' /\ on_course s' -> quiet s' s'' -> goes s s'' /\ on_course s''.
Proof. intros [G C] Q. destruct (quiet_course _ _ Q C) as [G' C']. split; [by transitivity s'|done]. Qed.

(** A step to an ended state. *)
Lemma course_ended s s' : goes s s' -> s'.(transport_ready_) = true -> Terminal s'.(snap_).(state) = true ->
  goes s s' /\ on_course s'.
Proof. intros G R T. split; [done|]. split; [done|by left]. Qed.

Lemma SetState_fields st s : (SetState st s).(transport_ready_) = s.(transport_ready_) /\
  (SetState st s).(is_sender_) = s.(is_sender_) /\
  (SetState st s).(sender_) = s.(sender_) /\ (SetState st s).(receiver_) = s.(receiver_) /\
  (SetState st s).(snap_).(state) = if Terminal s.(snap_).(state) then s.(snap_).(state) else st.
Proof.
  unfold SetState. destruct (Terminal _) eqn:E; [by rewrite orb_true_r|]. rewrite orb_false_r. case_bool_decide; done.
Qed.

(** Entering a phase with [SetState]. *)
Lemma course_SetState st s t : goes s t -> t.(transport_ready_) = true ->
  t.(snap_).(state) = st \/ Terminal t.(snap_).(state) = true \/ lifecycle t.(is_sender_) t.(snap_).(state) st ->
  phase_ok (t <| snap_ ::= (fun p => p <| state := st |>) |>) -> goes s (SetState st t) /\ on_course (SetState st t).
Proof.
  intros G R Hl Hp. destruct (SetState_fields st t) as (A & B & C & D & E). split; [transitivity t; [done|by apply goes_SetState]|].
  split; [congruence|]. destruct (Terminal (state (snap_ t))) eqn:Et; [left; congruence|right].
  unfold phase_ok in *. cbn in Hp. by rewrite B, C, D, E.
Qed.

(** A session that fails after a step of other fields. *)
Lemma course_failed s t s' : goes s t -> t.(transport_ready_) = true -> quiet t s' -> Terminal s'.(snap_).(state) = true ->
  goes s s' /\ on_course s'.
Proof. intros G R Q T. apply course_ended; [transitivity t; [done|apply Q]|by apply (qu_ready _ _ Q)|done]. Qed.

Lemma Fail_ends c m s s' : Fail c m s = Ret s' -> Terminal s'.(snap_).(state) = true.
Proof.
  intros H. unfold Fail in H. destruct (Terminal (state (snap_ s))) eqn:E; [by apply ret_inj in H as <-|].
  apply bind_ret in H as (s1 & _ & H). apply ret_inj in H as <-.
  destruct (SetState_fields kFailed s1) as (_ & _ & _ & _ & ->). by destruct (Terminal (state (snap_ s1))) eqn:E1; rewrite ?E1.
Qed.

Lemma quiet_marks l s : quiet s (foldl mark_ok s l).
Proof. revert s. induction l as [|v l IH]; intros s; [reflexivity|]. transitivity (mark_ok s v); [by apply quiet_same|apply IH]. Qed.

(** *** The handlers that leave a phase *)

Lemma course_OnReceiverAllDone s : on_course s -> s.(is_sender_) = false -> receiver_finished s = true ->
  goes s (OnReceiverAllDone s) /\ on_course (OnReceiverAllDone s).
Proof.
  intros [Hr Hp] Hrole Hf. unfold OnReceiverAllDone. destruct (Terminal _) eqn:Et; [by split; [reflexivity|split; [|left]]|].
  destruct Hp as [?|Hp]; [congruence|]. unfold phase_ok in Hp. rewrite Hrole in Hp. unfold receiver_finished in Hf.
  destruct (receiver_ s) as [r|] eqn:Er; [|done]. cbn [present] in Hp. cbn zeta.
  assert (Hd : goes s (all_done s)) by by apply goes_same. case_if.
  - eapply course_quiet; [|apply quiet_progress]. apply course_SetState; [done|done| |].
    + destruct Hp as [Hp|Hp]; [right; right|by left]. unfold all_done. cbn. rewrite Hrole, Hp. by constructor.
    + unfold phase_ok. cbn. rewrite Hrole, Er. by right.
  - apply (course_quiet _ (SetState kCompleted (all_done s))); [|undo].
    apply course_ended; [|by rewrite (proj1 (SetState_fields kCompleted (all_done s)))|].
    + transitivity (all_done s); [done|]. apply goes_SetState. right. right. cbn. rewrite Hrole. by apply lc_received.
    + destruct (SetState_fields kCompleted (all_done s)) as (_ & _ & _ & _ & ->). cbn. by rewrite Et.
Qed.

Lemma course_OnSenderAllDone s s' : on_course s -> s.(is_sender_) = true -> present s.(sender_) = true ->
  OnSenderAllDone s = Ret s' -> goes s s' /\ on_course s'.
Proof.
  intros Hc Hrole He H. unfold OnSenderAllDone in H. handler H; [by split; [reflexivity|]|].
  assert (Hq : quiet s (all_done a)) by undo. destruct (quiet_course _ _ Hq Hc) as [G [R P]].
  eapply course_quiet; [|apply quiet_progress]. destruct (SetState_fields kCompleted (all_done a)) as (A & B & C & D & E1).
  assert (Hl : Terminal (state (snap_ (all_done a))) = true \/ state (snap_ (all_done a)) = kTransferring).
  { destruct P as [P|P]; [by left|right]. unfold phase_ok in P. by rewrite (proj1 G), Hrole, (qu_tx _ _ Hq), He in P. }
  apply course_ended; [transitivity (all_done a); [done|]|congruence|].
  - apply goes_SetState. right. destruct Hl as [Hl|Hl]; [by left|right]. rewrite Hl, (proj1 G), Hrole. by constructor.
  - rewrite E1. by destruct (Terminal (state (snap_ (all_done a)))) eqn:Ea; rewrite ?Ea.
Qed.

Lemma course_HandleAccept w j s s' : on_course s -> s.(accept_received_) = true \/ s.(sender_) = None ->
  HandleAccept w j s = Ret s' -> goes s s' /\ on_course s'.
Proof.
  intros Hc Hn H. unfold HandleAccept in H. destruct (is_sender_ s) eqn:Er; [|by apply ret_inj in H as <-].
  destruct (accept_received_ s) eqn:Ea; [by apply ret_inj in H as <-|]. destruct Hn as [?|Hn]; [done|]. cbn [negb orb] in H.
  apply bind_ret in H as ([have checked] & _ & H). cbn beta iota in H. destruct (Sender.Start _ _ _ _ _) as [err t].
  match type of H with match err with Some e => Fail _ e ?t1 | None => _ end = _ => set (s1 := t1) in * end.
  assert (G1 : goes s s1) by (apply goes_same; try done; by apply states_of_snoc).
  destruct Hc as [R P]. assert (P1 : Terminal (state (snap_ s)) = true \/ state (snap_ s) = kOffering).
  { destruct P as [P|P]; [by left|right]. unfold phase_ok in P. by rewrite Er, Hn in P. }
  destruct err as [e|].
  - apply (course_failed _ s1); [done|done|by eapply quiet_Fail|by eapply Fail_ends].
  - apply ret_inj in H as <-. set (s2 := foldl mark_ok s1 checked).
    destruct (marks_spec checked s1) as (_ & _ & _ & M4 & _ & _ & _ & M8 & M9). fold s2 in M4, M8, M9.
    assert (Hq : quiet s1 s2) by apply quiet_marks.
    eapply course_quiet; [|apply quiet_progress]. apply course_SetState.
    + transitivity s1; [done|]. apply Hq.
    + by apply (qu_ready _ _ Hq).
    + rewrite M4, M9. right. cbn. rewrite Er. destruct P1 as [P1|P1]; [by left|]. right. rewrite P1. by constructor.
    + unfold phase_ok. cbn. rewrite M4, M8. cbn. by rewrite Er.
Qed.

Lemma course_HandleOffer w rd j s s' : on_course s -> HandleOffer sha w rd j s = Ret s' -> goes s s' /\ on_course s'.
Proof.
  intros Hc H. unfold HandleOffer in H. destruct (is_sender_ s) eqn:Er; [by apply ret_inj in H as <-|].
  destruct (receiver_ s) eqn:Erx; [by apply ret_inj in H as <-|].
  assert (Hfail : forall t e m, quiet s t -> Fail e m t = Ret s' -> goes s s' /\ on_course s').
  { intros t e m Ht E. apply quiet_course; [|done]. transitivity t; [done|by eapply quiet_Fail]. }
  destruct (Json.find j "manifest"); [|by eapply Hfail]. destruct (FromJson j0) as [m|e|]; [|by eapply Hfail|done].
  destruct (zlen _ =? 0); [eapply Hfail; [|exact H]; by apply quiet_same|]. apply bind_ret in H as (st & _ & H).
  match type of H with (let '(_, _) := ?p in _) = _ => assert (Hs : exists l t, p = (l, t) /\ quiet s t /\ receiver_ t = None)
    by (destruct st; eexists _, _; split; try done; split; try done; by apply quiet_same) end.
  destruct Hs as (l & t & Ep & Q & Tr). rewrite Ep in H. cbn beta iota in H. apply bind_ret in H as (names & _ & H).
  destruct (Receiver.Start m _ names l _) as [err r].
  match type of H with match err with Some e => Fail _ e ?t1 | None => _ end = _ => set (s1 := t1) in * end.
  assert (G1 : goes s s1) by (transitivity t; [apply Q|apply goes_same; try done; by apply states_of_snoc]).
  destruct Hc as [R P]. assert (R1 : transport_ready_ s1 = true) by (by apply (qu_ready _ _ Q)).
  destruct err as [e|].
  - apply (course_failed _ s1); [done|done|by eapply quiet_Fail|by eapply Fail_ends].
  - apply bind_ret in H as (s2 & E2 & H). apply ret_inj in H as <-. pose proof (quiet_SendCtrl _ _ _ E2) as Q2.
    eapply course_quiet; [|apply quiet_progress].
    assert (Hst : state (snap_ s2) = state (snap_ t) /\ is_sender_ s2 = false /\ present (receiver_ s2) = true).
    { unfold SendCtrl in E2. apply bind_ret in E2 as (x & _ & E2). apply ret_inj in E2 as <-. split; [done|]. split; [|done].
      cbn. by rewrite (proj1 (qu_goes _ _ Q)). }
    destruct Hst as (S1 & S2 & S3). apply course_SetState.
    + transitivity s1; [done|]. apply Q2.
    + by apply (qu_ready _ _ Q2).
    + rewrite S1, S2. right. destruct (qu_state _ _ Q) as [->|?]; [|by left].
      destruct P as [P|P]; [by left|right]. unfold phase_ok in P. rewrite Er, Erx in P. cbn in P. rewrite P. by constructor.
    + unfold phase_ok. cbn. rewrite S2, S3. by left.
Qed.

(** *** The other handlers *)

Lemma quiet_HandleFileAck j ok s s' : HandleFileAck j ok s = Ret s' -> quiet s s'.
Proof. intros H. unfold HandleFileAck in H. handler H; undo. Qed.

Lemma course_OnCtrlMessage w rd text s s' : on_course s -> s.(accept_received_) = true \/ s.(sender_) = None ->
  OnCtrlMessage sha w rd text s = Ret s' -> goes s s' /\ on_course s'.
Proof.
  intros Hc Hn H. unfold OnCtrlMessage in H. destruct (ParseCtrlMessage text) as [[j type]|]; [|by apply ret_inj in H as <-].
  destruct (String.eqb type "offer"); [by eapply course_HandleOffer|]. destruct (String.eqb type "accept"); [by eapply course_HandleAccept|].
  assert (Hq : forall t, quiet s t -> goes s t /\ on_course t) by (intros; by apply quiet_course).
  destruct (String.eqb type "file_done").
  { apply Hq. unfold OnFileDoneMessage in H. handler H; undo. }
  destruct (String.eqb type "file_ok"); [exact (Hq _ (quiet_HandleFileAck _ _ _ _ H))|].
  destruct (String.eqb type "file_bad"); [exact (Hq _ (quiet_HandleFileAck _ _ _ _ H))|].
  destruct (String.eqb type "transfer_done").
  { destruct (is_sender_ s) eqn:Er; [by apply ret_inj in H as <-|]. apply ret_inj in H as <-.
    set (s1 := s <| sender_confirmed_ := true |>). assert (Q : quiet s s1) by by apply quiet_same.
    destruct (quiet_course _ _ Q Hc) as [G C]. cbn zeta. case_if; [|done].
    destruct (course_OnReceiverAllDone s1 C Er Heqb) as [G' C']. split; [by transitivity s1|done]. }
  apply Hq. handler H; undo.
Qed.

Lemma course_run_task m0 s t s' : sess_inv sha m0 s -> on_course s -> t ∈ tasks s ->
  run_task sha t (s <| posted_ ::= S |>) = Ret s' -> goes s s' /\ on_course s'.
Proof.
  intros Hi Hc Ht H. set (s1 := s <| posted_ ::= S |>) in *. assert (Q : quiet s s1) by by apply quiet_same.
  destruct (quiet_course _ _ Q Hc) as [G1 C1].
  assert (Hq : forall h, calm quiet h -> h s1 = Ret s' -> goes s s' /\ on_course s').
  { intros h Hh E. apply (course_quiet _ s1); [done|by apply Hh]. }
  assert (Hthen : goes s1 s' /\ on_course s' -> goes s s' /\ on_course s').
  { intros [G C]. split; [by transitivity s1|done]. }
  destruct t; cbn [run_task] in H.
  - apply (Hq (OnSenderFileDone index sha256)); [|done]. intros a b E. unfold OnSenderFileDone in E. handler E; undo.
  - apply Hthen. destruct (is_sender_ s) eqn:Er.
    + destruct (tasks_sender _ _ s _ Hi Er Ht) as (e & x & He & _). apply course_OnSenderAllDone; try done. cbn. by rewrite He.
    + destruct (tasks_receiver _ _ s _ Hi Er Ht) as (r & x & _ & _ & Hx). by destruct x.
  - by apply (Hq (Fail code message)); [apply quiet_Fail|].
  - apply (Hq (OnReceiverFileOk index)); [|done]. intros a b E. unfold OnReceiverFileOk in E. handler E; undo.
  - apply (Hq (OnReceiverFileVerified index false reason)); [|done]. intros a b E. unfold OnReceiverFileVerified in E. handler E; undo.
  - apply ret_inj in H as <-. apply Hthen. destruct (is_sender_ s) eqn:Er.
    + destruct (tasks_sender _ _ s _ Hi Er Ht) as (e & x & _ & _ & Hx). by destruct x.
    + destruct (tasks_receiver _ _ s _ Hi Er Ht) as (r & x & Hr & Hx & Hxt). destruct x; try done.
      apply course_OnReceiverAllDone; [done|done|]. unfold receiver_finished. cbn. rewrite Hr.
      destruct (si_receiver _ _ s Hi Er) as (_ & B & _). by apply (ReceiverDone.dn_all _ (B r Hr)).
  - apply ret_inj in H as <-. apply (course_quiet _ s1); [done|undo].
Qed.

(** No event but the loss of the transport leaves the course. *)
Lemma course_step m0 e s s' : sess_inv sha m0 s -> on_course s -> e <> TransportDown ->
  session_step sha s e = Ret s' -> goes s s' /\ on_course s'.
Proof.
  intros Hi Hc He H. assert (Hq : forall t, quiet s t -> goes s t /\ on_course t) by (intros; by apply quiet_course).
  destruct e; cbn [session_step] in H; try done.
  - apply Hq. unfold OnTransportReady in H. destruct Hc as [Hr _]. cbn in H. rewrite Hr in H. cbn in H.
    apply ret_inj in H as <-. undo.
  - apply ret_inj in H as <-. apply Hq. unfold OnPathChanged. undo.
  - unfold OnSessionEnd in H. handler H; [by split; [reflexivity|]| |by apply Hq; undo]. zbool.
    set (s1 := s <| sender_confirmed_ := true |>). assert (Q : quiet s s1) by by apply quiet_same.
    destruct (quiet_course _ _ Q Hc) as [G C]. destruct (course_OnReceiverAllDone s1 C) as [G' C']; try done.
  - eapply course_OnCtrlMessage; try done. destruct (is_sender_ s) eqn:Er.
    + destruct (accept_received_ s) eqn:Ea; [by left|right]. by apply (si_sender _ _ s Hi Er).
    + right. by apply (si_receiver _ _ s Hi Er).
  - apply Hq. unfold Pause in H. handler H; undo.
  - apply Hq. unfold Resume in H. handler H; undo.
  - apply Hq. unfold Cancel in H. handler H; undo.
  - destruct (tasks s !! posted_ s) as [t|] eqn:Et; [|by apply ret_inj in H as <-]. eapply course_run_task; try done.
    by eapply list_elem_of_lookup_2.
  - apply ret_inj in H as <-. apply Hq. unfold progress_task. undo.
  - apply ret_inj in H as <-. apply Hq. undo.
  - apply ret_inj in H as <-. apply Hq, quiet_same; try done. cbn. by destruct (sender_ s).
  - apply ret_inj in H as <-. apply Hq. undo.
Qed.

Lemma course_run m0 es s s' : sess_inv sha m0 s -> on_course s -> TransportDown ∉ es ->
  run_session sha s es = Ret s' -> goes s s'.
Proof.
  revert s. induction es as [|e es IH]; intros s Hi Hc Hd H; cbn [run_session] in H; [by apply ret_inj in H as <-|].
  apply bind_ret in H as (s1 & E & H). apply not_elem_of_cons in Hd as [Hne Hd].
  destruct (course_step m0 e s s1 Hi Hc (not_eq_sym Hne) E) as [G C]. transitivity s1; [done|]. apply IH; try done. by eapply inv_step.
Qed.

(** A session as it is created, with no engine. *)
Inductive fresh_session : TransferSession -> Prop :=
| fresh_sender tid sid m files : fresh_session (SetSenderInput m files (TransferSession_new tid sid "sender"))
| fresh_receiver tid sid save resume : fresh_session (SetReceiverInput save resume (TransferSession_new tid sid "receiver")).

Lemma fresh_ready s p s' : s.(transport_ready_) = false -> s.(offer_sent_) = false -> s.(snap_).(state) = kConnecting ->
  s.(sender_) = None -> s.(receiver_) = None -> session_step sha s (TransportReady p) = Ret s' -> goes s s' /\ on_course s'.
Proof.
  intros Hr Ho Hs Ht Hx H. cbn [session_step] in H. unfold OnTransportReady in H. cbn zeta in H.
  set (s1 := emit (LinkSetPath p) (s <| snap_ ::= (fun q => q <| path := p |>) |>) <| transport_ready_ := true |>) in *.
  change (transport_ready_ (emit _ _)) with (transport_ready_ s) in H. rewrite Hr in H. cbn [negb] in H.
  assert (Q : quiet s s1) by (apply quiet_same; try done; by apply states_of_snoc).
  change (is_sender_ s1) with (is_sender_ s) in H. destruct (is_sender_ s) eqn:Er.
  - unfold StartOffer in H. change (offer_sent_ s1) with (offer_sent_ s) in H. rewrite Ho in H. cbn [orb] in H.
    destruct (zlen (files_ s1) =? 0).
    + apply (course_failed _ s1); [apply Q|done|by eapply quiet_Fail|by eapply Fail_ends].
    + set (s2 := s1 <| offer_sent_ := true |>) in *. apply (course_quiet _ (SetState kOffering s2)); [|by eapply quiet_SendCtrl].
      apply course_SetState; [|done| |].
      * transitivity s1; [apply Q|by apply goes_same].
      * right; right. change (lifecycle (is_sender_ s) (state (snap_ s)) kOffering). rewrite Hs, Er. by constructor.
      * unfold phase_ok. cbn. by rewrite Er, Ht.
  - apply ret_inj in H as <-. apply course_SetState; [apply Q|done| |].
    + right; right. change (lifecycle (is_sender_ s) (state (snap_ s)) kWaitingOffer). rewrite Hs, Er. by constructor.
    + unfold phase_ok. cbn. by rewrite Er, Hx.
Qed.

Lemma inv_fresh s : fresh_session s -> exists m0, sess_inv sha m0 s.
Proof. destruct 1; [exists m; apply inv_sender_new|exists Manifest_default; apply inv_receiver_new]. Qed.

End phases.

(** ** Property *)

(** C5: The session refines the abstract machine of its role: from the moment the transport is ready, whatever the peer, the
    user, the engines and the timers do, and in whatever order, the states it reports to its owner are a path of
    [lifecycle] from [kConnecting] to its present state.  The transport is ready before anything else reaches a session,
    and it is never taken down: [core.cpp] has no call of [OnTransportDown]. *)
Theorem session_refines_lifecycle `{JL : JsonLib} sha s p es s' :
  fresh_session s -> TransportDown ∉ es -> run_session sha s (TransportReady p :: es) = Ret s' ->
  walk s.(is_sender_) kConnecting (history s') s'.(snap_).(state).
Proof.
  intros Hf Hd H. cbn [run_session] in H. apply bind_ret in H as (s1 & E & H).
  assert (Hn : goes s s1 /\ on_course s1) by (by apply (fresh_ready sha s p s1); destruct Hf). destruct Hn as [G C]. destruct (inv_fresh sha s Hf) as (m0 & Hi).
  pose proof (course_run sha m0 es s1 s' (inv_step _ _ _ _ _ Hi E) C Hd H) as G'.
  assert (Hg : goes s s') by (by transitivity s1). destruct Hg as [_ (l & Hl & W)].
  assert (Hs : history s = [] /\ state (snap_ s) = kConnecting) by (by destruct Hf). destruct Hs as [Hh Hs].
  rewrite Hh in Hl. rewrite Hs in W. by rewrite Hl.
Qed.

(** ** Witness *)

#[local] Existing Instance sample_json.

(** The receiving session of the examples: offered, verified, confirmed by the sender. *)
Lemma session_refines_lifecycle_witness :
  history (the rx_session rx_session_end) =
    [kWaitingOffer; kTransferring; kVerifying; kCompleted] /\
  walk false kConnecting [kWaitingOffer; kTransferring; kVerifying; kCompleted] kCompleted.
Proof.
  assert (H : returns (run_session ReceiverProofs.sample_sha rx_session rx_session_events) = true)
    by (vm_compute; reflexivity).
  pose proof (session_refines_lifecycle (JL := sample_json) ReceiverProofs.sample_sha rx_session MINIRTC_PATH_P2P (tl rx_session_events)
    (the rx_session rx_session_end) (fresh_receiver "t" "s" ReceiverProofs.sample_save (JT VNull))) as Hw.
  assert (Hh : history (the rx_session rx_session_end) =
    [kWaitingOffer; kTransferring; kVerifying; kCompleted]) by (vm_compute; reflexivity).
  assert (Hs : (the rx_session rx_session_end).(snap_).(state) = kCompleted)
    by (vm_compute; reflexivity).
  split; [exact Hh|]. rewrite <- Hh, <- Hs. apply Hw; [|exact (the_ret rx_session _ H)].
  clear. unfold rx_session_events. cbn [tl app]. intros Hd. apply list_elem_of_In in Hd. vm_compute in Hd. intuition discriminate.
Defined.
