(* ===== verification/Core.v ===== *)
(** * The core object ([core/src/api/core.{h,cpp}])

    [Core] owns the configuration, the signalling peer, the shares, the receives and the transfers, and
    ties the other components together: it turns the callbacks of the peer into calls of the sessions,
    the states of the sessions into states of shares and receives, and those into events for the user.
    A method of the loop thread is a computation in [core]: it reads and changes the [CoreState], it may
    raise, and what leaves the process is its [log_].  What the environment answers during a step (the
    library's results, the clock, the random generator, the file system) is the [Inputs] of the step.
    Tasks posted to the loop wait in [posted_] and may run at any later time ([core_step]). *)
From S2P Require Export Prelude.
From S2P Require Peer SessionLink TransferSession Config Storage TakeCode Paths Manifest FileIO Sender Receiver ReceiverProofs.
From S2P Require Import Json.
#[local] Existing Instances TransferSession.state_dec Peer.path_dec Peer.signal_dec Peer.claim_dec TransferSession.eta_Session TransferSession.eta_Snapshot Peer.eta_Peer Config.eta_Config FileIO.eta_World.
#[local] Open Scope Z_scope.

(** ** Data *)

Definition kLingerMs : Z := 1500.
Definition CT_OK : Z := 0.
Definition CT_ERR_INVALID_ARG : Z := -1.

(** Of [MiniRtcNetStats] the core reads [link.path]; the data sink of a session is its link, named by
    the owner number of its transfer. *)
Abbreviation NetStats := Peer.MiniRtcPath.
Abbreviation Peer := (@Peer.Peer Z).
Abbreviation PeerTask := (@Peer.PeerTask NetStats).

(** The handlers registered on a link. *)
Inductive LinkHandler := ToReceiver | ToSender.
Abbreviation SessionLink := (@SessionLink.SessionLink LinkHandler).

Section core.
Context `{JL : JsonLib} (EVP_sha256 : bytes -> bytes).
Context (CT_DEVELOPER_MODE : bool) (CT_SERVICE_HOST CT_LINK_HOST : string).

Record Share := mkShare {
  id : string; share_id : string; code : string; expires_at : Z; mode : string; ttl_sec : Z; state : string;
  error : string; paths : list string; manifest : Manifest.Manifest; files : list bytes;
  sessions : list (string * string); receivers : Z; completed : Z;
}.
#[export] Instance eta_Share : Eta Share := fun s => mkShare s.(id) s.(share_id) s.(code) s.(expires_at) s.(mode)
  s.(ttl_sec) s.(state) s.(error) s.(paths) s.(manifest) s.(files) s.(sessions) s.(receivers) s.(completed).
Definition Share_default : Share := mkShare "" "" "" 0 "" 0 "creating" "" [] Manifest.Manifest_default [] [] 0 0.

Record Receive := mkReceive {
  transfer_id : string; r_code : string; r_save_dir : string; resume_token : string; session_id : string;
  r_state : string; error_code : string; error_message : string; meta_json : string; record : json;
  created_at : Z; tried_token : bool; active : bool;
}.
#[export] Instance eta_Receive : Eta Receive := fun r => mkReceive r.(transfer_id) r.(r_code) r.(r_save_dir)
  r.(resume_token) r.(session_id) r.(r_state) r.(error_code) r.(error_message) r.(meta_json) r.(record)
  r.(created_at) r.(tried_token) r.(active).
Definition Receive_default : Receive := mkReceive "" "" "" "" "" "claiming" "" "" "" jnull 0 false false.

(** [owner] is the identity of [session]; [path_] is the link's. *)
Record Transfer := mkTransfer {
  session : TransferSession.TransferSession; link : SessionLink; path_ : Peer.MiniRtcPath;
  share_local_id : string; receive_id : string; closing : bool; owner : Z;
}.
#[export] Instance eta_Transfer : Eta Transfer := fun t => mkTransfer t.(session) t.(link) t.(path_)
  t.(share_local_id) t.(receive_id) t.(closing) t.(owner).

(** What leaves the core; [Ran] is no output but a history of the sessions for the theorems. *)
Inductive CoreEffect :=
| EventOut (ev : json)
| Rtc (c : Peer.RtcCall)
| Ran (session_id : string) (after : TransferSession.TransferSession).

(** The tasks posted to the loop; a task of the peer's callbacks names the peer it belongs to. *)
Inductive CoreTask :=
| TaskStart
| TaskPeer (gen : Z) (t : PeerTask)
| TaskShareCreate (id : string) (paths : list string) (mode : string) (ttl : Z)
| TaskShareClose (id : string)
| TaskReceiveStart (id code dir : string)
| TaskReceiveResume (id : string)
| TaskPause (id : string)
| TaskResume (id : string)
| TaskCancel (id : string)
| TaskUpdateConfig (next : Config.Config)
| TaskLinger (session_id : string) (owner : Z)
| TaskPump (owner : Z)
| TaskProgress (owner : Z).

(** What the environment answers during a step: the results of MiniRTC, the clock, the random
    generator, the files to share, the disk the engines see and the random device. *)
Record Inputs := mkInputs {
  in_rc : list Z; in_now : list Z; in_rng : list Z; in_fs : Manifest.FileSystem; in_world : FileIO.World; in_rd : Z;
}.
#[export] Instance eta_Inputs : Eta Inputs := fun i => mkInputs i.(in_rc) i.(in_now) i.(in_rng) i.(in_fs) i.(in_world) i.(in_rd).

(** [listening_] is whether an event callback is set, [disk_] the disk of the storage, [gen_] numbers the
    peers and [next_owner_] the sessions. *)
Record CoreState := mkCore {
  cfg_ : Config.Config;
  data_dir_ : bytes;
  disk_ : FileIO.World;
  listening_ : bool;
  peer_ : option Peer;
  gen_ : Z;
  peer_id_ : string;
  signal_connected_ : bool;
  notifications_ : json;
  shares_ : list (string * Share);
  share_create_queue_ : list string;
  share_create_inflight_ : bool;
  receives_ : list (string * Receive);
  claim_queue_ : list string;
  claim_inflight_ : bool;
  transfers_ : list (string * Transfer);
  transfer_ids_ : list (string * string);
  last_persist_ms_ : Z;
  next_owner_ : Z;
  posted_ : list CoreTask;
  log_ : list CoreEffect;
  env_ : Inputs;
}.
#[export] Instance eta_Core : Eta CoreState := fun s => mkCore s.(cfg_) s.(data_dir_) s.(disk_) s.(listening_) s.(peer_)
  s.(gen_) s.(peer_id_) s.(signal_connected_) s.(notifications_) s.(shares_) s.(share_create_queue_)
  s.(share_create_inflight_) s.(receives_) s.(claim_queue_) s.(claim_inflight_) s.(transfers_) s.(transfer_ids_)
  s.(last_persist_ms_) s.(next_owner_) s.(posted_) s.(log_) s.(env_).

(** ** Computations of the loop thread *)

Definition core (A : Type) : Type := CoreState -> outcome (A * CoreState).
#[export] Instance core_ret : MRet core := fun A a s => Ret (a, s).
#[export] Instance core_bind : MBind core := fun A B f m s => '(a, s) ← m s; f a s.

Definition gets {A} (f : CoreState -> A) : core A := fun s => Ret (f s, s).
Definition modify (f : CoreState -> CoreState) : core unit := fun s => Ret (tt, f s).
Definition raise {A} : core A := fun _ => Throw.
Definition of_outcome {A} (o : outcome A) : core A := fun s => a ← o; Ret (a, s).
Definition skip : core unit := mret tt.
Definition when (b : bool) (m : core unit) : core unit := if b then m else skip.
Fixpoint for_each {A} (l : list A) (f : A -> core unit) : core unit :=
  match l with [] => skip | x :: l => _ ← f x; for_each l f end.

Definition output (e : CoreEffect) : core unit := modify (fun s => s <| log_ ::= (fun l => l ++ [e]) |>).
Definition post (t : CoreTask) : core unit := modify (fun s => s <| posted_ ::= (fun l => l ++ [t]) |>).

(** The next answer of the environment; 0 when it has none. *)
Definition ask (tape : Inputs -> list Z) (rest : list Z -> Inputs -> Inputs) : core Z :=
  a ← gets (fun s => default 0 (head (tape s.(env_))));
  _ ← modify (fun s => s <| env_ ::= rest (tl (tape s.(env_))) |>);
  mret a.
Definition ask_rc : core Z := ask in_rc (fun l i => i <| in_rc := l |>).
Definition NowMs : core Z := ask in_now (fun l i => i <| in_now := l |>).
Definition rng : core Z := ask in_rng (fun l i => i <| in_rng := l |>).

Definition kHex : bytes := sbytes "0123456789abcdef".
Fixpoint RandomHex (bytes : nat) : core string :=
  match bytes with
  | O => mret ""%string
  | S n => r ← rng; let v := u8 r in rest ← RandomHex n;
           mret (of_sbytes [znth kHex (Z.shiftr v 4); znth kHex (Z.land v 0xF)] +:+ rest)
  end.
Definition NewId (prefix : string) : core string := hex ← RandomHex 6; mret (prefix +:+ hex).

(** An event: its members and the time stamp. *)
Definition Emit (ev : list (string * json)) : core unit :=
  ts ← NowMs;
  on ← gets listening_;
  when on (let e := jobj (ev ++ [("ts"%string, jint ts)]) in
           _ ← of_outcome (dump (-1) e); output (EventOut e)).

(** [peer_->op(...)]: a null dereference when there is no peer. *)
Definition the_peer (op : Z -> Peer -> Z * list Peer.RtcCall) : core Z :=
  p ← gets peer_;
  match p with
  | None => raise
  | Some p => rc ← ask_rc; let '(r, cs) := op rc p in _ ← for_each cs (fun c => output (Rtc c)); mret r
  end.
Definition has_peer : core bool := gets (fun s => match s.(peer_) with Some _ => true | None => false end).
(** [if (peer_) peer_->op(...)] *)
Definition if_peer (op : Z -> Peer -> Z * list Peer.RtcCall) : core unit :=
  b ← has_peer; when b (_ ← the_peer op; skip).

(** The entries of the maps. *)
Definition share_at (k : string) : core (option Share) := gets (fun s => sm_find k s.(shares_)).
Definition set_share (k : string) (v : Share) : core unit := modify (fun s => s <| shares_ ::= sm_set k v |>).
Definition upd_share (k : string) (f : Share -> Share) : core unit :=
  v ← share_at k; match v with Some v => set_share k (f v) | None => skip end.
Definition receive_at (k : string) : core (option Receive) := gets (fun s => sm_find k s.(receives_)).
Definition set_receive (k : string) (v : Receive) : core unit := modify (fun s => s <| receives_ ::= sm_set k v |>).
Definition upd_receive (k : string) (f : Receive -> Receive) : core unit :=
  v ← receive_at k; match v with Some v => set_receive k (f v) | None => skip end.
Definition transfer_at (k : string) : core (option Transfer) := gets (fun s => sm_find k s.(transfers_)).
Definition set_transfer (k : string) (v : Transfer) : core unit := modify (fun s => s <| transfers_ ::= sm_set k v |>).
Definition upd_transfer (k : string) (f : Transfer -> Transfer) : core unit :=
  v ← transfer_at k; match v with Some v => set_transfer k (f v) | None => skip end.

(** A pointer into a map, where it was taken: the key and the value.
    [for (auto& [k, v] : m) if (p(v)) return &v;] *)
Fixpoint first_entry {V} (p : V -> bool) (m : list (string * V)) : option (string * V) :=
  match m with [] => None | (k, v) :: m => if p v then Some (k, v) else first_entry p m end.
(** The entry the loop [for (auto& [_, v] : m) if (p(v) && (!best || better(v, *best))) best = &v] keeps. *)
Fixpoint best_entry {V} (p : V -> bool) (better : V -> V -> bool) (best : option (string * V)) (m : list (string * V))
  : option (string * V) :=
  match m with
  | [] => best
  | (k, v) :: m =>
      best_entry p better
        (if p v && match best with Some (_, b) => better v b | None => true end then Some (k, v) else best) m
  end.

Definition is_one_of (s : string) (l : list string) : bool := existsb (String.eqb s) l.

(** *** Events of shares and receives *)

Definition Format_ (code : string) : string := of_sbytes (TakeCode.Format (sbytes code)).
Definition link_of (link_host code : string) : string :=
  of_sbytes (if String.eqb link_host "" then TakeCode.MakeSchemeLink (sbytes code)
             else TakeCode.MakeHttpsLink (sbytes link_host) (sbytes code)).

Definition EmitShare (s : Share) : core unit :=
  host ← gets (fun c => c.(cfg_).(Config.link_host));
  Emit [("type", jstr "share_state"); ("id", jstr s.(id)); ("share_id", jstr s.(share_id)); ("state", jstr s.(state));
        ("mode", jstr s.(mode)); ("code", jstr (if String.eqb s.(code) "" then "" else Format_ s.(code)));
        ("link", jstr (link_of host s.(code))); ("scheme_link", jstr (of_sbytes (TakeCode.MakeSchemeLink (sbytes s.(code)))));
        ("expires_at", jint s.(expires_at)); ("files", juns (zlen s.(manifest).(Manifest.files)));
        ("bytes", juns s.(manifest).(Manifest.total_bytes)); ("receivers", jint s.(receivers));
        ("completed", jint s.(completed)); ("error", jstr s.(error))]%string.
(** [EmitShare(shares_[k])] *)
Definition emit_share_at (k : string) : core unit :=
  v ← share_at k; match v with Some v => EmitShare v | None => skip end.

Definition EmitReceive (r : Receive) : core unit :=
  let ev := [("type", jstr "receive_state"); ("transfer_id", jstr r.(transfer_id)); ("code", jstr (Format_ r.(r_code)));
             ("state", jstr r.(r_state)); ("save_dir", jstr r.(r_save_dir)); ("session_id", jstr r.(session_id));
             ("resumable", jbool (negb (String.eqb r.(resume_token) ""))); ("error_code", jstr r.(error_code));
             ("error_message", jstr r.(error_message))]%string in
  let meta := parse r.(meta_json) in
  Emit (if negb (String.eqb r.(meta_json) "") && negb (is_discarded meta) then ev ++ [("meta"%string, meta)] else ev).
Definition emit_receive_at (k : string) : core unit :=
  v ← receive_at k; match v with Some v => EmitReceive v | None => skip end.

Definition receive_doc (r : Receive) : json :=
  jobj [("transfer_id", jstr r.(transfer_id)); ("code", jstr r.(r_code)); ("save_dir", jstr r.(r_save_dir));
        ("resume_token", jstr r.(resume_token)); ("state", jstr r.(r_state)); ("error_code", jstr r.(error_code));
        ("created_at", jint r.(created_at)); ("meta", jstr r.(meta_json)); ("record", r.(record))]%string.
Definition unfinished (r : Receive) : bool := negb (String.eqb r.(r_state) "completed" || String.eqb r.(r_state) "cancelled").
Definition receives_array (m : list (string * Receive)) : json :=
  jarr (receive_doc <$> List.filter unfinished (snd <$> m)).

(** A failed save is only logged. *)
Definition SaveReceives : core unit :=
  s ← gets (fun s => s);
  '(_, w) ← of_outcome (Storage.SaveReceives s.(data_dir_) (receives_array s.(receives_)) s.(disk_));
  modify (fun s => s <| disk_ := w |>).

Definition FinishReceive (k state code message : string) : core unit :=
  _ ← upd_receive k (fun r => r <| r_state := state |> <| error_code := code |> <| error_message := message |> <| active := false |>);
  _ ← emit_receive_at k;
  SaveReceives.

(** One element of transfers.json. *)
Definition load_receive (m : list (string * Receive)) (j : json) : outcome (list (string * Receive)) :=
  if negb (is_object j) then Ret m else
  tid ← value_ get_string j "transfer_id" ""%string;
  code ← value_ get_string j "code" ""%string;
  dir ← value_ get_string j "save_dir" ""%string;
  token ← value_ get_string j "resume_token" ""%string;
  err ← value_ get_string j "error_code" ""%string;
  created ← value_ get_i64 j "created_at" 0;
  meta ← value_ get_string j "meta" ""%string;
  let r := Receive_default <| transfer_id := tid |> <| r_code := code |> <| r_save_dir := dir |> <| resume_token := token |>
             <| r_state := "interrupted"%string |> <| error_code := err |> <| created_at := created |> <| meta_json := meta |>
             <| record := default jnull (find j "record") |> in
  Ret (if String.eqb tid "" || String.eqb code "" then m else sm_set tid r m).
Fixpoint load_receives (js : list json) (m : list (string * Receive)) : outcome (list (string * Receive)) :=
  match js with [] => Ret m | j :: js => m ← load_receive m j; load_receives js m end.

Definition LoadReceives : core unit :=
  s ← gets (fun s => s);
  let '(js, w) := Storage.LoadReceives s.(data_dir_) s.(disk_) in
  m ← of_outcome (load_receives (elements_of js) s.(receives_));
  modify (fun s => s <| disk_ := w |> <| receives_ := m |>).

(** *** The peer *)

(** The result is the error, [None] on success. *)
Definition EnsurePeer : core (option string) :=
  s ← gets (fun s => s);
  match s.(peer_) with
  | Some _ => mret None
  | None =>
      if String.eqb s.(cfg_).(Config.server_host) "" then mret (Some "server host not configured"%string) else
      created ← ask_rc; connected ← ask_rc;
      let '(err, calls, p) := Peer.Connect (created =? 0) connected (Peer.Peer_new (Config.ToPeerConfig s.(cfg_))) in
      _ ← for_each calls (fun c => output (Rtc c));
      _ ← modify (fun s => s <| gen_ ::= (fun n => n + 1) |> <| peer_ := match err with None => Some p | Some _ => None end |>);
      mret err
  end.
Definition emit_peer_error (err : option string) : core unit :=
  match err with
  | None => skip
  | Some e => Emit [("type", jstr "error"); ("code", jstr "peer"); ("message", jstr e)]%string
  end.

(** The posted part of [Start]. *)
Definition Start : core unit :=
  _ ← LoadReceives;
  host ← gets (fun s => s.(cfg_).(Config.server_host));
  if String.eqb host "" then skip else
  err ← EnsurePeer; emit_peer_error err.

Definition close_peer : core unit :=
  p ← gets peer_;
  match p with
  | None => skip
  | Some p => let '(cs, p) := Peer.Close p in
              _ ← for_each cs (fun c => output (Rtc c)); modify (fun s => s <| peer_ := Some p |>)
  end.

(** *** Sessions: the callbacks *)

(** [(bytes_total - bytes_done) * 8 / rate_bps] is unsigned. *)
Definition eta_sec (p : TransferSession.TransferSnapshot) : Z :=
  if (0 <? p.(TransferSession.rate_bps)) && (p.(TransferSession.bytes_done) <? p.(TransferSession.bytes_total))
  then i64 (u64 ((p.(TransferSession.bytes_total) - p.(TransferSession.bytes_done)) * 8) / p.(TransferSession.rate_bps))
  else -1.

Definition snapshot_json (share : string) (p : TransferSession.TransferSnapshot) : list (string * json) :=
  [("transfer_id", jstr p.(TransferSession.transfer_id)); ("session_id", jstr p.(TransferSession.session_id));
   ("share_id", jstr share); ("role", jstr p.(TransferSession.role));
   ("state", jstr (TransferSession.TransferStateName p.(TransferSession.state)));
   ("error_code", jstr p.(TransferSession.error_code)); ("error_message", jstr p.(TransferSession.error_message));
   ("path", jstr (Peer.PathName p.(TransferSession.path))); ("bytes_total", juns p.(TransferSession.bytes_total));
   ("bytes_done", juns p.(TransferSession.bytes_done)); ("files_total", juns p.(TransferSession.files_total));
   ("files_done", juns p.(TransferSession.files_done)); ("rate_bps", jint p.(TransferSession.rate_bps));
   ("loss_permille", juns p.(TransferSession.loss_permille)); ("current_file", jint p.(TransferSession.current_file));
   ("eta_sec", jint (eta_sec p))]%string.
Definition SnapshotJson (p : TransferSession.TransferSnapshot) : core (list (string * json)) :=
  t ← transfer_at p.(TransferSession.session_id);
  mret (snapshot_json (match t with Some t => t.(share_local_id) | None => "" end) p).

Definition OnTransferProgress (p : TransferSession.TransferSnapshot) : core unit :=
  ev ← SnapshotJson p; Emit (ev ++ [("type", jstr "transfer_progress")]%string).

Definition FindReceiveBySession (sid : string) : core (option (string * Receive)) :=
  gets (fun s => first_entry (fun r => String.eqb r.(session_id) sid && r.(active)) s.(receives_)).
Definition FindShareBySession (sid : string) : core (option (string * Share)) :=
  gets (fun s => first_entry (fun sh => match sm_find sid sh.(sessions) with Some _ => true | None => false end) s.(shares_)).
Definition FindShareByServerId (share : string) : core (option (string * Share)) :=
  gets (fun s => first_entry (fun sh => String.eqb sh.(share_id) share) s.(shares_)).

Definition terminal (st : TransferSession.TransferState) : bool :=
  bool_decide (st = TransferSession.kCompleted) || bool_decide (st = TransferSession.kFailed) || bool_decide (st = TransferSession.kCancelled).

(** A sending session ended: what becomes of its share. *)
Definition share_after (p : TransferSession.TransferSnapshot) (s : Share) : Share :=
  let done := bool_decide (p.(TransferSession.state) = TransferSession.kCompleted) in
  let s := s <| sessions ::= sm_erase p.(TransferSession.session_id) |> in
  let s := if done then s <| completed ::= (fun n => i32 (n + 1)) |> else s in
  if String.eqb s.(mode) "once" then
    (if done then s <| state := "completed"%string |>
     else if negb (String.eqb s.(state) "closed")
     then s <| state := "claimed"%string |> <| error := p.(TransferSession.error_code) |> else s)
  else match s.(sessions) with [] => s <| state := "ready"%string |> | _ => s end.

(** The receive after a state of its session. *)
Definition receive_after (p : TransferSession.TransferSnapshot) (r : Receive) : Receive :=
  let r := r <| r_state := TransferSession.TransferStateName p.(TransferSession.state) |> in
  if negb (terminal p.(TransferSession.state)) then r else
  let r := r <| error_code := p.(TransferSession.error_code) |> <| error_message := p.(TransferSession.error_message) |>
             <| active := false |> in
  if bool_decide (p.(TransferSession.state) = TransferSession.kCompleted) || bool_decide (p.(TransferSession.state) = TransferSession.kCancelled)
  then r <| record := jnull |> <| resume_token := ""%string |> else r.

Definition sender_state (p : TransferSession.TransferSnapshot) (share_key : string) : core unit :=
  sh ← share_at share_key;
  match sh with
  | None => skip
  | Some sh =>
      if negb (terminal p.(TransferSession.state)) then skip else
      let after := share_after p sh in
      _ ← set_share share_key after;
      connected ← gets signal_connected_;
      _ ← when (String.eqb sh.(mode) "once" && bool_decide (p.(TransferSession.state) = TransferSession.kCompleted)
                && connected && negb (String.eqb sh.(share_id) ""))
            (if_peer (Peer.CloseShare sh.(share_id)));
      EmitShare after
  end.
Definition receiver_state (p : TransferSession.TransferSnapshot) : core unit :=
  e ← FindReceiveBySession p.(TransferSession.session_id);
  match e with
  | None => skip
  | Some (k, r) =>
      let r := receive_after p r in
      _ ← set_receive k r; _ ← EmitReceive r;
      when (terminal p.(TransferSession.state)) SaveReceives
  end.

Definition LingerThenDrop (sid : string) (owner : Z) : core unit := post (TaskLinger sid owner).

Definition OnTransferState (p : TransferSession.TransferSnapshot) : core unit :=
  ev ← SnapshotJson p;
  _ ← Emit (ev ++ [("type", jstr "transfer_state")]%string);
  t ← transfer_at p.(TransferSession.session_id);
  _ ← (if String.eqb p.(TransferSession.role) "sender"
       then match t with Some t => sender_state p t.(share_local_id) | None => skip end
       else receiver_state p);
  match t with
  | Some t =>
      when (terminal p.(TransferSession.state) && negb t.(closing))
        (_ ← upd_transfer p.(TransferSession.session_id) (fun t => t <| closing := true |>);
         LingerThenDrop p.(TransferSession.session_id) t.(owner))
  | None => skip
  end.

(** The callback [on_persist] of a receiving session. *)
Definition OnPersist (tid : string) (r : json) : core unit :=
  v ← receive_at tid;
  match v with
  | None => skip
  | Some v =>
      _ ← set_receive tid (v <| record := r |>);
      now ← NowMs;
      last ← gets last_persist_ms_;
      when (is_null r || (1000 <? now - last)) (_ ← modify (fun s => s <| last_persist_ms_ := now |>); SaveReceives)
  end.

(** *** Links *)

(** The transport a link sees: the peer, its answers and the calls made. *)
Definition Transport : Type := option Peer * list Z * list Peer.RtcCall.
Definition link_Send (t : Transport) (sid stream : string) (data : bytes) : Z * Transport :=
  let '(p, rcs, calls) := t in
  match p with
  | None => (-1, t)
  | Some q => let '(r, cs) := Peer.Send sid stream data (default 0 (head rcs)) q in (r, (p, tl rcs, calls ++ cs))
  end.

(** Outside the link: the posts of its pump and its registration as a data sink. *)
Definition link_effect (sid : string) (owner : Z) (e : @SessionLink.LinkEffect LinkHandler) : core unit :=
  match e with
  | SessionLink.PostPump _ => post (TaskPump owner)
  | SessionLink.SetDataSink => modify (fun s => s <| peer_ ::= fmap (Peer.SetDataSink sid owner) |>)
  | SessionLink.RemoveDataSink => modify (fun s => s <| peer_ ::= fmap (Peer.RemoveDataSink sid owner) |>)
  | SessionLink.PeerSend _ _ | SessionLink.LogGaveUp | SessionLink.CallHandler _ _ | SessionLink.CallFail _ => skip
  end.
(** An operation of the link of a transfer. *)
Definition on_link (sid : string) (op : SessionLink -> list (@SessionLink.LinkEffect LinkHandler) * SessionLink) : core unit :=
  t ← transfer_at sid;
  match t with
  | None => skip
  | Some t => let '(eff, l) := op t.(link) in
              _ ← set_transfer sid (t <| link := l |>); for_each eff (link_effect sid t.(owner))
  end.

(** The pump of a link runs. *)
Definition pump (sid : string) : core unit :=
  t ← transfer_at sid;
  match t with
  | None => skip
  | Some t =>
      s ← gets (fun s => s);
      let '(eff, l, (_, rcs, calls)) := SessionLink.pump_task link_Send (s.(peer_), s.(env_).(in_rc), []) t.(link) in
      _ ← set_transfer sid (t <| link := l |>);
      _ ← modify (fun s => s <| env_ ::= (fun i => i <| in_rc := rcs |>) |>);
      _ ← for_each calls (fun c => output (Rtc c));
      for_each eff (link_effect sid t.(owner))
  end.

(** *** Sessions: the calls *)

(** A callback of the session, or a call it makes to its link or the loop. *)
Definition session_effect (sid tid : string) (owner : Z) (e : TransferSession.SessEffect) : core unit :=
  match e with
  | TransferSession.OnState p => OnTransferState p
  | TransferSession.OnProgress p => OnTransferProgress p
  | TransferSession.OnPersistRecord r => OnPersist tid r
  | TransferSession.LinkSendCtrl msg => text ← of_outcome (dump (-1) msg); on_link sid (SessionLink.SendCtrl (sbytes text) None)
  | TransferSession.LinkSetPath p => upd_transfer sid (fun t => t <| path_ := p |>)
  | TransferSession.LinkSetSackHandler => on_link sid (fun l => ([], SessionLink.SetSackHandler (Some ToSender) l))
  | TransferSession.LinkSetBlockHandler => on_link sid (fun l => ([], SessionLink.SetBlockHandler (Some ToReceiver) l))
  | TransferSession.LinkDetach => on_link sid SessionLink.Detach
  | TransferSession.PostProgress _ => post (TaskProgress owner)
  end.

(** [session->f()]: the method, then its effects in their order. *)
Definition call_session (sid : string) (f : TransferSession.TransferSession -> outcome TransferSession.TransferSession) : core unit :=
  t ← transfer_at sid;
  match t with
  | None => skip
  | Some t =>
      s' ← of_outcome (f (t.(session) <| TransferSession.eff_ := [] |>));
      _ ← set_transfer sid (t <| session := s' |>);
      _ ← output (Ran sid s');
      for_each s'.(TransferSession.eff_)
        (session_effect sid s'.(TransferSession.snap_).(TransferSession.transfer_id) t.(owner))
  end.

Definition MakeSession (sid role tid : string) : core unit :=
  own ← gets next_owner_;
  let t := mkTransfer (TransferSession.TransferSession_new tid sid role) (SessionLink.SessionLink_new sid)
             Peer.MINIRTC_PATH_UNKNOWN "" "" false own in
  _ ← modify (fun s => s <| next_owner_ ::= (fun n => n + 1) |> <| transfers_ ::= sm_set sid t |> <| transfer_ids_ ::= sm_set tid sid |>);
  on_link sid SessionLink.Attach.

(** The destruction of the session takes its link off the peer and stops its engines. *)
Definition DropTransfer (sid : string) : core unit :=
  t ← transfer_at sid;
  match t with
  | None => skip
  | Some t =>
      _ ← modify (fun s => s <| transfer_ids_ ::= sm_erase t.(session).(TransferSession.snap_).(TransferSession.transfer_id) |>);
      _ ← on_link sid SessionLink.Detach;
      modify (fun s => s <| transfers_ ::= sm_erase sid |>)
  end.
(** [transfers_.clear(); transfer_ids_.clear();] *)
Definition clear_transfers : core unit :=
  ks ← gets (fun s => fst <$> s.(transfers_));
  _ ← for_each ks (fun k => on_link k SessionLink.Detach);
  modify (fun s => s <| transfers_ := [] |> <| transfer_ids_ := [] |>).

(** *** Shares *)

Definition finished_share (s : Share) : bool := is_one_of s.(state) ["completed"; "closed"; "failed"]%string.

Definition CloseShareInternal (k st reason : string) : core unit :=
  sh ← share_at k;
  match sh with
  | None => skip
  | Some sh =>
      if finished_share sh then skip else
      connected ← gets signal_connected_;
      _ ← when (negb (String.eqb sh.(share_id) "") && connected) (if_peer (Peer.CloseShare sh.(share_id)));
      _ ← for_each sh.(sessions) (fun e => call_session e.1 (TransferSession.Cancel reason));
      _ ← upd_share k (fun s => s <| state := st |> <| error := reason |>);
      emit_share_at k
  end.

Definition share_meta (m : Manifest.Manifest) : json :=
  jobj [("files", juns (zlen m.(Manifest.files))); ("bytes", juns m.(Manifest.total_bytes));
        ("name", jstr (match m.(Manifest.roots) with r :: _ => r.(Manifest.name) | [] => "" end));
        ("roots", juns (zlen m.(Manifest.roots)))]%string.

(** [PumpShareCreates] and [DoShareCreate] call each other; each round takes an element off the
    queue, so its length is fuel enough. *)
Fixpoint pump_shares (fuel : nat) : core unit :=
  s ← gets (fun s => s);
  match s.(share_create_queue_) with
  | [] => skip
  | k :: rest =>
      if s.(share_create_inflight_) || negb s.(signal_connected_) then skip else
      match fuel with
      | O => skip
      | S fuel =>
          _ ← modify (fun s => s <| share_create_queue_ := rest |>);
          match sm_find k s.(shares_) with
          | Some sh =>
              if negb (String.eqb sh.(state) "creating") then pump_shares fuel else
              meta ← of_outcome (dump (-1) (share_meta sh.(manifest)));
              rc ← the_peer (Peer.CreateShare sh.(mode) sh.(ttl_sec) meta);
              if negb (rc =? 0) then
                (_ ← upd_share k (fun s => s <| state := "failed"%string |> <| error := "create_share send failed"%string |>);
                 _ ← emit_share_at k; pump_shares fuel)
              else modify (fun s => s <| share_create_inflight_ := true |>)
          | None => pump_shares fuel
          end
      end
  end.
Definition PumpShareCreates : core unit :=
  n ← gets (fun s => length s.(share_create_queue_)); pump_shares n.

(** The share a [share_created] or [create failed] is taken to answer. *)
Definition creating (s : Share) : bool := String.eqb s.(state) "creating" && String.eqb s.(share_id) "".

Definition OnShareEvent (ev : Peer.MiniRtcShareEvent) (share server_code : string) (expires : Z) (detail : string) : core unit :=
  match ev with
  | Peer.MINIRTC_SHARE_CREATED =>
      _ ← modify (fun s => s <| share_create_inflight_ := false |>);
      target ← gets (fun s => first_entry creating s.(shares_));
      match target with
      | None => _ ← the_peer (Peer.CloseShare share); skip
      | Some (k, _) =>
          _ ← upd_share k (fun s => s <| share_id := share |> <| code := of_sbytes (TakeCode.Normalize (sbytes server_code)) |>
                                      <| expires_at := expires |> <| state := "ready"%string |>);
          _ ← emit_share_at k;
          PumpShareCreates
      end
  | Peer.MINIRTC_SHARE_FAILED =>
      _ ← modify (fun s => s <| share_create_inflight_ := false |>);
      target ← gets (fun s => first_entry creating s.(shares_));
      _ ← match target with
          | None => skip
          | Some (k, _) => _ ← upd_share k (fun s => s <| state := "failed"%string |> <| error := detail |>); emit_share_at k
          end;
      PumpShareCreates
  | Peer.MINIRTC_SHARE_CLAIMED =>
      target ← FindShareByServerId share;
      match target with
      | None => skip
      | Some (k, _) =>
          _ ← upd_share k (fun s =>
            let s := s <| receivers ::= (fun n => i32 (n + 1)) |> in
            let s := if String.eqb detail "" then s else s <| sessions ::= sm_set detail ""%string |> in
            if String.eqb s.(state) "ready" then s <| state := "claimed"%string |> else s);
          emit_share_at k
      end
  | Peer.MINIRTC_SHARE_CLOSED =>
      target ← FindShareByServerId share;
      match target with
      | None => skip
      | Some (k, sh) =>
          if finished_share sh then skip else
          match sh.(sessions) with
          | [] => CloseShareInternal k "closed" detail
          | _ => _ ← upd_share k (fun s => s <| error := detail |>); emit_share_at k
          end
      end
  end.

(** The task of [ShareClose]. *)
Definition do_ShareClose (k : string) : core unit :=
  sh ← share_at k;
  match sh with
  | Some _ => CloseShareInternal k "closed" "user"
  | None =>
      by_server ← FindShareByServerId k;
      match by_server with Some (k, _) => CloseShareInternal k "closed" "user" | None => skip end
  end.

(** The task of [ShareCreate]. *)
Definition do_ShareCreate (k : string) (ps : list string) (md : string) (ttl : Z) : core unit :=
  i ← gets env_;
  let s := Share_default <| id := k |> <| mode := md |> <| ttl_sec := ttl |> <| paths := ps |> in
  match Manifest.BuildManifest i.(in_fs) ps with
  | Raise => raise
  | Fail err => _ ← set_share k (s <| state := "failed"%string |> <| error := err |>); emit_share_at k
  | Ok (m, fs) =>
      _ ← set_share k (s <| manifest := m |> <| files := sbytes <$> fs |>);
      _ ← emit_share_at k;
      err ← EnsurePeer;
      match err with
      | Some err => _ ← upd_share k (fun s => s <| state := "failed"%string |> <| error := err |>); emit_share_at k
      | None => _ ← modify (fun s => s <| share_create_queue_ ::= (fun q => q ++ [k]) |>); PumpShareCreates
      end
  end.

(** *** Receives *)

(** As [pump_shares]. *)
Fixpoint pump_claims (fuel : nat) : core unit :=
  s ← gets (fun s => s);
  match s.(claim_queue_) with
  | [] => skip
  | k :: rest =>
      if s.(claim_inflight_) || negb s.(signal_connected_) then skip else
      match fuel with
      | O => skip
      | S fuel =>
          _ ← modify (fun s => s <| claim_queue_ := rest |>);
          match sm_find k s.(receives_) with
          | Some r =>
              if negb (String.eqb r.(r_state) "claiming") then pump_claims fuel else
              rc ← (if negb (String.eqb r.(resume_token) "") && negb r.(tried_token)
                    then _ ← upd_receive k (fun r => r <| tried_token := true |>); the_peer (Peer.Claim "" r.(resume_token))
                    else the_peer (Peer.Claim r.(r_code) ""));
              if negb (rc =? 0) then _ ← FinishReceive k "failed" "claim" "claim send failed"; pump_claims fuel
              else modify (fun s => s <| claim_inflight_ := true |>)
          | None => pump_claims fuel
          end
      end
  end.
Definition PumpClaims : core unit := n ← gets (fun s => length s.(claim_queue_)); pump_claims n.

Definition StartClaim (k : string) : core unit :=
  _ ← upd_receive k (fun r => r <| active := true |> <| tried_token := false |>);
  _ ← emit_receive_at k;
  err ← EnsurePeer;
  match err with
  | Some err => FinishReceive k "failed" "peer" err
  | None => _ ← modify (fun s => s <| claim_queue_ ::= (fun q => q ++ [k]) |>); PumpClaims
  end.

(** The record of an earlier receive of the same code that is not finished. *)
Definition reusable (c : string) (r : Receive) : bool := String.eqb r.(r_code) c && negb r.(active) && unfinished r.

(** The task of [ReceiveStart]. *)
Definition do_ReceiveStart (k c dir : string) : core unit :=
  old ← gets (fun s => first_entry (reusable c) s.(receives_));
  match old with
  | Some (tid, r) =>
      _ ← modify (fun s => s <| receives_ ::= sm_erase tid |>);
      _ ← set_receive k (r <| transfer_id := k |> <| r_save_dir := dir |> <| r_state := "claiming"%string |>
                           <| error_code := ""%string |> <| error_message := ""%string |>);
      StartClaim k
  | None =>
      now ← NowMs;
      _ ← set_receive k (Receive_default <| transfer_id := k |> <| r_code := c |> <| r_save_dir := dir |> <| created_at := now |>);
      StartClaim k
  end.

(** The task of [ReceiveResume]. *)
Definition do_ReceiveResume (k : string) : core unit :=
  r ← receive_at k;
  match r with
  | None => skip
  | Some r =>
      if r.(active) || negb (unfinished r) then skip else
      _ ← set_receive k (r <| r_state := "claiming"%string |> <| error_code := ""%string |> <| error_message := ""%string |>);
      StartClaim k
  end.

Definition claiming (r : Receive) : bool := String.eqb r.(r_state) "claiming" && r.(active).

Definition OnClaimResult (res : Peer.MiniRtcClaimResult) (sid token message : string) : core unit :=
  _ ← modify (fun s => s <| claim_inflight_ := false |>);
  target ← gets (fun s => best_entry claiming (fun a b => a.(created_at) <? b.(created_at)) None s.(receives_));
  match target with
  | None => PumpClaims
  | Some (k, r) =>
      _ ← (if bool_decide (res = Peer.MINIRTC_CLAIM_OK) then
             _ ← set_receive k (let r := r <| session_id := sid |> in
                                let r := if String.eqb token "" then r else r <| resume_token := token |> in
                                r <| r_state := "connecting"%string |>);
             _ ← emit_receive_at k; SaveReceives
           else if r.(tried_token) && (bool_decide (res = Peer.MINIRTC_CLAIM_CODE_NOT_FOUND) || bool_decide (res = Peer.MINIRTC_CLAIM_SHARE_BUSY)) then
             _ ← set_receive k (r <| resume_token := ""%string |>);
             modify (fun s => s <| claim_queue_ ::= cons r.(transfer_id) |>)
           else FinishReceive k "failed" (Peer.ClaimResultName res) message);
      PumpClaims
  end.

(** *** Sessions: the life of a transfer *)

(** The share a sending session belongs to: the one that recorded it, else the open one that
    expires last. *)
Definition share_for (sid : string) : core (option (string * Share)) :=
  e ← FindShareBySession sid;
  match e with
  | Some e => mret (Some e)
  | None => gets (fun s => best_entry (fun sh => is_one_of sh.(state) ["claimed"; "transferring"; "ready"]%string)
                                      (fun a b => b.(expires_at) <? a.(expires_at)) None s.(shares_))
  end.
(** The receive a receiving session belongs to: the one whose claim got it, else the last one in
    key order that is still claiming, which takes it. *)
Definition receive_for (sid : string) : core (option (string * Receive)) :=
  e ← FindReceiveBySession sid;
  match e with
  | Some e => mret (Some e)
  | None =>
      e ← gets (fun s => best_entry claiming (fun _ _ => true) None s.(receives_));
      mret (match e with Some (k, r) => Some (k, r <| session_id := sid |>) | None => None end)
  end.

Definition connecting_sender (sid : string) : core unit :=
  e ← share_for sid;
  match e with
  | None => _ ← the_peer (Peer.Leave sid); skip
  | Some (k, sh) =>
      tid ← NewId "tx_";
      let sh := sh <| sessions ::= sm_set sid tid |> <| state := "transferring"%string |> in
      _ ← set_share k sh;
      _ ← MakeSession sid "sender" tid;
      _ ← upd_transfer sid (fun t => t <| share_local_id := sh.(id) |>
                                        <| session ::= TransferSession.SetSenderInput sh.(manifest) sh.(files) |>);
      EmitShare sh
  end.

Definition connecting_receiver (info : Peer.SessionInfo) : core unit :=
  let sid := info.(Peer.i_session_id) in
  e ← receive_for sid;
  match e with
  | None => _ ← the_peer (Peer.Leave sid); skip
  | Some (k, r) =>
      let r := if String.eqb info.(Peer.i_resume_token) "" then r else r <| resume_token := info.(Peer.i_resume_token) |> in
      let r := if String.eqb info.(Peer.i_meta_json) "" then r else r <| meta_json := info.(Peer.i_meta_json) |> in
      let r := r <| r_state := "connecting"%string |> in
      _ ← set_receive k r;
      _ ← MakeSession sid "receiver" r.(transfer_id);
      _ ← upd_transfer sid (fun t => t <| receive_id := r.(transfer_id) |>
             <| session ::= TransferSession.SetReceiverInput (sbytes r.(r_save_dir)) r.(record) |>);
      _ ← EmitReceive r;
      SaveReceives
  end.

Definition OnSession (info : Peer.SessionInfo) : core unit :=
  let sid := info.(Peer.i_session_id) in
  existing ← transfer_at sid;
  match info.(Peer.status) with
  | Peer.MINIRTC_SESSION_CONNECTING =>
      let proceed :=
        if String.eqb info.(Peer.i_role) "sender" then connecting_sender sid else connecting_receiver info in
      match existing with
      | Some t => if negb t.(closing) then skip else _ ← DropTransfer sid; proceed
      | None => proceed
      end
  | Peer.MINIRTC_SESSION_CONNECTED =>
      match existing with
      | None => skip
      | Some _ =>
          _ ← call_session sid (TransferSession.OnTransportReady info.(Peer.i_path));
          e ← FindReceiveBySession sid;
          match e with
          | None => skip
          | Some (k, r) =>
              when (String.eqb r.(r_state) "connecting")
                (let r := r <| r_state := "waiting_offer"%string |> in _ ← set_receive k r; EmitReceive r)
          end
      end
  | Peer.MINIRTC_SESSION_DISCONNECTED | Peer.MINIRTC_SESSION_FAILED | Peer.MINIRTC_SESSION_CLOSED =>
      match existing with
      | None => skip
      | Some t =>
          if t.(closing) then DropTransfer sid else
          _ ← call_session sid (TransferSession.OnSessionEnd info.(Peer.reason)); DropTransfer sid
      end
  end.

Definition OnStats (sid : string) (p : NetStats) : core unit :=
  t ← transfer_at sid;
  match t with
  | None => skip
  | Some t =>
      when (negb (bool_decide (t.(path_) = p)) && negb (bool_decide (p = Peer.MINIRTC_PATH_UNKNOWN)))
        (call_session sid (fun s => Ret (TransferSession.OnPathChanged p s)))
  end.

Definition OnCtrl (sid : string) (data : bytes) : core unit :=
  t ← transfer_at sid;
  match t with
  | None => skip
  | Some t =>
      let '(msg, l) := SessionLink.OnCtrlChunk data t.(link) in
      _ ← set_transfer sid (t <| link := l |>);
      match msg with
      | None => skip
      | Some m =>
          i ← gets env_;
          call_session sid (TransferSession.OnCtrlMessage EVP_sha256 i.(in_world) i.(in_rd) (of_sbytes m))
      end
  end.

(** The task of [LingerThenDrop]. *)
Definition do_Linger (sid : string) (own : Z) : core unit :=
  t ← transfer_at sid;
  match t with
  | None => skip
  | Some t =>
      if negb (t.(owner) =? own) then skip else
      connected ← gets signal_connected_;
      if (0 <? SessionLink.CtrlPending t.(link)) && connected then LingerThenDrop sid own else
      _ ← if_peer (Peer.Leave sid); DropTransfer sid
  end.

(** *** The signalling connection *)

(** The pumps leave [signal_connected_] as it was set. *)
Definition OnSignal (st : Peer.MiniRtcSignalStatus) (pid : string) : core unit :=
  was ← gets signal_connected_;
  let now := bool_decide (st = Peer.MINIRTC_SIGNAL_CONNECTED) in
  _ ← modify (fun s => s <| peer_id_ := pid |> <| signal_connected_ := now |>);
  _ ← Emit [("type", jstr "signal_state"); ("state", jstr (Peer.SignalStatusName st)); ("peer_id", jstr pid)]%string;
  _ ← when (now && negb was) (_ ← PumpShareCreates; PumpClaims);
  when (negb now && was)
    (_ ← modify (fun s => s <| share_create_inflight_ := false |> <| claim_inflight_ := false |>);
     ks ← gets (fun s => fst <$> s.(shares_));
     _ ← for_each ks (fun k =>
       sh ← share_at k;
       when (match sh with Some sh => is_one_of sh.(state) ["ready"; "claimed"; "transferring"]%string | None => false end)
         (CloseShareInternal k "failed" "signal_lost"));
     ks ← gets (fun s => fst <$> s.(receives_));
     for_each ks (fun k =>
       r ← receive_at k;
       when (match r with Some r => is_one_of r.(r_state) ["claiming"; "connecting"; "waiting_offer"]%string | None => false end)
         (FinishReceive k "failed" "signal_lost" "signaling connection lost"))).

Definition RecreatePeer : core unit :=
  ks ← gets (fun s => fst <$> s.(transfers_));
  _ ← for_each ks (fun k => call_session k (TransferSession.OnSessionEnd "reconfigured"));
  _ ← clear_transfers;
  ks ← gets (fun s => fst <$> s.(shares_));
  _ ← for_each ks (fun k => CloseShareInternal k "closed" "reconfigured");
  _ ← close_peer;
  _ ← modify (fun s => s <| peer_ := None |> <| signal_connected_ := false |>);
  err ← EnsurePeer;
  emit_peer_error err.

Definition OnNotifications (snapshot : string) : core unit :=
  let ev := parse snapshot in
  match find ev "items" with
  | Some items =>
      when (is_object ev && is_array items)
        (_ ← modify (fun s => s <| notifications_ := items |>);
         Emit [("type", jstr "notifications"); ("items", items)]%string)
  | None => skip
  end.

(** The callbacks [EnsurePeer] registers. *)
Definition run_peer_task (t : PeerTask) : core unit :=
  match t with
  | Peer.on_notifications snapshot => OnNotifications snapshot
  | Peer.on_signal st pid => OnSignal st pid
  | Peer.on_share ev sid c exp detail => OnShareEvent ev sid c exp detail
  | Peer.on_claim r sid tok msg => OnClaimResult r sid tok msg
  | Peer.on_session info => OnSession info
  | Peer.on_stats sid p => OnStats sid p
  | Peer.on_ctrl sid data => OnCtrl sid data
  end.

(** *** Transfer control *)

(** The session of a transfer id, when it runs. *)
Definition session_of (tid : string) : core (option string) := gets (fun s => sm_find tid s.(transfer_ids_)).

Definition do_TransferPause (tid : string) : core unit :=
  sid ← session_of tid; match sid with Some sid => call_session sid TransferSession.Pause | None => skip end.
Definition do_TransferResume (tid : string) : core unit :=
  sid ← session_of tid; match sid with Some sid => call_session sid TransferSession.Resume | None => skip end.
Definition do_TransferCancel (tid : string) : core unit :=
  sid ← session_of tid;
  match sid with
  | Some sid => call_session sid (TransferSession.Cancel "user")
  | None =>
      r ← receive_at tid;
      match r with
      | None => skip
      | Some r =>
          _ ← modify (fun s => s <| claim_queue_ ::= List.filter (fun k => negb (String.eqb k tid)) |>);
          _ ← set_receive tid (r <| record := jnull |>);
          FinishReceive tid "cancelled" "user" ""
      end
  end.

(** *** Configuration and queries *)

Definition config_json (c : Config.Config) : json := Config.ToJson CT_DEVELOPER_MODE c.

Definition SaveConfig_ : core unit :=
  s ← gets (fun s => s);
  '(_, w) ← of_outcome (Storage.SaveConfig s.(data_dir_) (config_json s.(cfg_)) s.(disk_));
  modify (fun s => s <| disk_ := w |>).

(** The task of [UpdateConfig]. *)
Definition do_UpdateConfig (next : Config.Config) : core unit :=
  old ← gets cfg_;
  _ ← modify (fun s => s <| cfg_ := next |>);
  _ ← SaveConfig_;
  _ ← Emit [("type", jstr "config"); ("config", config_json next)]%string;
  when (Config.PeerAffectingDiff old next) RecreatePeer.

Definition share_json (s : Share) : json :=
  jobj [("id", jstr s.(id)); ("share_id", jstr s.(share_id)); ("state", jstr s.(state)); ("mode", jstr s.(mode));
        ("code", jstr (if String.eqb s.(code) "" then "" else Format_ s.(code))); ("expires_at", jint s.(expires_at));
        ("files", juns (zlen s.(manifest).(Manifest.files))); ("bytes", juns s.(manifest).(Manifest.total_bytes));
        ("receivers", jint s.(receivers)); ("completed", jint s.(completed)); ("error", jstr s.(error))]%string.
Definition receive_json (r : Receive) : json :=
  jobj [("transfer_id", jstr r.(transfer_id)); ("code", jstr (Format_ r.(r_code))); ("state", jstr r.(r_state));
        ("save_dir", jstr r.(r_save_dir)); ("resumable", jbool (negb (String.eqb r.(resume_token) "")));
        ("error_code", jstr r.(error_code)); ("created_at", jint r.(created_at))]%string.

(** [SnapshotJson] finds the share of a snapshot by its session id. *)
Definition QueryLocked (what : string) (s : CoreState) : json :=
  let asked k := String.eqb what k || String.eqb what "all" in
  let transfer t :=
    let p := t.(session).(TransferSession.snap_) in
    jobj (snapshot_json (match sm_find p.(TransferSession.session_id) s.(transfers_) with
                         | Some t => t.(share_local_id) | None => ""%string end) p) in
  jobj ((if asked "shares"%string then [("shares"%string, jarr ((fun e => share_json e.2) <$> s.(shares_)))] else []) ++
        (if asked "receives"%string then [("receives"%string, jarr ((fun e => receive_json e.2) <$> s.(receives_)))] else []) ++
        (if asked "transfers"%string then [("transfers"%string, jarr ((fun e => transfer e.2) <$> s.(transfers_)))] else []) ++
        (if asked "config"%string then [("config", config_json s.(cfg_)); ("notifications", s.(notifications_));
                                        ("signal_connected", jbool s.(signal_connected_)); ("peer_id", jstr s.(peer_id_))]%string else [])).

(** *** The public methods: the result code, then the new id or the error message *)

Definition ShareCreate (ps : list string) (options : json) : core (Z * string) :=
  match ps with
  | [] => mret (CT_ERR_INVALID_ARG, "no paths"%string)
  | _ =>
      c ← gets cfg_;
      md ← (if is_object options then of_outcome (value_ get_string options "mode" c.(Config.share_mode)) else mret c.(Config.share_mode));
      ttl ← (if is_object options then of_outcome (value_ get_i32 options "ttl_sec" c.(Config.share_ttl_sec)) else mret c.(Config.share_ttl_sec));
      if negb (is_one_of md ["once"; "open"]%string) then mret (CT_ERR_INVALID_ARG, "mode must be once|open"%string) else
      k ← NewId "sh_";
      _ ← post (TaskShareCreate k ps md ttl);
      mret (CT_OK, k)
  end.

Definition ReceiveStart (code_or_link dir : string) : core (Z * string) :=
  let c := of_sbytes (TakeCode.ParseCodeOrLink (sbytes code_or_link)) in
  if String.eqb c "" then mret (CT_ERR_INVALID_ARG, "invalid take-code"%string) else
  k ← NewId "rx_";
  cfg ← gets cfg_;
  _ ← post (TaskReceiveStart k c (if String.eqb dir "" then cfg.(Config.save_dir) else dir));
  mret (CT_OK, k).

Definition UpdateConfig (j : json) : core (Z * string) :=
  if negb CT_DEVELOPER_MODE && Config.HasServiceOverrides j
  then mret (CT_ERR_INVALID_ARG, "service settings are managed by the publisher"%string) else
  c ← gets cfg_;
  match Config.Merge CT_DEVELOPER_MODE j c with
  | (Some e, _) => mret (CT_ERR_INVALID_ARG, e)
  | (None, next) => _ ← post (TaskUpdateConfig next); mret (CT_OK, ""%string)
  end.

(** The public methods that only post their task. *)
Definition post_task (t : CoreTask) : core (Z * string) := _ ← post t; mret (CT_OK, ""%string).
Definition ShareClose (k : string) : core (Z * string) := post_task (TaskShareClose k).
Definition ReceiveResume (k : string) : core (Z * string) := post_task (TaskReceiveResume k).
Definition TransferPause (k : string) : core (Z * string) := post_task (TaskPause k).
Definition TransferResume (k : string) : core (Z * string) := post_task (TaskResume k).
Definition TransferCancel (k : string) : core (Z * string) := post_task (TaskCancel k).

(** *** Construction and shutdown *)

Definition Inputs_none : Inputs :=
  mkInputs [] [] [] (Manifest.mkFS (fun _ => inl ""%string) (fun s => s) (fun _ => None) (fun _ => inl ""%string))
    (FileIO.mkWorld ∅ ∅ []) 0.

(** The error, or the core with its first task posted; the text of the system error that follows
    ["data_dir: "] is not modelled. *)
Definition Create (config : json) (w : FileIO.World) : outcome (string + CoreState) :=
  let new := Config.Config_new CT_DEVELOPER_MODE CT_SERVICE_HOST CT_LINK_HOST in
  match Config.Merge CT_DEVELOPER_MODE config new with
  | (Some e, _) => Ret (inl e)
  | (None, cfg) =>
      if String.eqb cfg.(Config.data_dir) "" then Ret (inl "config.data_dir is required"%string) else
      let dir := sbytes cfg.(Config.data_dir) in
      let '(ok, w) := Storage.EnsureDataDir dir w in
      if negb ok then Ret (inl "data_dir: "%string) else
      let '(saved, w) := Storage.LoadConfig dir w in
      let merged := (Config.Merge CT_DEVELOPER_MODE saved new).2 in
      match Config.Merge CT_DEVELOPER_MODE config merged with
      | (Some e, _) => Ret (inl e)
      | (None, merged) =>
          let merged := if String.eqb merged.(Config.log_dir) ""
                        then merged <| Config.log_dir := of_sbytes (Paths.path_append dir (sbytes "logs")) |> else merged in
          let merged := if String.eqb merged.(Config.save_dir) ""
                        then merged <| Config.save_dir := of_sbytes (Paths.path_append dir (sbytes "received")) |> else merged in
          '(_, w) ← Storage.SaveConfig dir (config_json merged) w;
          Ret (inr (mkCore merged dir w false None 0 "" false jnull [] [] false [] [] false [] [] 0 0 [TaskStart] [] Inputs_none))
      end
  end.

(** [Shutdown] first cancels every transfer, lets the links flush, then drops everything. *)
Definition shutdown_cancel : core unit :=
  ks ← gets (fun s => fst <$> s.(transfers_));
  for_each ks (fun k => call_session k (TransferSession.Cancel "shutdown")).
Definition ctrl_pending (s : CoreState) : Z := foldr (fun e n => SessionLink.CtrlPending e.2.(link) + n) 0 s.(transfers_).
Definition shutdown_drop : core unit :=
  ks ← gets (fun s => fst <$> s.(transfers_));
  _ ← for_each ks (fun k => if_peer (Peer.Leave k));
  _ ← clear_transfers;
  _ ← SaveReceives;
  _ ← close_peer;
  modify (fun s => s <| peer_ := None |> <| posted_ := [] |> <| listening_ := false |>).

(** ** Runs *)

(** The session of an owner, when it is still there. *)
Definition for_owner (own : Z) (f : string -> core unit) : core unit :=
  e ← gets (fun s => first_entry (fun t => t.(owner) =? own) s.(transfers_));
  match e with Some (k, _) => f k | None => skip end.

(** A task of a peer that was destroyed reads its callbacks: undefined, which ends the run here. *)
Definition run_task (t : CoreTask) : core unit :=
  match t with
  | TaskStart => Start
  | TaskPeer g t =>
      s ← gets (fun s => s);
      if (s.(gen_) =? g) && match s.(peer_) with Some _ => true | None => false end then run_peer_task t else raise
  | TaskShareCreate k ps md ttl => do_ShareCreate k ps md ttl
  | TaskShareClose k => do_ShareClose k
  | TaskReceiveStart k c dir => do_ReceiveStart k c dir
  | TaskReceiveResume k => do_ReceiveResume k
  | TaskPause k => do_TransferPause k
  | TaskResume k => do_TransferResume k
  | TaskCancel k => do_TransferCancel k
  | TaskUpdateConfig next => do_UpdateConfig next
  | TaskLinger sid own => do_Linger sid own
  | TaskPump own => for_owner own pump
  | TaskProgress own => for_owner own (fun k => call_session k (fun s => Ret (TransferSession.progress_task s)))
  end.

(** A public method. *)
Inductive ApiCall :=
| ApiShareCreate (paths : list string) (options : json)
| ApiShareClose (k : string)
| ApiReceiveStart (code_or_link dir : string)
| ApiReceiveResume (k : string)
| ApiPause (k : string)
| ApiResume (k : string)
| ApiCancel (k : string)
| ApiUpdateConfig (j : json)
| ApiSetEventCallback (on : bool).
Definition api (c : ApiCall) : core (Z * string) :=
  match c with
  | ApiShareCreate ps o => ShareCreate ps o
  | ApiShareClose k => ShareClose k
  | ApiReceiveStart c dir => ReceiveStart c dir
  | ApiReceiveResume k => ReceiveResume k
  | ApiPause k => TransferPause k
  | ApiResume k => TransferResume k
  | ApiCancel k => TransferCancel k
  | ApiUpdateConfig j => UpdateConfig j
  | ApiSetEventCallback on => _ ← modify (fun s => s <| listening_ := on |>); mret (CT_OK, ""%string)
  end.

(** What the threads of the engines do to their session. *)
Inductive EngineEvent :=
| SenderRuns (more : list Sender.TxInput)
| WriterTurn (sv : Receiver.StopViews) (now now2 now3 : Z)
| DiskAnswers (calls : list (list FileIO.sys))
| EngineCallback.
Definition engine_event (e : EngineEvent) : TransferSession.SessEvent :=
  match e with
  | SenderRuns more => TransferSession.TxRuns more
  | WriterTurn sv now now2 now3 => TransferSession.Rx (ReceiverProofs.EvIter sv now now2 now3)
  | DiskAnswers calls => TransferSession.Rx (ReceiverProofs.EvCalls calls)
  | EngineCallback => TransferSession.Posted
  end.

Inductive CoreEvent :=
| Api (c : ApiCall)
| RunTask (n : nat) (** one of the posted tasks *)
| Callback (t : PeerTask) (** of MiniRTC's threads *)
| Datagram (data : bytes) (sid stream : string)
| Engine (own : Z) (e : EngineEvent)
| ShutdownCancel
| ShutdownDrop.

(** A datagram goes to the link registered for its session, and on to the engine. *)
Definition on_datagram (data : bytes) (sid stream : string) : core unit :=
  s ← gets (fun s => s);
  match s.(peer_) with
  | None => skip
  | Some p =>
      let '(tasks, sink) := Peer.OnReceiveData (N := NetStats) (Some data) (Some sid) (Some stream) p in
      _ ← for_each tasks (fun t => post (TaskPeer s.(gen_) t));
      match sink with
      | None => skip
      | Some (own, stream, data) => for_owner own (fun k =>
          t ← transfer_at k;
          match t with
          | None => skip
          | Some t => for_each (SessionLink.OnData t.(link) stream data) (fun e =>
              match e with
              | SessionLink.CallHandler ToReceiver d =>
                  call_session k (fun s => TransferSession.session_step EVP_sha256 s (TransferSession.Rx (ReceiverProofs.EvBlock (Some d) (zlen d))))
              | SessionLink.CallHandler ToSender d =>
                  call_session k (fun s => TransferSession.session_step EVP_sha256 s (TransferSession.Sack (Some d) (zlen d)))
              | _ => skip
              end)
          end)
      end
  end.

Definition core_event (e : CoreEvent) : core unit :=
  match e with
  | Api c => _ ← api c; skip
  | RunTask n =>
      t ← gets (fun s => s.(posted_) !! n);
      match t with
      | None => skip
      | Some t => _ ← modify (fun s => s <| posted_ ::= delete n |>); run_task t
      end
  | Callback t =>
      s ← gets (fun s => s);
      match s.(peer_) with
      | None => skip
      | Some p => for_each (Peer.gated t p) (fun t => post (TaskPeer s.(gen_) t))
      end
  | Datagram data sid stream => on_datagram data sid stream
  | Engine own e => for_owner own (fun k => call_session k (fun s => TransferSession.session_step EVP_sha256 s (engine_event e)))
  | ShutdownCancel => shutdown_cancel
  | ShutdownDrop => shutdown_drop
  end.

(** One event, with what the environment answers during it. *)
Definition core_step (s : CoreState) (e : Inputs * CoreEvent) : outcome CoreState :=
  '(_, s) ← core_event e.2 (s <| env_ := e.1 |>); Ret s.
Fixpoint run_core (s : CoreState) (es : list (Inputs * CoreEvent)) : outcome CoreState :=
  match es with [] => Ret s | e :: es => s ← core_step s e; run_core s es end.

End core.
