(* ===== verification/CoreLogic.v ===== *)
(** * A logic for the core object

    Every method of [Core] is a sequence of primitive changes ([prim]): changes of bookkeeping, calls to
    the service, changes of a receive, steps of a session.  The lemmas [does_...] show it once for each
    operation; the properties of [CoreProofs] are then inductions over the primitive changes. *)
From S2P Require Export Core.
From S2P Require Import Json.
From S2P Require TransferSessionProofs Protocol.
#[local] Existing Instances TransferSession.state_dec Peer.path_dec Peer.signal_dec Peer.claim_dec TransferSession.eta_Session TransferSession.eta_Snapshot Peer.eta_Peer Config.eta_Config FileIO.eta_World.
#[local] Open Scope Z_scope.

(** ** Ordered maps *)

Section maps.
Context {V : Type}.
Implicit Types (m : list (string * V)) (k : string) (v : V).

Lemma first_entry_spec p m k v : first_entry p m = Some (k, v) -> (k, v) ∈ m /\ p v = true.
Proof.
  induction m as [|[k' v'] m IH]; cbn; [done|]. destruct (p v') eqn:E; [intros [= <- <-]; split; [by left|done]|].
  intros H. destruct (IH H). split; [by right|done].
Qed.
Lemma best_entry_spec p better best m k v : match best with Some (_, b) => p b = true | None => True end ->
  best_entry p better best m = Some (k, v) -> p v = true.
Proof.
  revert best. induction m as [|[k' v'] m IH]; intros best Hb; cbn; [by intros ->|]. apply IH.
  destruct (p v') eqn:E; [|done]. destruct best as [[k0 b]|]; cbn; [|done]. by destruct (better v' b).
Qed.
End maps.

(** ** Primitive changes *)

Section logic.
Context `{JL : JsonLib} (sha : bytes -> bytes) (dev : bool).
Implicit Types s : CoreState.

Definition is_claim (c : Peer.RtcCall) : bool := match c with Peer.MiniRtcClaim _ _ => true | _ => false end.
Definition is_create (c : Peer.RtcCall) : bool := match c with Peer.MiniRtcCreateShare _ _ _ => true | _ => false end.
Definition calls_of (p : Peer.RtcCall -> bool) (l : list CoreEffect) : list Peer.RtcCall :=
  omap (fun e => match e with Rtc c => if p c then Some c else None | _ => None end) l.
Definition claims := calls_of is_claim.
Definition creations := calls_of is_create.
(** The history of the sessions. *)
Definition ran (l : list CoreEffect) : list (string * TransferSession.TransferSession) :=
  omap (fun e => match e with Ran sid x => Some (sid, x) | _ => None end) l.

(** Bookkeeping: what the properties speak of is as it was; with [lq], the queue of the claims and the
    state of the signalling connection may change. *)
Record framed (lq : bool) s s' : Prop := {
  fr_queue : lq = false -> s'.(claim_queue_) = s.(claim_queue_) /\ s'.(signal_connected_) = s.(signal_connected_);
  fr_receives : s'.(receives_) = s.(receives_);
  fr_transfers : s'.(transfers_) = s.(transfers_);
  fr_claim : s'.(claim_inflight_) = s.(claim_inflight_);
  fr_create : s'.(share_create_inflight_) = s.(share_create_inflight_);
  fr_claims : claims s'.(log_) = claims s.(log_);
  fr_creations : creations s'.(log_) = creations s.(log_);
  fr_ran : ran s'.(log_) = ran s.(log_);
}.

Definition log_call (c : Peer.RtcCall) s : CoreState := s <| log_ ::= (fun l => l ++ [Rtc c]) |>.

(** A session as it is made, and as it is given its input. *)
Definition made (sid : string) (x : TransferSession.TransferSession) : Prop :=
  exists tid role, (role = "sender" \/ role = "receiver")%string /\ x = TransferSession.TransferSession_new tid sid role.
Definition given (sid : string) (x y : TransferSession.TransferSession) : Prop :=
  (exists tid m fs, x = TransferSession.TransferSession_new tid sid "sender" /\ y = TransferSession.SetSenderInput m fs x) \/
  (exists tid dir r, x = TransferSession.TransferSession_new tid sid "receiver" /\ y = TransferSession.SetReceiverInput dir r x).

(** [lc] and [ls]: whether the answer to a claim, or to the creation of a share, may be processed;
    [lq]: whether claims may be queued and the connection may come and go. *)
Inductive prim (lc ls lq : bool) : CoreState -> CoreState -> Prop :=
| p_frame s s' : framed lq s s' -> prim lc ls lq s s'
| p_claim s a b : s.(claim_inflight_) = false -> prim lc ls lq s (log_call (Peer.MiniRtcClaim a b) s)
| p_claim_flag s b : b = true \/ lc = true -> prim lc ls lq s (s <| claim_inflight_ := b |>)
| p_create s a b c : s.(share_create_inflight_) = false -> prim lc ls lq s (log_call (Peer.MiniRtcCreateShare a b c) s)
| p_create_flag s b : b = true \/ ls = true -> prim lc ls lq s (s <| share_create_inflight_ := b |>)
| p_receive s k v :
    v.(r_state) <> "completed"%string \/
    (exists r, (k, r) ∈ s.(receives_) /\ v.(r_state) = r.(r_state) /\ v.(session_id) = r.(session_id)) ->
    prim lc ls lq s (s <| receives_ ::= sm_set k v |>)
| p_reported s k r p sid x : (sid, x) ∈ ran s.(log_) ->
    p ∈ TransferSessionProofs.states_of x.(TransferSession.eff_) ->
    p.(TransferSession.role) <> "sender"%string -> r.(session_id) = p.(TransferSession.session_id) ->
    prim lc ls lq s (s <| receives_ ::= sm_set k (receive_after p r) |>)
| p_erase s k : prim lc ls lq s (s <| receives_ ::= sm_erase k |>)
| p_load s m : (forall e, e ∈ m -> e ∈ s.(receives_) \/ e.2.(r_state) <> "completed"%string) ->
    prim lc ls lq s (s <| receives_ := m |>)
| p_session s sid t e x : sm_find sid s.(transfers_) = Some t ->
    TransferSession.session_step sha (t.(session) <| TransferSession.eff_ := [] |>) e = Ret x ->
    prim lc ls lq s (s <| transfers_ ::= sm_set sid (t <| session := x |>) |> <| log_ ::= (fun l => l ++ [Ran sid x]) |>)
| p_transfer s sid t t' : sm_find sid s.(transfers_) = Some t -> t'.(session) = t.(session) ->
    prim lc ls lq s (s <| transfers_ ::= sm_set sid t' |>)
| p_make s sid t : made sid t.(session) -> prim lc ls lq s (s <| transfers_ ::= sm_set sid t |>)
| p_input s sid t t' : sm_find sid s.(transfers_) = Some t -> given sid t.(session) t'.(session) ->
    prim lc ls lq s (s <| transfers_ ::= sm_set sid t' |>)
| p_drop s sid : prim lc ls lq s (s <| transfers_ ::= sm_erase sid |>)
| p_clear s : prim lc ls lq s (s <| transfers_ := [] |>).

Definition prims (lc ls lq : bool) : CoreState -> CoreState -> Prop := rtc (prim lc ls lq).

Lemma prims_frame lc ls lq s s' : framed lq s s' -> prims lc ls lq s s'.
Proof. intros H. by apply rtc_once, p_frame. Qed.

Lemma framed_weaken lq s s' : framed lq s s' -> framed true s s'.
Proof. intros []. by split. Qed.
Lemma prim_weaken lc ls lq s s' : prim lc ls lq s s' -> prim true true true s s'.
Proof.
  destruct 1; [apply p_frame|apply p_claim|apply p_claim_flag|apply p_create|apply p_create_flag|apply p_receive|
    eapply p_reported|apply p_erase|apply p_load|eapply p_session|eapply p_transfer|apply p_make|eapply p_input|
    apply p_drop|apply p_clear]; eauto using framed_weaken.
Qed.
Lemma prims_weaken lc ls lq s s' : prims lc ls lq s s' -> prims true true true s s'.
Proof. induction 1 as [|x y z Hp _ IH]; [apply rtc_refl|]. eapply rtc_l; [by eapply prim_weaken|done]. Qed.

(** The history only grows. *)
Lemma ran_app l k : ran (l ++ k) = ran l ++ ran k.
Proof. apply omap_app. Qed.
Lemma calls_app p l k : calls_of p (l ++ k) = calls_of p l ++ calls_of p k.
Proof. apply omap_app. Qed.
Lemma prim_ran lc ls lq s s' e : prim lc ls lq s s' -> e ∈ ran s.(log_) -> e ∈ ran s'.(log_).
Proof.
  intros H. destruct H as [s s' []|s| | | | | | | | | | | | |]; cbn; try done; rewrite ?ran_app; try (intros; apply elem_of_app; by left).
  congruence.
Qed.

(** ** The rules *)

(** From this state, or from every state that satisfies [P], the computation makes primitive changes
    only. *)
Definition does_at lc ls lq s {A} (m : core A) : Prop := forall a s', m s = Ret (a, s') -> prims lc ls lq s s'.
Definition does lc ls lq (P : CoreState -> Prop) {A} (m : core A) : Prop := forall s, P s -> does_at lc ls lq s m.
Definition stable (P : CoreState -> Prop) : Prop := forall s s', prim true true true s s' -> P s -> P s'.

Lemma stable_prims P lc ls lq s s' : stable P -> prims lc ls lq s s' -> P s -> P s'.
Proof. intros HP H. induction H as [|x y z Hp _ IH]; [done|]. intros Hs. eapply IH, HP; [by eapply prim_weaken|done]. Qed.

Definition seen (sid : string) (x : TransferSession.TransferSession) s : Prop := (sid, x) ∈ ran s.(log_).
Definition always (s : CoreState) : Prop := True.
Lemma stable_always : stable always. Proof. done. Qed.
Lemma stable_seen sid x : stable (seen sid x).
Proof. intros s s' H. by eapply prim_ran. Qed.

Lemma bind_at {A B} (m : core A) (f : A -> core B) s b s' : (a ← m; f a) s = Ret (b, s') ->
  exists a s1, m s = Ret (a, s1) /\ f a s1 = Ret (b, s').
Proof. unfold mbind, core_bind. destruct (m s) as [[a s1]|]; [|done]. intros H. by exists a, s1. Qed.

Section rules.
Context (lc ls lq : bool).
Notation does_at := (does_at lc ls lq).
Notation does := (does lc ls lq).

(** *** From a state *)

Lemma at_look {A B} (g : CoreState -> A) (k : A -> core B) s : does_at s (k (g s)) -> does_at s (a ← gets g; k a).
Proof. intros H b s' E. by apply (H b). Qed.
Lemma at_modify {B} g (k : core B) s : prims lc ls lq s (g s) -> does_at (g s) k -> does_at s (_ ← modify g; k).
Proof. intros Hg H b s' E. transitivity (g s); [done|]. by apply (H b). Qed.
Lemma at_last g s : prims lc ls lq s (g s) -> does_at s (modify g).
Proof. intros Hg b s' [= <- <-]. done. Qed.

(** *** Under an assertion *)

Section assertion.
Context (P : CoreState -> Prop) (HP : stable P).

Lemma does_ret {A} (a : A) : does P (mret a).
Proof. intros s _ b s' [= <- <-]. apply rtc_refl. Qed.
Lemma does_raise {A} : does P (raise (A := A)).
Proof. by intros s _ b s'. Qed.
Lemma does_of_outcome {A} (o : outcome A) : does P (of_outcome o).
Proof. intros s _ b s' E. unfold of_outcome in E. destruct o; [|done]. injection E as <- <-. apply rtc_refl. Qed.
Lemma does_gets {A} (g : CoreState -> A) : does P (gets g).
Proof. intros s _ b s' [= <- <-]. apply rtc_refl. Qed.
Lemma does_modify g : (forall s, prims lc ls lq s (g s)) -> does P (modify g).
Proof. intros H s _. by apply at_last. Qed.
Lemma does_bind {A B} (m : core A) (f : A -> core B) : does P m -> (forall a, does P (f a)) -> does P (a ← m; f a).
Proof.
  intros Hm Hf s Hs b s' E. apply bind_at in E as (a & s1 & E1 & E2). transitivity s1; [by eapply Hm|].
  eapply Hf; [|done]. eapply stable_prims; [done| |done]. by eapply Hm.
Qed.
Lemma does_for_each {A} (l : list A) f : (forall x, x ∈ l -> does P (f x)) -> does P (for_each l f).
Proof.
  induction l as [|x l IH]; intros H; cbn; [apply does_ret|]. apply does_bind; [by apply H; left|].
  intros _. apply IH. intros y Hy. apply H. by right.
Qed.
Lemma does_when b m : does P m -> does P (when b m).
Proof. intros H. unfold when. destruct b; [done|apply does_ret]. Qed.
Lemma does_look {A B} (g : CoreState -> A) (k : A -> core B) : (forall s, P s -> does_at s (k (g s))) -> does P (a ← gets g; k a).
Proof. intros H s Hs. apply at_look. by apply H. Qed.
End assertion.

Lemma does_always {A} (m : core A) P : does always m -> does P m.
Proof. intros H s _. by apply H. Qed.
Lemma at_does {A} (m : core A) s : does always m -> does_at s m.
Proof. intros H. by apply H. Qed.
End rules.
End logic.

#[export] Hint Resolve does_ret does_raise does_of_outcome does_gets stable_always stable_seen : core_steps.

(** A change of bookkeeping. *)
Ltac frame :=
  apply prims_frame; split; cbn; unfold claims, creations, calls_of, ran; rewrite ?omap_app; cbn; rewrite ?app_nil_r; done.

(** Runs through a computation; the database [core_steps] knows the operations. *)
Ltac core_steps :=
  lazymatch goal with
  | |- forall _, _ => intros; core_steps
  | |- does _ _ _ _ _ (mbind _ _) => first [solve [auto with core_steps] | apply does_bind; [auto with core_steps|core_steps|intros; core_steps]]
  | |- does _ _ _ _ _ (for_each _ _) => apply does_for_each; [auto with core_steps|intros; core_steps]
  | |- does _ _ _ _ _ (when _ _) => apply does_when; core_steps
  | |- does _ _ _ _ _ (match ?x with _ => _ end) => let E := fresh "E" in destruct x eqn:E; core_steps
  | |- does _ _ _ _ _ (let _ := _ in _) => cbv zeta; core_steps
  | |- does _ _ _ _ _ (modify _) => first [solve [auto with core_steps] | apply does_modify; intros; try frame]
  | |- _ => auto with core_steps
  end.

(** ** The operations *)

Section operations.
Context `{JL : JsonLib} (sha : bytes -> bytes) (dev lc ls lq : bool).
Implicit Types s : CoreState.
Notation does P m := (does sha lc ls lq P m).
Notation does_at s m := (does_at sha lc ls lq s m).

Lemma does_skip P : does P skip.
Proof. apply does_ret. Qed.
Hint Resolve does_skip : core_steps.

Section bookkeeping.
Context (P : CoreState -> Prop) (HP : stable sha P).
Hint Resolve HP : core_steps.

Lemma does_post t : does P (post t).
Proof. unfold post. core_steps. Qed.
Lemma does_event j : does P (output (EventOut j)).
Proof. unfold output. core_steps. Qed.
Lemma does_call c : is_claim c = false -> is_create c = false -> does P (output (Rtc c)).
Proof. intros H1 H2. unfold output. core_steps. apply prims_frame. split; cbn; unfold claims, creations, calls_of, ran; rewrite ?omap_app; cbn; rewrite ?H1, ?H2; cbn; by rewrite ?app_nil_r. Qed.
Lemma does_ask tape rest : does P (ask tape rest).
Proof. unfold ask. core_steps. Qed.
Hint Resolve does_post does_event does_ask : core_steps.
Lemma does_RandomHex n : does P (RandomHex n).
Proof. induction n; cbn; unfold rng; core_steps. Qed.
Hint Resolve does_RandomHex : core_steps.
Lemma does_NewId p : does P (NewId p).
Proof. unfold NewId. core_steps. Qed.
Lemma does_Emit ev : does P (Emit ev).
Proof. unfold Emit, NowMs. core_steps. Qed.
Hint Resolve does_NewId does_Emit : core_steps.

(** The calls to the service other than claims and creations. *)
Definition harmless (op : Z -> Peer -> Z * list Peer.RtcCall) : Prop :=
  forall rc p, Forall (fun c => is_claim c = false /\ is_create c = false) (op rc p).2.
Lemma harmless_CloseShare sid : harmless (Peer.CloseShare sid).
Proof. intros rc p. unfold Peer.CloseShare, Peer.forward. case_match; by repeat constructor. Qed.
Lemma harmless_Leave sid : harmless (Peer.Leave sid).
Proof. intros rc p. unfold Peer.Leave, Peer.forward. case_match; by repeat constructor. Qed.
Lemma does_calls cs : Forall (fun c => is_claim c = false /\ is_create c = false) cs -> does P (for_each cs (fun c => output (Rtc c))).
Proof. intros H. apply does_for_each; [done|]. intros c Hc. rewrite Forall_forall in H. destruct (H c Hc). by apply does_call. Qed.
Lemma does_the_peer op : harmless op -> does P (the_peer op).
Proof.
  intros H. unfold the_peer, ask_rc. core_steps.
  match goal with E : op ?rc ?p = (_, _) |- _ => pose proof (H rc p) as Hc; rewrite E in Hc end.
  cbn in Hc. rewrite Forall_forall in Hc. apply does_call; by apply Hc.
Qed.
Lemma does_if_peer op : harmless op -> does P (if_peer op).
Proof. intros H. unfold if_peer, has_peer. core_steps. by apply does_the_peer. Qed.
Hint Resolve harmless_CloseShare harmless_Leave does_the_peer does_if_peer : core_steps.

Lemma does_set_share k v : does P (set_share k v).
Proof. unfold set_share. core_steps. Qed.
Hint Resolve does_set_share : core_steps.
Lemma does_upd_share k f : does P (upd_share k f).
Proof. unfold upd_share, share_at. core_steps. Qed.
Lemma does_EmitShare v : does P (EmitShare v).
Proof. unfold EmitShare. core_steps. Qed.
Lemma does_EmitReceive v : does P (EmitReceive v).
Proof. unfold EmitReceive. core_steps. Qed.
Hint Resolve does_upd_share does_EmitShare does_EmitReceive : core_steps.
Lemma does_emit_share_at k : does P (emit_share_at k).
Proof. unfold emit_share_at, share_at. core_steps. Qed.
Lemma does_emit_receive_at k : does P (emit_receive_at k).
Proof. unfold emit_receive_at, receive_at. core_steps. Qed.
Lemma does_SaveReceives : does P SaveReceives.
Proof. unfold SaveReceives. core_steps. Qed.
Hint Resolve does_emit_share_at does_emit_receive_at does_SaveReceives : core_steps.
Lemma does_EnsurePeer : does P EnsurePeer.
Proof.
  unfold EnsurePeer, ask_rc. core_steps. match goal with E : Peer.Connect _ _ _ = _, Hx : ?x ∈ _ |- _ =>
    revert x Hx; rewrite <- Forall_forall; unfold Peer.Connect in E end.
  repeat case_match; simplify_eq; repeat constructor; by apply does_call.
Qed.
Lemma does_emit_peer_error e : does P (emit_peer_error e).
Proof. unfold emit_peer_error. core_steps. Qed.
Lemma does_close_peer : does P close_peer.
Proof.
  unfold close_peer. core_steps. match goal with E : Peer.Close _ = _, Hx : ?x ∈ _ |- _ =>
    revert x Hx; rewrite <- Forall_forall; unfold Peer.Close in E end.
  repeat case_match; simplify_eq; repeat constructor; by apply does_call.
Qed.

End bookkeeping.
End operations.

#[export] Hint Resolve does_skip does_post does_event does_ask does_RandomHex does_NewId does_Emit harmless_CloseShare
  harmless_Leave does_the_peer does_if_peer does_set_share does_upd_share does_EmitShare does_EmitReceive does_emit_share_at
  does_emit_receive_at does_SaveReceives does_EnsurePeer does_emit_peer_error does_close_peer : core_steps.

(** The rest of a computation whose state no longer matters. *)
Ltac at_steps :=
  match goal with
  | |- does_at _ _ _ _ _ _ => apply at_does; core_steps
  | |- ?m ?s = Ret (?a, ?s') -> prims ?sha ?lc ?ls ?lq ?s ?s' => revert a s'; change (does_at sha lc ls lq s m); apply at_does; core_steps
  end.

(** *** Receives *)

Section receives.
Context `{JL : JsonLib} (sha : bytes -> bytes) (lc ls lq : bool) (P : CoreState -> Prop) (HP : stable sha P).
Implicit Types s : CoreState.
Hint Resolve HP : core_steps.
Notation does P m := (does sha lc ls lq P m).

Lemma does_set_receive k v : v.(r_state) <> "completed"%string -> does P (set_receive k v).
Proof. intros H. unfold set_receive. core_steps. apply rtc_once, p_receive. by left. Qed.

Lemma does_upd_receive k f :
  (forall r, (f r).(r_state) <> "completed"%string \/ (f r).(r_state) = r.(r_state) /\ (f r).(session_id) = r.(session_id)) ->
  does P (upd_receive k f).
Proof.
  intros H. unfold upd_receive, receive_at. apply does_look. intros s Hs. destruct (sm_find k (receives_ s)) as [r|] eqn:E;
    [|at_steps]. apply at_last, rtc_once, p_receive. destruct (H r) as [?|[? ?]]; [by left|right].
  exists r. split; [by apply sm_find_elem|done].
Qed.

Lemma does_FinishReceive k st code msg : st <> "completed"%string -> does P (FinishReceive k st code msg).
Proof. intros H. unfold FinishReceive. core_steps. apply does_upd_receive. intros r. by left. Qed.

Lemma load_receive_new m j m' : load_receive m j = Ret m' ->
  forall e, e ∈ m' -> e ∈ m \/ e.2.(r_state) <> "completed"%string.
Proof.
  intros H e He. unfold load_receive in H. destruct (negb _); [injection H as <-; by left|].
  repeat match type of H with mbind _ ?o = _ => destruct o; [cbn in H|done] end. injection H as <-.
  destruct (_ || _); [by left|]. apply sm_set_elem in He as [->|?]; [by right|by left].
Qed.
Lemma load_receives_new js m m' : load_receives js m = Ret m' ->
  forall e, e ∈ m' -> e ∈ m \/ e.2.(r_state) <> "completed"%string.
Proof.
  revert m. induction js as [|j js IH]; intros m H e He; cbn in H; [injection H as <-; by left|].
  destruct (load_receive m j) as [m1|] eqn:E; [|done]. destruct (IH m1 H e He) as [?|?]; [|by right].
  by eapply load_receive_new.
Qed.

Lemma does_LoadReceives : does P LoadReceives.
Proof.
  unfold LoadReceives. apply does_look. intros s Hs. destruct (Storage.LoadReceives _ _) as [js w].
  intros a s' E. apply bind_at in E as (m & s1 & E1 & E2). unfold of_outcome in E1.
  destruct (load_receives _ _) as [m1|] eqn:El; [|done]. injection E1 as <- <-. injection E2 as <- <-.
  transitivity (s <| disk_ := w |>); [frame|]. apply rtc_once, p_load. cbn. by eapply load_receives_new.
Qed.

Lemma does_OnPersist tid r : does P (OnPersist tid r).
Proof.
  unfold OnPersist, receive_at. apply does_look. intros s Hs. destruct (sm_find tid (receives_ s)) as [v|] eqn:E; [|at_steps].
  intros a s' H. apply bind_at in H as (u & s1 & E1 & E2). injection E1 as <- <-.
  etransitivity; [apply rtc_once, (p_receive _ _ _ _ s tid (v <| record := r |>))|].
  - right. exists v. split; [by apply sm_find_elem|done].
  - revert E2. unfold NowMs. at_steps.
Qed.

(** A receiving session reported a state: the receive it belongs to takes it over. *)
Lemma does_receiver_state p sid x : (forall s, P s -> (sid, x) ∈ ran s.(log_)) ->
  p ∈ TransferSessionProofs.states_of x.(TransferSession.eff_) -> p.(TransferSession.role) <> "sender"%string ->
  does P (receiver_state p).
Proof.
  intros Hseen Hp Hrole. unfold receiver_state, FindReceiveBySession. apply does_look. intros s Hs.
  destruct (first_entry _ _) as [[k r]|] eqn:E; [|at_steps]. apply first_entry_spec in E as [Hr Hid].
  apply andb_true_iff in Hid as [Hid _]. apply String.eqb_eq in Hid. intros a s' H. apply bind_at in H as (u & s1 & E1 & E2).
  injection E1 as <- <-. etransitivity; [apply rtc_once, (p_reported _ _ _ _ s k r p sid x)|]; try done; [by apply Hseen|].
  revert E2. at_steps.
Qed.

End receives.
#[export] Hint Resolve does_LoadReceives does_OnPersist : core_steps.
#[export] Hint Extern 2 (does _ _ _ _ _ (FinishReceive _ _ _ _)) => by apply does_FinishReceive : core_steps.
#[export] Hint Extern 2 (does _ _ _ _ _ (set_receive _ _)) => by apply does_set_receive : core_steps.
#[export] Hint Extern 2 (does _ _ _ _ _ (upd_receive _ _)) => apply does_upd_receive; intros; first [by left|by right] : core_steps.

(** *** Links and sessions *)

Section sessions.
Context `{JL : JsonLib} (sha : bytes -> bytes) (lc ls lq : bool).
Implicit Types s : CoreState.
Notation does P m := (does sha lc ls lq P m).
Notation does_at s m := (does_at sha lc ls lq s m).

Lemma does_upd_transfer P sid f : stable sha P -> (forall t, (f t).(session) = t.(session)) -> does P (upd_transfer sid f).
Proof.
  intros HP H. unfold upd_transfer, transfer_at. apply does_look. intros s Hs.
  destruct (sm_find sid (transfers_ s)) as [t|] eqn:E; [|at_steps]. apply at_last, rtc_once. by eapply p_transfer.
Qed.

Lemma does_link_effect P sid own e : stable sha P -> does P (link_effect sid own e).
Proof.
  intros HP. unfold link_effect. core_steps. Qed.
Hint Resolve does_link_effect : core_steps.

Lemma does_on_link P sid op : stable sha P -> does P (on_link sid op).
Proof.
  intros HP. unfold on_link, transfer_at. apply does_look. intros s Hs. destruct (sm_find sid (transfers_ s)) as [t|] eqn:E; [|at_steps].
  destruct (op (link t)) as [eff l]. unfold set_transfer. apply at_modify; [apply rtc_once; by eapply p_transfer|]. at_steps.
Qed.

Lemma link_Send_harmless t sid data : let '(_, (_, _, cs)) := link_Send t sid Protocol.kStreamCtrl data in
  Forall (fun c => is_claim c = false /\ is_create c = false) t.2 -> Forall (fun c => is_claim c = false /\ is_create c = false) cs.
Proof.
  destruct t as [[p rcs] cs]. unfold link_Send. destruct p as [p|]; [|done]. unfold Peer.Send.
  repeat case_match; simplify_eq; intros; apply Forall_app; split; try done; by repeat constructor.
Qed.
Lemma pump_harmless q : forall (t : Transport) u (l : SessionLink), let '(_, _, t') := SessionLink.pump_loop link_Send t q u l in
  Forall (fun c => is_claim c = false /\ is_create c = false) t.2 -> Forall (fun c => is_claim c = false /\ is_create c = false) t'.2.
Proof.
  induction q as [|c q IH]; intros t u l; cbn; [done|]. destruct (negb _); [done|].
  pose proof (link_Send_harmless t (SessionLink.session_id_ l) c) as Hs.
  destruct (link_Send t _ _ c) as [r [[p rcs] cs]]. destruct (r =? 0).
  - specialize (IH (p, rcs, cs) 0 l). destruct (SessionLink.pump_loop _ _ q 0 l) as [[e l'] t']. cbn in *. auto.
  - destruct (r <? 0); [destruct (_ >=? _)|]; done.
Qed.

Lemma does_pump P sid : stable sha P -> does P (pump sid).
Proof.
  intros HP. unfold pump, transfer_at. apply does_look. intros s Hs. destruct (sm_find sid (transfers_ s)) as [t|] eqn:E; [|at_steps].
  apply at_look. unfold SessionLink.pump_task, SessionLink.Pump.
  match goal with |- context [SessionLink.pump_loop ?f ?t0 ?q ?u ?l0] => pose proof (pump_harmless q t0 u l0) as H;
    destruct (SessionLink.pump_loop f t0 q u l0) as [[eff l] [[p rcs] cs]] end.
  unfold set_transfer. apply at_modify; [apply rtc_once; by eapply p_transfer|]. cbn in H. specialize (H (Forall_nil_2 _)).
  rewrite Forall_forall in H. at_steps. apply does_call; by apply H.
Qed.

Lemma does_sender_state P p k : stable sha P -> does P (sender_state p k).
Proof.
  intros HP. unfold sender_state, share_at. core_steps. Qed.
Lemma does_SnapshotJson P p : stable sha P -> does P (SnapshotJson p).
Proof.
  intros HP. unfold SnapshotJson, transfer_at. core_steps. Qed.
Hint Resolve does_sender_state does_SnapshotJson : core_steps.
Lemma does_OnTransferProgress P p : stable sha P -> does P (OnTransferProgress p).
Proof.
  intros HP. unfold OnTransferProgress. core_steps. Qed.

Lemma does_DropTransfer P sid : stable sha P -> does P (DropTransfer sid).
Proof.
  intros HP. unfold DropTransfer, transfer_at. core_steps; [by apply does_on_link|]. apply rtc_once, p_drop.
Qed.
Hint Resolve does_on_link : core_steps.
Lemma does_clear_transfers P : stable sha P -> does P clear_transfers.
Proof.
  intros HP. unfold clear_transfers. core_steps.
  match goal with |- prims _ _ _ _ ?s _ => transitivity (s <| transfers_ := [] |>); [apply rtc_once, p_clear|frame] end.
Qed.
Hint Resolve does_sender_state does_SnapshotJson does_OnTransferProgress does_on_link does_link_effect does_pump : core_steps.

(** The callbacks of a session that is in the history. *)
Lemma does_OnTransferState p sid x : p ∈ TransferSessionProofs.states_of x.(TransferSession.eff_) ->
  does (seen sid x) (OnTransferState p).
Proof.
  intros Hp. unfold OnTransferState, transfer_at. assert (HP : stable sha (seen sid x)) by apply stable_seen.
  apply does_bind; [done|auto with core_steps|intros ev]. apply does_bind; [done|auto with core_steps|intros _].
  apply does_bind; [done|auto with core_steps|intros t]. apply does_bind; [done| |intros _].
  - destruct (String.eqb_spec (TransferSession.role p) "sender"); [core_steps|].
    by apply (does_receiver_state sha lc ls lq _ p sid x).
  - unfold LingerThenDrop. core_steps. by apply does_upd_transfer.
Qed.

Lemma does_session_effect sid tid own x e : e ∈ x.(TransferSession.eff_) -> does (seen sid x) (session_effect sid tid own e).
Proof.
  intros He. assert (HP : stable sha (seen sid x)) by apply stable_seen. unfold session_effect. destruct e; core_steps.
  - apply (does_OnTransferState _ sid x). apply list_elem_of_omap. eexists. split; [exact He|done].
  - by apply does_upd_transfer.
Qed.

(** A method of a session is a step of it. *)
Definition is_step (f : TransferSession.TransferSession -> outcome TransferSession.TransferSession) : Prop :=
  exists e, forall x, f x = TransferSession.session_step sha x e.

Lemma does_call_session sid f P : stable sha P -> is_step f -> does P (call_session sid f).
Proof.
  intros HP [e He]. unfold call_session, transfer_at. apply does_look. intros s Hs.
  destruct (sm_find sid (transfers_ s)) as [t|] eqn:E; [|at_steps]. intros a s' H.
  apply bind_at in H as (x & s1 & E1 & H). unfold of_outcome in E1. rewrite He in E1.
  destruct (TransferSession.session_step _ _ _) as [y|] eqn:Ey; [|done]. injection E1 as <- <-.
  apply bind_at in H as (u & s1 & E1 & H). injection E1 as <- <-. apply bind_at in H as (v & s2 & E2 & H). injection E2 as <- <-.
  etransitivity; [apply rtc_once; by eapply (p_session _ _ _ _ s sid t e y)|]. revert H.
  apply (does_for_each sha lc ls lq (seen sid y)); [apply stable_seen|intros z Hz; by apply does_session_effect|].
  unfold seen, ran. cbn. rewrite omap_app. apply elem_of_app. right. by left.
Qed.

(** Making a session leaves it in the table as it was made. *)
Lemma MakeSession_made sid role tid s a s' : MakeSession sid role tid s = Ret (a, s') ->
  exists t, sm_find sid s'.(transfers_) = Some t /\ t.(session) = TransferSession.TransferSession_new tid sid role.
Proof.
  unfold MakeSession. intros H. apply bind_at in H as (own & s1 & E1 & H). injection E1 as <- <-.
  apply bind_at in H as (u & s1 & E1 & H). injection E1 as <- <-. unfold on_link, transfer_at in H.
  apply bind_at in H as (t & s1 & E1 & H). injection E1 as <- <-. cbn [transfers_] in H. revert H.
  match goal with |- context [sm_find sid ?m] => change m with (sm_set sid (mkTransfer (TransferSession.TransferSession_new tid sid role)
    (SessionLink.SessionLink_new sid) Peer.MINIRTC_PATH_UNKNOWN "" "" false s.(next_owner_)) s.(transfers_)) end.
  rewrite sm_find_set. cbn. intros [= <- <-]. cbn. eexists. split; [apply sm_find_set|done].
Qed.

Lemma does_MakeSession sid role tid P : stable sha P -> role = "sender"%string \/ role = "receiver"%string ->
  does P (MakeSession sid role tid).
Proof.
  intros HP Hrole. unfold MakeSession. apply does_look. intros s Hs. apply at_modify; [|at_steps].
  set (s1 := s <| next_owner_ ::= (fun n => n + 1) |> <| transfer_ids_ ::= sm_set tid sid |>).
  transitivity s1; [frame|]. apply rtc_once, (p_make _ _ _ _ s1). exists tid, role. done.
Qed.

(** The input follows at once. *)
Lemma does_input sid role tid f s : (role = "sender" \/ role = "receiver")%string ->
  (forall t, t.(session) = TransferSession.TransferSession_new tid sid role -> given sid t.(session) (f t).(session)) ->
  forall k : core unit, does always k -> does_at s (_ ← MakeSession sid role tid; _ ← upd_transfer sid f; k).
Proof.
  intros Hrole Hf k Hk a s' H. apply bind_at in H as (u & s1 & E1 & H).
  transitivity s1; [by eapply (does_MakeSession sid role tid always)|].
  apply MakeSession_made in E1 as (t & Ht & Hx). apply bind_at in H as (v & s2 & E2 & H).
  transitivity s2; [|by eapply Hk]. unfold upd_transfer, transfer_at in E2. apply bind_at in E2 as (o & s3 & E3 & E2).
  injection E3 as <- <-. rewrite Ht in E2. injection E2 as <- <-. apply rtc_once, (p_input _ _ _ _ _ _ t); [done|by apply Hf].
Qed.
End sessions.
#[export] Hint Resolve does_sender_state does_SnapshotJson does_OnTransferProgress does_on_link does_link_effect does_pump
  does_DropTransfer does_clear_transfers : core_steps.
#[export] Hint Extern 2 (does _ _ _ _ (upd_transfer _ _)) => by apply does_upd_transfer : core_steps.
#[export] Hint Extern 2 (does _ _ _ _ (call_session _ _)) => apply does_call_session; [auto with core_steps|eexists (_ : TransferSession.SessEvent); intros; reflexivity] : core_steps.

(** *** Shares, receives and transfers *)

Section handlers.
Context `{JL : JsonLib} (sha : bytes -> bytes) (dev lc ls lq : bool).
Implicit Types s : CoreState.
Notation does P m := (does sha lc ls lq P m).
Notation does_at s m := (does_at sha lc ls lq s m).

(** The steps the core takes of a session. *)
Lemma is_step_cancel r : is_step sha (TransferSession.Cancel r).
Proof. by exists (TransferSession.UserCancel r). Qed.
Lemma is_step_ready p : is_step sha (TransferSession.OnTransportReady p).
Proof. by exists (TransferSession.TransportReady p). Qed.
Lemma is_step_end r : is_step sha (TransferSession.OnSessionEnd r).
Proof. by exists (TransferSession.SessionEnd r). Qed.
Lemma is_step_path p : is_step sha (fun x => Ret (TransferSession.OnPathChanged p x)).
Proof. by exists (TransferSession.PathChanged p). Qed.
Lemma is_step_ctrl w rd m : is_step sha (TransferSession.OnCtrlMessage sha w rd m).
Proof. by exists (TransferSession.CtrlMessage w rd m). Qed.
Lemma is_step_pause : is_step sha TransferSession.Pause.
Proof. by exists TransferSession.UserPause. Qed.
Lemma is_step_resume : is_step sha TransferSession.Resume.
Proof. by exists TransferSession.UserResume. Qed.
Lemma is_step_progress : is_step sha (fun x => Ret (TransferSession.progress_task x)).
Proof. by exists TransferSession.ProgressTimer. Qed.
Lemma is_step_step e : is_step sha (fun x => TransferSession.session_step sha x e).
Proof. by exists e. Qed.
Hint Resolve is_step_cancel is_step_ready is_step_end is_step_path is_step_ctrl is_step_pause is_step_resume is_step_progress
  is_step_step does_call_session : core_steps.

Lemma does_CloseShareInternal P k st reason : stable sha P -> does P (CloseShareInternal k st reason).
Proof. intros HP. unfold CloseShareInternal, share_at. core_steps. Qed.
Hint Resolve does_CloseShareInternal : core_steps.
Lemma does_do_ShareClose P k : stable sha P -> does P (do_ShareClose k).
Proof. intros HP. unfold do_ShareClose, share_at, FindShareByServerId. core_steps. Qed.

(** A call that is made or refused. *)
Lemma the_peer_one op c s rc s' : (forall r p, (op r p).2 = [] \/ (op r p).2 = [c]) -> the_peer op s = Ret (rc, s') ->
  exists i, s' = s <| env_ := i |> \/ s' = log_call c (s <| env_ := i |>).
Proof.
  intros Hop H. unfold the_peer in H. apply bind_at in H as (p & s1 & E & H). injection E as <- <-.
  destruct (peer_ s) as [p|]; [|done]. unfold ask_rc, ask in H. apply bind_at in H as (r & s1 & E & H).
  apply bind_at in E as (r' & s2 & E' & E). injection E' as <- <-. apply bind_at in E as (u & s2 & E' & E). injection E' as <- <-.
  injection E as <- <-. match type of H with context [op ?r p] => destruct (Hop r p) as [Ho|Ho]; destruct (op r p) as [q cs] end;
    cbn in Ho; subst cs; eexists; [left|right]; cbn in H; injection H as <- <-; reflexivity.
Qed.
Lemma forward_one c r p : (Peer.forward (K := Z) c r p).2 = [] \/ (Peer.forward (K := Z) c r p).2 = [c].
Proof. unfold Peer.forward. case_match; [by left|by right]. Qed.

(** Creations and claims are asked for only when none is in flight. *)
Lemma prims_create a b c s rc s' : s.(share_create_inflight_) = false -> the_peer (Peer.CreateShare a b c) s = Ret (rc, s') -> prims sha lc ls lq s s'.
Proof.
  intros Hf H. apply (the_peer_one _ (Peer.MiniRtcCreateShare a b c)) in H as (i & [->| ->]); [frame| |intros; apply forward_one].
  transitivity (s <| env_ := i |>); [frame|]. by apply rtc_once, p_create.
Qed.
Lemma prims_claim a b s rc s' : s.(claim_inflight_) = false -> the_peer (Peer.Claim a b) s = Ret (rc, s') -> prims sha lc ls lq s s'.
Proof.
  intros Hf H. apply (the_peer_one _ (Peer.MiniRtcClaim (Peer.nonempty a) (Peer.nonempty b))) in H as (i & [->| ->]); [frame| |intros; apply forward_one].
  transitivity (s <| env_ := i |>); [frame|]. by apply rtc_once, p_claim.
Qed.

Lemma does_pump_shares n : does always (pump_shares n).
Proof.
  induction n as [|n IH]; cbn [pump_shares]; apply does_look; intros s _; (destruct (share_create_queue_ s) as [|k rest]; [at_steps|]);
    (destruct (share_create_inflight_ s) eqn:Ef; cbn [orb]; [at_steps|]); (destruct (negb _); [at_steps|]); [at_steps|].
  apply at_modify; [frame|]. destruct (sm_find k (shares_ s)) as [sh|]; [|by apply IH]. destruct (negb _); [by apply IH|].
  intros a s' H. apply bind_at in H as (meta & s1 & E & H). unfold of_outcome in E. destruct (dump _ _); [|done]. injection E as <- <-.
  apply bind_at in H as (rc & s2 & E & H). apply prims_create in E; [|done]. etransitivity; [exact E|]. clear E.
  revert H. destruct (negb _); [at_steps|]. at_steps. apply rtc_once, p_create_flag. by left.
Qed.
Lemma does_PumpShareCreates P : stable sha P -> does P PumpShareCreates.
Proof. intros HP. apply does_always. unfold PumpShareCreates. apply does_bind; [done|core_steps|intros n; apply does_pump_shares]. Qed.

Hint Resolve does_PumpShareCreates : core_steps.

Lemma does_do_ShareCreate P k ps md ttl : stable sha P -> does P (do_ShareCreate k ps md ttl).
Proof. intros HP. unfold do_ShareCreate. core_steps. Qed.

Hint Resolve is_step_cancel : core_steps.
Lemma does_connecting_sender P sid : stable sha P -> does P (connecting_sender sid).
Proof.
  intros HP. unfold connecting_sender, share_for, FindShareBySession.
  apply does_bind; [done|core_steps|intros [[k sh]|]]; [|core_steps].
  apply does_bind; [done|core_steps|intros tid]. cbv zeta. apply does_bind; [done|core_steps|intros _].
  intros s _. apply (does_input _ _ _ _ _ _ tid); [by left| |core_steps]. intros t Ht. left. cbn. rewrite Ht. by eexists _, _, _.
Qed.

Lemma does_connecting_receiver P info : stable sha P -> does P (connecting_receiver info).
Proof.
  intros HP. unfold connecting_receiver, receive_for, FindReceiveBySession. cbv zeta.
  apply does_bind; [done|core_steps|intros [[k r]|]]; [|core_steps].
  apply does_bind; [done|core_steps|intros _].
  intros s _. eapply does_input; [by right| |core_steps]. intros t Ht. right. cbn. rewrite Ht. by eexists _, _, _.
Qed.
Hint Resolve does_connecting_sender does_connecting_receiver : core_steps.

Lemma does_OnSession P info : stable sha P -> does P (OnSession info).
Proof. intros HP. unfold OnSession, transfer_at, FindReceiveBySession. core_steps. Qed.
Lemma does_OnStats P sid p : stable sha P -> does P (OnStats sid p).
Proof. intros HP. unfold OnStats, transfer_at. core_steps. Qed.

Lemma does_OnCtrl P sid data : stable sha P -> does P (OnCtrl sha sid data).
Proof.
  intros HP. unfold OnCtrl, transfer_at. apply does_look. intros s Hs. destruct (sm_find sid (transfers_ s)) as [t|] eqn:E; [|at_steps].
  destruct (SessionLink.OnCtrlChunk data (link t)) as [m l]. unfold set_transfer. apply at_modify; [apply rtc_once; by eapply p_transfer|].
  at_steps.
Qed.

Lemma does_do_Linger P sid own : stable sha P -> does P (do_Linger sid own).
Proof. intros HP. unfold do_Linger, transfer_at, LingerThenDrop. core_steps. Qed.

Lemma does_OnNotifications P snapshot : stable sha P -> does P (OnNotifications snapshot).
Proof. intros HP. unfold OnNotifications. core_steps. Qed.
Lemma does_Start P : stable sha P -> does P Start.
Proof. intros HP. unfold Start. core_steps. Qed.

Lemma does_do_TransferPause P tid : stable sha P -> does P (do_TransferPause tid).
Proof. intros HP. unfold do_TransferPause, session_of. core_steps. Qed.
Lemma does_do_TransferResume P tid : stable sha P -> does P (do_TransferResume tid).
Proof. intros HP. unfold do_TransferResume, session_of. core_steps. Qed.

Lemma does_shutdown_cancel P : stable sha P -> does P shutdown_cancel.
Proof. intros HP. unfold shutdown_cancel. core_steps. Qed.
Lemma does_shutdown_drop P : stable sha P -> does P shutdown_drop.
Proof. intros HP. unfold shutdown_drop. core_steps. Qed.

Lemma does_api P c : stable sha P -> does P (api dev c).
Proof.
  intros HP. destruct c; cbn [api]; unfold ShareCreate, ShareClose, ReceiveStart, ReceiveResume, TransferPause, TransferResume,
    TransferCancel, UpdateConfig, post_task; core_steps.
Qed.

Lemma does_for_owner P own f : stable sha P -> (forall k, does P (f k)) -> does P (for_owner own f).
Proof. intros HP H. unfold for_owner. core_steps. Qed.

Lemma does_on_datagram P data sid stream : stable sha P -> does P (on_datagram sha data sid stream).
Proof. intros HP. unfold on_datagram. core_steps. apply does_for_owner; [done|]. unfold transfer_at. core_steps. Qed.
End handlers.

#[export] Hint Resolve is_step_cancel is_step_ready is_step_end is_step_path is_step_ctrl is_step_pause is_step_resume
  is_step_progress is_step_step does_call_session does_CloseShareInternal does_PumpShareCreates does_OnSession does_OnStats
 does_OnCtrl does_do_Linger does_OnNotifications does_Start does_do_TransferPause does_do_TransferResume does_shutdown_cancel does_shutdown_drop does_api does_do_ShareCreate
 does_do_ShareClose does_on_datagram : core_steps.

(** *** What queues claims *)

Section queueing.
Context `{JL : JsonLib} (sha : bytes -> bytes) (dev lc ls : bool).
Implicit Types s : CoreState.
Notation does P m := (does sha lc ls true P m).

Lemma does_pump_claims n : does always (pump_claims n).
Proof.
  induction n as [|n IH]; cbn [pump_claims]; apply does_look; intros s _; (destruct (claim_queue_ s) as [|k rest]; [at_steps|]);
    (destruct (claim_inflight_ s) eqn:Ef; cbn [orb]; [at_steps|]); (destruct (negb _); [at_steps|]); [at_steps|].
  apply at_modify; [frame|]. destruct (sm_find k (receives_ s)) as [r|] eqn:Er; [|by apply IH]. destruct (negb _); [by apply IH|].
  intros a s' H. apply bind_at in H as (rc & s2 & E & H). transitivity s2.
  - clear H. destruct (_ && _); [|by apply (prims_claim sha lc ls true) in E]. apply bind_at in E as (u & s1 & E1 & E).
    assert (Hc : s1.(claim_inflight_) = false) by (unfold upd_receive, receive_at in E1; apply bind_at in E1 as (o & s3 & E3 & E1);
      injection E3 as <- <-; destruct (sm_find k _); by injection E1 as <- <-).
    transitivity s1; [|by apply (prims_claim sha lc ls true) in E]. clear E Hc. revert E1. at_steps.
  - clear E. revert H. destruct (negb (rc =? 0)); at_steps. apply rtc_once, p_claim_flag. by left.
Qed.
Lemma does_PumpClaims P : stable sha P -> does P PumpClaims.
Proof. intros HP. apply does_always. unfold PumpClaims. apply does_bind; [done|core_steps|intros n; apply does_pump_claims]. Qed.
Hint Resolve does_PumpClaims : core_steps.
Lemma does_StartClaim P k : stable sha P -> does P (StartClaim k).
Proof. intros HP. unfold StartClaim. core_steps. Qed.
Hint Resolve does_StartClaim : core_steps.

Lemma does_do_ReceiveStart P k c dir : stable sha P -> does P (do_ReceiveStart k c dir).
Proof. intros HP. unfold do_ReceiveStart, NowMs. core_steps. apply rtc_once, p_erase. Qed.
Lemma does_do_ReceiveResume P k : stable sha P -> does P (do_ReceiveResume k).
Proof. intros HP. unfold do_ReceiveResume, receive_at. core_steps. Qed.
Lemma does_do_TransferCancel P tid : stable sha P -> does P (do_TransferCancel tid).
Proof.
  intros HP. unfold do_TransferCancel, session_of. apply does_bind; [done|core_steps|intros [sid|]]; [core_steps|].
  unfold receive_at. apply does_look. intros s Hs. destruct (sm_find tid (receives_ s)) as [r|] eqn:E; [|at_steps].
  apply at_modify; [frame|]. unfold set_receive. apply at_modify; [|at_steps].
  apply rtc_once, p_receive. right. exists r. split; [by apply sm_find_elem|done].
Qed.

(** A signal that the connection is up resets nothing. *)
Lemma does_OnSignal_up P pid : stable sha P -> does P (OnSignal Peer.MINIRTC_SIGNAL_CONNECTED pid).
Proof.
  intros HP. unfold OnSignal, when. rewrite bool_decide_eq_true_2 by done. cbn [negb andb]. core_steps.
Qed.
Lemma does_RecreatePeer P : stable sha P -> does P RecreatePeer.
Proof. intros HP. unfold RecreatePeer. core_steps. Qed.
Hint Resolve does_RecreatePeer : core_steps.
Lemma does_do_UpdateConfig P next : stable sha P -> does P (do_UpdateConfig dev next).
Proof. intros HP. unfold do_UpdateConfig, SaveConfig_. core_steps. Qed.
End queueing.

#[export] Hint Resolve does_PumpClaims does_StartClaim does_RecreatePeer does_do_TransferCancel does_do_UpdateConfig
  does_do_ReceiveStart does_do_ReceiveResume : core_steps.

(** A share event that answers the creation of a share; the others report on shares that exist. *)
Definition ends_creation (ev : Peer.MiniRtcShareEvent) : bool :=
  match ev with Peer.MINIRTC_SHARE_CREATED | Peer.MINIRTC_SHARE_FAILED => true | _ => false end.

(** The callbacks that answer something. *)
Section answers.
Context `{JL : JsonLib} (sha : bytes -> bytes) (dev : bool) (P : CoreState -> Prop) (HP : stable sha P).
Hint Resolve HP : core_steps.

Lemma does_OnShareEvent lc lq ev sid c exp detail : does sha lc (ends_creation ev) lq P (OnShareEvent ev sid c exp detail).
Proof. unfold OnShareEvent, FindShareByServerId. destruct ev; cbn [ends_creation]; core_steps; apply rtc_once, p_create_flag; by right. Qed.

Lemma does_OnClaimResult ls res sid tok msg : does sha true ls true P (OnClaimResult res sid tok msg).
Proof.
  unfold OnClaimResult. apply does_bind; [done|core_steps; apply rtc_once, p_claim_flag; by right|intros _].
  apply does_look. intros s Hs. destruct (best_entry _ _ _ _) as [[k r]|] eqn:E; [|at_steps].
  apply best_entry_spec in E; [|done]. apply andb_true_iff in E as [E _]. apply String.eqb_eq in E. at_steps.
  apply does_set_receive. cbn. by rewrite E.
Qed.

(** Losing the connection forgets what is in flight. *)
Lemma prims_reset lq s : prims sha true true lq s (s <| share_create_inflight_ := false |> <| claim_inflight_ := false |>).
Proof.
  transitivity (s <| share_create_inflight_ := false |>).
  - apply rtc_once, p_create_flag. by right.
  - apply rtc_once, (p_claim_flag _ _ _ _ (s <| share_create_inflight_ := false |>)). by right.
Qed.
Lemma does_OnSignal st pid : does sha true true true P (OnSignal st pid).
Proof.
  unfold OnSignal, share_at, receive_at. core_steps.
  apply prims_reset.
Qed.
End answers.

(** *** Events *)

Section events.
Context `{JL : JsonLib} (sha : bytes -> bytes) (dev : bool).

(** The tasks that process the answer to a claim, or to the creation of a share; losing the signalling
    connection counts as one. *)
Definition signal_lost (st : Peer.MiniRtcSignalStatus) : bool := negb (bool_decide (st = Peer.MINIRTC_SIGNAL_CONNECTED)).
Definition answers_claim (t : CoreTask) : bool :=
  match t with
  | TaskPeer _ (Peer.on_claim _ _ _ _) => true
  | TaskPeer _ (Peer.on_signal st _) => signal_lost st
  | _ => false
  end.
Definition answers_create (t : CoreTask) : bool :=
  match t with
  | TaskPeer _ (Peer.on_share ev _ _ _ _) => ends_creation ev
  | TaskPeer _ (Peer.on_signal st _) => signal_lost st
  | _ => false
  end.
(** The tasks that queue claims, or change the state of the signalling connection. *)
Definition queues_claims (t : CoreTask) : bool :=
  match t with
  | TaskReceiveStart _ _ _ | TaskReceiveResume _ | TaskCancel _ | TaskUpdateConfig _ => true
  | TaskPeer _ (Peer.on_claim _ _ _ _) | TaskPeer _ (Peer.on_signal _ _) => true
  | _ => false
  end.
(** The task an event runs. *)
Definition task_of (s : CoreState) (e : CoreEvent) : option CoreTask :=
  match e with RunTask n => s.(posted_) !! n | _ => None end.

Lemma does_run_task P t : stable sha P -> does sha (answers_claim t) (answers_create t) (queues_claims t) P (run_task sha dev t).
Proof.
  intros HP. destruct t as [|g t| | | | | | | | | | |]; cbn [run_task answers_claim answers_create queues_claims]; core_steps.
  - unfold run_peer_task. destruct t; cbn [answers_claim answers_create queues_claims]; core_steps.
    + unfold signal_lost. destruct (bool_decide_reflect (st = Peer.MINIRTC_SIGNAL_CONNECTED)) as [->|]; cbn [negb].
      * by apply does_OnSignal_up.
      * by apply does_OnSignal.
    + by apply does_OnShareEvent.
    + by apply does_OnClaimResult.
  - by apply does_for_owner; [|intros k; core_steps].
  - apply does_for_owner; [done|intros k]. apply does_call_session; [done|apply is_step_progress].
Qed.

Lemma does_core_event s e : let t := task_of s e in
  does_at sha (from_option answers_claim false t) (from_option answers_create false t) (from_option queues_claims false t) s (core_event sha dev e).
Proof.
  destruct e; cbn [task_of core_event from_option]; [at_steps| |at_steps|at_steps| |at_steps|at_steps].
  - apply at_look. destruct (posted_ s !! n) as [t|]; cbn [from_option]; [|at_steps]. apply at_modify; [frame|].
    by apply at_does, does_run_task.
  - apply at_does, does_for_owner; [done|intros k]. apply does_call_session; [done|apply is_step_step].
Qed.

(** One event is a sequence of primitive changes. *)
Lemma core_step_prims s e s' : core_step sha dev s e = Ret s' ->
  let t := task_of s e.2 in prims sha (from_option answers_claim false t) (from_option answers_create false t) (from_option queues_claims false t) s s'.
Proof.
  unfold core_step. intros H. destruct (core_event sha dev e.2 (s <| env_ := e.1 |>)) as [[u s1]|] eqn:E; [|done].
  injection H as <-. cbv zeta. transitivity (s <| env_ := e.1 |>); [frame|].
  assert (Ht : task_of (s <| env_ := e.1 |>) e.2 = task_of s e.2) by by destruct e.2. rewrite <- Ht.
  by apply (does_core_event (s <| env_ := e.1 |>) e.2 u).
Qed.

Lemma run_core_prims es s s' : run_core sha dev s es = Ret s' -> prims sha true true true s s'.
Proof.
  revert s. induction es as [|e es IH]; intros s H; cbn in H; [injection H as <-; apply rtc_refl|].
  destruct (core_step sha dev s e) as [s1|] eqn:E; [|done]. transitivity s1; [|by apply IH].
  apply core_step_prims in E. by eapply prims_weaken.
Qed.
End events.
