(* ===== verification/CoreProofs.v ===== *)
(** * Correctness of the core object

    Runs of the core over events in any order: a receive is reported completed only when a session of it
    verified every file; at most one claim and one creation of a share are in flight; what transfers.json
    keeps of the receives is what the next start restores.  Three theorems show where the code falls
    short: an answer taken for that of another request, an update of the configuration that is lost, and a
    stored receive that ends the process at its next start. *)
From S2P Require Export CoreLogic.
From S2P Require Import Json JsonText.
From S2P Require Import TransferSessionProofs.
From S2P Require Import Core CoreLogic.
#[local] Existing Instances TransferSession.state_dec TransferSession.eta_Session TransferSession.eta_Snapshot.
#[local] Open Scope Z_scope.

(** ** What a session reports *)

Section reports.
Context `{JL : JsonLib} (sha : bytes -> bytes).
Implicit Types x y : TransferSession.TransferSession.

Definition ids (p : TransferSession.TransferSnapshot) : string * string * string :=
  (p.(TransferSession.transfer_id), p.(TransferSession.session_id), p.(TransferSession.role)).

(** The session keeps its identity; a state it reports carries it, and a terminal one is where the
    session stays. *)
Definition reports x y : Prop := settled x y /\ ids y.(TransferSession.snap_) = ids x.(TransferSession.snap_) /\
  forall p, p ∈ states_of y.(TransferSession.eff_) -> p ∈ states_of x.(TransferSession.eff_) \/
    (ids p = ids x.(TransferSession.snap_) /\
     (TransferSession.Terminal p.(TransferSession.state) = true ->
      y.(TransferSession.snap_).(TransferSession.state) = p.(TransferSession.state))).

#[export] Instance reports_preorder : PreOrder reports.
Proof.
  split; [intros x; split; [reflexivity|split; [done|by left]]|]. intros x y z (S1 & I1 & P1) (S2 & I2 & P2).
  split; [by transitivity y|]. split; [congruence|]. intros p Hp. destruct (P2 p Hp) as [Hy|[Hi Ht]].
  - destruct (P1 p Hy) as [Hx|[Hi Ht]]; [by left|right]. split; [done|]. intros T. specialize (Ht T).
    destruct S2 as [_ S2]. rewrite <- Ht in T. destruct (S2 T) as [-> _]. done.
  - right. split; [congruence|done].
Qed.

Lemma reports_same x y : y.(TransferSession.is_sender_) = x.(TransferSession.is_sender_) ->
  settled x y -> ids y.(TransferSession.snap_) = ids x.(TransferSession.snap_) ->
  states_of y.(TransferSession.eff_) = states_of x.(TransferSession.eff_) -> reports x y.
Proof. intros R S I E. split; [done|]. split; [done|]. intros p. rewrite E. by left. Qed.

Lemma reports_emit e x : (forall p, e <> TransferSession.OnState p) -> reports x (TransferSession.emit e x).
Proof.
  intros He. apply reports_same; [done|by apply settled_emit|done|]. unfold TransferSession.emit, states_of. cbn.
  rewrite omap_app. destruct e; cbn; rewrite ?app_nil_r; try done. by destruct (He snap).
Qed.

Lemma reports_SetState st x : reports x (TransferSession.SetState st x).
Proof.
  split; [apply settled_SetState|]. unfold TransferSession.SetState. case_if; [split; [done|by left]|]. split; [done|].
  intros p. unfold TransferSession.emit, states_of. cbn. rewrite omap_app. intros [Hp|Hp]%elem_of_app; [by left|right].
  cbn in Hp. apply list_elem_of_singleton in Hp as ->. by split.
Qed.

Lemma reports_progress f x : reports x (TransferSession.EmitProgress f x).
Proof.
  assert (Hr : reports x (TransferSession.read_progress x))
    by (unfold TransferSession.read_progress; repeat case_match; apply reports_same; try done; by apply settled_same).
  unfold TransferSession.EmitProgress. etransitivity; [exact Hr|]. destruct f; [by apply reports_emit|].
  unfold TransferSession.ScheduleProgress. case_if; [reflexivity|].
  transitivity (TransferSession.read_progress x <| TransferSession.progress_scheduled_ := true |>); [|by apply reports_emit].
  by apply reports_same.
Qed.

Lemma reports_SendCtrl m : calm reports (TransferSession.SendCtrl m).
Proof.
  intros x y H. unfold TransferSession.SendCtrl in H. apply bind_ret in H as (t & _ & H). apply ret_inj in H as <-.
  by apply reports_emit.
Qed.

Lemma reports_persist st x : reports x (TransferSession.PersistReceiver sha st x).
Proof. unfold TransferSession.PersistReceiver. case_if; [reflexivity|by apply reports_emit]. Qed.
End reports.

#[export] Hint Resolve reports_SetState reports_progress reports_SendCtrl reports_persist : session.
#[export] Hint Extern 1 (reports _ (TransferSession.emit _ _)) => by apply reports_emit : session.
#[export] Hint Extern 2 (reports _ _) =>
  apply reports_same; [done|first [by apply settled_same|by apply settled_live]|done|done] : session.

Lemma reports_Fail `{JL : JsonLib} c m : calm reports (TransferSession.Fail c m).
Proof. intros x y H. unfold TransferSession.Fail in H. handler H; [undo|]. handler E0; undo. Qed.
Lemma reports_all_done `{JL : JsonLib} x : reports x (TransferSession.OnReceiverAllDone x).
Proof. unfold TransferSession.OnReceiverAllDone. cbv zeta. undo. Qed.
Lemma reports_marks `{JL : JsonLib} l x : reports x (foldl TransferSession.mark_ok x l).
Proof. revert x. induction l as [|v l IH]; intros x; [reflexivity|]. transitivity (TransferSession.mark_ok x v); [auto with session|apply IH]. Qed.
#[export] Hint Resolve reports_Fail reports_all_done reports_marks : session.

Section handlers.
Context `{JL : JsonLib} (sha : bytes -> bytes).
Import TransferSession.

Lemma reports_HandleOffer w rd j : calm reports (HandleOffer sha w rd j).
Proof. intros s s' H. unfold HandleOffer in H. handler H; undo; destruct a0; injection E5 as <- <-; undo. Qed.
Lemma reports_HandleAccept w j : calm reports (HandleAccept w j).
Proof. intros s s' H. unfold HandleAccept in H. handler H; undo. Qed.
Lemma reports_HandleFileAck j ok : calm reports (HandleFileAck j ok).
Proof. intros s s' H. unfold HandleFileAck in H. handler H; undo. Qed.

Lemma reports_OnCtrlMessage w rd text : calm reports (OnCtrlMessage sha w rd text).
Proof.
  intros s s' H. unfold OnCtrlMessage, OnFileDoneMessage in H. pose proof reports_HandleOffer. pose proof reports_HandleAccept.
  pose proof reports_HandleFileAck. handler H; undo.
Qed.

Lemma reports_run_task t : calm reports (run_task sha t).
Proof.
  intros s s' H. unfold run_task, OnSenderFileDone, OnSenderAllDone, OnReceiverFileOk, OnReceiverFileVerified in H. handler H; undo.
Qed.

Lemma reports_step e s s' : session_step sha s e = Ret s' -> reports s s'.
Proof.
  intros H. unfold session_step in H. pose proof reports_OnCtrlMessage. pose proof reports_run_task.
  unfold OnTransportReady, StartOffer, OnSessionEnd, Pause, Resume, Cancel, OnTransportDown, OnPathChanged, progress_task in H.
  handler H; undo.
Qed.
End handlers.

(** ** The invariant of the core *)

Section safety.
Context `{JL : JsonLib} (sha : bytes -> bytes) (dev : bool).
Implicit Types s : CoreState.
Implicit Types x y : TransferSession.TransferSession.
Import TransferSession.
Import Core.

(** A session in the table under [sid]. *)
Record sess_ok (sid : string) x : Prop := {
  so_inv : exists m0, sess_inv sha m0 x;
  so_id : x.(snap_).(TransferSession.session_id) = sid;
  so_role : x.(is_sender_) = String.eqb x.(snap_).(role) "sender";
}.
(** What it just reported is true of it. *)
Definition told x : Prop := forall p, p ∈ states_of x.(eff_) ->
  ids p = ids x.(snap_) /\ (p.(TransferSession.state) = kCompleted -> x.(snap_).(TransferSession.state) = kCompleted).

Record core_inv s : Prop := {
  ci_transfers : forall sid t, (sid, t) ∈ s.(transfers_) -> sess_ok sid t.(session);
  ci_ran : forall sid x, (sid, x) ∈ ran s.(log_) -> sess_ok sid x /\ told x;
  ci_receives : forall k r, (k, r) ∈ s.(receives_) -> r.(r_state) = "completed"%string ->
    exists x, (r.(session_id), x) ∈ ran s.(log_) /\ x.(snap_).(TransferSession.state) = kCompleted /\ x.(is_sender_) = false;
}.

Lemma sess_ok_made sid x : made sid x -> sess_ok sid x.
Proof.
  intros (tid & role & Hr & ->). split; try done. exists Manifest.Manifest_default. by split.
Qed.
Lemma sess_ok_given sid x y : given sid x y -> sess_ok sid y.
Proof.
  intros [(tid & m & fs & -> & ->)|(tid & dir & r & -> & ->)]; split; try done.
  - exists m. apply inv_sender_new.
  - exists Manifest.Manifest_default. apply inv_receiver_new.
Qed.
Lemma sess_ok_step sid x e y : sess_ok sid x -> session_step sha (x <| eff_ := [] |>) e = Ret y -> sess_ok sid y /\ told y.
Proof.
  intros [[m0 Hi] Hid Hr] H. pose proof (reports_step sha e _ _ H) as ([Hs _] & Hids & Hp).
  assert (Hi0 : sess_inv sha m0 (x <| eff_ := [] |>)) by (eapply inv_plain; [|exact Hi]; by apply plain_same).
  pose proof (inv_step sha m0 _ _ _ Hi0 H) as Hi'. cbn in Hs, Hids. unfold ids in Hids.
  injection Hids as E1 E2 E3. split.
  - split; [by exists m0|congruence|]. by rewrite Hs, E3.
  - intros p Hin. destruct (Hp p Hin) as [Hin'|[Hip Ht]]; [by apply elem_of_nil in Hin'|].
    split; [rewrite Hip; unfold ids; cbn; congruence|]. intros Hc. rewrite Hc in Ht. by apply Ht.
Qed.

(** The receives and the history stay, and every session of the table is one that may be there. *)
Lemma core_inv_transfers s s' : core_inv s -> s'.(receives_) = s.(receives_) -> ran s'.(log_) = ran s.(log_) ->
  (forall sid t, (sid, t) ∈ s'.(transfers_) -> (sid, t) ∈ s.(transfers_) \/ sess_ok sid t.(session)) -> core_inv s'.
Proof.
  intros [T R C] Er El Ht. split; rewrite ?Er, ?El; try done. intros sid t Hin. destruct (Ht sid t Hin); eauto.
Qed.
Lemma core_inv_receives s m : core_inv s ->
  (forall k r, (k, r) ∈ m -> (exists k', (k', r) ∈ s.(receives_)) \/ (r.(r_state) = "completed"%string ->
    exists x, (r.(session_id), x) ∈ ran s.(log_) /\ x.(snap_).(TransferSession.state) = kCompleted /\ x.(is_sender_) = false)) ->
  core_inv (s <| receives_ := m |>).
Proof.
  intros [T R C] Hm. split; try done. cbn. intros k r Hin Hc. destruct (Hm k r Hin) as [[k' Hin']|H]; eauto.
Qed.

Lemma ran_log_call c s : ran (log_call c s).(log_) = ran s.(log_).
Proof. unfold log_call, ran. cbn. rewrite omap_app. cbn. by rewrite app_nil_r. Qed.

Lemma ran_session s f sid x : ran (s <| transfers_ ::= f |> <| log_ ::= (fun l => l ++ [Ran sid x]) |>).(log_) = ran s.(log_) ++ [(sid, x)].
Proof. unfold ran. cbn. by rewrite omap_app. Qed.

Lemma completed_name st : TransferStateName st = "completed"%string -> st = kCompleted.
Proof. by destruct st. Qed.

Lemma core_inv_prim lc ls lq s s' : prim sha lc ls lq s s' -> core_inv s -> core_inv s'.
Proof.
  intros H Hi. destruct H as [s s' F|s a b _|s b _|s a b c _|s b _|s k v Hv|s k r p sid x Hx Hp Hrole Hid|s k|s m Hm|
    s sid t e x Ht Hs|s sid t t' Ht He|s sid t Hm|s sid t t' Ht Hg|s sid|s].
  - apply (core_inv_transfers s); [done|apply F|apply F|]. rewrite (fr_transfers _ _ _ F). by left.
  - apply (core_inv_transfers s); [done|done|apply ran_log_call|by left].
  - by apply (core_inv_transfers s); [| | |left].
  - apply (core_inv_transfers s); [done|done|apply ran_log_call|by left].
  - by apply (core_inv_transfers s); [| | |left].
  - apply core_inv_receives; [done|]. intros k0 r0 [[= -> ->]|Hin]%sm_set_elem; [right|left; by exists k0].
    intros Hc. destruct Hv as [?|(r & Hr & E1 & E2)]; [done|]. rewrite E2. eapply (ci_receives s Hi); [done|congruence].
  - apply core_inv_receives; [done|]. intros k0 r0 [[= -> ->]|Hin]%sm_set_elem; [right|left; by exists k0].
    intros Hc. destruct (ci_ran s Hi _ _ Hx) as [[_ E Er] Ht]. destruct (Ht p Hp) as [Hids Hcp].
    assert (E1 : TransferStateName p.(TransferSession.state) = "completed"%string /\
      (receive_after p r).(session_id) = r.(session_id))
      by (unfold receive_after in *; repeat case_match; cbn in Hc; try done).
    destruct E1 as [E1 E2]. exists x. unfold ids in Hids. injection Hids as I1 I2 I3. rewrite E2, Hid, I2, E.
    split; [done|]. split; [by apply Hcp, completed_name|]. rewrite Er, <- I3. by apply String.eqb_neq.
  - apply core_inv_receives; [done|]. intros k0 r0 Hin%sm_erase_elem. left. by exists k0.
  - apply core_inv_receives; [done|]. intros k0 r0 Hin. destruct (Hm _ Hin) as [?|?]; [left; by exists k0|by right].
  - apply sm_find_elem in Ht. destruct (sess_ok_step sid (session t) e x) as [Ho Htold]; [by apply (ci_transfers s Hi)|done|].
    destruct Hi as [T R C]. split; rewrite ?ran_session.
    + intros sid0 t0 [[= -> ->]|Hin]%sm_set_elem; [done|by apply T].
    + intros sid0 x0 [Hin|Hin]%elem_of_app; [by apply R|]. apply list_elem_of_singleton in Hin. by injection Hin as -> ->.
    + intros k r Hin Hc. destruct (C k r Hin Hc) as (y & Hy & ?). exists y. split; [apply elem_of_app; by left|done].
  - apply (core_inv_transfers s); try done. cbn. intros sid0 t0 [[= -> ->]|Hin]%sm_set_elem; [right|by left].
    rewrite He. apply (ci_transfers s Hi). by apply sm_find_elem.
  - apply (core_inv_transfers s); try done. cbn. intros sid0 t0 [[= -> ->]|Hin]%sm_set_elem; [right|by left].
    by apply sess_ok_made.
  - apply (core_inv_transfers s); try done. cbn. intros sid0 t0 [[= -> ->]|Hin]%sm_set_elem; [right|by left].
    by eapply sess_ok_given.
  - apply (core_inv_transfers s); try done. cbn. intros sid0 t0 Hin%sm_erase_elem. by left.
  - apply (core_inv_transfers s); try done. cbn. by intros sid0 t0 Hin%elem_of_nil.
Qed.

Lemma core_inv_prims lc ls lq s s' : prims sha lc ls lq s s' -> core_inv s -> core_inv s'.
Proof. induction 1 as [|s1 s2 s3 Hp _ IH]; [done|]. intros Hi. by eapply IH, core_inv_prim. Qed.

Lemma Create_inv svc lnk config w s : Create dev svc lnk config w = Ret (inr s) -> core_inv s.
Proof.
  unfold Create. intros H. repeat case_match; try done; apply bind_ret in H as ([u v] & _ & H); injection H as <-;
    split; cbn; by intros ?? ?%elem_of_nil.
Qed.

(** C7: A receive that the core shows as completed, and writes to transfers.json as such, belongs to a
    session whose receiving engine verified the hash of every file.  This holds over every
    interleaving of API calls, callbacks of the library, datagrams, engine steps and tasks. *)
Theorem completed_receive_verified svc lnk config w s0 es s k r :
  Create dev svc lnk config w = Ret (inr s0) -> run_core sha dev s0 es = Ret s ->
  (k, r) ∈ s.(receives_) -> r.(r_state) = "completed"%string ->
  exists x rx, Ran r.(session_id) x ∈ s.(log_) /\ x.(snap_).(TransferSession.state) = kCompleted /\
    x.(receiver_) = Some rx /\ forall i f, rx.(Receiver.rx_) !! i = Some f -> f.(Receiver.verified) = true.
Proof.
  intros H0 H Hr Hc. apply Create_inv in H0. apply run_core_prims in H.
  pose proof (core_inv_prims _ _ _ _ _ H H0) as Hi. destruct (ci_receives s Hi k r Hr Hc) as (x & Hx & Hxc & Hxr).
  destruct (ci_ran s Hi _ _ Hx) as [[[m0 Hinv] _ _] _]. destruct (si_receiver sha m0 x Hinv Hxr) as (_ & B & C).
  specialize (C Hxc). unfold receiver_finished in C. destruct (receiver_ x) as [rx|] eqn:Erx; [|done]. exists x, rx.
  split; [|split; [done|split; [done|]]].
  - apply list_elem_of_omap in Hx as (e & He & Hex). destruct e; try done. by injection Hex as -> ->.
  - intros i f Hk. pose proof (ReceiverDone.dn_finished _ (B rx eq_refl) C) as Ha. unfold Receiver.AllVerified in Ha.
    rewrite forallb_forall in Ha. apply Ha, list_elem_of_In. by eapply list_elem_of_lookup_2.
Qed.

(** ** One request at a time *)

Lemma calls_log p c s : calls_of p (log_call c s).(log_) = calls_of p s.(log_) ++ (if p c then [c] else []).
Proof. unfold log_call, calls_of. cbn. rewrite omap_app. cbn. by destruct (p c). Qed.
Lemma calls_session p f s sid x :
  calls_of p (s <| transfers_ ::= f |> <| log_ ::= (fun l => l ++ [Ran sid x]) |>).(log_) = calls_of p s.(log_).
Proof. unfold calls_of. cbn. rewrite omap_app. cbn. by rewrite app_nil_r. Qed.

Lemma prim_claim_kept ls lq s s' : prim sha false ls lq s s' -> s.(claim_inflight_) = true ->
  s'.(claim_inflight_) = true /\ claims s'.(log_) = claims s.(log_).
Proof.
  intros H Hf. destruct H as [s s' F|s a b ?|s b Hb|s a b c _|s b _| | | | |s sid t e x| | | | | ]; try done; try congruence.
  - by rewrite (fr_claim _ _ _ F), (fr_claims _ _ _ F).
  - by destruct Hb as [->|].
  - split; [done|]. unfold claims. rewrite calls_log. apply app_nil_r.
  - split; [done|]. apply calls_session.
Qed.
Lemma prim_create_kept lc lq s s' : prim sha lc false lq s s' -> s.(share_create_inflight_) = true ->
  s'.(share_create_inflight_) = true /\ creations s'.(log_) = creations s.(log_).
Proof.
  intros H Hf. destruct H as [s s' F|s a b ?|s b Hb|s a b c ?|s b Hb| | | | |s sid t e x| | | | | ]; try done; try congruence.
  - by rewrite (fr_create _ _ _ F), (fr_creations _ _ _ F).
  - split; [done|]. unfold creations. rewrite calls_log. apply app_nil_r.
  - by destruct Hb as [->|].
  - split; [done|]. apply calls_session.
Qed.

Lemma prims_claim_kept ls lq s s' : prims sha false ls lq s s' -> s.(claim_inflight_) = true ->
  s'.(claim_inflight_) = true /\ claims s'.(log_) = claims s.(log_).
Proof. induction 1 as [|s1 s2 s3 Hp _ IH]; intros Hf; [done|]. destruct (prim_claim_kept _ _ _ _ Hp Hf) as [A <-]. by apply IH. Qed.
Lemma prims_create_kept lc lq s s' : prims sha lc false lq s s' -> s.(share_create_inflight_) = true ->
  s'.(share_create_inflight_) = true /\ creations s'.(log_) = creations s.(log_).
Proof. induction 1 as [|s1 s2 s3 Hp _ IH]; intros Hf; [done|]. destruct (prim_create_kept _ _ _ _ Hp Hf) as [A <-]. by apply IH. Qed.

(** C8: At most one claim and one creation of a share are in flight: while one is, no event makes another
    call or forgets the one that is made, whatever is queued, until its answer is processed or the
    signalling connection is lost. *)
Theorem requests_one_at_a_time s e s' : core_step sha dev s e = Ret s' ->
  (s.(claim_inflight_) = true -> from_option answers_claim false (task_of s e.2) = false ->
   s'.(claim_inflight_) = true /\ claims s'.(log_) = claims s.(log_)) /\
  (s.(share_create_inflight_) = true -> from_option answers_create false (task_of s e.2) = false ->
   s'.(share_create_inflight_) = true /\ creations s'.(log_) = creations s.(log_)).
Proof.
  intros H. apply core_step_prims in H. cbv zeta in H. split; intros Hf Ha; rewrite Ha in H; clear Ha.
  - by apply (prims_claim_kept _ _ _ _ H).
  - by apply (prims_create_kept _ _ _ _ H).
Qed.
End safety.

(** ** Restarts *)

Section restart.
Context `{JL : JsonLib}.
Implicit Types s : CoreState.
Implicit Types r : Receive.

(** What the next start shows of a receive. *)
Definition interrupted r : Receive :=
  Receive_default <| transfer_id := r.(transfer_id) |> <| r_code := r.(r_code) |> <| r_save_dir := r.(r_save_dir) |>
    <| resume_token := r.(resume_token) |> <| r_state := "interrupted"%string |> <| error_code := r.(error_code) |>
    <| created_at := r.(created_at) |> <| meta_json := r.(meta_json) |> <| record := r.(record) |>.

(** A receive of a well-formed table; its key is its id. *)
Record entry_ok (e : string * Receive) : Prop := {
  eo_key : e.1 = e.2.(transfer_id);
  eo_id : e.2.(transfer_id) <> ""%string;
  eo_code : e.2.(r_code) <> ""%string;
  eo_time : i64 e.2.(created_at) = e.2.(created_at);
}.

(** As [interrupted], with the record as it was read. *)
Definition restored r (rec : json) : Receive := interrupted r <| record := rec |>.

Lemma load_receive_doc m e j : entry_ok e -> reads_as (receive_doc e.2) j ->
  exists rec, load_receive m j = Ret (sm_set e.1 (restored e.2 rec) m) /\ reads_as e.2.(record) rec.
Proof.
  intros [K I C T] Hj. destruct (reads_obj _ _ Hj) as (Ho & _).
  assert (Hs : forall k (v : string), (list_to_map [("transfer_id", jstr e.2.(transfer_id)); ("code", jstr e.2.(r_code)); ("save_dir", jstr e.2.(r_save_dir));
        ("resume_token", jstr e.2.(resume_token)); ("state", jstr e.2.(r_state)); ("error_code", jstr e.2.(error_code));
        ("created_at", jint e.2.(created_at)); ("meta", jstr e.2.(meta_json)); ("record", e.2.(record))]%string : gmap string json) !! k = Some (jstr v) ->
      value_ get_string j k ""%string = Ret v).
  { intros k v E. eapply reads_value; [exact Hj|exact E|]. intros v'. apply reads_str. }
  destruct (reads_member _ _ "record" e.2.(record) Hj) as (rec & Hf & Hrec); [by cbn; simplify_map_eq|].
  exists rec. split; [|done]. unfold load_receive. rewrite Ho. cbn [negb].
  rewrite (Hs "transfer_id"%string (transfer_id e.2)) by (by cbn; simplify_map_eq). rewrite (Hs "code"%string (r_code e.2)) by (by cbn; simplify_map_eq).
  rewrite (Hs "save_dir"%string (r_save_dir e.2)) by (by cbn; simplify_map_eq).
  rewrite (Hs "resume_token"%string (resume_token e.2)) by (by cbn; simplify_map_eq).
  rewrite (Hs "error_code"%string (error_code e.2)) by (by cbn; simplify_map_eq). rewrite (Hs "meta"%string (meta_json e.2)) by (by cbn; simplify_map_eq).
  rewrite (reads_value get_i64 _ j "created_at" 0 (jint (created_at e.2)) (created_at e.2) Hj); [|by cbn; simplify_map_eq|].
  - rewrite Hf. unfold mbind, outcome_bind. destruct (String.eqb_spec (transfer_id e.2) ""); [done|].
    destruct (String.eqb_spec (r_code e.2) ""); [done|]. by rewrite K.
  - intros v' Hv. unfold get_i64. rewrite (reads_int _ _ Hv). unfold mbind, outcome_bind. by rewrite T.
Qed.

(** Loading saved receives over a table of others. *)
Lemma load_saved (m : list (string * Receive)) js acc : Forall entry_ok m -> NoDup m.*1 ->
  Forall2 reads_as (receive_doc <$> List.filter unfinished (snd <$> m)) js ->
  exists m', load_receives js acc = Ret m' /\
    forall k, match sm_find k m with
      | Some r => if unfinished r then exists rec, sm_find k m' = Some (restored r rec) /\ reads_as r.(record) rec
                  else sm_find k m' = sm_find k acc
      | None => sm_find k m' = sm_find k acc
      end.
Proof.
  revert js acc. induction m as [|[k0 r0] m IH]; intros js acc Hok Hnd Hjs; [inversion Hjs; subst; by exists acc|].
  apply Forall_cons in Hok as [Hok0 Hok]. cbn in Hnd. apply NoDup_cons in Hnd as [Hk0 Hnd].
  assert (Hnone : sm_find k0 m = None).
  { destruct (sm_find k0 m) as [r|] eqn:E; [|done]. destruct Hk0. apply sm_find_elem in E. by apply (list_elem_of_fmap_2 fst) in E. }
  cbn [fmap list_fmap snd List.filter] in Hjs. assert (Hf : forall k, sm_find k ((k0, r0) :: m) = if String.eqb k k0 then Some r0 else sm_find k m) by done.
  destruct (unfinished r0) eqn:Eu.
  - cbn [fmap list_fmap] in Hjs. apply Forall2_cons_inv_l in Hjs as (j & js' & Hj & Hjs & ->).
    destruct (load_receive_doc acc (k0, r0) j Hok0 Hj) as (rec & El & Hrec). cbn [fst snd] in El. cbn [load_receives]. rewrite El.
    destruct (IH js' (sm_set k0 (restored r0 rec) acc) Hok Hnd Hjs) as (m' & E & Hm). exists m'. split; [exact E|]. intros k.
    specialize (Hm k). rewrite Hf. destruct (String.eqb_spec k k0) as [->|Hne].
    + rewrite Hnone, sm_find_set in Hm. rewrite Eu. by exists rec.
    + rewrite sm_find_set_ne in Hm by done. exact Hm.
  - destruct (IH js acc Hok Hnd Hjs) as (m' & E & Hm). exists m'. split; [exact E|]. intros k. specialize (Hm k). rewrite Hf.
    destruct (String.eqb_spec k k0) as [->|Hne]; [|done]. rewrite Hnone in Hm. by rewrite Eu.
Qed.

(** C10: What [SaveReceives] writes, [LoadReceives] reads at the next start: every receive that was neither
    completed nor cancelled is back as interrupted, with its code, directory, token, error, time and meta data, and with
    its resume record as the JSON library reads it back (an integer that is not negative may have become unsigned); no
    other receive appears.  The table is keyed by the ids, ids and codes are not empty, and the file can be read. *)
Theorem receives_survive_restart s w s2 :
  let doc := Storage.receives_doc (receives_array s.(receives_)) in
  (forall text, dump 2 doc = Ret text -> reads_as doc (parse text)) ->
  Forall entry_ok s.(receives_) -> NoDup s.(receives_).*1 ->
  Storage.SaveReceives s.(data_dir_) (receives_array s.(receives_)) s.(disk_) = Ret (true, w) ->
  s2.(data_dir_) = s.(data_dir_) -> s2.(disk_) = w -> FileIO.no_error (FileIO.next_calls w).1 -> s2.(receives_) = [] ->
  (exists s1, SaveReceives s = Ret (tt, s1) /\ s1.(disk_) = w) /\
  exists s3, LoadReceives s2 = Ret (tt, s3) /\
    forall k, match (r ← sm_find k s.(receives_); if unfinished r then Some r else None) with
      | Some r => exists rec, sm_find k s3.(receives_) = Some (restored r rec) /\ reads_as r.(record) rec
      | None => sm_find k s3.(receives_) = None
      end.
Proof.
  cbv zeta. intros Hp Hok Hnd Hs Hdir Hw Hne Hr. split.
  { unfold SaveReceives, mbind, core_bind, gets, of_outcome. unfold mbind, outcome_bind. rewrite Hs. by eexists. }
  pose proof (Storage.receives_reload _ _ _ _ Hp Hs Hne) as Hl.
  destruct (load_saved (receives_ s) _ [] Hok Hnd Hl) as (m' & E & Hm).
  unfold LoadReceives, mbind, core_bind, gets, of_outcome. unfold mbind, outcome_bind. rewrite Hdir, Hw, Hr.
  destruct (Storage.LoadReceives _ _) as [js w2]. cbn in E. rewrite E.
  eexists. split; [done|]. intros k. specialize (Hm k). cbn. destruct (sm_find k (receives_ s)) as [r|]; [|done]. cbn. by destruct (unfinished r).
Qed.

(** One member of transfers.json of another type than expected, and every start of the core raises:
    nothing catches the exception of [value()], so the process ends. *)
Theorem bad_receive_raises s j v :
  j ∈ elements_of (Storage.LoadReceives s.(data_dir_) s.(disk_)).1 -> Json.find j "transfer_id" = Some v -> get_string v = Throw ->
  Start s = Throw.
Proof.
  intros Hj Hv Ht. unfold Start, LoadReceives, mbind, core_bind, gets, of_outcome. unfold mbind, outcome_bind.
  destruct (Storage.LoadReceives _ _) as [js w2]. cbn in Hj.
  enough (E : load_receives (elements_of js) (receives_ s) = Throw) by by rewrite E. generalize (receives_ s). revert Hj.
  generalize (elements_of js). clear js. intros js. induction js as [|j1 js IH]; intros Hj m; [by apply elem_of_nil in Hj|].
  cbn [load_receives]. apply elem_of_cons in Hj as [<-|Hj].
  - unfold load_receive, is_object, value_, mbind, outcome_bind. unfold Json.find in Hv. destruct (view j); try done. cbn [negb]. by rewrite Hv, Ht.
  - unfold mbind, outcome_bind. destruct (load_receive m j1); [by apply IH|done].
Qed.
End restart.

(** ** Witnesses and runs *)

Section runs.
#[local] Existing Instance sample_json.

Definition core_disk : FileIO.World := FileIO.mkWorld ∅ {[ sbytes "/d" ]} [].
Definition core_config : jtree :=
  JT (VObject (list_to_map [("data_dir", JT (VString "/d"));
    ("server", JT (VObject (list_to_map [("host", JT (VString "h"))])))]))%string.
(** A file system whose every path is a file of three bytes, and a step whose random bytes are all [r]. *)
Definition three_bytes : Manifest.FileSystem :=
  Manifest.mkFS (fun _ => inr Manifest.Regular) (fun s => s) (fun _ => Some 3) (fun _ => inl ""%string).
Definition answers (r : Z) : Inputs :=
  Inputs_none <| in_world := ReceiverProofs.sample_world |> <| in_rng := replicate 6 r |> <| in_fs := three_bytes |>.
Definition core_none : CoreState :=
  mkCore (Config.Config_new true "" "") [] core_disk false None 0 "" false jnull [] [] false [] [] false [] [] 0 0 [] [] (answers 0).
Notation created := (Create true "" "" core_config core_disk).
Definition core_started : CoreState := match the (inl ""%string) created with inr s => s | inl _ => core_none end.
Definition connected : list CoreEvent := [RunTask 0; Callback (Peer.on_signal Peer.MINIRTC_SIGNAL_CONNECTED "p"); RunTask 0].

(** A receive from its code to its completion: claim, session, offer, hash, block, verification. *)
Definition on_session (st : Peer.MiniRtcSessionStatus) (p : Peer.MiniRtcPath) : CoreEvent :=
  Callback (Peer.on_session (Peer.mkSessionInfo st "s1" "receiver" "tok" "" p "")).
Definition on_ctrl (m : string) : CoreEvent := Callback (Peer.on_ctrl "s1" (1 :: sbytes m)).
Definition receive_events : list CoreEvent :=
  connected ++
  [Api (ApiReceiveStart "7K3QXA9MPT" (of_sbytes ReceiverProofs.sample_save)); RunTask 0;
   Callback (Peer.on_claim Peer.MINIRTC_CLAIM_OK "s1" "tok" ""); RunTask 0;
   on_session Peer.MINIRTC_SESSION_CONNECTING Peer.MINIRTC_PATH_UNKNOWN; RunTask 0;
   on_session Peer.MINIRTC_SESSION_CONNECTED Peer.MINIRTC_PATH_P2P; RunTask 0;
   on_ctrl "offer"; RunTask 0; on_ctrl "file_done"; RunTask 2;
   Datagram ReceiverProofs.sample_block "s1" Protocol.kStreamData;
   Engine 0 (WriterTurn ReceiverProofs.sample_view 10 11 12); Engine 0 (WriterTurn ReceiverProofs.sample_view 20 21 22);
   Engine 0 EngineCallback; Engine 0 EngineCallback; Engine 0 EngineCallback; Engine 0 EngineCallback;
   on_ctrl "transfer_done"; RunTask 2].
Notation received := (run_core ReceiverProofs.sample_sha true core_started (pair (answers 0) <$> receive_events)).

Lemma created_ok : created = Ret (inr core_started).
Proof.
  assert (H : match created with Ret (inr _) => true | _ => false end = true) by (vm_compute; reflexivity).
  unfold core_started. by destruct (Create (JL := sample_json) true "" "" core_config core_disk) as [[e|s]|].
Qed.

Lemma completed_receive_verified_witness :
  exists k r x rx, (k, r) ∈ (the core_none received).(receives_) /\ r.(r_state) = "completed"%string /\
    Ran r.(session_id) x ∈ (the core_none received).(log_) /\
    x.(TransferSession.receiver_) = Some rx /\ forall i f, rx.(Receiver.rx_) !! i = Some f -> f.(Receiver.verified) = true.
Proof.
  assert (H : returns received = true) by (vm_compute; reflexivity).
  assert (Hr : (fun e => (e.1, e.2.(r_state))) <$> (the core_none received).(receives_) = [("rx_000000000000", "completed")]%string)
    by (vm_compute; reflexivity).
  destruct (the core_none received).(receives_) as [|[k r] m] eqn:Em; [done|]. injection Hr as Hk Hc _.
  destruct (completed_receive_verified (JL := sample_json) ReceiverProofs.sample_sha true "" "" core_config core_disk core_started
    (pair (answers 0) <$> receive_events) (the core_none received) k r) as (x & rx & A & _ & B & C);
    [exact created_ok|exact (the_ret core_none _ H)|rewrite Em; left|exact Hc|].
  exists k, r, x, rx. split; [left|]. split; [exact Hc|]. split; [exact A|]. split; [exact B|exact C].
Defined.

(** Two receives are started; while the first claim is in flight the second waits. *)
Definition two_claims : list CoreEvent := connected ++ [Api (ApiReceiveStart "7K3QXA9MPT" ""); RunTask 0].
Notation claimed := (run_core ReceiverProofs.sample_sha true core_started (pair (answers 0) <$> two_claims)).
Definition queued : CoreState := the core_none (core_step ReceiverProofs.sample_sha true (the core_none claimed) (answers 1, Api (ApiReceiveStart "ABCDEFGHJK" ""))).
Notation second := (core_step ReceiverProofs.sample_sha true queued (answers 0, RunTask 0)).

Lemma requests_one_at_a_time_witness :
  (the core_none second).(claim_inflight_) = true /\ length (claims (the core_none second).(log_)) = 1%nat /\
  (the core_none second).(claim_queue_) = ["rx_010101010101"]%string.
Proof.
  assert (H : returns second = true) by (vm_compute; reflexivity).
  assert (Hf : queued.(claim_inflight_) = true /\ length (claims queued.(log_)) = 1%nat) by (split; vm_compute; reflexivity).
  destruct (requests_one_at_a_time (JL := sample_json) ReceiverProofs.sample_sha true queued (answers 0, RunTask 0) (the core_none second)) as [A _];
    [exact (the_ret core_none _ H)|]. destruct A as [A B]; [exact (proj1 Hf)|vm_compute; reflexivity|].
  split; [exact A|]. rewrite B. split; [exact (proj2 Hf)|vm_compute; reflexivity].
Defined.

(** An open share, then a share for one receiver; the service answers the first. *)
Definition crossed_events : list (Inputs * CoreEvent) :=
  (pair (answers 0) <$> connected) ++
  [(answers 9, Api (ApiShareCreate ["a"%string] (jobj [("mode"%string, jstr "open")]))); (answers 0, RunTask 0);
   (answers 1, Api (ApiShareCreate ["b"%string] (jobj [("mode"%string, jstr "once")]))); (answers 0, RunTask 0);
   (answers 0, Callback (Peer.on_share Peer.MINIRTC_SHARE_CREATED "srv" "7K3QXA9MPT" 0 "")); (answers 0, RunTask 0)].

(** The answer to the creation of a share goes to the first share in the order of the random ids that
    is still without one, whichever was asked for: here the service created the open share, and the
    share for one receiver, whose creation was never asked for, shows its code. *)
Theorem share_answer_crosses :
  exists s meta, run_core ReceiverProofs.sample_sha true core_started crossed_events = Ret s /\
    creations s.(log_) = [Peer.MiniRtcCreateShare "open" 600 meta] /\
    (fun e => (e.2.(mode), e.2.(state), e.2.(code))) <$> s.(shares_) =
      [("once", "ready", "7K3QXA9MPT"); ("open", "creating", "")]%string /\
    s.(share_create_queue_) = [] /\ s.(share_create_inflight_) = false.
Proof.
  assert (H : returns (run_core ReceiverProofs.sample_sha true core_started crossed_events) = true) by (vm_compute; reflexivity).
  exists (the core_none (run_core ReceiverProofs.sample_sha true core_started crossed_events)), "?"%string.
  split; [exact (the_ret core_none _ H)|]. do 3 (split; [vm_compute; reflexivity|]). vm_compute; reflexivity.
Qed.
(** Two updates, then their tasks. *)
Definition two_updates : list CoreEvent :=
  [RunTask 0; Api (ApiUpdateConfig (jobj [("save_dir"%string, jstr "/a")]));
   Api (ApiUpdateConfig (jobj [("log_level"%string, jstr "debug")])); RunTask 0; RunTask 0].

(** The configuration a call starts from is read when the call is made, and the whole of it replaced
    when its task runs: of two updates made one after the other the first is lost when its task has not
    run yet, although both were accepted. *)
Theorem config_update_lost :
  exists s, run_core ReceiverProofs.sample_sha true core_started (pair (answers 0) <$> two_updates) = Ret s /\
    s.(cfg_).(Config.log_level) = "debug"%string /\ s.(cfg_).(Config.save_dir) = core_started.(cfg_).(Config.save_dir) /\
    core_started.(cfg_).(Config.save_dir) = "/d/received"%string.
Proof.
  assert (H : returns (run_core ReceiverProofs.sample_sha true core_started (pair (answers 0) <$> two_updates)) = true) by (vm_compute; reflexivity).
  exists (the core_none (run_core ReceiverProofs.sample_sha true core_started (pair (answers 0) <$> two_updates))).
  split; [exact (the_ret core_none _ H)|]. do 2 (split; [vm_compute; reflexivity|]). vm_compute; reflexivity.
Qed.
End runs.

(** Saved as text and read back; the time and the numbers of the record come back unsigned. *)
Definition saved_receives : list (string * Receive (JL := JsonText)) :=
  [("rx_1", Receive_default (JL := JsonText) <| transfer_id := "rx_1"%string |> <| r_code := "7K3QXA9MPT"%string |> <| r_state := "transferring"%string |>
     <| created_at := 1700000000000 |> <| record := jobj (JL := JsonText) [("names", jobj (JL := JsonText) [("a", jstr (JL := JsonText) "a (1)")]);
       ("files", jarr (JL := JsonText) [jint (JL := JsonText) 3])]%string |>);
   ("rx_2", Receive_default (JL := JsonText) <| transfer_id := "rx_2"%string |> <| r_code := "ABCDEFGHJK"%string |> <| r_state := "completed"%string |>)]%string.
Definition resting (JL : JsonLib) (w : FileIO.World) (m : list (string * Receive)) : CoreState :=
  mkCore (Config.Config_new true "" "") (sbytes "/d") w false None 0 "" false jnull [] [] false m [] false [] [] 0 0 [] [] Inputs_none.

Lemma receives_survive_restart_witness :
  exists w s3 rec, LoadReceives (JL := JsonText) (resting JsonText w []) = Ret (tt, s3) /\
    sm_find "rx_1" s3.(receives_) = Some (restored (JL := JsonText) (default (Receive_default (JL := JsonText)) (sm_find "rx_1" saved_receives)) rec) /\
    sm_find "rx_2" s3.(receives_) = None.
Proof.
  assert (Hs : exists w, Storage.SaveReceives (JL := JsonText) (sbytes "/d") (receives_array (JL := JsonText) saved_receives) core_disk = Ret (true, w) /\
    FileIO.no_error (FileIO.next_calls w).1) by (eexists; split; [vm_compute; reflexivity|constructor]).
  destruct Hs as (w & Hs & Hn). exists w.
  destruct (receives_survive_restart (JL := JsonText) (resting JsonText core_disk saved_receives) w (resting JsonText w [])) as (_ & s3 & E & Hm);
    [|repeat constructor; done| |exact Hs|reflexivity|reflexivity|exact Hn|reflexivity|].
  - intros text Ht. apply (reads_b_sound 32). assert (E : match dump (JsonLib := JsonText) 2 (Storage.receives_doc (JL := JsonText) (receives_array (JL := JsonText) saved_receives)) with
      Ret text => reads_b 32 (Storage.receives_doc (JL := JsonText) (receives_array (JL := JsonText) saved_receives)) (text_parse text) | Throw => true end = true)
      by (vm_compute; reflexivity). cbn [receives_ resting] in Ht. rewrite Ht in E. exact E.
  - apply NoDup_cons. split; [|apply NoDup_singleton]. by intros ?%list_elem_of_singleton.
  - destruct (Hm "rx_1"%string) as (rec & E1 & _). exists s3, rec. split; [exact E|]. split; [exact E1|exact (Hm "rx_2"%string)].
Defined.

(** A transfers.json whose entry has a number for its id. *)
Definition misread : JsonLib := JsonTreeWith (fun _ => jobj (JL := JsonTree)
  [("receives", jarr (JL := JsonTree) [jobj (JL := JsonTree) [("transfer_id", juns (JL := JsonTree) 7)]])]%string).
Lemma bad_receive_raises_witness :
  Start (JL := misread) (resting misread (FileIO.mkWorld {[ Storage.receives_path (sbytes "/d") := sbytes "?" ]} ∅ []) []) = Throw.
Proof.
  eapply (bad_receive_raises (JL := misread)); [left|vm_compute; reflexivity|vm_compute; reflexivity].
Defined.
