(* ===== verification/CoreQueue.v ===== *)
(** * The queue of claims never idles

    A receive whose claim is queued waits only for the signalling connection or for the answer to the
    claim in flight: every handler that could leave a claim behind ends with [PumpClaims], and the fuel of
    that loop is enough.  The handlers that touch neither the queue nor the connection are covered by the
    logic of [CoreLogic]; the others are taken one by one. *)
From S2P Require Export CoreLogic.
From S2P Require Import Json.
From S2P Require Import Core CoreLogic.
From S2P Require CoreProofs TransferSessionProofs.
#[local] Open Scope Z_scope.

Section queue.
Context `{JL : JsonLib} (sha : bytes -> bytes) (dev : bool).
Implicit Types s : CoreState.

(** Something will move the queue. *)
Definition moving s : Prop := s.(claim_queue_) = [] \/ s.(claim_inflight_) = true \/ s.(signal_connected_) = false.

(** ** Quiet changes *)

Lemma prim_queue lc ls s s' : prim sha lc ls false s s' ->
  s'.(claim_queue_) = s.(claim_queue_) /\ s'.(signal_connected_) = s.(signal_connected_).
Proof. intros H. destruct H as [s s' F| | | | | | | | | | | | | | ]; try done. by apply (fr_queue _ _ _ F). Qed.
Lemma prims_queue lc ls s s' : prims sha lc ls false s s' ->
  s'.(claim_queue_) = s.(claim_queue_) /\ s'.(signal_connected_) = s.(signal_connected_).
Proof. induction 1 as [|s1 s2 s3 Hp _ [IH1 IH2]]; [done|]. apply prim_queue in Hp as [<- <-]. done. Qed.

Lemma prim_moving ls s s' : prim sha false ls false s s' -> moving s -> moving s'.
Proof.
  intros Hp Hm. destruct (prim_queue _ _ _ _ Hp) as [E1 E2]. unfold moving. rewrite E1, E2. destruct Hm as [?|[Hi|?]]; [by left| |by right; right].
  right. left. clear E1 E2. destruct Hp as [s s' F|s a b ?|s b Hb| | | | | | | | | | | | ]; try done.
  - by rewrite (fr_claim _ _ _ F).
  - by destruct Hb as [->|].
Qed.
Lemma prims_moving ls s s' : prims sha false ls false s s' -> moving s -> moving s'.
Proof. induction 1 as [|s1 s2 s3 Hp _ IH]; [done|]. intros Hm. by eapply IH, prim_moving. Qed.

(** ** Rules *)

(** From a state of [P], the queue moves when the computation returns. *)
Definition settles (P : CoreState -> Prop) {A} (m : core A) : Prop := forall s a s', P s -> m s = Ret (a, s') -> moving s'.
Definition down s : Prop := s.(signal_connected_) = false.

Lemma settles_quiet ls {A} (m : core A) : does sha false ls false always m -> settles moving m.
Proof. intros H s a s' Hm E. eapply prims_moving; [by apply (H s I a)|done]. Qed.
Lemma settles_down lc ls {A} (m : core A) : does sha lc ls false always m -> settles down m.
Proof. intros H s a s' Hd E. right; right. apply (H s I a) in E. apply prims_queue in E as [_ ->]. exact Hd. Qed.
Lemma settles_always P {A} (m : core A) : settles always m -> settles P m.
Proof. intros H s a s' _. by apply H. Qed.
(** The first part settles and the rest keeps it; or only the rest matters. *)
Lemma settles_bind P {A B} (m : core A) (f : A -> core B) : settles P m -> (forall a, settles moving (f a)) -> settles P (a ← m; f a).
Proof. intros Hm Hf s b s' Hp E. apply bind_at in E as (a & s1 & E1 & E2). eapply Hf; [|done]. by eapply Hm. Qed.
Lemma settles_last {A B} (m : core A) (f : A -> core B) : (forall a, settles always (f a)) -> settles always (a ← m; f a).
Proof. intros Hf s b s' _ E. apply bind_at in E as (a & s1 & E1 & E2). by eapply Hf. Qed.
Lemma settles_modify P g : (forall s, P s -> moving (g s)) -> settles P (modify g).
Proof. intros H s a s' Hp [= <- <-]. by apply H. Qed.
Lemma settles_look P {A B} (g : CoreState -> A) (f : A -> core B) : (forall a, settles P (f a)) -> settles P (a ← gets g; f a).
Proof. intros H s b s' Hp E. by apply (H (g s) s b). Qed.
Lemma settles_then P Q g {B} (k : core B) : (forall s, P s -> Q (g s)) -> settles Q k -> settles P (_ ← modify g; k).
Proof. intros Hg Hk s b s' Hp E. by apply (Hk (g s) b s'); [apply Hg|]. Qed.
Lemma settles_when b m : settles moving m -> settles moving (when b m).
Proof. intros H. unfold when. destruct b; [done|]. by intros s a s' Hm [= <- <-]. Qed.
Lemma settles_skip : settles moving skip.
Proof. by intros s a s' Hm [= <- <-]. Qed.

(** ** The pump *)

Lemma pump_claims_moving n s a s' : (length s.(claim_queue_) <= n)%nat -> pump_claims n s = Ret (a, s') -> moving s'.
Proof.
  revert s. induction n as [|n IH]; intros s Hn H; cbn [pump_claims] in H; apply bind_at in H as (s0 & s1 & E & H); injection E as <- <-;
    (destruct (claim_queue_ s) as [|k rest] eqn:Eq; [injection H as _ <-; by left|]); [cbn in Hn; lia|].
  destruct (claim_inflight_ s) eqn:Ef; [injection H as _ <-; by right; left|]. cbn [orb] in H.
  destruct (negb (signal_connected_ s)) eqn:Es; [injection H as _ <-; right; right; by apply negb_true_iff|].
  apply bind_at in H as (u & s1 & E & H). injection E as <- <-. assert (Hr : (length rest <= n)%nat) by (cbn in Hn; lia).
  match type of H with _ ?s0 = _ => assert (Hq : claim_queue_ s0 = rest /\ claim_inflight_ s0 = false) by done; set (s1 := s0) in * end.
  destruct (sm_find k (receives_ s)) as [r|]; [|apply (IH s1); [by rewrite (proj1 Hq)|done]].
  destruct (negb (String.eqb (r_state r) "claiming")); [apply (IH s1); [by rewrite (proj1 Hq)|done]|].
  apply bind_at in H as (rc & s2 & E & H).
  assert (H2 : prims sha false false false s1 s2).
  { destruct (_ && _); [|apply (prims_claim sha false false false) in E; [done|apply Hq]].
    apply bind_at in E as (v & s3 & E1 & E). assert (Hc : claim_inflight_ s3 = false)
      by (unfold upd_receive, receive_at in E1; apply bind_at in E1 as (o & s4 & E3 & E1); injection E3 as <- <-;
          destruct (sm_find k _); injection E1 as <- <-; apply Hq).
    transitivity s3; [|by apply (prims_claim sha false false false) in E]. clear E Hc Hq. revert E1. at_steps. }
  apply prims_queue in H2 as [Hq2 _]. destruct (negb (rc =? 0)).
  - apply bind_at in H as (v & s3 & E1 & H). assert (H3 : prims sha false false false s2 s3)
      by (clear -E1; revert E1; at_steps). apply prims_queue in H3 as [Hq3 _].
    apply (IH s3); [|done]. by rewrite Hq3, Hq2, (proj1 Hq).
  - injection H as _ <-. by right; left.
Qed.

Lemma settles_PumpClaims : settles always PumpClaims.
Proof. intros s a s' _ H. unfold PumpClaims in H. apply bind_at in H as (n & s1 & E & H). injection E as <- <-. by apply pump_claims_moving in H. Qed.

(** ** The handlers that touch the queue *)

Lemma settles_StartClaim k : settles moving (StartClaim k).
Proof.
  unfold StartClaim. repeat (apply settles_bind; [apply (settles_quiet false); core_steps|intros ?]).
  case_match; [apply (settles_quiet false); core_steps|]. apply (settles_then _ always); [done|apply settles_PumpClaims].
Qed.

Lemma settles_ReceiveStart k c dir : settles moving (do_ReceiveStart k c dir).
Proof.
  unfold do_ReceiveStart. apply settles_look. intros [[tid r]|].
  - apply (settles_then _ moving); [done|]. apply settles_bind; [apply (settles_quiet false); core_steps|intros _]. apply settles_StartClaim.
  - unfold NowMs. do 2 (apply settles_bind; [apply (settles_quiet false); core_steps|intros ?]). apply settles_StartClaim.
Qed.

Lemma settles_ReceiveResume k : settles moving (do_ReceiveResume k).
Proof.
  unfold do_ReceiveResume, receive_at. apply settles_look. intros [r|]; [|apply settles_skip]. case_if; [apply settles_skip|].
  apply settles_bind; [apply (settles_quiet false); core_steps|intros _]. apply settles_StartClaim.
Qed.

Lemma settles_OnClaimResult res sid tok msg : settles always (OnClaimResult res sid tok msg).
Proof.
  unfold OnClaimResult. apply settles_last. intros _. apply settles_look. intros [[k r]|]; [|apply settles_PumpClaims].
  apply settles_last. intros _. apply settles_PumpClaims.
Qed.

Lemma settles_TransferCancel tid : settles moving (do_TransferCancel tid).
Proof.
  unfold do_TransferCancel, session_of, receive_at. apply settles_look. intros [sid|]; [apply (settles_quiet false); core_steps|].
  apply settles_look. intros [r|]; [|apply settles_skip]. apply (settles_then _ moving).
  - intros s [Hq|Hm]; [left|by right]. cbn. by rewrite Hq.
  - unfold set_receive. apply (settles_then _ moving); [done|]. apply (settles_quiet false). core_steps.
Qed.

(** Without a connection nothing can be claimed. *)
Lemma settles_RecreatePeer : settles always RecreatePeer.
Proof.
  unfold RecreatePeer. do 6 (apply settles_last; intros ?). apply (settles_then _ down); [done|].
  apply (settles_down false false). core_steps.
Qed.

Lemma settles_UpdateConfig next : settles moving (do_UpdateConfig dev next).
Proof.
  unfold do_UpdateConfig, SaveConfig_. apply settles_look. intros old. apply (settles_then _ moving); [done|].
  repeat (apply settles_bind; [apply (settles_quiet false); core_steps|intros ?]).
  apply settles_when, settles_always, settles_RecreatePeer.
Qed.

Lemma settles_OnSignal st pid : settles moving (OnSignal st pid).
Proof.
  intros s a s' Hm H. unfold OnSignal in H. apply bind_at in H as (was & s0 & E & H). injection E as <- <-.
  set (now := bool_decide (st = Peer.MINIRTC_SIGNAL_CONNECTED)) in *. apply bind_at in H as (u & s1 & E & H). injection E as <- <-.
  revert H. destruct now; cbn [negb andb]; intros H.
  - destruct (signal_connected_ s) eqn:Es; cbn [negb andb] in H.
    + refine (settles_quiet false _ _ _ _ _ _ H); [core_steps|]. destruct Hm as [?|[?|?]]; [by left|by right; left|congruence].
    + refine (settles_last _ _ _ _ _ _ I H). intros _. apply settles_bind; [|intros _; apply settles_skip].
      apply settles_last. intros _. apply settles_PumpClaims.
  - refine (settles_down true true _ _ _ _ _ _ H); [|done]. change (when false (_ ← PumpShareCreates; PumpClaims)) with skip. unfold share_at, receive_at. core_steps.
    apply (prims_reset sha).
Qed.

(** ** Events and runs *)

Lemma settles_queueing t : queues_claims t = true -> settles moving (run_task sha dev t).
Proof.
  destruct t as [|g t| | | | | | | | | | |]; cbn [queues_claims run_task]; intros Hq; try done.
  - apply settles_look. intros s. destruct (_ && _); [|by intros s0 a s'].
    destruct t; try done; [apply settles_OnSignal|apply settles_always, settles_OnClaimResult].
  - apply settles_ReceiveStart.
  - apply settles_ReceiveResume.
  - apply settles_TransferCancel.
  - apply settles_UpdateConfig.
Qed.

(** What answers a claim also queues. *)
Lemma answers_queues t : queues_claims t = false -> answers_claim t = false.
Proof. destruct t as [|g t| | | | | | | | | | |]; try done. by destruct t. Qed.

Lemma step_moving s e s' : core_step sha dev s e = Ret s' -> moving s -> moving s'.
Proof.
  intros H Hm. destruct (from_option queues_claims false (task_of s e.2)) eqn:Eq.
  - destruct e as [i [|n| | | | |]]; try done. cbn in Eq. destruct (posted_ s !! n) as [t|] eqn:Et; [|done]. cbn in Eq.
    unfold core_step in H. destruct (core_event _ _ _ _) as [[u s1]|] eqn:E; [|done]. injection H as <-.
    cbn [core_event] in E. apply bind_at in E as (o & s2 & E1 & E). injection E1 as Eo <-.
    assert (o = Some t) as -> by (rewrite <- Eo; exact Et).
    apply bind_at in E as (v & s3 & E2 & E). injection E2 as <- <-. eapply (settles_queueing t Eq); [|exact E]. exact Hm.
  - apply core_step_prims in H. cbv zeta in H. rewrite Eq in H.
    assert (Ha : from_option answers_claim false (task_of s e.2) = false)
      by (destruct (task_of s e.2); [by apply answers_queues|done]).
    rewrite Ha in H. by apply prims_moving in H.
Qed.

(** ** Answers *)

(** What leaves [claim_inflight_] as it is. *)
Definition keeps {A} (m : core A) : Prop := forall s a s', m s = Ret (a, s') -> s'.(claim_inflight_) = s.(claim_inflight_).
Lemma flag_bind {A B} (m : core A) (f : A -> core B) : keeps m -> (forall a, keeps (f a)) -> keeps (a ← m; f a).
Proof. intros Hm Hf s b s' E. apply bind_at in E as (a & s1 & E1 & E2). rewrite (Hf a _ _ _ E2). by eapply Hm. Qed.
Lemma flag_gets {A} (g : CoreState -> A) : keeps (gets g).
Proof. by intros s a s' [= <- <-]. Qed.
Lemma flag_modify g : (forall s, (g s).(claim_inflight_) = s.(claim_inflight_)) -> keeps (modify g).
Proof. intros Hg s a s' [= <- <-]. apply Hg. Qed.
Lemma keeps_outcome {A} (o : outcome A) : keeps (of_outcome o).
Proof. intros s a s' H. unfold of_outcome in H. by apply TransferSessionProofs.bind_ret in H as (x & _ & [= <- <-]). Qed.
Lemma flag_ret {A} (a : A) : keeps (mret a).
Proof. by intros s b s' [= <- <-]. Qed.
Ltac keep := repeat first
  [ apply flag_gets | apply keeps_outcome | apply flag_ret | (apply flag_modify; intros ?; reflexivity)
  | (apply flag_bind; [|intros ?]) | progress unfold when, skip, output, NowMs, ask, receive_at, upd_receive, set_receive
  | match goal with |- keeps (match ?x with _ => _ end) => destruct x end ].
Lemma keeps_Emit ev : keeps (Emit ev).
Proof. unfold Emit. keep. Qed.
Lemma keeps_emit_receive k : keeps (emit_receive_at k).
Proof. unfold emit_receive_at, EmitReceive. keep. all: cbv zeta; apply keeps_Emit. Qed.
Lemma keeps_SaveReceives : keeps SaveReceives.
Proof. unfold SaveReceives. keep. Qed.
Lemma keeps_FinishReceive k st c m : keeps (FinishReceive k st c m).
Proof. unfold FinishReceive. do 2 (apply flag_bind; [keep; apply keeps_emit_receive|intros ?]). apply keeps_SaveReceives. Qed.

(** The next claim was sent, of [n] before. *)
Definition next_sent (n : nat) s : Prop :=
  s.(claim_queue_) = [] \/ s.(signal_connected_) = false \/ s.(claim_inflight_) = true /\ (n < length (claims s.(log_)))%nat.

Lemma prims_grow lc ls lq s s' : prims sha lc ls lq s s' -> (length (claims s.(log_)) <= length (claims s'.(log_)))%nat.
Proof.
  induction 1 as [|s1 s2 s3 Hp _ IH]; [done|]. etransitivity; [|exact IH]. clear -Hp.
  destruct Hp as [s s' F|s a b ?|s b Hb|s a b c _|s b _| | | | |s sid t e x| | | | | ]; try done.
  - by rewrite (fr_claims _ _ _ F).
  - unfold claims. rewrite CoreProofs.calls_log, length_app. lia.
  - unfold claims. rewrite CoreProofs.calls_log, length_app. lia.
  - unfold claims. by rewrite CoreProofs.calls_session.
Qed.
(** A claim that is not refused was sent. *)
Lemma the_peer_claims a b s s' : the_peer (Peer.Claim a b) s = Ret (0, s') -> length (claims s'.(log_)) = S (length (claims s.(log_))).
Proof.
  intros H. unfold the_peer in H. apply bind_at in H as (p & s1 & E & H). injection E as <- <-.
  destruct (peer_ s) as [p|]; [|done]. unfold ask_rc, ask in H. apply bind_at in H as (r & s1 & E & H).
  apply bind_at in E as (r' & s2 & E' & E). injection E' as <- <-. apply bind_at in E as (u & s2 & E' & E). injection E' as <- <-.
  injection E as _ <-. unfold Peer.Claim, Peer.forward in H. destruct (negb (Peer.peer_ p)); [done|]. cbn in H. injection H as _ <-.
  change (length (claims (log_ s ++ [Rtc (Peer.MiniRtcClaim (Peer.nonempty a) (Peer.nonempty b))])) = S (length (claims (log_ s)))).
  unfold claims. rewrite calls_app, length_app. cbn. lia.
Qed.

Lemma pump_claims_sends m n s a s' : (length s.(claim_queue_) <= n)%nat -> s.(claim_inflight_) = false -> (m <= length (claims s.(log_)))%nat ->
  pump_claims n s = Ret (a, s') -> next_sent m s'.
Proof.
  revert s. induction n as [|n IH]; intros s Hn Hf Hm H; cbn [pump_claims] in H; apply bind_at in H as (s0 & s1 & E & H); injection E as <- <-;
    (destruct (claim_queue_ s) as [|k rest] eqn:Eq; [injection H as _ <-; by left|]); [cbn in Hn; lia|].
  rewrite Hf in H. cbn [orb] in H. destruct (negb (signal_connected_ s)) eqn:Es; [injection H as _ <-; right; left; by apply negb_true_iff|].
  apply bind_at in H as (u & s1 & E & H). injection E as <- <-. assert (Hr : (length rest <= n)%nat) by (cbn in Hn; lia).
  match type of H with _ ?s0 = _ => set (s1 := s0) in * end.
  destruct (sm_find k (receives_ s)) as [r|]; [|by apply (IH s1)]. destruct (negb (String.eqb (r_state r) "claiming")); [by apply (IH s1)|].
  apply bind_at in H as (rc & s2 & E & H).
  assert (Hs : exists a b s0, the_peer (Peer.Claim a b) s0 = Ret (rc, s2) /\ claim_queue_ s0 = rest /\ claim_inflight_ s0 = false /\
    claims (log_ s0) = claims (log_ s)).
  { destruct (_ && _); [|by exists (r_code r), ""%string, s1]. apply bind_at in E as (v & s3 & E1 & E). exists ""%string, (resume_token r), s3.
    split; [done|]. unfold upd_receive, receive_at in E1. apply bind_at in E1 as (o & s4 & E3 & E1). injection E3 as <- <-.
    by destruct (sm_find k _); injection E1 as <- <-. }
  destruct Hs as (x & y & s0 & Ec & Q1 & Q2 & Q3). destruct (Z.eqb_spec rc 0) as [->|Hne]; cbn [negb] in H.
  - injection H as _ <-. right; right. split; [done|]. apply the_peer_claims in Ec.
    change (m < length (claims (log_ s2)))%nat. rewrite Ec, Q3. lia.
  - apply bind_at in H as (v & s3 & E1 & H). pose proof (keeps_FinishReceive _ _ _ _ _ _ _ E1) as K1.
    apply (the_peer_one _ (Peer.MiniRtcClaim (Peer.nonempty x) (Peer.nonempty y))) in Ec; [|intros; apply forward_one].
    assert (H2 : claim_queue_ s2 = rest /\ claim_inflight_ s2 = false /\ (m <= length (claims (log_ s2)))%nat).
    { destruct Ec as (i & [->| ->]); (split; [exact Q1|]); (split; [exact Q2|]).
      - change (m <= length (claims (log_ s0)))%nat. by rewrite Q3.
      - unfold claims in *. rewrite CoreProofs.calls_log, length_app. change (m <= length (calls_of is_claim (log_ s0)) + 1)%nat. rewrite Q3. lia. }
    destruct H2 as (R1 & R2 & R3). assert (H3 : prims sha false false false s2 s3) by (clear -E1; revert E1; at_steps).
    pose proof (prims_grow _ _ _ _ _ H3) as Hg. apply prims_queue in H3 as [Hq3 _]. apply (IH s3); [by rewrite Hq3, R1|congruence|lia|done].
Qed.
Lemma PumpClaims_sends m s a s' : s.(claim_inflight_) = false -> (m <= length (claims s.(log_)))%nat -> PumpClaims s = Ret (a, s') -> next_sent m s'.
Proof. intros Hf Hm H. unfold PumpClaims in H. apply bind_at in H as (n & s1 & E & H). injection E as <- <-. by eapply pump_claims_sends. Qed.

Lemma OnClaimResult_sends res sid tok msg s a s' : OnClaimResult res sid tok msg s = Ret (a, s') -> next_sent (length (claims s.(log_))) s'.
Proof.
  intros H. unfold OnClaimResult in H. apply bind_at in H as (u & s1 & E & H). injection E as <- <-.
  set (s1 := s <| claim_inflight_ := false |>) in H. apply bind_at in H as (o & s2 & E & H). injection E as <- <-.
  destruct (best_entry _ _ _ _) as [[k r]|] eqn:Eb; [|by apply (PumpClaims_sends (length (claims (log_ s))) s1) in H].
  apply bind_at in H as (v & s2 & E & H). apply (PumpClaims_sends (length (claims (log_ s))) s2) in H; [done| |].
  - clear H. change false with (claim_inflight_ s1). revert v s2 E. generalize s1. match goal with |- forall s v s2, ?m s = _ -> _ => enough (Hk : keeps m)
      by (intros s2 v s3 E; by eapply Hk) end. destruct (bool_decide _).
    + do 2 (apply flag_bind; [keep; apply keeps_emit_receive|intros ?]). apply keeps_SaveReceives.
    + destruct (_ && _); [keep|apply keeps_FinishReceive].
  - apply best_entry_spec in Eb; [|done]. apply andb_true_iff in Eb as [Eb _]. apply String.eqb_eq in Eb.
    change (claims (log_ s)) with (claims (log_ s1)). apply (prims_grow false false true). clear -E Eb. revert E.
    destruct (bool_decide _); [|destruct (_ && _)]; at_steps. apply does_set_receive. cbn. by rewrite Eb.
Qed.

(** C9: However user calls, callbacks, tasks and engine steps follow each other, a claim waits only while the core takes
    one to be in flight or the signalling connection is down; and when the answer to a claim has been processed, the queue
    is empty, the connection is down or the next claim has been sent.  What the core takes to be in flight is made and
    answered as [requests_one_at_a_time] says, with one exception: a claim whose peer is replaced by [RecreatePeer] is
    never answered. *)
Theorem claims_never_idle svc lnk config w s0 es s :
  Create dev svc lnk config w = Ret (inr s0) -> run_core sha dev s0 es = Ret s ->
  (s.(claim_queue_) = [] \/ s.(claim_inflight_) = true \/ s.(signal_connected_) = false) /\
  forall i n g res sid tok msg s', s.(posted_) !! n = Some (TaskPeer g (Peer.on_claim res sid tok msg)) ->
    core_step sha dev s (i, RunTask n) = Ret s' ->
    s'.(claim_queue_) = [] \/ s'.(signal_connected_) = false \/
    s'.(claim_inflight_) = true /\ (length (claims s.(log_)) < length (claims s'.(log_)))%nat.
Proof.
  intros H0 H. split.
  - assert (Hm : moving s0).
    { right; right. unfold Create in H0. repeat case_match; try done;
        apply TransferSessionProofs.bind_ret in H0 as ([u v] & _ & H0); by injection H0 as <-. }
    clear H0. revert s0 H Hm. induction es as [|e es IH]; intros s0 H Hm; cbn in H; [by injection H as <-|].
    destruct (core_step sha dev s0 e) as [s1|] eqn:E; [|done]. apply (IH s1); [done|]. by eapply step_moving.
  - intros i n g res sid tok msg s' Ht E. unfold core_step in E. destruct (core_event _ _ _ _) as [[u s1]|] eqn:Ev; [|done]. injection E as <-.
    cbn [core_event] in Ev. apply bind_at in Ev as (o & s2 & E1 & Ev). injection E1 as Eo <-.
    assert (o = Some (TaskPeer g (Peer.on_claim res sid tok msg))) as -> by (rewrite <- Eo; exact Ht).
    apply bind_at in Ev as (v & s3 & E2 & Ev). injection E2 as <- <-. cbn [run_task run_peer_task] in Ev.
    apply bind_at in Ev as (v & s3 & E2 & Ev). injection E2 as <- <-. destruct (_ && _); [|done]. by apply OnClaimResult_sends in Ev.
Qed.
End queue.

(** ** Witness *)

Section witness.
#[local] Existing Instance TransferSessionProofs.sample_json.
Import CoreProofs.
(** A claim in flight and another queued. *)
Definition waiting_events : list (Inputs * CoreEvent) :=
  (pair (answers 0) <$> two_claims) ++ [(answers 1, Api (ApiReceiveStart "ABCDEFGHJK" "")); (answers 0, RunTask 0)].
Notation waiting := (run_core ReceiverProofs.sample_sha true core_started waiting_events).
(** A third is queued.  The answer arrives: the code is not found, and the second claim is sent. *)
Definition answered_events : list (Inputs * CoreEvent) :=
  waiting_events ++ [(answers 2, Api (ApiReceiveStart "ABCDEFGHJM" "")); (answers 0, RunTask 0); (answers 0, Callback (Peer.on_claim Peer.MINIRTC_CLAIM_CODE_NOT_FOUND "" "" ""))].
Notation answered := (run_core ReceiverProofs.sample_sha true core_started answered_events).
Notation after_answer := (core_step ReceiverProofs.sample_sha true (TransferSessionProofs.the core_none answered) (answers 0, RunTask 0)).
Lemma claims_never_idle_witness : (TransferSessionProofs.the core_none answered).(claim_inflight_) = true /\
  (length (claims (TransferSessionProofs.the core_none answered).(log_)) < length (claims (TransferSessionProofs.the core_none after_answer).(log_)))%nat.
Proof.
  assert (H : returns answered = true) by (vm_compute; reflexivity).
  assert (H' : returns after_answer = true) by (vm_compute; reflexivity).
  assert (Hq : bool_decide ((TransferSessionProofs.the core_none answered).(claim_queue_) = []) = false /\
    (TransferSessionProofs.the core_none answered).(signal_connected_) = true /\
    (TransferSessionProofs.the core_none after_answer).(signal_connected_) = true /\
    bool_decide ((TransferSessionProofs.the core_none after_answer).(claim_queue_) = []) = false) by (split; [|split; [|split]]; vm_compute; reflexivity).
  assert (Ht : (TransferSessionProofs.the core_none answered).(posted_) !! 0%nat =
    Some (TaskPeer 1 (Peer.on_claim Peer.MINIRTC_CLAIM_CODE_NOT_FOUND "" "" ""))) by (vm_compute; reflexivity).
  destruct (claims_never_idle (JL := TransferSessionProofs.sample_json) ReceiverProofs.sample_sha true "" "" core_config core_disk core_started answered_events
    (TransferSessionProofs.the core_none answered) created_ok (TransferSessionProofs.the_ret core_none _ H)) as [E E'].
  destruct Hq as (Q1 & Q2 & Q3 & Q4). split.
  - destruct E as [E|[E|E]]; [|exact E|rewrite Q2 in E; discriminate E]. rewrite E in Q1. discriminate Q1.
  - destruct (E' _ _ _ _ _ _ _ _ Ht (TransferSessionProofs.the_ret core_none _ H')) as [F|[F|F]]; [|rewrite Q3 in F; discriminate F|exact (proj2 F)].
    rewrite F in Q4. discriminate Q4.
Defined.
End witness.
