(* ===== verification/Rtp.v ===== *)
(** * RTP packets and RTCP headers ([minirtc/src/rtp/rtp_packet/rtp_packet.cpp],
      [minirtc/src/rtp/rtp_packetizer/], [minirtc/src/rtcp/rtcp_packet/rtcp_common_header.cpp])

    What the transport reads from a datagram of the network and what it writes into one.  Reading past
    the end of the datagram is [Raise], so that a theorem can say that it does not happen; a parser that
    returns [false] is [Fail] with the text it logs.  The theorems: no datagram makes the parsers read
    outside it, and the parts they find partition it; what the packetizer builds is parsed back, and
    what happens to a payload longer than one packet; padding packets carry nothing. *)
From S2P Require Export BlockCodec.
#[local] Open Scope Z_scope.

(** ** Definitions *)

(** *** [rtp_defines.h], [rtp_header.h], [rtp_packet.h] *)

Definition MAX_NALU_LEN : Z := 1150.
Definition PAYLOAD_DATA : Z := 120.
Definition PAYLOAD_KCP : Z := 121.
Definition kMaxRtpCsrcSize : Z := 15.
Definition kRtpVersion : Z := 2.
Definition kOneByteExtensionProfileId : Z := 0xBEDE.
Definition kFixedHeaderSize : Z := 12.

Record Extension := mkExtension { ext_id : Z; ext_len : Z; data_offset : Z; ext_data : bytes }.

Record RtpPacket := mkRtp {
  version_ : Z;
  has_padding_ : bool;
  has_extension_ : bool;
  csrc_count_ : Z;
  marker_ : bool;
  payload_type_ : Z;
  sequence_number_ : Z;
  timestamp_ : Z;
  ssrc_ : Z;
  csrcs_ : list Z;
  extension_profile_ : Z;
  extension_len_ : Z;
  extensions_ : list Extension;
  payload_offset_ : Z;
  payload_size_ : Z;
  padding_size_ : Z;
  buffer_ : bytes;
}.
#[export] Instance eta_RtpPacket : Eta RtpPacket := fun p => mkRtp p.(version_) p.(has_padding_) p.(has_extension_)
  p.(csrc_count_) p.(marker_) p.(payload_type_) p.(sequence_number_) p.(timestamp_) p.(ssrc_) p.(csrcs_)
  p.(extension_profile_) p.(extension_len_) p.(extensions_) p.(payload_offset_) p.(payload_size_) p.(padding_size_)
  p.(buffer_).

(** *** Reads from a datagram *)

Definition rd (b : bytes) (i : Z) : result Z :=
  if (0 <=? i) && (i <? zlen b) then Ok (znth b i) else Raise.
Definition rd16 (b : bytes) (i : Z) : result Z :=
  if (0 <=? i) && (i + 2 <=? zlen b) then Ok (Get16 (zdrop i b)) else Raise.
Definition rd32 (b : bytes) (i : Z) : result Z :=
  if (0 <=? i) && (i + 4 <=? zlen b) then Ok (Get32 (zdrop i b)) else Raise.
Definition rd_slice (b : bytes) (i n : Z) : result bytes :=
  if (0 <=? i) && (0 <=? n) && (i + n <=? zlen b) then Ok (slice i n b) else Raise.

Definition bit (x i : Z) : bool := Z.testbit x i.

(** *** [RtpPacket::Parse] *)

Fixpoint parse_csrcs (n : nat) (b : bytes) (off : Z) : result (list Z) :=
  match n with
  | O => Ok []
  | S n => c ← rd32 b off; cs ← parse_csrcs n b (off + 4); Ok (c :: cs)
  end.

(** The loop over the one-byte extensions; an iteration advances by a byte at least. *)
Fixpoint parse_extensions (fuel : nat) (b : bytes) (offset extension_end : Z) : result (list Extension) :=
  match fuel with
  | O => Ok []
  | S fuel =>
      if negb (offset <? extension_end) then Ok [] else
      x ← rd b offset;
      let id := Z.shiftr x 4 in
      if id =? 0 then parse_extensions fuel b (offset + 1) extension_end else
      if id =? 15 then Ok [] else
      let len := u8 (Z.land x 0x0F + 1) in
      if offset + 1 + len >? extension_end then Fail "RtpPacket::Parse: extension data is too large" else
      d ← rd_slice b (offset + 1) len;
      es ← parse_extensions fuel b (offset + 1 + len) extension_end;
      Ok (mkExtension id len (offset + 1) d :: es)
  end.

(** The profile, the length and the extensions, with the offset after them. *)
Definition parse_extension_block (b : bytes) (off : Z) : result (Z * Z * list Extension * Z) :=
  let size := zlen b in
  if off + 4 >? size then Fail "RtpPacket::Parse: extension profile is too large" else
  profile ← rd16 b off;
  len ← rd16 b (off + 2);
  let off := off + 4 in
  if off + len * 4 >? size then Fail "RtpPacket::Parse: extension len is too large" else
  let total := len * 4 in
  es ← (if profile =? kOneByteExtensionProfileId then parse_extensions (Z.to_nat total) b off (off + total) else Ok []);
  Ok (profile, len, es, off + total).

(** Whether the packet is padded, and by how much. *)
Definition parse_padding (b : bytes) (has_padding : bool) (off : Z) : result (bool * Z) :=
  let size := zlen b in
  if has_padding && (off <? size) then
    p ← rd b (size - 1);
    if p =? 0 then Ok (false, 0) else Ok (has_padding, p)
  else Ok (has_padding, 0).

Definition Parse (b : bytes) : result RtpPacket :=
  let size := zlen b in
  if size <? kFixedHeaderSize then Fail "RtpPacket::Parse: size is too small" else
  b0 ← rd b 0;
  let version := Z.land (Z.shiftr b0 6) 0x03 in
  if negb (version =? kRtpVersion) then Fail "RtpPacket::Parse: version is not qual to kRtpVersion" else
  let has_padding := bit b0 5 in
  let has_extension := bit b0 4 in
  let csrc_count := Z.land b0 0x0F in
  if csrc_count >? kMaxRtpCsrcSize then Fail "RtpPacket::Parse: csrc count is too large" else
  b1 ← rd b 1;
  let marker := bit b1 7 in
  let payload_type := Z.land b1 0x7F in
  seq ← rd16 b 2;
  ts ← rd32 b 4;
  ssrc ← rd32 b 8;
  if kFixedHeaderSize + csrc_count * 4 >? size then Fail "RtpPacket::Parse: csrc count is too large" else
  csrcs ← parse_csrcs (Z.to_nat csrc_count) b kFixedHeaderSize;
  let off := kFixedHeaderSize + csrc_count * 4 in
  if off >? size then Fail "RtpPacket::Parse: payload offset is too large" else
  '(profile, elen, es, off) ← (if has_extension : bool then parse_extension_block b off else Ok (0, 0, [], off));
  '(padded, pad) ← parse_padding b has_padding off;
  if off + pad >? size then Fail "RtpPacket::Parse: payload size is too large" else
  Ok (mkRtp version padded has_extension csrc_count marker payload_type seq ts ssrc csrcs profile elen es off
        (size - off - pad) pad b).

(** [Payload], [PayloadSize] *)
Definition Payload (p : RtpPacket) : bytes := slice p.(payload_offset_) p.(payload_size_) p.(buffer_).

(** *** The absolute send time *)

(** [None] when no extension takes the value. *)
Fixpoint update_extension (id : Z) (v : bytes) (size : Z) (es : list Extension) : option (Z * list Extension) :=
  match es with
  | [] => None
  | e :: es =>
      if negb (e.(ext_id) =? id) || negb (e.(ext_len) =? 3) || (e.(data_offset) + 3 >? size) then
        '(o, es) ← update_extension id v size es; Some (o, e :: es)
      else Some (e.(data_offset), mkExtension e.(ext_id) e.(ext_len) e.(data_offset) v :: es)
  end.

Definition UpdateAbsoluteSendTimestamp (p : RtpPacket) (extension_id abs_send_time : Z) : bool * RtpPacket :=
  if negb (p.(extension_profile_) =? kOneByteExtensionProfileId) then (false, p) else
  let t := Z.land abs_send_time 0x00FFFFFF in
  let v := [u8 (Z.shiftr t 16); u8 (Z.shiftr t 8); u8 t] in
  match update_extension extension_id v (zlen p.(buffer_)) p.(extensions_) with
  | None => (false, p)
  | Some (o, es) => (true, p <| extensions_ := es |> <| buffer_ ::= poke o v |>)
  end.

Definition GetAbsoluteSendTimestamp (p : RtpPacket) (extension_id : Z) : option Z :=
  e ← head (filter (fun e => e.(ext_id) = extension_id /\ length e.(ext_data) = 3%nat) p.(extensions_));
  Some (Z.lor (Z.lor (u32 (Z.shiftl (znth e.(ext_data) 0) 16)) (u32 (Z.shiftl (znth e.(ext_data) 1) 8)))
              (znth e.(ext_data) 2)).

(** *** [RtpPacketizerGeneric] *)

Record RtpPacketizer := mkPacketizer { pk_payload_type : Z; pk_sequence : Z; pk_ssrc : Z; abs_send_time_ext_id_ : option Z }.

Definition RtpPacketizer_Create (payload_type ssrc : Z) : RtpPacketizer := mkPacketizer payload_type 0 ssrc None.

Definition IsValidOneByteExtensionId (id : Z) : bool := (1 <=? id) && (id <=? 14).

Definition SetAbsoluteSendTimeExtensionId (id : option Z) (p : RtpPacketizer) : RtpPacketizer :=
  mkPacketizer p.(pk_payload_type) p.(pk_sequence) p.(pk_ssrc)
    match id with Some i => if IsValidOneByteExtensionId i then id else None | None => None end.

Definition AppendAbsoluteSendTimeExtension (p : RtpPacketizer) : bytes :=
  match p.(abs_send_time_ext_id_) with
  | None => []
  | Some id =>
      [u8 (Z.shiftr kOneByteExtensionProfileId 8); u8 kOneByteExtensionProfileId; 0; 1;
       u8 (Z.lor (Z.shiftl id 4) 2)] ++ replicate 3 0
  end.

Definition b2z (b : bool) : Z := if b then 1 else 0.

(** The fixed header of a packet: no padding, no contributing source. *)
Definition fixed_header (p : RtpPacketizer) (marker : bool) (seq ts : Z) : bytes :=
  let ext := bool_decide (is_Some p.(abs_send_time_ext_id_)) in
  [u8 (Z.lor (Z.lor (Z.shiftl kRtpVersion 6) (Z.shiftl (b2z false) 5)) (Z.shiftl (b2z ext) 4)); u8 (Z.lor (Z.shiftl (b2z marker) 7) p.(pk_payload_type))]
  ++ Put16 seq ++ Put32 ts ++ Put32 p.(pk_ssrc).

(** The loop of [Build] from packet [index]; [n] packets are left. *)
Fixpoint build_frames (n : nat) (p : RtpPacketizer) (payload : bytes) (last_packet_size index packet_num seq ts : Z)
    : list bytes * Z :=
  match n with
  | O => ([], seq)
  | S n =>
      let seq := u16 (seq + 1) in
      let last := index =? packet_num - 1 in
      let frame := fixed_header p last seq ts ++ AppendAbsoluteSendTimeExtension p
                   ++ (if last && (last_packet_size >? 0) then ztake last_packet_size payload
                       else ztake MAX_NALU_LEN payload) in
      let '(frames, seq) := build_frames n p payload last_packet_size (index + 1) packet_num seq ts in
      (frame :: frames, seq)
  end.

(** The frames of the packets [Build] returns. *)
Definition Build (p : RtpPacketizer) (payload : bytes) (rtp_timestamp : Z) : list bytes * RtpPacketizer :=
  let last_packet_size := zlen payload mod MAX_NALU_LEN in
  let packet_num := zlen payload / MAX_NALU_LEN + (if last_packet_size =? 0 then 0 else 1) in
  let '(frames, seq) :=
    build_frames (Z.to_nat packet_num) p payload last_packet_size 0 packet_num p.(pk_sequence) rtp_timestamp in
  (frames, mkPacketizer p.(pk_payload_type) seq p.(pk_ssrc) p.(abs_send_time_ext_id_)).

(** *** [RtcpCommonHeader] *)

Definition kHeaderSizeBytes : Z := 4.

Record RtcpCommonHeader := mkRtcp {
  packet_type_ : Z; count_or_format_ : Z; rtcp_padding_ : Z; rtcp_payload_size_ : Z; rtcp_payload_ : bytes;
}.

(** [payload_] points into the datagram: the bytes from it to the end. *)
Definition RtcpParse (b : bytes) : result RtcpCommonHeader :=
  if zlen b <? kHeaderSizeBytes then Fail "Too little data" else
  b0 ← rd b 0;
  if negb (Z.shiftr b0 6 =? 2) then Fail "Invalid RTCP header: Version" else
  let has_padding := bit b0 5 in
  let count := Z.land b0 0x1F in
  type ← rd b 1;
  words ← rd16 b 2;
  let payload_size := words * 4 in
  if zlen b <? kHeaderSizeBytes + payload_size then Fail "Buffer too small" else
  if negb has_padding then Ok (mkRtcp type count 0 payload_size (zdrop kHeaderSizeBytes b)) else
  if payload_size =? 0 then Fail "Padding bit set but 0 payload size specified" else
  pad ← rd b (kHeaderSizeBytes + (payload_size - 1));
  if pad =? 0 then Fail "Padding bit set but 0 padding size specified" else
  if pad >? payload_size then Fail "Too many padding bytes" else
  Ok (mkRtcp type count pad (payload_size - pad) (zdrop kHeaderSizeBytes b)).

Definition packet_size (h : RtcpCommonHeader) : Z := kHeaderSizeBytes + h.(rtcp_payload_size_) + h.(rtcp_padding_).
(** [NextPacket]: what follows the packet. *)
Definition NextPacket (h : RtcpCommonHeader) : bytes := zdrop (h.(rtcp_payload_size_) + h.(rtcp_padding_)) h.(rtcp_payload_).

(** [RtcpCommonHeader::Create], into the first four bytes of a buffer. *)
Definition RtcpCreate (version has_padding count_or_format payload_type length_in_words_minus_one : Z) : bytes :=
  [u8 (Z.lor (Z.lor (Z.shiftl version 6) (Z.shiftl has_padding 5)) count_or_format); payload_type]
  ++ Put16 length_in_words_minus_one.

(** ** Reading within the datagram *)

(** [m] does not read outside, and what it returns satisfies [Q]. *)
Definition within {A} (m : result A) (Q : A -> Prop) : Prop :=
  match m with Ok a => Q a | Fail _ => True | Raise => False end.

Lemma within_bind {A B} (m : result A) (k : A -> result B) P Q :
  within m P -> (forall a, P a -> within (k a) Q) -> within (m ≫= k) Q.
Proof. intros Hm Hk. destruct m; [by apply Hk|done|done]. Qed.

Lemma within_ok {A} (a : A) (Q : A -> Prop) : Q a -> within (Ok a) Q.
Proof. done. Qed.

Lemma within_weaken {A} (m : result A) (P Q : A -> Prop) : within m P -> (forall a, P a -> Q a) -> within m Q.
Proof. unfold within. destruct m; auto. Qed.

Lemma znth_range b i : is_bytes b -> 0 <= i < zlen b -> in_u8 (znth b i).
Proof.
  intros Hb Hi. unfold znth. destruct (nth_in_or_default (Z.to_nat i) b 0) as [H|H]; [|by rewrite H].
  unfold is_bytes in Hb. rewrite Forall_forall in Hb. by apply Hb, list_elem_of_In.
Qed.

Lemma rd_within b i : is_bytes b -> 0 <= i < zlen b -> within (rd b i) in_u8.
Proof.
  intros Hb Hi. unfold rd. rewrite (proj2 (Z.leb_le 0 i)), (proj2 (Z.ltb_lt i _)) by lia.
  by apply znth_range.
Qed.

Lemma rd16_within b i : 0 <= i -> i + 2 <= zlen b -> within (rd16 b i) in_u16.
Proof.
  intros Hi Hl. unfold rd16. rewrite (proj2 (Z.leb_le 0 i)), (proj2 (Z.leb_le _ (zlen b))) by lia. apply u16_range.
Qed.

Definition anything (x : Z) : Prop := True.

Lemma rd32_within b i : 0 <= i -> i + 4 <= zlen b -> within (rd32 b i) anything.
Proof.
  intros Hi Hl. unfold rd32. rewrite (proj2 (Z.leb_le 0 i)), (proj2 (Z.leb_le _ (zlen b))) by lia. exact I.
Qed.

Lemma rd_slice_within b i n : 0 <= i -> 0 <= n -> i + n <= zlen b -> within (rd_slice b i n) (fun d => zlen d = n).
Proof.
  intros Hi Hn Hl. unfold rd_slice.
  rewrite (proj2 (Z.leb_le 0 i)), (proj2 (Z.leb_le 0 n)), (proj2 (Z.leb_le _ (zlen b))) by lia. cbn.
  rewrite zlen_slice by lia. lia.
Qed.

Create HintDb within.
#[export] Hint Resolve rd_within rd16_within rd32_within rd_slice_within within_ok : within.

(** Follows a parser: a test is a case, a read is discharged by the bounds the tests gave. *)
Ltac within_step :=
  match goal with
  | |- within (if ?b then _ else _) _ => destruct b eqn:?; zbool
  | |- within (Fail _) _ => exact I
  | |- within (_ ≫= _) _ => eapply within_bind; [solve [eauto with within lia]|cbv beta; intros ? ?]
  | |- within (let _ := _ in _) _ => cbv zeta
  | |- within (match ?x with (_, _) => _ end) _ => destruct x
  end.
#[export] Hint Extern 4 (_ <= _) => lia : within.
#[export] Hint Extern 4 (_ <= _ < _) => lia : within.

Lemma land_range x k m : 0 <= k -> m = Z.ones k -> 0 <= Z.land x m < 2 ^ k.
Proof. intros Hk ->. rewrite Z.land_ones by done. apply Z.mod_pos_bound. lia. Qed.

Lemma low4_range x : 0 <= Z.land x 0x0F <= 15.
Proof. pose proof (land_range x 4 0x0F ltac:(lia) eq_refl). lia. Qed.

Lemma parse_csrcs_within n b off :
  0 <= off -> off + 4 * Z.of_nat n <= zlen b -> within (parse_csrcs n b off) (fun cs => length cs = n).
Proof.
  revert off. induction n as [|n IH]; intros off Ho Hl; cbn [parse_csrcs]; [done|].
  within_step. eapply within_bind; [apply IH; lia|]. cbn. intros cs Hcs. lia.
Qed.

(** An extension found lies between the offset and the end of the block. *)
Definition extension_within (b : bytes) (lo hi : Z) (e : Extension) : Prop :=
  1 <= e.(ext_len) <= 16 /\ lo < e.(data_offset) /\ e.(data_offset) + e.(ext_len) <= hi /\
  zlen e.(ext_data) = e.(ext_len).

Lemma parse_extensions_within n b off fin :
  is_bytes b -> 0 <= off -> fin <= zlen b ->
  within (parse_extensions n b off fin) (Forall (extension_within b off fin)).
Proof.
  intros Hb. revert off. induction n as [|n IH]; intros off Ho Hl; cbn [parse_extensions]; [by apply Forall_nil|].
  assert (Hweak : forall d es, 0 <= d -> Forall (extension_within b (off + d) fin) es ->
    Forall (extension_within b off fin) es).
  { intros d es Hd Hes. eapply Forall_impl; [exact Hes|]. intros e; unfold extension_within; lia. }
  within_step; [by apply Forall_nil|]. within_step. cbv zeta.
  set (len := u8 (Z.land a 15 + 1)).
  assert (Hlen : 1 <= len <= 16).
  { subst len. pose proof (low4_range a). rewrite u8_small by (unfold in_u8; lia). lia. }
  within_step; [eapply within_weaken; [apply IH; lia|]; intros es; apply (Hweak 1); lia|].
  within_step; [by apply Forall_nil|]. within_step; [exact I|]. within_step.
  eapply within_bind; [apply IH; lia|]. cbv beta. intros es Hes. cbn. constructor; [|apply (Hweak (1 + len)); [lia|]].
  - unfold extension_within; cbn. lia.
  - by rewrite Z.add_assoc.
Qed.

(** The fuel of the loop is enough: one unit per byte that is left. *)
Lemma parse_extensions_fuel n b off fin :
  is_bytes b -> fin - off <= Z.of_nat n -> parse_extensions (S n) b off fin = parse_extensions n b off fin.
Proof.
  intros Hb. revert off. induction n as [|n IH]; intros off Hn.
  - cbn [parse_extensions]. by rewrite (proj2 (Z.ltb_ge off fin)) by lia.
  - remember (S n) as m. rewrite Heqm at 2. cbn [parse_extensions]. subst m.
    destruct (off <? fin) eqn:E; [cbn [negb]|done]. destruct (rd b off) as [x| |]; [|done|done].
    cbn [mbind result_bind]. pose proof (u8_range (Z.land x 15 + 1)) as Hu. unfold in_u8 in Hu.
    rewrite !IH by lia. done.
Qed.

Lemma parse_extension_block_within b off :
  is_bytes b -> 0 <= off ->
  within (parse_extension_block b off) (fun r => off + 4 <= r.2 <= zlen b /\ Forall (extension_within b off r.2) r.1.2).
Proof.
  intros Hb Ho. unfold parse_extension_block. cbv zeta. within_step; [exact I|]. do 2 within_step.
  within_step; [exact I|]. unfold in_u16 in *.
  eapply (within_bind _ _ (Forall (extension_within b (off + 4) (off + 4 + a0 * 4)))).
  - destruct (_ =? _); [apply parse_extensions_within; (done || lia)|by apply Forall_nil].
  - intros es Hes. cbn. split; [lia|]. eapply Forall_impl; [exact Hes|].
    intros e; unfold extension_within; lia.
Qed.

(** The parts of a parsed packet partition the datagram. *)
Definition rtp_layout (b : bytes) (p : RtpPacket) : Prop :=
  kFixedHeaderSize <= p.(payload_offset_) /\ 0 <= p.(payload_size_) /\ 0 <= p.(padding_size_) /\
  p.(payload_offset_) + p.(payload_size_) + p.(padding_size_) = zlen b /\
  zlen (Payload p) = p.(payload_size_) /\
  Forall (extension_within b kFixedHeaderSize p.(payload_offset_)) p.(extensions_) /\
  zlen p.(csrcs_) = p.(csrc_count_) /\ p.(csrc_count_) <= kMaxRtpCsrcSize.

Lemma Parse_within b : is_bytes b -> within (Parse b) (rtp_layout b).
Proof.
  intros Hb. unfold Parse, kFixedHeaderSize. cbv zeta. within_step; [exact I|]. within_step. within_step; [exact I|].
  pose proof (low4_range a) as Hc. within_step; [exact I|]. do 4 within_step. within_step; [exact I|].
  eapply within_bind; [apply parse_csrcs_within; lia|]. cbv beta iota. intros cs Hcs.
  eapply (within_bind _ _ (fun r => 12 + Z.land a 15 * 4 <= r.2 <= zlen b /\ Forall (extension_within b 12 r.2) r.1.2)).
  { destruct (bit a 4); [|split; [cbn; lia|done]]. eapply within_weaken; [apply parse_extension_block_within; (done || lia)|].
    intros r [Hr1 Hr2]. split; [lia|]. eapply Forall_impl; [exact Hr2|]. intros e; unfold extension_within; lia. }
  intros [[[profile elen] es] off] [Ho Hes]; cbn in Ho, Hes.
  eapply (within_bind _ _ (fun r => 0 <= r.2)).
  { unfold parse_padding. destruct (bit a 5 && (off <? zlen b)); [|cbn; lia]. within_step. unfold in_u8 in *. destruct (_ =? 0); cbn; lia. }
  intros [padded pad] Hp; cbn in Hp. within_step; [exact I|]. unfold within, rtp_layout, Payload, kFixedHeaderSize,
    kMaxRtpCsrcSize. cbn [payload_offset_ payload_size_ padding_size_ extensions_ csrcs_ csrc_count_ buffer_].
  rewrite zlen_slice by lia. assert (zlen cs = Z.land a 15) by (unfold zlen; lia). split_and!; (lia || done).
Qed.

(** C25: No datagram makes the RTP parser read outside it; when it accepts one, header, extensions, payload
    and padding lie inside and partition it. *)
Theorem rtp_parse_in_bounds b :
  is_bytes b -> Parse b <> Raise /\ forall p, Parse b = Ok p -> rtp_layout b p.
Proof.
  intros Hb. pose proof (Parse_within b Hb) as H. unfold within in H. destruct (Parse b); [|done|done].
  split; [done|]. by intros ? [= <-].
Qed.

(** The same for RTCP, and the next packet of a compound lies inside too. *)
Lemma RtcpParse_within b :
  is_bytes b ->
  within (RtcpParse b) (fun h =>
    kHeaderSizeBytes <= packet_size h <= zlen b /\ 0 <= h.(rtcp_payload_size_) /\
    h.(rtcp_payload_) = zdrop kHeaderSizeBytes b /\ NextPacket h = zdrop (packet_size h) b).
Proof.
  intros Hb. unfold RtcpParse, NextPacket, packet_size, kHeaderSizeBytes. cbv zeta.
  within_step; [exact I|]. within_step. within_step; [exact I|]. do 2 within_step. unfold in_u16, in_u8 in *.
  within_step; [exact I|]. within_step; [|within_step; [exact I|]; within_step; unfold in_u8 in *;
    within_step; [exact I|]; within_step; [exact I|]]; cbn; (split_and!; [lia|lia|lia|done|]);
    rewrite zdrop_zdrop by lia; f_equal; lia.
Qed.

(** ** Parsing what the packetizer built *)

Lemma rd_eq b i : 0 <= i < zlen b -> rd b i = Ok (znth b i).
Proof. intros H. unfold rd. by rewrite (proj2 (Z.leb_le 0 i)), (proj2 (Z.ltb_lt i _)) by lia. Qed.

Lemma rd16_eq b i : 0 <= i -> i + 2 <= zlen b -> rd16 b i = Ok (Get16 (zdrop i b)).
Proof. intros ??. unfold rd16. by rewrite (proj2 (Z.leb_le 0 i)), (proj2 (Z.leb_le _ (zlen b))) by lia. Qed.

Lemma rd32_eq b i : 0 <= i -> i + 4 <= zlen b -> rd32 b i = Ok (Get32 (zdrop i b)).
Proof. intros ??. unfold rd32. by rewrite (proj2 (Z.leb_le 0 i)), (proj2 (Z.leb_le _ (zlen b))) by lia. Qed.

Definition wf_packetizer (p : RtpPacketizer) : Prop :=
  0 <= p.(pk_payload_type) < 128 /\ in_u32 p.(pk_ssrc) /\
  match p.(abs_send_time_ext_id_) with Some id => IsValidOneByteExtensionId id = true | None => True end.

(** The first two bytes of a header. *)
Lemma second_byte (m : bool) pt : 0 <= pt < 128 ->
  let x := u8 (Z.lor (Z.shiftl (b2z m) 7) pt) in bit x 7 = m /\ Z.land x 0x7F = pt.
Proof.
  intros H. pose proof (all_bytes (fun pt => (128 <=? pt) || forallb (fun m =>
    let x := u8 (Z.lor (Z.shiftl (b2z m) 7) pt) in eqb (bit x 7) m && (Z.land x 0x7F =? pt)) [true; false])) as Hall.
  specialize (Hall ltac:(vm_compute; reflexivity) pt ltac:(unfold in_u8; lia)). cbv beta in Hall.
  rewrite (proj2 (Z.leb_gt 128 pt)) in Hall by lia. cbn [orb forallb] in Hall.
  destruct m; zbool; cbv zeta; split; try done; try (by apply eqb_prop); lia.
Qed.

(** A packet without contributing sources: the header fields, then what extensions and padding leave. *)
Lemma Parse_header b0 b1 seq ts ssrc rest :
  Z.land (Z.shiftr b0 6) 3 = 2 -> Z.land b0 0x0F = 0 -> in_u16 seq -> in_u32 ts -> in_u32 ssrc ->
  let f := [b0; b1] ++ Put16 seq ++ Put32 ts ++ Put32 ssrc ++ rest in
  Parse f =
    ('(profile, elen, es, off) ← (if bit b0 4 then parse_extension_block f 12 else Ok (0, 0, [], 12));
     '(padded, pad) ← parse_padding f (bit b0 5) off;
     if off + pad >? zlen f then Fail "RtpPacket::Parse: payload size is too large" else
     Ok (mkRtp 2 padded (bit b0 4) 0 (bit b1 7) (Z.land b1 0x7F) seq ts ssrc [] profile elen es off
           (zlen f - off - pad) pad f)).
Proof.
  intros Hv Hc Hq Ht Hs f.
  assert (Hl : zlen f = 12 + zlen rest) by (subst f; zlen_simpl; change (zlen (Put16 seq)) with 2; change (zlen (Put32 ts)) with 4; lia).
  pose proof (zlen_nonneg rest). unfold Parse, kFixedHeaderSize. rewrite (proj2 (Z.ltb_ge (zlen f) 12)) by lia.
  rewrite !rd_eq, rd16_eq, !rd32_eq by lia. cbn [mbind result_bind].
  change (znth f 0) with b0. change (znth f 1) with b1.
  change (zdrop 2 f) with (Put16 seq ++ Put32 ts ++ Put32 ssrc ++ rest).
  change (zdrop 4 f) with (Put32 ts ++ Put32 ssrc ++ rest).
  change (zdrop 8 f) with (Put32 ssrc ++ rest).
  rewrite Get16_Put16, !Get32_Put32 by done. cbv zeta. rewrite Hv, Hc.
  assert (Hg : (12 + 0 * 4 >? zlen f) = false) by (rewrite Z.gtb_ltb; apply Z.ltb_ge; lia).
  change (negb (2 =? kRtpVersion)) with false. change (0 >? kMaxRtpCsrcSize) with false. by rewrite Hg.
Qed.

Lemma first_byte (padding ext : bool) :
  let x := Z.lor (Z.lor (Z.shiftl kRtpVersion 6) (Z.shiftl (b2z padding) 5)) (Z.shiftl (b2z ext) 4) in
  u8 x = x /\ Z.land (Z.shiftr x 6) 3 = 2 /\ Z.land x 0x0F = 0 /\ bit x 4 = ext /\ bit x 5 = padding.
Proof. by destruct padding, ext. Qed.

Lemma gtb_false x y : x <= y -> (x >? y) = false.
Proof. intros H. rewrite Z.gtb_ltb. by apply Z.ltb_ge. Qed.

(** The block the packetizer reserves for the absolute send time. *)
Lemma parse_reserved_extension id pre rest :
  IsValidOneByteExtensionId id = true -> zlen pre = 12 ->
  let f := pre ++ [0xBE; 0xDE; 0; 1; u8 (Z.lor (Z.shiftl id 4) 2); 0; 0; 0] ++ rest in
  parse_extension_block f 12 = Ok (0xBEDE, 1, [mkExtension id 3 17 [0; 0; 0]], 20).
Proof.
  intros Hid Hpre f. unfold IsValidOneByteExtensionId in Hid. zbool. pose proof (zlen_nonneg rest).
  assert (Hl : zlen f = 20 + zlen rest) by (subst f; zlen_simpl; lia).
  assert (Hd : forall k l r, f = l ++ r -> zlen l = k -> zdrop k f = r) by (intros k l r -> <-; by apply zdrop_app).
  unfold parse_extension_block. rewrite gtb_false, rd16_eq, rd16_eq by lia.
  rewrite (Hd 12 pre _ eq_refl Hpre). rewrite (Hd (12 + 2) (pre ++ [0xBE; 0xDE]) ([0; 1] ++ u8 (Z.lor (Z.shiftl id 4) 2) :: 0 :: 0 :: 0 :: rest))
    by (subst f; rewrite <- ?app_assoc; cbn [app]; zlen_simpl; done || lia).
  change (Get16 ([190; 222; 0; 1; u8 (Z.lor (Z.shiftl id 4) 2); 0; 0; 0] ++ rest)) with 0xBEDE.
  change (Get16 ([0; 1] ++ u8 (Z.lor (Z.shiftl id 4) 2) :: 0 :: 0 :: 0 :: rest)) with 1.
  cbn [mbind result_bind]. cbv zeta. rewrite gtb_false by lia. change (0xBEDE =? kOneByteExtensionProfileId) with true. cbv iota.
  change (Z.to_nat (1 * 4)) with 4%nat. change (12 + 4 + 1 * 4) with 20. change (12 + 4) with 16.
  assert (Hx : znth f 16 = u8 (Z.lor (Z.shiftl id 4) 2)).
  { subst f. unfold znth. rewrite app_nth2 by (unfold zlen in Hpre; lia).
    replace (Z.to_nat 16 - length pre)%nat with 4%nat by (unfold zlen in Hpre; lia). done. }
  assert (Hsl : slice 17 3 f = [0; 0; 0]).
  { unfold slice. rewrite (Hd 17 (pre ++ [0xBE; 0xDE; 0; 1; u8 (Z.lor (Z.shiftl id 4) 2)]) ([0; 0; 0] ++ rest))
      by (subst f; rewrite <- ?app_assoc; cbn [app]; zlen_simpl; done || lia). done. }
  assert (Hb : forallb (fun id => let x := u8 (Z.lor (Z.shiftl id 4) 2) in (Z.shiftr x 4 =? id) && (Z.land x 15 =? 2)) (seqZ 1 14) = true)
    by (vm_compute; reflexivity).
  rewrite forallb_forall in Hb. specialize (Hb id ltac:(apply list_elem_of_In, elem_of_seqZ; lia)). cbv zeta in Hb. zbool.
  cbn [parse_extensions]. rewrite (rd_eq f 16) by lia. cbn [mbind result_bind]. rewrite Hx. cbv zeta.
  match goal with He : Z.shiftr _ 4 = id, Hf : Z.land _ 15 = 2 |- _ => rewrite He, Hf end.
  rewrite (proj2 (Z.eqb_neq id 0)), (proj2 (Z.eqb_neq id 15)) by lia.
  change (16 <? 20) with true. change (u8 (2 + 1)) with 3. change (16 + 1 + 3 >? 20) with false. cbn [negb].
  unfold rd_slice. change (16 + 1) with 17. rewrite (proj2 (Z.leb_le (17 + 3) (zlen f))) by lia. rewrite Hsl. done.
Qed.

(** The header of a packet of [p], in the order of [fixed_header]. *)
Definition ext_on (p : RtpPacketizer) : bool := bool_decide (is_Some p.(abs_send_time_ext_id_)).

Lemma frame_parses p m seq ts payload :
  wf_packetizer p -> in_u16 seq -> in_u32 ts ->
  let f := fixed_header p m seq ts ++ AppendAbsoluteSendTimeExtension p ++ payload in
  exists q, Parse f = Ok q /\ Payload q = payload /\ q.(payload_type_) = p.(pk_payload_type) /\ q.(marker_) = m /\
    q.(sequence_number_) = seq /\ q.(timestamp_) = ts /\ q.(ssrc_) = p.(pk_ssrc) /\ q.(has_padding_) = false /\
    (ext_id <$> q.(extensions_)) = option_list p.(abs_send_time_ext_id_).
Proof.
  intros (Hpt & Hs & Hid) Hq Ht f. destruct (first_byte false (ext_on p)) as (H1 & H2 & H3 & H4 & H5).
  destruct (second_byte m p.(pk_payload_type) Hpt) as [Hm Hp].
  set (hd := fixed_header p m seq ts). set (ext := AppendAbsoluteSendTimeExtension p).
  assert (Hhd : zlen hd = 12) by reflexivity.
  assert (Hf : f = hd ++ ext ++ payload) by done. clearbody f. pose proof (zlen_nonneg payload) as Hn.
  unfold hd, fixed_header in Hf. fold (ext_on p) in Hf. rewrite H1, <- !app_assoc in Hf.
  pose proof (Parse_header _ (u8 (Z.lor (Z.shiftl (b2z m) 7) p.(pk_payload_type))) seq ts p.(pk_ssrc) (ext ++ payload) H2 H3 Hq Ht Hs) as HP. cbv zeta in HP.
  rewrite <- Hf, H4, H5, Hm, Hp in HP. rewrite HP. clear HP.
  assert (Hfull : f = (hd ++ ext) ++ payload) by (rewrite Hf; unfold hd, fixed_header; fold (ext_on p); by rewrite H1, <- !app_assoc).
  assert (Hsl : forall k, zlen (hd ++ ext) = k -> slice k (zlen f - k - 0) f = payload).
  { intros k Hk. unfold slice. rewrite Hfull, zdrop_app by done. apply ztake_all. zlen_simpl. lia. }
  assert (Hlen : zlen f = zlen (hd ++ ext) + zlen payload) by (by rewrite Hfull, zlen_app).
  unfold ext_on, AppendAbsoluteSendTimeExtension in *. destruct p.(abs_send_time_ext_id_) as [id|] eqn:Eid.
  - rewrite bool_decide_eq_true_2 by eauto. subst ext.
    pose proof (parse_reserved_extension id hd payload Hid Hhd) as He. cbv zeta in He.
    assert (Hf' : f = hd ++ [0xBE; 0xDE; 0; 1; u8 (Z.lor (Z.shiftl id 4) 2); 0; 0; 0] ++ payload)
      by (rewrite Hfull, <- app_assoc; done).
    rewrite <- Hf' in He. rewrite He.
    cbn [mbind result_bind parse_padding andb].
    assert (Hk : zlen (hd ++ [u8 (Z.shiftr kOneByteExtensionProfileId 8); u8 kOneByteExtensionProfileId; 0; 1; u8 (Z.lor (Z.shiftl id 4) 2)] ++ replicate 3 0) = 20) by reflexivity.
    rewrite gtb_false by lia. eexists. split; [done|]. split_and!; try done. unfold Payload. cbn. by apply Hsl.
  - rewrite bool_decide_eq_false_2 by (by intros [? ?]). subst ext. cbn [mbind result_bind parse_padding andb].
    assert (Hk : zlen (hd ++ []) = 12) by reflexivity.
    rewrite gtb_false by lia. eexists. split; [done|]. split_and!; try done. unfold Payload. cbn. by apply Hsl.
Qed.

(** A payload of at most [MAX_NALU_LEN] bytes travels in one packet, which the receiver reads back. *)
Theorem packetize_roundtrip p payload ts :
  wf_packetizer p -> 1 <= zlen payload <= MAX_NALU_LEN -> in_u32 ts ->
  exists f q, Build p payload ts =
      ([f], mkPacketizer p.(pk_payload_type) (u16 (p.(pk_sequence) + 1)) p.(pk_ssrc) p.(abs_send_time_ext_id_)) /\
    zlen f <= 20 + MAX_NALU_LEN /\
    Parse f = Ok q /\ Payload q = payload /\ q.(payload_type_) = p.(pk_payload_type) /\ q.(marker_) = true /\
    q.(sequence_number_) = u16 (p.(pk_sequence) + 1) /\ q.(timestamp_) = ts /\ q.(ssrc_) = p.(pk_ssrc).
Proof.
  unfold MAX_NALU_LEN. intros Hp Hn Ht.
  destruct (frame_parses p true (u16 (p.(pk_sequence) + 1)) ts payload Hp ltac:(apply u16_range) Ht)
    as (q & HP & Hpay & Hpt & Hm & Hq & Hts & Hs & _ & _).
  eexists _, q. split; [|split; [|exact (conj HP (conj Hpay (conj Hpt (conj Hm (conj Hq (conj Hts Hs))))))]].
  - unfold Build, MAX_NALU_LEN. destruct (decide (zlen payload = 1150)) as [E|E].
    + rewrite E. change (1150 / 1150 + _) with 1. change (Z.to_nat 1) with 1%nat. cbn [build_frames].
      change (0 =? 1 - 1) with true. change (1150 mod 1150 >? 0) with false. cbn [andb]. unfold MAX_NALU_LEN.
      by rewrite ztake_all by lia.
    + rewrite Z.mod_small, Z.div_small by lia. rewrite (proj2 (Z.eqb_neq _ 0)) by lia. change (0 + 1) with 1.
      change (Z.to_nat 1) with 1%nat. cbn [build_frames]. change (0 =? 1 - 1) with true.
      rewrite Z.gtb_ltb, (proj2 (Z.ltb_lt 0 _)) by lia. cbn [andb]. by rewrite ztake_all by lia.
  - rewrite !zlen_app. change (zlen (fixed_header p true _ ts)) with 12. unfold AppendAbsoluteSendTimeExtension.
    destruct p.(abs_send_time_ext_id_); zlen_simpl; lia.
Qed.

(** A longer payload is cut, but every packet starts again from its first byte: what lies beyond
    [MAX_NALU_LEN] is never sent. *)
Theorem packetize_repeats p payload ts :
  Forall (fun f => exists h k, f = h ++ ztake k payload /\ zlen h <= 20 /\ k <= MAX_NALU_LEN) (Build p payload ts).1.
Proof.
  unfold Build. set (n := zlen payload / _ + _). set (last := zlen payload mod MAX_NALU_LEN).
  assert (Hlast : last < MAX_NALU_LEN) by (apply Z.mod_pos_bound; done).
  enough (H : forall k idx seq, Forall (fun f => exists h k, f = h ++ ztake k payload /\ zlen h <= 20 /\ k <= MAX_NALU_LEN)
    (build_frames k p payload last idx n seq ts).1).
  { specialize (H (Z.to_nat n) 0 p.(pk_sequence)). by destruct (build_frames _ _ _ _ _ _ _ _). }
  induction k as [|k IH]; intros idx seq; cbn [build_frames]; [by apply Forall_nil|].
  specialize (IH (idx + 1) (u16 (seq + 1))). destruct (build_frames k _ _ _ _ _ _ _) as [fs seq']. cbn in *.
  constructor; [|done].
  exists (fixed_header p (idx =? n - 1) (u16 (seq + 1)) ts ++ AppendAbsoluteSendTimeExtension p).
  exists (if (idx =? n - 1) && (last >? 0) then last else MAX_NALU_LEN). split_and!.
  - rewrite <- app_assoc. by destruct ((idx =? n - 1) && (last >? 0)).
  - rewrite zlen_app. change (zlen (fixed_header _ _ _ _)) with 12. unfold AppendAbsoluteSendTimeExtension.
    destruct p.(abs_send_time_ext_id_); zlen_simpl; lia.
  - destruct ((idx =? n - 1) && (last >? 0)); lia.
Qed.

(** ** Witnesses *)

Definition sample_packetizer : RtpPacketizer := SetAbsoluteSendTimeExtensionId (Some 3) (RtpPacketizer_Create PAYLOAD_DATA 0x01020304).
Definition sample_payload : bytes := [1; 2; 3; 250].
Definition sample_frame : bytes := default [] (head (Build sample_packetizer sample_payload 77).1).

Lemma rtp_parse_in_bounds_witness :
  Parse sample_frame <> Raise /\ forall p, Parse sample_frame = Ok p -> rtp_layout sample_frame p.
Proof. apply (rtp_parse_in_bounds sample_frame). unfold is_bytes, in_u8. repeat constructor; vm_compute; congruence. Defined.

Lemma packetize_roundtrip_witness :
  exists f q, Build sample_packetizer sample_payload 77 =
      ([f], mkPacketizer PAYLOAD_DATA 1 0x01020304 (Some 3)) /\
    zlen f <= 20 + MAX_NALU_LEN /\
    Parse f = Ok q /\ Payload q = sample_payload /\ q.(payload_type_) = PAYLOAD_DATA /\ q.(marker_) = true /\
    q.(sequence_number_) = 1 /\ q.(timestamp_) = 77 /\ q.(ssrc_) = 0x01020304.
Proof.
  apply (packetize_roundtrip sample_packetizer sample_payload 77).
  - unfold wf_packetizer. repeat split; vm_compute; congruence.
  - split; vm_compute; congruence.
  - split; vm_compute; congruence.
Defined.
