(* ===== verification/Pool.v ===== *)
(** * Threads that share a state

    A computation is a sequence of atomic actions on the shared state: one action per critical section,
    atomic variable or call to another object.  Between two actions of a thread any other thread may act.
    An action takes what the environment answers to it; it may have to wait, and it may fail for good (an
    access through a null pointer, an exception nobody catches).

    A pool has the threads that entered the object and have not left it, and one worker that takes tasks
    from a queue in the shared state, one at a time.  A schedule is a list of steps of the pool; nothing
    is assumed about it.

    To prove an invariant of the shared state under every schedule, each thread owns tokens: facts about
    the state that only the owner may give up.  What never ceases to hold is monotone in an order [ext] in
    which every action moves the state up.  [safe p s0 own Q] says that [p], owning [own] in a state above
    [s0], keeps the invariant at each action whatever the other threads own and did, and ends owning what
    [Q] says.  [pool_invariant] puts the threads together, for schedules whose answers are [good]. *)
From S2P Require Export Prelude.

(** ** Computations *)

Inductive answer (S A : Type) : Type :=
| Step (a : A) (s : S)
| Wait
| Fault.
Arguments Step {S A} a s.
Arguments Wait {S A}.
Arguments Fault {S A}.

Inductive prog (I S A : Type) : Type :=
| Done (a : A)
| Act (B : Type) (f : I -> S -> answer S B) (k : B -> prog I S A).
Arguments Done {I S A} a.
Arguments Act {I S A} B f k.

Fixpoint prog_bind {I S A B} (k : A -> prog I S B) (p : prog I S A) : prog I S B :=
  match p with
  | Done a => k a
  | Act C f k' => Act C f (fun c => prog_bind k (k' c))
  end.
#[export] Instance prog_mret {I S} : MRet (prog I S) := fun A a => Done a.
#[export] Instance prog_mbind {I S} : MBind (prog I S) := fun A B k p => prog_bind k p.
#[export] Instance prog_fmap {I S} : FMap (prog I S) := fun A B f p => prog_bind (fun a => Done (f a)) p.

(** Single actions. *)
Definition act {I S A} (f : I -> S -> answer S A) : prog I S A := Act A f Done.
Definition read {I S A} (f : S -> A) : prog I S A := act (fun _ s => Step (f s) s).
Definition ask {I S A} (f : I -> A) : prog I S A := act (fun i s => Step (f i) s).
Definition write {I S} (f : S -> S) : prog I S unit := act (fun _ s => Step tt (f s)).
Definition fault {I S A} : prog I S A := act (fun _ _ => Fault).
Definition skip {I S} : prog I S unit := Done tt.

Fixpoint each {I S A} (l : list A) (body : A -> prog I S unit) : prog I S unit :=
  match l with
  | [] => skip
  | a :: l => _ ← body a; each l body
  end.

Definition when {I S} (b : bool) (p : prog I S unit) : prog I S unit := if b then p else skip.

(** One action of a thread. *)
Definition advance {I S A} (i : I) (p : prog I S A) (s : S) : answer S (prog I S A) :=
  match p with
  | Done a => Step p s
  | Act B f k => match f i s with Step b s => Step (k b) s | Wait => Wait | Fault => Fault end
  end.

(** ** Pools *)

Record Pool (I S : Type) := mkPool {
  shared : S;
  worker : prog I S unit;
  threads : list (prog I S unit);
  dead : bool;
}.
Arguments mkPool {I S} shared worker threads dead.
Arguments shared {I S} p.
Arguments worker {I S} p.
Arguments threads {I S} p.
Arguments dead {I S} p.

(** A thread enters, a thread acts, the worker acts. *)
Inductive sched (I E : Type) : Type :=
| Enter (e : E)
| Run (t : nat) (i : I)
| Work (i : I).
Arguments Enter {I E} e.
Arguments Run {I E} t i.
Arguments Work {I E} i.

Section pool.
Context {I S E : Type} (entry : E -> prog I S unit) (next_task : S -> option (prog I S unit * S)).

Definition pool_step (c : Pool I S) (x : sched I E) : Pool I S :=
  if c.(dead) then c else
  match x with
  | Enter e => mkPool c.(shared) c.(worker) (c.(threads) ++ [entry e]) false
  | Run t i =>
      match c.(threads) !! t with
      | None => c
      | Some p =>
          match advance i p c.(shared) with
          | Step p s => mkPool s c.(worker) (<[t := p]> c.(threads)) false
          | Wait => c
          | Fault => mkPool c.(shared) c.(worker) c.(threads) true
          end
      end
  | Work i =>
      match c.(worker) with
      | Done _ =>
          match next_task c.(shared) with
          | Some (p, s) => mkPool s p c.(threads) false
          | None => c
          end
      | p =>
          match advance i p c.(shared) with
          | Step p s => mkPool s p c.(threads) false
          | Wait => c
          | Fault => mkPool c.(shared) c.(worker) c.(threads) true
          end
      end
  end.

Definition pool_init (s : S) : Pool I S := mkPool s skip [] false.
Definition pool_run (s : S) (xs : list (sched I E)) : Pool I S := run_events pool_step (pool_init s) xs.

Definition ended (p : prog I S unit) : Prop := exists a, p = Done a.
(** Every thread has left. *)
Definition quiet (c : Pool I S) : Prop := ended c.(worker) /\ Forall ended c.(threads).

End pool.

(** ** Invariants *)

Section invariant.
Context {I S T : Type} (good : I -> Prop) (ext : S -> S -> Prop) {ext_preorder : PreOrder ext} (Inv : S -> list T -> Prop).
Hypothesis Inv_perm : forall s l l', l ≡ₚ l' -> Inv s l -> Inv s l'.

Fixpoint safe {A} (p : prog I S A) (s0 : S) (own : list T) (Q : A -> S -> list T -> Prop) : Prop :=
  match p with
  | Done a => Q a s0 own
  | Act B f k => forall i s others, good i -> ext s0 s -> Inv s (own ++ others) ->
      match f i s with
      | Step b s' => ext s s' /\ exists own', Inv s' (own' ++ others) /\ safe (k b) s' own' Q
      | _ => True
      end
  end.

(** Leaves owning nothing. *)
Definition clean {A} (a : A) (s : S) (own : list T) : Prop := own = [].
(** Leaves as it came, from any state. *)
Definition keeps {A} (p : prog I S A) : Prop := forall s0 own, safe p s0 own (fun _ _ o => o = own).

Lemma safe_done {A} (a : A) s0 own (Q : A -> S -> list T -> Prop) : Q a s0 own -> safe (Done a) s0 own Q.
Proof. done. Qed.

Lemma safe_weaken_at {A} (p : prog I S A) s0 own (P Q : A -> S -> list T -> Prop) :
  safe p s0 own P -> (forall a s own, ext s0 s -> P a s own -> Q a s own) -> safe p s0 own Q.
Proof.
  revert s0 own. induction p as [a|B f k IH]; intros s0 own Hp HPQ; cbn in *; [by apply HPQ|].
  intros i s others Hi He HI. specialize (Hp i s others Hi He HI). destruct (f i s) as [b s'| |]; [|done|done].
  destruct Hp as (Hs & own' & HI' & Hk). split; [done|]. exists own'. split; [done|]. eapply IH; [exact Hk|].
  intros a s1 own1 H1. apply HPQ. etransitivity; [exact He|]. by etransitivity.
Qed.

Lemma safe_weaken {A} (p : prog I S A) s0 own (P Q : A -> S -> list T -> Prop) :
  safe p s0 own P -> (forall a s own, P a s own -> Q a s own) -> safe p s0 own Q.
Proof. intros Hp HPQ. eapply safe_weaken_at; [exact Hp|]. auto. Qed.

Lemma safe_bind {A B} (p : prog I S A) (k : A -> prog I S B) s0 own P Q :
  safe p s0 own P -> (forall a s own, ext s0 s -> P a s own -> safe (k a) s own Q) -> safe (p ≫= k) s0 own Q.
Proof.
  revert s0 own. induction p as [a|C f k' IH]; intros s0 own Hp Hk; cbn in *; [by apply Hk|].
  intros i s others Hi He HI. specialize (Hp i s others Hi He HI). destruct (f i s) as [b s'| |]; [|done|done].
  destruct Hp as (Hs & own' & HI' & Hk'). split; [done|]. exists own'. split; [done|]. eapply IH; [exact Hk'|].
  intros a s1 own1 H1. apply Hk. etransitivity; [exact He|]. by etransitivity.
Qed.

(** The end of a computation replaced. *)
Lemma safe_bind_mono {A B C} (p : prog I S A) (k : A -> prog I S B) (k' : A -> prog I S C) s0 own P Q :
  safe (p ≫= k) s0 own P -> (forall a s own, ext s0 s -> safe (k a) s own P -> safe (k' a) s own Q) ->
  safe (p ≫= k') s0 own Q.
Proof.
  revert s0 own. induction p as [a|D f k0 IH]; intros s0 own Hp Hk; cbn in *; [by apply Hk|].
  intros i s others Hi He HI. specialize (Hp i s others Hi He HI). destruct (f i s) as [b s'| |]; [|done|done].
  destruct Hp as (Hs & own' & HI' & Hk'). split; [done|]. exists own'. split; [done|]. eapply IH; [exact Hk'|].
  intros a s1 own1 H1. apply Hk. etransitivity; [exact He|]. by etransitivity.
Qed.

(** An action alone: what it does to the invariant and to the tokens. *)
Lemma safe_act {A} (f : I -> S -> answer S A) s0 own (Q : A -> S -> list T -> Prop) :
  (forall i s others, good i -> ext s0 s -> Inv s (own ++ others) ->
     match f i s with Step b s' => ext s s' /\ exists own', Inv s' (own' ++ others) /\ Q b s' own' | _ => True end) ->
  safe (act f) s0 own Q.
Proof. done. Qed.

(** An action that keeps the invariant, whatever the tokens are. *)
Lemma safe_calm {A} (f : I -> S -> answer S A) s0 own :
  (forall i s l, good i -> ext s0 s -> Inv s l -> match f i s with Step b s' => ext s s' /\ Inv s' l | _ => True end) ->
  safe (act f) s0 own (fun _ _ o => o = own).
Proof.
  intros H i s others Hi He HI. specialize (H i s _ Hi He HI). destruct (f i s); [|done|done].
  destruct H as [H HI']. split; [done|]. by exists own.
Qed.

Lemma safe_each {A} (l : list A) (body : A -> prog I S unit) s0 own :
  (forall a s, a ∈ l -> ext s0 s -> safe (body a) s own (fun _ _ o => o = own)) ->
  safe (each l body) s0 own (fun _ _ o => o = own).
Proof.
  revert s0. induction l as [|a l IH]; intros s0 Hb; cbn [each]; [done|].
  eapply safe_bind; [apply Hb; [left|done]|]. intros _ s o He ->. apply IH. intros b s1 Hin H1. apply Hb; [by right|].
  by etransitivity.
Qed.

(** *** The pool *)

Context {E : Type} (entry : E -> prog I S unit) (next_task : S -> option (prog I S unit * S)).

Definition inside (s : S) (p : prog I S unit) (own : list T) : Prop := exists s0, ext s0 s /\ safe p s0 own clean.

Definition pool_ok (c : Pool I S) : Prop :=
  exists owns wown, Inv c.(shared) (concat owns ++ wown) /\
    Forall2 (inside c.(shared)) c.(threads) owns /\ inside c.(shared) c.(worker) wown.

Lemma inside_ext s s' p own : ext s s' -> inside s p own -> inside s' p own.
Proof. intros H (s0 & H0 & Hp). exists s0. split; [by etransitivity|done]. Qed.

Lemma insides_ext s s' ps owns : ext s s' -> Forall2 (inside s) ps owns -> Forall2 (inside s') ps owns.
Proof. intros H Hp. eapply Forall2_impl; [exact Hp|]. intros p own. by apply inside_ext. Qed.

Lemma advance_ok i (p : prog I S unit) s own others :
  good i -> inside s p own -> Inv s (own ++ others) ->
  match advance i p s with
  | Step p' s' => ext s s' /\ exists own', Inv s' (own' ++ others) /\ inside s' p' own'
  | _ => True
  end.
Proof.
  intros Hi (s0 & H0 & Hp) HI. destruct p as [a|B f k]; cbn in *; [split; [done|]; exists own; split; [done|]; by exists s0|].
  specialize (Hp i s others Hi H0 HI). destruct (f i s) as [b s'| |]; [|done|done].
  destruct Hp as (He & own' & HI' & Hk). split; [done|]. exists own'. split; [done|]. by exists s'.
Qed.

Lemma concat_split (owns : list (list T)) t own wown : owns !! t = Some own ->
  concat owns ++ wown ≡ₚ own ++ (concat (delete t owns) ++ wown).
Proof.
  intros Ht. rewrite (delete_Permutation owns t own Ht) at 1. cbn. by rewrite app_assoc.
Qed.

Lemma delete_insert_same {A} (l : list A) i x : delete i (<[i := x]> l) = delete i l.
Proof. revert i. induction l as [|y l IH]; intros [|i]; cbn; [done..|]. f_equal. apply IH. Qed.

Lemma concat_insert (owns : list (list T)) t own own' wown : owns !! t = Some own ->
  concat (<[t := own']> owns) ++ wown ≡ₚ own' ++ (concat (delete t owns) ++ wown).
Proof.
  intros Ht. rewrite (concat_split _ t own') by (apply list_lookup_insert_eq; by eapply lookup_lt_Some).
  do 2 f_equiv. by rewrite delete_insert_same.
Qed.

Definition good_step (x : sched I E) : Prop := match x with Enter _ => True | Run _ i | Work i => good i end.

Hypothesis entry_safe : forall e s, safe (entry e) s [] clean.
Hypothesis task_safe : forall s l p s', Inv s l -> next_task s = Some (p, s') ->
  ext s s' /\ exists own, Inv s' (own ++ l) /\ safe p s' own clean.

Lemma pool_step_ok c x : good_step x -> pool_ok c -> pool_ok (pool_step entry next_task c x).
Proof.
  intros Hg (owns & wown & HI & Ht & Hw). unfold pool_step. destruct c.(dead); [by exists owns, wown|].
  destruct x as [e|t i|i].
  - exists (owns ++ [[]]), wown. rewrite concat_app. cbn. rewrite !app_nil_r. split_and!; [done| |done].
    apply Forall2_app; [done|]. constructor; [|constructor]. by exists c.(shared).
  - destruct (threads c !! t) as [p|] eqn:Ep; [|by exists owns, wown].
    destruct (Forall2_lookup_l _ _ _ _ _ Ht Ep) as (own & Eo & Hp).
    pose proof (advance_ok i p c.(shared) own (concat (delete t owns) ++ wown) Hg Hp) as Ha.
    specialize (Ha ltac:(by eapply Inv_perm, HI; rewrite (concat_split owns t own))).
    destruct (advance i p c.(shared)) as [p' s'| |]; [|by exists owns, wown|by exists owns, wown].
    destruct Ha as (He & own' & HI' & Hp'). exists (<[t := own']> owns), wown. cbn. split_and!; [| |by eapply inside_ext].
    + eapply Inv_perm; [|exact HI']. by rewrite (concat_insert owns t own own').
    + apply Forall2_insert; [by eapply insides_ext|done].
  - pose proof (advance_ok i c.(worker) c.(shared) wown (concat owns) Hg Hw) as Ha.
    specialize (Ha ltac:(eapply Inv_perm, HI; apply Permutation_app_comm)).
    destruct (worker c) as [a|B f k] eqn:Ew.
    + destruct (next_task c.(shared)) as [[p s']|] eqn:En; [|exists owns, wown; by rewrite ?Ew].
      destruct Hw as (s0 & _ & Hw). cbn in Hw. unfold clean in Hw. subst wown.
      destruct (task_safe _ _ _ _ HI En) as (He & own & HI' & Hp).
      exists owns, own. split_and!; [|by eapply insides_ext|by exists s'].
      eapply Inv_perm, HI'. rewrite app_nil_r. apply Permutation_app_comm.
    + destruct (advance i _ c.(shared)) as [p' s'| |];
        [|exists owns, wown; by rewrite ?Ew|exists owns, wown; by rewrite ?Ew].
      destruct Ha as (He & own' & HI' & Hp'). exists owns, own'. split_and!; [|by eapply insides_ext|done].
      eapply Inv_perm, HI'. apply Permutation_app_comm.
Qed.

(** Under every schedule the invariant holds with the tokens of the threads that are inside; when all
    have left there are none. *)
Theorem pool_invariant s0 xs :
  Inv s0 [] -> Forall good_step xs ->
  let c := pool_run entry next_task s0 xs in
  exists l, Inv c.(shared) l /\ (quiet c -> l = []).
Proof.
  intros H0 Hxs c. assert (Hok : pool_ok c).
  { subst c. unfold pool_run.
    assert (H : pool_ok (pool_init (I := I) s0)) by (exists [], []; split_and!; [done|constructor|by exists s0]).
    revert H. generalize (pool_init (I := I) s0). induction Hxs as [|x xs Hx _ IH]; intros c Hc; cbn [run_events]; [done|].
    apply IH. by apply pool_step_ok. }
  destruct Hok as (owns & wown & HI & Ht & (s1 & _ & Hw)). eexists. split; [exact HI|]. intros [[a Hwd] Htd].
  rewrite Hwd in Hw. cbn in Hw. rewrite Hw, app_nil_r.
  clear -Ht Htd. induction Ht as [|p own ps owns (s2 & _ & Hp) _ IH]; [done|].
  apply Forall_cons in Htd as [[b ->] Htd]. cbn in *. rewrite Hp, IH by done. done.
Qed.

End invariant.
