(* ===== verification/Dtls.v ===== *)
(** * DTLS handshake and SRTP keys ([minirtc/src/ice/dtls_transport.{h,cpp}])

    OpenSSL is behind its interface: what its calls answer is an input of the action that makes them, and
    the datagrams it writes through the BIO are part of that answer.  An [SSL] object is a number, fresh
    at each [SSL_new].  Methods are computations of [Pool], interrupted wherever the source releases its
    mutex or touches an atomic; what leaves the object is the list [out_], which the owner empties. *)
From S2P Require Export Pool.
From stdpp Require Import strings.
#[local] Open Scope Z_scope.

(** ** Definitions *)

(** *** OpenSSL *)

Inductive SslError := SSL_ERROR_WANT_READ | SSL_ERROR_WANT_WRITE | SSL_ERROR_ZERO_RETURN | SSL_ERROR_OTHER.

(** What the library answers during one critical section: whether the context and the [SSL] object could
    be made, the result of [SSL_do_handshake] with the records it read and the datagrams it wrote, the
    digest of the peer's certificate (no certificate, no digest, or the digest), and the keys. *)
Record SslAns := mkSsl {
  ctx_new_ok : bool; ctx_setup_ok : bool; ssl_new_ok : bool;
  hs_ret : Z; hs_err : SslError; init_finished : bool; hs_reads : nat; hs_flights : list bytes;
  peer_cert : option (option bytes);
  srtp_profile : option string;
  keying_material : option bytes;
}.

(** *** The object *)

Inductive DtlsDone := kNone | kVerified | kFailed.

(** A datagram for [send_]; the result for [done_]; what [CompleteHandshake] logs about a handshake. *)
Inductive DtlsOut :=
| Flight (d : bytes)
| Published (verified : bool)
| Checked (ssl : nat) (fp : string) (verified : bool).

Record DtlsTransport := mkDtls {
  cert_ : bool;
  fingerprint_ : string;
  remote_fingerprint_ : string;
  is_client_ : bool;
  ctx_ : bool;
  ssl_ : option nat;
  ssl_made_ : nat;
  incoming_ : list bytes;
  started_ : bool;
  handshake_done_ : bool;
  verified_ : bool;
  failed_ : bool;
  out_ : list DtlsOut;
}.
#[export] Instance eta_Dtls : Eta DtlsTransport := fun s => mkDtls s.(cert_) s.(fingerprint_) s.(remote_fingerprint_)
  s.(is_client_) s.(ctx_) s.(ssl_) s.(ssl_made_) s.(incoming_) s.(started_) s.(handshake_done_) s.(verified_)
  s.(failed_) s.(out_).

(** [Fingerprint]: the digest as pairs of upper-case digits between colons. *)
Definition hex_upper (d : Z) : Z := if d <? 10 then 48 + d else 55 + d.
Definition hex_byte (b : Z) : bytes := [hex_upper (b / 16); hex_upper (b mod 16)].
Fixpoint hex_colons (md : bytes) : bytes :=
  match md with
  | [] => []
  | [b] => hex_byte b
  | b :: md => hex_byte b ++ [58] ++ hex_colons md
  end.
Definition Fingerprint (digest : option bytes) : string :=
  match digest with None => "" | Some md => of_sbytes (hex_colons md) end.

(** The constructor: the digest of the certificate, or [None] when generating it failed. *)
Definition DtlsTransport_new (digest : option (option bytes)) : DtlsTransport :=
  mkDtls (bool_decide (is_Some digest)) (match digest with Some d => Fingerprint d | None => "" end) "" false
    false None 0 [] false false false false [].

Definition HasRemoteFingerprint (s : DtlsTransport) : bool := negb (String.eqb s.(remote_fingerprint_) "").

Definition IsDtlsRecord (data : bytes) : bool :=
  if zlen data <? 13 then false else
  let ct := znth data 0 in
  if (ct <? 20) || (ct >? 25) then false else
  (znth data 1 =? 0xFE) && ((znth data 2 =? 0xFF) || (znth data 2 =? 0xFD)).

Definition emit (o : list DtlsOut) (s : DtlsTransport) : DtlsTransport := s <| out_ ::= fun l => l ++ o |>.

(** [CompleteHandshake], with the mutex held. *)
Definition CompleteHandshake (i : SslAns) (s : DtlsTransport) : DtlsDone * DtlsTransport :=
  let was := s.(handshake_done_) in
  let s := s <| handshake_done_ := true |> in
  if was then (kNone, s) else
  match i.(peer_cert) with
  | None => (kFailed, s <| failed_ := true |>)
  | Some digest =>
      let fp := Fingerprint digest in
      let n := default 0%nat s.(ssl_) in
      if String.eqb s.(remote_fingerprint_) "" || negb (String.eqb fp s.(remote_fingerprint_)) then
        (kFailed, emit [Checked n fp false] (s <| failed_ := true |>))
      else (kVerified, emit [Checked n fp true] (s <| verified_ := true |>))
  end.

(** A call of the library that reads queued records and writes datagrams. *)
Definition ssl_io (i : SslAns) (s : DtlsTransport) : DtlsTransport :=
  emit (Flight <$> i.(hs_flights)) (s <| incoming_ ::= drop i.(hs_reads) |>).

(** The critical section of [Start]; [None] when it leaves with -1 before the handshake. *)
Definition start_locked (is_client : bool) (i : SslAns) (s : DtlsTransport) : option DtlsDone * DtlsTransport :=
  let s := s <| is_client_ := is_client |> <| ctx_ := i.(ctx_new_ok) |> in
  if negb i.(ctx_new_ok) then (None, s <| failed_ := true |>) else
  if negb i.(ctx_setup_ok) then (None, s <| failed_ := true |>) else
  if negb i.(ssl_new_ok) then (None, s <| ssl_ := None |> <| failed_ := true |>) else
  let s := s <| ssl_ := Some s.(ssl_made_) |> <| ssl_made_ ::= S |> in
  let s := ssl_io i s in
  if i.(hs_ret) =? 1 then let '(d, s) := CompleteHandshake i s in (Some d, s) else
  match i.(hs_err) with
  | SSL_ERROR_WANT_READ | SSL_ERROR_WANT_WRITE => (Some kNone, s)
  | _ => (Some kFailed, s <| failed_ := true |>)
  end.

Definition dtls : Type -> Type := prog SslAns DtlsTransport.

Definition Publish (d : DtlsDone) : dtls unit :=
  match d with
  | kNone => skip
  | kVerified => write (emit [Published true])
  | kFailed => write (emit [Published false])
  end.

Definition Start (is_client : bool) : dtls Z :=
  was ← act (fun _ s => Step s.(started_) (s <| started_ := true |>));
  if was : bool then mret 0 else
  cert ← read (fun s => s.(cert_));
  if negb cert then _ ← write (fun s => s <| failed_ := true |>); mret (-1) else
  r ← act (fun i s => let '(r, s) := start_locked is_client i s in Step r s);
  match r with
  | None => mret (-1)
  | Some d => _ ← Publish d; mret (match d with kFailed => -1 | _ => 0 end)
  end.

Definition Cleanup (s : DtlsTransport) : DtlsTransport := s <| ssl_ := None |> <| ctx_ := false |> <| incoming_ := [] |>.

Definition Restart : dtls unit :=
  _ ← write Cleanup;
  _ ← write (fun s => s <| started_ := false |>);
  _ ← write (fun s => s <| handshake_done_ := false |>);
  _ ← write (fun s => s <| verified_ := false |>);
  write (fun s => s <| failed_ := false |>).

(** The critical section of [HandleIncoming]. *)
Definition incoming_locked (data : bytes) (i : SslAns) (s : DtlsTransport) : DtlsDone * DtlsTransport :=
  match s.(ssl_) with
  | None => (kNone, if (length s.(incoming_) <? 8)%nat then s <| incoming_ ::= fun q => q ++ [data] |> else s)
  | Some _ =>
      let s := s <| incoming_ ::= fun q => q ++ [data] |> in
      if s.(handshake_done_) then (kNone, (ssl_io i s) <| incoming_ := [] |>) else
      let s := ssl_io i s in
      if i.(hs_ret) <=? 0 then
        match i.(hs_err) with
        | SSL_ERROR_WANT_READ | SSL_ERROR_WANT_WRITE => (kNone, s)
        | _ => (kFailed, s <| failed_ := true |>)
        end
      else if i.(init_finished) && negb s.(handshake_done_) then CompleteHandshake i s
      else (kNone, s)
  end.

Definition HandleIncoming (data : bytes) : dtls bool :=
  if negb (IsDtlsRecord data) then mret false else
  d ← act (fun i s => let '(d, s) := incoming_locked data i s in Step d s);
  _ ← Publish d; mret true.

(** [DTLSv1_handle_timeout] sends the flight again. *)
Definition HandleTimeout : dtls unit :=
  act (fun i s =>
    match s.(ssl_) with
    | Some _ => Step tt (if s.(handshake_done_) || s.(failed_) then s else emit (Flight <$> i.(hs_flights)) s)
    | None => Step tt s
    end).

Definition kKey : Z := 16.
Definition kSalt : Z := 12.

Record SrtpKeys := mkKeys { local_key : bytes; local_salt : bytes; remote_key : bytes; remote_salt : bytes }.

(** The cut of the exported material: client key, server key, client salt, server salt. *)
Definition split_keys (is_client : bool) (material : bytes) : SrtpKeys :=
  let client_key := slice 0 kKey material in
  let server_key := slice kKey kKey material in
  let client_salt := slice (2 * kKey) kSalt material in
  let server_salt := slice (2 * kKey + kSalt) kSalt material in
  if is_client then mkKeys client_key client_salt server_key server_salt
  else mkKeys server_key server_salt client_key client_salt.

Definition export_keys (i : SslAns) (s : DtlsTransport) : option SrtpKeys :=
  match s.(ssl_) with
  | Some _ =>
      if negb s.(verified_) then None else
      match i.(srtp_profile) with
      | Some p => if negb (String.eqb p "SRTP_AEAD_AES_128_GCM") then None else
                  split_keys s.(is_client_) <$> i.(keying_material)
      | None => None
      end
  | None => None
  end.

Definition ExportSrtpKeys : dtls (option SrtpKeys) := act (fun i s => Step (export_keys i s) s).

(** ** Keys *)

(** C26: The two ends of a handshake export the same material: what one encrypts with, the other decrypts
    with, and the two directions use different parts of it. *)
Theorem keys_mirror i i' s s' k k' :
  s.(is_client_) = true -> s'.(is_client_) = false -> i.(keying_material) = i'.(keying_material) ->
  export_keys i s = Some k -> export_keys i' s' = Some k' ->
  k'.(local_key) = k.(remote_key) /\ k'.(local_salt) = k.(remote_salt) /\
  k'.(remote_key) = k.(local_key) /\ k'.(remote_salt) = k.(local_salt).
Proof.
  unfold export_keys. intros Hc Hs Hm. rewrite Hc, Hs, Hm. intros H H'.
  destruct (ssl_ s), (ssl_ s'); try done. destruct (verified_ s), (verified_ s'); try done. cbn [negb] in *.
  destruct (srtp_profile i) as [p|], (srtp_profile i') as [p'|]; try done.
  destruct (negb (p =? _)%string), (negb (p' =? _)%string); try done.
  destruct (keying_material i') as [m|]; [|done]. injection H as <-. by injection H' as <-.
Qed.

(** ** Fingerprints *)

Lemma length_hex_colons md : length (hex_colons md) = (3 * length md - 1)%nat.
Proof.
  induction md as [|b [|c md] IH]; [done|done|]. change (hex_colons (b :: c :: md)) with (hex_byte b ++ [58] ++ hex_colons (c :: md)).
  rewrite !length_app, IH. cbn. lia.
Qed.

(** The characters of a fingerprint: digits, upper-case letters and the colon. *)
Definition fp_char (c : Z) : Prop := 48 <= c <= 57 \/ 65 <= c <= 70 \/ c = 58.

Lemma hex_colons_chars md : is_bytes md -> Forall fp_char (hex_colons md).
Proof.
  assert (Hd : forall d, 0 <= d < 16 -> fp_char (hex_upper d)).
  { intros d Hd. unfold fp_char, hex_upper. destruct (Z.ltb_spec d 10); lia. }
  assert (Hb : forall b, in_u8 b -> Forall fp_char (hex_byte b)).
  { unfold in_u8. intros b Hb. apply Forall_cons_2, Forall_cons_2, Forall_nil_2; apply Hd.
    - split; [apply Z.div_pos; lia|apply Z.div_lt_upper_bound; lia].
    - apply Z.mod_pos_bound. lia. }
  intros Hmd. induction Hmd as [|b md Hx Hmd IH]; [by apply Forall_nil_2|]. destruct md as [|c md]; [by apply Hb|].
  change (hex_colons (b :: c :: md)) with (hex_byte b ++ [58] ++ hex_colons (c :: md)).
  apply Forall_app. split; [by apply Hb|]. apply Forall_cons_2; [unfold fp_char; lia|done].
Qed.

(** ** A handshake that was not checked *)

(** The calls threads make. *)
Inductive DtlsCall := CallStart (is_client : bool) | CallRestart | CallIncoming (data : bytes).
Definition dtls_entry (c : DtlsCall) : dtls unit :=
  match c with
  | CallStart b => _ ← Start b; skip
  | CallRestart => Restart
  | CallIncoming d => _ ← HandleIncoming d; skip
  end.
Definition dtls_run (s : DtlsTransport) (xs : list (sched SslAns DtlsCall)) : Pool SslAns DtlsTransport :=
  pool_run dtls_entry (fun _ => None) s xs.

(** Answers of the library: a handshake in progress, and one that completes. *)
Definition ssl_waits : SslAns :=
  mkSsl true true true (-1) SSL_ERROR_WANT_READ false 1 [] (Some (Some [1; 2])) (Some "SRTP_AEAD_AES_128_GCM"%string) (Some []).
Definition ssl_completes : SslAns :=
  mkSsl true true true 1 SSL_ERROR_OTHER true 1 [] (Some (Some [1; 2])) (Some "SRTP_AEAD_AES_128_GCM"%string) (Some []).
Definition dtls_ready : DtlsTransport := (DtlsTransport_new (Some (Some [9]))) <| remote_fingerprint_ := Fingerprint (Some [1; 2]) |>.
Definition sample_record : bytes := [22; 0xFE; 0xFD] ++ replicate 10 0.

Definition late_start : list (sched SslAns DtlsCall) :=
  [Enter (CallStart true); Run 0 ssl_waits;
   Enter CallRestart] ++ replicate 5 (Run 1 ssl_waits) ++
  [Enter (CallStart true)] ++ replicate 4 (Run 2 ssl_waits) ++
  [Enter (CallIncoming sample_record); Run 3 ssl_completes; Run 3 ssl_completes;
   Run 0 ssl_waits; Run 0 ssl_waits].

(** A call of [Start] is overtaken, between its first test and its critical section, by [Restart] and
    another [Start] whose handshake is completed and checked; when it resumes, it replaces the [SSL] object
    by one nobody checked, and the object still says it is verified. *)
Theorem late_start_unchecked :
  let s := (dtls_run dtls_ready late_start).(shared) in
  s.(verified_) = true /\ s.(ssl_) = Some 1%nat /\
  (forall n fp ok, Checked n fp ok ∈ s.(out_) -> n = 0%nat) /\
  is_Some (export_keys ssl_waits s).
Proof.
  vm_compute. split_and!; [done|done| |by eauto].
  intros n fp ok H. repeat (apply elem_of_cons in H as [H|H]; [congruence|]). by apply elem_of_nil in H.
Qed.

(** ** Witnesses *)

Definition sample_client : DtlsTransport := dtls_ready <| ssl_ := Some 0%nat |> <| verified_ := true |> <| is_client_ := true |>.
Definition sample_server : DtlsTransport := sample_client <| is_client_ := false |>.
Definition sample_keys (is_client : bool) : SrtpKeys := split_keys is_client (seqZ 0 56).
Definition ssl_exports : SslAns :=
  mkSsl true true true 1 SSL_ERROR_OTHER true 0 [] None (Some "SRTP_AEAD_AES_128_GCM"%string) (Some (seqZ 0 56)).

Lemma keys_mirror_witness :
  (sample_keys false).(local_key) = (sample_keys true).(remote_key) /\
  (sample_keys false).(local_salt) = (sample_keys true).(remote_salt) /\
  (sample_keys false).(remote_key) = (sample_keys true).(local_key) /\
  (sample_keys false).(remote_salt) = (sample_keys true).(local_salt).
Proof.
  apply (keys_mirror ssl_exports ssl_exports sample_client sample_server); vm_compute; reflexivity.
Defined.
