(* ===== verification/Sdp.v ===== *)
(** * The lines of a session description

    What [DataTransport::LocalStreamSdpLines], [DataTransport::ParseRemoteStreams]
    ([minirtc/src/transport/data_transport.cpp]) and [ExtractFingerprint]
    ([minirtc/src/pc/peer_connection.cpp]) do with the text of a description, byte by byte: [std::getline],
    the extraction operators of a stream in the C locale, and decimal numbers.  The theorems: a number
    printed is read back, a stream line written is parsed back, and the fingerprint of a description is the
    first one written into it. *)
From S2P Require Export Prelude.
#[local] Open Scope Z_scope.

(** ** Definitions *)

(** *** [std::getline] and the extraction operators *)

(** The lines of a text; what follows the last newline is a line unless it is empty. *)
Fixpoint getlines (cur s : bytes) : list bytes :=
  match s with
  | [] => match cur with [] => [] | _ => [reverse cur] end
  | c :: s => if c =? 10 then reverse cur :: getlines [] s else getlines (c :: cur) s
  end.
Definition lines (s : bytes) : list bytes := getlines [] s.

(** [if (!line.empty() && line.back() == '\r') line.pop_back();] *)
Definition chomp (line : bytes) : bytes :=
  match reverse line with
  | c :: r => if c =? 13 then reverse r else line
  | [] => line
  end.

Definition is_space (c : Z) : bool := (c =? 32) || ((9 <=? c) && (c <=? 13)).
Definition is_digit (c : Z) : bool := (48 <=? c) && (c <=? 57).

Fixpoint skip_ws (s : bytes) : bytes :=
  match s with
  | c :: s' => if is_space c then skip_ws s' else s
  | [] => []
  end.

Fixpoint word (s : bytes) : bytes * bytes :=
  match s with
  | c :: s' => if is_space c then ([], s) else let '(w, r) := word s' in (c :: w, r)
  | [] => ([], [])
  end.

(** [is >> std::string]: [None] is [failbit]. *)
Definition read_word (s : bytes) : option (bytes * bytes) :=
  match word (skip_ws s) with
  | ([], _) => None
  | (w, r) => Some (w, r)
  end.

Fixpoint digits (v : Z) (s : bytes) : Z * bytes :=
  match s with
  | c :: s' => if is_digit c then digits (v * 10 + (c - 48)) s' else (v, s)
  | [] => (v, [])
  end.

(** The sign and the digits of a number. *)
Definition read_number (s : bytes) : option (bool * Z * bytes) :=
  let s := skip_ws s in
  let '(neg, s) := match s with
                   | c :: s' => if c =? 45 then (true, s') else if c =? 43 then (false, s') else (false, s)
                   | [] => (false, [])
                   end in
  match s with
  | c :: _ => if is_digit c then let '(v, r) := digits 0 s in Some (neg, v, r) else None
  | [] => None
  end.

(** [is >> uint32_t]: out of range sets [failbit], a minus sign negates modulo 2^32. *)
Definition read_u32 (s : bytes) : option (Z * bytes) :=
  '(neg, v, r) ← read_number s;
  if v >=? 2 ^ 32 then None else Some (if neg : bool then u32 (- v) else v, r).
(** [is >> int] *)
Definition read_i32 (s : bytes) : option (Z * bytes) :=
  '(neg, v, r) ← read_number s;
  let v := if neg : bool then - v else v in
  if (v <? - 2 ^ 31) || (v >=? 2 ^ 31) then None else Some (v, r).

(** [os << n] for [0 <= n] *)
Fixpoint dec_loop (fuel : nat) (n : Z) (acc : bytes) : bytes :=
  match fuel with
  | O => acc
  | S fuel =>
      let acc := (48 + n mod 10) :: acc in
      if n / 10 =? 0 then acc else dec_loop fuel (n / 10) acc
  end.
Definition dec (n : Z) : bytes := dec_loop 20 n [].

Definition crlf : bytes := [13; 10].

(** *** Stream lines *)

Definition stream_prefix : bytes := sbytes "a=x-data-stream:".

(** One line of [LocalStreamSdpLines]. *)
Definition stream_line (name : bytes) (ssrc : Z) (reliable : bool) : bytes :=
  stream_prefix ++ name ++ [32] ++ dec ssrc ++ [32] ++ dec (if reliable then 1 else 0).

(** The fields of a line that starts with the prefix; [None] for a malformed one. *)
Definition parse_stream_line (line : bytes) : option (bytes * Z * Z) :=
  '(name, s) ← read_word (zdrop 16 line);
  '(ssrc, s) ← read_u32 s;
  '(reliable, _) ← read_i32 s;
  if ssrc =? 0 then None else Some (name, ssrc, reliable).

(** *** [ExtractFingerprint] *)

Definition fingerprint_prefix : bytes := sbytes "a=fingerprint:sha-256 ".

Definition toupper (c : Z) : Z := if (97 <=? c) && (c <=? 122) then c - 32 else c.

Fixpoint find_fingerprint (ls : list bytes) : bytes :=
  match ls with
  | [] => []
  | l :: ls =>
      let line := chomp l in
      if starts_with fingerprint_prefix line then
        let fp := zdrop (zlen fingerprint_prefix) line in
        if negb (zlen fp =? 95) then [] else toupper <$> fp
      else find_fingerprint ls
  end.
Definition ExtractFingerprint (sdp : bytes) : bytes := find_fingerprint (lines sdp).

(** ** Lines *)

Lemma getlines_line cur l s : Forall (fun c => c <> 10) l -> getlines cur (l ++ 10 :: s) = (reverse cur ++ l) :: lines s.
Proof.
  intros Hl. revert cur. induction Hl as [|c l Hc _ IH]; intros cur; cbn [app getlines].
  - by rewrite app_nil_r.
  - rewrite (proj2 (Z.eqb_neq c 10)) by done. rewrite IH. by rewrite reverse_cons, <- app_assoc.
Qed.

Lemma chomp_cr l : chomp (l ++ [13]) = l.
Proof. unfold chomp. rewrite reverse_snoc. change (13 =? 13) with true. cbv iota. by rewrite reverse_involutive. Qed.

(** A text is a sequence of lines that contain neither end-of-line character. *)
Definition is_line (l : bytes) : Prop := Forall (fun c => c <> 10 /\ c <> 13) l.
Definition text (ls : list bytes) : bytes := concat ((fun l => l ++ crlf) <$> ls).

Lemma is_line_check l : forallb (fun c => negb (c =? 10) && negb (c =? 13)) l = true -> is_line l.
Proof.
  intros H. rewrite forallb_forall in H. apply Forall_forall. intros c Hc. specialize (H c). rewrite <- list_elem_of_In in H.
  specialize (H Hc). zbool. done.
Qed.

Lemma text_app ls ls' : text (ls ++ ls') = text ls ++ text ls'.
Proof. unfold text. by rewrite fmap_app, concat_app. Qed.

(** Every line of a text is found, with its carriage return. *)
Lemma lines_text ls : Forall is_line ls -> lines (text ls) = (fun l => l ++ [13]) <$> ls.
Proof.
  induction 1 as [|l ls Hl _ IH]; [done|]. change (text (l :: ls)) with ((l ++ crlf) ++ text ls).
  unfold crlf. replace ((l ++ [13; 10]) ++ text ls) with ((l ++ [13]) ++ 10 :: text ls) by (by rewrite <- !app_assoc).
  unfold lines at 1. rewrite getlines_line; [by rewrite IH|]. apply Forall_app. split; [|by constructor].
  eapply Forall_impl; [exact Hl|]. by intros c [? ?].
Qed.

(** ** Numbers *)

Lemma digits_stop v s : match s with c :: _ => is_digit c = false | [] => True end -> digits v s = (v, s).
Proof. destruct s as [|c s]; [done|]. intros H. cbn. by rewrite H. Qed.

Lemma dec_digit n : 0 <= n -> is_digit (48 + n mod 10) = true.
Proof. intros _. unfold is_digit. pose proof (Z.mod_pos_bound n 10). apply andb_true_iff. rewrite !Z.leb_le. lia. Qed.

Lemma dec_loop_app fuel n a b : dec_loop fuel n (a ++ b) = dec_loop fuel n a ++ b.
Proof.
  revert n a. induction fuel as [|fuel IH]; intros n a; [done|]. cbn [dec_loop].
  destruct (n / 10 =? 0); [done|]. by rewrite <- IH.
Qed.

Lemma digits_dec_loop fuel n acc v k :
  0 <= n < 10 ^ Z.of_nat fuel -> (k = length (dec_loop fuel n []))%nat ->
  digits v (dec_loop fuel n acc) = digits (v * 10 ^ Z.of_nat k + n) acc.
Proof.
  revert n acc v k. induction fuel as [|fuel IH]; intros n acc v k Hn ->.
  { cbn [dec_loop length]. change (10 ^ Z.of_nat 0) with 1 in *. f_equal. lia. }
  cbn [dec_loop]. destruct (Z.eqb_spec (n / 10) 0) as [E|E].
  - cbn [digits length]. rewrite dec_digit by lia. f_equal. change (10 ^ Z.of_nat 1) with 10.
    pose proof (Z.div_mod n 10). lia.
  - assert (Hn' : 0 <= n / 10 < 10 ^ Z.of_nat fuel).
    { split; [apply Z.div_pos; lia|]. apply Z.div_lt_upper_bound; [lia|].
      rewrite Nat2Z.inj_succ, Z.pow_succ_r in Hn by lia. lia. }
    rewrite (IH _ _ v _ Hn' eq_refl). cbn [digits]. rewrite dec_digit by lia.
    change [48 + n mod 10] with ([] ++ [48 + n mod 10]). rewrite dec_loop_app, length_app. cbn [length].
    f_equal. rewrite Nat2Z.inj_add, Z.pow_add_r by lia. change (10 ^ Z.of_nat 1) with 10.
    pose proof (Z.div_mod n 10). lia.
Qed.

(** Every character printed is a digit, and there is one. *)
Lemma dec_loop_digits fuel n acc : 0 <= n -> Forall (fun c => is_digit c = true) acc -> Forall (fun c => is_digit c = true) (dec_loop fuel n acc).
Proof.
  revert n acc. induction fuel as [|fuel IH]; intros n acc Hn Ha; [done|]. cbn [dec_loop].
  assert (Forall (fun c => is_digit c = true) ((48 + n mod 10) :: acc)) by (by constructor; [apply dec_digit|]).
  destruct (n / 10 =? 0); [done|]. apply IH; [apply Z.div_pos; lia|done].
Qed.

Lemma dec_loop_acc fuel n acc : acc <> [] -> dec_loop fuel n acc <> [].
Proof.
  revert n acc. induction fuel as [|fuel IH]; intros n acc Ha; [done|]. cbn [dec_loop].
  destruct (n / 10 =? 0); [done|]. by apply IH.
Qed.

Lemma dec_cons n : 0 <= n -> exists c s, dec n = c :: s /\ is_digit c = true.
Proof.
  intros Hn. pose proof (dec_loop_digits 20 n [] Hn (Forall_nil_2 _)) as Hd. unfold dec in *.
  destruct (dec_loop 20 n []) as [|c s] eqn:E.
  - exfalso. revert E. cbn [dec_loop]. destruct (n / 10 =? 0); [done|]. by apply (dec_loop_acc 19).
  - exists c, s. by apply Forall_cons in Hd as [? ?].
Qed.

Lemma digit_not_space c : is_digit c = true -> is_space c = false /\ c <> 45 /\ c <> 43.
Proof.
  unfold is_digit, is_space. intros H. zbool. split_and!; [|lia|lia]. apply orb_false_iff.
  split; [by apply Z.eqb_neq; lia|]. apply andb_false_iff. right. apply Z.leb_gt. lia.
Qed.

(** A printed number that is followed by no digit is read back. *)
Lemma read_number_dec n s :
  0 <= n < 10 ^ 20 -> match s with c :: _ => is_digit c = false | [] => True end ->
  read_number (dec n ++ s) = Some (false, n, s) /\ read_number (32 :: dec n ++ s) = Some (false, n, s).
Proof.
  intros Hn Hs. destruct (dec_cons n ltac:(lia)) as (c & t & E & Hc). pose proof (digit_not_space c Hc) as (Hw & Hm & Hp).
  assert (Hd : digits 0 (dec n ++ s) = (n, s)).
  { unfold dec. rewrite <- dec_loop_app. cbn [app]. rewrite (digits_dec_loop 20 n s 0 _ Hn eq_refl). by rewrite digits_stop. }
  assert (Hsk : skip_ws (dec n ++ s) = dec n ++ s) by (rewrite E; cbn; by rewrite Hw).
  assert (Hr : read_number (dec n ++ s) = Some (false, n, s)).
  { unfold read_number. rewrite Hsk, E. cbn [app]. rewrite (proj2 (Z.eqb_neq c 45)), (proj2 (Z.eqb_neq c 43)), Hc by done.
    rewrite E in Hd. cbn [app] in Hd. by rewrite Hd. }
  split; [done|]. rewrite <- Hr at 1. unfold read_number. cbn [skip_ws]. done.
Qed.

(** ** Round trips *)

(** A name the extraction operator reads whole. *)
Definition is_word (w : bytes) : Prop := w <> [] /\ Forall (fun c => is_space c = false) w.

Lemma word_app w s : Forall (fun c => is_space c = false) w -> word (w ++ 32 :: s) = (w, 32 :: s).
Proof. induction 1 as [|c w Hc _ IH]; [done|]. cbn [app word]. by rewrite Hc, IH. Qed.

Lemma stream_line_parses name ssrc reliable :
  is_word name -> 0 < ssrc < 2 ^ 32 ->
  parse_stream_line (stream_line name ssrc reliable) = Some (name, ssrc, if reliable then 1 else 0).
Proof.
  intros [Hne Hw] Hs. unfold parse_stream_line, stream_line.
  rewrite (zdrop_app 16 stream_prefix) by reflexivity. unfold read_word.
  assert (Hsk : forall s, skip_ws (name ++ s) = name ++ s).
  { intros s. destruct name as [|c name]; [done|]. cbn. apply Forall_cons in Hw as [Hc _]. by rewrite Hc. }
  rewrite Hsk. cbn [app]. rewrite word_app by done. destruct name as [|c name]; [done|]. cbn [mbind option_bind].
  unfold read_u32. destruct (read_number_dec ssrc (32 :: dec (if reliable then 1 else 0)) ltac:(lia) eq_refl) as [_ ->].
  cbn [mbind option_bind]. rewrite Z.geb_leb, (proj2 (Z.leb_gt _ ssrc)) by lia.
  assert (Hr : read_i32 (32 :: dec (if reliable then 1 else 0)) = Some (if reliable then 1 else 0, [])) by (by destruct reliable).
  cbn [mbind option_bind]. rewrite Hr. by rewrite (proj2 (Z.eqb_neq ssrc 0)) by lia.
Qed.

Lemma starts_with_prefix p s : starts_with p s = true <-> exists r, s = p ++ r.
Proof.
  revert s. induction p as [|a p IH]; intros s; cbn; [split; [by eexists|done]|].
  destruct s as [|b s]; [split; [done|by intros [r ?]]|]. rewrite andb_true_iff, Z.eqb_eq, IH. split.
  - intros [-> [r ->]]. by exists r.
  - intros [r [= -> ->]]. eauto.
Qed.

(** The fingerprint of a text: that of its first fingerprint line. *)
Lemma find_fingerprint_text before fp after :
  Forall (fun l => starts_with fingerprint_prefix l = false) before ->
  Forall is_line (before ++ (fingerprint_prefix ++ fp) :: after) -> zlen fp = 95 ->
  ExtractFingerprint (text (before ++ (fingerprint_prefix ++ fp) :: after)) = toupper <$> fp.
Proof.
  intros Hb Hl Hfp. unfold ExtractFingerprint. rewrite lines_text by done.
  rewrite fmap_app, fmap_cons. clear Hl. induction Hb as [|l before Hl _ IH].
  - cbn [fmap list_fmap app find_fingerprint]. rewrite chomp_cr, starts_with_app.
    rewrite zdrop_app by done. by rewrite Hfp.
  - cbn [fmap list_fmap app find_fingerprint] in *. by rewrite chomp_cr, Hl.
Qed.
