(* ===== verification/DataTransport.v ===== *)
(** * Data streams over a datagram path ([minirtc/src/transport/data_transport.{h,cpp}],
      [minirtc/src/srtp/srtp_engine.cpp])

    Named streams, each with its RTP packetizer and, when reliable, a KCP connection; SRTP once the owner
    has installed the keys.  A method is a function of the state and of the answers of the libraries; what
    it hands to the send function, to the data callback, to the pacer, to KCP and to the congestion
    controller is the list [d_out_], in order.  libsrtp is an interface: its four operations on a packet,
    under the parameters of a session and whatever else the session remembers.  The pacer, the congestion
    controller and KCP are answers and outputs.

    The theorems: with SRTP nothing is sent or delivered in the clear, whatever calls are made; a
    description names the streams as they are; what happens to a description that names one twice. *)
From S2P Require Export Rtp Sdp.
From S2P Require Peer.
#[local] Open Scope Z_scope.

(** ** Definitions *)

(** *** SRTP *)

(** [SrtpEngine::Params]: the key and the salt. *)
Record SrtpParams := mkParams { srtp_key : bytes; srtp_salt : bytes }.

(** [srtp_protect] and the like: the session's parameters, what else it remembers, the packet; [None] is an
    error code. *)
Class SrtpLib := {
  srtp_protect : SrtpParams -> Z -> bytes -> option bytes;
  srtp_unprotect : SrtpParams -> Z -> bytes -> option bytes;
  srtp_protect_rtcp : SrtpParams -> Z -> bytes -> option bytes;
  srtp_unprotect_rtcp : SrtpParams -> Z -> bytes -> option bytes;
}.

(** *** State *)

Record DataStreamConfig := mkStreamConfig { name : string; reliable : bool; kcp_window : Z }.
#[export] Instance eta_StreamConfig : Eta DataStreamConfig := fun c => mkStreamConfig c.(name) c.(reliable) c.(kcp_window).

Record Stream := mkStream {
  config : DataStreamConfig; local_ssrc : Z; remote_ssrc : Z; conv : Z; packetizer : RtpPacketizer; kcp : bool;
}.
#[export] Instance eta_Stream : Eta Stream := fun s => mkStream s.(config) s.(local_ssrc) s.(remote_ssrc) s.(conv)
  s.(packetizer) s.(kcp).

Inductive DataOut :=
| OutSend (d : bytes)                         (* send_ *)
| OutData (d : bytes) (stream : string)       (* on_data_, a datagram *)
| OutMessage (d : bytes) (stream : string)    (* on_data_, a message KCP completed *)
| OutPace (frames : list bytes) (stream : string)  (* pacer_->EnqueueRtpPackets *)
| OutPadding (frames : list bytes)            (* returned to the pacer *)
| OutPacerReady (ready was : bool)            (* pacer_->SetTransportReady, EnsureStarted *)
| OutPacerShutdown
| OutProbing (on : bool)                      (* controller_->SetRepeatedInitialProbing *)
| OutAvailable (ready : bool)                 (* controller_->OnNetworkAvailability *)
| OutRelay (relay : bool)                     (* controller_->SetRelayPath *)
| OutFeedback (packet : bytes)                (* feedback_adapter_, controller_ *)
| OutReceived (ssrc seq : Z)                  (* feedback_gen_->OnReceivedPacket *)
| OutInterval                                 (* controller_->OnProcessInterval *)
| OutKcpCreate (stream : string) (window : Z)
| OutKcpSend (stream : string) (d : bytes)
| OutKcpInput (stream : string) (d : bytes)
| OutKcpRelease (stream : string).

(** [send_] is whether a send function is set. *)
Record DataTransport := mkData {
  enable_srtp_ : bool;
  has_send_ : bool;
  streams_ : list (string * Stream);
  by_remote_ssrc_ : list (Z * string);
  padding_stream_ : string;
  srtp_out_ : option SrtpParams;
  srtp_in_ : option SrtpParams;
  srtp_ready_ : bool;
  transport_ready_ : bool;
  running_ : bool;
  relay_path_ : Z;
  tick_ : Z;
  sent_packets_ : Z; sent_bytes_ : Z; recv_packets_ : Z; recv_bytes_ : Z;
  last_sent_bytes_ : Z; last_recv_bytes_ : Z; last_stats_ms_ : Z;
  d_out_ : list DataOut;
}.
#[export] Instance eta_Data : Eta DataTransport := fun s => mkData s.(enable_srtp_) s.(has_send_) s.(streams_)
  s.(by_remote_ssrc_) s.(padding_stream_) s.(srtp_out_) s.(srtp_in_) s.(srtp_ready_) s.(transport_ready_) s.(running_)
  s.(relay_path_) s.(tick_) s.(sent_packets_) s.(sent_bytes_) s.(recv_packets_) s.(recv_bytes_) s.(last_sent_bytes_)
  s.(last_recv_bytes_) s.(last_stats_ms_) s.(d_out_).

(** What the libraries answer during one call: the clock, the state of the SRTP session, whether sessions
    could be created, the pacer's expected queue time, the KCP calls with the segments KCP outputs and the
    messages it completes, and the result of the send function. *)
Record DataAns := mkDataAns {
  d_now : Z; d_srtp : Z; d_srtp_valid : bool; d_queue_ms : Z;
  d_kcp_created : bool; d_kcp_full : bool; d_kcp_ok : bool; d_kcp_output : list bytes; d_kcp_recv : list bytes;
  d_sent : Z;
}.

Definition kMaxDatagramPayload : Z := 1150.
Definition kMaxPacerQueueMs : Z := 400.
Definition kProcessIntervalTicks : Z := 2.

(** *** Construction *)

Definition fnv_step (h c : Z) : Z := u32 (Z.lxor h c * 16777619).
Definition Fnv1a (s : bytes) : Z := let h := fold_left fnv_step s 2166136261 in if h =? 0 then 1 else h.

Definition LooksLikeRtcp (data : bytes) : bool :=
  if zlen data <? 8 then false else
  if negb (Z.land (Z.shiftr (znth data 0) 6) 3 =? 2) then false else
  (znth data 1 >=? 192) && (znth data 1 <=? 223).

Definition LooksLikeRtp (data : bytes) : bool :=
  if zlen data <? kFixedHeaderSize then false else
  if negb (Z.land (Z.shiftr (znth data 0) 6) 3 =? 2) then false else
  let pt := Z.land (znth data 1) 0x7F in (pt =? PAYLOAD_DATA) || (pt =? PAYLOAD_KCP).

(** One stream of the constructor, with the SSRC [GenerateUniqueSsrc] gave. *)
Definition add_stream (d : DataTransport) (c : DataStreamConfig * Z) : DataTransport :=
  let '(cfg, ssrc) := c in
  let s := mkStream cfg ssrc 0 (Fnv1a (sbytes cfg.(name)))
             (RtpPacketizer_Create (if cfg.(reliable) then PAYLOAD_KCP else PAYLOAD_DATA) ssrc) false in
  d <| padding_stream_ ::= fun p => if negb cfg.(reliable) && String.eqb p "" then cfg.(name) else p |>
    <| streams_ ::= sm_set cfg.(name) s |>.

Definition DataTransport_new (streams : list DataStreamConfig) (ssrcs : list Z) (enable_srtp : bool) : DataTransport :=
  fold_left add_stream (zip streams ssrcs)
    (mkData enable_srtp false [] [] "" None None false false false (-1) 0 0 0 0 0 0 0 0 []).

Definition put (o : list DataOut) (d : DataTransport) : DataTransport := d <| d_out_ ::= fun l => l ++ o |>.

Definition Init (i : DataAns) (d : DataTransport) : DataTransport :=
  if d.(running_) then d else
  put ((if d.(relay_path_) >=? 0 then [OutRelay (d.(relay_path_) =? 1)] else [])
       ++ [OutProbing (negb (String.eqb d.(padding_stream_) ""))])
    (d <| running_ := true |> <| last_stats_ms_ := i.(d_now) |>).

Definition Destroy (d : DataTransport) : DataTransport :=
  if negb d.(running_) then d else
  put (OutPacerShutdown :: omap (fun kv => if kv.2.(kcp) : bool then Some (OutKcpRelease kv.1) else None) d.(streams_))
    (d <| running_ := false |> <| streams_ ::= fmap (fun kv => (kv.1, kv.2 <| kcp := false |>)) |>).

Definition SetSendFunc (d : DataTransport) : DataTransport := d <| has_send_ := true |>.

(** *** Descriptions *)

Definition LocalStreamSdpLines (d : DataTransport) : bytes :=
  text ((fun kv => stream_line (sbytes kv.1) kv.2.(local_ssrc) kv.2.(config).(reliable)) <$> d.(streams_)).

(** The loop of [ParseRemoteStreams]: the result, how many lines matched, and the state. *)
Fixpoint parse_streams (ls : list bytes) (matched : Z) (d : DataTransport) : bool * Z * DataTransport :=
  match ls with
  | [] => (true, matched, d)
  | l :: ls =>
      let line := chomp l in
      if negb (starts_with stream_prefix line) then parse_streams ls matched d else
      match parse_stream_line line with
      | None => (false, matched, d)
      | Some (nm, ssrc, rel) =>
          let nm := of_sbytes nm in
          match sm_find nm d.(streams_) with
          | None => parse_streams ls matched d
          | Some s =>
              if negb (Bool.eqb (negb (rel =? 0)) s.(config).(reliable)) then (false, matched, d) else
              parse_streams ls (matched + 1)
                (d <| streams_ ::= sm_set nm (s <| remote_ssrc := ssrc |>) |> <| by_remote_ssrc_ ::= zm_set ssrc nm |>)
          end
      end
  end.

Definition ParseRemoteStreams (sdp : bytes) (d : DataTransport) : bool * DataTransport :=
  let d := d <| by_remote_ssrc_ := [] |> in
  let '(ok, matched, d) := parse_streams (lines sdp) 0 d in
  if negb ok then (false, d) else
  if negb (matched =? zlen d.(streams_)) then (false, d) else (true, d).

(** *** Keys and readiness *)

Definition SetSrtpKeys (lk ls rk rs : bytes) (i : DataAns) (d : DataTransport) : bool * DataTransport :=
  if negb (zlen lk =? 16) || negb (zlen ls =? 12) || negb (zlen rk =? 16) || negb (zlen rs =? 12) then (false, d) else
  if negb i.(d_srtp_valid) then (false, d) else
  (true, d <| srtp_out_ := Some (mkParams lk ls) |> <| srtp_in_ := Some (mkParams rk rs) |> <| srtp_ready_ := true |>).

Definition SetTransportReady (ready : bool) (d : DataTransport) : DataTransport :=
  let was := d.(transport_ready_) in
  let d := d <| transport_ready_ := ready |> in
  if negb d.(running_) then d else
  put (OutPacerReady ready was :: (if Bool.eqb ready was then [] else [OutAvailable ready])) d.

Definition SetRelayPath (relay : bool) (d : DataTransport) : DataTransport :=
  let d := d <| relay_path_ := if relay then 1 else 0 |> in
  if negb d.(running_) then d else put [OutRelay relay] d.

(** *** The send path *)

Definition EnqueueRtp (k : string) (payload : bytes) (i : DataAns) (d : DataTransport) : DataTransport :=
  match sm_find k d.(streams_) with
  | None => d
  | Some s =>
      let '(frames, p) := Build s.(packetizer) payload (u32 i.(d_now)) in
      let d := d <| streams_ ::= sm_set k (s <| packetizer := p |>) |> in
      match frames with [] => d | _ => put [OutPace frames k] d end
  end.

(** [KcpOutput], for the segments KCP emits during a call. *)
Definition kcp_output (k : string) (i : DataAns) (d : DataTransport) : DataTransport :=
  fold_left (fun d seg => match seg with [] => d | _ => EnqueueRtp k seg i d end) i.(d_kcp_output) d.

Definition InitKcp (k : string) (i : DataAns) (d : DataTransport) : DataTransport :=
  match sm_find k d.(streams_) with
  | Some s =>
      if s.(kcp) || negb i.(d_kcp_created) then d else
      put [OutKcpCreate k s.(config).(kcp_window)] (d <| streams_ ::= sm_set k (s <| kcp := true |>) |>)
  | None => d
  end.

Definition has_kcp (k : string) (d : DataTransport) : bool :=
  match sm_find k d.(streams_) with Some s => s.(kcp) | None => false end.

Definition Send (stream : string) (data : option bytes) (size : Z) (i : DataAns) (d : DataTransport) : Z * DataTransport :=
  match data with
  | None => (-1, d)
  | Some data =>
      if negb d.(running_) || (size =? 0) then (-1, d) else
      if negb d.(transport_ready_) then (-1, d) else
      match sm_find stream d.(streams_) with
      | None => (-1, d)
      | Some s =>
          if s.(config).(reliable) then
            let d := InitKcp stream i d in
            if negb (has_kcp stream d) then (-1, d) else
            if i.(d_kcp_full) then (1, d) else
            if negb i.(d_kcp_ok) then (-1, d) else
            (0, kcp_output stream i (put [OutKcpSend stream data] d))
          else
            if size >? kMaxDatagramPayload then (-1, d) else
            if i.(d_queue_ms) >? kMaxPacerQueueMs then (1, d) else
            (0, EnqueueRtp stream data i d)
      end
  end.

Section srtp.
Context `{SL : SrtpLib}.

Definition SendDatagram (data : bytes) (i : DataAns) (d : DataTransport) : Z * DataTransport :=
  if negb d.(has_send_) then (-1, d) else (i.(d_sent), put [OutSend data] d).

(** [OnPacedPacket] on the bytes of a packet the pacer releases. *)
Definition OnPacedPacket (packet : bytes) (i : DataAns) (d : DataTransport) : DataTransport :=
  if negb d.(running_) then d else
  let sealed := if d.(enable_srtp_) then p ← d.(srtp_out_); srtp_protect p i.(d_srtp) packet else Some packet in
  match sealed with
  | None => d
  | Some buf =>
      let '(rc, d) := SendDatagram buf i d in
      if rc <? 0 then d else
      d <| sent_packets_ ::= fun n => u64 (n + 1) |> <| sent_bytes_ ::= fun n => u64 (n + zlen buf) |>
  end.

(** One padding packet of [GeneratePadding]. *)
Definition padding_frame (pad ts ssrc : Z) : bytes :=
  [Z.lor (Z.shiftl 2 6) (Z.shiftl 1 5); u8 PAYLOAD_DATA; 0; 0] ++ Put32 ts ++ Put32 ssrc
  ++ replicate (Z.to_nat (pad - 1)) 0 ++ [u8 pad].

Fixpoint padding_loop (fuel : nat) (remaining ts ssrc : Z) : list bytes :=
  match fuel with
  | O => []
  | S fuel =>
      if negb (remaining >? 0) then [] else
      let pad := Z.min remaining 255 in
      padding_frame pad ts ssrc :: padding_loop fuel (remaining - pad) ts ssrc
  end.

(** At most 16 packets. *)
Definition GeneratePadding (n : Z) (i : DataAns) (d : DataTransport) : DataTransport :=
  match sm_find d.(padding_stream_) d.(streams_) with
  | None => d
  | Some s => put [OutPadding (padding_loop 16 n (u32 i.(d_now)) s.(local_ssrc))] d
  end.

(** The packets [SendRtcp] flushes: a compound packet the feedback generator built. *)
Definition SendRtcp (data : bytes) (i : DataAns) (d : DataTransport) : DataTransport :=
  if zlen data =? 0 then d else
  let sealed := if d.(enable_srtp_) then p ← d.(srtp_out_); srtp_protect_rtcp p i.(d_srtp) data else Some data in
  match sealed with None => d | Some buf => (SendDatagram buf i d).2 end.

(** *** The receive path *)

(** The walk over a compound packet: the feedback packets in it. *)
Fixpoint rtcp_walk (fuel : nat) (next : bytes) : result (list bytes) :=
  match fuel with
  | O => Ok []
  | S fuel =>
      if negb (zlen next >? 0) then Ok [] else
      match RtcpParse next with
      | Raise => Raise
      | Fail _ => Ok []
      | Ok h =>
          let block := packet_size h in
          if (block =? 0) || (block >? zlen next) then Ok [] else
          fs ← rtcp_walk fuel (NextPacket h);
          Ok (if (h.(packet_type_) =? 205) && (h.(count_or_format_) =? 11) then ztake block next :: fs else fs)
      end
  end.

Definition HandleRtcp (data : bytes) (i : DataAns) (d : DataTransport) : DataTransport :=
  let opened := if d.(enable_srtp_) then p ← d.(srtp_in_); srtp_unprotect_rtcp p i.(d_srtp) data else Some data in
  match opened with
  | None => d
  | Some buf => match rtcp_walk (S (length buf)) buf with Ok fs => put (OutFeedback <$> fs) d | _ => d end
  end.

(** [DrainKcp]: the messages KCP completed. *)
Definition DrainKcp (k : string) (i : DataAns) (d : DataTransport) : DataTransport :=
  if negb (has_kcp k d) then d else put ((fun m => OutMessage m k) <$> i.(d_kcp_recv)) d.

Definition HandleRtp (data : bytes) (i : DataAns) (d : DataTransport) : DataTransport :=
  let opened := if d.(enable_srtp_) then p ← d.(srtp_in_); srtp_unprotect p i.(d_srtp) data else Some data in
  match opened with
  | None => d
  | Some buf =>
      match Parse buf with
      | Ok packet =>
          let d := d <| recv_packets_ ::= fun n => u64 (n + 1) |> <| recv_bytes_ ::= fun n => u64 (n + zlen data) |> in
          match k ← zm_find packet.(ssrc_) d.(by_remote_ssrc_); s ← sm_find k d.(streams_); Some (k, s) with
          | None => d
          | Some (k, s) =>
              let d := put [OutReceived packet.(ssrc_) packet.(sequence_number_)] d in
              if packet.(payload_size_) =? 0 then d else
              if s.(config).(reliable) then
                let d := InitKcp k i d in
                if negb (has_kcp k d) then d else
                let d := put [OutKcpInput k (Payload packet)] d in
                if negb i.(d_kcp_ok) then d else
                DrainKcp k i (kcp_output k i d)
              else put [OutData (Payload packet) k] d
          end
      | _ => d
      end
  end.

Definition OnDatagram (data : bytes) (i : DataAns) (d : DataTransport) : DataTransport :=
  if negb d.(running_) then d else
  if LooksLikeRtcp data then HandleRtcp data i d
  else if LooksLikeRtp data then HandleRtp data i d
  else d.

(** One tick: KCP is updated and drained, and the controller asked every other tick. *)
Definition Process (ticks : list (string * DataAns)) (d : DataTransport) : DataTransport :=
  if negb d.(running_) then d else
  let d := fold_left (fun d ki => if has_kcp ki.1 d then DrainKcp ki.1 ki.2 (kcp_output ki.1 ki.2 d) else d) ticks d in
  let d := d <| tick_ ::= fun n => i32 (n + 1) |> in
  if Z.rem d.(tick_) kProcessIntervalTicks =? 0 then put [OutInterval] d else d.

End srtp.

(** *** Estimates *)

Definition Estimate_path (d : DataTransport) : Peer.MiniRtcPath :=
  if d.(relay_path_) <? 0 then Peer.MINIRTC_PATH_UNKNOWN
  else if d.(relay_path_) =? 1 then Peer.MINIRTC_PATH_TURN else Peer.MINIRTC_PATH_P2P.

Record NetStats := mkNetStats {
  send_bitrate_bps : Z; recv_bitrate_bps : Z; st_sent_packets : Z; st_recv_packets : Z; st_sent_bytes : Z; st_recv_bytes : Z;
  st_path : Peer.MiniRtcPath; srtp_active : bool;
}.

Definition TakeStats (i : DataAns) (d : DataTransport) : NetStats * DataTransport :=
  let now := i.(d_now) in
  let dt := Z.max 1 (now - d.(last_stats_ms_)) in
  let rate n last := u32 (Z.quot (u64 (u64 (n - last) * 8000)) dt) in
  (mkNetStats (rate d.(sent_bytes_) d.(last_sent_bytes_)) (rate d.(recv_bytes_) d.(last_recv_bytes_))
     d.(sent_packets_) d.(recv_packets_) d.(sent_bytes_) d.(recv_bytes_) (Estimate_path d) d.(srtp_ready_),
   d <| last_sent_bytes_ := d.(sent_bytes_) |> <| last_recv_bytes_ := d.(recv_bytes_) |> <| last_stats_ms_ := now |>).

(** ** What a call adds to the outputs *)

(** [d'] comes from [d] by a call that leaves the keys alone and whose outputs satisfy [P]. *)
Definition adds (P : DataOut -> Prop) (d d' : DataTransport) : Prop :=
  d'.(enable_srtp_) = d.(enable_srtp_) /\ d'.(srtp_out_) = d.(srtp_out_) /\ d'.(srtp_in_) = d.(srtp_in_) /\
  exists o, d'.(d_out_) = d.(d_out_) ++ o /\ Forall P o.

#[export] Instance adds_preorder P : PreOrder (adds P).
Proof.
  split.
  - intros d. repeat split. exists []. by rewrite app_nil_r.
  - intros d1 d2 d3 (? & ? & ? & o & Ho & Hf) (? & ? & ? & o' & Ho' & Hf'). repeat split; try congruence.
    exists (o ++ o'). rewrite Ho', Ho, app_assoc. split; [done|by apply Forall_app].
Qed.

Lemma adds_put P o d : Forall P o -> adds P d (put o d).
Proof. intros Ho. repeat split. by exists o. Qed.

Lemma adds_quiet P d d' :
  d'.(enable_srtp_) = d.(enable_srtp_) -> d'.(srtp_out_) = d.(srtp_out_) -> d'.(srtp_in_) = d.(srtp_in_) ->
  d'.(d_out_) = d.(d_out_) -> adds P d d'.
Proof. intros. repeat split; try done. exists []. by rewrite app_nil_r. Qed.

Lemma adds_fold P {A} (f : DataTransport -> A -> DataTransport) l d :
  (forall d a, adds P d (f d a)) -> adds P d (fold_left f l d).
Proof.
  intros Hf. revert d. induction l as [|a l IH]; intros d; [done|]. cbn. etransitivity; [apply Hf|apply IH].
Qed.

Create HintDb adds.
#[export] Hint Extern 4 (Forall _ []) => apply Forall_nil_2 : adds.
#[export] Hint Extern 4 (Forall _ (_ :: _)) => apply Forall_cons_2 : adds.
#[export] Hint Extern 4 (Forall _ (_ ++ _)) => apply Forall_app_2 : adds.

(** Follows the tests of a method down to its outputs. *)
Ltac adds_step :=
  match goal with
  | |- adds _ ?d ?d => reflexivity
  | |- adds _ _ (if ?b then _ else _) => destruct b
  | |- adds _ _ (match ?x with _ => _ end) => destruct x eqn:?
  | |- adds _ _ (put _ ?d') => transitivity d'; [|apply adds_put; auto with adds]
  | |- adds _ _ _ => by apply adds_quiet
  end.

Section adds.
Context (P : DataOut -> Prop).

Lemma adds_EnqueueRtp k p i d : (forall fs, P (OutPace fs k)) -> adds P d (EnqueueRtp k p i d).
Proof. intros HP. unfold EnqueueRtp. repeat adds_step. Qed.

Lemma adds_kcp_output k i d : (forall fs, P (OutPace fs k)) -> adds P d (kcp_output k i d).
Proof. intros HP. unfold kcp_output. apply adds_fold. intros d' [|c s]; [done|by apply adds_EnqueueRtp]. Qed.

Lemma adds_InitKcp k i d : (forall w, P (OutKcpCreate k w)) -> adds P d (InitKcp k i d).
Proof. intros HP. unfold InitKcp. repeat adds_step. Qed.

Lemma adds_DrainKcp k i d : (forall m, P (OutMessage m k)) -> adds P d (DrainKcp k i d).
Proof.
  intros HP. unfold DrainKcp. adds_step; [done|]. adds_step; [done|]. apply Forall_fmap, Forall_true. done.
Qed.

Lemma adds_parse_streams ls n d : adds P d (parse_streams ls n d).2.
Proof.
  revert n d. induction ls as [|l ls IH]; intros n d; [done|]. cbn [parse_streams].
  destruct (negb _); [apply IH|]. destruct (parse_stream_line _) as [[[nm ssrc] rel]|]; [|done].
  destruct (sm_find _ _); [|apply IH]. destruct (negb _); [done|]. etransitivity; [|apply IH]. by apply adds_quiet.
Qed.

Lemma adds_ParseRemoteStreams sdp d : adds P d (ParseRemoteStreams sdp d).2.
Proof.
  unfold ParseRemoteStreams. pose proof (adds_parse_streams (lines sdp) 0 (d <| by_remote_ssrc_ := [] |>)) as H.
  destruct (parse_streams _ _ _) as [[ok n] d']. cbn in H.
  assert (Hd : adds P d d') by (etransitivity; [|exact H]; by apply adds_quiet).
  destruct (negb ok); [done|]. by destruct (negb _).
Qed.
End adds.

(** ** Nothing in the clear *)

Section protected.
Context `{SL : SrtpLib}.

(** The calls of the owner, of the pacer and of the network, each with what the libraries answer. *)
Inductive DataOp :=
| OpInit | OpDestroy | OpSetSend
| OpRemote (sdp : bytes)
| OpKeys (lk ls rk rs : bytes)
| OpReady (ready : bool)
| OpRelay (relay : bool)
| OpSend (stream : string) (data : option bytes) (size : Z)
| OpPaced (packet : bytes)
| OpPadding (n : Z)
| OpRtcp (data : bytes)
| OpDatagram (data : bytes)
| OpTick (ticks : list (string * DataAns))
| OpStats.

Definition data_step (d : DataTransport) (x : DataAns * DataOp) : DataTransport :=
  let '(i, op) := x in
  match op with
  | OpInit => Init i d
  | OpDestroy => Destroy d
  | OpSetSend => SetSendFunc d
  | OpRemote sdp => (ParseRemoteStreams sdp d).2
  | OpKeys lk ls rk rs => (SetSrtpKeys lk ls rk rs i d).2
  | OpReady b => SetTransportReady b d
  | OpRelay b => SetRelayPath b d
  | OpSend k data n => (Send k data n i d).2
  | OpPaced p => OnPacedPacket p i d
  | OpPadding n => GeneratePadding n i d
  | OpRtcp data => SendRtcp data i d
  | OpDatagram data => OnDatagram data i d
  | OpTick ticks => Process ticks d
  | OpStats => (TakeStats i d).2
  end.

(** The keys the owner installs in a run. *)
Definition sends_with (ops : list (DataAns * DataOp)) (p : SrtpParams) : Prop :=
  exists i rk rs, (i, OpKeys p.(srtp_key) p.(srtp_salt) rk rs) ∈ ops.
Definition receives_with (ops : list (DataAns * DataOp)) (p : SrtpParams) : Prop :=
  exists i lk ls, (i, OpKeys lk ls p.(srtp_key) p.(srtp_salt)) ∈ ops.

(** A datagram sent was sealed under keys for sending; a payload delivered or given to KCP, and a feedback
    packet, come from a datagram opened under keys for receiving.  What KCP makes of its payloads is its own. *)
Definition from_packet (K : SrtpParams -> Prop) (x : bytes) : Prop :=
  exists p z datagram buf packet, K p /\ srtp_unprotect p z datagram = Some buf /\ Parse buf = Ok packet /\ Payload packet = x.
Definition from_feedback (K : SrtpParams -> Prop) (x : bytes) : Prop :=
  exists p z datagram buf fs, K p /\ srtp_unprotect_rtcp p z datagram = Some buf /\
    rtcp_walk (S (length buf)) buf = Ok fs /\ x ∈ fs.
Definition sealed (Kout Kin : SrtpParams -> Prop) (o : DataOut) : Prop :=
  match o with
  | OutSend x => exists p z pkt, Kout p /\ (srtp_protect p z pkt = Some x \/ srtp_protect_rtcp p z pkt = Some x)
  | OutData x _ | OutKcpInput _ x => from_packet Kin x
  | OutFeedback x => from_feedback Kin x
  | _ => True
  end.

Section step.
Context (Kout Kin : SrtpParams -> Prop).
Notation sealed := (sealed Kout Kin).

Record guarded (d : DataTransport) : Prop := {
  g_enabled : d.(enable_srtp_) = true;
  g_out : forall p, d.(srtp_out_) = Some p -> Kout p;
  g_in : forall p, d.(srtp_in_) = Some p -> Kin p;
  g_sealed : Forall sealed d.(d_out_);
}.

Lemma guarded_adds d d' : guarded d -> adds sealed d d' -> guarded d'.
Proof.
  intros [He Ho Hi Hs] (Ee & Eo & Ei & o & Hd & Hf). split; rewrite ?Ee, ?Eo, ?Ei; try done.
  rewrite Hd. by apply Forall_app.
Qed.

Lemma sealed_SendDatagram x i d :
  (exists p z pkt, Kout p /\ (srtp_protect p z pkt = Some x \/ srtp_protect_rtcp p z pkt = Some x)) ->
  adds sealed d (SendDatagram x i d).2.
Proof. intros Hx. unfold SendDatagram. destruct (negb _); cbn; [done|]. apply adds_put. by repeat constructor. Qed.

Lemma sealed_OnPacedPacket p i d : guarded d -> adds sealed d (OnPacedPacket p i d).
Proof.
  intros Hg. unfold OnPacedPacket. rewrite (g_enabled d Hg). adds_step; [done|].
  destruct (srtp_out_ d) as [k|] eqn:Ek; [|done]. cbn [mbind option_bind].
  destruct (srtp_protect k _ p) as [buf|] eqn:Es; [|done].
  pose proof (sealed_SendDatagram buf i d) as Hsend. destruct (SendDatagram buf i d) as [rc d']. cbn in Hsend.
  assert (H : adds sealed d d') by (apply Hsend; exists k, i.(d_srtp), p; split; [by apply (g_out d Hg)|by left]).
  adds_step; [done|]. etransitivity; [exact H|]. by apply adds_quiet.
Qed.

Lemma sealed_SendRtcp x i d : guarded d -> adds sealed d (SendRtcp x i d).
Proof.
  intros Hg. unfold SendRtcp. rewrite (g_enabled d Hg). adds_step; [done|].
  destruct (srtp_out_ d) as [k|] eqn:Ek; [|done]. cbn [mbind option_bind].
  destruct (srtp_protect_rtcp k _ x) as [buf|] eqn:Es; [|done]. apply sealed_SendDatagram.
  exists k, i.(d_srtp), x. split; [by apply (g_out d Hg)|by right].
Qed.

Lemma sealed_HandleRtcp x i d : guarded d -> adds sealed d (HandleRtcp x i d).
Proof.
  intros Hg. unfold HandleRtcp. rewrite (g_enabled d Hg).
  destruct (srtp_in_ d) as [k|] eqn:Ek; [|done]. cbn [mbind option_bind].
  destruct (srtp_unprotect_rtcp k _ x) as [buf|] eqn:Es; [|done].
  destruct (rtcp_walk _ buf) as [fs| |] eqn:Ew; [|done|done]. apply adds_put, Forall_fmap, Forall_forall.
  intros f Hf. exists k, i.(d_srtp), x, buf, fs. split; [by apply (g_in d Hg)|done].
Qed.

Lemma sealed_HandleRtp x i d : guarded d -> adds sealed d (HandleRtp x i d).
Proof.
  intros Hg. unfold HandleRtp. rewrite (g_enabled d Hg).
  destruct (srtp_in_ d) as [k|] eqn:Ek; [|done]. cbn [mbind option_bind].
  destruct (srtp_unprotect k _ x) as [buf|] eqn:Es; [|done].
  destruct (Parse buf) as [packet| |] eqn:Ep; [|done|done].
  assert (Hp : from_packet Kin (Payload packet)).
  { exists k, i.(d_srtp), x, buf, packet. split; [by apply (g_in d Hg)|done]. }
  cbv zeta. set (d1 := d <| recv_packets_ ::= _ |> <| recv_bytes_ ::= _ |>).
  assert (H1 : adds sealed d d1) by (by apply adds_quiet).
  destruct (_ ≫= _) as [[nm s]|]; [|done].
  assert (H2 : adds sealed d (put [OutReceived (ssrc_ packet) (sequence_number_ packet)] d1)).
  { etransitivity; [exact H1|]. apply adds_put. by repeat constructor. }
  adds_step; [done|]. adds_step.
  - adds_step; [etransitivity; [exact H2|by apply adds_InitKcp]|].
    assert (H3 : adds sealed d (put [OutKcpInput nm (Payload packet)]
      (InitKcp nm i (put [OutReceived (ssrc_ packet) (sequence_number_ packet)] d1)))).
    { etransitivity; [exact H2|]. etransitivity; [by apply adds_InitKcp|]. apply adds_put. by repeat constructor. }
    adds_step; [done|]. etransitivity; [exact H3|]. etransitivity; [by apply adds_kcp_output|]. by apply adds_DrainKcp.
  - etransitivity; [exact H2|]. apply adds_put. by repeat constructor.
Qed.

Lemma sealed_Send k data n i d : adds sealed d (Send k data n i d).2.
Proof.
  unfold Send. destruct data as [data|]; [|done]. destruct (_ || _); [done|]. destruct (negb _); [done|].
  destruct (sm_find k _) as [s|]; [|done]. destruct (reliable _).
  - assert (H1 : adds sealed d (InitKcp k i d)) by (by apply adds_InitKcp).
    destruct (negb _); [done|]. destruct (d_kcp_full i); [done|]. destruct (negb _); [done|]. cbn [snd].
    etransitivity; [exact H1|]. etransitivity; [|by apply adds_kcp_output]. apply adds_put. by repeat constructor.
  - destruct (_ >? _); [done|]. destruct (_ >? _); [done|]. by apply adds_EnqueueRtp.
Qed.

Lemma sealed_Process ticks d : adds sealed d (Process ticks d).
Proof.
  unfold Process. adds_step; [done|]. cbv zeta.
  match goal with |- adds _ _ (if Z.rem (tick_ (?x <| tick_ ::= _ |>)) _ =? 0 then _ else _) =>
    assert (H : adds sealed d x) end.
  { apply adds_fold. intros d' ki. adds_step; [|done]. etransitivity; [by apply adds_kcp_output|]. by apply adds_DrainKcp. }
  adds_step; (etransitivity; [exact H|]); [|by apply adds_quiet].
  etransitivity; [|by apply adds_put, Forall_cons_2]. by apply adds_quiet.
Qed.

Lemma sealed_OnDatagram x i d : guarded d -> adds sealed d (OnDatagram x i d).
Proof.
  intros Hg. unfold OnDatagram. adds_step; [done|]. adds_step; [by apply sealed_HandleRtcp|].
  adds_step; [by apply sealed_HandleRtp|done].
Qed.

Lemma sealed_control i d :
  adds sealed d (Init i d) /\ adds sealed d (Destroy d) /\ (forall b, adds sealed d (SetTransportReady b d)) /\
  (forall b, adds sealed d (SetRelayPath b d)) /\ (forall n, adds sealed d (GeneratePadding n i d)).
Proof.
  assert (Hput : forall o d', Forall sealed o -> adds sealed d d' -> adds sealed d (put o d')).
  { intros o d' Ho Hd. etransitivity; [exact Hd|by apply adds_put]. }
  unfold Init, Destroy, SetTransportReady, SetRelayPath, GeneratePadding. split_and!; intros.
  - adds_step; [done|]. apply Hput; [|by apply adds_quiet]. apply Forall_app_2; [by destruct (_ >=? _); repeat constructor|by repeat constructor].
  - adds_step; [done|]. apply Hput; [|by apply adds_quiet]. apply Forall_cons_2; [done|]. apply Forall_forall. intros o Ho.
    apply list_elem_of_omap in Ho as (kv & _ & Ho). destruct (kcp kv.2); [|done]. by injection Ho as <-.
  - cbv zeta. adds_step; [by apply adds_quiet|]. apply Hput; [|by apply adds_quiet].
    apply Forall_cons_2; [done|]. by destruct (Bool.eqb _ _); repeat constructor.
  - cbv zeta. adds_step; [by apply adds_quiet|]. apply Hput; [by repeat constructor|by apply adds_quiet].
  - adds_step; [|done]. apply Hput; [by repeat constructor|done].
Qed.

Lemma guarded_keys lk ls rk rs i d :
  Kout (mkParams lk ls) -> Kin (mkParams rk rs) -> guarded d -> guarded (SetSrtpKeys lk ls rk rs i d).2.
Proof.
  intros Ho Hi Hg. unfold SetSrtpKeys. destruct (_ || _); [done|]. destruct (negb _); [done|]. cbn.
  destruct Hg. split; cbn; try done; by intros p [= <-].
Qed.

Lemma guarded_step d x :
  (match x.2 with OpKeys lk ls rk rs => Kout (mkParams lk ls) /\ Kin (mkParams rk rs) | _ => True end) ->
  guarded d -> guarded (data_step d x).
Proof.
  intros Hk Hg. destruct x as [i op]. destruct (sealed_control i d) as (? & ? & ? & ? & ?).
  destruct op; cbn [data_step snd] in *; try (destruct Hk; by apply guarded_keys).
  all: eapply guarded_adds; [exact Hg|].
  all: auto using sealed_Send, sealed_OnPacedPacket, sealed_SendRtcp, sealed_OnDatagram, sealed_Process, adds_ParseRemoteStreams.
  all: by apply adds_quiet.
Qed.
End step.

(** C24: With SRTP on, whatever the owner, the pacer, the network and the libraries do: every datagram handed
    to the send function was sealed under keys the owner installed for sending; every payload delivered or
    given to KCP, and every feedback packet, was opened under keys installed for receiving.  Before the
    keys are there, nothing passes. *)
Theorem data_path_protected streams ssrcs ops :
  let d := run_events data_step (DataTransport_new streams ssrcs true) ops in
  Forall (sealed (sends_with ops) (receives_with ops)) d.(d_out_) /\
  (~ (exists p, sends_with ops p) -> forall x, OutSend x ∉ d.(d_out_)).
Proof.
  intros d. assert (Hg : guarded (sends_with ops) (receives_with ops) d).
  { subst d. set (d0 := DataTransport_new streams ssrcs true).
    assert (H0 : guarded (sends_with ops) (receives_with ops) d0).
    { assert (Hb : adds (fun _ => False) (mkData true false [] [] "" None None false false false (-1) 0 0 0 0 0 0 0 0 []) d0)
        by (apply adds_fold; intros d' [cfg ssrc]; by apply adds_quiet).
      destruct Hb as (He & Ho & Hi & o & Hd & Hf). cbn in *. split; rewrite ?He, ?Ho, ?Hi; try done.
      rewrite Hd. eapply Forall_impl; [exact Hf|]. done. }
    assert (Hops : forall x, x ∈ ops -> match x.2 with OpKeys lk ls rk rs =>
      sends_with ops (mkParams lk ls) /\ receives_with ops (mkParams rk rs) | _ => True end).
    { intros [i op] Hx. destruct op; try done. split; by eexists _, _, _. }
    revert H0 Hops. generalize (sends_with ops) (receives_with ops) d0. clear.
    induction ops as [|x ops IH]; intros Ko Ki d H0 Hops; cbn [run_events]; [done|].
    apply IH; [|intros y Hy; apply Hops; by right]. apply guarded_step; [apply Hops; by left|done]. }
  split; [apply (g_sealed _ _ _ Hg)|]. intros Hno x Hx. apply Hno.
  pose proof (g_sealed _ _ _ Hg) as Hs. rewrite Forall_forall in Hs. destruct (Hs _ Hx) as (p & _ & _ & Hp & _). eauto.
Qed.

End protected.

(** ** Hostile input *)

(** The walk over a compound packet stays inside it, and its fuel is enough. *)
Lemma rtcp_walk_within fuel b : is_bytes b -> within (rtcp_walk fuel b) (Forall (fun f => zlen f <= zlen b)).
Proof.
  revert b. induction fuel as [|fuel IH]; intros b Hb; cbn [rtcp_walk]; [by apply Forall_nil_2|].
  destruct (negb _); [by apply Forall_nil_2|]. pose proof (RtcpParse_within b Hb) as Hp. unfold within in Hp.
  destruct (RtcpParse b) as [h| |]; [|by apply Forall_nil_2|done]. destruct Hp as (Hs & _ & _ & Hn). cbv zeta.
  destruct (_ || _); [by apply Forall_nil_2|]. rewrite Hn.
  eapply within_bind; [apply IH; auto with ct|]. cbv beta. intros fs Hfs.
  assert (Hf : Forall (fun f => zlen f <= zlen b) fs).
  { eapply Forall_impl; [exact Hfs|]. cbv beta. intros f. zlen_simpl. unfold kHeaderSizeBytes in Hs. lia. }
  cbn [within]. destruct (_ && _); [|done]. apply Forall_cons_2; [zlen_simpl; lia|done].
Qed.

Lemma rtcp_walk_fuel fuel b : is_bytes b -> (length b < fuel)%nat -> rtcp_walk (S fuel) b = rtcp_walk fuel b.
Proof.
  revert b. induction fuel as [|fuel IH]; intros b Hb Hl; [lia|]. remember (S fuel) as n. rewrite Heqn at 2.
  cbn [rtcp_walk]. subst n. destruct (negb _) eqn:E; [done|]. zbool.
  pose proof (RtcpParse_within b Hb) as Hp. unfold within in Hp.
  destruct (RtcpParse b) as [h| |]; [|done|done]. destruct Hp as (Hs & _ & _ & Hn). cbv zeta.
  destruct (_ || _); [done|]. rewrite Hn, IH; [done|auto with ct|].
  unfold zdrop, kHeaderSizeBytes, zlen in *. rewrite length_drop. lia.
Qed.

(** A padding packet is accepted by the peer's parser and carries no payload. *)
Lemma padding_carries_nothing pad ts ssrc :
  1 <= pad <= 255 -> in_u32 ts -> in_u32 ssrc ->
  exists q, Parse (padding_frame pad ts ssrc) = Ok q /\ q.(payload_size_) = 0 /\ q.(padding_size_) = pad /\ q.(ssrc_) = ssrc.
Proof.
  intros Hp Ht Hs. set (f := padding_frame pad ts ssrc).
  assert (Hf : f = [160; 120] ++ Put16 0 ++ Put32 ts ++ Put32 ssrc ++ replicate (Z.to_nat (pad - 1)) 0 ++ [u8 pad]) by done.
  pose proof (Parse_header 160 120 0 ts ssrc (replicate (Z.to_nat (pad - 1)) 0 ++ [u8 pad]) eq_refl eq_refl) as HP.
  specialize (HP ltac:(unfold in_u16; lia) Ht Hs). cbv zeta in HP. rewrite <- Hf in HP. rewrite HP.
  change (bit 160 4) with false. change (bit 160 5) with true. cbn [mbind result_bind].
  assert (Hl : zlen f = 12 + pad).
  { rewrite Hf. zlen_simpl. change (zlen (Put16 0)) with 2. change (zlen (Put32 ts)) with 4. change (zlen (Put32 ssrc)) with 4. lia. }
  assert (Hlast : znth f (zlen f - 1) = pad).
  { unfold znth. rewrite Hl, Hf, !app_assoc. rewrite app_nth2; rewrite !length_app; cbn; rewrite length_replicate; [|lia].
    replace (_ - _)%nat with 0%nat by lia. cbn. apply u8_small. unfold in_u8. lia. }
  unfold parse_padding. rewrite (proj2 (Z.ltb_lt 12 (zlen f))) by lia. cbn [andb]. rewrite rd_eq by lia.
  cbn [mbind result_bind]. rewrite Hlast, (proj2 (Z.eqb_neq pad 0)) by lia. cbn [mbind result_bind].
  rewrite gtb_false by lia. eexists. split; [done|]. split_and!; [|done|done]. cbn [payload_size_]. lia.
Qed.

(** ** Descriptions *)

(** The streams two ends agree on: the same names with the same reliability. *)
Definition same_streams (d d' : DataTransport) : Prop :=
  d'.(streams_).*1 = d.(streams_).*1 /\
  forall k s s', sm_find k d.(streams_) = Some s -> sm_find k d'.(streams_) = Some s' ->
    s'.(config).(reliable) = s.(config).(reliable).

Definition wf_streams (d : DataTransport) : Prop :=
  sm_sorted d.(streams_) /\ NoDup d.(streams_).*1 /\
  Forall (fun kv => is_word (sbytes kv.1) /\ 0 < kv.2.(local_ssrc) < 2 ^ 32) d.(streams_).

Lemma sm_find_some_of {V} k v (m : list (string * V)) : NoDup m.*1 -> (k, v) ∈ m -> sm_find k m = Some v.
Proof.
  unfold sm_find. induction m as [|[k' v'] m IH]; cbn; intros Hn Hin; [by apply elem_of_nil in Hin|].
  apply NoDup_cons in Hn as [Hk Hn]. apply elem_of_cons in Hin as [[= -> ->]|Hin]; [by rewrite String.eqb_refl|].
  destruct (String.eqb_spec k k') as [->|]; [|by apply IH]. exfalso. apply Hk, list_elem_of_fmap. by exists (k', v).
Qed.

Lemma sm_find_is_some {V W} k (m : list (string * V)) (m' : list (string * W)) :
  m.*1 = m'.*1 -> is_Some (sm_find k m) -> is_Some (sm_find k m').
Proof.
  unfold sm_find. revert m'. induction m as [|[k1 v1] m IH]; intros [|[k2 v2] m']; cbn; intros H [v Hv]; try done.
  injection H as -> H. destruct (String.eqb k k2); [by eexists|]. apply IH; [done|by eexists].
Qed.

Lemma parse_streams_other ls ls' n d :
  Forall (fun l => starts_with stream_prefix (chomp l) = false) ls -> parse_streams (ls ++ ls') n d = parse_streams ls' n d.
Proof. induction 1 as [|l ls Hl _ IH]; [done|]. cbn [app parse_streams]. by rewrite Hl. Qed.

(** The lines of the streams of [m], as a receiver with the same streams reads them. *)
Lemma parse_streams_lines (m : list (string * Stream)) n d :
  sm_sorted d.(streams_) -> NoDup m.*1 ->
  Forall (fun kv => is_word (sbytes kv.1) /\ 0 < kv.2.(local_ssrc) < 2 ^ 32 /\
    exists s, sm_find kv.1 d.(streams_) = Some s /\ kv.2.(config).(reliable) = s.(config).(reliable)) m ->
  exists d', parse_streams ((fun kv => stream_line (sbytes kv.1) kv.2.(local_ssrc) kv.2.(config).(reliable) ++ [13]) <$> m) n d
      = (true, n + zlen m, d') /\
    d'.(streams_).*1 = d.(streams_).*1 /\
    (forall k s, (k, s) ∈ m -> exists s', sm_find k d'.(streams_) = Some s' /\ s'.(remote_ssrc) = s.(local_ssrc)) /\
    (forall k, k ∉ m.*1 -> sm_find k d'.(streams_) = sm_find k d.(streams_)).
Proof.
  revert n d. induction m as [|[k s] m IH]; intros n d Hs Hn Hm.
  { exists d. cbn. rewrite zlen_nil, Z.add_0_r. split_and!; try done. intros k s Hin. by apply elem_of_nil in Hin. }
  apply NoDup_cons in Hn as [Hk Hn]. apply Forall_cons in Hm as [(Hw & Hss & s0 & Hf & Hr) Hm]. cbn [fst snd] in *.
  cbn [fmap list_fmap parse_streams fst snd]. rewrite chomp_cr.
  assert (Hp : starts_with stream_prefix (stream_line (sbytes k) (local_ssrc s) (reliable (config s))) = true) by apply starts_with_app.
  rewrite Hp. cbn [negb]. rewrite stream_line_parses by done. rewrite of_sbytes_sbytes, Hf, Hr.
  assert (Hb : negb (Bool.eqb (negb ((if reliable (config s0) then 1 else 0) =? 0)) (reliable (config s0))) = false)
    by (by destruct (reliable (config s0))).
  rewrite Hb. set (d1 := d <| streams_ ::= _ |> <| by_remote_ssrc_ ::= _ |>).
  assert (Hkeys : d1.(streams_).*1 = d.(streams_).*1) by (by apply (sm_set_keys k _ s0)).
  assert (Hother : forall k', k' <> k -> sm_find k' d1.(streams_) = sm_find k' d.(streams_)) by (intros; by apply sm_find_set_ne).
  destruct (IH (n + 1) d1) as (d' & Hd' & Hk' & Hin' & Hout').
  - unfold sm_sorted. by rewrite Hkeys.
  - done.
  - eapply Forall_impl; [exact Hm|]. intros [k2 s2] (? & ? & s3 & Hf3 & ?). split_and!; [done|lia|lia|].
    cbn [fst snd] in *. destruct (decide (k2 = k)) as [->|Hne]; [|exists s3; by rewrite Hother].
    exists (s0 <| remote_ssrc := local_ssrc s |>). split; [apply sm_find_set|]. cbn. congruence.
  - exists d'. rewrite Hd', zlen_cons. split_and!.
    + by rewrite Z.add_assoc.
    + congruence.
    + intros k2 s2 [[= -> ->]|Hin]%elem_of_cons; [|by apply Hin'].
      rewrite Hout' by done. exists (s0 <| remote_ssrc := local_ssrc s |>). split; [apply sm_find_set|done].
    + intros k2 Hk2. cbn in Hk2. apply not_elem_of_cons in Hk2 as [Hne Hk2]. rewrite Hout' by done. by apply Hother.
Qed.

Lemma wf_stream_lines d : wf_streams d ->
  Forall is_line ((fun kv => stream_line (sbytes kv.1) kv.2.(local_ssrc) kv.2.(config).(reliable)) <$> d.(streams_)).
Proof.
  intros (_ & _ & Hw). apply Forall_fmap. eapply Forall_impl; [exact Hw|]. intros [k s] [[_ Hsp] [Hlo Hhi]]. cbn [fst snd] in *. unfold stream_line.
  assert (Hd : forall c, is_digit c = true -> c <> 10 /\ c <> 13) by (unfold is_digit; intros c Hc; zbool; lia).
  assert (Hdec : forall n, 0 <= n -> is_line (dec n)).
  { intros n Hn0. eapply Forall_impl; [by apply dec_loop_digits; [done|apply Forall_nil_2]|]. exact Hd. }
  change (is_line (stream_prefix ++ sbytes k ++ [32] ++ dec (local_ssrc s) ++ [32] ++ dec (if reliable (config s) then 1 else 0))).
  unfold is_line. rewrite !Forall_app. split_and!; try (by apply is_line_check); try (apply Hdec; lia).
  - eapply Forall_impl; [exact Hsp|]. intros c Hc. unfold is_space in Hc. zbool. split; intros ->; done.
  - apply Hdec. destruct (reliable (config s)); lia.
Qed.

(** The description one end writes tells the other the SSRC of each of its streams. *)
Lemma description_streams d d' before after :
  wf_streams d -> wf_streams d' -> same_streams d d' ->
  Forall is_line before -> Forall is_line after ->
  Forall (fun l => starts_with stream_prefix l = false) (before ++ after) ->
  let '(ok, d1) := ParseRemoteStreams (text before ++ LocalStreamSdpLines d' ++ text after) d in
  ok = true /\ d1.(streams_).*1 = d.(streams_).*1 /\
  forall k s', sm_find k d'.(streams_) = Some s' ->
    exists s1, sm_find k d1.(streams_) = Some s1 /\ s1.(remote_ssrc) = s'.(local_ssrc).
Proof.
  intros (Hs & Hn & Hw) Hd' [Hkeys Hrel] Hb Ha Hother. apply Forall_app in Hother as [Hob Hoa].
  pose proof (wf_stream_lines d' Hd') as Hnl. destruct Hd' as (Hs' & Hn' & Hw').
  set (ls := _ <$> d'.(streams_)) in Hnl.
  unfold ParseRemoteStreams, LocalStreamSdpLines. fold ls. rewrite <- !text_app, lines_text by (repeat apply Forall_app_2; done).
  rewrite !fmap_app. unfold ls. rewrite <- list_fmap_compose.
  rewrite parse_streams_other by (apply Forall_fmap; eapply Forall_impl; [exact Hob|]; intros l Hl; cbn; by rewrite chomp_cr).
  set (d0 := d <| by_remote_ssrc_ := [] |>).
  destruct (parse_streams_lines d'.(streams_) 0 d0 Hs Hn') as (d1 & Hp & Hk & Hin & _).
  { apply Forall_forall. intros [k s'] Hin. rewrite Forall_forall in Hw'. destruct (Hw' _ Hin) as [? ?]. split_and!; [done|lia|lia|].
    cbn. pose proof (sm_find_some_of k s' _ Hn' Hin) as Hf'.
    destruct (sm_find_is_some k _ _ Hkeys (ex_intro _ _ Hf')) as [s Hf]. exists s. split; [done|by apply (Hrel k)]. }
  assert (Happ : forall ls ls' n x n' y, parse_streams ls n x = (true, n', y) -> parse_streams (ls ++ ls') n x = parse_streams ls' n' y).
  { clear. induction ls as [|l ls IH]; intros ls' n x n' y; cbn [app parse_streams]; [by intros [= -> ->]|].
    destruct (negb _); [apply IH|]. destruct (parse_stream_line _) as [[[nm ssrc] rel]|]; [|done].
    destruct (sm_find _ _); [|apply IH]. destruct (negb _); [done|apply IH]. }
  rewrite (Happ _ _ _ _ _ _ Hp). pose proof (parse_streams_other ((fun l => l ++ [13]) <$> after) [] (0 + zlen (streams_ d')) d1) as Hend.
  rewrite app_nil_r in Hend. rewrite Hend by (apply Forall_fmap; eapply Forall_impl; [exact Hoa|]; intros l Hl; cbn; by rewrite chomp_cr).
  cbn [parse_streams negb]. assert (Hlen : 0 + zlen d'.(streams_) = zlen d1.(streams_)).
  { unfold zlen. rewrite <- (length_fmap fst), <- (length_fmap fst (streams_ d1)), Hk, Hkeys. done. }
  rewrite Hlen, Z.eqb_refl. cbn [negb]. split_and!; [done|done|]. intros k s' Hf. apply Hin, sm_find_elem, Hf.
Qed.

(** ** Concrete streams *)

(** The three streams of the core. *)
Definition core_streams : list DataStreamConfig :=
  [mkStreamConfig "ctrl" true 1024; mkStreamConfig "data" false 1024; mkStreamConfig "sack" false 1024].
Definition end_a : DataTransport := DataTransport_new core_streams [11; 12; 13] true.
Definition end_b : DataTransport := DataTransport_new core_streams [4294967295; 22; 23] true.

Definition twice : bytes :=
  text [stream_line (sbytes "ctrl") 21 true; stream_line (sbytes "ctrl") 22 true; stream_line (sbytes "sack") 23 false].

(** A description that lists one stream twice and another not at all is accepted: the header promises
    [false] when a stream registered locally is missing remotely, the code counts lines. *)
Theorem missing_stream_accepted :
  let '(ok, d) := ParseRemoteStreams twice end_a in
  ok = true /\ (remote_ssrc <$> sm_find "data" d.(streams_)) = Some 0 /\
  forall ssrc, zm_find ssrc d.(by_remote_ssrc_) <> Some "data"%string.
Proof.
  vm_compute. split_and!; [done|done|]. intros ssrc.
  repeat (destruct ssrc as [|ssrc|ssrc]; try discriminate); repeat (destruct ssrc; try discriminate).
Qed.

Lemma wf_streams_check d :
  forallb (fun kv => (0 <? kv.2.(local_ssrc)) && (kv.2.(local_ssrc) <? 2 ^ 32) && (0 <? zlen (sbytes kv.1)) &&
             forallb (fun c => negb (is_space c)) (sbytes kv.1)) d.(streams_) = true ->
  StronglySorted (fun a b => String.ltb a b = true) d.(streams_).*1 -> NoDup d.(streams_).*1 -> wf_streams d.
Proof.
  intros H Hs Hn. split; [done|]. split; [done|]. rewrite forallb_forall in H. apply Forall_forall. intros kv Hkv.
  specialize (H kv ltac:(by apply list_elem_of_In)). cbv beta in H. zbool. split; [split|lia].
  - intros E. assert (Hz : 0 < zlen (sbytes kv.1)) by done. by rewrite E in Hz.
  - apply Forall_forall. intros c Hc.
    match goal with H1 : forallb _ (sbytes kv.1) = true |- _ => rewrite forallb_forall in H1;
      specialize (H1 c ltac:(by apply list_elem_of_In)); cbv beta in H1 end. by apply negb_true_iff.
Qed.

Lemma core_streams_wf : wf_streams end_a /\ wf_streams end_b.
Proof.
  assert (Hk : StronglySorted (fun a b => String.ltb a b = true) ["ctrl"; "data"; "sack"]%string /\
               NoDup ["ctrl"; "data"; "sack"]%string).
  { split; [|by apply (bool_decide_unpack (NoDup ["ctrl"; "data"; "sack"]%string)); vm_compute].
    repeat (apply SSorted_cons || apply SSorted_nil || apply Forall_cons_2 || apply Forall_nil_2); reflexivity. }
  split; apply wf_streams_check; (vm_compute; reflexivity) || apply Hk.
Qed.

Lemma core_streams_same : same_streams end_a end_b.
Proof.
  split; [reflexivity|]. intros k s s' H H'.
  let v := eval vm_compute in (streams_ end_a) in change (streams_ end_a) with v in H.
  let v := eval vm_compute in (streams_ end_b) in change (streams_ end_b) with v in H'.
  unfold sm_find in *. cbn [om_find] in H, H'.
  destruct (String.eqb k "ctrl"); [|destruct (String.eqb k "data"); [|destruct (String.eqb k "sack"); [|discriminate H]]];
    injection H as <-; injection H' as <-; reflexivity.
Qed.
