(* ===== verification/PeerConnection.v ===== *)
(** * Signalling and sessions ([minirtc/src/pc/peer_connection.{h,cpp}])

    One connection to the server, any number of sessions, each with an ICE agent, a DTLS transport and a
    data transport.  A [Session] is an object in the store [objs_]; a pointer to it is its index, and
    [sessions_] maps ids to pointers.  Every method is a computation of [Pool]: one action per critical
    section, atomic variable, unsynchronised field or call to another object.  The methods of
    [DtlsTransport] run inside it action by action; those of [DataTransport] are one action each, and what
    they send or deliver follows.

    The threads are those of the callers, of the WebSocket client, of the ICE agents, of the pacers and
    the timer; the worker takes the tasks of the queue.  What the clock, the WebSocket client, libjuice,
    OpenSSL and the libraries of the data transport answer is an input of each action.  A null pointer
    that is dereferenced and an exception nobody catches are [Fault]. *)
From S2P Require Export Dtls DataTransport.
From S2P Require Import Peer.
From S2P Require Export Json.
#[local] Open Scope Z_scope.

(** ** Definitions *)

(** *** Data *)

Record PeerParams := mkPeerParams {
  p_server_host : string; p_server_port : Z; p_server_tls : bool; p_server_path : string;
  p_turn_mode : MiniRtcTurnMode; p_enable_srtp : bool; p_enable_upnp : bool; p_enable_ws_relay : bool;
  p_force_ws_relay : bool; p_ice_timeout_ms : Z; p_app : string; p_version : string; p_platform : string;
  on_signal_status : bool; on_share_event : bool; on_claim_result : bool; on_session_status : bool;
  on_receive_data : bool; on_net_stats : bool; on_notifications : bool;
}.

Inductive WsStatus := kConnecting | kOpen | kFailed_ | kClosed | kReconnecting | kTlsCertError.
Inductive IceState := kNew | kGathering | kIceConnecting | kConnected | kCompleted | kIceFailed.
Inductive Pending := kCreateShare | kClaim | kCloseShare | kLeave | kSignal.

Record IceServer := mkIceServer { host : string; port : Z; turn : bool; username : string; password : string }.

Record IceConfig := mkIceConfig { servers : list IceServer; cfg_turn_mode : MiniRtcTurnMode; cfg_enable_upnp : bool }.

(** [ice] is whether the agent exists. *)
Record Session := mkSession {
  id : string; share_id : string; role : string; offerer : bool; remote_peer_id : string; resume_token : string;
  meta_json : string; ice_servers : list IceServer;
  ice : bool; dtls : option DtlsTransport; data : option DataTransport;
  local_description_sent : bool; remote_description_set : bool; remote_gathering_done : bool;
  pending_remote_candidates : list string;
  relay : bool; path_ready : bool; transport_ready : bool; s_ended : bool; s_status : MiniRtcSessionStatus;
  created_ms : Z; dtls_started_ms : Z; last_stats_ms : Z; relay_header : bytes;
}.
#[export] Instance eta_Session : Eta Session := fun s => mkSession s.(id) s.(share_id) s.(role) s.(offerer)
  s.(remote_peer_id) s.(resume_token) s.(meta_json) s.(ice_servers) s.(ice) s.(dtls) s.(data)
  s.(local_description_sent) s.(remote_description_set) s.(remote_gathering_done) s.(pending_remote_candidates)
  s.(relay) s.(path_ready) s.(transport_ready) s.(s_ended) s.(s_status) s.(created_ms) s.(dtls_started_ms)
  s.(last_stats_ms) s.(relay_header).

(** The tasks posted to [worker_]. *)
Inductive PcTask :=
| TaskWsStatus (st : WsStatus)
| TaskWsText (text : string)
| TaskHousekeeping
| TaskDtlsDone (o : nat) (ok : bool)
| TaskIceState (o : nat) (st : IceState)
| TaskIceCandidate (o : nat) (line : string)
| TaskIceGatheringDone (o : nat)
| TaskEndSession (o : nat) (st : MiniRtcSessionStatus) (reason : string) (notify : bool)
| TaskSwitchToRelay (o : nat).

(** The calls of an ICE agent. *)
Inductive IceCall :=
| IceNew (cfg : IceConfig) | IceGather | IceSetRemote (sdp : string) | IceAddRemote (cand : string) | IceRemoteDone
| IceSend (d : bytes) | IceClose.

(** What the object does to the outside, in order; the callbacks of the owner by their names. *)
Inductive PcEffect :=
| WsConnect (uri : string) | WsShutdown | SendText (t : string) | SendBinary (d : bytes)
| OnSignalStatus (st : MiniRtcSignalStatus) (peer_id : string)
| OnShareEvent (ev : MiniRtcShareEvent) (share_id code : string) (expires_at : Z) (detail : string)
| OnClaimResult (r : MiniRtcClaimResult) (session_id resume_token message : string)
| OnSessionStatus (o : nat) (info : SessionInfo)
| OnReceiveData (o : nat) (d : bytes) (stream : string)
| OnNetStats (o : nat) (stats : NetStats) (path : MiniRtcPath)
| OnNotifications (t : string)
| Ice (o : nat) (c : IceCall)
| SetRemoteFingerprint (o : nat) (fp : string)
| SetSrtpKeysCall (o : nat) (k : SrtpKeys)
| HandshakeChecked (o : nat) (ssl : nat) (fp : string) (verified : bool)
| Returned (rc : Z)
| Estimated (path : MiniRtcPath).

Inductive Worker := NoWorker | Working | Stopped.

(** [ws_] is whether the client exists, [running_] is that of [ThreadBase], [busy_] whether the worker is
    inside a task. *)
Record PC := mkPC {
  pc_streams_ : list DataStreamConfig;
  connected_ : bool; hello_sent_ : bool; peer_id_ : string; ice_servers_ : list IceServer;
  next_request_id_ : Z; pending_ : list (Z * Pending);
  sessions_ : list (string * nat); objs_ : list Session;
  ws_ : bool; worker_ : Worker; tasks_ : list PcTask; busy_ : bool;
  pc_running_ : bool; housekeeping_pending_ : bool;
  log_ : list PcEffect;
}.
#[export] Instance eta_PC : Eta PC := fun s => mkPC s.(pc_streams_) s.(connected_) s.(hello_sent_) s.(peer_id_)
  s.(ice_servers_) s.(next_request_id_) s.(pending_) s.(sessions_) s.(objs_) s.(ws_) s.(worker_) s.(tasks_) s.(busy_)
  s.(pc_running_) s.(housekeeping_pending_) s.(log_).

Definition PC_new : PC := mkPC [] false false "" [] 1 [] [] [] false NoWorker [] false false false [].

(** What the environment answers to an action: the clock, whether the WebSocket client took the message,
    the result of a call to libjuice or of [WsClient::Connect], its description, whether the selected pair
    uses a relay, whether the impairment of the tests drops the datagram, how many of the queued tasks come
    before one that is posted, and what the transports are answered. *)
Record PcAns := mkPcAns {
  a_now : Z; a_ws : bool; a_rc : Z; a_description : bytes; a_relayed : bool; a_drop : bool; a_slot : nat;
  a_ssl : SslAns; a_data : DataAns; a_ssrcs : list Z; a_cert : option (option bytes);
}.

Definition kPcProtoVersion : Z := 1.
Definition kRelayHeaderSize : Z := 2 + 1 + 1 + 16.
Definition kDtlsTimeoutMs : Z := 10000.

Definition pc : Type -> Type := prog PcAns PC.

(** *** Actions on the store *)

Definition put_obj (o : nat) (x : Session) (s : PC) : PC := s <| objs_ ::= <[o := x]> |>.

(** An action on the session at a pointer. *)
Definition on_obj {A} (o : nat) (f : PcAns -> Session -> A * Session) : pc A :=
  act (fun i s => match s.(objs_) !! o with
                  | Some x => let '(a, x) := f i x in Step a (put_obj o x s)
                  | None => Fault
                  end).
Definition look {A} (o : nat) (f : Session -> A) : pc A := on_obj o (fun _ x => (f x, x)).

Definition log (e : PcEffect) : pc unit := write (fun s => s <| log_ ::= fun l => l ++ [e] |>).

(** [Post]: the queue is ordered by the time at which each poster read the clock. *)
Definition insert_task (n : nat) (t : PcTask) (l : list PcTask) : list PcTask := take n l ++ t :: drop n l.
Definition Post (t : PcTask) : pc unit :=
  act (fun i s => match s.(worker_) with
                  | Working => Step tt (s <| tasks_ ::= insert_task i.(a_slot) t |>)
                  | _ => Step tt s
                  end).

Definition FindSession (sid : string) : pc (option nat) := read (fun s => sm_find sid s.(sessions_)).

(** [lock_session] of [StartSession]: the object, if it is still the one its id maps to. *)
Definition lock_session (o : nat) : pc bool :=
  sid ← look o (fun x => x.(id));
  r ← FindSession sid;
  mret (bool_decide (r = Some o)).

(** *** Parsing *)

Section json.
Context `{JL : JsonLib}.

Definition Str (j : json) (key : string) : string :=
  match Json.find j key with
  | Some v => match view v with VString s => s | _ => ""%string end
  | None => ""%string
  end.

(** [get<int64_t>] of a number; a number always has a value. *)
Definition Int (j : json) (key : string) (def : Z) : Z :=
  match Json.find j key with
  | Some v => match view v with
              | VUnsigned _ | VInteger _ | VFloat => match number v with Some n => i64 n | None => def end
              | _ => def
              end
  | None => def
  end.

(** The last colon of a url, unless there is a closing bracket: host and port. *)
Definition host_port (url : bytes) : bytes * Z :=
  match rfind_byte (fun c => c =? 58) url, find_byte (fun c => c =? 93) url with
  | Some colon, None =>
      (ztake colon url,
       match read_number (zdrop (colon + 1) url) with Some (neg, v, _) => u16 (if neg : bool then - v else v) | None => 0 end)
  | _, _ => (url, 3478)
  end.

(** One element of [urls]. *)
Definition parse_url (srv u : json) : option IceServer :=
  match view u with
  | VString s =>
      let url := sbytes s in
      '(url, turn) ← (if starts_with (sbytes "stun:") url then Some (zdrop 5 url, false)
                      else if starts_with (sbytes "turn:") url then Some (zdrop 5 url, true) else None);
      url ← match find_byte (fun c => c =? 63) url with
            | Some q => match find_sub (sbytes "transport=tcp") (zdrop q url) with
                        | Some _ => None
                        | None => Some (ztake q url)
                        end
            | None => Some url
            end;
      let '(h, p) := host_port url in
      if (zlen h =? 0) || (p =? 0) then None else
      Some (mkIceServer (of_sbytes h) p turn
              (if turn : bool then Str srv "username" else "") (if turn : bool then Str srv "credential" else ""))
  | _ => None
  end.

Definition ParseIceServers (j : json) : list IceServer :=
  match Json.find j "ice_servers" with
  | Some l => concat ((fun srv => match Json.find srv "urls" with
                                  | Some urls => omap (parse_url srv) (elements_of urls)
                                  | None => []
                                  end) <$> elements_of l)
  | None => []
  end.

(** *** The methods *)

Context (params_ : PeerParams).

Definition AddDataStream (nm : string) (rel : bool) : pc Z :=
  c ← read connected_;
  if c : bool then mret (-1) else
  act (fun _ s => if existsb (fun c => String.eqb c.(name) nm) s.(pc_streams_) then Step 0 s
                  else Step 0 (s <| pc_streams_ ::= fun l => l ++ [mkStreamConfig nm rel 1024] |>)).

Fixpoint set_window (nm : string) (wnd : Z) (l : list DataStreamConfig) : option (list DataStreamConfig) :=
  match l with
  | [] => None
  | c :: l =>
      if String.eqb c.(name) nm
      then if negb c.(reliable) || (wnd <? 16) then None else Some (mkStreamConfig c.(name) c.(reliable) wnd :: l)
      else cons c <$> set_window nm wnd l
  end.
Definition SetReliableWindow (nm : string) (wnd : Z) : pc Z :=
  act (fun _ s => match set_window nm wnd s.(pc_streams_) with
                  | Some l => Step 0 (s <| pc_streams_ := l |>)
                  | None => Step (-1) s
                  end).

(** [dump] of a message and its way to the server: whether the client took it. *)
Definition send_json (kvs : list (string * json)) : pc bool :=
  match dump (-1) (jobj kvs) with
  | Ret t => act (fun i s => Step i.(a_ws) (s <| log_ ::= fun l => l ++ [SendText t] |>))
  | Throw => fault
  end.

Definition take_request_id : pc Z :=
  act (fun _ s => Step s.(next_request_id_) (s <| next_request_id_ ::= fun n => i64 (n + 1) |>)).

Definition SendRequest (kvs : list (string * json)) (kind : Pending) : pc Z :=
  w ← read ws_;
  if negb w then mret (-1) else
  c ← read connected_;
  if negb c then mret (-1) else
  n ← take_request_id;
  _ ← write (fun s => s <| pending_ ::= zm_set n kind |>);
  ok ← send_json (kvs ++ [("id"%string, jint n)]);
  if negb ok then _ ← write (fun s => s <| pending_ ::= zm_erase n |>); mret (-1) else mret n.

Definition SendSignal (o : nat) (payload : list (string * json)) : pc unit :=
  w ← read ws_;
  if negb w then skip else
  p ← look o (fun x => (x.(id), x.(remote_peer_id)));
  _ ← send_json [("type"%string, jstr "signal"); ("session_id"%string, jstr p.1); ("to"%string, jstr p.2);
                 ("payload"%string, jobj payload)];
  skip.

Definition NotifyShare (ev : MiniRtcShareEvent) (sid code : string) (expires : Z) (detail : string) : pc unit :=
  when params_.(on_share_event) (log (OnShareEvent ev sid code expires detail)).
Definition NotifyClaim (r : MiniRtcClaimResult) (sid token msg : string) : pc unit :=
  when params_.(on_claim_result) (log (OnClaimResult r sid token msg)).

(** [s.data->Estimate().path] *)
Definition data_path (x : Session) : MiniRtcPath :=
  match x.(data) with Some d => Estimate_path d | None => MINIRTC_PATH_UNKNOWN end.

Definition NotifySession (o : nat) (st : MiniRtcSessionStatus) (why : string) : pc unit :=
  when params_.(on_session_status) (
    r ← look o relay;
    p ← (if r : bool then mret MINIRTC_PATH_WS_RELAY else look o data_path);
    x ← look o (fun x => x);
    log (OnSessionStatus o (mkSessionInfo st x.(id) x.(role) x.(resume_token) x.(meta_json) p why))).

(** *** The way out of a session *)

(** [send_via_path] of [StartSession]. *)
Definition send_via_path (o : nat) (d : bytes) : pc unit :=
  dropped ← ask a_drop;
  if dropped : bool then skip else
  p ← look o (fun x => (x.(relay), x.(s_ended)));
  if p.2 : bool then skip else
  if p.1 : bool then
    w ← read ws_;
    if negb w || (zlen d + kRelayHeaderSize >? 65536) then skip else
    h ← look o relay_header;
    log (SendBinary (h ++ d))
  else
    a ← look o ice;
    when a (log (Ice o (IceSend d))).

(** What a call of [DtlsTransport] hands out: a datagram goes to the path, a result to the worker. *)
Definition dtls_out (o : nat) (x : DtlsOut) : pc unit :=
  match x with
  | Flight d => send_via_path o d
  | Published ok => Post (TaskDtlsDone o ok)
  | Checked _ _ _ => skip
  end.
Definition checks (o : nat) (l : list DtlsOut) : list PcEffect :=
  omap (fun x => match x with Checked n fp ok => Some (HandshakeChecked o n fp ok) | _ => None end) l.

(** A call [s->dtls->...]. *)
Fixpoint on_dtls {A} (o : nat) (p : Dtls.dtls A) : pc A :=
  match p with
  | Done a => Done a
  | Act B f k =>
      Act (B * list DtlsOut)
        (fun i s =>
           match s.(objs_) !! o with
           | Some x =>
               match x.(dtls) with
               | Some d =>
                   match f i.(a_ssl) d with
                   | Step b d => Step (b, d.(out_))
                       ((put_obj o (x <| dtls := Some (d <| out_ := [] |>) |>) s) <| log_ ::= fun l => l ++ checks o d.(out_) |>)
                   | Wait => Wait
                   | Fault => Fault
                   end
               | None => Fault
               end
           | None => Fault
           end)
        (fun r => _ ← each r.2 (dtls_out o); on_dtls o (k r.1))
  end.

(** What a call of [DataTransport] sends and delivers. *)
Definition data_out (o : nat) (x : DataOut) : pc unit :=
  match x with
  | OutSend d => send_via_path o d
  | OutData d k | OutMessage d k => when params_.(on_receive_data) (log (OnReceiveData o d k))
  | _ => skip
  end.

(** A call [s->data->...]. *)
Definition on_data {A} (o : nat) (f : PcAns -> DataTransport -> A * DataTransport) : pc A :=
  r ← act (fun i s =>
        match s.(objs_) !! o with
        | Some x =>
            match x.(data) with
            | Some d => let '(a, d) := f i d in
                        Step (a, d.(d_out_)) (put_obj o (x <| data := Some (d <| d_out_ := [] |>) |>) s)
            | None => Fault
            end
        | None => Fault
        end);
  _ ← each r.2 (data_out o);
  mret r.1.
Definition on_data_ (o : nat) (f : PcAns -> DataTransport -> DataTransport) : pc unit :=
  on_data o (fun i d => (tt, f i d)).

(** A call [s->ice->...]: its result. *)
Definition on_ice (o : nat) (c : IceCall) : pc Z :=
  act (fun i s => match s.(objs_) !! o with
                  | Some x => if x.(ice) then Step i.(a_rc) (s <| log_ ::= fun l => l ++ [Ice o c] |>) else Fault
                  | None => Fault
                  end).

(** *** Ending a session *)

Definition EndSession (o : nat) (st : MiniRtcSessionStatus) (reason : string) (notify_server : bool) : pc unit :=
  was ← on_obj o (fun _ x => if x.(s_ended) then (true, x) else (false, x <| s_ended := true |> <| s_status := st |>));
  if was : bool then skip else
  sid ← look o id;
  _ ← write (fun s => if bool_decide (sm_find sid s.(sessions_) = Some o) then s <| sessions_ ::= sm_erase sid |> else s);
  _ ← when notify_server (
        w ← read ws_;
        when w (
          c ← read connected_;
          when c (_ ← SendRequest [("type"%string, jstr "leave"); ("session_id"%string, jstr sid)] kLeave; skip)));
  d ← look o (fun x => bool_decide (is_Some x.(data)));
  _ ← when d (on_data_ o (fun _ => Destroy));
  a ← look o ice;
  _ ← when a (_ ← on_ice o IceClose; skip);
  NotifySession o st reason.

Definition EndSessionAsync (o : nat) (st : MiniRtcSessionStatus) (reason : string) (notify_server : bool) : pc unit :=
  Post (TaskEndSession o st reason notify_server).

Definition EndAllSessions (reason : string) : pc unit :=
  all ← read (fun s => s.(sessions_).*2);
  each all (fun o => EndSession o MINIRTC_SESSION_CLOSED reason false).

(** *** DTLS and readiness *)

Definition MaybeStartDtls (o : nat) : pc unit :=
  d ← look o (fun x => bool_decide (is_Some x.(dtls)));
  if negb d then skip else
  st ← on_dtls o (read started_);
  if st : bool then skip else
  r ← on_dtls o (read HasRemoteFingerprint);
  if negb r then skip else
  _ ← on_obj o (fun i x => (tt, x <| dtls_started_ms := i.(a_now) |>));
  off ← look o offerer;
  rc ← on_dtls o (Dtls.Start off);
  when (negb (rc =? 0)) (EndSessionAsync o MINIRTC_SESSION_FAILED "dtls_failed" true).

Definition set_connected (o : nat) : pc unit :=
  _ ← on_obj o (fun _ x => (tt, x <| transport_ready := true |> <| s_status := MINIRTC_SESSION_CONNECTED |>));
  _ ← on_data_ o (fun _ => SetTransportReady true);
  NotifySession o MINIRTC_SESSION_CONNECTED "".

Definition OnPathReady (o : nat) : pc unit :=
  d ← look o (fun x => bool_decide (is_Some x.(dtls)));
  if d : bool then MaybeStartDtls o else set_connected o.

Definition OnDtlsDone (o : nat) (verified : bool) : pc unit :=
  if negb verified then EndSession o MINIRTC_SESSION_FAILED "dtls_verify_failed" true else
  k ← on_dtls o ExportSrtpKeys;
  ok ← match k with
       | None => mret false
       | Some k => _ ← log (SetSrtpKeysCall o k); on_data o (fun i => SetSrtpKeys k.(local_key) k.(local_salt) k.(remote_key) k.(remote_salt) i.(a_data))
       end;
  if negb ok then EndSession o MINIRTC_SESSION_FAILED "srtp_key_failed" true else
  set_connected o.

Definition SwitchToRelay (o : nat) : pc unit :=
  go ← on_obj o (fun _ x => if x.(relay) || x.(s_ended) then (false, x)
                            else (true, x <| relay := true |> <| path_ready := true |> <| transport_ready := false |>));
  if negb go then skip else
  _ ← SendSignal o [("relay"%string, jbool true)];
  d ← look o (fun x => bool_decide (is_Some x.(dtls)));
  _ ← when d (on_dtls o Dtls.Restart);
  _ ← on_data_ o (fun _ => SetTransportReady false);
  _ ← on_data_ o (fun _ => SetRelayPath true);
  OnPathReady o.

(** *** Descriptions *)

(** The text of [SendLocalDescription]: the lines of libjuice, the fingerprint when there is a DTLS
    transport, the lines of the streams. *)
Definition local_sdp (ice_lines : bytes) (fingerprint : option bytes) (is_offerer : bool) (stream_lines : bytes) : bytes :=
  text (sbytes <$> ["v=0"; "o=- 0 0 IN IP4 0.0.0.0"; "s=-"; "t=0 0"; "m=application 9 UDP/DTLS/RTP/SAVPF 120 121";
                    "c=IN IP4 0.0.0.0"; "a=rtcp-mux"; "a=x-minirtc-version:1"]%string)
  ++ ice_lines
  ++ match fingerprint with
     | Some fp => text [fingerprint_prefix ++ fp; sbytes "a=setup:" ++ sbytes (if is_offerer then "actpass" else "active")]
     | None => []
     end
  ++ stream_lines.

Definition SendLocalDescription (o : nat) (kind : string) : pc unit :=
  lines ← act (fun i s => match s.(objs_) !! o with
                          | Some x => if x.(ice) then Step i.(a_description) s else Fault
                          | None => Fault
                          end);
  d ← look o (fun x => bool_decide (is_Some x.(dtls)));
  fp ← (if d : bool then Some <$> on_dtls o (read fingerprint_) else mret None);
  off ← look o offerer;
  streams ← on_data o (fun _ d => (LocalStreamSdpLines d, d));
  _ ← on_obj o (fun _ x => (tt, x <| local_description_sent := true |>));
  SendSignal o [("sdp"%string, jstr (of_sbytes (local_sdp lines (sbytes <$> fp) off streams))); ("kind"%string, jstr kind)].

(** [s->dtls->SetRemoteFingerprint(fp)] *)
Definition set_remote_fingerprint (o : nat) (fp : string) : pc unit :=
  act (fun _ s => match s.(objs_) !! o with
                  | Some x =>
                      match x.(dtls) with
                      | Some d => Step tt ((put_obj o (x <| dtls := Some (d <| remote_fingerprint_ := fp |>) |>) s)
                                           <| log_ ::= fun l => l ++ [SetRemoteFingerprint o fp] |>)
                      | None => Fault
                      end
                  | None => Fault
                  end).

Definition ApplyRemoteDescription (o : nat) (sdp : string) : pc bool :=
  d ← look o (fun x => bool_decide (is_Some x.(dtls)));
  ok ← (if d : bool then
          let fp := of_sbytes (ExtractFingerprint (sbytes sdp)) in
          if String.eqb fp "" then mret false else _ ← set_remote_fingerprint o fp; mret true
        else mret true);
  if negb ok then mret false else
  ok ← on_data o (fun _ => ParseRemoteStreams (sbytes sdp));
  if negb ok then mret false else
  rc ← on_ice o (IceSetRemote sdp);
  if negb (rc =? 0) then mret false else
  p ← on_obj o (fun _ x => ((x.(pending_remote_candidates), x.(remote_gathering_done)),
                            x <| remote_description_set := true |> <| pending_remote_candidates := [] |>));
  _ ← each p.1 (fun c => _ ← on_ice o (IceAddRemote c); skip);
  _ ← when p.2 (_ ← on_ice o IceRemoteDone; skip);
  off ← look o offerer;
  _ ← when (negb off && negb params_.(p_force_ws_relay)) (_ ← on_ice o IceGather; skip);
  mret true.

(** *** Sessions *)

Context `{SL : SrtpLib}.

Definition ice_config (x : Session) : IceConfig :=
  mkIceConfig x.(ice_servers) params_.(p_turn_mode)
    (params_.(p_enable_upnp) && negb (bool_decide (params_.(p_turn_mode) = MINIRTC_TURN_FORCE))).

Definition StartSession (o : nat) : pc unit :=
  streams ← read pc_streams_;
  _ ← on_obj o (fun i x => (tt, x <| data := Some (DataTransport_new streams i.(a_ssrcs) params_.(p_enable_srtp)) |>));
  _ ← on_data_ o (fun i => Init i.(a_data));
  _ ← when params_.(p_enable_srtp) (on_obj o (fun i x => (tt, x <| dtls := Some (DtlsTransport_new i.(a_cert)) |>)));
  _ ← act (fun _ s => match s.(objs_) !! o with
                      | Some x => Step tt ((put_obj o (x <| ice := true |>) s)
                                           <| log_ ::= fun l => l ++ [Ice o (IceNew (ice_config x))] |>)
                      | None => Fault
                      end);
  _ ← on_data_ o (fun _ => SetSendFunc);
  off ← look o offerer;
  if params_.(p_force_ws_relay) then
    _ ← when off (SendLocalDescription o "offer");
    SwitchToRelay o
  else when off (_ ← SendLocalDescription o "offer"; _ ← on_ice o IceGather; skip).

(** [s->relay_header] *)
Definition relay_header_of (sid : bytes) : bytes :=
  let n := Z.min 16 (zlen sid) in
  [67; 82; 1; 0] ++ ztake n sid ++ replicate (Z.to_nat (16 - n)) 0.

Definition new_session (j : json) (meta : string) (ice_servers : list IceServer) (now : Z) : Session :=
  let sid := Str j "session_id" in
  let role := Str j "role" in
  mkSession sid (Str j "share_id") role (String.eqb role "receiver") (Str j "remote_peer_id") (Str j "resume_token")
    meta ice_servers false None None false false false [] false false false false MINIRTC_SESSION_CONNECTING
    now 0 now (relay_header_of (sbytes sid)).

Definition HandleSessionStart (j : json) : pc unit :=
  let sid := Str j "session_id" in
  if String.eqb sid "" then skip else
  let req := Int j "id" (-1) in
  _ ← when (req >? 0) (write (fun s => s <| pending_ ::= zm_erase req |>));
  meta ← match Json.find j "meta" with
         | Some m => if is_null m then mret ""%string else match dump (-1) m with Ret t => mret t | Throw => fault end
         | None => mret ""%string
         end;
  servers ← match ParseIceServers j with [] => read ice_servers_ | l => mret l end;
  now ← ask a_now;
  o ← act (fun _ s => Step (length s.(objs_)) (s <| objs_ ::= fun l => l ++ [new_session j meta servers now] |>));
  let enter := fun s => s <| sessions_ ::= sm_set sid o |> in
  old ← act (fun _ s => match sm_find sid s.(sessions_) with
                        | Some prev => Step (Some prev) s
                        | None => Step None (enter s)
                        end);
  _ ← match old with
      | Some prev => _ ← EndSession prev MINIRTC_SESSION_CLOSED "resumed" false; write enter
      | None => skip
      end;
  x ← look o (fun x => x);
  _ ← (if String.eqb x.(role) "receiver" then NotifyClaim MINIRTC_CLAIM_OK sid x.(resume_token) ""
       else NotifyShare MINIRTC_SHARE_CLAIMED x.(share_id) "" 0 sid);
  _ ← NotifySession o MINIRTC_SESSION_CONNECTING "";
  StartSession o.

Definition HandleSignal (j : json) : pc unit :=
  r ← FindSession (Str j "session_id");
  match r, Json.find j "payload" with
  | Some o, Some p =>
      if negb (is_object p) then skip
      else if contains p "sdp" then
        off ← look o offerer;
        if off && String.eqb (Str p "kind") "offer" then skip else
        ok ← ApplyRemoteDescription o (Str p "sdp");
        if negb ok then EndSession o MINIRTC_SESSION_FAILED "sdp_negotiation_failed" true else
        off ← look o offerer;
        when (negb off) (SendLocalDescription o "answer")
      else if contains p "candidate" then
        let cand := Str p "candidate" in
        apply ← on_obj o (fun _ x =>
          if x.(remote_description_set) then (true, x) else
          (false, if (length x.(pending_remote_candidates) <? 256)%nat
                  then x <| pending_remote_candidates ::= fun l => l ++ [cand] |> else x));
        when apply (_ ← on_ice o (IceAddRemote cand); skip)
      else if contains p "candidates_done" then
        apply ← on_obj o (fun _ x => (x.(remote_description_set), x <| remote_gathering_done := true |>));
        when apply (_ ← on_ice o IceRemoteDone; skip)
      else if contains p "relay" then when params_.(p_enable_ws_relay) (SwitchToRelay o)
      else skip
  | _, _ => skip
  end.

Definition OnIceState (o : nat) (st : IceState) : pc unit :=
  match st with
  | kConnected | kCompleted =>
      r ← on_obj o (fun _ x => if x.(relay) then (None, x) else (Some (negb x.(path_ready)), x <| path_ready := true |>));
      match r with
      | None => skip
      | Some first =>
          relayed ← act (fun i s => match s.(objs_) !! o with
                                    | Some x => if x.(ice) then Step i.(a_relayed) s else Fault
                                    | None => Fault
                                    end);
          change ← (if first : bool then mret true else
                    p ← on_data o (fun _ d => (Estimate_path d, d));
                    mret (negb (Bool.eqb (bool_decide (p = MINIRTC_PATH_TURN)) relayed)));
          _ ← when change (on_data_ o (fun _ => SetRelayPath relayed));
          when first (OnPathReady o)
      end
  | kIceFailed =>
      r ← look o relay;
      if r : bool then skip else
      if params_.(p_enable_ws_relay) then SwitchToRelay o
      else EndSession o MINIRTC_SESSION_FAILED "ice_failed" true
  | _ => skip
  end.

Definition OnIceCandidate (o : nat) (line : string) : pc unit := SendSignal o [("candidate"%string, jstr line)].
Definition OnIceGatheringDone (o : nat) : pc unit := SendSignal o [("candidates_done"%string, jbool true)].

Definition OnPathDatagram (o : nat) (d : bytes) : pc unit :=
  t ← look o (fun x => bool_decide (is_Some x.(dtls)));
  if t && IsDtlsRecord d then
    st ← on_dtls o (read started_);
    _ ← when (negb st) (ready ← look o path_ready; when ready (MaybeStartDtls o));
    _ ← on_dtls o (HandleIncoming d);
    skip
  else on_data_ o (fun i => OnDatagram d i.(a_data)).

(** The id and the datagram of a relay frame. *)
Definition parse_relay_frame (d : bytes) : option (bytes * bytes) :=
  if (zlen d <? kRelayHeaderSize) || negb (znth d 0 =? 67) || negb (znth d 1 =? 82) || negb (znth d 2 =? 1) then None
  else Some (slice 4 16 d, zdrop kRelayHeaderSize d).

Definition OnWsBinary (d : bytes) : pc unit :=
  match parse_relay_frame d with
  | None => skip
  | Some (sid, d) =>
      r ← FindSession (of_sbytes sid);
      match r with
      | None => skip
      | Some o =>
          rl ← look o relay;
          if negb rl && negb params_.(p_enable_ws_relay) then skip else
          _ ← when (negb rl) (Post (TaskSwitchToRelay o));
          OnPathDatagram o d
      end
  end.

Definition HandleSessionEnd (j : json) : pc unit :=
  r ← FindSession (Str j "session_id");
  match r with
  | None => skip
  | Some o =>
      let reason := Str j "reason" in
      EndSession o (if String.eqb reason "peer_offline" then MINIRTC_SESSION_DISCONNECTED else MINIRTC_SESSION_CLOSED)
        reason false
  end.

(** *** Signalling *)

Definition HandleWelcome (j : json) : pc unit :=
  _ ← write (fun s => s <| peer_id_ := Str j "peer_id" |>);
  _ ← write (fun s => s <| ice_servers_ := ParseIceServers j |>);
  _ ← write (fun s => s <| connected_ := true |>);
  when params_.(on_signal_status) (p ← read peer_id_; log (OnSignalStatus MINIRTC_SIGNAL_CONNECTED p)).

Definition claim_error (code : string) : MiniRtcClaimResult :=
  if String.eqb code "code_not_found" then MINIRTC_CLAIM_CODE_NOT_FOUND
  else if String.eqb code "code_expired" then MINIRTC_CLAIM_CODE_EXPIRED
  else if String.eqb code "share_busy" then MINIRTC_CLAIM_SHARE_BUSY
  else if String.eqb code "rate_limited" then MINIRTC_CLAIM_RATE_LIMITED
  else MINIRTC_CLAIM_ERROR.

Definition HandleError (j : json) : pc unit :=
  let n := Int j "id" (-1) in
  k ← act (fun _ s => match zm_find n s.(pending_) with
                      | Some k => Step (Some k) (s <| pending_ ::= zm_erase n |>)
                      | None => Step None s
                      end);
  match k with
  | Some kClaim => NotifyClaim (claim_error (Str j "code")) "" "" (Str j "message")
  | Some kCreateShare => NotifyShare MINIRTC_SHARE_FAILED "" "" 0 (Str j "code")
  | _ => skip
  end.

Definition HandleShareCreated (j : json) : pc unit :=
  _ ← write (fun s => s <| pending_ ::= zm_erase (Int j "id" (-1)) |>);
  NotifyShare MINIRTC_SHARE_CREATED (Str j "share_id") (Str j "code") (Int j "expires_at" 0) (Str j "code_display").

Definition HandleShareClosed (j : json) : pc unit :=
  NotifyShare MINIRTC_SHARE_CLOSED (Str j "share_id") "" 0 (Str j "reason").

Definition OnWsText (t : string) : pc unit :=
  let j := parse t in
  if is_discarded j then skip else
  let type := Str j "type" in
  if String.eqb type "welcome" then HandleWelcome j
  else if String.eqb type "notifications" then
    when (params_.(on_notifications) && match Json.find j "items" with
                                       | Some l => is_array l && (length (elements_of l) <=? 50)%nat
                                       | None => false
                                       end) (log (OnNotifications t))
  else if String.eqb type "share_created" then HandleShareCreated j
  else if String.eqb type "share_closed" then HandleShareClosed j
  else if String.eqb type "session_start" then HandleSessionStart j
  else if String.eqb type "session_end" then HandleSessionEnd j
  else if String.eqb type "signal" then HandleSignal j
  else if String.eqb type "error" then HandleError j
  else if String.eqb type "ok" || String.eqb type "pong" then
    write (fun s => s <| pending_ ::= zm_erase (Int j "id" (-1)) |>)
  else if String.eqb type "ping" then
    w ← read ws_;
    when w (_ ← send_json [("type"%string, jstr "pong"); ("id"%string, jint (Int j "id" 0))]; skip)
  else skip.

(** The statuses that end the sessions. *)
Definition signal_dropped (st : WsStatus) (out : MiniRtcSignalStatus) : pc unit :=
  _ ← when match st with kConnecting => false | _ => true end (
        _ ← write (fun s => s <| connected_ := false |>);
        _ ← write (fun s => s <| hello_sent_ := false |>);
        EndAllSessions "signal_lost");
  when params_.(on_signal_status) (p ← read peer_id_; log (OnSignalStatus out p)).

Definition OnWsStatus (st : WsStatus) : pc unit :=
  match st with
  | kConnecting => signal_dropped st MINIRTC_SIGNAL_CONNECTING
  | kOpen =>
      n ← take_request_id;
      w ← read ws_;
      if negb w then fault else
      ok ← send_json ([("type"%string, jstr "hello"); ("id"%string, jint n); ("app"%string, jstr params_.(p_app));
                       ("version"%string, jstr params_.(p_version)); ("platform"%string, jstr params_.(p_platform));
                       ("proto"%string, jint kPcProtoVersion)]
                      ++ (if params_.(on_notifications) then [("notifications"%string, jbool true)] else []));
      write (fun s => s <| hello_sent_ := ok |>)
  | kFailed_ => signal_dropped st MINIRTC_SIGNAL_FAILED
  | kClosed => signal_dropped st MINIRTC_SIGNAL_CLOSED
  | kReconnecting => signal_dropped st MINIRTC_SIGNAL_RECONNECTING
  | kTlsCertError => signal_dropped st MINIRTC_SIGNAL_TLS_ERROR
  end.

(** *** The calls of the owner *)

Definition server_uri : string :=
  (if params_.(p_server_tls) then "wss://" else "ws://") +:+ params_.(p_server_host)
  +:+ (if params_.(p_server_port) >? 0 then ":" +:+ of_sbytes (dec params_.(p_server_port)) else "")
  +:+ (if String.eqb params_.(p_server_path) "" then "/ws" else params_.(p_server_path)).

Definition PcConnect : pc Z :=
  w ← read ws_;
  if w : bool then mret 0 else
  _ ← write (fun s => s <| worker_ := Working |> <| tasks_ := [] |>);
  _ ← write (fun s => s <| ws_ := true |>);
  _ ← write (fun s => s <| pc_running_ := true |>);
  act (fun i s => Step i.(a_rc) (s <| log_ ::= fun l => l ++ [WsConnect server_uri] |>)).

(** [worker_->Stop()] returns when the queue is empty and the worker has left its task. *)
Definition Disconnect : pc Z :=
  _ ← write (fun s => s <| pc_running_ := false |>);
  _ ← write (fun s => match s.(worker_) with Working => s <| worker_ := Stopped |> | _ => s end);
  _ ← act (fun _ s => match s.(worker_) with
                      | NoWorker => Step tt s
                      | _ => match s.(tasks_), s.(busy_) with [], false => Step tt s | _, _ => Wait end
                      end);
  _ ← EndAllSessions "local_close";
  w ← read ws_;
  _ ← when w (_ ← log WsShutdown; write (fun s => s <| ws_ := false |>));
  _ ← write (fun s => s <| worker_ := NoWorker |>);
  _ ← write (fun s => s <| connected_ := false |>);
  _ ← write (fun s => s <| hello_sent_ := false |>);
  mret 0.

Definition accepted (rc : Z) : Z := if rc >? 0 then 0 else -1.

Definition CreateShare (mode : string) (ttl_sec : Z) (meta : string) : pc Z :=
  let msg := [("type"%string, jstr "create_share"); ("mode"%string, jstr (if String.eqb mode "" then "once" else mode))]
             ++ (if ttl_sec >? 0 then [("ttl_sec"%string, jint ttl_sec)] else []) in
  if String.eqb meta "" then accepted <$> SendRequest msg kCreateShare else
  let m := parse meta in
  if is_discarded m then mret (-1) else accepted <$> SendRequest (msg ++ [("meta"%string, m)]) kCreateShare.

Definition CloseShare (sid : string) : pc Z :=
  accepted <$> SendRequest [("type"%string, jstr "close_share"); ("share_id"%string, jstr sid)] kCloseShare.

Definition Claim (code token : string) : pc Z :=
  accepted <$> SendRequest [("type"%string, jstr "claim");
                            if String.eqb token "" then ("code"%string, jstr code) else ("resume_token"%string, jstr token)] kClaim.

Definition Leave (sid : string) : pc Z :=
  r ← FindSession sid;
  match r with
  | None => mret (-1)
  | Some o => _ ← EndSession o MINIRTC_SESSION_CLOSED "local_leave" true; mret 0
  end.

Definition PcSend (sid stream : string) (d : bytes) : pc Z :=
  r ← FindSession sid;
  match r with
  | None => mret (-1)
  | Some o =>
      t ← look o (fun x => bool_decide (is_Some x.(data)));
      if negb t then mret (-1) else on_data o (fun i => DataTransport.Send stream (Some d) (zlen d) i.(a_data))
  end.

Definition GetLinkEstimate (sid : string) : pc Z :=
  r ← FindSession sid;
  match r with
  | None => mret (-1)
  | Some o =>
      t ← look o (fun x => bool_decide (is_Some x.(data)));
      if negb t then mret (-1) else
      p ← on_data o (fun _ d => (Estimate_path d, d));
      rl ← look o relay;
      _ ← log (Estimated (if rl : bool then MINIRTC_PATH_WS_RELAY else p));
      mret 0
  end.

(** *** Housekeeping *)

Definition PcProcess : pc unit :=
  was ← act (fun _ s => Step s.(housekeeping_pending_) (s <| housekeeping_pending_ := true |>));
  if was : bool then skip else Post TaskHousekeeping.

(** The part about DTLS: whether the round goes on. *)
Definition check_dtls (o : nat) (x : Session) (now : Z) : pc bool :=
  d ← look o (fun x => bool_decide (is_Some x.(dtls)));
  if negb (d && x.(path_ready) && negb x.(transport_ready)) then mret true else
  st ← on_dtls o (read started_);
  if negb st then _ ← MaybeStartDtls o; mret true else
  v ← on_dtls o (read verified_);
  if v : bool then mret true else
  _ ← on_dtls o HandleTimeout;
  if negb (x.(dtls_started_ms) =? 0) && (now - x.(dtls_started_ms) >? kDtlsTimeoutMs) then
    _ ← EndSession o MINIRTC_SESSION_FAILED "dtls_timeout" true; mret false
  else mret true.

Definition report_stats (o : nat) (x : Session) (now : Z) : pc unit :=
  when (x.(transport_ready) && params_.(on_net_stats) && (now - x.(last_stats_ms) >=? 1000)) (
    _ ← on_obj o (fun _ x => (tt, x <| last_stats_ms := now |>));
    st ← on_data o (fun i => TakeStats i.(a_data));
    log (OnNetStats o st (if x.(relay) then MINIRTC_PATH_WS_RELAY else st.(st_path)))).

Definition housekeep (now : Z) (o : nat) : pc unit :=
  x ← look o (fun x => x);
  if x.(s_ended) then skip
  else if negb x.(path_ready) && negb x.(relay) && (now - x.(created_ms) >? params_.(p_ice_timeout_ms)) then
    if params_.(p_enable_ws_relay) then SwitchToRelay o else EndSession o MINIRTC_SESSION_FAILED "ice_timeout" true
  else
    go ← check_dtls o x now;
    when go (report_stats o x now).

Definition Housekeeping : pc unit :=
  all ← read (fun s => s.(sessions_).*2);
  now ← ask a_now;
  each all (housekeep now).

(** *** Tasks and entries *)

Definition run_pc_task (t : PcTask) : pc unit :=
  match t with
  | TaskWsStatus st => OnWsStatus st
  | TaskWsText t => OnWsText t
  | TaskHousekeeping => _ ← Housekeeping; write (fun s => s <| housekeeping_pending_ := false |>)
  | TaskDtlsDone o ok => l ← lock_session o; when l (OnDtlsDone o ok)
  | TaskIceState o st => l ← lock_session o; when l (OnIceState o st)
  | TaskIceCandidate o line => l ← lock_session o; when l (OnIceCandidate o line)
  | TaskIceGatheringDone o => l ← lock_session o; when l (OnIceGatheringDone o)
  | TaskEndSession o st reason notify => EndSession o st reason notify
  | TaskSwitchToRelay o => SwitchToRelay o
  end.

(** The worker takes the first task, one at a time. *)
Definition next_task (s : PC) : option (pc unit * PC) :=
  if s.(busy_) then None else
  match s.(worker_), s.(tasks_) with
  | NoWorker, _ | _, [] => None
  | _, t :: ts => Some (_ ← run_pc_task t; write (fun s => s <| busy_ := false |>), s <| tasks_ := ts |> <| busy_ := true |>)
  end.

(** [MiniRtcCreate]: what the object is created with, or a null pointer.  The texts of the C structure may
    be null; the other fields are those of [p]. *)
Definition S_or (s : option string) (def : string) : string := default def s.
Definition MiniRtcCreate_params (server_host server_path app version platform : option string) (p : PeerParams) : option PeerParams :=
  match server_host with
  | None => None
  | Some h => Some (mkPeerParams h p.(p_server_port) p.(p_server_tls) (S_or server_path "/ws") p.(p_turn_mode) p.(p_enable_srtp)
      p.(p_enable_upnp) p.(p_enable_ws_relay) p.(p_force_ws_relay)
      (if p.(p_ice_timeout_ms) >? 0 then p.(p_ice_timeout_ms) else 15000)
      (S_or app "crosstransfer") (S_or version "0") (S_or platform "unknown")
      p.(on_signal_status) p.(on_share_event) p.(on_claim_result) p.(on_session_status) p.(on_receive_data)
      p.(on_net_stats) p.(on_notifications))
  end.

(** The calls of the C interface ([minirtc/src/api/minirtc.cpp]); the object they find is [PC_new] with the
    parameters of [MiniRtcCreate_params]. *)
Definition MiniRtcCall (c : RtcCall) : pc Z :=
  match c with
  | MiniRtcCreate _ => mret 0
  | MiniRtcAddDataStream nm rel => if String.eqb nm "" then mret (-1) else AddDataStream nm rel
  | MiniRtcSetReliableWindow nm wnd => SetReliableWindow nm wnd
  | MiniRtcConnect => PcConnect
  | MiniRtcDestroy => Disconnect
  | MiniRtcCreateShare mode ttl meta => CreateShare mode ttl meta
  | MiniRtcCloseShare sid => CloseShare sid
  | MiniRtcClaim code token =>
      let c := default ""%string code in
      let t := default ""%string token in
      if String.eqb c "" && String.eqb t "" then mret (-1) else Claim c t
  | MiniRtcLeave sid => Leave sid
  | MiniRtcSend sid stream d => if zlen d =? 0 then mret (-1) else PcSend sid stream d
  | MiniRtcGetLinkEstimate sid => GetLinkEstimate sid
  end.

(** Who enters: the owner, the WebSocket client, the timer, an ICE agent, the threads of a data transport. *)
Inductive PcEvent :=
| CallRtc (c : RtcCall)
| CbStatus (st : WsStatus) | CbText (t : string) | CbBinary (d : bytes)
| CbTimer
| CbIceState (o : nat) (st : IceState) | CbIceCandidate (o : nat) (line : string) | CbIceGatheringDone (o : nat)
| CbIceRecv (o : nat) (d : bytes)
| CbPaced (o : nat) (packet : bytes) | CbPadding (o : nat) (n : Z) | CbRtcp (o : nat) (d : bytes)
| CbTick (o : nat) (ticks : list (string * DataAns)).

(** The callbacks of an agent come only once there is one, and likewise for the others. *)
Definition if_there (f : PC -> bool) (p : pc unit) : pc unit := b ← read f; when b p.
Definition has_ice (o : nat) (s : PC) : bool := match s.(objs_) !! o with Some x => x.(ice) | None => false end.
Definition has_data (o : nat) (s : PC) : bool :=
  match s.(objs_) !! o with Some x => bool_decide (is_Some x.(data)) | None => false end.

Definition pc_entry (e : PcEvent) : pc unit :=
  match e with
  | CallRtc c => rc ← MiniRtcCall c; log (Returned rc)
  | CbStatus st => if_there ws_ (Post (TaskWsStatus st))
  | CbText t => if_there ws_ (Post (TaskWsText t))
  | CbBinary d => if_there ws_ (OnWsBinary d)
  | CbTimer => if_there pc_running_ PcProcess
  | CbIceState o st => if_there (has_ice o) (Post (TaskIceState o st))
  | CbIceCandidate o line => if_there (has_ice o) (Post (TaskIceCandidate o line))
  | CbIceGatheringDone o => if_there (has_ice o) (Post (TaskIceGatheringDone o))
  | CbIceRecv o d => if_there (has_ice o) (l ← lock_session o; when l (OnPathDatagram o d))
  | CbPaced o packet => if_there (has_data o) (on_data_ o (fun i => OnPacedPacket packet i.(a_data)))
  | CbPadding o n => if_there (has_data o) (on_data_ o (fun i => GeneratePadding n i.(a_data)))
  | CbRtcp o d => if_there (has_data o) (on_data_ o (fun i => SendRtcp d i.(a_data)))
  | CbTick o ticks => if_there (has_data o) (on_data_ o (fun _ => DataTransport.Process ticks))
  end.

Definition pc_run (s : PC) (xs : list (sched PcAns PcEvent)) : Pool PcAns PC := pool_run pc_entry next_task s xs.

End json.
