(* ===== verification/PeerConnectionProofs.v ===== *)
(** * Sessions under every schedule

    What holds of [PeerConnection] whatever its threads do between two actions of one of them, and what
    goes wrong when they meet.  The invariant [pc_inv] speaks of the log: which reports of an end there are,
    what was checked before a session is reported as connected, and what may leave.  A token [Report o] is
    owned by the thread that has ended session [o] and not yet reported it; [Busy] is owned by the worker
    inside a task, and names the session it is making. *)
From S2P Require Import Peer.
From S2P Require Export PeerConnection.
#[local] Open Scope Z_scope.

(** ** The invariant *)

Inductive Token := Report (o : nat) | Busy (making : option nat).
#[export] Instance Token_dec : EqDecision Token.
Proof. solve_decision. Defined.

Definition is_busy (t : Token) : bool := match t with Busy _ => true | _ => false end.
Definition is_report (o : nat) (t : Token) : bool := match t with Report o' => Nat.eqb o o' | _ => false end.
Definition tokens (f : Token -> bool) (l : list Token) : nat := length (List.filter f l).

(** The statuses with which a session ends. *)
Definition ending (st : MiniRtcSessionStatus) : bool :=
  match st with MINIRTC_SESSION_DISCONNECTED | MINIRTC_SESSION_FAILED | MINIRTC_SESSION_CLOSED => true | _ => false end.
Definition is_end (o : nat) (e : PcEffect) : bool :=
  match e with OnSessionStatus o' info => Nat.eqb o o' && ending info.(status) | _ => false end.
Definition end_reports (o : nat) (l : list PcEffect) : nat := length (List.filter (is_end o) l).

#[local] Arguments tokens : simpl never.
#[local] Arguments end_reports : simpl never.

Definition has_ended (o : nat) (s : PC) : bool := match s.(objs_) !! o with Some x => x.(s_ended) | None => false end.

(** A handshake of the session was checked against a fingerprint, and that fingerprint came from the owner. *)
Definition proved (o : nat) (l : list PcEffect) : Prop :=
  exists n fp, HandshakeChecked o n fp true ∈ l /\ SetRemoteFingerprint o fp ∈ l.

(** The keys given to the data transport of a session. *)
Definition keyed_out (o : nat) (l : list PcEffect) (p : SrtpParams) : Prop :=
  exists k, SetSrtpKeysCall o k ∈ l /\ p = mkParams k.(local_key) k.(local_salt).
Definition keyed_in (o : nat) (l : list PcEffect) (p : SrtpParams) : Prop :=
  exists k, SetSrtpKeysCall o k ∈ l /\ p = mkParams k.(remote_key) k.(remote_salt).

Section inv.
Context `{JL : JsonLib} `{SL : SrtpLib} (params_ : PeerParams) (flight : bytes -> Prop).
Notation srtp := (p_enable_srtp params_).

(** A datagram of session [o] that may leave: a DTLS flight, or a packet sealed under its keys. *)
Definition may_leave (o : nat) (l : list PcEffect) (d : bytes) : Prop :=
  flight d \/ exists p z pkt, keyed_out o l p /\ (srtp_protect p z pkt = Some d \/ srtp_protect_rtcp p z pkt = Some d).

Definition effect_ok (l : list PcEffect) (e : PcEffect) : Prop :=
  match e with
  | OnSessionStatus o info => info.(status) = MINIRTC_SESSION_CONNECTED -> proved o l
  | SetSrtpKeysCall o _ => proved o l
  | Ice o (IceSend d) => may_leave o l d
  | SendBinary f => exists o h d, f = h ++ d /\ zlen h = kRelayHeaderSize /\ may_leave o l d
  | _ => True
  end.

Definition task_ok (l : list PcEffect) (t : PcTask) : Prop :=
  match t with
  | TaskEndSession _ st _ _ => ending st = true
  | TaskDtlsDone o true => proved o l
  | _ => True
  end.

Record obj_ok (l : list PcEffect) (o : nat) (x : Session) : Prop := {
  ok_dtls : forall d, x.(dtls) = Some d ->
    d.(out_) = [] /\ (d.(remote_fingerprint_) <> ""%string -> SetRemoteFingerprint o d.(remote_fingerprint_) ∈ l);
  ok_data : forall d, x.(data) = Some d ->
    d.(d_out_) = [] /\ (srtp = true -> guarded (keyed_out o l) (keyed_in o l) d);
  ok_header : zlen x.(relay_header) = kRelayHeaderSize;
}.

Record pc_inv (s : PC) (l : list Token) : Prop := {
  i_reports : forall o, (end_reports o s.(log_) + tokens (is_report o) l =
    if has_ended o s && params_.(on_session_status) then 1 else 0)%nat;
  i_tasks : Forall (task_ok s.(log_)) s.(tasks_);
  i_objs : forall o x, s.(objs_) !! o = Some x -> obj_ok s.(log_) o x;
  i_effects : srtp = true -> Forall (effect_ok s.(log_)) s.(log_);
  i_busy : tokens is_busy l = if s.(busy_) then 1%nat else 0%nat;
  i_started : srtp = true -> forall o x, s.(objs_) !! o = Some x -> x.(dtls) = None -> Busy (Some o) ∈ l;
}.

(** Every action moves the log forward. *)
Definition ext (s s' : PC) : Prop := s.(log_) `prefix_of` s'.(log_).
#[local] Instance ext_preorder : PreOrder ext.
Proof. unfold ext. split; [intros s; reflexivity|]. intros s1 s2 s3. apply transitivity. Qed.

Definition good (i : PcAns) : Prop := Forall flight i.(a_ssl).(hs_flights).

Notation safe := (safe good ext pc_inv).
Notation K s0 p := (forall own, safe p s0 own (fun _ _ o => o = own)).

(** *** Growth of the log *)

Lemma prefix_elem {A} (l l' : list A) x : l `prefix_of` l' -> x ∈ l -> x ∈ l'.
Proof. intros [k ->] H. apply elem_of_app. by left. Qed.

Lemma proved_mono o l l' : l `prefix_of` l' -> proved o l -> proved o l'.
Proof. intros H (n & fp & H1 & H2). exists n, fp. eauto using prefix_elem. Qed.
Lemma keyed_out_mono o l l' p : l `prefix_of` l' -> keyed_out o l p -> keyed_out o l' p.
Proof. intros H (k & Hk & ->). exists k. eauto using prefix_elem. Qed.
Lemma keyed_in_mono o l l' p : l `prefix_of` l' -> keyed_in o l p -> keyed_in o l' p.
Proof. intros H (k & Hk & ->). exists k. eauto using prefix_elem. Qed.
Lemma may_leave_mono o l l' d : l `prefix_of` l' -> may_leave o l d -> may_leave o l' d.
Proof.
  intros H [Hf|(p & z & pkt & Hp & Hs)]; [by left|]. right. exists p, z, pkt. eauto using keyed_out_mono.
Qed.
Lemma effect_ok_mono l l' e : l `prefix_of` l' -> effect_ok l e -> effect_ok l' e.
Proof.
  intros H. destruct e; cbn; eauto using proved_mono.
  - intros (o & h & d' & -> & Hh & Hd). exists o, h, d'. eauto using may_leave_mono.
  - destruct c; eauto using may_leave_mono.
Qed.
Lemma task_ok_mono l l' t : l `prefix_of` l' -> task_ok l t -> task_ok l' t.
Proof. intros H. destruct t; cbn; try done. destruct ok; eauto using proved_mono. Qed.

Lemma guarded_mono (Ko Ko' Ki Ki' : SrtpParams -> Prop) d :
  (forall p, Ko p -> Ko' p) -> (forall p, Ki p -> Ki' p) -> d.(d_out_) = [] -> guarded Ko Ki d -> guarded Ko' Ki' d.
Proof. intros Ho Hi Hd [He Go Gi _]. split; auto. by rewrite Hd. Qed.

Lemma obj_ok_mono l l' o x : l `prefix_of` l' -> obj_ok l o x -> obj_ok l' o x.
Proof.
  intros H [Hdt Hda Hh]. split; [| |done].
  - intros d Hd. destruct (Hdt d Hd) as [H1 H2]. split; [done|]. eauto using prefix_elem.
  - intros d Hd. destruct (Hda d Hd) as [H1 H2]. split; [done|]. intros E. eapply guarded_mono; [..|by apply H2]; [| |done].
    + intros p. by apply keyed_out_mono.
    + intros p. by apply keyed_in_mono.
Qed.

(** *** Tokens *)

Lemma tokens_app f l l' : tokens f (l ++ l') = (tokens f l + tokens f l')%nat.
Proof. unfold tokens. by rewrite List.filter_app, length_app. Qed.
Lemma tokens_perm f l l' : l ≡ₚ l' -> tokens f l = tokens f l'.
Proof.
  unfold tokens. induction 1; cbn; [done|by destruct (f x); cbn; congruence|by destruct (f x), (f y)|congruence].
Qed.
Lemma end_reports_app o l l' : end_reports o (l ++ l') = (end_reports o l + end_reports o l')%nat.
Proof. unfold end_reports. by rewrite List.filter_app, length_app. Qed.

Lemma pc_inv_perm s l l' : l ≡ₚ l' -> pc_inv s l -> pc_inv s l'.
Proof.
  intros Hp [Hr Ht Ho He Hb Hs]. split; try done.
  - intros o. rewrite <- Hr. f_equal. symmetry. by apply tokens_perm.
  - rewrite <- Hb. symmetry. by apply tokens_perm.
  - intros E o x Hx Hd. rewrite <- Hp. eauto.
Qed.

(** ** Actions *)

(** An action that touches neither the sessions nor the log. *)
Lemma inv_frame s s' l :
  s'.(objs_) = s.(objs_) -> s'.(log_) = s.(log_) -> s'.(busy_) = s.(busy_) ->
  Forall (task_ok s.(log_)) s'.(tasks_) -> pc_inv s l -> pc_inv s' l.
Proof.
  intros Eo El Eb Ht [Hr _ Ho He Hb Hs]. split; rewrite ?El, ?Eb; try done; unfold has_ended in *; rewrite ?Eo; try done.
Qed.

(** Effects that say nothing of an end. *)
Lemma inv_log s es l :
  (forall o, end_reports o es = 0%nat) ->
  (srtp = true -> Forall (effect_ok (s.(log_) ++ es)) es) ->
  pc_inv s l -> pc_inv (s <| log_ ::= fun k => k ++ es |>) l.
Proof.
  intros Hes Hok [Hr Ht Ho He Hb Hs].
  assert (Hp : s.(log_) `prefix_of` s.(log_) ++ es) by (by exists es).
  split; cbn; try done.
  - intros o. rewrite end_reports_app, Hes, Nat.add_0_r. apply Hr.
  - eapply Forall_impl; [exact Ht|]. intros t. by apply task_ok_mono.
  - intros o x Hx. eapply obj_ok_mono; [exact Hp|]. by apply Ho.
  - intros E. apply Forall_app. split; [|by apply Hok]. eapply Forall_impl; [by apply He|]. intros e. by apply effect_ok_mono.
Qed.

(** A session changes in fields the invariant does not mention, or as it allows. *)
Lemma inv_obj s o x x' l :
  s.(objs_) !! o = Some x -> x'.(s_ended) = x.(s_ended) -> (x'.(dtls) = None -> x.(dtls) = None) ->
  (obj_ok s.(log_) o x -> obj_ok s.(log_) o x') ->
  pc_inv s l -> pc_inv (put_obj o x' s) l.
Proof.
  intros Ex Ee Ed Hx [Hr Ht Ho He Hb Hs]. split; cbn; try done.
  - intros o'. rewrite (Hr o'). unfold has_ended, put_obj. cbn.
    destruct (decide (o' = o)) as [->|]; [|by rewrite list_lookup_insert_ne].
    rewrite list_lookup_insert_eq by (by eapply lookup_lt_Some). by rewrite Ex, Ee.
  - intros o' y. unfold put_obj. cbn. destruct (decide (o' = o)) as [->|]; [|rewrite list_lookup_insert_ne by done; apply Ho].
    rewrite list_lookup_insert_eq by (by eapply lookup_lt_Some). intros [= <-]. apply Hx, Ho. done.
  - intros E o' y. unfold put_obj. cbn. destruct (decide (o' = o)) as [->|]; [|rewrite list_lookup_insert_ne by done; by apply Hs].
    rewrite list_lookup_insert_eq by (by eapply lookup_lt_Some). intros [= <-] Hy. eapply (Hs E); [exact Ex|by apply Ed].
Qed.

Lemma ext_refl s : ext s s.
Proof. done. Qed.
Lemma ext_log s es : ext s (s <| log_ ::= fun k => k ++ es |>).
Proof. by exists es. Qed.
Lemma ext_same s s' : s'.(log_) = s.(log_) -> ext s s'.
Proof. unfold ext. by intros ->. Qed.

Lemma bind_ok {A B} (p : pc A) (k : A -> pc B) s0 own P Q :
  safe p s0 own P -> (forall a s own, ext s0 s -> P a s own -> safe (k a) s own Q) -> safe (p ≫= k) s0 own Q.
Proof. apply safe_bind, _. Qed.
Lemma weaken_ok {A} (p : pc A) s0 own P Q :
  safe p s0 own P -> (forall a s own, ext s0 s -> P a s own -> Q a s own) -> safe p s0 own Q.
Proof. apply safe_weaken_at, _. Qed.

Lemma K_ret {A} (a : A) s0 : K s0 (mret (M := prog _ _) a).
Proof. done. Qed.

Lemma K_bind {A B} (p : pc A) (k : A -> pc B) s0 :
  K s0 p -> (forall a s, ext s0 s -> K s (k a)) -> K s0 (p ≫= k).
Proof. intros Hp Hk own. eapply bind_ok; [apply Hp|]. intros a s o He ->. by apply Hk. Qed.

Lemma K_read {A} (f : PC -> A) s0 : K s0 (read f).
Proof. intros own. apply safe_calm. intros i s l _ _ HI. by split. Qed.

Lemma K_ask {A} (f : PcAns -> A) s0 : K s0 (ask f).
Proof. intros own. apply safe_calm. intros i s l _ _ HI. by split. Qed.

Lemma K_fault {A} s0 : K s0 (fault (A := A)).
Proof. done. Qed.

(** A write outside the sessions and the log. *)
Lemma K_write (f : PC -> PC) s0 :
  (forall s, (f s).(objs_) = s.(objs_) /\ (f s).(log_) = s.(log_) /\ (f s).(busy_) = s.(busy_) /\
             ((f s).(tasks_) = s.(tasks_) \/ (f s).(tasks_) = [])) -> K s0 (write f).
Proof.
  intros Hf own. apply safe_calm. intros i s l _ _ HI. destruct (Hf s) as (Ho & Hl & Hb & Ht).
  split; [by apply ext_same|]. apply (inv_frame s); try done. destruct Ht as [-> | ->]; [by apply (i_tasks s l)|by apply Forall_nil].
Qed.

Lemma K_act {A} (f : PcAns -> PC -> answer PC A) s0 :
  (forall i s, match f i s with
               | Step a s' => s'.(objs_) = s.(objs_) /\ s'.(log_) = s.(log_) /\ s'.(busy_) = s.(busy_) /\ s'.(tasks_) = s.(tasks_)
               | _ => True
               end) -> K s0 (act f).
Proof.
  intros Hf own. apply safe_calm. intros i s l _ _ HI. specialize (Hf i s). destruct (f i s) as [a s'| |]; [|done|done].
  destruct Hf as (Ho & Hl & Hb & Ht). split; [by apply ext_same|]. apply (inv_frame s); try done. rewrite Ht. by apply (i_tasks s l).
Qed.

(** An action on a session that keeps what the invariant mentions. *)
Definition same_core (x x' : Session) : Prop :=
  x'.(s_ended) = x.(s_ended) /\ x'.(dtls) = x.(dtls) /\ x'.(data) = x.(data) /\ x'.(relay_header) = x.(relay_header).

Lemma K_on_obj {A} o (f : PcAns -> Session -> A * Session) s0 :
  (forall i x, same_core x (f i x).2) -> K s0 (on_obj o f).
Proof.
  intros Hf own. apply safe_calm. intros i s l _ _ HI. destruct (objs_ s !! o) as [x|] eqn:Ex; [|done].
  specialize (Hf i x). destruct (f i x) as [a x']. destruct Hf as (He & Hd & Hda & Hh). cbn [snd] in *.
  split; [by apply ext_same|]. eapply inv_obj; eauto; [by rewrite Hd|]. intros [H1 H2 H3]. split; by rewrite ?Hd, ?Hda, ?Hh.
Qed.

Lemma K_look {A} o (f : Session -> A) s0 : K s0 (look o f).
Proof. apply K_on_obj. by intros i x. Qed.

(** What a look at a session learns that stays true. *)
Lemma look_ok {A} o (f : Session -> A) s0 (P : A -> Prop) own :
  (forall x l, obj_ok l o x -> P (f x)) -> safe (look o f) s0 own (fun a _ o' => o' = own /\ P a).
Proof.
  intros Hf i s others _ _ HI. destruct (objs_ s !! o) as [x|] eqn:Ex; [|done]. split; [by apply ext_same|]. exists own. split.
  - eapply inv_obj; eauto.
  - split; [done|]. eapply Hf, (i_objs s _ HI o x Ex).
Qed.

Lemma K_each {A} (l : list A) body s0 : (forall a s, a ∈ l -> ext s0 s -> K s (body a)) -> K s0 (each l body).
Proof. intros Hb own. apply safe_each; [apply _|]. intros a s Hin He. by apply Hb. Qed.

Lemma K_when b (p : pc unit) s0 : (b = true -> K s0 p) -> K s0 (when b p).
Proof. intros H. destruct b; [by apply H|done]. Qed.

Lemma K_log e s0 :
  (forall o, is_end o e = false) -> (forall l, s0.(log_) `prefix_of` l -> srtp = true -> effect_ok l e) -> K s0 (log e).
Proof.
  intros He Hok own. apply safe_calm. intros i s l _ Hs HI. split; [apply ext_log|]. apply inv_log; [| |done].
  - intros o. unfold end_reports. cbn. by rewrite He.
  - intros E. apply Forall_cons_2; [|by apply Forall_nil_2]. apply Hok; [|done]. etransitivity; [exact Hs|by exists [e]].
Qed.

Lemma K_Post t s0 : (forall l, s0.(log_) `prefix_of` l -> task_ok l t) -> K s0 (Post t).
Proof.
  intros Ht own. apply safe_calm. intros i s l _ Hs HI. destruct (worker_ s); try (by split).
  split; [by apply ext_same|]. apply (inv_frame s); try done. cbn. unfold insert_task.
  assert (H : Forall (task_ok (log_ s)) (tasks_ s)) by (by apply (i_tasks s l)).
  apply Forall_app. split; [by apply Forall_take|]. apply Forall_cons_2; [by apply Ht|by apply Forall_drop].
Qed.

(** Follows the growth of the log from a state to a later one. *)
Ltac chain :=
  unfold ext in *;
  repeat match goal with
         | |- log_ ?a `prefix_of` log_ ?a => reflexivity
         | H : log_ ?a `prefix_of` ?b |- log_ ?a `prefix_of` ?b => exact H
         | H : log_ ?a `prefix_of` _ |- log_ ?a `prefix_of` _ => etransitivity; [exact H|]; clear H
         end.

(** *** The way out *)

Lemma K_send_via_path o d s0 : (srtp = true -> may_leave o s0.(log_) d) -> K s0 (send_via_path o d).
Proof.
  intros Hd. unfold send_via_path. apply K_bind; [apply K_ask|]. intros dropped s1 H1. destruct dropped; [done|].
  apply K_bind; [apply K_look|]. intros [rl en] s2 H2. cbn [fst snd]. destruct en; [done|]. destruct rl.
  - apply K_bind; [apply K_read|]. intros w s3 H3. destruct (_ || _); [done|]. intros own.
    eapply bind_ok; [apply (look_ok _ relay_header _ (fun h => zlen h = kRelayHeaderSize)); intros x l Hx; apply (ok_header _ _ _ Hx)|].
    intros h s4 own' H4 [-> Hh]. apply K_log; [done|]. intros l Hl E. exists o, h, d. split_and!; [done..|].
    eapply may_leave_mono; [|by apply Hd]. chain.
  - apply K_bind; [apply K_look|]. intros a s3 H3. apply K_when. intros _. apply K_log; [done|]. intros l Hl E. cbn.
    eapply may_leave_mono; [|by apply Hd]. chain.
Qed.

Lemma K_on_ice o c s0 : match c with IceSend _ => False | _ => True end -> K s0 (on_ice o c).
Proof.
  intros Hc own. apply safe_calm. intros i s l _ Hs HI. destruct (objs_ s !! o) as [x|]; [|done]. destruct (ice x); [|done].
  split; [apply ext_log|]. apply inv_log; [| |done].
  - by intros o'.
  - intros _. apply Forall_cons_2; [by destruct c|by apply Forall_nil_2].
Qed.

(** A call of the data transport that keeps it guarded. *)
Lemma K_on_data {A} o (f : PcAns -> DataTransport -> A * DataTransport) s0 :
  (forall l i d, s0.(log_) `prefix_of` l -> d.(d_out_) = [] -> guarded (keyed_out o l) (keyed_in o l) d ->
     guarded (keyed_out o l) (keyed_in o l) (f i d).2) -> K s0 (on_data params_ o f).
Proof.
  intros Hf own. unfold on_data. eapply bind_ok with (P := fun r s o' => o' = own /\
    (srtp = true -> Forall (fun x => match x with OutSend d => may_leave o s.(log_) d | _ => True end) r.2)).
  - intros i s others _ Hs HI. destruct (objs_ s !! o) as [x|] eqn:Ex; [|done]. destruct (data x) as [d|] eqn:Ed; [|done].
    destruct (f i d) as [a d'] eqn:Ef. split; [by apply ext_same|]. exists own.
    destruct (ok_data _ _ _ (i_objs s _ HI o x Ex) d Ed) as [Hout Hg].
    assert (Hg' : srtp = true -> guarded (keyed_out o (log_ s)) (keyed_in o (log_ s)) d').
    { intros E. specialize (Hf (log_ s) i d Hs Hout (Hg E)). by rewrite Ef in Hf. }
    split.
    + eapply inv_obj; eauto. intros [H1 H2 H3]. split; [done| |done]. cbn. intros d1 [= <-]. split; [done|].
      intros E. destruct (Hg' E). by split; try done; apply Forall_nil_2.
    + split; [done|]. cbn. intros E. eapply Forall_impl; [apply (g_sealed _ _ _ (Hg' E))|]. intros y Hy. destruct y; try done.
      by right.
  - intros r s1 own' H1 [-> Hr]. eapply bind_ok with (P := fun _ _ o' => o' = own); [|by intros _ s2 o' _ ->].
    apply K_each. intros y s2 Hy H2. destruct y; cbn [data_out]; try done; try (apply K_when; intros _; by apply K_log).
    apply K_send_via_path. intros E. eapply may_leave_mono; [exact H2|]. specialize (Hr E). rewrite Forall_forall in Hr. exact (Hr _ Hy).
Qed.

Lemma K_on_data_ o (f : PcAns -> DataTransport -> DataTransport) s0 :
  (forall Ko Ki i d, guarded Ko Ki d -> adds (sealed Ko Ki) d (f i d)) -> K s0 (on_data_ params_ o f).
Proof.
  intros Hf. apply K_on_data. intros l i d _ _ Hg. cbn. eapply guarded_adds; [exact Hg|]. by apply Hf.
Qed.

(** A question to the data transport. *)
Lemma K_on_data_ask {A} o (f : PcAns -> DataTransport -> A * DataTransport) s0 :
  (forall Ko Ki i d, adds (sealed Ko Ki) d (f i d).2) -> K s0 (on_data params_ o f).
Proof. intros Hf. apply K_on_data. intros l i d _ _ Hg. eapply guarded_adds; [exact Hg|]. apply Hf. Qed.

(** *** Calls of the DTLS transport *)

(** What an action of [DtlsTransport] may hand out, when the fingerprint to expect is [rfp] and [v] is
    known of the session. *)
Definition dtls_out_ok (v : Prop) (rfp : string) (x : DtlsOut) : Prop :=
  match x with
  | Flight d => flight d
  | Published true => v
  | Checked _ fp true => fp = rfp /\ fp <> ""%string
  | _ => True
  end.

Lemma K_dtls_out o x rfp s0 : dtls_out_ok (proved o s0.(log_)) rfp x -> K s0 (dtls_out o x).
Proof.
  intros Hx. destruct x as [d|ok|n fp ok]; cbn [dtls_out] in *.
  - apply K_send_via_path. intros _. by left.
  - apply K_Post. intros l Hl. destruct ok; [|done]. cbn in *. by eapply proved_mono.
  - done.
Qed.

Lemma end_reports_checks o o' l : end_reports o (checks o' l) = 0%nat.
Proof.
  unfold end_reports, checks. induction l as [|x l IH]; [done|]. destruct x; cbn; exact IH.
Qed.

(** One action: [R] is what its answer says of the log. *)
Lemma on_dtls_act {B} o (f : SslAns -> Dtls.DtlsTransport -> answer Dtls.DtlsTransport B) s0 (R : B -> list PcEffect -> Prop) :
  (forall b l l', l `prefix_of` l' -> R b l -> R b l') ->
  (forall i d, good i -> d.(out_) = [] ->
     match f i.(a_ssl) d with
     | Step b d' => d'.(remote_fingerprint_) = d.(remote_fingerprint_) /\
         Forall (dtls_out_ok (proved o s0.(log_)) d.(remote_fingerprint_)) d'.(out_) /\
         (forall l, s0.(log_) `prefix_of` l -> (forall n fp, Checked n fp true ∈ d'.(out_) -> proved o l) -> R b l)
     | _ => True
     end) ->
  forall own, safe (on_dtls o (act f)) s0 own (fun b s o' => o' = own /\ R b s.(log_)).
Proof.
  intros HR Hf own. cbn [on_dtls act].
  intros i s others Hi Hs HI. destruct (objs_ s !! o) as [x|] eqn:Ex; [|done]. destruct (dtls x) as [d|] eqn:Ed; [|done].
  pose proof (ok_dtls _ _ _ (i_objs s _ HI o x Ex) d Ed) as [Hout Hfp].
  specialize (Hf i d Hi Hout). destruct (f (a_ssl i) d) as [b d'| |]; [|done|done]. destruct Hf as (Erfp & Houts & HRb).
  set (es := checks o d'.(out_)).
  assert (Hchk : forall n fp, Checked n fp true ∈ d'.(out_) -> proved o (log_ s ++ es)).
  { intros n fp Hc. rewrite Forall_forall in Houts. destruct (Houts _ Hc) as [-> Hne]. exists n, (remote_fingerprint_ d). split.
    - apply elem_of_app. right. apply list_elem_of_omap. exists (Checked n (remote_fingerprint_ d) true). by split.
    - apply elem_of_app. left. by apply Hfp. }
  split; [exists es; by rewrite app_nil_r || done|]. exists own. split.
  - apply (inv_log (put_obj o _ s) es); [intros o'; apply end_reports_checks| |].
    + intros _. apply Forall_forall. intros e He. apply list_elem_of_omap in He as (y & _ & Hy). by destruct y; simplify_eq.
    + eapply inv_obj; eauto; [done|]. intros [H1 H2 H3]. split; [|done|done]. cbn. intros d1 [= <-]. cbn. split; [done|].
      rewrite Erfp. exact Hfp.
  - eapply bind_ok with (P := fun _ s' o' => o' = own /\ log_ s ++ es `prefix_of` log_ s').
    + eapply weaken_ok.
      * apply K_each. intros y s2 Hy H2. eapply K_dtls_out. rewrite Forall_forall in Houts. specialize (Houts _ Hy).
        destruct y as [y|ok|n fp ok]; cbn in *; try exact Houts. destruct ok; [|done]. eapply proved_mono; [|exact Houts].
        etransitivity; [exact Hs|]. etransitivity; [|exact H2]. by exists es.
      * intros a s2 own2 H2 ->. by split.
    + intros _ s2 own2 H2 [-> Hp]. split; [done|]. eapply HR; [exact Hp|]. apply HRb; [|exact Hchk].
      etransitivity; [exact Hs|]. by exists es.
Qed.

Lemma on_dtls_bind {A B} o (p : Dtls.dtls A) (k : A -> Dtls.dtls B) s0 own P Q :
  safe (on_dtls o p) s0 own P -> (forall a s own, ext s0 s -> P a s own -> safe (on_dtls o (k a)) s own Q) ->
  safe (on_dtls o (p ≫= k)) s0 own Q.
Proof.
  revert s0 own. induction p as [a|C f k' IH]; intros s0 own Hp Hk; [by apply Hk|].
  intros i s others Hi Hs HI. specialize (Hp i s others Hi Hs HI). cbn [on_dtls] in Hp.
  destruct (objs_ s !! o) as [x|]; [|done]. destruct (dtls x) as [d|]; [|done]. destruct (f (a_ssl i) d) as [b d'| |]; [|done|done].
  destruct Hp as (He & own' & HI' & Hp). split; [done|]. exists own'. split; [done|]. cbn [fst snd] in *.
  eapply safe_bind_mono; [apply _|exact Hp|]. intros [] s2 own2 H2 H3. apply (IH b s2 own2 H3). intros a s3 own3 H4.
  apply Hk. etransitivity; [exact Hs|]. etransitivity; [exact He|]. by etransitivity.
Qed.

(** An action that hands out nothing but datagrams. *)
Definition calm_dtls {B} (f : SslAns -> Dtls.DtlsTransport -> answer Dtls.DtlsTransport B) : Prop :=
  forall i d, good i -> d.(out_) = [] ->
    match f i.(a_ssl) d with
    | Step b d' => d'.(remote_fingerprint_) = d.(remote_fingerprint_) /\
        Forall (fun x => match x with Flight y => flight y | _ => False end) d'.(out_)
    | _ => True
    end.

Lemma K_dtls_act {B} o (f : SslAns -> Dtls.DtlsTransport -> answer Dtls.DtlsTransport B) s0 :
  calm_dtls f -> K s0 (on_dtls o (act f)).
Proof.
  intros Hf own. eapply weaken_ok; [apply (on_dtls_act o f s0 (fun _ _ => True))|by intros a s o' _ [-> _]]; [done|].
  intros i d Hi Hout. specialize (Hf i d Hi Hout). destruct (f (a_ssl i) d); [|done|done]. destruct Hf as [H1 H2].
  split_and!; [done| |done]. eapply Forall_impl; [exact H2|]. by intros [].
Qed.

Lemma K_dtls_bind {A B} o (p : Dtls.dtls A) (k : A -> Dtls.dtls B) s0 :
  K s0 (on_dtls o p) -> (forall a s, ext s0 s -> K s (on_dtls o (k a))) -> K s0 (on_dtls o (p ≫= k)).
Proof. intros Hp Hk own. eapply on_dtls_bind; [apply Hp|]. intros a s o' He ->. by apply Hk. Qed.

Lemma K_dtls_read {A} o (f : Dtls.DtlsTransport -> A) s0 : K s0 (on_dtls o (read f)).
Proof. apply K_dtls_act. intros i d _ Hout. rewrite Hout. by split; [|apply Forall_nil_2]. Qed.

Lemma K_dtls_write o (f : Dtls.DtlsTransport -> Dtls.DtlsTransport) s0 :
  (forall d, (f d).(remote_fingerprint_) = d.(remote_fingerprint_) /\ (f d).(out_) = d.(out_)) -> K s0 (on_dtls o (write f)).
Proof. intros Hf. apply K_dtls_act. intros i d _ Hout. destruct (Hf d) as [-> ->]. rewrite Hout. by split; [|apply Forall_nil_2]. Qed.

Lemma K_Restart o s0 : K s0 (on_dtls o Dtls.Restart).
Proof. unfold Dtls.Restart. repeat (apply K_dtls_bind; [by apply K_dtls_write|intros _ ? _]). by apply K_dtls_write. Qed.

Lemma Forall_flights (v : Prop) rfp i : good i -> Forall (dtls_out_ok v rfp) (Flight <$> (a_ssl i).(hs_flights)).
Proof. intros Hi. by apply Forall_fmap. Qed.

Lemma K_HandleTimeout o s0 : K s0 (on_dtls o HandleTimeout).
Proof.
  apply K_dtls_act. intros i d Hi Hout. destruct (ssl_ d); [destruct (_ || _)|]; cbn; rewrite Hout; (split; [done|]);
    try by apply Forall_nil_2. by apply Forall_fmap.
Qed.

Lemma K_ExportSrtpKeys o s0 : K s0 (on_dtls o ExportSrtpKeys).
Proof. apply K_dtls_act. intros i d _ Hout. rewrite Hout. by split; [|apply Forall_nil_2]. Qed.

(** The critical sections that may complete the handshake. *)
Lemma CompleteHandshake_ok i d v :
  Forall (dtls_out_ok v d.(remote_fingerprint_)) d.(out_) ->
  let '(r, d') := CompleteHandshake i d in
  d'.(remote_fingerprint_) = d.(remote_fingerprint_) /\ Forall (dtls_out_ok v d.(remote_fingerprint_)) d'.(out_) /\
  (r = kVerified -> exists n, Checked n d.(remote_fingerprint_) true ∈ d'.(out_)).
Proof.
  intros Hd. unfold CompleteHandshake. destruct (handshake_done_ d); [by split_and!|].
  destruct (peer_cert i) as [digest|]; [|by split_and!]. cbv zeta. destruct (_ || _) eqn:Et; cbn.
  - split_and!; [done| |done]. apply Forall_app. split; [done|]. by apply Forall_cons_2; [|apply Forall_nil_2].
  - apply orb_false_iff in Et as [En Ef]. apply negb_false_iff, String.eqb_eq in Ef. apply String.eqb_neq in En.
    cbn in Ef, En. split_and!; [done| |intros _; eexists; apply elem_of_app; right; rewrite <- Ef; left].
    apply Forall_app. split; [done|]. apply Forall_cons_2; [|by apply Forall_nil_2]. cbn. by rewrite Ef.
Qed.

Lemma ssl_io_ok i d v : good i -> d.(out_) = [] ->
  (ssl_io i.(a_ssl) d).(remote_fingerprint_) = d.(remote_fingerprint_) /\
  Forall (dtls_out_ok v d.(remote_fingerprint_)) (ssl_io i.(a_ssl) d).(out_).
Proof. intros Hi Hd. split; [done|]. cbn. rewrite Hd. by apply Forall_flights. Qed.

(** What such a critical section ends with. *)
Definition locked_ok {B} (o : nat) (s0 : PC) (verdict : B -> Prop) (d : Dtls.DtlsTransport) (r : B * Dtls.DtlsTransport) : Prop :=
  r.2.(remote_fingerprint_) = d.(remote_fingerprint_) /\
  Forall (dtls_out_ok (proved o s0.(log_)) d.(remote_fingerprint_)) r.2.(out_) /\
  (verdict r.1 -> exists n, Checked n d.(remote_fingerprint_) true ∈ r.2.(out_)).

Lemma locked_act {B} o (f : SslAns -> Dtls.DtlsTransport -> B * Dtls.DtlsTransport) (verdict : B -> Prop) s0 own :
  (forall i d, good i -> d.(out_) = [] -> locked_ok o s0 verdict d (f i.(a_ssl) d)) ->
  safe (on_dtls o (act (fun i d => let '(b, d) := f i d in Step b d))) s0 own
    (fun b s o' => o' = own /\ (verdict b -> proved o s.(log_))).
Proof.
  intros Hf. apply (on_dtls_act o _ s0 (fun b l => verdict b -> proved o l)); [intros; eauto using proved_mono|].
  intros i d Hi Hd. destruct (Hf i d Hi Hd) as (E & F & Hv). destruct (f (a_ssl i) d) as [b d']. cbn [fst snd] in *.
  split_and!; [done|done|]. intros l _ Hl Hb. destruct (Hv Hb) as [n Hn]. by eapply Hl.
Qed.

Lemma start_locked_ok o off i d s0 : good i -> d.(out_) = [] ->
  locked_ok o s0 (fun r => r = Some kVerified) d (start_locked off i.(a_ssl) d).
Proof.
  intros Hi Hd. unfold start_locked. cbv zeta.
  assert (Hq : forall d' r, r <> Some kVerified -> remote_fingerprint_ d' = remote_fingerprint_ d -> out_ d' = [] ->
    locked_ok o s0 (fun r => r = Some kVerified) d (r, d')).
  { intros d' r Hr E1 E2. split_and!; cbn; [done|rewrite E2; by apply Forall_nil_2|done]. }
  destruct (ctx_new_ok (a_ssl i)); cbn [negb]; [|by apply Hq].
  destruct (ctx_setup_ok (a_ssl i)); cbn [negb]; [|by apply Hq].
  destruct (ssl_new_ok (a_ssl i)); cbn [negb]; [|by apply Hq].
  set (d0 := d <| is_client_ := _ |> <| ctx_ := _ |> <| ssl_ := _ |> <| ssl_made_ ::= _ |>).
  destruct (ssl_io_ok i d0 (proved o (log_ s0)) Hi Hd) as [E1 F1]. destruct (hs_ret (a_ssl i) =? 1).
  - pose proof (CompleteHandshake_ok (a_ssl i) (ssl_io (a_ssl i) d0) (proved o (log_ s0)) F1) as Hc.
    destruct (CompleteHandshake _ _) as [r d']. destruct Hc as (E2 & F2 & Hv). split_and!; [done|done|].
    cbn. intros [= ->]. by apply Hv.
  - destruct (hs_err (a_ssl i)); (split_and!; [done|exact F1|done]).
Qed.

Lemma incoming_locked_ok o data i d s0 : good i -> d.(out_) = [] ->
  locked_ok o s0 (fun r => r = kVerified) d (incoming_locked data i.(a_ssl) d).
Proof.
  intros Hi Hd. unfold incoming_locked.
  assert (Hq : forall d' r, r <> kVerified -> remote_fingerprint_ d' = remote_fingerprint_ d ->
    Forall (dtls_out_ok (proved o s0.(log_)) d.(remote_fingerprint_)) d'.(out_) ->
    locked_ok o s0 (fun r => r = kVerified) d (r, d')) by done.
  destruct (ssl_ d); [|apply Hq; [done|by destruct (_ <? _)%nat|destruct (_ <? _)%nat; cbn; rewrite Hd; by apply Forall_nil_2]].
  cbv zeta. set (d0 := d <| incoming_ ::= _ |>).
  destruct (ssl_io_ok i d0 (proved o (log_ s0)) Hi Hd) as [E1 F1]. destruct (handshake_done_ d0); [by apply Hq|].
  destruct (hs_ret (a_ssl i) <=? 0); [by destruct (hs_err (a_ssl i)); apply Hq|]. destruct (_ && _); [|by apply Hq].
  pose proof (CompleteHandshake_ok (a_ssl i) (ssl_io (a_ssl i) d0) (proved o (log_ s0)) F1) as Hc.
  destruct (CompleteHandshake _ _) as [r d']. by destruct Hc as (E2 & F2 & Hv).
Qed.

Lemma K_Publish o d s0 : (d = kVerified -> proved o s0.(log_)) -> K s0 (on_dtls o (Publish d)).
Proof.
  intros Hd. destruct d; [done| |].
  - intros own. eapply weaken_ok; [apply (on_dtls_act o _ s0 (fun _ _ => True))|by intros a s o' _ [-> _]]; [done|].
    intros i d Hi Hout. cbn. rewrite Hout. split_and!; [done| |done]. apply Forall_cons_2; [by apply Hd|by apply Forall_nil_2].
  - intros own. eapply weaken_ok; [apply (on_dtls_act o _ s0 (fun _ _ => True))|by intros a s o' _ [-> _]]; [done|].
    intros i d Hi Hout. cbn. rewrite Hout. split_and!; [done| |done]. by apply Forall_cons_2; [|apply Forall_nil_2].
Qed.

Lemma K_Start o off s0 : K s0 (on_dtls o (Dtls.Start off)).
Proof.
  unfold Dtls.Start. apply K_dtls_bind.
  { apply K_dtls_act. intros i d _ Hout. cbn. rewrite Hout. by split; [|apply Forall_nil_2]. }
  intros was s1 _. destruct was; [done|]. apply K_dtls_bind; [apply K_dtls_read|]. intros cert s2 _.
  destruct (negb cert); [apply K_dtls_bind; [by apply K_dtls_write|done]|]. intros own.
  eapply on_dtls_bind; [apply (locked_act o (fun i s => start_locked off i s) (fun r => r = Some kVerified)); intros i d; apply start_locked_ok|].
  intros r s3 own' _ [-> Hr]. destruct r as [d|]; [|done]. apply K_dtls_bind; [apply K_Publish; intros ->; by apply Hr|done].
Qed.

Lemma K_HandleIncoming o data s0 : K s0 (on_dtls o (HandleIncoming data)).
Proof.
  unfold HandleIncoming. destruct (negb _); [done|]. intros own.
  eapply on_dtls_bind; [apply (locked_act o (fun i s => incoming_locked data i s) (fun r => r = kVerified)); intros i d; apply incoming_locked_ok|].
  intros r s3 own' _ [-> Hr]. apply K_dtls_bind; [by apply K_Publish|done].
Qed.

(** ** The methods any thread may run *)

Lemma adds_control Ko Ki i d :
  adds (sealed Ko Ki) d (Init i d) /\ adds (sealed Ko Ki) d (Destroy d) /\
  (forall b, adds (sealed Ko Ki) d (SetTransportReady b d)) /\ (forall b, adds (sealed Ko Ki) d (SetRelayPath b d)) /\
  adds (sealed Ko Ki) d (SetSendFunc d).
Proof. destruct (sealed_control Ko Ki i d) as (? & ? & ? & ? & ?). split_and!; auto. by apply adds_quiet. Qed.

Lemma adds_new streams ssrcs b :
  let d := DataTransport_new streams ssrcs b in
  d.(enable_srtp_) = b /\ d.(srtp_out_) = None /\ d.(srtp_in_) = None /\ d.(d_out_) = [].
Proof.
  assert (H : adds (fun _ => False) (mkData b false [] [] "" None None false false false (-1) 0 0 0 0 0 0 0 0 []) (DataTransport_new streams ssrcs b)).
  { apply adds_fold. intros d' [cfg ssrc]. by apply adds_quiet. }
  destruct H as (He & Ho & Hi & o & Hd & Hf). cbn in *. split_and!; [done..|]. rewrite Hd. destruct o; [done|].
  by apply Forall_cons in Hf as [[] _].
Qed.

(** Walks a method: a bind, a test, an action; what is left are the methods it calls. *)
Ltac K_step :=
  match goal with
  | |- forall own, safe (_ ≫= _) _ own _ => apply K_bind; [|intros ? ? ?]
  | |- forall own, safe (mret _) _ own _ => done
  | |- forall own, safe skip _ own _ => done
  | |- forall own, safe fault _ own _ => done
  | |- forall own, safe (read _) _ own _ => apply K_read
  | |- forall own, safe (FindSession _) _ own _ => apply K_read
  | |- forall own, safe (ask _) _ own _ => apply K_ask
  | |- forall own, safe (look _ _) _ own _ => apply K_look
  | |- forall own, safe (write _) _ own _ => apply K_write; intros ?; by repeat case_match; split_and!; auto
  | |- forall own, safe (on_obj _ _) _ own _ => apply K_on_obj; intros ? ?; by repeat case_match
  | |- forall own, safe (on_ice _ _) _ own _ => by apply K_on_ice
  | |- forall own, safe (on_dtls _ (read _)) _ own _ => apply K_dtls_read
  | |- forall own, safe (when _ _) _ own _ => apply K_when; intros ?
  | |- forall own, safe (each _ _) _ own _ => apply K_each; intros ? ? ? ?
  | |- forall own, safe (log _) _ own _ => by apply K_log
  | |- forall own, safe (if ?b then _ else _) _ own _ => destruct b eqn:?
  | |- forall own, safe (match ?x with _ => _ end) _ own _ => destruct x eqn:?
  | |- forall own, safe (let _ := _ in _) _ own _ => cbv zeta
  end.
Ltac K_auto := repeat K_step.

Lemma K_send_json kvs s0 : K s0 (send_json kvs).
Proof.
  unfold send_json. destruct (dump _ _) as [t|]; [|done]. intros own. apply safe_calm. intros i s l _ Hs HI.
  split; [apply ext_log|]. apply inv_log; [done| |done]. intros _. apply Forall_cons_2; [|by apply Forall_nil_2]. exact I.
Qed.

Lemma K_take_request_id s0 : K s0 take_request_id.
Proof. by apply K_act. Qed.

Lemma K_SendRequest kvs k s0 : K s0 (SendRequest kvs k).
Proof. unfold SendRequest. K_auto; auto using K_send_json, K_take_request_id. Qed.

Lemma K_SendSignal o p s0 : K s0 (SendSignal o p).
Proof. unfold SendSignal. K_auto; auto using K_send_json. Qed.

(** A report of the end uses up the token. *)
Lemma tokens_cons f t l : tokens f (t :: l) = ((if f t then 1 else 0) + tokens f l)%nat.
Proof. unfold tokens. cbn. by destruct (f t). Qed.

Definition due (o : nat) : list Token := if params_.(on_session_status) then [Report o] else [].

Lemma log_end o info s0 own : ending info.(status) = true ->
  safe (log (OnSessionStatus o info)) s0 (Report o :: own) (fun _ _ o' => o' = own).
Proof.
  intros He i s others _ _ HI. split; [apply ext_log|]. exists own. split; [|done].
  destruct HI as [Hr Ht Ho Hf Hb Hs].
  assert (Hp : s.(log_) `prefix_of` s.(log_) ++ [OnSessionStatus o info]) by (by exists [OnSessionStatus o info]).
  split.
  - intros o'. change ((end_reports o' (log_ s ++ [OnSessionStatus o info]) + tokens (is_report o') (own ++ others))%nat =
      (if has_ended o' s && on_session_status params_ then 1 else 0)%nat).
    rewrite <- (Hr o'). change ((Report o :: own) ++ others) with (Report o :: (own ++ others)).
    rewrite end_reports_app, tokens_cons. unfold end_reports at 2. cbn [List.filter is_end is_report].
    rewrite He, andb_true_r. destruct (o' =? o)%nat; cbn; lia.
  - eapply Forall_impl; [exact Ht|]. intros t. by apply task_ok_mono.
  - intros o' x Hx. eapply obj_ok_mono; [exact Hp|]. by apply Ho.
  - intros E. apply Forall_app. split; [eapply Forall_impl; [by apply Hf|]; intros e; by apply effect_ok_mono|].
    apply Forall_cons_2; [|by apply Forall_nil_2]. cbn. intros Hc. by rewrite Hc in He.
  - exact Hb.
  - intros E o' x Hx Hd. specialize (Hs E o' x Hx Hd). by apply elem_of_cons in Hs as [Hs|Hs].
Qed.

Lemma NotifySession_end o st why s0 own : ending st = true ->
  safe (NotifySession params_ o st why) s0 (due o ++ own) (fun _ _ o' => o' = own).
Proof.
  intros He. unfold NotifySession, due. destruct (on_session_status params_); [|done]. cbn [when app].
  eapply bind_ok; [apply K_look|]. intros r s1 o1 _ ->.
  eapply bind_ok with (P := fun _ _ o' => o' = Report o :: own); [destruct r; [apply K_ret|apply K_look]|]. intros p s2 o2 _ ->.
  eapply bind_ok; [apply K_look|]. intros x s3 o3 _ ->. by apply log_end.
Qed.

(** Any other report. *)
Lemma K_NotifySession o st why s0 : ending st = false ->
  (st = MINIRTC_SESSION_CONNECTED -> srtp = true -> proved o s0.(log_)) -> K s0 (NotifySession params_ o st why).
Proof.
  intros He Hp. unfold NotifySession. K_auto. apply K_log.
  - intros o'. cbn. rewrite He. apply andb_false_r.
  - intros l Hl E Hst. eapply proved_mono; [|by apply Hp]. chain.
Qed.

(** Marking a session as ended gives the token to whoever did it. *)
Lemma mark_ended o st s0 own :
  safe (on_obj o (fun _ x => if x.(s_ended) then (true, x) else (false, x <| s_ended := true |> <| s_status := st |>))) s0 own
    (fun was _ o' => o' = if was then own else due o ++ own).
Proof.
  intros i s others _ _ HI. destruct (objs_ s !! o) as [x|] eqn:Ex; [|done]. destruct (s_ended x) eqn:Een.
  - split; [by apply ext_same|]. exists own. split; [|done]. by eapply inv_obj.
  - split; [by apply ext_same|]. exists (due o ++ own). split; [|done]. set (x' := x <| s_ended := true |> <| s_status := st |>).
    destruct HI as [Hr Ht Ho Hf Hb Hs].
    assert (Hlt : (o < length (objs_ s))%nat) by (by eapply lookup_lt_Some).
    split; cbn in *; try done.
    + intros o'. rewrite <- app_assoc, tokens_app. specialize (Hr o'). unfold has_ended, put_obj in *. cbn.
      destruct (decide (o' = o)) as [->|Hne].
      * rewrite list_lookup_insert_eq by done. rewrite Ex, Een in Hr. cbn in Hr |- *. unfold due.
        destruct (on_session_status params_); unfold tokens at 1; cbn; rewrite ?Nat.eqb_refl; cbn; lia.
      * rewrite list_lookup_insert_ne by done. rewrite <- Hr. enough (tokens (is_report o') (due o) = 0%nat) by lia.
        unfold due, tokens. destruct (on_session_status params_); cbn; [|done]. by rewrite (proj2 (Nat.eqb_neq o' o)).
    + intros o' y. unfold put_obj. cbn. destruct (decide (o' = o)) as [->|]; [|rewrite list_lookup_insert_ne by done; apply Ho].
      rewrite list_lookup_insert_eq by done. intros [= <-]. destruct (Ho o x Ex) as [H1 H2 H3]. by split.
    + rewrite <- app_assoc, tokens_app, Hb. unfold due, tokens. by destruct (on_session_status params_).
    + intros E o' y. unfold put_obj. cbn. intros Hy Hd. rewrite <- app_assoc. apply elem_of_app. right.
      destruct (decide (o' = o)) as [->|]; [|rewrite list_lookup_insert_ne in Hy by done; by eapply Hs].
      rewrite list_lookup_insert_eq in Hy by done. injection Hy as <-. by eapply Hs.
Qed.

Lemma K_EndSession o st why notify s0 : ending st = true -> K s0 (EndSession params_ o st why notify).
Proof.
  intros He own. unfold EndSession. eapply bind_ok; [apply mark_ended|]. intros was s1 o1 _ ->. destruct was; [done|].
  eapply bind_ok; [apply K_look|]. intros sid s2 o2 _ ->.
  eapply bind_ok; [apply K_write; intros s; by case_match; split_and!; auto|]. intros _ s3 o3 _ ->.
  eapply bind_ok; [revert s3; intros s3; apply K_when; intros _; K_auto; apply K_SendRequest|]. intros _ s4 o4 _ ->.
  eapply bind_ok; [apply K_look|]. intros d s5 o5 _ ->.
  eapply bind_ok; [apply K_when; intros _; apply K_on_data_; intros Ko Ki i x _; by destruct (adds_control Ko Ki i.(a_data) x) as (?&?&?&?&?)|].
  intros _ s6 o6 _ ->. eapply bind_ok; [apply K_look|]. intros a s7 o7 _ ->.
  eapply bind_ok; [apply K_when; intros _; K_auto|]. intros _ s8 o8 _ ->. by apply NotifySession_end.
Qed.

Lemma K_EndAllSessions why s0 : K s0 (EndAllSessions params_ why).
Proof. unfold EndAllSessions. K_auto. by apply K_EndSession. Qed.

Lemma K_MaybeStartDtls o s0 : K s0 (MaybeStartDtls o).
Proof.
  unfold MaybeStartDtls. K_auto; [apply K_Start|]. by apply K_Post.
Qed.

Lemma K_set_connected o s0 : (srtp = true -> proved o s0.(log_)) -> K s0 (set_connected params_ o).
Proof.
  intros Hp. unfold set_connected. K_auto.
  - apply K_on_data_. intros Ko Ki i x _. by destruct (adds_control Ko Ki i.(a_data) x) as (?&?&?&?&?).
  - apply K_NotifySession; [done|]. intros _ E. eapply proved_mono; [|by apply Hp]. chain.
Qed.

Lemma K_OnPathDatagram o d s0 : K s0 (OnPathDatagram params_ o d).
Proof.
  unfold OnPathDatagram. K_auto; auto using K_MaybeStartDtls, K_HandleIncoming.
  apply K_on_data_. intros Ko Ki i x. apply sealed_OnDatagram.
Qed.

Lemma K_OnWsBinary d s0 : K s0 (OnWsBinary params_ d).
Proof. unfold OnWsBinary. K_auto; [by apply K_Post|apply K_OnPathDatagram]. Qed.

Lemma K_set_remote_fingerprint o fp s0 : K s0 (set_remote_fingerprint o fp).
Proof.
  intros own. apply safe_calm. intros i s l _ Hs HI. destruct (objs_ s !! o) as [x|] eqn:Ex; [|done].
  destruct (dtls x) as [d|] eqn:Ed; [|done]. set (x' := x <| dtls := Some (d <| remote_fingerprint_ := fp |>) |>).
  split; [apply (ext_log (put_obj o x' s))|].
  pose proof (inv_log s [SetRemoteFingerprint o fp] l ltac:(done)
    ltac:(intros _; apply Forall_cons_2; [exact Logic.I|by apply Forall_nil_2]) HI) as HI'.
  change (pc_inv (put_obj o x' (s <| log_ ::= fun k => k ++ [SetRemoteFingerprint o fp] |>)) l).
  eapply inv_obj; eauto; [done|]. intros [H1 H2 H3]. split; [|done|done]. intros d1 [= <-]. cbn. split; [by apply (H1 d)|].
  intros _. apply elem_of_app. right. by left.
Qed.

Lemma K_SendLocalDescription o kind s0 : K s0 (SendLocalDescription params_ o kind).
Proof.
  unfold SendLocalDescription. apply K_bind; [apply K_act; intros i s; destruct (objs_ s !! o) as [x|]; [by destruct (ice x)|done]|]. intros lines s1 _.
  apply K_bind; [apply K_look|]. intros d s2 _. apply K_bind; [destruct d; [|done]|].
  { unfold fmap, prog_fmap. apply (K_bind _ (fun a => Done (Some a))); [apply K_dtls_read|done]. }
  intros fp s3 _. K_auto; [|apply K_SendSignal]. by apply K_on_data_ask.
Qed.

Lemma K_ApplyRemoteDescription o sdp s0 : K s0 (ApplyRemoteDescription params_ o sdp).
Proof.
  unfold ApplyRemoteDescription. K_auto; [apply K_set_remote_fingerprint|].
  apply K_on_data_ask. intros. by apply adds_ParseRemoteStreams.
Qed.

Lemma K_on_data_control o s0 :
  K s0 (on_data_ params_ o (fun i => Init i.(a_data))) /\
  (forall b, K s0 (on_data_ params_ o (fun _ => SetTransportReady b))) /\
  (forall b, K s0 (on_data_ params_ o (fun _ => SetRelayPath b))) /\
  K s0 (on_data_ params_ o (fun _ => SetSendFunc)).
Proof.
  split_and!; intros; apply K_on_data_; intros Ko Ki i x _; by destruct (adds_control Ko Ki i.(a_data) x) as (?&?&?&?&?).
Qed.

(** *** What only the worker runs *)

Notation W s0 p := (safe p s0 [Busy None] (fun _ _ o => o = [Busy None])).

Lemma W_K {A} (p : pc A) s0 : K s0 p -> W s0 p.
Proof. intros H. apply H. Qed.
Lemma W_bind {A B} (p : pc A) (k : A -> pc B) s0 : W s0 p -> (forall a s, ext s0 s -> W s (k a)) -> W s0 (p ≫= k).
Proof. intros Hp Hk. eapply bind_ok; [exact Hp|]. intros a s o He ->. by apply Hk. Qed.
Lemma W_when b (p : pc unit) s0 : (b = true -> W s0 p) -> W s0 (when b p).
Proof. intros H. destruct b; [by apply H|done]. Qed.
Lemma W_each {A} (l : list A) body s0 : (forall a s, a ∈ l -> ext s0 s -> W s (body a)) -> W s0 (each l body).
Proof. intros Hb. apply safe_each; [apply _|]. intros a s Hin He. by apply Hb. Qed.

(** Only one task runs. *)
Lemma busy_once s t o others : pc_inv s ([Busy t] ++ others) -> Busy (Some o) ∈ [Busy t] ++ others -> t = Some o.
Proof.
  intros HI H. apply elem_of_cons in H as [H|H]; [congruence|]. exfalso.
  pose proof (i_busy s _ HI) as Hb. change ([Busy t] ++ others) with (Busy t :: others) in Hb. rewrite tokens_cons in Hb. cbn in Hb.
  assert (Hpos : tokens is_busy others <> 0%nat); [|destruct (busy_ s); lia].
  apply list_elem_of_In in H. unfold tokens. intros E. apply length_zero_iff_nil in E.
  assert (Hin : In (Busy (Some o)) (List.filter is_busy others)) by (by apply filter_In). by rewrite E in Hin.
Qed.

(** Outside the making of a session, with SRTP every session has its DTLS transport. *)
Lemma look_dtls o s0 :
  safe (look o (fun x => bool_decide (is_Some x.(dtls)))) s0 [Busy None]
    (fun b _ o' => o' = [Busy None] /\ (srtp = true -> b = true)).
Proof.
  intros i s others _ _ HI. destruct (objs_ s !! o) as [x|] eqn:Ex; [|done]. split; [by apply ext_same|]. exists [Busy None].
  split; [by eapply inv_obj|]. split; [done|]. intros E. destruct (dtls x) eqn:Ed; [by apply bool_decide_eq_true|].
  by pose proof (busy_once s None o others HI (i_started s _ HI E o x Ex Ed)).
Qed.

Lemma W_OnPathReady o s0 : W s0 (OnPathReady params_ o).
Proof.
  unfold OnPathReady. eapply bind_ok; [apply look_dtls|]. intros d s1 o1 _ [-> Hd]. destruct d; [apply K_MaybeStartDtls|].
  apply K_set_connected. intros E. by specialize (Hd E).
Qed.

Lemma W_SwitchToRelay o s0 : W s0 (SwitchToRelay params_ o).
Proof.
  unfold SwitchToRelay. apply W_bind; [apply W_K; K_auto|]. intros go s1 _. destruct (negb go); [done|].
  apply W_bind; [apply W_K, K_SendSignal|]. intros _ s2 _. apply W_bind; [apply W_K; K_auto|]. intros d s3 _.
  apply W_bind; [apply W_K; K_auto; apply K_Restart|]. intros _ s4 _. destruct (K_on_data_control o s4) as (_ & Hr & _).
  apply W_bind; [apply W_K, Hr|]. intros _ s5 _. destruct (K_on_data_control o s5) as (_ & _ & Hp & _).
  apply W_bind; [apply W_K, Hp|]. intros _ s6 _. apply W_OnPathReady.
Qed.

Lemma log_adds e s0 own :
  (forall o, is_end o e = false) -> (forall l, s0.(log_) `prefix_of` l -> srtp = true -> effect_ok l e) ->
  safe (log e) s0 own (fun _ s o' => o' = own /\ e ∈ s.(log_)).
Proof.
  intros He Hok i s others _ Hs HI. split; [apply ext_log|]. exists own. split.
  - apply inv_log; [| |done].
    + intros o. unfold end_reports. cbn. by rewrite He.
    + intros E. apply Forall_cons_2; [|by apply Forall_nil_2]. apply Hok; [|done]. etransitivity; [exact Hs|by exists [e]].
  - split; [done|]. cbn. apply elem_of_app. right. by left.
Qed.

Lemma K_OnDtlsDone o ok s0 : (ok = true -> proved o s0.(log_)) -> K s0 (OnDtlsDone params_ o ok).
Proof.
  intros Hp. unfold OnDtlsDone. destruct ok; [|by apply K_EndSession]. specialize (Hp eq_refl). cbn [negb].
  apply K_bind; [apply K_ExportSrtpKeys|]. intros k s1 H1.
  apply K_bind; [destruct k as [k|]; [|done]|].
  - intros own. eapply bind_ok; [apply log_adds; [done|]; intros l Hl _; eapply proved_mono; [|exact Hp]; chain|].
    intros _ s2 o2 H2 [-> Hk]. apply K_on_data. intros l i d Hl Hd Hg. apply guarded_keys; [| |done].
    + exists k. split; [by eapply prefix_elem|done].
    + exists k. split; [by eapply prefix_elem|done].
  - intros ok s2 H2. destruct (negb ok); [by apply K_EndSession|]. apply K_set_connected. intros _. eapply proved_mono; [|exact Hp]. chain.
Qed.

(** Making a session. *)
Lemma push_session x s0 :
  x.(s_ended) = false -> x.(dtls) = None -> x.(data) = None -> zlen x.(relay_header) = kRelayHeaderSize ->
  safe (act (fun _ s => Step (length s.(objs_)) (s <| objs_ ::= fun l => l ++ [x] |>))) s0 [Busy None]
    (fun o _ o' => o' = [Busy (Some o)]).
Proof.
  intros Hx Hd Hda Hh i s others _ _ HI. split; [by apply ext_same|]. exists [Busy (Some (length (objs_ s)))]. split; [|done].
  pose proof (busy_once s None) as Hone. pose proof HI as [Hr Ht Ho Hf Hb Hs].
  assert (Hlook : forall o y, (objs_ s ++ [x]) !! o = Some y -> objs_ s !! o = Some y \/ o = length (objs_ s) /\ y = x).
  { intros o y Hy. apply lookup_app_Some in Hy as [Hy|[Hl Hy]]; [by left|right]. apply list_lookup_singleton_Some in Hy as [Hz ->].
    split; [lia|done]. }
  split; cbn in *; try done.
  - intros o. rewrite tokens_cons. specialize (Hr o). rewrite tokens_cons in Hr. cbn [is_report] in *. rewrite Hr. unfold has_ended. cbn.
    destruct (lt_eq_lt_dec o (length (objs_ s))) as [[Hlt| ->]|Hgt].
    + by rewrite lookup_app_l.
    + rewrite lookup_app_r, Nat.sub_diag, (lookup_ge_None_2 (objs_ s)) by lia. cbn. by rewrite Hx.
    + rewrite !lookup_ge_None_2; [done|rewrite length_app; cbn; lia|lia].
  - intros o y Hy. destruct (Hlook o y Hy) as [Hy'|[-> ->]]; [by apply Ho|]. split; [| |done]; congruence.
  - intros E o y Hy Hyd. destruct (Hlook o y Hy) as [Hy'|[-> ->]]; [|left].
    by pose proof (Hone o others HI (Hs E o y Hy' Hyd)).
Qed.

Lemma zlen_relay_header sid : zlen (relay_header_of sid) = kRelayHeaderSize.
Proof.
  unfold relay_header_of. cbv zeta. set (n := Z.min 16 (zlen sid)). assert (Hn : 0 <= n <= zlen sid /\ n <= 16) by (pose proof (zlen_nonneg sid); lia).
  rewrite !zlen_app, zlen_ztake, zlen_replicate by lia. unfold zlen at 1. cbn. unfold kRelayHeaderSize. lia.
Qed.

(** The session being made gets its DTLS transport: the worker goes on as in any other task. *)
Lemma made s o x' l others :
  (forall o', o' <> o -> (put_obj o x' s).(objs_) !! o' = s.(objs_) !! o') -> l = [Busy (Some o)] \/ l = [Busy None] ->
  (srtp = true -> x'.(dtls) <> None) ->
  pc_inv s (l ++ others) -> pc_inv (put_obj o x' s) (l ++ others) -> pc_inv (put_obj o x' s) ([Busy None] ++ others).
Proof.
  intros Hsame Hl Hx HI HI'. pose proof (busy_once s) as Hone. pose proof HI' as [Hr Ht Ho Hf Hb Hs]. split; try done.
  - intros o1. rewrite <- Hr. f_equal. by destruct Hl as [-> | ->].
  - rewrite <- Hb. by destruct Hl as [-> | ->].
  - intros E o1 y Hy Hd. destruct (decide (o1 = o)) as [->|Hne].
    + unfold put_obj in Hy. cbn in Hy. apply list_lookup_insert_Some in Hy as [(_ & <- & _)|[? _]]; [|done]. by destruct (Hx E).
    + rewrite Hsame in Hy by done. pose proof (i_started s _ HI E o1 y Hy Hd) as Hin.
      destruct Hl as [-> | ->]; by pose proof (Hone _ o1 others HI Hin); simplify_eq.
Qed.

Lemma put_other o x s o' : o' <> o -> (put_obj o x s).(objs_) !! o' = s.(objs_) !! o'.
Proof. intros Hne. unfold put_obj. cbn. by rewrite list_lookup_insert_ne. Qed.

Lemma new_dtls o s0 :
  safe (when params_.(p_enable_srtp) (on_obj o (fun i x => (tt, x <| dtls := Some (DtlsTransport_new i.(a_cert)) |>))))
    s0 [Busy (Some o)] (fun _ _ o' => o' = if params_.(p_enable_srtp) then [Busy None] else [Busy (Some o)]).
Proof.
  destruct (p_enable_srtp params_) eqn:E; [|done]. intros i s others _ _ HI. destruct (objs_ s !! o) as [x|] eqn:Ex; [|done].
  split; [by apply ext_same|]. exists [Busy None]. split; [|done].
  eapply (made s o _ [Busy (Some o)]); [apply put_other|by left|done|exact HI|].
  eapply inv_obj; eauto; [done|]. intros [H1 H2 H3]. split; [|done|done]. cbn. intros d1 [= <-].
  unfold DtlsTransport_new. cbn. by split.
Qed.

Lemma new_ice o s0 :
  safe (act (fun _ s => match s.(objs_) !! o with
                        | Some x => Step tt ((put_obj o (x <| ice := true |>) s)
                                             <| log_ ::= fun l => l ++ [Ice o (IceNew (ice_config params_ x))] |>)
                        | None => Fault
                        end))
    s0 (if params_.(p_enable_srtp) then [Busy None] else [Busy (Some o)]) (fun _ _ o' => o' = [Busy None]).
Proof.
  set (own := if params_.(p_enable_srtp) then [Busy None] else [Busy (Some o)]). intros i s others _ _ HI. destruct (objs_ s !! o) as [x|] eqn:Ex; [|done].
  set (x' := x <| ice := true |>). split; [apply (ext_log (put_obj o x' s))|]. exists [Busy None]. split; [|done].
  change (pc_inv ((put_obj o x' s) <| log_ ::= fun l => l ++ [Ice o (IceNew (ice_config params_ x))] |>) ([Busy None] ++ others)).
  apply inv_log; [done|intros _; apply Forall_cons_2; [exact Logic.I|by apply Forall_nil_2]|].
  assert (HI' : pc_inv (put_obj o x' s) (own ++ others)) by (eapply inv_obj; eauto; intros [H1 H2 H3]; by split).
  destruct (p_enable_srtp params_) eqn:E; [exact HI'|]. subst own.
  eapply (made s o _ [Busy (Some o)]); [apply put_other|by left|by rewrite E|exact HI|exact HI'].
Qed.

Lemma StartSession_ok o s0 : safe (StartSession params_ o) s0 [Busy (Some o)] (fun _ _ o' => o' = [Busy None]).
Proof.
  unfold StartSession. eapply bind_ok; [apply K_read|]. intros streams s1 o1 _ ->.
  eapply bind_ok with (P := fun (_ : unit) _ o' => o' = [Busy (Some o)]).
  { intros i s others _ _ HI. destruct (objs_ s !! o) as [x|] eqn:Ex; [|done]. split; [by apply ext_same|].
    exists [Busy (Some o)]. split; [|done]. eapply inv_obj; eauto. intros [H1 H2 H3]. split; [done| |done]. cbn. intros d1 [= <-].
    destruct (adds_new streams (a_ssrcs i) params_.(p_enable_srtp)) as (Hen & Hout & Hin & Hd). split; [done|].
    intros E. by split; rewrite ?Hen, ?Hout, ?Hin, ?Hd; try done; apply Forall_nil_2. }
  intros _ s2 o2 _ ->. destruct (K_on_data_control o s2) as (Hi & _).
  eapply bind_ok; [apply Hi|]. intros _ s3 o3 _ ->. eapply bind_ok; [apply new_dtls|]. intros _ s4 o4 _ ->.
  eapply bind_ok; [apply new_ice|]. intros _ s5 o5 _ ->. destruct (K_on_data_control o s5) as (_ & _ & _ & Hs).
  apply W_bind; [apply W_K, Hs|]. intros _ s6 _. apply W_bind; [apply W_K; K_auto|]. intros off s7 _.
  destruct (p_force_ws_relay params_).
  - apply W_bind; [apply W_K; K_auto; apply K_SendLocalDescription|]. intros _ s8 _. apply W_SwitchToRelay.
  - apply W_K. K_auto. apply K_SendLocalDescription.
Qed.

Lemma W_HandleSessionStart j s0 : W s0 (HandleSessionStart params_ j).
Proof.
  unfold HandleSessionStart. cbv zeta. destruct (String.eqb _ ""); [done|].
  apply W_bind; [apply W_K; K_auto|]. intros _ s1 _. apply W_bind; [apply W_K; K_auto|]. intros meta s2 _.
  apply W_bind; [apply W_K; K_auto|]. intros servers s3 _. apply W_bind; [apply W_K; K_auto|]. intros now s4 _.
  eapply bind_ok; [apply push_session; [done..|apply zlen_relay_header]|]. intros o s5 o5 _ ->.
  eapply bind_ok with (P := fun (_ : option nat) _ o' => o' = [Busy (Some o)]).
  { apply safe_calm. intros i s l _ _ HI. destruct (sm_find _ _); (split; [by apply ext_same|]); [done|].
    apply (inv_frame s); try done. by apply (i_tasks s l). }
  intros old s6 o6 _ ->. eapply bind_ok with (P := fun (_ : unit) _ o' => o' = [Busy (Some o)]).
  { destruct old as [prev|]; [|done]. eapply bind_ok; [by apply K_EndSession|]. intros _ s7 o7 _ ->.
    apply K_write. intros s. by split_and!; auto. }
  intros _ s7 o7 _ ->. eapply bind_ok; [apply K_look|]. intros x s8 o8 _ ->.
  eapply bind_ok with (P := fun (_ : unit) _ o' => o' = [Busy (Some o)]).
  { unfold NotifyClaim, NotifyShare. case_match; apply K_when; intros _; by apply K_log. }
  intros _ s9 o9 _ ->. eapply bind_ok; [by apply K_NotifySession|]. intros _ s10 o10 _ ->. apply StartSession_ok.
Qed.

Lemma W_HandleSignal j s0 : W s0 (HandleSignal params_ j).
Proof.
  unfold HandleSignal. apply W_bind; [apply W_K, K_read|]. intros r s1 _. destruct r as [o|]; [|done].
  destruct (Json.find j "payload") as [p|]; [|done]. destruct (negb _); [done|]. destruct (contains p "sdp").
  { apply W_K. K_auto; [apply K_ApplyRemoteDescription|by apply K_EndSession|apply K_SendLocalDescription]. }
  destruct (contains p "candidate"); [apply W_K; K_auto|].
  destruct (contains p "candidates_done"); [apply W_K; K_auto|]. destruct (contains p "relay"); [|done].
  apply W_when. intros _. apply W_SwitchToRelay.
Qed.

Lemma W_OnIceState o st s0 : W s0 (OnIceState params_ o st).
Proof.
  assert (Hup : W s0 (OnIceState params_ o kConnected)).
  { cbn [OnIceState]. apply W_bind; [apply W_K; K_auto|]. intros [first|] s1 _; [|done].
    apply W_bind; [apply W_K, K_act; intros i s; destruct (objs_ s !! o) as [x|]; [by destruct (ice x)|done]|]. intros relayed s2 _.
    apply W_bind; [apply W_K; K_auto; by apply K_on_data_ask|]. intros change s3 _.
    apply W_bind; [apply W_K, K_when; intros _; by destruct (K_on_data_control o s3) as (_ & _ & Hp & _)|]. intros _ s4 _.
    apply W_when. intros _. apply W_OnPathReady. }
  destruct st; try done. cbn [OnIceState]. apply W_bind; [apply W_K; K_auto|]. intros r s1 _. destruct r; [done|].
  destruct (p_enable_ws_relay params_); [apply W_SwitchToRelay|]. by apply W_K, K_EndSession.
Qed.

Lemma K_check_dtls o x now s0 : K s0 (check_dtls params_ o x now).
Proof. unfold check_dtls. K_auto; auto using K_MaybeStartDtls, K_HandleTimeout. by apply K_EndSession. Qed.

Lemma K_report_stats o x now s0 : K s0 (report_stats params_ o x now).
Proof. unfold report_stats. K_auto. apply K_on_data_ask. intros. by apply adds_quiet. Qed.

Lemma W_Housekeeping s0 : W s0 (Housekeeping params_).
Proof.
  unfold Housekeeping. apply W_bind; [apply W_K; K_auto|]. intros all s1 _. apply W_bind; [apply W_K; K_auto|]. intros now s2 _.
  apply W_each. intros o s3 _ _. unfold housekeep. apply W_bind; [apply W_K; K_auto|]. intros x s4 _.
  destruct (s_ended x); [done|]. destruct (_ && _).
  - destruct (p_enable_ws_relay params_); [apply W_SwitchToRelay|]. by apply W_K, K_EndSession.
  - apply W_bind; [apply W_K, K_check_dtls|]. intros go s5 _. apply W_when. intros _. apply W_K, K_report_stats.
Qed.

Lemma K_signal_dropped st out s0 : K s0 (signal_dropped params_ st out).
Proof. unfold signal_dropped. K_auto. apply K_EndAllSessions. Qed.

Lemma K_OnWsStatus st s0 : K s0 (OnWsStatus params_ st).
Proof. destruct st; cbn [OnWsStatus]; try apply K_signal_dropped. K_auto; [apply K_take_request_id|apply K_send_json]. Qed.

Lemma K_NotifyClaim r a b c s0 : K s0 (NotifyClaim params_ r a b c).
Proof. unfold NotifyClaim. K_auto. Qed.
Lemma K_NotifyShare e a b n c s0 : K s0 (NotifyShare params_ e a b n c).
Proof. unfold NotifyShare. K_auto. Qed.

Lemma K_HandleSessionEnd j s0 : K s0 (HandleSessionEnd params_ j).
Proof. unfold HandleSessionEnd. K_auto. apply K_EndSession. by destruct (String.eqb _ _). Qed.

Lemma K_HandleError j s0 : K s0 (HandleError params_ j).
Proof.
  unfold HandleError. cbv zeta. apply K_bind; [apply K_act; intros i s; by destruct (zm_find _ _)|]. intros k s1 _.
  K_auto; auto using K_NotifyShare, K_NotifyClaim.
Qed.

Lemma W_OnWsText t s0 : W s0 (OnWsText params_ t).
Proof.
  unfold OnWsText. cbv zeta. destruct (is_discarded _); [done|].
  repeat (destruct (String.eqb _ _); [first [apply W_HandleSessionStart|apply W_HandleSignal|apply W_K, K_HandleSessionEnd|apply W_K, K_HandleError|
    apply W_K; unfold HandleWelcome, HandleShareCreated, HandleShareClosed;
    K_auto; auto using K_NotifyShare, K_NotifyClaim, K_send_json]|]); try done.
Qed.

(** *** Tasks and entries *)

Lemma K_lock_session o s0 : K s0 (lock_session o).
Proof. unfold lock_session. K_auto. Qed.

Lemma W_run_pc_task t s0 : task_ok s0.(log_) t -> W s0 (run_pc_task params_ t).
Proof.
  intros Ht. destruct t; cbn [run_pc_task task_ok] in *.
  - apply W_K, K_OnWsStatus.
  - apply W_OnWsText.
  - apply W_bind; [apply W_Housekeeping|]. intros _ s1 _. apply W_K. K_step.
  - apply W_bind; [apply W_K, K_lock_session|]. intros l s1 H1. apply W_when. intros _. apply W_K, K_OnDtlsDone.
    intros ->. by eapply proved_mono.
  - apply W_bind; [apply W_K, K_lock_session|]. intros l s1 H1. apply W_when. intros _. apply W_OnIceState.
  - apply W_bind; [apply W_K, K_lock_session|]. intros l s1 H1. apply W_when. intros _. apply W_K, K_SendSignal.
  - apply W_bind; [apply W_K, K_lock_session|]. intros l s1 H1. apply W_when. intros _. apply W_K, K_SendSignal.
  - by apply W_K, K_EndSession.
  - apply W_SwitchToRelay.
Qed.

Lemma tasks_safe s l p s' : pc_inv s l -> next_task params_ s = Some (p, s') ->
  ext s s' /\ exists own, pc_inv s' (own ++ l) /\ safe p s' own clean.
Proof.
  intros HI. unfold next_task. destruct (busy_ s) eqn:Eb; [done|]. destruct (worker_ s); [done| |];
    (destruct (tasks_ s) as [|t ts] eqn:Et; [done|]; intros [= <- <-]).
  all: split; [by apply ext_same|]; exists [Busy None]; split.
  all: pose proof HI as [Hr Ht Ho Hf Hb Hs]; rewrite Et in Ht; apply Forall_cons in Ht as [Ht Hts].
  1,3: split; cbn in *; try done;
    [rewrite tokens_cons; cbn; by rewrite Hb, Eb|intros E o x Hx Hd; apply elem_of_cons; right; by eapply Hs].
  all: eapply bind_ok; [apply W_run_pc_task; exact Ht|]; intros _ s1 o1 _ ->.
  all: intros i s2 others _ _ HI2; split; [by apply ext_same|]; exists []; split; [|done].
  all: pose proof (busy_once s2 None) as Hone; pose proof HI2 as [Hr2 Ht2 Ho2 Hf2 Hb2 Hs2].
  all: change ([Busy None] ++ others) with (Busy None :: others) in *; rewrite tokens_cons in Hb2; cbn in Hb2.
  all: split; cbn in *; try done; [destruct (busy_ s2); lia|].
  all: intros E o x Hx Hd; by pose proof (Hone o others HI2 (Hs2 E o x Hx Hd)).
Qed.

Lemma K_accepted kvs k s0 : K s0 (accepted <$> SendRequest kvs k).
Proof. unfold fmap, prog_fmap. apply (K_bind _ (fun n => Done (accepted n))); [apply K_SendRequest|done]. Qed.

Lemma K_Disconnect s0 : K s0 (Disconnect params_).
Proof.
  unfold Disconnect. apply K_bind; [K_auto|]. intros _ s1 _. apply K_bind.
  { apply K_write. intros s. destruct (worker_ s); by split_and!; auto. }
  intros _ s2 _. apply K_bind.
  { apply K_act. intros i s. destruct (worker_ s); [done| |];
    (destruct (tasks_ s) eqn:Et; [destruct (busy_ s) eqn:Eb|]; [done|by split_and!; congruence|done]). }
  intros _ s3 _. apply K_bind; [apply K_EndAllSessions|]. intros _ s4 _. K_auto.
Qed.

Lemma K_MiniRtcCall c s0 : K s0 (MiniRtcCall params_ c).
Proof.
  destruct c; cbn [MiniRtcCall]; [done| | | |apply K_Disconnect| | | | | |].
  - destruct (String.eqb _ _); [done|]. unfold AddDataStream. K_auto. apply K_act. intros i s2. by destruct (existsb _ _).
  - apply K_act. intros i s. by destruct (set_window _ _ _).
  - unfold PcConnect. K_auto. intros own. apply safe_calm. intros i st l _ _ HI. split; [apply ext_log|].
    apply inv_log; [done| |done]. intros _. apply Forall_cons_2; [exact Logic.I|by apply Forall_nil_2].
  - unfold CreateShare. cbv zeta. K_auto; apply K_accepted.
  - apply K_accepted.
  - cbv zeta. destruct (_ && _); [done|]. apply K_accepted.
  - unfold Leave. K_auto. by apply K_EndSession.
  - destruct (_ =? _); [done|]. unfold PcSend. K_auto. apply K_on_data_ask. intros. apply sealed_Send.
  - unfold GetLinkEstimate. K_auto. by apply K_on_data_ask.
Qed.

Lemma entries_safe e s0 : safe (pc_entry params_ e) s0 [] clean.
Proof.
  assert (H : forall p : pc unit, K s0 p -> safe p s0 [] clean) by (intros p Hp; exact (Hp [])).
  apply H. destruct e; cbn [pc_entry]; unfold if_there.
  - apply K_bind; [apply K_MiniRtcCall|]. intros rc s1 _. by apply K_log.
  - K_auto. by apply K_Post.
  - K_auto. by apply K_Post.
  - K_auto. apply K_OnWsBinary.
  - unfold PcProcess. K_auto; [|by apply K_Post]. by apply K_act.
  - K_auto. by apply K_Post.
  - K_auto. by apply K_Post.
  - K_auto. by apply K_Post.
  - K_auto; [apply K_lock_session|apply K_OnPathDatagram].
  - K_auto. apply K_on_data_. intros Ko Ki i x. apply sealed_OnPacedPacket.
  - K_auto. apply K_on_data_. intros Ko Ki i x _. by destruct (sealed_control Ko Ki i.(a_data) x) as (?&?&?&?&?).
  - K_auto. apply K_on_data_. intros Ko Ki i x. apply sealed_SendRtcp.
  - K_auto. apply K_on_data_. intros Ko Ki i x _. apply sealed_Process.
Qed.

Lemma pc_inv_new : pc_inv PC_new [].
Proof. by split; try done. Qed.

Lemma pc_invariant xs : Forall (good_step good) xs ->
  let c := pc_run params_ PC_new xs in exists l, pc_inv c.(shared) l /\ (quiet c -> l = []).
Proof.
  intros Hxs. apply (pool_invariant good ext pc_inv); [apply pc_inv_perm|apply entries_safe|apply tasks_safe|apply pc_inv_new|exact Hxs].
Qed.

End inv.
