(* ===== verification/PeerConnectionRuns.v ===== *)
(** * What sessions promise, and when they do not ([minirtc/src/pc/peer_connection.cpp])

    The consequences of the invariant of [PeerConnectionProofs] for every schedule, the round trips of the
    relay frame and of the description, and schedules on which a session goes wrong: a handshake that
    finishes after the switch to the relay, a relay frame that meets a session being made, a session that
    is closed while its handshake is taken over, and a relay that nobody ends. *)
From S2P Require Import Peer.
From S2P Require Export PeerConnectionProofs.
#[local] Open Scope Z_scope.

(** ** Definitions *)

(** The datagrams of a handshake that the environment hands out in a schedule. *)
Definition flights_of (x : sched PcAns PcEvent) : list bytes :=
  match x with Enter _ => [] | Run _ i | Work i => i.(a_ssl).(hs_flights) end.
Definition is_flight (xs : list (sched PcAns PcEvent)) (d : bytes) : Prop := exists x, x ∈ xs /\ d ∈ flights_of x.

(** A round of the timer: it enters as thread [t], and the worker takes the task. *)
Definition timer_round (t : nat) (i : PcAns) : list (sched PcAns PcEvent) :=
  Enter CbTimer :: replicate 3 (Run t i) ++ replicate 16 (Work i).
Fixpoint timer_rounds (t : nat) (l : list PcAns) : list (sched PcAns PcEvent) :=
  match l with [] => [] | i :: l => timer_round t i ++ timer_rounds (S t) l end.

(** *** Samples *)

Definition sample_obj (kvs : list (string * jtree)) : jtree := JT (VObject (list_to_map kvs)).
Definition sample_str (s : string) : jtree := JT (VString s).
Definition sample_sid : string := "0123456789abcdef".
Definition sample_offer : string := of_sbytes (text [fingerprint_prefix ++ hex_colons (seqZ 0 32)]).
Definition sample_signal (payload : jtree) : jtree :=
  sample_obj [("type", sample_str "signal"); ("session_id", sample_str sample_sid); ("payload", payload)]%string.
(** The texts of the server, by short names. *)
Definition sample_texts (t : string) : jtree :=
  if String.eqb t "welcome" then sample_obj [("type", sample_str "welcome"); ("peer_id", sample_str "p1")]%string
  else if String.eqb t "start" then
    sample_obj [("type", sample_str "session_start"); ("session_id", sample_str sample_sid); ("role", sample_str "sender")]%string
  else if String.eqb t "offer" then sample_signal (sample_obj [("sdp", sample_str sample_offer); ("kind", sample_str "offer")]%string)
  else if String.eqb t "relay" then sample_signal (sample_obj [("relay", JT (VBool true))]%string)
  else JT VDiscarded.
#[local] Instance SampleJson : JsonLib := JsonTreeWith sample_texts.
#[local] Instance SampleSrtp : SrtpLib := {|
  srtp_protect p z b := Some (b ++ p.(srtp_key)); srtp_unprotect p z b := Some b;
  srtp_protect_rtcp p z b := Some b; srtp_unprotect_rtcp p z b := Some b |}.

Definition sample_params : PeerParams :=
  mkPeerParams "h" 443 true "" MINIRTC_TURN_AUTO true false true false 15000 "a" "1" "x" true true true true true true true.
Definition sample_data : DataAns := mkDataAns 0 0 true 0 true false true [] [] 0.
Definition sample_ans (ssl : SslAns) : PcAns :=
  mkPcAns 1000 true 0 (sbytes "a=ice-ufrag:x") false false 99 ssl sample_data [] (Some (Some (seqZ 1 32))).
Definition hs_waits : SslAns :=
  mkSsl true true true (-1) SSL_ERROR_WANT_READ false 1 [[22]] None (Some "SRTP_AEAD_AES_128_GCM"%string) (Some (seqZ 0 56)).
Definition hs_completes : SslAns :=
  mkSsl true true true 1 SSL_ERROR_OTHER true 1 [] (Some (Some (seqZ 0 32))) (Some "SRTP_AEAD_AES_128_GCM"%string) (Some (seqZ 0 56)).

Definition works (n : nat) : list (sched PcAns PcEvent) := replicate n (Work (sample_ans hs_waits)).
Definition enters (t : nat) (e : PcEvent) (n : nat) (i : SslAns) : list (sched PcAns PcEvent) :=
  Enter e :: replicate n (Run t (sample_ans i)).
Definition sample_run (xs : list (sched PcAns PcEvent)) : Pool PcAns PC := pc_run sample_params PC_new xs.

(** A connection that was welcomed and told of a session; [n] actions of the worker later. *)
Definition told (n : nat) : list (sched PcAns PcEvent) :=
  enters 0 (CallRtc MiniRtcConnect) 9 hs_waits ++ enters 1 (CbText "welcome") 3 hs_waits ++ works 20
  ++ enters 2 (CbText "start") 3 hs_waits ++ works n.
(** The session got its description and its path; the handshake is under way. *)
Definition shaking : list (sched PcAns PcEvent) :=
  told 60 ++ enters 3 (CbText "offer") 3 hs_waits ++ works 60 ++ enters 4 (CbIceState 0 kConnected) 3 hs_waits ++ works 60.
(** The handshake completes; the worker has not heard of it. *)
Definition shaken : list (sched PcAns PcEvent) := shaking ++ enters 5 (CbIceRecv 0 sample_record) 30 hs_completes.
(** The session is connected, sends a packet and is left. *)
Definition whole : list (sched PcAns PcEvent) :=
  shaken ++ works 40 ++ enters 6 (CbPaced 0 [1; 2; 3]) 9 hs_waits ++ enters 7 (CallRtc (MiniRtcLeave sample_sid)) 40 hs_waits.

(** The statuses reported of a session, and the reason of the last report. *)
Definition statuses (o : nat) (l : list PcEffect) : list MiniRtcSessionStatus :=
  omap (fun e => match e with OnSessionStatus o' info => if Nat.eqb o o' then Some info.(status) else None | _ => None end) l.
Definition reasons (o : nat) (l : list PcEffect) : list string :=
  omap (fun e => match e with OnSessionStatus o' info => if Nat.eqb o o' then Some info.(reason) else None | _ => None end) l.
Definition finished (c : Pool PcAns PC) : bool :=
  forallb (fun p => match p with Done _ => true | Act _ _ _ => false end) (c.(worker) :: c.(threads)) && negb c.(dead).

(** *** Schedules on which a session goes wrong *)

(** The session is switched to the relay, in the queue of the worker, before the handshake completes. *)
Definition stale : list (sched PcAns PcEvent) :=
  shaking ++ enters 5 (CbText "relay") 3 hs_waits ++ enters 6 (CbIceRecv 0 sample_record) 30 hs_completes ++ works 100.
(** The owner leaves while the worker handles the result of the handshake. *)
Definition closing : list (sched PcAns PcEvent) :=
  shaken ++ works 5 ++ enters 6 (CallRtc (MiniRtcLeave sample_sid)) 40 hs_waits ++ works 40.
(** A frame of the peer comes while the worker makes the session. *)
Definition early_frame : list (sched PcAns PcEvent) :=
  told 5 ++ enters 3 (CbBinary (relay_header_of (sbytes sample_sid) ++ [0])) 9 hs_waits.
(** The peer asks for the relay and never describes itself. *)
Definition relayed : list (sched PcAns PcEvent) := told 60 ++ enters 3 (CbText "relay") 3 hs_waits ++ works 60.

(** The state in which it is left. *)
Definition waiting : PC := Eval vm_compute in (sample_run relayed).(shared).
(** What [whole] sends over the path, sealed. *)
Definition sent_packet : bytes := [1; 2; 3] ++ seqZ 16 16.

(** ** Theorems *)

Section schedules.
Context `{JL : JsonLib} `{SL : SrtpLib} (params_ : PeerParams) (xs : list (sched PcAns PcEvent)).
Notation c := (pc_run params_ PC_new xs).

Lemma run_inv : exists l, pc_inv params_ (is_flight xs) c.(shared) l /\ (quiet c -> l = []).
Proof.
  apply pc_invariant. apply Forall_forall. intros x Hx.
  assert (H : forall i, flights_of x = i.(a_ssl).(hs_flights) -> good (is_flight xs) i).
  { intros i Hi. apply Forall_forall. intros d Hd. exists x. by rewrite Hi. }
  destruct x; cbn; auto.
Qed.

Lemma run_effect e : params_.(p_enable_srtp) = true -> e ∈ c.(shared).(log_) ->
  effect_ok (is_flight xs) c.(shared).(log_) e.
Proof.
  intros E He. destruct run_inv as (l & HI & _). pose proof (i_effects _ _ _ _ HI E) as H.
  rewrite Forall_forall in H. by apply H.
Qed.
End schedules.

(** C13: A session ends once: there is at most one report of its end, whoever ends it and however
    often, and when every thread has left exactly the ended sessions were reported. *)
Theorem session_end_reported_once `{JL : JsonLib} `{SL : SrtpLib} params_ xs :
  let c := pc_run params_ PC_new xs in
  (forall o, end_reports o c.(shared).(log_) <= 1)%nat /\
  (quiet c -> forall o, end_reports o c.(shared).(log_) =
     if has_ended o c.(shared) && params_.(on_session_status) then 1%nat else 0%nat).
Proof.
  intros c. destruct (run_inv params_ xs) as (l & HI & Hq). split.
  - intros o. pose proof (i_reports _ _ _ _ HI o) as H. fold c in H. destruct (has_ended _ _ && _); lia.
  - intros Q o. pose proof (i_reports _ _ _ _ HI o) as H. rewrite (Hq Q) in H. fold c in H. unfold tokens in H. cbn in H. lia.
Qed.

(** C12: With SRTP on, a session is reported as connected, and given its keys, only after a handshake
    of it was checked against a fingerprint that its description gave. *)
Theorem session_connected_verified `{JL : JsonLib} `{SL : SrtpLib} params_ xs :
  params_.(p_enable_srtp) = true ->
  let l := (pc_run params_ PC_new xs).(shared).(log_) in
  (forall o info, OnSessionStatus o info ∈ l -> info.(status) = MINIRTC_SESSION_CONNECTED -> proved o l) /\
  (forall o k, SetSrtpKeysCall o k ∈ l -> proved o l).
Proof.
  intros E l. split.
  - intros o info H. by apply (run_effect params_ xs _ E H).
  - intros o k H. by apply (run_effect params_ xs _ E H).
Qed.

(** C11: With SRTP on, everything a session hands to its ICE agent or to the relay is a datagram of a
    handshake or a packet sealed under keys the session was given, on every path and schedule. *)
Theorem nothing_leaves_unprotected `{JL : JsonLib} `{SL : SrtpLib} params_ xs :
  params_.(p_enable_srtp) = true ->
  let l := (pc_run params_ PC_new xs).(shared).(log_) in
  (forall o d, Ice o (IceSend d) ∈ l -> may_leave (is_flight xs) o l d) /\
  (forall f, SendBinary f ∈ l ->
     exists o h d, f = h ++ d /\ zlen h = kRelayHeaderSize /\ may_leave (is_flight xs) o l d).
Proof.
  intros E l. split.
  - intros o d H. exact (run_effect params_ xs _ E H).
  - intros f H. exact (run_effect params_ xs _ E H).
Qed.

(** ** Round trips *)

(** The frame [send_via_path] makes is taken apart by [OnWsBinary]; the id survives exactly when
    it has the 16 characters the header has room for. *)
Theorem relay_frame_roundtrip sid d : exists sid',
  parse_relay_frame (relay_header_of sid ++ d) = Some (sid', d) /\ (sid' = sid <-> zlen sid = 16).
Proof.
  unfold relay_header_of. cbv zeta. set (n := Z.min 16 (zlen sid)).
  assert (Hn : 0 <= n <= zlen sid /\ n <= 16) by (pose proof (zlen_nonneg sid); lia).
  set (body := ztake n sid ++ replicate (Z.to_nat (16 - n)) 0).
  assert (Hb : zlen body = 16) by (unfold body; rewrite zlen_app, zlen_ztake, zlen_replicate; lia).
  exists body. split.
  - unfold parse_relay_frame, kRelayHeaderSize. fold body. rewrite !zlen_app, Hb.
    assert (Hz : (zlen [67; 82; 1; 0] + 16 + zlen d <? 2 + 1 + 1 + 16) = false).
    { apply Z.ltb_ge. pose proof (zlen_nonneg d). change (zlen [67; 82; 1; 0]) with 4. lia. }
    rewrite Hz. cbn [orb]. change (_ || _ || _) with false. cbv iota. f_equal. f_equal.
    + unfold slice. rewrite <- app_assoc, zdrop_app by done. by rewrite ztake_app.
    + apply zdrop_app. by rewrite zlen_app, Hb.
  - split; [intros H16; by rewrite <- H16|]. intros H16. unfold body. replace n with 16 by lia.
    change (Z.to_nat (16 - 16)) with 0%nat. cbn [replicate]. rewrite app_nil_r. apply ztake_all. lia.
Qed.

Lemma toupper_fp_char c : fp_char c -> toupper c = c.
Proof. unfold fp_char, toupper. intros H. destruct (Z.leb_spec 97 c); [|done]. lia. Qed.

(** C27: What one end writes the other understands: the fingerprint is that of the certificate, and
    every stream gets the SSRC of the other end. *)
Theorem description_roundtrip d d' ice md off :
  wf_streams d -> wf_streams d' -> same_streams d d' ->
  Forall (fun l => is_line l /\ starts_with stream_prefix l = false /\ starts_with fingerprint_prefix l = false) ice ->
  is_bytes md -> zlen md = 32 ->
  let sdp := local_sdp (text ice) (Some (sbytes (Fingerprint (Some md)))) off (LocalStreamSdpLines d') in
  ExtractFingerprint sdp = sbytes (Fingerprint (Some md)) /\
  let '(ok, d1) := ParseRemoteStreams sdp d in
  ok = true /\ d1.(streams_).*1 = d.(streams_).*1 /\
  forall k s', sm_find k d'.(streams_) = Some s' ->
    exists s1, sm_find k d1.(streams_) = Some s1 /\ s1.(remote_ssrc) = s'.(local_ssrc).
Proof.
  intros Hd Hd' Hsame Hice Hmd Hlen. cbv zeta. unfold local_sdp, Fingerprint.
  assert (Hc : Forall fp_char (hex_colons md)) by (by apply hex_colons_chars).
  rewrite sbytes_of_sbytes by (eapply Forall_impl; [exact Hc|]; intros c; unfold fp_char, in_u8; lia).
  assert (Hnl : is_line (fingerprint_prefix ++ hex_colons md)).
  { apply Forall_app. split; [by apply is_line_check|]. eapply Forall_impl; [exact Hc|]. intros c; unfold fp_char; lia. }
  set (head := sbytes <$> _). set (setup := _ ++ sbytes (if off then _ else _)). set (fp := _ ++ hex_colons md) in *.
  assert (Hice' : Forall is_line ice /\ Forall (fun l => starts_with stream_prefix l = false) ice /\
    Forall (fun l => starts_with fingerprint_prefix l = false) ice) by (split_and!; (eapply Forall_impl; [exact Hice|]); intros l (?&?&?); done).
  destruct Hice' as (Hi1 & Hi2 & Hi3).
  assert (Hhead : Forall is_line head /\ Forall (fun l => starts_with stream_prefix l = false) head /\
    Forall (fun l => starts_with fingerprint_prefix l = false) head).
  { unfold head. cbn [fmap list_fmap]. split_and!;
      repeat (apply Forall_cons_2; [first [by apply is_line_check|reflexivity]|]); apply Forall_nil_2. }
  destruct Hhead as (Hh1 & Hh2 & Hh3).
  assert (Hs : is_line setup) by (unfold setup; destruct off; by apply is_line_check).
  rewrite (app_assoc (text head)), app_assoc, <- !text_app. split.
  - unfold LocalStreamSdpLines. rewrite <- text_app, <- app_assoc.
    rewrite <- (list_fmap_id (hex_colons md)) at 1. etrans.
    + apply (find_fingerprint_text (head ++ ice) (hex_colons md) (setup :: _)); [by apply Forall_app_2| |].
      * repeat apply Forall_app_2; try done. repeat (apply Forall_cons_2; [done|]). by apply wf_stream_lines.
      * unfold zlen in *. rewrite length_hex_colons. lia.
    + apply list_fmap_ext. intros i c Hi. apply toupper_fp_char. rewrite Forall_lookup in Hc. by apply (Hc i).
  - pose proof (description_streams d d' ((head ++ ice) ++ [fp; setup]) [] Hd Hd' Hsame) as H. rewrite app_nil_r in H.
    change (text []) with ([] : bytes) in H. rewrite app_nil_r in H. apply H; [|by apply Forall_nil_2|].
    + apply Forall_app_2; [by apply Forall_app_2|]. repeat (apply Forall_cons_2; [done|]). apply Forall_nil_2.
    + apply Forall_app_2; [by apply Forall_app_2|]. apply Forall_cons_2; [done|]. apply Forall_cons_2; [|apply Forall_nil_2].
      unfold setup. by destruct off.
Qed.


(** ** When threads meet *)

(** The result of a handshake that the switch to the relay made stale ends the session: the
    handshake over the relay has begun, and the session fails with [srtp_key_failed]. *)
Theorem stale_handshake_ends_session :
  let c := sample_run stale in let l := c.(shared).(log_) in
  finished c = true /\ statuses 0 l = [MINIRTC_SESSION_CONNECTING; MINIRTC_SESSION_FAILED] /\
  reasons 0 l = [""; "srtp_key_failed"]%string /\
  (exists n fp, HandshakeChecked 0 n fp true ∈ l) /\ SendBinary (relay_header_of (sbytes sample_sid) ++ [22]) ∈ l.
Proof.
  intros c l. split_and!; try (vm_compute; reflexivity).
  - exists 0%nat, (of_sbytes (hex_colons (seqZ 0 32))). apply list_elem_of_lookup. exists 11%nat. vm_compute. reflexivity.
  - apply list_elem_of_lookup. exists 13%nat. vm_compute. reflexivity.
Qed.

(** A session left by its owner while the worker handles the result of its handshake is
    reported as closed and then as connected; nothing is left of it and nothing more is reported. *)
Theorem closed_then_connected :
  let c := sample_run closing in
  finished c = true /\
  statuses 0 c.(shared).(log_) = [MINIRTC_SESSION_CONNECTING; MINIRTC_SESSION_CLOSED; MINIRTC_SESSION_CONNECTED] /\
  has_ended 0 c.(shared) = true /\ c.(shared).(sessions_) = [] /\ c.(shared).(tasks_) = [].
Proof. vm_compute. done. Qed.

(** A relay frame that arrives between the moment a session can be found and the moment it has
    a data transport makes the thread of the client follow a null pointer. *)
Theorem early_frame_crashes :
  let c := sample_run early_frame in
  c.(dead) = true /\ sm_find sample_sid c.(shared).(sessions_) = Some 0%nat /\ has_data 0 c.(shared) = false.
Proof. vm_compute. done. Qed.

Lemma insert_task_nil n t : insert_task n t [] = [t].
Proof. unfold insert_task. by rewrite take_nil, drop_nil. Qed.

(** The thread that entered last acts. *)
Lemma run_last s w l (p p' : pc unit) s' i : advance i p s = Step p' s' ->
  pool_step (pc_entry sample_params) (next_task sample_params) (mkPool s w (l ++ [p]) false) (Run (length l) i)
  = mkPool s' w (l ++ [p']) false.
Proof.
  intros H. unfold pool_step. cbn [dead threads shared worker]. rewrite lookup_app_r, Nat.sub_diag by done. cbn.
  by rewrite H, insert_app_r_alt, Nat.sub_diag by done.
Qed.

Lemma timer_round_idle l i :
  run_events (pool_step (pc_entry sample_params) (next_task sample_params)) (mkPool waiting skip l false) (timer_round (length l) i)
  = mkPool waiting skip (l ++ [skip]) false.
Proof.
  unfold timer_round. cbn [replicate app run_events].
  change (pool_step _ _ (mkPool waiting skip l false) (Enter CbTimer)) with (mkPool waiting skip (l ++ [pc_entry sample_params CbTimer]) false).
  erewrite (run_last _ _ l) by reflexivity. erewrite (run_last _ _ l) by reflexivity.
  match goal with |- context [mkPool ?s ?w (l ++ [?p]) false] =>
    assert (Hp : advance i p s = Step skip (s <| tasks_ := [TaskHousekeeping] |>)) end.
  { destruct i as [??????[]]; vm_compute; reflexivity. }
  rewrite (run_last _ _ l _ _ _ _ Hp). clear Hp.
  generalize (l ++ [skip : pc unit]) as l'. intros l'. vm_compute. reflexivity.
Qed.

(** A session that is switched to the relay before its peer is described is never ended by the
    housekeeping: however late the clock, it stays as it is. *)
Theorem relay_wait_never_ends l :
  let c := sample_run (relayed ++ timer_rounds 4 l) in
  finished c = true /\ c.(shared) = (sample_run relayed).(shared) /\
  statuses 0 c.(shared).(log_) = [MINIRTC_SESSION_CONNECTING] /\ has_ended 0 c.(shared) = false.
Proof.
  assert (H : forall k, run_events (pool_step (pc_entry sample_params) (next_task sample_params))
    (mkPool waiting skip (replicate k skip) false) (timer_rounds k l) = mkPool waiting skip (replicate (k + length l) skip) false).
  { induction l as [|i l IH]; intros k; cbn [timer_rounds]; [by rewrite Nat.add_0_r|].
    pose proof (timer_round_idle (replicate k skip) i) as Hr. rewrite length_replicate in Hr. rewrite run_events_app, Hr.
    change [skip] with (replicate 1 (skip : pc unit)). rewrite <- replicate_add, Nat.add_1_r, IH. cbn [length].
    by rewrite Nat.add_succ_r. }
  unfold sample_run, pc_run, pool_run. rewrite run_events_app.
  replace (run_events _ _ relayed) with (mkPool waiting skip (replicate 4 (skip : pc unit)) false) by (vm_compute; reflexivity).
  cbv zeta. rewrite H. split_and!; try reflexivity. unfold finished. cbn [worker threads dead forallb negb]. rewrite andb_true_r.
  apply forallb_forall. intros p Hp. apply list_elem_of_In, elem_of_replicate in Hp as [-> _]. done.
Qed.

(** ** Witnesses *)

Lemma finished_quiet c : finished c = true -> quiet c.
Proof.
  unfold finished. rewrite andb_true_iff, forallb_forall. intros [H _].
  assert (He : forall p, p ∈ c.(worker) :: c.(threads) -> ended p).
  { intros p Hp. specialize (H p (proj1 (list_elem_of_In _ _) Hp)). destruct p; [by eexists|done]. }
  split; [apply He, list_elem_of_here|]. apply Forall_forall. intros p Hp. apply He. by apply list_elem_of_further.
Qed.

Notation whole_run := (pc_run sample_params PC_new whole).
Lemma whole_quiet : quiet whole_run.
Proof. apply finished_quiet. vm_compute. reflexivity. Qed.
Lemma whole_ended : (if has_ended 0 whole_run.(shared) && sample_params.(on_session_status) then 1%nat else 0%nat) = 1%nat.
Proof. vm_compute. reflexivity. Qed.
Lemma whole_connected : exists info, OnSessionStatus 0 info ∈ whole_run.(shared).(log_) /\
  info.(status) = MINIRTC_SESSION_CONNECTED.
Proof.
  eexists. split; [apply list_elem_of_lookup; exists 13%nat; vm_compute; reflexivity|reflexivity].
Qed.
Lemma whole_sends : Ice 0 (IceSend sent_packet) ∈ whole_run.(shared).(log_).
Proof. apply list_elem_of_lookup. exists 14%nat. vm_compute. reflexivity. Qed.

Lemma session_end_reported_once_witness : quiet whole_run /\ end_reports 0 whole_run.(shared).(log_) = 1%nat.
Proof.
  split; [exact whole_quiet|]. destruct (session_end_reported_once sample_params whole) as [_ H].
  rewrite (H whole_quiet 0%nat). exact whole_ended.
Defined.

Lemma session_connected_verified_witness : exists info,
  OnSessionStatus 0 info ∈ whole_run.(shared).(log_) /\ proved 0 whole_run.(shared).(log_).
Proof.
  destruct whole_connected as (info & Hi & Hc). exists info. split; [exact Hi|].
  destruct (session_connected_verified sample_params whole eq_refl) as [H _]. exact (H 0%nat info Hi Hc).
Defined.

Lemma nothing_leaves_unprotected_witness :
  Ice 0 (IceSend sent_packet) ∈ whole_run.(shared).(log_) /\
  may_leave (is_flight whole) 0 whole_run.(shared).(log_) sent_packet.
Proof.
  split; [exact whole_sends|].
  destruct (nothing_leaves_unprotected sample_params whole eq_refl) as [H _]. exact (H 0%nat sent_packet whole_sends).
Defined.

Lemma description_roundtrip_witness :
  let sdp := local_sdp (text [sbytes "a=ice-ufrag:x"]) (Some (sbytes (Fingerprint (Some (seqZ 0 32))))) true (LocalStreamSdpLines end_b) in
  ExtractFingerprint sdp = sbytes (Fingerprint (Some (seqZ 0 32))) /\
  let '(ok, d1) := ParseRemoteStreams sdp end_a in
  ok = true /\ d1.(streams_).*1 = end_a.(streams_).*1 /\
  forall k s', sm_find k end_b.(streams_) = Some s' ->
    exists s1, sm_find k d1.(streams_) = Some s1 /\ s1.(remote_ssrc) = s'.(local_ssrc).
Proof.
  apply (description_roundtrip end_a end_b [sbytes "a=ice-ufrag:x"] (seqZ 0 32) true).
  - apply core_streams_wf.
  - apply core_streams_wf.
  - apply core_streams_same.
  - apply Forall_cons_2; [|apply Forall_nil_2]. split; [by apply is_line_check|done].
  - apply Forall_forall. intros b Hb. apply elem_of_seqZ in Hb. unfold in_u8. lia.
  - reflexivity.
Defined.
