(* ===== verification/Units.v ===== *)
(** * Units of time ([minirtc/src/common/api/units/{unit_base,time_delta,timestamp,data_size,data_rate}.h]) and sequence numbers

    [TimeDelta] and [Timestamp] are 64-bit counts of microseconds whose largest and smallest values stand
    for the infinities; [DataSize] and [DataRate] are counts of bytes and of bits per second.  Also the unwrapping of 16-bit sequence numbers
    ([common/rtc_base/numerics/{mod_ops,sequence_number_util,sequence_number_unwrapper}.h]). *)
From S2P Require Export Prelude.
#[local] Open Scope Z_scope.

(** ** Definitions *)

Definition PlusInfinity : Z := 2 ^ 63 - 1.
Definition MinusInfinity : Z := - 2 ^ 63.

Definition IsPlusInfinity (t : Z) : bool := t =? PlusInfinity.
Definition IsMinusInfinity (t : Z) : bool := t =? MinusInfinity.
Definition IsInfinite (t : Z) : bool := IsPlusInfinity t || IsMinusInfinity t.
Definition IsFinite (t : Z) : bool := negb (IsInfinite t).

(** [operator+] and [operator-] of [RelativeUnit] and of [Timestamp]. *)
Definition td_add (a b : Z) : Z :=
  if IsPlusInfinity a || IsPlusInfinity b then PlusInfinity
  else if IsMinusInfinity a || IsMinusInfinity b then MinusInfinity
  else i64 (a + b).
Definition td_sub (a b : Z) : Z :=
  if IsPlusInfinity a || IsMinusInfinity b then PlusInfinity
  else if IsMinusInfinity a || IsPlusInfinity b then MinusInfinity
  else i64 (a - b).
(** [operator*] and [operator/] with an integer. *)
Definition td_mul (a n : Z) : Z := i64 (a * n).
Definition td_div (a n : Z) : Z := Z.quot a n.

Definition Seconds (n : Z) : Z := i64 (n * 1000000).
Definition Millis (n : Z) : Z := i64 (n * 1000).

(** *** Sizes and rates: bytes and bits per second *)

Definition data_per_time (rate duration : Z) : Z := Z.quot (i64 (i64 (rate * duration) + 4000000)) 8000000.
Definition Microbits (size : Z) : Z := i64 (size * 8000000).
(** Division by zero has no result. *)
Definition time_for_size (size rate : Z) : option Z := if rate =? 0 then None else Some (Z.quot (Microbits size) rate).
Definition rate_of_size (size duration : Z) : option Z := if duration =? 0 then None else Some (Z.quot (Microbits size) duration).

(** *** Sequence numbers *)

Definition ForwardDiff (a b : Z) : Z := u16 (b - a).
Definition AheadOrAt (a b : Z) : bool :=
  let maxDist := 65535 / 2 + 1 in
  if a - b =? maxDist then b <? a else ForwardDiff b a <? maxDist.

Record SeqNumUnwrapper := mkUnwrapper { last_unwrapped_ : Z; last_value_ : option Z }.
Definition Delta (last_value new_value : Z) : Z :=
  ForwardDiff last_value new_value - (if AheadOrAt new_value last_value then 0 else 65536).
Definition Unwrap (v : Z) (u : SeqNumUnwrapper) : Z * SeqNumUnwrapper :=
  let n := match u.(last_value_) with None => v | Some l => i64 (u.(last_unwrapped_) + Delta l v) end in
  (n, mkUnwrapper n (Some v)).

(** ** Theorems *)

(** Times whose sums stay within 64 bits. *)
Definition small_time (t : Z) : Prop := - 2 ^ 61 <= t <= 2 ^ 61.

Lemma i64_small x : - 2 ^ 63 <= x < 2 ^ 63 -> i64 x = x.
Proof. intros H. unfold i64. rewrite Z.mod_small by lia. lia. Qed.

Lemma small_finite t : small_time t -> IsPlusInfinity t = false /\ IsMinusInfinity t = false.
Proof. unfold small_time, IsPlusInfinity, IsMinusInfinity, PlusInfinity, MinusInfinity. rewrite !Z.eqb_neq. lia. Qed.

Lemma td_add_small a b : small_time a -> small_time b -> td_add a b = a + b.
Proof.
  intros Ha Hb. destruct (small_finite a Ha) as [E1 E2], (small_finite b Hb) as [E3 E4]. unfold td_add. rewrite E1, E2, E3, E4.
  cbn. unfold small_time in *. apply i64_small. lia.
Qed.
Lemma td_sub_small a b : small_time a -> small_time b -> td_sub a b = a - b.
Proof.
  intros Ha Hb. destruct (small_finite a Ha) as [E1 E2], (small_finite b Hb) as [E3 E4]. unfold td_sub. rewrite E1, E2, E3, E4.
  cbn. unfold small_time in *. apply i64_small. lia.
Qed.

Lemma Delta_spec l v : in_u16 l -> in_u16 v -> (l + Delta l v) mod 2 ^ 16 = v /\ - 32768 <= Delta l v <= 32768.
Proof.
  unfold in_u16, Delta, AheadOrAt, ForwardDiff, u16. intros Hl Hv. change (65535 / 2 + 1) with 32768. change (2 ^ 16) with 65536 in *.
  assert (Hc : (v - l) mod 65536 = if v <? l then v - l + 65536 else v - l).
  { destruct (Z.ltb_spec v l).
    - replace (v - l) with (v - l + 65536 + (-1) * 65536) at 1 by lia. rewrite Z.mod_add by lia. apply Z.mod_small. lia.
    - apply Z.mod_small. lia. }
  rewrite Hc. destruct (Z.ltb_spec v l); destruct (Z.eqb_spec (v - l) 32768);
    repeat match goal with |- context [?a <? ?b] => destruct (Z.ltb_spec a b) end; (split; [|lia]);
    match goal with |- ?x mod _ = _ => first [replace x with v by lia | replace x with (v + 1 * 65536) by lia; rewrite Z.mod_add by lia
      | replace x with (v + (-1) * 65536) by lia; rewrite Z.mod_add by lia] end; apply Z.mod_small; lia.
Qed.

(** The unwrapped number is the number, modulo 2^16. *)
Definition unwrapper_ok (u : SeqNumUnwrapper) : Prop :=
  match u.(last_value_) with Some l => in_u16 l /\ u16 u.(last_unwrapped_) = l | None => True end.

Lemma u16_i64 x : u16 (i64 x) = u16 x.
Proof.
  unfold u16, i64. rewrite (Z.mod_eq (x + 2 ^ 63) (2 ^ 64)) by lia. set (k := _ / _).
  replace (x + 2 ^ 63 - 2 ^ 64 * k - 2 ^ 63) with (x + (- 2 ^ 48 * k) * 2 ^ 16) by lia. apply Z.mod_add. lia.
Qed.

Lemma Unwrap_spec u v : unwrapper_ok u -> in_u16 v -> u16 (Unwrap v u).1 = v /\ unwrapper_ok (Unwrap v u).2.
Proof.
  unfold unwrapper_ok, Unwrap. intros Hu Hv. destruct (last_value_ u) as [l|]; cbn; [|split; [|split]; try done; by apply u16_small].
  destruct Hu as [Hl Hu]. assert (E : u16 (i64 (last_unwrapped_ u + Delta l v)) = v); [|done].
  rewrite u16_i64. unfold u16 in *. rewrite Z.add_mod, Hu, <- Z.add_mod_idemp_r by lia.
  rewrite Z.mod_mod by lia. rewrite Z.add_mod_idemp_r by lia. by apply Delta_spec.
Qed.
(** A number unwrapped twice is the same. *)
Lemma Unwrap_twice u v : in_u16 v -> Unwrap v (Unwrap v u).2 = Unwrap v u.
Proof.
  intros Hv. unfold Unwrap at 1. cbn [snd last_value_ last_unwrapped_ Unwrap].
  assert (Ed : Delta v v = 0).
  { unfold Delta, AheadOrAt, ForwardDiff. replace (v - v) with 0 by lia. done. }
  rewrite Ed, Z.add_0_r. unfold Unwrap. assert (Hx : forall x, - 2 ^ 63 <= x < 2 ^ 63 -> i64 x = x) by (intros x Hx; by apply i64_small).
  destruct (last_value_ u); cbn [fst snd last_unwrapped_]; rewrite Hx; try done.
  - unfold i64. pose proof (Z.mod_pos_bound (last_unwrapped_ u + Delta z v + 2 ^ 63) (2 ^ 64)). lia.
  - unfold in_u16 in Hv. lia.
Qed.
