(* ===== verification/PacketQueue.v ===== *)
(** * The queue of the pacer ([minirtc/src/qos/prioritized_packet_queue.{h,cc}])

    Packets wait by priority; within a priority each stream has a queue, and the streams with packets take
    turns.  The code keeps the turns as pointers to the queues that the map [streams_] owns: a pointer is the
    address of a [StreamQueue], and using one whose queue was erased is [None].  An iterator into
    [enqueue_times_] is the number of the element. *)
From S2P Require Export Units.
#[local] Open Scope Z_scope.

(** ** Definitions *)

Inductive RtpPacketMediaType := kAudio | kVideo | kRetransmission | kForwardErrorCorrection | kPadding.
#[export] Instance MediaType_dec : EqDecision RtpPacketMediaType.
Proof. solve_decision. Defined.
Inductive OriginalType := kOriginalAudio | kOriginalVideo.

Definition kNumMediaTypes : nat := 5.
Definition media_index (t : RtpPacketMediaType) : nat :=
  match t with kAudio => 0 | kVideo => 1 | kRetransmission => 2 | kForwardErrorCorrection => 3 | kPadding => 4 end.

Definition kNumPriorityLevels : nat := 5.

(** What the pacer looks at of a packet; [pk_id] tells packets apart. *)
Record Packet := mkPacket {
  pk_id : Z; pk_ssrc : Z; pk_type : RtpPacketMediaType; pk_original : option OriginalType;
  payload_size : Z; padding_size : Z; headers_size : Z; is_key_frame : bool; is_first_packet_of_frame : bool;
}.

Definition GetPriorityForType (type : RtpPacketMediaType) (original : option OriginalType) : nat :=
  match type with
  | kAudio => 0
  | kRetransmission => match original with Some kOriginalVideo => 2 | _ => 1 end
  | kVideo | kForwardErrorCorrection => 3
  | kPadding => 4
  end.

Record PacketQueueTTL := mkTTL { audio_retransmission : Z; video_retransmission : Z; video : Z }.
Definition ToTtlPerPrio (t : PacketQueueTTL) : list Z :=
  <[GetPriorityForType kVideo None := t.(video)]>
    (<[GetPriorityForType kRetransmission (Some kOriginalVideo) := t.(video_retransmission)]>
       (<[GetPriorityForType kRetransmission (Some kOriginalAudio) := t.(audio_retransmission)]>
          (replicate kNumPriorityLevels PlusInfinity))).

Record QueuedPacket := mkQueued { packet : Packet; enqueue_time : Z; enqueue_time_iterator : nat }.
Definition PacketSize (p : QueuedPacket) : Z := p.(packet).(payload_size) + p.(packet).(padding_size).

Record StreamQueue := mkStreamQueue {
  address : nat; sq_packets : list (list QueuedPacket); last_enqueue_time_ : Z; num_keyframe_packets_ : Z;
}.
#[export] Instance eta_StreamQueue : Eta StreamQueue := fun q =>
  mkStreamQueue q.(address) q.(sq_packets) q.(last_enqueue_time_) q.(num_keyframe_packets_).

Definition at_prio {A} (l : list (list A)) (prio : nat) : list A := default [] (l !! prio).
Definition HasPacketsAtPrio (q : StreamQueue) (prio : nat) : bool :=
  match at_prio q.(sq_packets) prio with [] => false | _ => true end.
Definition IsEmpty (q : StreamQueue) : bool := forallb (fun l => match l with [] => true | _ => false end) q.(sq_packets).
Definition has_keyframe_packets (q : StreamQueue) : bool := q.(num_keyframe_packets_) >? 0.

Record PrioritizedPacketQueue := mkPQ {
  prioritize_audio_retransmission_ : bool; time_to_live_per_prio_ : list Z;
  queue_time_sum_ : Z; pause_time_sum_ : Z; size_packets_ : Z; size_packets_per_media_type_ : list Z;
  size_payload_ : Z; last_update_time_ : Z; paused_ : bool; last_culling_time_ : Z;
  streams_ : list (Z * StreamQueue); streams_by_prio_ : list (list nat); top_active_prio_level_ : option nat;
  enqueue_times_ : list (nat * Z); next_address : nat; next_iterator : nat;
}.
#[export] Instance eta_PQ : Eta PrioritizedPacketQueue := fun s => mkPQ s.(prioritize_audio_retransmission_)
  s.(time_to_live_per_prio_) s.(queue_time_sum_) s.(pause_time_sum_) s.(size_packets_) s.(size_packets_per_media_type_)
  s.(size_payload_) s.(last_update_time_) s.(paused_) s.(last_culling_time_) s.(streams_) s.(streams_by_prio_)
  s.(top_active_prio_level_) s.(enqueue_times_) s.(next_address) s.(next_iterator).

(** The constructor. [top_active_prio_level_] is [None] for -1. *)
Definition PQ_new (creation_time : Z) (prioritize : bool) (ttl : PacketQueueTTL) : PrioritizedPacketQueue :=
  mkPQ prioritize (ToTtlPerPrio ttl) 0 0 0 (replicate kNumMediaTypes 0) 0 creation_time false creation_time [] (replicate kNumPriorityLevels [])
    None [] 0 0.

(** *** Pointers *)

(** The queue at an address, with its stream. *)
Definition deref (a : nat) (s : PrioritizedPacketQueue) : option (Z * StreamQueue) :=
  List.find (fun kq => Nat.eqb kq.2.(address) a) s.(streams_).
Definition write_at (a : nat) (f : StreamQueue -> StreamQueue) (s : PrioritizedPacketQueue) : PrioritizedPacketQueue :=
  s <| streams_ ::= fmap (fun kq : Z * StreamQueue => if Nat.eqb kq.2.(address) a then (kq.1, f kq.2) else kq) |>.

Definition count_key (p : QueuedPacket) : Z := if p.(packet).(is_key_frame) then 1 else 0.

(** [EnqueuePacket]: whether it is the first at its level. *)
Definition EnqueuePacket (p : QueuedPacket) (prio : nat) (q : StreamQueue) : bool * StreamQueue :=
  (negb (HasPacketsAtPrio q prio),
   q <| num_keyframe_packets_ ::= fun n => n + count_key p |> <| sq_packets ::= alter (fun l => l ++ [p]) prio |>).

(** [DequeuePacket] through a pointer. *)
Definition DequeuePacket (a : nat) (prio : nat) (s : PrioritizedPacketQueue) : option (QueuedPacket * PrioritizedPacketQueue) :=
  '(_, q) ← deref a s;
  match at_prio q.(sq_packets) prio with
  | [] => None
  | p :: l => Some (p, write_at a (fun q => q <| sq_packets ::= <[prio := l]> |>
                                              <| num_keyframe_packets_ ::= fun n => n - count_key p |>) s)
  end.

(** *** Time *)

Definition UpdateAverageQueueTime (now : Z) (s : PrioritizedPacketQueue) : PrioritizedPacketQueue :=
  if now =? s.(last_update_time_) then s else
  let delta := td_sub now s.(last_update_time_) in
  let s := if s.(paused_) then s <| pause_time_sum_ ::= fun t => td_add t delta |>
           else s <| queue_time_sum_ ::= fun t => td_add t (td_mul delta s.(size_packets_)) |> in
  s <| last_update_time_ := now |>.

Definition SetPauseState (paused : bool) (now : Z) (s : PrioritizedPacketQueue) : PrioritizedPacketQueue :=
  UpdateAverageQueueTime now s <| paused_ := paused |>.

Definition AverageQueueTime (s : PrioritizedPacketQueue) : Z :=
  if s.(size_packets_) =? 0 then 0 else td_div s.(queue_time_sum_) s.(size_packets_).

Definition count_type (d : Z) (t : RtpPacketMediaType) : list Z -> list Z := alter (fun n => n + d) (media_index t).

Definition DequeuePacketInternal (p : QueuedPacket) (s : PrioritizedPacketQueue) : PrioritizedPacketQueue :=
  let time_in_non_paused_state := td_sub (td_sub s.(last_update_time_) p.(enqueue_time)) s.(pause_time_sum_) in
  s <| size_packets_ ::= fun n => n - 1 |>
    <| size_packets_per_media_type_ ::= count_type (-1) p.(packet).(pk_type) |>
    <| size_payload_ ::= fun n => n - PacketSize p |>
    <| queue_time_sum_ ::= fun t => td_sub t time_in_non_paused_state |>
    <| enqueue_times_ ::= List.filter (fun e => negb (Nat.eqb e.1 p.(enqueue_time_iterator))) |>.

(** *** Purging *)

(** The inner loop: the old packets of a queue, which has [n]. *)
Fixpoint purge_stream (n : nat) (prio : nat) (now ttl : Z) (a : nat) (s : PrioritizedPacketQueue) : option PrioritizedPacketQueue :=
  match n with
  | O => Some s
  | S n =>
      '(_, q) ← deref a s;
      match at_prio q.(sq_packets) prio with
      | p :: _ =>
          if td_sub now p.(enqueue_time) >? ttl then
            '(p, s) ← DequeuePacket a prio s;
            purge_stream n prio now ttl a (DequeuePacketInternal p s)
          else Some s
      | [] => Some s
      end
  end.

(** The outer loop: the pointers that stay. *)
Fixpoint purge_queues (qs : list nat) (prio : nat) (now ttl : Z) (s : PrioritizedPacketQueue) : option (list nat * PrioritizedPacketQueue) :=
  match qs with
  | [] => Some ([], s)
  | a :: qs =>
      '(_, q) ← deref a s;
      s ← purge_stream (length (at_prio q.(sq_packets) prio)) prio now ttl a s;
      '(_, q) ← deref a s;
      '(rest, s) ← purge_queues qs prio now ttl s;
      Some (if HasPacketsAtPrio q prio then a :: rest else rest, s)
  end.

Definition PurgeOldPacketsAtPriorityLevel (prio : nat) (now : Z) (s : PrioritizedPacketQueue) : option PrioritizedPacketQueue :=
  let ttl := default PlusInfinity (s.(time_to_live_per_prio_) !! prio) in
  if IsInfinite ttl then Some s else
  '(qs, s) ← purge_queues (at_prio s.(streams_by_prio_) prio) prio now ttl s;
  Some (s <| streams_by_prio_ ::= <[prio := qs]> |>).

(** The loop of [MaybeUpdateTopPrioLevel] over [n] levels from [i]. *)
Fixpoint find_top (n i : nat) (s : PrioritizedPacketQueue) : option PrioritizedPacketQueue :=
  match n with
  | O => Some s
  | S n =>
      s ← PurgeOldPacketsAtPriorityLevel i s.(last_update_time_) s;
      match at_prio s.(streams_by_prio_) i with
      | _ :: _ => Some (s <| top_active_prio_level_ := Some i |>)
      | [] => find_top n (S i) s
      end
  end.

Definition MaybeUpdateTopPrioLevel (s : PrioritizedPacketQueue) : option PrioritizedPacketQueue :=
  match s.(top_active_prio_level_) with
  | Some i => match at_prio s.(streams_by_prio_) i with
              | _ :: _ => Some s
              | [] => s ← find_top kNumPriorityLevels 0 s;
                      Some (if s.(size_packets_) =? 0 then s <| top_active_prio_level_ := None |> else s)
              end
  | None => s ← find_top kNumPriorityLevels 0 s;
            Some (if s.(size_packets_) =? 0 then s <| top_active_prio_level_ := None |> else s)
  end.

(** *** The operations *)

Definition kTimeout : Z := Millis 500.

(** The streams without packets that are old are erased. *)
Definition cull (now : Z) (s : PrioritizedPacketQueue) : PrioritizedPacketQueue :=
  if td_sub now s.(last_culling_time_) >? kTimeout then
    s <| streams_ ::= List.filter (fun kq => negb (IsEmpty kq.2 && (td_add kq.2.(last_enqueue_time_) kTimeout <? now))) |>
      <| last_culling_time_ := now |>
  else s.

(** [streams_.emplace]: the address of the queue of a stream. *)
Definition stream_of (ssrc now : Z) (s : PrioritizedPacketQueue) : nat * PrioritizedPacketQueue :=
  match List.find (fun kq => kq.1 =? ssrc) s.(streams_) with
  | Some kq => (kq.2.(address), s)
  | None => (s.(next_address),
             s <| streams_ ::= fun l => l ++ [(ssrc, mkStreamQueue s.(next_address) (replicate kNumPriorityLevels []) now 0)] |>
               <| next_address ::= S |>)
  end.

Definition prio_of (s : PrioritizedPacketQueue) (p : Packet) : nat :=
  GetPriorityForType p.(pk_type) (if s.(prioritize_audio_retransmission_) then p.(pk_original) else None).

Definition Push (now : Z) (p : Packet) (s : PrioritizedPacketQueue) : option PrioritizedPacketQueue :=
  let '(a, s) := stream_of p.(pk_ssrc) now s in
  let it := s.(next_iterator) in
  let s := s <| enqueue_times_ ::= fun l => l ++ [(it, now)] |> <| next_iterator ::= S |> in
  let prio := prio_of s p in
  s ← PurgeOldPacketsAtPriorityLevel prio now s;
  let s := UpdateAverageQueueTime now s in
  let qp := mkQueued p (td_sub now s.(pause_time_sum_)) it in
  let s := s <| size_packets_ ::= fun n => n + 1 |> <| size_packets_per_media_type_ ::= count_type 1 p.(pk_type) |>
             <| size_payload_ ::= fun n => n + PacketSize qp |> in
  '(_, q) ← deref a s;
  let s := write_at a (fun q => (EnqueuePacket qp prio q).2) s in
  let s := if (EnqueuePacket qp prio q).1 then s <| streams_by_prio_ ::= alter (fun l => l ++ [a]) prio |> else s in
  let s := match s.(top_active_prio_level_) with
           | Some i => if (prio <? i)%nat then s <| top_active_prio_level_ := Some prio |> else s
           | None => s <| top_active_prio_level_ := Some prio |>
           end in
  Some (cull now s).

(** [Pop]: the packet, if there is one. *)
Definition Pop (s : PrioritizedPacketQueue) : option (option Packet * PrioritizedPacketQueue) :=
  if s.(size_packets_) =? 0 then Some (None, s) else
  prio ← s.(top_active_prio_level_);
  match at_prio s.(streams_by_prio_) prio with
  | [] => None
  | a :: qs =>
      '(p, s) ← DequeuePacket a prio s;
      let s := DequeuePacketInternal p s in
      '(_, q) ← deref a s;
      s ← (if HasPacketsAtPrio q prio then Some (s <| streams_by_prio_ ::= <[prio := qs ++ [a]]> |>)
           else MaybeUpdateTopPrioLevel (s <| streams_by_prio_ ::= <[prio := qs]> |>));
      Some (Some p.(packet), s)
  end.

(** The loop of [RemovePacketsForSsrc] over the levels, after [DequeueAll]. *)
Fixpoint remove_levels (ps : list (list QueuedPacket)) (prio : nat) (a : nat) (s : PrioritizedPacketQueue) : PrioritizedPacketQueue :=
  match ps with
  | [] => s
  | [] :: ps => remove_levels ps (S prio) a s
  | l :: ps =>
      let s := fold_left (fun s p => DequeuePacketInternal p s) l s in
      let qs := at_prio s.(streams_by_prio_) prio in
      let qs := match qs with [_] => [] | _ => List.filter (fun a' => negb (Nat.eqb a' a)) qs end in
      remove_levels ps (S prio) a (s <| streams_by_prio_ ::= <[prio := qs]> |>)
  end.

Definition RemovePacketsForSsrc (ssrc : Z) (s : PrioritizedPacketQueue) : option PrioritizedPacketQueue :=
  let s := match List.find (fun kq => kq.1 =? ssrc) s.(streams_) with
           | Some kq =>
               let a := kq.2.(address) in
               let s := write_at a (fun q => q <| sq_packets := replicate kNumPriorityLevels [] |> <| num_keyframe_packets_ := 0 |>) s in
               remove_levels kq.2.(sq_packets) 0 a s
           | None => s
           end in
  MaybeUpdateTopPrioLevel s.

(** *** What can be asked *)

Definition SizeInPacketsPerRtpPacketMediaType (s : PrioritizedPacketQueue) : list Z := s.(size_packets_per_media_type_).
Definition SizeInPackets (s : PrioritizedPacketQueue) : Z := s.(size_packets_).
Definition SizeInPayloadBytes (s : PrioritizedPacketQueue) : Z := s.(size_payload_).
Definition Empty (s : PrioritizedPacketQueue) : bool := s.(size_packets_) =? 0.
Definition OldestEnqueueTime (s : PrioritizedPacketQueue) : Z :=
  match s.(enqueue_times_) with [] => MinusInfinity | e :: _ => e.2 end.
Definition HasKeyframePackets (ssrc : Z) (s : PrioritizedPacketQueue) : bool :=
  match List.find (fun kq => kq.1 =? ssrc) s.(streams_) with Some kq => has_keyframe_packets kq.2 | None => false end.
(** The enqueue time of the next packet at a level, or [none]. *)
Definition leading (none : Z) (prio : nat) (s : PrioritizedPacketQueue) : option Z :=
  match at_prio s.(streams_by_prio_) prio with
  | [] => Some none
  | a :: _ => '(_, q) ← deref a s; (fun p => p.(enqueue_time)) <$> head (at_prio q.(sq_packets) prio)
  end.
Definition LeadingPacketEnqueueTime (t : RtpPacketMediaType) (s : PrioritizedPacketQueue) : option Z :=
  leading MinusInfinity (GetPriorityForType t None) s.
Definition LeadingPacketEnqueueTimeForRetransmission (s : PrioritizedPacketQueue) : option Z :=
  if negb s.(prioritize_audio_retransmission_) then leading PlusInfinity (GetPriorityForType kRetransmission None) s else
  a ← leading PlusInfinity (GetPriorityForType kRetransmission (Some kOriginalAudio)) s;
  v ← leading PlusInfinity (GetPriorityForType kRetransmission (Some kOriginalVideo)) s;
  Some (Z.min a v).

(** *** The abstract queue

    Per priority, the streams in the order of their turns with their packets, and the clock. *)
Notation Ring := (list (Z * list QueuedPacket)) (only parsing).
Record Turns := mkTurns { rings : list Ring; t_now : Z; t_paused_for : Z; t_paused : bool }.
#[export] Instance eta_Turns : Eta Turns := fun s => mkTurns s.(rings) s.(t_now) s.(t_paused_for) s.(t_paused).

Fixpoint drop_old (now ttl : Z) (l : list QueuedPacket) : list QueuedPacket :=
  match l with
  | p :: l' => if td_sub now p.(enqueue_time) >? ttl then drop_old now ttl l' else l
  | [] => []
  end.
Definition nonempty {A} (l : list A) : bool := match l with [] => false | _ => true end.
Definition purge_ring (now ttl : Z) (r : Ring) : Ring :=
  if IsInfinite ttl then r
  else List.filter (fun e => nonempty e.2) ((fun e => (e.1, drop_old now ttl e.2)) <$> r).
Definition purge_at (ttls : list Z) (now : Z) (prio : nat) (rs : list Ring) : list Ring :=
  alter (purge_ring now (default PlusInfinity (ttls !! prio))) prio rs.
(** The first level with packets, from [i] on. *)
Fixpoint first_from {A} (i : nat) (rs : list (list A)) : option nat :=
  match rs with
  | [] => None
  | [] :: rs => first_from (S i) rs
  | _ => Some i
  end.
(** The levels are purged until there is one with packets. *)
Fixpoint purge_until (n i : nat) (ttls : list Z) (now : Z) (rs : list Ring) : list Ring :=
  match n with
  | O => rs
  | S n =>
      let rs := purge_at ttls now i rs in
      if nonempty (at_prio rs i) then rs else purge_until n (S i) ttls now rs
  end.

Definition enqueue_ring (ssrc : Z) (p : QueuedPacket) (r : Ring) : Ring :=
  if existsb (fun e => e.1 =? ssrc) r then (fun e => if e.1 =? ssrc then (e.1, e.2 ++ [p]) else e) <$> r
  else r ++ [(ssrc, [p])].

Definition turns_update (now : Z) (s : Turns) : Turns :=
  if now =? s.(t_now) then s else
  (if s.(t_paused) then s <| t_paused_for ::= fun t => td_add t (td_sub now s.(t_now)) |> else s) <| t_now := now |>.

Definition turns_push (ttls : list Z) (prio it : nat) (now : Z) (p : Packet) (s : Turns) : Turns :=
  let rs := purge_at ttls now prio s.(rings) in
  let s := turns_update now s in
  s <| rings := alter (enqueue_ring p.(pk_ssrc) (mkQueued p (td_sub now s.(t_paused_for)) it)) prio rs |>.

Definition turns_pop (ttls : list Z) (s : Turns) : option Packet * Turns :=
  match first_from 0 s.(rings) with
  | None => (None, s)
  | Some i =>
      match at_prio s.(rings) i with
      | (k, p :: ps) :: r =>
          let r := if nonempty ps then r ++ [(k, ps)] else r in
          let rs := <[i := r]> s.(rings) in
          (Some p.(packet), s <| rings := if nonempty r then rs else purge_until kNumPriorityLevels 0 ttls s.(t_now) rs |>)
      | _ => (None, s)
      end
  end.

Definition turns_remove (ttls : list Z) (ssrc : Z) (s : Turns) : Turns :=
  let rs := List.filter (fun e : Z * list QueuedPacket => negb (e.1 =? ssrc)) <$> s.(rings) in
  let stays := match first_from 0 s.(rings) with Some i => nonempty (at_prio rs i) | None => false end in
  s <| rings := if stays then rs else purge_until kNumPriorityLevels 0 ttls s.(t_now) rs |>.

(** *** Sequences of calls *)

Inductive QueueCall := CallPush (now : Z) (p : Packet) | CallPop | CallPause (paused : bool) (now : Z) | CallUpdate (now : Z) | CallRemove (ssrc : Z).

(** The state after the calls, and what [Pop] returned. *)
Fixpoint pq_calls (xs : list QueueCall) (s : PrioritizedPacketQueue) : option (list (option Packet) * PrioritizedPacketQueue) :=
  match xs with
  | [] => Some ([], s)
  | CallPush now p :: xs => s ← Push now p s; pq_calls xs s
  | CallPop :: xs => '(r, s) ← Pop s; '(rs, s) ← pq_calls xs s; Some (r :: rs, s)
  | CallPause b now :: xs => pq_calls xs (SetPauseState b now s)
  | CallUpdate now :: xs => pq_calls xs (UpdateAverageQueueTime now s)
  | CallRemove ssrc :: xs => s ← RemovePacketsForSsrc ssrc s; pq_calls xs s
  end.

Section turns_calls.
Context (ttls : list Z) (prioritize : bool).
Definition turns_prio (p : Packet) : nat := GetPriorityForType p.(pk_type) (if prioritize then p.(pk_original) else None).
Fixpoint turns_calls (it : nat) (xs : list QueueCall) (s : Turns) : list (option Packet) * Turns :=
  match xs with
  | [] => ([], s)
  | CallPush now p :: xs => turns_calls (S it) xs (turns_push ttls (turns_prio p) it now p s)
  | CallPop :: xs => let '(r, s) := turns_pop ttls s in let '(rs, s) := turns_calls it xs s in (r :: rs, s)
  | CallPause b now :: xs => turns_calls it xs (turns_update now s <| t_paused := b |>)
  | CallUpdate now :: xs => turns_calls it xs (turns_update now s)
  | CallRemove ssrc :: xs => turns_calls it xs (turns_remove ttls ssrc s)
  end.
End turns_calls.

Definition Turns_new (now : Z) : Turns := mkTurns (replicate kNumPriorityLevels []) now 0 false.
Definition ring_packets (rs : list Ring) : list QueuedPacket := concat ((fun r : Ring => concat r.*2) <$> rs).
