(* ===== verification/PacketQueueProofs.v ===== *)
(** * The queue of the pacer keeps turns

    The queue of [PacketQueue.v] refines its abstract queue: through any calls no pointer is used after its
    queue was erased, and [Pop] returns what the turns give. *)
From S2P Require Export PacketQueue.
#[local] Open Scope Z_scope.

(** ** Definitions *)

(** What a pointer [a] gives: the stream it belongs to and its packets at a level. *)
Definition key (s : PrioritizedPacketQueue) (a : nat) : Z := default 0 (fst <$> deref a s).
Definition pk (s : PrioritizedPacketQueue) (a i : nat) : list QueuedPacket :=
  match deref a s with Some kq => at_prio kq.2.(sq_packets) i | None => [] end.

Definition total {A} (f : A -> Z) (l : list A) : Z := foldr (fun x n => f x + n) 0 l.

(** The queues that [streams_] owns. *)
Record streams_ok (s : PrioritizedPacketQueue) : Prop := {
  ok_addresses : NoDup ((fun kq : Z * StreamQueue => kq.2.(address)) <$> s.(streams_));
  ok_keys : NoDup s.(streams_).*1;
  ok_queues : Forall (fun kq : Z * StreamQueue => (kq.2.(address) < s.(next_address))%nat
                 /\ length kq.2.(sq_packets) = kNumPriorityLevels
                 /\ kq.2.(num_keyframe_packets_) = total count_key (concat kq.2.(sq_packets))) s.(streams_);
}.

(** The counters of a queue with the packets [l]. *)
Record counters (s : PrioritizedPacketQueue) (l : list QueuedPacket) : Prop := {
  counts_packets : s.(size_packets_) = zlen l;
  counts_types : s.(size_packets_per_media_type_)
    = fold_left (fun ns p => count_type 1 p.(packet).(pk_type) ns) l (replicate kNumMediaTypes 0);
  counts_payload : s.(size_payload_) = total PacketSize l;
}.

(** The pointers of a level are the queues with packets there. *)
Definition live (s : PrioritizedPacketQueue) (i : nat) (qs : list nat) : Prop :=
  NoDup qs /\ forall a, a ∈ qs <-> pk s a i <> [].
Definition ring_of (s : PrioritizedPacketQueue) (i : nat) (qs : list nat) : Ring := (fun a => (key s a, pk s a i)) <$> qs.

(** The fields that taking packets out leaves. *)
Record same_but (s s' : PrioritizedPacketQueue) : Prop := {
  same_prioritize : s'.(prioritize_audio_retransmission_) = s.(prioritize_audio_retransmission_);
  same_ttl : s'.(time_to_live_per_prio_) = s.(time_to_live_per_prio_);
  same_pause : s'.(pause_time_sum_) = s.(pause_time_sum_);
  same_update : s'.(last_update_time_) = s.(last_update_time_);
  same_paused : s'.(paused_) = s.(paused_);
  same_iterator : s'.(next_iterator) = s.(next_iterator);
  same_keys : forall a, fst <$> deref a s' = fst <$> deref a s;
}.

(** ** Lists *)

Lemma total_app {A} (f : A -> Z) l k : total f (l ++ k) = total f l + total f k.
Proof. induction l; simpl; lia. Qed.

#[export] Instance total_proper {A} (f : A -> Z) : Proper (Permutation ==> eq) (total f).
Proof. intros l k H. induction H; simpl; lia. Qed.

#[export] Instance zlen_proper {A} : Proper (Permutation ==> eq) (@zlen A).
Proof. intros l k H. unfold zlen. by rewrite H. Qed.

Lemma lookup_count_type x t ns j :
  count_type x t ns !! j = (fun n => n + if decide (media_index t = j) then x else 0) <$> ns !! j.
Proof.
  unfold count_type. rewrite list_lookup_alter. unfold fmap, option_fmap, option_map.
  case_decide as H; [rewrite H|]; destruct (ns !! j); try done. f_equal. lia.
Qed.

Lemma count_type_comm x t y t' ns : count_type x t (count_type y t' ns) = count_type y t' (count_type x t ns).
Proof.
  apply list_eq. intros j. rewrite !lookup_count_type, <- !option_fmap_compose.
  apply option_fmap_ext. intros n. simpl. lia.
Qed.

Lemma count_type_undo t ns : count_type (-1) t (count_type 1 t ns) = ns.
Proof.
  apply list_eq. intros j. rewrite !lookup_count_type, <- option_fmap_compose.
  rewrite <- (option_fmap_id (ns !! j)) at 2. apply option_fmap_ext. intros n. unfold compose, id. case_decide; lia.
Qed.

Definition types_of (l : list QueuedPacket) (ns : list Z) : list Z :=
  fold_left (fun ns p => count_type 1 p.(packet).(pk_type) ns) l ns.

Lemma types_of_proper ns l k : l ≡ₚ k -> types_of l ns = types_of k ns.
Proof.
  intros H. revert ns. induction H; intros ns; simpl; auto.
  - by rewrite count_type_comm.
  - by rewrite IHPermutation1.
Qed.

Lemma types_of_count x t l ns : types_of l (count_type x t ns) = count_type x t (types_of l ns).
Proof. revert ns. induction l as [|p l IH]; intros ns; simpl; [done|]. by rewrite count_type_comm, IH. Qed.

#[export] Instance counters_proper s : Proper (Permutation ==> iff) (counters s).
Proof.
  assert (H : forall l k, l ≡ₚ k -> counters s l -> counters s k).
  { intros l k E [H1 H2 H3]. constructor; [by rewrite <- E | rewrite H2; by apply types_of_proper | by rewrite <- E]. }
  intros l k E. split; apply H; [done | by symmetry].
Qed.

Lemma at_prio_insert {A} i j (x : list A) l :
  (i < length l)%nat -> at_prio (<[i := x]> l) j = if decide (j = i) then x else at_prio l j.
Proof. intros H. unfold at_prio. rewrite list_lookup_insert. repeat case_decide; naive_solver. Qed.

Lemma at_prio_insert_eq {A} i (x : list A) l : (i < length l)%nat -> at_prio (<[i := x]> l) i = x.
Proof. intros H. rewrite at_prio_insert by done. by rewrite decide_True. Qed.

Lemma at_prio_alter {A} (f : list A -> list A) i l : (i < length l)%nat -> alter f i l = <[i := f (at_prio l i)]> l.
Proof.
  intros H. apply list_eq. intros j. unfold at_prio. destruct (decide (i = j)) as [<-|N].
  - rewrite list_lookup_alter_eq, list_lookup_insert_eq by done. by destruct (lookup_lt_is_Some_2 l i H) as [x ->].
  - by rewrite list_lookup_alter_ne, list_lookup_insert_ne.
Qed.

Lemma levels_ext {A} (l k : list (list A)) : length l = length k -> (forall i, (i < length l)%nat -> at_prio l i = at_prio k i) -> l = k.
Proof.
  intros E H. apply list_eq_same_length with (length l); [done..|]. intros i x y Hi Hx Hy.
  specialize (H i Hi). unfold at_prio in H. by rewrite Hx, Hy in H.
Qed.

(** ** Pointers *)

(** A queue with [l] at level [i] and [d] more key frames. *)
Definition with_level (i : nat) (l : list QueuedPacket) (d : Z) (q : StreamQueue) : StreamQueue :=
  mkStreamQueue q.(address) (<[i := l]> q.(sq_packets)) q.(last_enqueue_time_) (q.(num_keyframe_packets_) + d).

Lemma total_concat_insert {A} (f : A -> Z) i l (ls : list (list A)) :
  (i < length ls)%nat -> total f (concat (<[i := l]> ls)) = total f (concat ls) - total f (at_prio ls i) + total f l.
Proof.
  revert i. induction ls as [|k ls IH]; intros [|i] H; simpl in H; try lia; simpl; rewrite !total_app.
  - unfold at_prio. simpl. lia.
  - rewrite IH by lia. unfold at_prio. simpl. lia.
Qed.

Lemma deref_Some s a kq : streams_ok s -> deref a s = Some kq <-> kq ∈ s.(streams_) /\ kq.2.(address) = a.
Proof.
  intros [Ha _ _]. unfold deref. split.
  - intros H. apply List.find_some in H as [H1 H2]. by rewrite list_elem_of_In, <- (Nat.eqb_eq (address _)).
  - intros [Hin <-]. induction s.(streams_) as [|k l IH]; [by apply not_elem_of_nil in Hin|].
    cbn in Ha |- *. apply NoDup_cons in Ha as [Hk Ha]. apply elem_of_cons in Hin as [->|Hin].
    + by rewrite Nat.eqb_refl.
    + destruct (Nat.eqb_spec (address k.2) (address kq.2)) as [E|_]; [|by apply IH].
      exfalso. apply Hk. rewrite E. apply list_elem_of_fmap. eauto.
Qed.

Lemma deref_write s a a' f :
  (forall q, address (f q) = address q) ->
  deref a' (write_at a f s) = (fun kq => if Nat.eqb a' a then (kq.1, f kq.2) else kq) <$> deref a' s.
Proof.
  intros Hf. unfold deref, write_at. cbn. induction s.(streams_) as [|k l IH]; [done|]. cbn [fmap list_fmap List.find].
  destruct (Nat.eqb_spec (address k.2) a) as [<-|N]; cbn [snd fst]; [rewrite Hf|];
    destruct (Nat.eqb_spec (address k.2) a') as [<-|N']; try done; cbn.
  - by rewrite Nat.eqb_refl.
  - by destruct (Nat.eqb_spec (address k.2) a).
Qed.

Lemma write_at_ext s a f g :
  streams_ok s -> (forall kq, deref a s = Some kq -> f kq.2 = g kq.2) -> write_at a f s = write_at a g s.
Proof.
  intros Hs H.
  assert (E : (fun kq : Z * StreamQueue => if Nat.eqb kq.2.(address) a then (kq.1, f kq.2) else kq) <$> s.(streams_)
    = (fun kq : Z * StreamQueue => if Nat.eqb kq.2.(address) a then (kq.1, g kq.2) else kq) <$> s.(streams_)).
  { apply list_fmap_ext. intros i kq Hi. destruct (Nat.eqb_spec (address kq.2) a) as [E|]; [|done].
    rewrite H; [done|]. apply deref_Some; [done|]. split; [|done]. by eapply list_elem_of_lookup_2. }
  unfold write_at, upd_field. by rewrite E.
Qed.

Lemma pk_not s a i : streams_ok s -> (kNumPriorityLevels <= i)%nat -> pk s a i = [].
Proof.
  intros Hs Hi. unfold pk. destruct (deref a s) as [kq|] eqn:E; [|done]. apply deref_Some in E as [Hin _]; [|done].
  pose proof (proj1 (Forall_forall _ _) (ok_queues _ Hs) kq Hin) as [_ [Hl _]].
  unfold at_prio. by rewrite lookup_ge_None_2 by lia.
Qed.

Lemma write_ok s a kq f :
  streams_ok s -> deref a s = Some kq -> (forall q, address (f q) = address q) ->
  length (f kq.2).(sq_packets) = kNumPriorityLevels ->
  (f kq.2).(num_keyframe_packets_) = total count_key (concat (f kq.2).(sq_packets)) ->
  let s' := write_at a f s in
  streams_ok s' /\ same_but s s'
  /\ forall a' j, pk s' a' j = if decide (a' = a) then at_prio (f kq.2).(sq_packets) j else pk s a' j.
Proof.
  intros Hs Hd Ha Hl Hk s'. subst s'. pose proof (fun a' => deref_write s a a' f Ha) as Hw. split; [|split].
  - destruct Hs as [H1 H2 H3]. constructor; unfold write_at; cbn -[total concat insert kNumPriorityLevels].
    + rewrite <- list_fmap_compose. erewrite list_fmap_ext; [exact H1|]. intros j k _. unfold compose.
      destruct (Nat.eqb _ _); [apply Ha|done].
    + rewrite <- list_fmap_compose. erewrite list_fmap_ext; [exact H2|]. intros j k _. unfold compose. by destruct (Nat.eqb _ _).
    + apply Forall_fmap, Forall_forall. intros k Hin. pose proof (proj1 (Forall_forall _ _) H3 k Hin) as (K1 & K2 & K3). unfold compose.
      destruct (Nat.eqb_spec (address k.2) a) as [E|]; [|done].
      assert (Some k = Some kq) as [= ->] by (rewrite <- Hd; symmetry; apply deref_Some; [by constructor | done]).
      cbn [snd]. by rewrite Ha.
  - constructor; try done. intros a'. rewrite Hw. destruct (deref a' s) as [k|]; [|done]. cbn. by destruct (Nat.eqb _ _).
  - intros a' j. unfold pk at 1. rewrite Hw. destruct (Nat.eqb_spec a' a) as [->|N].
    + rewrite Hd. cbn. by rewrite decide_True.
    + rewrite decide_False by done. unfold pk. by destruct (deref a' s).
Qed.

Lemma queue_ok s a kq : streams_ok s -> deref a s = Some kq ->
  length kq.2.(sq_packets) = kNumPriorityLevels /\ kq.2.(num_keyframe_packets_) = total count_key (concat kq.2.(sq_packets)).
Proof. intros Hs [H _]%deref_Some; [|done]. by pose proof (proj1 (Forall_forall _ _) (ok_queues _ Hs) kq H) as (_ & ? & ?). Qed.

Lemma write_level s a kq i l d :
  streams_ok s -> deref a s = Some kq -> (i < kNumPriorityLevels)%nat ->
  d = total count_key l - total count_key (pk s a i) ->
  let s' := write_at a (with_level i l d) s in
  streams_ok s' /\ same_but s s' /\ forall a' j, pk s' a' j = if decide (a' = a /\ j = i) then l else pk s a' j.
Proof.
  intros Hs Hd Hi Ed s'. destruct (queue_ok s a kq Hs Hd) as [Hl Hk].
  assert (Ep : forall j, pk s a j = at_prio kq.2.(sq_packets) j) by (intros j; unfold pk; by rewrite Hd).
  destruct (write_ok s a kq (with_level i l d)) as (H1 & H2 & H3); [done..| | |].
  - cbn [with_level sq_packets]. by rewrite length_insert.
  - cbn [with_level sq_packets num_keyframe_packets_]. rewrite total_concat_insert by by rewrite Hl. rewrite <- Ep. lia.
  - split; [done|]. split; [done|]. intros a' j. subst s'. rewrite H3. cbn [with_level sq_packets].
    rewrite at_prio_insert, <- Ep by by rewrite Hl. repeat case_decide; naive_solver.
Qed.

(** ** Taking packets out *)

(** [s'] is [s] where some queues have other packets. *)
Record taken (s s' : PrioritizedPacketQueue) (now_at : nat -> nat -> list QueuedPacket) : Prop := {
  taken_ok : streams_ok s';
  taken_same : same_but s s';
  taken_prios : s'.(streams_by_prio_) = s.(streams_by_prio_);
  taken_top : s'.(top_active_prio_level_) = s.(top_active_prio_level_);
  taken_pk : forall a j, pk s' a j = now_at a j;
}.

Lemma same_but_refl s : same_but s s.
Proof. by constructor. Qed.

Lemma same_but_trans s1 s2 s3 : same_but s1 s2 -> same_but s2 s3 -> same_but s1 s3.
Proof. intros [] []. constructor; intros; etransitivity; eauto. Qed.
#[local] Hint Resolve same_but_refl : core.

Lemma deref_same s s' a : same_but s s' -> deref a s' = None <-> deref a s = None.
Proof. intros H. pose proof (same_keys _ _ H a). by destruct (deref a s), (deref a s'). Qed.

Lemma key_same s s' a : same_but s s' -> key s' a = key s a.
Proof. intros H. unfold key. by rewrite (same_keys _ _ H). Qed.

Lemma taken_trans s1 s2 s3 f g : taken s1 s2 f -> taken s2 s3 g -> taken s1 s3 g.
Proof. intros [] []. constructor; [done | by eapply same_but_trans | congruence | congruence | done]. Qed.

Lemma taken_ext s1 s2 f g : taken s1 s2 f -> (forall a j, f a j = g a j) -> taken s1 s2 g.
Proof. intros [H1 H2 H3 H4 H5] H. constructor; [done..|]. intros a j. by rewrite H5. Qed.

Lemma taken_internal s p : streams_ok s -> taken s (DequeuePacketInternal p s) (pk s).
Proof. intros []. by constructor. Qed.

Lemma counters_internal s p l : counters s (p :: l) -> counters (DequeuePacketInternal p s) l.
Proof.
  intros [H1 H2 H3]. constructor; cbn.
  - rewrite H1, zlen_cons. lia.
  - rewrite H2. cbn. fold (types_of l (count_type 1 p.(packet).(pk_type) (replicate kNumMediaTypes 0))).
    by rewrite types_of_count, count_type_undo.
  - rewrite H3. simpl. lia.
Qed.

Lemma pk_Some s a i : pk s a i <> [] -> exists kq, deref a s = Some kq /\ at_prio kq.2.(sq_packets) i = pk s a i.
Proof. unfold pk. destruct (deref a s) as [kq|]; [|done]. eauto. Qed.

Lemma pk_level s a i : streams_ok s -> pk s a i <> [] -> (i < kNumPriorityLevels)%nat.
Proof. intros Hs H. destruct (decide (i < kNumPriorityLevels)%nat); [done|]. by rewrite pk_not in H by (done || lia). Qed.

Lemma DequeuePacket_spec s a i p l r :
  streams_ok s -> pk s a i = p :: l -> counters s (p :: r) ->
  exists s1, DequeuePacket a i s = Some (p, s1)
    /\ taken s (DequeuePacketInternal p s1) (fun a' j => if decide (a' = a /\ j = i) then l else pk s a' j)
    /\ counters (DequeuePacketInternal p s1) r.
Proof.
  intros Hs Hp Hc. pose proof (pk_level s a i Hs) as Hi. destruct (pk_Some s a i) as ([k q] & Hd & Hq); [by rewrite Hp|].
  rewrite Hp in *. cbn in Hq. unfold DequeuePacket. rewrite Hd. cbn -[write_at]. rewrite Hq. eexists. split; [done|].
  rewrite (write_at_ext s a _ (with_level i l (- count_key p))); [|done|done].
  destruct (write_level s a (k, q) i l (- count_key p)) as (W1 & W2 & W3); [done|done|by apply Hi|rewrite Hp; simpl; lia|].
  split; [by eapply taken_trans; [constructor|eapply taken_ext; [apply taken_internal|]]|].
  apply counters_internal. destruct Hc. by constructor.
Qed.

Lemma drop_old_cons now ttl p l :
  drop_old now ttl (p :: l) = if td_sub now p.(enqueue_time) >? ttl then drop_old now ttl l else p :: l.
Proof. done. Qed.

Lemma taken_nothing s a i l : streams_ok s -> pk s a i = l -> taken s s (fun a' j => if decide (a' = a /\ j = i) then l else pk s a' j).
Proof. intros H <-. constructor; [done..|]. intros a' j. case_decide as E; [|done]. by destruct E as [-> ->]. Qed.

Lemma purge_stream_spec now ttl i a n s r :
  streams_ok s -> deref a s <> None -> (length (pk s a i) <= n)%nat -> counters s (pk s a i ++ r) ->
  exists s', purge_stream n i now ttl a s = Some s'
    /\ taken s s' (fun a' j => if decide (a' = a /\ j = i) then drop_old now ttl (pk s a i) else pk s a' j)
    /\ counters s' (drop_old now ttl (pk s a i) ++ r).
Proof.
  revert s. induction n as [|n IH]; intros s Hs Hd Hn Hc.
  - destruct (pk s a i) as [|p l] eqn:E; [|simpl in Hn; lia]. exists s. split; [done|]. split; [by apply taken_nothing | done].
  - cbn [purge_stream]. destruct (deref a s) as [kq|] eqn:E; [|done]. cbn [mbind option_bind]. destruct kq as [k q].
    assert (Hq : at_prio q.(sq_packets) i = pk s a i) by (unfold pk; by rewrite E). rewrite Hq.
    destruct (pk s a i) as [|p l] eqn:El.
    { exists s. split; [done|]. split; [by apply taken_nothing | done]. }
    rewrite drop_old_cons. destruct (td_sub now _ >? ttl).
    + destruct (DequeuePacket_spec s a i p l (l ++ r)) as (s1 & -> & T & C); [done..|].
      cbn [mbind option_bind]. set (s2 := DequeuePacketInternal p s1) in *.
      assert (E2 : pk s2 a i = l) by (rewrite (taken_pk _ _ _ T); by rewrite decide_True).
      destruct (IH s2) as (s' & -> & T' & C').
      * apply T.
      * rewrite (deref_same s s2) by apply T. by rewrite E.
      * rewrite E2. simpl in Hn. lia.
      * by rewrite E2.
      * rewrite E2 in *. exists s'. split; [done|]. split; [|done].
        eapply taken_trans; [exact T|]. eapply taken_ext; [exact T'|]. intros a' j. cbn. rewrite (taken_pk _ _ _ T).
        by repeat case_decide.
    + exists s. split; [done|]. split; [by apply taken_nothing | done].
Qed.

Lemma purge_queues_spec now ttl i qs s r :
  streams_ok s -> NoDup qs -> Forall (fun a => deref a s <> None) qs ->
  counters s (concat ((fun a => pk s a i) <$> qs) ++ r) ->
  exists s', purge_queues qs i now ttl s = Some (List.filter (fun a => nonempty (drop_old now ttl (pk s a i))) qs, s')
    /\ taken s s' (fun a j => if decide (a ∈ qs /\ j = i) then drop_old now ttl (pk s a i) else pk s a j)
    /\ counters s' (concat ((fun a => drop_old now ttl (pk s a i)) <$> qs) ++ r).
Proof.
  revert s r. induction qs as [|a qs IH]; intros s r Hs Hn Hd Hc.
  - exists s. split; [done|]. split; [|done]. constructor; [done..|]. intros a j.
    rewrite decide_False; [done|]. intros [H _]. by apply not_elem_of_nil in H.
  - apply NoDup_cons in Hn as [Ha Hn]. apply Forall_cons in Hd as [Hda Hd].
    cbn [purge_queues]. destruct (deref a s) as [[k q]|] eqn:E; [|done]. cbn [mbind option_bind].
    assert (Hq : at_prio q.(sq_packets) i = pk s a i) by (unfold pk; by rewrite E). rewrite Hq.
    cbn [fmap list_fmap concat] in Hc. rewrite <- app_assoc in Hc.
    destruct (purge_stream_spec now ttl i a (length (pk s a i)) s (concat ((fun a => pk s a i) <$> qs) ++ r))
      as (s1 & -> & T & C); [done|by rewrite E|done|done|]. cbn [mbind option_bind].
    destruct (deref a s1) as [[k1 q1]|] eqn:E1; [|by rewrite (deref_same s) in E1 by apply T; congruence].
    assert (Hq1 : at_prio q1.(sq_packets) i = drop_old now ttl (pk s a i)).
    { pose proof (taken_pk _ _ _ T a i) as H. cbv beta in H. rewrite decide_True in H by done. unfold pk at 1 in H. by rewrite E1 in H. }
    cbn [mbind option_bind]. unfold HasPacketsAtPrio. rewrite Hq1.
    assert (Hrest : forall a', a' ∈ qs -> pk s1 a' i = pk s a' i).
    { intros a' H. rewrite (taken_pk _ _ _ T), decide_False; [done|]. intros [-> _]. done. }
    assert (Hmap : forall f : list QueuedPacket -> list QueuedPacket, (fun a => f (pk s1 a i)) <$> qs = (fun a => f (pk s a i)) <$> qs).
    { intros f. apply list_fmap_ext. intros x a' H. f_equal. apply Hrest. by eapply list_elem_of_lookup_2. }
    destruct (IH s1 (drop_old now ttl (pk s a i) ++ r)) as (s2 & E2 & T2 & C2); [apply T|done| | |].
    + eapply Forall_impl; [exact Hd|]. intros a' H. by rewrite (deref_same s) by apply T.
    + rewrite (Hmap (fun l => l)). by rewrite Permutation_app_swap_app.
    + rewrite E2. cbn [mbind option_bind]. exists s2. split_and!.
      * cbn [List.filter]. do 2 f_equal. rewrite (List.filter_ext_in _ (fun a => nonempty (drop_old now ttl (pk s a i)))).
        -- by destruct (drop_old now ttl (pk s a i)).
        -- intros a' H. by rewrite Hrest by by apply list_elem_of_In.
      * eapply taken_trans; [exact T|]. eapply taken_ext; [exact T2|]. intros a' j. cbn.
        rewrite !(taken_pk _ _ _ T). pose proof (elem_of_cons qs a' a). repeat case_decide; naive_solver.
      * cbn [fmap list_fmap concat]. rewrite <- app_assoc.
        rewrite Hmap in C2.
        by rewrite Permutation_app_swap_app.
Qed.

(** ** The queue stands for rings *)

Record stands (s : PrioritizedPacketQueue) (rs : list Ring) : Prop := {
  st_ok : streams_ok s;
  st_prios : length s.(streams_by_prio_) = kNumPriorityLevels;
  st_len : length rs = kNumPriorityLevels;
  st_live : forall i, (i < kNumPriorityLevels)%nat -> live s i (at_prio s.(streams_by_prio_) i);
  st_rings : forall i, (i < kNumPriorityLevels)%nat -> at_prio rs i = ring_of s i (at_prio s.(streams_by_prio_) i);
  st_counters : counters s (ring_packets rs);
}.

Lemma ring_packets_split i rs : (i < length rs)%nat -> ring_packets rs ≡ₚ concat (at_prio rs i).*2 ++ ring_packets (<[i := []]> rs).
Proof.
  unfold ring_packets. revert i. induction rs as [|r rs IH]; intros [|i] H; simpl in H; try lia; simpl.
  - done.
  - rewrite (IH i) at 1 by lia. unfold at_prio. simpl. by rewrite Permutation_app_swap_app.
Qed.

Lemma ring_packets_insert i r rs : (i < length rs)%nat -> ring_packets (<[i := r]> rs) ≡ₚ concat r.*2 ++ ring_packets (<[i := []]> rs).
Proof.
  intros H. pose proof (ring_packets_split i (<[i := r]> rs)) as E. rewrite length_insert in E. specialize (E H).
  by rewrite at_prio_insert_eq, list_insert_insert_eq in E.
Qed.

Lemma ring_of_packets s i qs : (ring_of s i qs).*2 = (fun a => pk s a i) <$> qs.
Proof. unfold ring_of. by rewrite <- list_fmap_compose. Qed.

Lemma purge_ring_of s i qs now ttl :
  IsInfinite ttl = false ->
  purge_ring now ttl (ring_of s i qs)
  = (fun a => (key s a, drop_old now ttl (pk s a i))) <$> List.filter (fun a => nonempty (drop_old now ttl (pk s a i))) qs.
Proof.
  intros E. unfold purge_ring, ring_of. rewrite E. clear E. induction qs as [|a qs IH]; [done|]. cbn.
  destruct (drop_old now ttl (pk s a i)) eqn:E; cbn; [apply IH|]. rewrite E. f_equal. apply IH.
Qed.

Lemma concat_nonempty {A B} (f : A -> list B) l : concat (f <$> List.filter (fun a => nonempty (f a)) l) = concat (f <$> l).
Proof. induction l as [|a l IH]; [done|]. cbn. destruct (f a) eqn:E; cbn; [done|]. rewrite E. cbn. by rewrite IH. Qed.

Lemma live_deref s i qs : live s i qs -> Forall (fun a => deref a s <> None) qs.
Proof. intros [_ H]. apply Forall_forall. intros a Ha. apply H in Ha. by apply pk_Some in Ha as (? & -> & _). Qed.

Lemma in_filter {A} (f : A -> bool) (l : list A) x : x ∈ List.filter f l <-> x ∈ l /\ f x = true.
Proof. by rewrite !list_elem_of_In, List.filter_In. Qed.

Lemma NoDup_List_filter {A} (f : A -> bool) (l : list A) : NoDup l -> NoDup (List.filter f l).
Proof.
  induction 1 as [|x l Hx Hl IH]; [constructor|]. cbn. destruct (f x); [|done].
  constructor; [|done]. rewrite in_filter. tauto.
Qed.

(** One level changes. *)
Lemma stands_change s s' rs i qs r :
  stands s rs -> (i < kNumPriorityLevels)%nat -> streams_ok s' -> (forall a, key s' a = key s a) ->
  s'.(streams_by_prio_) = <[i := qs]> s.(streams_by_prio_) -> (forall a j, j <> i -> pk s' a j = pk s a j) ->
  live s' i qs -> r = ring_of s' i qs -> counters s' (concat r.*2 ++ ring_packets (<[i := []]> rs)) ->
  stands s' (<[i := r]> rs).
Proof.
  intros [H1 H2 H3 H4 H5 H6] Hi Ho Hk Hp Hpk Hl -> Hc. constructor; [done|..].
  - by rewrite Hp, length_insert.
  - by rewrite length_insert.
  - intros j Hj. rewrite Hp, at_prio_insert by lia. case_decide as E; [by subst|].
    destruct (H4 j Hj) as [Hn Hl']. split; [done|]. intros a. by rewrite Hpk, Hl'.
  - intros j Hj. rewrite Hp, !at_prio_insert by lia. case_decide as E; [by subst|].
    rewrite H5 by done. unfold ring_of. apply list_fmap_ext. intros _ a _. by rewrite Hk, Hpk.
  - rewrite ring_packets_insert by lia. done.
Qed.

Lemma stands_rest s rs i :
  stands s rs -> (i < kNumPriorityLevels)%nat ->
  counters s (concat ((fun a => pk s a i) <$> at_prio s.(streams_by_prio_) i) ++ ring_packets (<[i := []]> rs)).
Proof.
  intros H Hi. pose proof (st_counters _ _ H) as C.
  rewrite (ring_packets_split i), (st_rings _ _ H), ring_of_packets in C by (rewrite ?(st_len _ _ H); done). done.
Qed.

Lemma Purge_spec s rs i now :
  stands s rs -> (i < kNumPriorityLevels)%nat ->
  exists s', PurgeOldPacketsAtPriorityLevel i now s = Some s' /\ same_but s s'
    /\ s'.(top_active_prio_level_) = s.(top_active_prio_level_) /\ stands s' (purge_at s.(time_to_live_per_prio_) now i rs).
Proof.
  intros Hst Hi. pose proof Hst as [H1 H2 H3 H4 H5 H6]. unfold PurgeOldPacketsAtPriorityLevel, purge_at.
  set (ttl := default PlusInfinity _). rewrite at_prio_alter, H5 by lia. destruct (IsInfinite ttl) eqn:Ei.
  { exists s. split_and!; [done..|]. unfold purge_ring. rewrite Ei, <- H5 by done. rewrite list_insert_id; [done|].
    unfold at_prio. by destruct (lookup_lt_is_Some_2 rs i) as [x ->]; [lia|]. }
  rewrite (purge_ring_of _ _ _ _ _ Ei). pose proof (stands_rest s rs i Hst Hi) as Hc.
  destruct (H4 i Hi) as [Hn Hl]. pose proof (live_deref s i _ (conj Hn Hl)) as Hd. set (qs := at_prio _ i) in *.
  destruct (purge_queues_spec now ttl i qs s _ H1 Hn Hd Hc) as (s1 & -> & T & C). cbn [mbind option_bind].
  eexists. split; [done|]. split; [destruct T as [_ [] _ _ _]; by constructor|]. split; [by apply T|].
  assert (Hpi : forall a, pk s1 a i = drop_old now ttl (pk s a i)).
  { intros a. rewrite (taken_pk _ _ _ T). case_decide as E; [done|]. destruct (pk s a i) eqn:E'; [done|].
    exfalso. apply E. split; [|done]. apply Hl. by rewrite E'. }
  set (f := fun a => nonempty _). apply (stands_change s _ rs i (List.filter f qs)); [done|done|..].
  - destruct T as [[] _ _ _ _]. by constructor.
  - intros a. by apply (key_same s s1), T.
  - cbn. by rewrite (taken_prios _ _ _ T).
  - intros a j N. change (pk s1 a j = pk s a j). rewrite (taken_pk _ _ _ T), decide_False; [done|]. by intros [_ ?].
  - split; [by apply NoDup_List_filter|]. intros a. change (pk _ a i) with (pk s1 a i).
    rewrite in_filter, Hpi. unfold f. rewrite Hl. destruct (pk s a i); [naive_solver|]. destruct (drop_old _ _ _); naive_solver.
  - unfold ring_of. apply list_fmap_ext. intros _ a _. change ((key s a, drop_old now ttl (pk s a i)) = (key s1 a, pk s1 a i)).
    by rewrite Hpi, (key_same s s1) by apply T.
  - rewrite <- list_fmap_compose. assert (C' := C). rewrite <- concat_nonempty in C'. by destruct C'.
Qed.

(** ** The top level *)

Lemma first_from_shift {A} i (l : list (list A)) : first_from i l = (fun j => (i + j)%nat) <$> first_from 0 l.
Proof.
  revert i. induction l as [|[|x k] l IH]; intros i; cbn; [done| |by rewrite Nat.add_0_r].
  rewrite (IH (S i)), (IH 1%nat). destruct (first_from 0 l); cbn; [|done]. f_equal. lia.
Qed.

Lemma first_from_Some {A} (l : list (list A)) i :
  first_from 0 l = Some i <-> at_prio l i <> [] /\ forall j, (j < i)%nat -> at_prio l j = [].
Proof.
  revert i. induction l as [|[|x k] l IH]; intros i; cbn.
  - split; [done|]. by intros [H _].
  - rewrite first_from_shift. destruct i as [|i].
    + split; [by destruct (first_from 0 l)|]. by intros [H _].
    + transitivity (first_from 0 l = Some i); [destruct (first_from 0 l); cbn; split; congruence|].
      rewrite IH. change (at_prio ([] :: l) (S i)) with (at_prio l i). split; intros [H1 H2]; (split; [done|]).
      * intros [|j] Hj; [done|]. apply (H2 j). lia.
      * intros j Hj. apply (H2 (S j)). lia.
  - split; [intros [= <-]; split; [done | lia]|]. intros [H1 H2]. destruct i as [|i]; [done|]. by specialize (H2 0%nat ltac:(lia)).
Qed.

Lemma first_from_None {A} (l : list (list A)) : first_from 0 l = None <-> forall j, at_prio l j = [].
Proof.
  split.
  - intros H j. induction j as [j IH] using lt_wf_ind. destruct (at_prio l j) eqn:E; [done|].
    assert (first_from 0 l = Some j); [|congruence]. apply first_from_Some. split; [congruence | done].
  - intros H. destruct (first_from 0 l) as [i|] eqn:E; [|done]. apply first_from_Some in E as [E _]. by rewrite H in E.
Qed.

Lemma stands_level s rs i : stands s rs -> at_prio rs i = [] <-> at_prio s.(streams_by_prio_) i = [].
Proof.
  intros H. destruct (decide (i < kNumPriorityLevels)%nat) as [Hi|Hi].
  - rewrite (st_rings _ _ H) by done. unfold ring_of. by destruct (at_prio _ i).
  - unfold at_prio. rewrite !lookup_ge_None_2; [done|..]; [rewrite (st_prios _ _ H)|rewrite (st_len _ _ H)]; lia.
Qed.

Lemma stands_nonempty s rs i : stands s rs -> nonempty (at_prio rs i) = nonempty (at_prio s.(streams_by_prio_) i).
Proof. intros H. pose proof (stands_level s rs i H). destruct (at_prio rs i), (at_prio _ i); naive_solver. Qed.

(** A packet is in its ring. *)
Lemma ring_packets_nil s rs : stands s rs -> ring_packets rs = [] <-> first_from 0 rs = None.
Proof.
  intros H. rewrite first_from_None. split.
  - intros E i. destruct (decide (i < kNumPriorityLevels)%nat) as [Hi|Hi].
    + rewrite (st_rings _ _ H) by done. pose proof (ring_packets_split i rs) as P. rewrite E in P.
      rewrite (st_len _ _ H) in P. specialize (P Hi). apply Permutation_nil in P. apply app_nil in P as [P _].
      rewrite (st_rings _ _ H), ring_of_packets in P by done. pose proof (st_live _ _ H i Hi) as [_ L].
      destruct (at_prio _ i) as [|a qs]; [done|]. exfalso. apply (L a); [by constructor|]. cbn in P. by apply app_nil in P as [P _].
    + unfold at_prio. by rewrite lookup_ge_None_2 by (rewrite (st_len _ _ H); lia).
  - intros E. unfold ring_packets. assert (Forall (fun r => r = []) rs) as F.
    + apply Forall_lookup. intros i r Hr. specialize (E i). unfold at_prio in E. by rewrite Hr in E.
    + clear -F. induction F as [|r rs -> F IH]; [done|]. done.
Qed.

Lemma stands_size s rs : stands s rs -> (s.(size_packets_) =? 0) = negb (nonempty (ring_packets rs)).
Proof.
  intros H. rewrite (counts_packets _ _ (st_counters _ _ H)). destruct (ring_packets rs); [done|].
  cbn [nonempty negb]. apply Z.eqb_neq. rewrite zlen_cons. unfold zlen. lia.
Qed.

(** Writing the top level leaves the rest. *)
Lemma stands_top s rs t : stands s rs -> stands (s <| top_active_prio_level_ := t |>) rs.
Proof. intros [[] H2 H3 H4 H5 []]. constructor; [by constructor|done..| |by constructor]; done. Qed.

Lemma at_prio_purge ttls now i rs j :
  (i < length rs)%nat -> j <> i -> at_prio (purge_at ttls now i rs) j = at_prio rs j.
Proof. intros Hi N. unfold purge_at. rewrite at_prio_alter, at_prio_insert, decide_False by done. done. Qed.

Lemma find_top_spec n i s rs :
  stands s rs -> (i + n)%nat = kNumPriorityLevels -> (forall j, (j < i)%nat -> at_prio rs j = []) ->
  exists s', find_top n i s = Some s' /\ same_but s s'
    /\ let rs' := purge_until n i s.(time_to_live_per_prio_) s.(last_update_time_) rs in
       stands s' rs' /\ (first_from 0 rs' <> None -> s'.(top_active_prio_level_) = first_from 0 rs').
Proof.
  revert i s rs. induction n as [|n IH]; intros i s rs Hst Hn He.
  - exists s. split_and!; [done..|]. cbn. split; [done|]. intros N. exfalso. apply N, first_from_None. intros j.
    destruct (decide (j < i)%nat); [by apply He|]. unfold at_prio. rewrite lookup_ge_None_2; [done|]. rewrite (st_len _ _ Hst). lia.
  - cbn [find_top purge_until]. destruct (Purge_spec s rs i s.(last_update_time_) Hst) as (s1 & -> & F & _ & Hst1); [lia|].
    cbn [mbind option_bind]. rewrite (stands_nonempty _ _ i Hst1).
    assert (He1 : forall j, (j < i)%nat -> at_prio (purge_at s.(time_to_live_per_prio_) s.(last_update_time_) i rs) j = []).
    { intros j Hj. rewrite at_prio_purge; [by apply He | rewrite (st_len _ _ Hst); lia | lia]. }
    destruct (at_prio s1.(streams_by_prio_) i) as [|a qs] eqn:E; cbn [nonempty].
    + destruct (IH (S i) s1 _ Hst1) as (s2 & -> & F2 & Hst2 & Ht); [lia| |].
      { intros j Hj. destruct (decide (j = i)) as [->|]; [by apply (stands_level _ _ _ Hst1)|apply He1; lia]. }
      exists s2. rewrite (same_ttl _ _ F), (same_update _ _ F) in Hst2, Ht. split_and!; [done|by eapply same_but_trans|done|done].
    + eexists. split; [done|]. split; [by destruct F; constructor|]. split; [by apply stands_top|]. intros _. cbn. symmetry.
      apply first_from_Some. split; [|done]. rewrite (stands_level _ _ _ Hst1), E. done.
Qed.

(** The queue stands for the rings and knows the first level with packets. *)
Definition ready (s : PrioritizedPacketQueue) (rs : list Ring) : Prop :=
  stands s rs /\ s.(top_active_prio_level_) = first_from 0 rs.

Lemma MaybeUpdate_spec s rs :
  stands s rs -> (forall i j, s.(top_active_prio_level_) = Some i -> (j < i)%nat -> at_prio rs j = []) ->
  exists s', MaybeUpdateTopPrioLevel s = Some s' /\ same_but s s'
    /\ ready s' (if match s.(top_active_prio_level_) with Some i => nonempty (at_prio rs i) | None => false end then rs
                 else purge_until kNumPriorityLevels 0 s.(time_to_live_per_prio_) s.(last_update_time_) rs).
Proof.
  intros Hst Hlow. unfold MaybeUpdateTopPrioLevel.
  assert (Hf : exists s', (s' ← find_top kNumPriorityLevels 0 s;
      Some (if s'.(size_packets_) =? 0 then s' <| top_active_prio_level_ := None |> else s')) = Some s'
    /\ same_but s s' /\ ready s' (purge_until kNumPriorityLevels 0 s.(time_to_live_per_prio_) s.(last_update_time_) rs)).
  { destruct (find_top_spec kNumPriorityLevels 0 s rs Hst) as (s1 & -> & F & Hst1 & Ht); [done|lia|]. cbn [mbind option_bind].
    eexists. split; [done|]. rewrite (stands_size _ _ Hst1). pose proof (ring_packets_nil _ _ Hst1) as Hnil.
    destruct (ring_packets _) as [|p l] eqn:E; cbn [nonempty negb].
    - split; [by destruct F; constructor|]. split; [by apply stands_top|]. cbn. symmetry. by apply Hnil.
    - split; [done|]. split; [done|]. apply Ht. by intros N%Hnil. }
  destruct (s.(top_active_prio_level_)) as [i|] eqn:Et; [|done].
  rewrite (stands_nonempty _ _ i Hst). destruct (at_prio _ i) as [|a qs] eqn:E; cbn [nonempty]; [done|].
  exists s. do 3 (split; [done|]). rewrite Et. symmetry. apply first_from_Some.
  split; [by rewrite (stands_level _ _ _ Hst), E|]. intros j Hj. by eapply Hlow.
Qed.

(** ** The operations *)

(** The abstract state of a queue. *)
Record refines (s : PrioritizedPacketQueue) (t : Turns) : Prop := {
  re_ready : ready s t.(rings);
  re_now : t.(t_now) = s.(last_update_time_);
  re_paused_for : t.(t_paused_for) = s.(pause_time_sum_);
  re_paused : t.(t_paused) = s.(paused_);
}.

Lemma ring_of_cons s i a qs : ring_of s i (a :: qs) = (key s a, pk s a i) :: ring_of s i qs.
Proof. done. Qed.

Lemma live_head s i a qs : live s i (a :: qs) -> exists p l, pk s a i = p :: l.
Proof. intros [_ H]. destruct (pk s a i) as [|p l] eqn:E; [|eauto]. exfalso. by apply (H a); [constructor|]. Qed.

(** The turn of the queue at [a] is over. *)
Definition after_turn (a : nat) (l : list QueuedPacket) (qs : list nat) : list nat := if nonempty l then qs ++ [a] else qs.

Lemma turn_live s s2 i a p l qs :
  live s i (a :: qs) -> pk s a i = p :: l -> (forall a' j, pk s2 a' j = if decide (a' = a /\ j = i) then l else pk s a' j) ->
  (forall a', key s2 a' = key s a') ->
  live s2 i (after_turn a l qs) /\ ring_of s2 i (after_turn a l qs) = ring_of s i qs ++ (if nonempty l then [(key s a, l)] else []).
Proof.
  intros [Hn Hl] Hp H2 Hk. apply NoDup_cons in Hn as [Ha Hn].
  assert (E : ring_of s2 i qs = ring_of s i qs).
  { apply list_fmap_ext. intros x a' Hx. rewrite Hk, H2, decide_False; [done|]. intros [-> _]. by apply Ha, list_elem_of_lookup_2 with x. }
  assert (Hother : forall a', a' <> a -> (a' ∈ qs <-> pk s2 a' i <> [])).
  { intros a' N. rewrite H2, decide_False by tauto. rewrite <- Hl, elem_of_cons. tauto. }
  assert (Hself : pk s2 a i = l) by (rewrite H2; by rewrite decide_True).
  unfold after_turn. destruct l as [|p' l]; cbn [nonempty].
  - rewrite app_nil_r. split; [|done]. split; [done|]. intros a'. destruct (decide (a' = a)) as [->|N]; [|by apply Hother].
    rewrite Hself. by split; [|intros []].
  - unfold ring_of in *. rewrite fmap_app, E. cbn [fmap list_fmap]. rewrite Hself, Hk. split; [|done]. split.
    + apply NoDup_app. split_and!; [done| |by apply NoDup_singleton]. intros x Hx ->%list_elem_of_singleton. done.
    + intros a'. rewrite elem_of_app, list_elem_of_singleton. destruct (decide (a' = a)) as [->|N].
      * rewrite Hself. split; [done | by right].
      * rewrite <- Hother by done. split; [by intros [?|?] | by left].
Qed.

Lemma Pop_turn s i a p l qs s1 s2 rs :
  stands s rs -> (i < kNumPriorityLevels)%nat -> at_prio s.(streams_by_prio_) i = a :: qs -> pk s a i = p :: l ->
  taken s s1 (fun a' j => if decide (a' = a /\ j = i) then l else pk s a' j) ->
  counters s1 (l ++ concat ((fun a => pk s a i) <$> qs) ++ ring_packets (<[i := []]> rs)) ->
  s2 = s1 <| streams_by_prio_ ::= <[i := after_turn a l qs]> |> ->
  stands s2 (<[i := ring_of s i qs ++ (if nonempty l then [(key s a, l)] else [])]> rs).
Proof.
  intros Hst Hi Hq Hp T C ->. pose proof (st_live _ _ Hst i Hi) as Hlive. rewrite Hq in Hlive.
  destruct (turn_live s s1 i a p l qs Hlive Hp (taken_pk _ _ _ T)) as [L E].
  { intros a'. by apply (key_same s s1), T. }
  apply (stands_change s _ rs i (after_turn a l qs)); [done|done|..].
  - destruct T as [[] _ _ _ _]. by constructor.
  - intros a'. by apply (key_same s s1), T.
  - cbn. by rewrite (taken_prios _ _ _ T).
  - intros a' j N. change (pk s1 a' j = pk s a' j). rewrite (taken_pk _ _ _ T), decide_False; [done|]. by intros [_ ?].
  - exact L.
  - symmetry. exact E.
  - rewrite fmap_app, ring_of_packets, concat_app, <- app_assoc.
    assert (C' : counters s1 (concat ((fun a => pk s a i) <$> qs) ++ concat (if nonempty l then [(key s a, l)] else []).*2
                 ++ ring_packets (<[i := []]> rs))); [|by destruct C'].
    rewrite Permutation_app_swap_app. destruct l; cbn; [done | by rewrite app_nil_r].
Qed.

Lemma Pop_spec s t :
  refines s t ->
  exists s', Pop s = Some ((turns_pop s.(time_to_live_per_prio_) t).1, s') /\ same_but s s'
    /\ refines s' (turns_pop s.(time_to_live_per_prio_) t).2.
Proof.
  intros [[Hst Ht] Hnow Hpf Hp]. unfold Pop, turns_pop. rewrite (stands_size _ _ Hst), Ht.
  pose proof (ring_packets_nil _ _ Hst) as Hnil.
  destruct (first_from 0 (rings t)) as [i|] eqn:Ef.
  2: { rewrite (proj2 Hnil) by done. cbn. exists s. split_and!; [done..|]. constructor; [|done..]. split; [done|congruence]. }
  destruct (ring_packets (rings t)) as [|p0 l0] eqn:Er; [discriminate (proj1 Hnil eq_refl)|].
  cbn [nonempty negb mbind option_bind]. apply first_from_Some in Ef as [Hi Hlow].
  assert (Hil : (i < kNumPriorityLevels)%nat).
  { destruct (decide (i < kNumPriorityLevels)%nat); [done|]. unfold at_prio in Hi. rewrite lookup_ge_None_2 in Hi; [done|].
    rewrite (st_len _ _ Hst). lia. }
  pose proof (st_live _ _ Hst i Hil) as Hlive. pose proof (stands_rest _ _ i Hst Hil) as Hc.
  rewrite (st_rings _ _ Hst) in Hi |- * by done.
  destruct (at_prio (streams_by_prio_ s) i) as [|a qs] eqn:Eq; [done|].
  destruct (live_head _ _ _ _ Hlive) as (p & l & Hpl). rewrite ring_of_cons, Hpl.
  cbn [fmap list_fmap concat] in Hc. rewrite Hpl, <- app_assoc, <- app_comm_cons in Hc.
  destruct (DequeuePacket_spec s a i p l _ (st_ok _ _ Hst) Hpl Hc) as (s1 & -> & T & C). cbn [mbind option_bind].
  assert (Hd : exists k q, deref a (DequeuePacketInternal p s1) = Some (k, q) /\ at_prio q.(sq_packets) i = l).
  { pose proof (taken_pk _ _ _ T a i) as H. cbv beta in H. rewrite decide_True in H by done.
    destruct (deref a (DequeuePacketInternal p s1)) as [[k q]|] eqn:E.
    - exists k, q. split; [done|]. unfold pk in H. by rewrite E in H.
    - apply (deref_same s) in E; [|apply T]. exfalso. unfold pk in Hpl. by rewrite E in Hpl. }
  destruct Hd as (k & q & -> & Hq). cbn [mbind option_bind]. unfold HasPacketsAtPrio. rewrite Hq.
  generalize dependent (DequeuePacketInternal p s1). intros s2 T C.
  pose proof (Pop_turn s i a p l qs s2 _ (rings t) Hst Hil Eq Hpl T C eq_refl) as Hst2. unfold after_turn in Hst2.
  pose proof (taken_same _ _ _ T) as F. pose proof (taken_prios _ _ _ T) as Fp. pose proof (taken_top _ _ _ T) as Ft.
  assert (Hlow' : forall r j, (j < i)%nat -> at_prio (<[i := r]> (rings t)) j = []).
  { intros r j Hj. rewrite at_prio_insert, decide_False, Hlow by (rewrite ?(st_len _ _ Hst); lia). done. }
  assert (Hat : forall r, at_prio (<[i := r]> (rings t)) i = r).
  { intros r. apply at_prio_insert_eq. by rewrite (st_len _ _ Hst). }
  destruct l as [|p' l]; cbn [nonempty] in *.
  - rewrite app_nil_r in Hst2. destruct (MaybeUpdate_spec _ _ Hst2) as (s3 & E3 & F3 & R3).
    { intros i' j E Hj. apply Hlow'. cbn in E. rewrite Ft, Ht in E. by simplify_eq. }
    cbn in R3. rewrite Ft, Ht, Hat, (same_ttl _ _ F), (same_update _ _ F) in R3.
    exists s3. cbn [fst snd]. rewrite E3, Hnow. split; [done|]. split; [by eapply same_but_trans; [|exact F3]; destruct F; constructor|].
    destruct F, F3. constructor; cbn in *; [exact R3 | congruence..].
  - eexists. split; [done|]. split; [destruct F; by constructor|].
    assert (N : nonempty (ring_of s i qs ++ [(key s a, p' :: l)]) = true) by by destruct qs. rewrite N.
    destruct F. constructor; cbn; [|congruence..]. split; [exact Hst2|]. cbn. rewrite Ft, Ht. symmetry. apply first_from_Some.
    rewrite Hat. split; [by destruct qs | by apply Hlow'].
Qed.

(** *** The clock *)

Lemma stands_fields s s' rs :
  stands s rs -> s'.(streams_) = s.(streams_) -> s'.(streams_by_prio_) = s.(streams_by_prio_) ->
  s'.(next_address) = s.(next_address) -> counters s' (ring_packets rs) -> stands s' rs.
Proof.
  intros [[H1 H1' H1''] H2 H3 H4 H5 H6] Es Ep En Hc.
  assert (Hk : forall a, key s' a = key s a) by (intros a; unfold key, deref; by rewrite Es).
  assert (Hpk : forall a i, pk s' a i = pk s a i) by (intros a i; unfold pk, deref; by rewrite Es).
  constructor; [constructor; by rewrite Es, ?En|by rewrite Ep|done| | |done].
  - intros i Hi. rewrite Ep. destruct (H4 i Hi) as [Hn Hl]. split; [done|]. intros a. by rewrite Hpk.
  - intros i Hi. rewrite Ep, H5 by done. apply list_fmap_ext. intros _ a _. by rewrite Hk, Hpk.
Qed.

Lemma UpdateAverageQueueTime_fields now s :
  exists qt pt lt, UpdateAverageQueueTime now s = s <| queue_time_sum_ := qt |> <| pause_time_sum_ := pt |> <| last_update_time_ := lt |>.
Proof.
  unfold UpdateAverageQueueTime. destruct s as [? ? qt pt n ? ? lt p]. cbn [last_update_time_]. destruct (now =? lt); [by exists qt, pt, lt|].
  destruct p; [exists qt, (td_add pt (td_sub now lt)), now | exists (td_add qt (td_mul (td_sub now lt) n)), pt, now]; done.
Qed.

Lemma stands_update now s rs : stands s rs -> stands (UpdateAverageQueueTime now s) rs.
Proof.
  intros H. destruct (UpdateAverageQueueTime_fields now s) as (? & ? & ? & ->).
  apply (stands_fields s); [done..|]. by destruct (st_counters _ _ H).
Qed.

Lemma update_clock now s t :
  t.(t_now) = s.(last_update_time_) -> t.(t_paused_for) = s.(pause_time_sum_) -> t.(t_paused) = s.(paused_) ->
  let s' := UpdateAverageQueueTime now s in let t' := turns_update now t in
  t'.(t_now) = s'.(last_update_time_) /\ t'.(t_paused_for) = s'.(pause_time_sum_) /\ t'.(t_paused) = s'.(paused_)
  /\ t'.(rings) = t.(rings).
Proof.
  intros E1 E2 E3 s' t'. subst s' t'. unfold UpdateAverageQueueTime, turns_update. rewrite E1, E3.
  destruct (now =? _); [done|]. destruct (paused_ s) eqn:E; cbn; rewrite ?E2, ?E3, ?E; done.
Qed.

Lemma Update_spec now s t : refines s t -> refines (UpdateAverageQueueTime now s) (turns_update now t).
Proof.
  intros [[Hst Ht] E1 E2 E3]. destruct (update_clock now s t E1 E2 E3) as (? & ? & ? & Er). constructor; [|done..].
  rewrite Er. split; [by apply stands_update|].
  by destruct (UpdateAverageQueueTime_fields now s) as (? & ? & ? & ->).
Qed.

(** *** New streams, and old ones *)

Lemma deref_app a s l x :
  s.(streams_) = l ++ [x] ->
  deref a s = match List.find (fun kq : Z * StreamQueue => Nat.eqb kq.2.(address) a) l with
              | Some kq => Some kq | None => if Nat.eqb x.2.(address) a then Some x else None end.
Proof. intros E. unfold deref. rewrite E. clear E. induction l as [|y l IH]; cbn; [done|]. destruct (Nat.eqb y.2.(address) a); [done | exact IH]. Qed.

Lemma deref_fresh s a : streams_ok s -> (s.(next_address) <= a)%nat -> deref a s = None.
Proof.
  intros Hs Ha. destruct (deref a s) as [kq|] eqn:E; [|done]. apply deref_Some in E as [E <-]; [|done].
  pose proof (proj1 (Forall_forall _ _) (ok_queues _ Hs) kq E) as [H _]. lia.
Qed.

Lemma stands_new s rs ssrc now :
  stands s rs -> ~ ssrc ∈ s.(streams_).*1 ->
  let q := mkStreamQueue s.(next_address) (replicate kNumPriorityLevels []) now 0 in
  let s' := s <| streams_ ::= fun l => l ++ [(ssrc, q)] |> <| next_address ::= S |> in
  stands s' rs /\ deref s.(next_address) s' = Some (ssrc, q).
Proof.
  intros Hst Hn q s'. pose proof Hst as [Ho H2 H3 H4 H5 H6].
  assert (Hd : forall a, deref a s' = match deref a s with Some kq => Some kq | None => if Nat.eqb s.(next_address) a then Some (ssrc, q) else None end).
  { intros a. by rewrite (deref_app a s' s.(streams_) (ssrc, q)). }
  assert (Hpk : forall a i, pk s' a i = pk s a i).
  { intros a i. unfold pk. rewrite Hd. destruct (deref a s); [done|]. destruct (Nat.eqb _ _); [|done].
    cbn. by destruct i as [|[|[|[|[|i]]]]]. }
  split; [|by rewrite Hd, deref_fresh, Nat.eqb_refl by done]. constructor; [|done..| | |by destruct H6].
  - destruct Ho as [K1 K2 K3]. constructor; cbn -[kNumPriorityLevels].
    + rewrite fmap_app. apply NoDup_app. split_and!; [done| |by apply NoDup_singleton].
      intros x (kq & -> & Hk)%list_elem_of_fmap Hx%list_elem_of_singleton. cbn in Hx.
      pose proof (proj1 (Forall_forall _ _) K3 kq Hk) as [? _]. lia.
    + rewrite fmap_app. apply NoDup_app. split_and!; [done| |by apply NoDup_singleton].
      intros x Hx Hx'%list_elem_of_singleton. cbn in Hx'. by subst.
    + apply Forall_app. split; [|by apply Forall_singleton; cbn; split; [lia|]].
      eapply Forall_impl; [exact K3|]. intros kq (? & ? & ?). split_and!; [lia|done..].
  - intros i Hi. destruct (H4 i Hi) as [Hnd Hl]. split; [done|]. intros a. by rewrite Hpk.
  - intros i Hi. rewrite H5 by done. apply list_fmap_ext. intros x a Ha. rewrite Hpk. f_equal.
    unfold key. rewrite Hd. destruct (H4 i Hi) as [_ Hl]. apply list_elem_of_lookup_2, Hl, pk_Some in Ha as (kq & -> & _). done.
Qed.

Lemma NoDup_fmap_filter {A B} (g : A -> B) (f : A -> bool) l : NoDup (g <$> l) -> NoDup (g <$> List.filter f l).
Proof.
  induction l as [|x l IH]; [done|]. cbn. intros [Hx Hl]%NoDup_cons. destruct (f x); [|by apply IH]. cbn.
  apply NoDup_cons. split; [|by apply IH]. intros (y & E & Hy)%list_elem_of_fmap. apply in_filter in Hy as [Hy _].
  apply Hx, list_elem_of_fmap. eauto.
Qed.

Lemma IsEmpty_pk s a i kq : deref a s = Some kq -> IsEmpty kq.2 = true -> pk s a i = [].
Proof.
  intros E He. unfold pk. rewrite E. unfold IsEmpty in He. rewrite List.forallb_forall in He.
  unfold at_prio. destruct (_ !! i) as [l|] eqn:El; [|done]. cbn. specialize (He l).
  destruct l; [done|]. discriminate He. by eapply list_elem_of_In, list_elem_of_lookup_2.
Qed.

Lemma stands_cull now s rs : stands s rs -> stands (cull now s) rs.
Proof.
  intros Hst. unfold cull. destruct (_ >? _); [|done]. pose proof Hst as [Ho H2 H3 H4 H5 H6].
  set (f := fun kq : Z * StreamQueue => negb _). set (s' := upd_field _ _ _).
  assert (Ho' : streams_ok s').
  { destruct Ho as [K1 K2 K3]. constructor; cbn; [by apply NoDup_fmap_filter..|].
    apply Forall_forall. intros x [Hx _]%in_filter. by apply (proj1 (Forall_forall _ _) K3). }
  assert (Hd : forall a, deref a s' = match deref a s with Some kq => if f kq then Some kq else None | None => None end).
  { intros a. destruct (deref a s) as [kq|] eqn:E.
    - apply deref_Some in E as [E Ea]; [|done]. destruct (f kq) eqn:Ef.
      + apply deref_Some; [done|]. split; [|done]. cbn. by apply in_filter.
      + destruct (deref a s') as [x|] eqn:Ex; [|done]. apply deref_Some in Ex as [Ex Exa]; [|done]. cbn in Ex.
        apply in_filter in Ex as [Ex Exf]. assert (Some x = Some kq) as [= ->]; [|congruence].
        transitivity (deref a s); [symmetry|]; by apply deref_Some.
    - destruct (deref a s') as [x|] eqn:Ex; [|done]. unfold deref in E, Ex. apply List.find_some in Ex as [Ex Exa].
      apply List.find_none with (x := x) in E; [congruence|]. cbn in Ex. by apply List.filter_In in Ex as [Ex _]. }
  assert (Hpk : forall a i, pk s' a i = pk s a i).
  { intros a i. unfold pk at 1. rewrite Hd. destruct (deref a s) as [kq|] eqn:E; [|by unfold pk; rewrite E].
    destruct (f kq) eqn:Ef; [by unfold pk; rewrite E|]. unfold f in Ef. apply negb_false_iff, andb_prop in Ef as [Ef _].
    symmetry. by eapply IsEmpty_pk. }
  constructor; [done..| | |by destruct H6].
  - intros i Hi. destruct (H4 i Hi) as [Hnd Hl]. split; [done|]. intros a. by rewrite Hpk.
  - intros i Hi. rewrite H5 by done. apply list_fmap_ext. intros x a Ha. rewrite Hpk. f_equal.
    destruct (H4 i Hi) as [_ Hl]. apply list_elem_of_lookup_2, Hl in Ha. rewrite <- Hpk in Ha. unfold key. rewrite Hd.
    unfold pk in Ha. rewrite Hd in Ha. destruct (deref a s) as [kq|]; [|done]. by destruct (f kq).
Qed.

(** *** Packets pushed *)

Lemma key_inj s a a' k q q' : streams_ok s -> deref a s = Some (k, q) -> deref a' s = Some (k, q') -> a = a'.
Proof.
  intros Hs H H'. apply deref_Some in H as [H <-]; [|done]. apply deref_Some in H' as [H' <-]; [|done].
  apply list_elem_of_lookup in H as [i Hi], H' as [j Hj].
  assert (i = j) as ->; [|congruence]. apply (NoDup_lookup s.(streams_).*1 _ _ k (ok_keys _ Hs)); rewrite list_lookup_fmap.
  - by rewrite Hi.
  - by rewrite Hj.
Qed.

Lemma enqueue_ring_of s s' i a qs p k q :
  streams_ok s -> live s i qs -> deref a s = Some (k, q) -> (forall a', key s' a' = key s a') ->
  (forall a' j, pk s' a' j = if decide (a' = a /\ j = i) then pk s a i ++ [p] else pk s a' j) ->
  let qs' := if nonempty (pk s a i) then qs else qs ++ [a] in
  live s' i qs' /\ enqueue_ring k p (ring_of s i qs) = ring_of s' i qs'.
Proof.
  intros Hs Hlive Hd Hk H' qs'. pose proof Hlive as [Hn Hl].
  assert (Hpk : pk s' a i = pk s a i ++ [p]) by by rewrite H', decide_True.
  assert (Hka : key s a = k) by (unfold key; by rewrite Hd).
  assert (Hex : existsb (fun e : Z * list QueuedPacket => e.1 =? k) (ring_of s i qs) = nonempty (pk s a i)).
  { apply eq_true_iff_eq. rewrite List.existsb_exists. split.
    - intros (e & He & E). apply list_elem_of_In, list_elem_of_fmap in He as (a' & -> & Ha'). cbn in E.
      apply Z.eqb_eq in E. apply Hl in Ha'. pose proof Ha' as Hne. apply pk_Some in Ha' as ([k' q'] & E' & _).
      unfold key in E. rewrite E' in E. cbn in E. subst k'. rewrite (key_inj s a a' k q q'); [|done..]. by destruct (pk s a' i).
    - intros E. exists (k, pk s a i). split; [|by apply Z.eqb_refl]. apply list_elem_of_In, list_elem_of_fmap.
      exists a. rewrite Hka. split; [done|]. apply Hl. by destruct (pk s a i). }
  unfold enqueue_ring. rewrite Hex. subst qs'. destruct (pk s a i) as [|p0 l0] eqn:Ea; cbn [nonempty].
  - assert (Ha : ~ a ∈ qs) by (rewrite Hl, Ea; intros N; by apply N). split.
    + split; [apply NoDup_app; split_and!; [done| |by apply NoDup_singleton]; by intros x Hx ->%list_elem_of_singleton|].
      intros a'. rewrite elem_of_app, list_elem_of_singleton, H'. destruct (decide (a' = a)) as [->|N].
      * rewrite decide_True by done. split; [done | by right].
      * rewrite decide_False by tauto. rewrite <- Hl. tauto.
    + unfold ring_of. rewrite fmap_app. cbn. rewrite Hpk, Hk, Hka. f_equal.
      apply list_fmap_ext. intros x a' Hx%list_elem_of_lookup_2. rewrite Hk, H', decide_False; [done|]. by intros [-> _].
  - split.
    + split; [done|]. intros a'. rewrite Hl, H'. case_decide as E; [|done]. destruct E as [-> _]. by rewrite Ea.
    + unfold ring_of. rewrite <- list_fmap_compose. apply list_fmap_ext. intros x a' Hx%list_elem_of_lookup_2. cbn.
      rewrite Hk, H'. destruct (Z.eqb_spec (key s a') k) as [E|N].
      * apply Hl, pk_Some in Hx as ([k' q'] & E' & _). unfold key in E. rewrite E' in E. cbn in E. subst k'.
        rewrite (key_inj s a' a k q' q), Ea by done. rewrite decide_True by done. by rewrite Hka.
      * rewrite decide_False; [done|]. intros [-> _]. congruence.
Qed.

(** The middle of [Push]: the counters, the packet and its turn. *)
Definition enqueued (a i : nat) (q : StreamQueue) (qp : QueuedPacket) (s : PrioritizedPacketQueue) : PrioritizedPacketQueue :=
  let s := s <| size_packets_ ::= fun n => n + 1 |> <| size_packets_per_media_type_ ::= count_type 1 qp.(packet).(pk_type) |>
             <| size_payload_ ::= fun n => n + PacketSize qp |> in
  let s := write_at a (fun q => (EnqueuePacket qp i q).2) s in
  if (EnqueuePacket qp i q).1 then s <| streams_by_prio_ ::= alter (fun l => l ++ [a]) i |> else s.

Lemma counters_push s qp l :
  counters s l ->
  counters (s <| size_packets_ ::= fun n => n + 1 |> <| size_packets_per_media_type_ ::= count_type 1 qp.(packet).(pk_type) |>
             <| size_payload_ ::= fun n => n + PacketSize qp |>) (qp :: l).
Proof.
  intros [H1 H2 H3]. constructor; cbn -[zlen].
  - rewrite H1, zlen_cons. lia.
  - rewrite H2. symmetry. apply (types_of_count 1 _ l).
  - rewrite H3. apply Z.add_comm.
Qed.

Lemma concat_push {A} (f g : A -> list QueuedPacket) (a : A) p qs :
  NoDup qs -> a ∈ qs -> g a = f a ++ [p] -> (forall a', a' ∈ qs -> a' <> a -> g a' = f a') ->
  concat (g <$> qs) ≡ₚ p :: concat (f <$> qs).
Proof.
  intros Hn Ha Ea Eo. induction Hn as [|x qs Hx Hn IH]; [by apply not_elem_of_nil in Ha|]. cbn.
  apply elem_of_cons in Ha as [<-|Ha].
  - rewrite Ea, <- app_assoc, (list_fmap_ext g f qs); [apply Permutation_app_swap_app|].
    intros i a' Hi%list_elem_of_lookup_2. apply Eo; [by constructor|]. by intros ->.
  - rewrite IH; [|done|by intros a' H; apply Eo; constructor]. rewrite Eo; [|constructor|by intros ->]. by rewrite Permutation_middle.
Qed.

Lemma enqueued_spec s rs a i k q qp :
  stands s rs -> deref a s = Some (k, q) -> (i < kNumPriorityLevels)%nat ->
  stands (enqueued a i q qp s) (alter (enqueue_ring k qp) i rs).
Proof.
  intros Hst Hd Hi. unfold enqueued. set (s0 := upd_field size_payload_ _ _).
  assert (Hst0 : streams_ok s0) by by destruct (st_ok _ _ Hst).
  assert (Hq : at_prio q.(sq_packets) i = pk s a i) by (unfold pk; by rewrite Hd).
  assert (Hlen : length q.(sq_packets) = kNumPriorityLevels).
  { apply deref_Some in Hd as [Hin _]; [|apply Hst]. by pose proof (proj1 (Forall_forall _ _) (ok_queues _ (st_ok _ _ Hst)) _ Hin) as (_ & ? & _). }
  rewrite (write_at_ext s0 a _ (with_level i (pk s a i ++ [qp]) (count_key qp))); [|done|].
  2: { intros kq E. change (deref a s = Some kq) in E. rewrite Hd in E. injection E as <-. cbn [fst snd].
       unfold with_level. rewrite <- Hq, <- (at_prio_alter (fun l => l ++ [qp])) by (rewrite Hlen; done). done. }
  destruct (write_level s0 a (k, q) i (pk s a i ++ [qp]) (count_key qp)) as (W1 & W2 & W3); [done|done|done| |].
  { rewrite total_app. simpl. change (pk s0 a i) with (pk s a i). lia. }
  set (s1 := write_at a _ s0) in *. unfold EnqueuePacket, HasPacketsAtPrio. rewrite Hq. cbn [fst].
  pose proof (st_live _ _ Hst i Hi) as Hlive.
  destruct (enqueue_ring_of s s1 i a _ qp k q (st_ok _ _ Hst) Hlive Hd) as [L E]; [by intros; apply (key_same s0 s1)|done|].
  rewrite at_prio_alter, (st_rings _ _ Hst) by (rewrite ?(st_len _ _ Hst); done). rewrite E.
  set (qs' := if nonempty (pk s a i) then _ else _) in *.
  assert (Hc : counters s1 (concat (ring_of s1 i qs').*2 ++ ring_packets (<[i := []]> rs))).
  { assert (C : counters s0 (qp :: ring_packets rs)) by apply counters_push, Hst.
    rewrite (ring_packets_split i), (st_rings _ _ Hst), ring_of_packets in C by (rewrite ?(st_len _ _ Hst); done).
    rewrite ring_of_packets.
    assert (P : concat ((fun a => pk s1 a i) <$> qs') ≡ₚ qp :: concat ((fun a => pk s a i) <$> at_prio s.(streams_by_prio_) i)).
    { assert (Hself : pk s1 a i = pk s a i ++ [qp]) by (rewrite W3; by rewrite decide_True).
      assert (Hoth : forall a', a' <> a -> pk s1 a' i = pk s a' i) by (intros a' N; by rewrite W3, decide_False by tauto).
      destruct Hlive as [Hn Hl]. subst qs'. destruct (pk s a i) as [|p0 l0] eqn:Ea; cbn [nonempty].
      - rewrite fmap_app, concat_app. cbn. rewrite Hself. cbn. rewrite (list_fmap_ext _ (fun a => pk s a i) (at_prio _ i)).
        + by rewrite <- Permutation_cons_append.
        + intros x a' Hx%list_elem_of_lookup_2. apply Hoth. intros ->. by apply Hl in Hx.
      - apply (concat_push _ _ a); [done| |by rewrite Hself, Ea|by intros; apply Hoth]. apply Hl. by rewrite Ea. }
    rewrite P. by destruct C. }
  apply (stands_change s _ rs i qs').
  - done.
  - done.
  - unfold negb. destruct (pk s a i); [|done]. by destruct W1.
  - intros a'. unfold negb. destruct (pk s a i); by apply (key_same s0 s1).
  - subst qs'. destruct (pk s a i); cbn; [by rewrite at_prio_alter by by rewrite (st_prios _ _ Hst)|].
    rewrite list_insert_id; [done|]. unfold at_prio. by destruct (lookup_lt_is_Some_2 s.(streams_by_prio_) i) as [x ->]; [rewrite (st_prios _ _ Hst)|].
  - intros a' j N. transitivity (pk s1 a' j); [unfold negb; by destruct (pk s a i)|]. rewrite W3, decide_False; [done|]. by intros [_ ?].
  - unfold negb. by destruct (pk s a i).
  - unfold negb. by destruct (pk s a i).
  - unfold negb. destruct (pk s a i); [|done]. by destruct Hc.
Qed.

Lemma first_from_insert {A} (rs : list (list A)) i r :
  (i < length rs)%nat -> r <> [] ->
  first_from 0 (<[i := r]> rs) = match first_from 0 rs with Some j => if (i <? j)%nat then Some i else Some j | None => Some i end.
Proof.
  intros Hi Hr. destruct (first_from 0 rs) as [j|] eqn:E.
  - apply first_from_Some in E as [Hj Hlow]. destruct (Nat.ltb_spec i j) as [L|L]; apply first_from_Some.
    + rewrite at_prio_insert_eq by done. split; [done|]. intros j' Hj'. rewrite at_prio_insert, decide_False by lia. apply Hlow. lia.
    + rewrite at_prio_insert by done. split; [by case_decide|]. intros j' Hj'. rewrite at_prio_insert, decide_False by lia. by apply Hlow.
  - rewrite first_from_None in E. apply first_from_Some. rewrite at_prio_insert_eq by done. split; [done|].
    intros j' Hj'. rewrite at_prio_insert, decide_False by lia. apply E.
Qed.

(** What the calls leave of the queue: its configuration, and the numbers of the packets. *)
Definition same_config (s s' : PrioritizedPacketQueue) : Prop :=
  s'.(time_to_live_per_prio_) = s.(time_to_live_per_prio_)
  /\ s'.(prioritize_audio_retransmission_) = s.(prioritize_audio_retransmission_).

Lemma stream_of_spec s rs ssrc now :
  stands s rs ->
  exists a q l n, stream_of ssrc now s = (a, s <| streams_ := l |> <| next_address := n |>)
    /\ stands (s <| streams_ := l |> <| next_address := n |>) rs
    /\ deref a (s <| streams_ := l |> <| next_address := n |>) = Some (ssrc, q).
Proof.
  intros Hst. unfold stream_of. destruct (List.find _ _) as [[k q]|] eqn:E.
  - apply List.find_some in E as [Hin E]. cbn in E. apply Z.eqb_eq in E as ->. exists q.(address), q, s.(streams_), s.(next_address).
    destruct s as [? ? ? ? ? ? ? ? ? ? ss ? ? ? na ?]. split; [done|]. split; [done|].
    apply (deref_Some _ _ (ssrc, q)); [apply Hst|]. split; [by apply list_elem_of_In|done].
  - destruct (stands_new s rs ssrc now Hst) as [H1 H2].
    + intros (kq & -> & Hk)%list_elem_of_fmap. apply List.find_none with (x := kq) in E; [|by apply list_elem_of_In].
      cbn in E. lia.
    + do 4 eexists. split; [reflexivity|]. split; [exact H1 | exact H2].
Qed.

Lemma cull_fields now s : exists l c, cull now s = s <| streams_ := l |> <| last_culling_time_ := c |>.
Proof. unfold cull. destruct (_ >? _); [by do 2 eexists|]. exists s.(streams_), s.(last_culling_time_). by destruct s. Qed.

Lemma ready_cull now s rs : ready s rs -> ready (cull now s) rs.
Proof.
  intros [H Ht]. split; [by apply stands_cull|]. by destruct (cull_fields now s) as (? & ? & ->).
Qed.

Lemma prio_level p b : (GetPriorityForType (pk_type p) (if b : bool then pk_original p else None) < kNumPriorityLevels)%nat.
Proof. unfold kNumPriorityLevels. destruct (pk_type p), b; cbn; try lia; destruct (pk_original p) as [[]|]; lia. Qed.

Lemma enqueue_ring_nonempty k p r : enqueue_ring k p r <> [].
Proof. unfold enqueue_ring. destruct (existsb _ r) eqn:E; [by destruct r | by destruct r]. Qed.

Lemma Push_spec now p s t :
  refines s t ->
  exists s', Push now p s = Some s' /\ same_config s s' /\ s'.(next_iterator) = S s.(next_iterator)
    /\ refines s' (turns_push s.(time_to_live_per_prio_) (turns_prio s.(prioritize_audio_retransmission_) p) s.(next_iterator) now p t).
Proof.
  intros [[Hst Ht] E1 E2 E3]. unfold Push.
  destruct (stream_of_spec s _ p.(pk_ssrc) now Hst) as (a & q & l & n & -> & Hst1 & Hd1).
  set (s2 := upd_field next_iterator _ _). change (prio_of s2 p) with (turns_prio s.(prioritize_audio_retransmission_) p).
  pose proof (prio_level p s.(prioritize_audio_retransmission_)) as Hi. set (i := turns_prio _ p) in *.
  change (GetPriorityForType _ _) with i in Hi.
  assert (Hst2 : stands s2 t.(rings)) by (apply (stands_fields _ s2 _ Hst1); [done..|]; by destruct (st_counters _ _ Hst)).
  destruct (Purge_spec s2 _ i now Hst2 Hi) as (s3 & -> & F & Ft & Hst3). cbn [mbind option_bind].
  pose proof (same_keys _ _ F a) as Hd3. change (deref a s2) with (deref a (s <| streams_ := l |> <| next_address := n |>)) in Hd3.
  rewrite Hd1 in Hd3. destruct (deref a s3) as [[k q3]|] eqn:Ed3; [|done]. injection Hd3 as ->.
  destruct (update_clock now s3 t) as (C1 & C2 & C3 & _);
    [by rewrite (same_update _ _ F) | by rewrite (same_pause _ _ F) | by rewrite (same_paused _ _ F)|].
  pose proof (stands_update now _ _ Hst3) as Hst4.
  set (s4 := UpdateAverageQueueTime now s3) in *.
  assert (Hd4 : deref a s4 = Some (pk_ssrc p, q3)) by (unfold s4; by destruct (UpdateAverageQueueTime_fields now s3) as (? & ? & ? & ->)).
  cbv beta zeta. set (qp := mkQueued p _ _).
  match goal with |- context [deref a ?x] => change (deref a x) with (deref a s4) end. rewrite Hd4. cbn [mbind option_bind].
  match goal with |- context [match top_active_prio_level_ ?x with _ => _ end] => change x with (enqueued a i q3 qp s4) end.
  pose proof (enqueued_spec s4 _ a i _ q3 qp Hst4 Hd4 Hi) as Hst6. set (s6 := enqueued a i q3 qp s4) in *.
  assert (F4 : s4.(top_active_prio_level_) = s3.(top_active_prio_level_) /\ same_config s3 s4 /\ s4.(next_iterator) = s3.(next_iterator)).
  { unfold s4. by destruct (UpdateAverageQueueTime_fields now s3) as (? & ? & ? & ->). }
  assert (F6 : s6.(top_active_prio_level_) = s4.(top_active_prio_level_) /\ same_config s4 s6 /\ s6.(next_iterator) = s4.(next_iterator)
    /\ s6.(last_update_time_) = s4.(last_update_time_) /\ s6.(pause_time_sum_) = s4.(pause_time_sum_) /\ s6.(paused_) = s4.(paused_)).
  { unfold s6, enqueued. by destruct ((EnqueuePacket _ _ _).1). }
  clearbody s6. destruct F4 as (T4 & [A4 B4] & N4), F6 as (T6 & [A6 B6] & N6 & U6 & P6 & Z6), F as [B3 A3 P3 U3 Z3 N3 _].
  set (s7 := match s6.(top_active_prio_level_) with Some _ => _ | None => _ end).
  assert (F7 : same_config s6 s7 /\ s7.(next_iterator) = s6.(next_iterator) /\ s7.(last_update_time_) = s6.(last_update_time_)
     /\ s7.(pause_time_sum_) = s6.(pause_time_sum_) /\ s7.(paused_) = s6.(paused_)).
  { unfold s7. destruct (s6.(top_active_prio_level_)) as [j|]; [destruct (i <? j)%nat|]; done. }
  exists (cull now s7). split; [done|].
  assert (R7 : ready s7 (alter (enqueue_ring (pk_ssrc p) qp) i (purge_at s.(time_to_live_per_prio_) now i t.(rings)))).
  { split; [by unfold s7; destruct (s6.(top_active_prio_level_)) as [j|]; [destruct (i <? j)%nat|]; try apply stands_top|].
    assert (Hl : (i < length t.(rings))%nat) by by rewrite (st_len _ _ Hst).
    unfold purge_at. rewrite (at_prio_alter (purge_ring _ _)) by done. rewrite at_prio_alter by by rewrite length_insert.
    rewrite list_insert_insert_eq, first_from_insert, <- Ht by (done || apply enqueue_ring_nonempty).
    assert (E : s6.(top_active_prio_level_) = s.(top_active_prio_level_)) by (rewrite T6, T4, Ft; done).
    unfold s7. rewrite E. destruct (s.(top_active_prio_level_)) as [j|]; [|done]. by destruct (i <? j)%nat. }
  clearbody s7. apply (ready_cull now) in R7. destruct F7 as ([A7 B7] & N7 & U7 & P7 & Z7).
  destruct (cull_fields now s7) as (l' & c' & Ec). rewrite Ec in *. clear Ec.
  split; [split; cbn; [rewrite A7, A6, A4, A3 | rewrite B7, B6, B4, B3]; done|].
  split; [cbn; rewrite N7, N6, N4, N3; done|]. constructor.
  - unfold turns_push. cbn -[turns_update purge_at enqueue_ring]. rewrite C2. exact R7.
  - cbn -[turns_update]. by rewrite U7, U6.
  - cbn -[turns_update]. by rewrite P7, P6.
  - cbn -[turns_update]. by rewrite Z7, Z6.
Qed.

(** *** Streams removed *)

(** Only the counters and the turns differ. *)
Record turns_differ (s s' : PrioritizedPacketQueue) : Prop := {
  td_same : same_but s s';
  td_streams : s'.(streams_) = s.(streams_);
  td_address : s'.(next_address) = s.(next_address);
  td_top : s'.(top_active_prio_level_) = s.(top_active_prio_level_);
}.

Lemma turns_differ_trans s1 s2 s3 : turns_differ s1 s2 -> turns_differ s2 s3 -> turns_differ s1 s3.
Proof. intros [] []. constructor; [by eapply same_but_trans | congruence..]. Qed.

Lemma fold_internal l r s :
  counters s (l ++ r) ->
  let s' := fold_left (fun s p => DequeuePacketInternal p s) l s in
  counters s' r /\ turns_differ s s' /\ s'.(streams_by_prio_) = s.(streams_by_prio_).
Proof.
  revert s. induction l as [|p l IH]; intros s H; [done|]. cbn [fold_left]. apply counters_internal in H.
  destruct (IH _ H) as (H1 & H2 & H3). split_and!; [done|eapply turns_differ_trans; [|exact H2]; by constructor|done].
Qed.

(** [streams_by_prio_] at a level without a queue. *)
Definition deregister (a : nat) (qs : list nat) : list nat :=
  match qs with [_] => [] | _ => List.filter (fun a' => negb (Nat.eqb a' a)) qs end.

Lemma remove_levels_cons p l ps prio a s :
  remove_levels ((p :: l) :: ps) prio a s
  = let s1 := fold_left (fun s p => DequeuePacketInternal p s) (p :: l) s in
    remove_levels ps (S prio) a (s1 <| streams_by_prio_ ::= <[prio := deregister a (at_prio s1.(streams_by_prio_) prio)]> |>).
Proof. done. Qed.

Lemma remove_levels_spec ps prio a s r :
  counters s (concat ps ++ r) -> (prio + length ps <= length s.(streams_by_prio_))%nat ->
  let s' := remove_levels ps prio a s in
  counters s' r /\ turns_differ s s' /\ length s'.(streams_by_prio_) = length s.(streams_by_prio_)
  /\ forall i, at_prio s'.(streams_by_prio_) i
       = if (prio <=? i)%nat && nonempty (at_prio ps (i - prio)) then deregister a (at_prio s.(streams_by_prio_) i)
         else at_prio s.(streams_by_prio_) i.
Proof.
  revert prio s. induction ps as [|[|p l] ps IH]; intros prio s Hc Hlen; simpl in Hlen.
  - split_and!; [done|by constructor|done|]. intros i. cbn. by rewrite andb_false_r.
  - destruct (IH (S prio) s Hc) as (H1 & H2 & H3 & H4); [lia|]. split_and!; [done..|]. intros i. cbn [remove_levels]. rewrite H4.
    destruct (Nat.leb_spec (S prio) i), (Nat.leb_spec prio i); try lia; cbn [andb].
    + by replace (i - prio)%nat with (S (i - S prio)) by lia.
    + by replace (i - prio)%nat with 0%nat by lia.
    + done.
  - rewrite remove_levels_cons. cbn [concat] in Hc. rewrite <- app_assoc in Hc.
    destruct (fold_internal (p :: l) (concat ps ++ r) s Hc) as (C & T & Ep). cbv zeta.
    generalize dependent (fold_left (fun s p => DequeuePacketInternal p s) (p :: l) s). intros s1 C T Ep. set (s2 := upd_field _ _ s1).
    destruct (IH (S prio) s2) as (H1 & H2 & H3 & H4); [by destruct C|by cbn; rewrite length_insert, Ep; lia|].
    split; [done|]. split; [eapply turns_differ_trans; [exact T|]; eapply turns_differ_trans; [|exact H2]; by constructor|].
    split; [rewrite H3; cbn; by rewrite length_insert, Ep|]. intros i. rewrite H4. cbn [s2 upd_field streams_by_prio_].
    change (streams_by_prio_ s2) with (<[prio := deregister a (at_prio s1.(streams_by_prio_) prio)]> s1.(streams_by_prio_)).
    rewrite at_prio_insert, Ep by (rewrite Ep; lia).
    destruct (Nat.leb_spec (S prio) i), (Nat.leb_spec prio i); try lia; cbn [andb]; case_decide; try lia.
    + by replace (i - prio)%nat with (S (i - S prio)) by lia.
    + subst i. by rewrite Nat.sub_diag.
    + done.
Qed.

Definition others (a : nat) (qs : list nat) : list nat := List.filter (fun a' => negb (Nat.eqb a' a)) qs.
Definition without (ssrc : Z) (r : Ring) : Ring := List.filter (fun e => negb (e.1 =? ssrc)) r.

Lemma others_id a qs : ~ a ∈ qs -> others a qs = qs.
Proof.
  induction qs as [|x qs IH]; [done|]. intros [N H]%not_elem_of_cons. unfold others in *. cbn.
  destruct (Nat.eqb_spec x a); [congruence|]. cbn. by rewrite IH.
Qed.

Lemma deregister_others a qs : a ∈ qs -> deregister a qs = others a qs.
Proof.
  destruct qs as [|x [|y qs]]; [done| |done]. intros ->%list_elem_of_singleton. unfold others. cbn. by rewrite Nat.eqb_refl.
Qed.

Lemma others_packets {A} (f : nat -> list A) a qs :
  NoDup qs -> (~ a ∈ qs -> f a = []) -> concat (f <$> qs) ≡ₚ f a ++ concat (f <$> others a qs).
Proof.
  induction 1 as [|x qs Hx Hn IH]; intros Ha.
  - rewrite Ha by apply not_elem_of_nil. done.
  - unfold others in *. cbn. destruct (Nat.eqb_spec x a) as [->|N]; cbn.
    + by rewrite (others_id a qs Hx : List.filter _ qs = qs).
    + rewrite IH; [apply Permutation_app_swap_app|]. intros Ha'. apply Ha. by apply not_elem_of_cons.
Qed.

Lemma without_ring_of s i qs a k q :
  streams_ok s -> live s i qs -> deref a s = Some (k, q) -> without k (ring_of s i qs) = ring_of s i (others a qs).
Proof.
  intros Hs [_ Hl] Hd. assert (H : forall a', a' ∈ qs -> (key s a' =? k) = Nat.eqb a' a).
  { intros a' Ha'. apply Hl, pk_Some in Ha' as ([k' q'] & E & _). unfold key. rewrite E. cbn.
    destruct (Nat.eqb_spec a' a) as [->|N]; [rewrite Hd in E; injection E as -> ->; apply Z.eqb_refl|].
    apply Z.eqb_neq. intros ->. apply N. by eapply key_inj. }
  clear Hl. unfold without, ring_of, others in *. induction qs as [|x qs IH]; [done|]. cbn. rewrite H by constructor.
  destruct (Nat.eqb x a); cbn; rewrite IH; try done; intros a' Ha'; apply H; by constructor.
Qed.

Lemma ring_packets_without (k : Z) (ps : list (list QueuedPacket)) (rs : list Ring) :
  length ps = length rs -> (forall i, concat (at_prio rs i).*2 ≡ₚ at_prio ps i ++ concat (without k (at_prio rs i)).*2) ->
  ring_packets rs ≡ₚ concat ps ++ ring_packets (without k <$> rs).
Proof.
  unfold ring_packets. revert ps. induction rs as [|r rs IH]; intros [|p ps] E H; simpl in E; try lia; [done|]. cbn.
  rewrite (IH ps); [|lia|by intros i; apply (H (S i))]. rewrite (H 0%nat : concat r.*2 ≡ₚ p ++ concat (without k r).*2).
  rewrite <- !app_assoc. apply Permutation_app_head. apply Permutation_app_swap_app.
Qed.

Lemma at_prio_without k rs i : at_prio (without k <$> rs) i = without k (at_prio rs i).
Proof. unfold at_prio. rewrite list_lookup_fmap. by destruct (rs !! i). Qed.

Lemma remove_stands s rs a ssrc q :
  stands s rs -> deref a s = Some (ssrc, q) ->
  let f := fun q => q <| sq_packets := replicate kNumPriorityLevels [] |> <| num_keyframe_packets_ := 0 |> in
  let s' := remove_levels q.(sq_packets) 0 a (write_at a f s) in
  stands s' (without ssrc <$> rs) /\ turns_differ (write_at a f s) s'.
Proof.
  intros Hst Hd f s'. pose proof (st_ok _ _ Hst) as Hs. destruct (queue_ok s a _ Hs Hd) as [Hlen _]. cbn in Hlen.
  destruct (write_ok s a (ssrc, q) f Hs Hd) as (W1 & W2 & W3); [done..|]. cbv zeta in *. set (s1 := write_at a f s) in *.
  assert (Ep : forall j, at_prio q.(sq_packets) j = pk s a j) by (intros j; unfold pk; by rewrite Hd).
  assert (P1 : forall a' j, pk s1 a' j = if decide (a' = a) then [] else pk s a' j).
  { intros a' j. rewrite W3. case_decide; [|done]. cbn. by destruct j as [|[|[|[|[|j]]]]]. }
  assert (Hr : ring_packets rs ≡ₚ concat q.(sq_packets) ++ ring_packets (without ssrc <$> rs)).
  { apply ring_packets_without; [by rewrite Hlen, (st_len _ _ Hst)|]. intros i. rewrite Ep.
    destruct (decide (i < kNumPriorityLevels)%nat) as [Hi|Hi].
    - pose proof (st_live _ _ Hst i Hi) as Hlive. rewrite (st_rings _ _ Hst) by done.
      rewrite (without_ring_of s i _ a ssrc q), !ring_of_packets by done. destruct Hlive as [Hn Hl].
      apply (others_packets (fun a => pk s a i)); [done|]. intros N. destruct (pk s a i) eqn:E; [done|]. exfalso. apply N, Hl. by rewrite E.
    - rewrite pk_not by (done || lia). unfold at_prio. by rewrite lookup_ge_None_2 by (rewrite (st_len _ _ Hst); lia). }
  pose proof (st_counters _ _ Hst) as C. rewrite Hr in C.
  assert (C1 : counters s1 (concat q.(sq_packets) ++ ring_packets (without ssrc <$> rs))) by by destruct C.
  destruct (remove_levels_spec q.(sq_packets) 0 a s1 _ C1) as (C' & T & Hl' & Hp').
  { rewrite Hlen. change (kNumPriorityLevels <= length s.(streams_by_prio_))%nat. by rewrite (st_prios _ _ Hst). }
  fold s' in C', T, Hl', Hp'. split; [|done].
  assert (Hd' : forall x, deref x s' = deref x s1) by (intros x; unfold deref; by rewrite (td_streams _ _ T)).
  assert (P' : forall x j, pk s' x j = if decide (x = a) then [] else pk s x j) by (intros x j; unfold pk at 1; rewrite Hd'; apply P1).
  assert (K' : forall x, key s' x = key s x) by (intros x; rewrite <- (key_same s s1 x W2); unfold key; by rewrite Hd').
  assert (B' : forall i, (i < kNumPriorityLevels)%nat -> at_prio s'.(streams_by_prio_) i = others a (at_prio s.(streams_by_prio_) i)).
  { intros i Hi. destruct (st_live _ _ Hst i Hi) as [_ Hl]. rewrite Hp', Nat.sub_0_r, Ep. cbn [Nat.leb andb].
    change (streams_by_prio_ s1) with (streams_by_prio_ s). specialize (Hl a). destruct (pk s a i); cbn [nonempty].
    - symmetry. apply others_id. intros N. by apply Hl in N.
    - apply deregister_others. by apply Hl. }
  constructor.
  - destruct W1 as [K1 K2 K3]. constructor; rewrite (td_streams _ _ T), ?(td_address _ _ T); done.
  - rewrite Hl'. apply Hst.
  - rewrite length_fmap. apply Hst.
  - intros i Hi. destruct (st_live _ _ Hst i Hi) as [Hn Hl]. rewrite B' by done. split; [by apply NoDup_List_filter|].
    intros x. unfold others. rewrite in_filter, P', Hl. destruct (Nat.eqb_spec x a), (decide (x = a)); try done; cbn; naive_solver.
  - intros i Hi. rewrite at_prio_without, (st_rings _ _ Hst), B' by done.
    rewrite (without_ring_of s i _ a ssrc q Hs (st_live _ _ Hst i Hi) Hd).
    apply list_fmap_ext. intros n x [_ N]%list_elem_of_lookup_2%in_filter. rewrite K', P', decide_False; [done|].
    intros ->. by rewrite Nat.eqb_refl in N.
  - done.
Qed.

Lemma Remove_spec ssrc s t :
  refines s t ->
  exists s', RemovePacketsForSsrc ssrc s = Some s' /\ same_config s s' /\ s'.(next_iterator) = s.(next_iterator)
    /\ refines s' (turns_remove s.(time_to_live_per_prio_) ssrc t).
Proof.
  intros [[Hst Ht] E1 E2 E3]. unfold RemovePacketsForSsrc.
  set (s1 := match List.find _ _ with Some _ => _ | None => _ end).
  assert (H1 : stands s1 (without ssrc <$> t.(rings)) /\ same_but s s1 /\ s1.(top_active_prio_level_) = s.(top_active_prio_level_)).
  { unfold s1. destruct (List.find _ _) as [[k q]|] eqn:E.
    - apply List.find_some in E as [Hin E]. cbn in E. apply Z.eqb_eq in E as ->.
      assert (Hd : deref q.(address) s = Some (ssrc, q)) by (apply deref_Some; [apply Hst|]; split; [by apply list_elem_of_In | done]).
      destruct (remove_stands s _ _ _ _ Hst Hd) as [H T]. cbn [fst snd]. split; [exact H|].
      destruct (write_ok s q.(address) (ssrc, q) (fun q => q <| sq_packets := replicate kNumPriorityLevels [] |> <| num_keyframe_packets_ := 0 |>))
        as (_ & W & _); [apply Hst|done..|]. split; [eapply same_but_trans; [exact W | apply T]|]. by rewrite (td_top _ _ T).
    - split; [|done]. replace (without ssrc <$> rings t) with (rings t); [done|]. symmetry. apply levels_ext; [by rewrite length_fmap|].
      rewrite length_fmap, (st_len _ _ Hst). intros i Hi. rewrite at_prio_without, (st_rings _ _ Hst) by done.
      destruct (st_live _ _ Hst i Hi) as [_ Hl]. unfold without. apply List.forallb_filter_id, List.forallb_forall.
      intros e (a & -> & Ha)%list_elem_of_In%list_elem_of_fmap. apply Hl, pk_Some in Ha as (kq & Hd & _). cbn. unfold key. rewrite Hd. cbn.
      apply deref_Some in Hd as [Hin _]; [|apply Hst]. apply List.find_none with (x := kq) in E; [by rewrite E|by apply list_elem_of_In]. }
  clearbody s1. destruct H1 as (Hst1 & F & Ft). destruct (MaybeUpdate_spec s1 _ Hst1) as (s' & -> & F' & R).
  { intros i j E Hj. rewrite Ft, Ht in E. apply first_from_Some in E as [_ E]. rewrite at_prio_without, E by done. done. }
  rewrite Ft, Ht, (same_ttl _ _ F), (same_update _ _ F), <- E1 in R. exists s'. destruct F, F'.
  split; [done|]. split; [split; congruence|]. split; [congruence|]. constructor; cbn; [exact R | congruence..].
Qed.

(** ** Sequences of calls *)

Lemma refines_new now b ttl : refines (PQ_new now b ttl) (Turns_new now).
Proof.
  constructor; [|done..]. split; [|done]. constructor; [constructor; by constructor|done|done| | |by constructor].
  - intros i Hi. destruct i as [|[|[|[|[|i]]]]]; (split; [constructor|]; intros a; split; [by intros ?%not_elem_of_nil|done]).
  - intros i Hi. by destruct i as [|[|[|[|[|i]]]]].
Qed.

Lemma Pause_spec b now s t : refines s t -> refines (SetPauseState b now s) (turns_update now t <| t_paused := b |>).
Proof.
  intros H. destruct (Update_spec now s t H) as [[Hst Ht] E1 E2 E3]. constructor; [|done..]. split; [|done].
  apply (stands_fields _ _ _ Hst); [done..|]. by destruct (st_counters _ _ Hst).
Qed.

Lemma calls_refine xs s t :
  refines s t ->
  exists outs s' t', pq_calls xs s = Some (outs, s') /\ refines s' t'
    /\ turns_calls s.(time_to_live_per_prio_) s.(prioritize_audio_retransmission_) s.(next_iterator) xs t = (outs, t').
Proof.
  revert s t. induction xs as [|x xs IH]; intros s t H; [by exists [], s, t|].
  destruct x as [now p| |b now|now|ssrc]; cbn [pq_calls turns_calls].
  - destruct (Push_spec now p s t H) as (s1 & -> & [A B] & N & R). cbn [mbind option_bind].
    destruct (IH _ _ R) as (outs & s' & t' & E & R' & E'). rewrite A, B, N in E'. by exists outs, s', t'.
  - destruct (Pop_spec s t H) as (s1 & -> & F & R). cbn [mbind option_bind]. destruct (turns_pop _ t) as [r t1]. cbn in R.
    destruct (IH _ _ R) as (outs & s' & t' & E & R' & E'). rewrite E. destruct F as [B A _ _ _ N _]. rewrite A, B, N in E'.
    rewrite E'. by exists (r :: outs), s', t'.
  - destruct (IH _ _ (Pause_spec b now s t H)) as (outs & s' & t' & E & R' & E'). exists outs, s', t'. do 2 (split; [done|]).
    unfold SetPauseState in E'. by destruct (UpdateAverageQueueTime_fields now s) as (? & ? & ? & Eu); rewrite Eu in E'.
  - destruct (IH _ _ (Update_spec now s t H)) as (outs & s' & t' & E & R' & E'). exists outs, s', t'. do 2 (split; [done|]).
    by destruct (UpdateAverageQueueTime_fields now s) as (? & ? & ? & Eu); rewrite Eu in E'.
  - destruct (Remove_spec ssrc s t H) as (s1 & -> & [A B] & N & R). cbn [mbind option_bind].
    destruct (IH _ _ R) as (outs & s' & t' & E & R' & E'). rewrite A, B, N in E'. by exists outs, s', t'.
Qed.

(** *** What can be asked of it *)

Definition count_of (ty : RtpPacketMediaType) (l : list QueuedPacket) : Z :=
  total (fun p => if decide (p.(packet).(pk_type) = ty) then 1 else 0) l.
(** Whether a stream has a key frame in the rings. *)
Definition ring_keyframes (ssrc : Z) (rs : list Ring) : bool :=
  existsb (existsb (fun e : Z * list QueuedPacket => (e.1 =? ssrc) && existsb (fun p => p.(packet).(is_key_frame)) e.2)) rs.

Lemma types_count ty l : types_of l (replicate kNumMediaTypes 0) !! media_index ty = Some (count_of ty l).
Proof.
  assert (H : forall ns n, ns !! media_index ty = Some n -> types_of l ns !! media_index ty = Some (n + count_of ty l)).
  { induction l as [|p l IH]; intros ns n E; simpl; [by rewrite E, Z.add_0_r|].
    fold (types_of l (count_type 1 p.(packet).(pk_type) ns)).
    rewrite (IH _ (n + if decide (p.(packet).(pk_type) = ty) then 1 else 0)); [f_equal; unfold count_of; simpl; lia|].
    rewrite lookup_count_type, E. cbn. f_equal. destruct (pk_type _), ty; done. }
  rewrite (H _ 0); [done|]. by destruct ty.
Qed.

Lemma total_key_pos l : (total count_key l >? 0) = existsb (fun p => p.(packet).(is_key_frame)) l.
Proof.
  assert (N : forall l, 0 <= total count_key l) by (intros k; induction k as [|p k IH]; cbn [total foldr]; [done|]; fold (total count_key k); unfold count_key at 1; destruct (is_key_frame _); lia).
  induction l as [|p l IH]; [done|]. cbn [total foldr existsb]. fold (total count_key l). rewrite <- IH. specialize (N l).
  unfold count_key at 1. destruct (is_key_frame _); cbn [orb]; lia.
Qed.

(** The stream of [ssrc] has a key frame at some level. *)
Lemma HasKeyframe_iff s ssrc :
  streams_ok s -> HasKeyframePackets ssrc s = true
    <-> exists a i, key s a = ssrc /\ pk s a i <> [] /\ existsb (fun p => p.(packet).(is_key_frame)) (pk s a i) = true.
Proof.
  intros Hs. unfold HasKeyframePackets. split.
  - destruct (List.find _ _) as [[k q]|] eqn:E; [|done]. apply List.find_some in E as [Hin E]. cbn in E. apply Z.eqb_eq in E as ->.
    apply list_elem_of_In in Hin. assert (Hd : deref q.(address) s = Some (ssrc, q)) by by apply deref_Some.
    destruct (queue_ok s _ _ Hs Hd) as [_ Hk]. cbn [snd] in *. unfold has_keyframe_packets. rewrite Hk, total_key_pos, List.existsb_exists.
    intros (p & Hp & Ep). apply List.in_concat in Hp as (l & Hl & Hp). apply list_elem_of_In, list_elem_of_lookup in Hl as [i Hi].
    exists q.(address), i. unfold pk, key. rewrite Hd. cbn. unfold at_prio. rewrite Hi. cbn. split; [done|]. split; [by intros ->|].
    apply List.existsb_exists. eauto.
  - intros (a & i & <- & Hne & He). pose proof (pk_Some _ _ _ Hne) as ([k q] & Hd & Hq). unfold key. rewrite Hd. cbn.
    destruct (queue_ok s _ _ Hs Hd) as [Hl Hk]. destruct (List.find _ _) as [[k' q']|] eqn:E.
    + apply List.find_some in E as [Hin E]. cbn in E. apply Z.eqb_eq in E as ->.
      assert (Hd' : deref q'.(address) s = Some (k, q')) by (apply deref_Some; [done|]; split; [by apply list_elem_of_In | done]).
      rewrite (key_inj s q'.(address) a k q' q) in Hd' by done. rewrite Hd in Hd'. injection Hd' as <-.
      cbn [snd] in *. unfold has_keyframe_packets. rewrite Hk, total_key_pos. rewrite List.existsb_exists in He |- *.
      destruct He as (p & Hp & Ep). exists p. split; [|done]. apply List.in_concat. exists (pk s a i). split; [|done]. rewrite <- Hq.
      apply (pk_level _ _ _ Hs) in Hne. destruct (lookup_lt_is_Some_2 q.(sq_packets) i) as [l Hl']; [by rewrite Hl|].
      unfold at_prio. rewrite Hl'. by apply list_elem_of_In, list_elem_of_lookup_2 with i.
    + apply deref_Some in Hd as [Hin _]; [|done]. apply List.find_none with (x := (k, q)) in E; [cbn in E; lia|by apply list_elem_of_In].
Qed.

Lemma keyframes_spec s rs ssrc : stands s rs -> HasKeyframePackets ssrc s = ring_keyframes ssrc rs.
Proof.
  intros Hst. apply eq_true_iff_eq. rewrite HasKeyframe_iff by apply Hst. unfold ring_keyframes. rewrite List.existsb_exists. split.
  - intros (a & i & Ek & Hne & He). pose proof (pk_level _ _ _ (st_ok _ _ Hst) Hne) as Hi. exists (at_prio rs i). split.
    + unfold at_prio. destruct (lookup_lt_is_Some_2 rs i) as [r Hr]; [by rewrite (st_len _ _ Hst)|]. rewrite Hr.
      by apply list_elem_of_In, list_elem_of_lookup_2 with i.
    + rewrite (st_rings _ _ Hst) by done. apply List.existsb_exists. exists (ssrc, pk s a i). split.
      * apply list_elem_of_In, list_elem_of_fmap. exists a. rewrite Ek. split; [done|]. by apply (st_live _ _ Hst i Hi).
      * cbn. by rewrite Z.eqb_refl.
  - intros (r & Hr & He). apply list_elem_of_In, list_elem_of_lookup in Hr as [i Hr].
    assert (Hi : (i < kNumPriorityLevels)%nat) by (rewrite <- (st_len _ _ Hst); by eapply lookup_lt_Some).
    assert (Er : at_prio rs i = r) by (unfold at_prio; by rewrite Hr). rewrite (st_rings _ _ Hst) in Er by done. subst r.
    apply List.existsb_exists in He as (e & He & Ek). apply list_elem_of_In, list_elem_of_fmap in He as (a & -> & Ha).
    apply (st_live _ _ Hst i Hi) in Ha. cbn in Ek. apply andb_prop in Ek as [Ek%Z.eqb_eq He]. eauto.
Qed.

(** ** Packets are neither lost nor invented *)

Definition pushes (xs : list QueueCall) : list Packet := omap (fun x => match x with CallPush _ p => Some p | _ => None end) xs.
Definition no_remove (xs : list QueueCall) : bool := forallb (fun x => match x with CallRemove _ => false | _ => true end) xs.
Definition waiting (t : Turns) : list Packet := packet <$> ring_packets t.(rings).

(** A level whose packets are those of another and [lost]. *)
Lemma change_level (lost : list QueuedPacket) r rs i :
  (i < length rs)%nat -> concat (at_prio rs i).*2 ≡ₚ lost ++ concat r.*2 -> ring_packets rs ≡ₚ lost ++ ring_packets (<[i := r]> rs).
Proof.
  intros Hi H. rewrite (ring_packets_split i rs), (ring_packets_insert i r rs), H by done. by rewrite app_assoc.
Qed.

Lemma drop_old_suffix now ttl l : exists lost, l = lost ++ drop_old now ttl l.
Proof.
  induction l as [|p l [lost IH]]; [by exists []|]. rewrite drop_old_cons. destruct (_ >? _); [|by exists []].
  exists (p :: lost). cbn. by rewrite <- IH.
Qed.

Lemma purge_ring_ledger now ttl r :
  exists lost, concat r.*2 ≡ₚ lost ++ concat (purge_ring now ttl r).*2 /\ (IsInfinite ttl = true -> lost = []).
Proof.
  unfold purge_ring. destruct (IsInfinite ttl); [by exists []|]. induction r as [|[k l] r [lost [IH _]]]; [by exists []|]. cbn.
  destruct (drop_old_suffix now ttl l) as [gone E]. exists (gone ++ lost). split; [|done].
  match type of IH with _ ≡ₚ _ ++ ?c => set (C := c) in * end. transitivity (gone ++ drop_old now ttl l ++ lost ++ C).
  - by rewrite <- IH, app_assoc, <- E.
  - rewrite (Permutation_app_swap_app (drop_old _ _ _)), <- app_assoc. destruct (drop_old now ttl l); done.
Qed.

Lemma purge_at_ledger ttls now i rs :
  exists lost, ring_packets rs ≡ₚ lost ++ ring_packets (purge_at ttls now i rs)
    /\ (IsInfinite (default PlusInfinity (ttls !! i)) = true -> lost = []) .
Proof.
  unfold purge_at. destruct (decide (i < length rs)%nat) as [Hi|Hi].
  - rewrite at_prio_alter by done. destruct (purge_ring_ledger now (default PlusInfinity (ttls !! i)) (at_prio rs i)) as (lost & H & H').
    exists lost. split; [by apply change_level | done].
  - exists []. split; [|done]. rewrite (list_eq (alter _ i rs) rs); [done|]. intros j. destruct (decide (i = j)) as [<-|N].
    + rewrite list_lookup_alter_eq. by rewrite (lookup_ge_None_2 rs i) by lia.
    + by rewrite list_lookup_alter_ne.
Qed.

Lemma length_purge_at ttls now i rs : length (purge_at ttls now i rs) = length rs.
Proof. apply length_alter. Qed.

(** No packet has a time to live. *)
Definition patient (ttls : list Z) : Prop := forall i, IsInfinite (default PlusInfinity (ttls !! i)) = true.

Lemma purge_until_ledger n i ttls now rs :
  exists lost, ring_packets rs ≡ₚ lost ++ ring_packets (purge_until n i ttls now rs) /\ (patient ttls -> lost = []).
Proof.
  revert i rs. induction n as [|n IH]; intros i rs; [by exists []|]. cbn [purge_until].
  destruct (purge_at_ledger ttls now i rs) as (l1 & H1 & E1). destruct (nonempty _).
  - exists l1. split; [done|]. intros H. apply E1, H.
  - destruct (IH (S i) (purge_at ttls now i rs)) as (l2 & H2 & E2). exists (l1 ++ l2). rewrite H1, H2, app_assoc. split; [done|].
    intros H. by rewrite E1, E2.
Qed.

Lemma length_purge_until n i ttls now rs : length (purge_until n i ttls now rs) = length rs.
Proof.
  revert i rs. induction n as [|n IH]; intros i rs; [done|]. cbn [purge_until].
  destruct (nonempty _); rewrite ?IH; apply length_purge_at.
Qed.

Lemma rings_update now t : (turns_update now t).(rings) = t.(rings).
Proof. unfold turns_update. destruct (_ =? _); [done|]. by destruct (t_paused t). Qed.

(** *** The calls *)

Lemma stands_keys s rs i : stands s rs -> NoDup (at_prio rs i).*1.
Proof.
  intros Hst. destruct (decide (i < kNumPriorityLevels)%nat) as [Hi|Hi].
  2: { unfold at_prio. rewrite lookup_ge_None_2; [constructor|]. rewrite (st_len _ _ Hst). lia. }
  rewrite (st_rings _ _ Hst) by done. destruct (st_live _ _ Hst i Hi) as [Hn Hl]. unfold ring_of. rewrite <- list_fmap_compose.
  apply NoDup_fmap_2_strong; [|done]. intros a b Ha Hb E. cbn in E. apply Hl, pk_Some in Ha as ([k q] & Ha & _), Hb as ([k' q'] & Hb & _).
  unfold key in E. rewrite Ha, Hb in E. cbn in E. subst k'. by eapply key_inj; [apply Hst|..].
Qed.

Lemma purge_ring_keys now ttl r : NoDup r.*1 -> NoDup (purge_ring now ttl r).*1.
Proof.
  intros H. unfold purge_ring. destruct (IsInfinite ttl); [done|]. apply NoDup_fmap_filter. by rewrite <- list_fmap_compose.
Qed.

Lemma enqueue_packets k p r : NoDup r.*1 -> concat (enqueue_ring k p r).*2 ≡ₚ p :: concat r.*2.
Proof.
  intros Hn. unfold enqueue_ring. destruct (existsb _ r) eqn:E.
  - apply List.existsb_exists in E as ([k' l] & Hin & Ek). cbn in Ek. apply Z.eqb_eq in Ek as ->. apply list_elem_of_In in Hin.
    rewrite <- list_fmap_compose. apply (concat_push _ _ (k, l)); [by eapply NoDup_fmap_1|done|cbn; by rewrite Z.eqb_refl|].
    intros [k' l'] Hin' N. cbn. destruct (Z.eqb_spec k' k) as [->|]; [|done]. exfalso. apply N.
    apply list_elem_of_lookup in Hin as [i Hi], Hin' as [j Hj].
    rewrite (NoDup_lookup _ i j k Hn) in Hi by (rewrite list_lookup_fmap, ?Hi, ?Hj; done). congruence.
  - rewrite fmap_app, concat_app. cbn. by rewrite <- Permutation_cons_append.
Qed.

Lemma push_ledger s ttls i it now p t :
  refines s t -> (i < kNumPriorityLevels)%nat ->
  exists lost, waiting t ++ [p] ≡ₚ lost ++ waiting (turns_push ttls i it now p t) /\ (patient ttls -> lost = []).
Proof.
  intros [[Hst _] _ _ _] Hi. rewrite <- (st_len _ _ Hst) in Hi. unfold turns_push, waiting.
  destruct (purge_at_ledger ttls now i t.(rings)) as (lost & H & E).
  set (qp := mkQueued p _ it). exists (packet <$> lost). split; [|intros Hp; by rewrite (E (Hp i))].
  cbn -[turns_update purge_at enqueue_ring ring_packets]. rewrite H, fmap_app, <- app_assoc. apply Permutation_app_head.
  set (rs := purge_at ttls now i t.(rings)). assert (Hi' : (i < length rs)%nat) by (unfold rs; by rewrite length_purge_at).
  rewrite at_prio_alter by done. change ([p]) with (packet <$> [qp]). rewrite <- fmap_app. apply fmap_Permutation.
  rewrite (ring_packets_split i rs Hi') at 1. rewrite (ring_packets_insert i (enqueue_ring _ _ _) rs Hi'), enqueue_packets.
  - by rewrite <- Permutation_cons_append.
  - unfold rs, purge_at. rewrite at_prio_alter, at_prio_insert_eq by done. by eapply purge_ring_keys, stands_keys.
Qed.

Lemma pop_ledger ttls t :
  exists lost, waiting t ≡ₚ option_list (turns_pop ttls t).1 ++ lost ++ waiting (turns_pop ttls t).2 /\ (patient ttls -> lost = []).
Proof.
  unfold turns_pop. destruct (first_from 0 t.(rings)) as [i|] eqn:E; [|by exists []]. apply first_from_Some in E as [Hi _].
  assert (Hil : (i < length t.(rings))%nat).
  { destruct (decide (i < length t.(rings))%nat); [done|]. unfold at_prio in Hi. by rewrite lookup_ge_None_2 in Hi by lia. }
  destruct (at_prio t.(rings) i) as [|[k [|p ps]] r] eqn:El; [by exists []..|]. cbn [fst snd option_list].
  set (r' := if nonempty ps then _ else r).
  assert (H : ring_packets t.(rings) ≡ₚ [p] ++ ring_packets (<[i := r']> t.(rings))).
  { apply change_level; [done|]. rewrite El. unfold r'. cbn. destruct ps; cbn; [done|]. rewrite fmap_app, concat_app. cbn.
    rewrite app_nil_r. constructor. apply (Permutation_app_comm (_ :: _)). }
  apply (fmap_Permutation packet) in H. rewrite fmap_app in H. destruct (nonempty r').
  - exists []. split; [exact H|done].
  - destruct (purge_until_ledger kNumPriorityLevels 0 ttls t.(t_now) (<[i := r']> t.(rings))) as (lost & H2 & E).
    exists (packet <$> lost). split; [|intros Hp; by rewrite E]. rewrite H2, fmap_app in H. exact H.
Qed.

Lemma without_packets k (rs : list Ring) : exists gone, ring_packets rs ≡ₚ gone ++ ring_packets (without k <$> rs).
Proof.
  assert (H : forall r : Ring, exists gone, concat r.*2 ≡ₚ gone ++ concat (without k r).*2).
  { induction r as [|e r [gone IH]]; [by exists []|]. unfold without in *. cbn. destruct (negb _).
    - exists gone. cbn. rewrite IH. apply Permutation_app_swap_app.
    - exists (e.2 ++ gone). by rewrite IH, app_assoc. }
  unfold ring_packets. induction rs as [|r rs [g2 IH]]; [by exists []|]. cbn. destruct (H r) as [g1 H1].
  exists (g1 ++ g2). rewrite IH, H1, <- !app_assoc. apply Permutation_app_head, Permutation_app_swap_app.
Qed.

Lemma remove_ledger ttls ssrc t : exists lost, waiting t ≡ₚ lost ++ waiting (turns_remove ttls ssrc t).
Proof.
  unfold turns_remove, waiting. destruct (without_packets ssrc t.(rings)) as [g1 H1].
  fold (without ssrc). set (rs := List.filter _ <$> t.(rings)). change (without ssrc <$> t.(rings)) with rs in H1.
  destruct (match first_from 0 (rings t) with Some i => _ | None => _ end).
  - exists (packet <$> g1). rewrite H1. cbn -[ring_packets]. by rewrite fmap_app.
  - destruct (purge_until_ledger kNumPriorityLevels 0 ttls t.(t_now) rs) as (g2 & H2 & _).
    exists (packet <$> (g1 ++ g2)). rewrite H1, H2. cbn -[ring_packets purge_until]. by rewrite app_assoc, fmap_app.
Qed.

Lemma waiting_update now b t : waiting (turns_update now t) = waiting t /\ waiting (turns_update now t <| t_paused := b |>) = waiting t.
Proof. unfold waiting. cbn. by rewrite rings_update. Qed.

Lemma same_config_trans s1 s2 s3 : same_config s1 s2 -> same_config s2 s3 -> same_config s1 s3.
Proof. intros [] []. split; congruence. Qed.

Lemma same_config_update now b s :
  same_config s (UpdateAverageQueueTime now s) /\ same_config s (SetPauseState b now s).
Proof. unfold SetPauseState. by destruct (UpdateAverageQueueTime_fields now s) as (? & ? & ? & ->). Qed.

Lemma calls_ledger xs s t :
  refines s t ->
  exists outs s' t' lost, pq_calls xs s = Some (outs, s') /\ refines s' t' /\ same_config s s'
    /\ waiting t ++ pushes xs ≡ₚ omap id outs ++ lost ++ waiting t'
    /\ (patient s.(time_to_live_per_prio_) -> no_remove xs = true -> lost = []).
Proof.
  revert s t. induction xs as [|x xs IH]; intros s t H.
  - exists [], s, t, []. split_and!; try done. cbn. by rewrite app_nil_r.
  - destruct x as [now p| |b now|now|ssrc]; cbn [pq_calls pushes omap list_omap no_remove forallb andb]; fold (pushes xs).
    + destruct (Push_spec now p s t H) as (s1 & -> & C & N & R). cbn [mbind option_bind].
      destruct (push_ledger s s.(time_to_live_per_prio_) _ s.(next_iterator) now p t H (prio_level p s.(prioritize_audio_retransmission_)))
        as (l1 & P1 & E1).
      destruct (IH _ _ R) as (outs & s' & t' & l2 & E & R' & C' & P2 & E2). exists outs, s', t', (l1 ++ l2).
      split_and!; [done..|by eapply same_config_trans| |].
      * change (p :: pushes xs) with ([p] ++ pushes xs). rewrite (app_assoc (waiting t) [p]), P1, <- app_assoc, P2, !app_assoc.
        do 2 apply Permutation_app_tail. apply Permutation_app_comm.
      * intros Hp Hn. rewrite (proj1 C) in E2. by rewrite E1, E2.
    + destruct (Pop_spec s t H) as (s1 & -> & F & R). cbn [mbind option_bind].
      destruct (pop_ledger s.(time_to_live_per_prio_) t) as (l1 & P1 & E1). assert (C : same_config s s1) by by destruct F.
      destruct (IH _ _ R) as (outs & s' & t' & l2 & -> & R' & C' & P2 & E2). cbn [mbind option_bind].
      exists ((turns_pop s.(time_to_live_per_prio_) t).1 :: outs), s', t', (l1 ++ l2).
      split_and!; [done..|by eapply same_config_trans| |].
      * rewrite P1, <- !app_assoc, P2. rewrite (Permutation_app_swap_app l1). by destruct (turns_pop _ t).1.
      * intros Hp Hn. rewrite (proj1 C) in E2. by rewrite E1, E2.
    + destruct (IH _ _ (Pause_spec b now s t H)) as (outs & s' & t' & lost & E & R' & C' & P & E').
      rewrite (proj2 (waiting_update now b t)) in P. destruct (same_config_update now b s) as [_ C].
      exists outs, s', t', lost. split_and!; [done..|by eapply same_config_trans|done|]. by rewrite (proj1 C) in E'.
    + destruct (IH _ _ (Update_spec now s t H)) as (outs & s' & t' & lost & E & R' & C' & P & E').
      rewrite (proj1 (waiting_update now true t)) in P. destruct (same_config_update now true s) as [C _].
      exists outs, s', t', lost. split_and!; [done..|by eapply same_config_trans|done|]. by rewrite (proj1 C) in E'.
    + destruct (Remove_spec ssrc s t H) as (s1 & -> & C & N & R). cbn [mbind option_bind].
      destruct (remove_ledger s.(time_to_live_per_prio_) ssrc t) as (l1 & P1).
      destruct (IH _ _ R) as (outs & s' & t' & l2 & E & R' & C' & P2 & E2). exists outs, s', t', (l1 ++ l2).
      split_and!; [done..|by eapply same_config_trans| |done].
      rewrite P1, <- app_assoc, P2, !app_assoc. do 2 apply Permutation_app_tail. apply Permutation_app_comm.
Qed.

Lemma pq_calls_app xs ys s :
  pq_calls (xs ++ ys) s = '(o1, s1) ← pq_calls xs s; '(o2, s2) ← pq_calls ys s1; Some (o1 ++ o2, s2).
Proof.
  revert s. induction xs as [|x xs IH]; intros s; [by cbn; destruct (pq_calls ys s) as [[]|]|].
  destruct x as [now p| |b now|now|ssrc]; cbn [app pq_calls]; try apply IH.
  - destruct (Push now p s); [apply IH|done].
  - destruct (Pop s) as [[r s1]|]; [|done]. cbn [mbind option_bind]. rewrite IH.
    destruct (pq_calls xs s1) as [[o1 s2]|]; [|done]. cbn. by destruct (pq_calls ys s2) as [[o2 s3]|].
  - destruct (RemovePacketsForSsrc ssrc s); [apply IH|done].
Qed.

(** A queue with packets gives one. *)
Lemma Pop_some ttls s t : refines s t -> waiting t <> [] -> (turns_pop ttls t).1 <> None.
Proof.
  intros [[Hst _] _ _ _] Hw. unfold turns_pop. destruct (first_from 0 t.(rings)) as [i|] eqn:E.
  2: { apply (ring_packets_nil _ _ Hst) in E. unfold waiting in Hw. by rewrite E in Hw. }
  apply first_from_Some in E as [Hi _]. destruct (decide (i < kNumPriorityLevels)%nat) as [Hil|Hil].
  2: { unfold at_prio in Hi. rewrite lookup_ge_None_2 in Hi; [done|]. rewrite (st_len _ _ Hst). lia. }
  pose proof (st_live _ _ Hst i Hil) as Hlive. rewrite (st_rings _ _ Hst) in Hi |- * by done.
  destruct (at_prio _ i) as [|a qs]; [done|]. destruct (live_head _ _ _ _ Hlive) as (p & l & E). by rewrite ring_of_cons, E.
Qed.

Lemma drain n s t :
  refines s t -> (length (waiting t) <= n)%nat ->
  exists outs s' t', pq_calls (replicate n CallPop) s = Some (outs, s') /\ refines s' t' /\ waiting t' = [].
Proof.
  revert s t. induction n as [|n IH]; intros s t H Hn.
  - exists [], s, t. split_and!; [done..|]. destruct (waiting t); [done|]. simpl in Hn. lia.
  - cbn [replicate pq_calls]. destruct (Pop_spec s t H) as (s1 & -> & _ & R). cbn [mbind option_bind].
    destruct (pop_ledger s.(time_to_live_per_prio_) t) as (lost & P & _).
    destruct (IH _ _ R) as (outs & s' & t' & -> & R' & W).
    { apply Permutation_length in P. rewrite !length_app in P. pose proof (Pop_some s.(time_to_live_per_prio_) s t H) as Hs.
      destruct (waiting t) eqn:E; [|]. { simpl in P. lia. }
      destruct (turns_pop _ t).1; [simpl in *; lia|]. by destruct Hs. }
    eexists _, s', t'. by split_and!.
Qed.

Lemma Empty_waiting s t : refines s t -> Empty s = negb (nonempty (ring_packets t.(rings))).
Proof. intros [[H _] _ _ _]. apply (stands_size _ _ H). Qed.

(** ** Turns *)

Lemma heads_in_turn ttls b it i r1 r2 t :
  (forall j, (j < i)%nat -> at_prio t.(rings) j = []) -> (i < length t.(rings))%nat ->
  at_prio t.(rings) i = r1 ++ r2 -> Forall (fun e => e.2 <> []) r1 ->
  (turns_calls ttls b it (replicate (length r1) CallPop) t).1 = (fun e : Z * list QueuedPacket => packet <$> head e.2) <$> r1.
Proof.
  revert r2 t. induction r1 as [|[k l] r1 IH]; intros r2 t Hlow Hi Hr Hne; [done|]. apply Forall_cons in Hne as [Hl Hne]. cbn in Hl.
  destruct l as [|p l]; [done|]. cbn [length replicate turns_calls].
  assert (Hf : first_from 0 t.(rings) = Some i) by (apply first_from_Some; rewrite Hr; by split).
  assert (Ep : turns_pop ttls t = (Some p.(packet),
     let r := (r1 ++ r2) ++ (if nonempty l then [(k, l)] else []) in
     t <| rings := if nonempty r then <[i := r]> t.(rings) else purge_until kNumPriorityLevels 0 ttls t.(t_now) (<[i := r]> t.(rings)) |>)).
  { unfold turns_pop. rewrite Hf, Hr. cbn [app]. by destruct l; cbn [nonempty]; rewrite ?app_nil_r. }
  rewrite Ep. cbv zeta. set (r := (r1 ++ r2) ++ _). destruct r1 as [|e r1]; [done|]. cbn [nonempty r app].
  match goal with |- context [turns_calls _ _ _ _ ?x] => set (t1 := x) end.
  pose proof (IH (r2 ++ (if nonempty l then [(k, l)] else [])) t1) as H. destruct (turns_calls ttls b it _ t1) as [rs t2].
  cbn [fst] in H |- *. rewrite H; [done| | |unfold t1; cbn; rewrite at_prio_insert_eq by done; by rewrite <- app_assoc|done].
  - intros j Hj. unfold t1. cbn. rewrite at_prio_insert, decide_False by lia. by apply Hlow.
  - unfold t1. cbn. by rewrite length_insert.
Qed.

Lemma pushes_pops n : pushes (replicate n CallPop) = [].
Proof. by induction n. Qed.

Lemma no_remove_pops n : no_remove (replicate n CallPop) = true.
Proof. by induction n. Qed.

(** ** Properties *)

(** C36: Through any calls the queue of the pacer does what its abstract queue does: it uses no pointer to an erased
    queue, [Pop] gives the packet whose stream's turn it is at the first level with packets, packets past their
    time to live are dropped where the abstract queue drops them, and the sizes, the counts per media type and
    the key frames that it reports are those of the packets that wait. *)
Theorem queue_takes_turns xs now b ttl :
  exists outs s t, pq_calls xs (PQ_new now b ttl) = Some (outs, s)
    /\ turns_calls (ToTtlPerPrio ttl) b 0 xs (Turns_new now) = (outs, t)
    /\ SizeInPackets s = zlen (ring_packets t.(rings)) /\ SizeInPayloadBytes s = total PacketSize (ring_packets t.(rings))
    /\ (forall ty, SizeInPacketsPerRtpPacketMediaType s !! media_index ty = Some (count_of ty (ring_packets t.(rings))))
    /\ (forall ssrc, HasKeyframePackets ssrc s = ring_keyframes ssrc t.(rings))
    /\ s.(top_active_prio_level_) = first_from 0 t.(rings).
Proof.
  destruct (calls_refine xs _ _ (refines_new now b ttl)) as (outs & s & t & E & [[Hst Ht] _ _ _] & E').
  exists outs, s, t. pose proof (st_counters _ _ Hst) as [C1 C2 C3]. split_and!; [done..| | |done].
  - intros ty. unfold SizeInPacketsPerRtpPacketMediaType. rewrite C2. apply types_count.
  - intros ssrc. by apply keyframes_spec.
Qed.

(** Packets come out once: without times to live and without removed streams, popping as often as packets were
    pushed empties the queue, and the packets popped are the packets pushed, whatever pops, pauses and updates
    came between. *)
Theorem packets_come_out_once xs now b (Hn : no_remove xs = true) :
  exists outs s, pq_calls (xs ++ replicate (length (pushes xs)) CallPop) (PQ_new now b (mkTTL PlusInfinity PlusInfinity PlusInfinity))
      = Some (outs, s)
    /\ Empty s = true /\ omap id outs ≡ₚ pushes xs.
Proof.
  set (ttl := mkTTL _ _ _). assert (Hp : patient (PQ_new now b ttl).(time_to_live_per_prio_)).
  { intros i. by destruct i as [|[|[|[|[|i]]]]]. }
  destruct (calls_ledger xs _ _ (refines_new now b ttl)) as (o1 & s1 & t1 & l1 & E1 & R1 & C1 & P1 & L1).
  rewrite (L1 Hp Hn) in P1. cbn [app] in P1. change (waiting (Turns_new now)) with (@nil Packet) in P1. cbn [app] in P1.
  destruct (drain (length (pushes xs)) s1 t1 R1) as (o2 & s2 & t2 & E2 & R2 & W2).
  { apply Permutation_length in P1. rewrite length_app in P1. lia. }
  destruct (calls_ledger (replicate (length (pushes xs)) CallPop) s1 t1 R1) as (o3 & s3 & t3 & l3 & E3 & R3 & _ & P3 & L3).
  rewrite E2 in E3. injection E3 as <- <-. exists (o1 ++ o2), s2. rewrite pq_calls_app, E1. cbn [mbind option_bind]. rewrite E2.
  split; [done|]. assert (Em : Empty s2 = true).
  { rewrite (Empty_waiting s2 t2 R2). unfold waiting in W2. by destruct (ring_packets _). }
  split; [done|]. rewrite (Empty_waiting s2 t3 R3) in Em. unfold waiting in P3 at 2. destruct (ring_packets t3.(rings)); [|done].
  rewrite L3 in P3.
  - rewrite pushes_pops in P3. cbn in P3. rewrite !app_nil_r in P3. rewrite omap_app, P1, P3. done.
  - by rewrite (proj1 C1).
  - apply no_remove_pops.
Qed.

(** No stream waits for another's backlog: at the first level with packets, as many pops as there are streams
    waiting give the oldest packet of each, in the order of their turns. *)
Theorem round_robin xs now b ttl outs s i
  (E : pq_calls xs (PQ_new now b ttl) = Some (outs, s)) (Ht : s.(top_active_prio_level_) = Some i) :
  let qs := at_prio s.(streams_by_prio_) i in
  qs <> [] /\ exists s', pq_calls (replicate (length qs) CallPop) s = Some ((fun a => packet <$> head (pk s a i)) <$> qs, s').
Proof.
  intros qs. destruct (calls_refine xs _ _ (refines_new now b ttl)) as (outs' & s0 & t & E' & R & _).
  rewrite E in E'. injection E' as <- <-. pose proof R as [[Hst Hf] _ _ _]. rewrite Ht in Hf. symmetry in Hf.
  apply first_from_Some in Hf as [Hne Hlow]. split; [intros N; by apply Hne, (stands_level _ _ _ Hst)|].
  assert (Hi : (i < kNumPriorityLevels)%nat).
  { destruct (decide (i < kNumPriorityLevels)%nat); [done|]. unfold at_prio in Hne. rewrite lookup_ge_None_2 in Hne; [done|].
    rewrite (st_len _ _ Hst). lia. }
  destruct (calls_refine (replicate (length qs) CallPop) s t R)
    as (o & s' & t' & E2 & _ & E3).
  exists s'. rewrite E2. f_equal. f_equal.
  pose proof (st_rings _ _ Hst i Hi) as Hr. fold qs in Hr. rewrite <- (app_nil_r (ring_of s i qs)) in Hr.
  pose proof (heads_in_turn s.(time_to_live_per_prio_) s.(prioritize_audio_retransmission_) s.(next_iterator) i (ring_of s i qs) [] t Hlow) as H.
  specialize (H ltac:(by rewrite (st_len _ _ Hst)) Hr). unfold ring_of in H at 2. rewrite length_fmap, E3 in H. cbn [fst] in H. rewrite H.
  - unfold ring_of. by rewrite <- list_fmap_compose.
  - apply Forall_forall. intros e (a & -> & Ha)%list_elem_of_fmap. by apply (st_live _ _ Hst i Hi).
Qed.

(** *** At a concrete input: two streams, a pause between the packets *)

Definition w_packet (n ssrc : Z) (ty : RtpPacketMediaType) : Packet := mkPacket n ssrc ty None 1000 0 12 (n =? 1) false.
Definition w_calls : list QueueCall :=
  [CallPush 1000 (w_packet 1 7 kVideo); CallPush 2000 (w_packet 2 7 kVideo); CallPause true 3000;
   CallPush 4000 (w_packet 3 9 kVideo); CallPause false 5000; CallPush 6000 (w_packet 4 7 kAudio); CallPop].
Definition w_patience : PacketQueueTTL := mkTTL PlusInfinity PlusInfinity PlusInfinity.

Lemma packets_come_out_once_witness :
  no_remove w_calls = true
  /\ exists outs s, pq_calls (w_calls ++ replicate (length (pushes w_calls)) CallPop) (PQ_new 0 true w_patience) = Some (outs, s)
    /\ Empty s = true /\ omap id outs ≡ₚ pushes w_calls.
Proof. split; [vm_compute; reflexivity|]. exact (packets_come_out_once w_calls 0 true eq_refl). Defined.

Definition w_queue : PrioritizedPacketQueue :=
  match pq_calls w_calls (PQ_new 0 true w_patience) with Some (_, s) => s | None => PQ_new 0 true w_patience end.

Lemma w_queue_eq : pq_calls w_calls (PQ_new 0 true w_patience) = Some ([Some (w_packet 4 7 kAudio)], w_queue).
Proof. vm_compute. reflexivity. Qed.

Lemma w_queue_top : w_queue.(top_active_prio_level_) = Some 3%nat.
Proof. vm_compute. reflexivity. Qed.

Lemma round_robin_witness :
  at_prio w_queue.(streams_by_prio_) 3 <> []
  /\ exists s', pq_calls (replicate (length (at_prio w_queue.(streams_by_prio_) 3)) CallPop) w_queue
    = Some ((fun a => packet <$> head (pk w_queue a 3)) <$> at_prio w_queue.(streams_by_prio_) 3, s').
Proof. exact (round_robin w_calls 0 true w_patience _ w_queue 3 w_queue_eq w_queue_top). Defined.
