(* ===== verification/Prober.v ===== *)
(** * Bandwidth probes ([minirtc/src/qos/bitrate_prober.{h,cc}])

    Clusters of probes wait in a queue; the first is sent while the prober is active.  What is only logged is
    left out.  A division by zero is [None].  The theorem: whatever calls are made, an active prober has a
    cluster to send, at most five wait, and none is older than its deadline after an expiry. *)
From S2P Require Export Units.
#[local] Open Scope Z_scope.

(** ** Definitions *)

Definition kProbeClusterTimeout : Z := Seconds 5.
Definition kMaxPendingProbeClusters : Z := 5.
Definition kNotAProbe : Z := -1.

Record PacedPacketInfo := mkPacedInfo {
  send_bitrate : Z; probe_cluster_id : Z; probe_cluster_min_probes : Z; probe_cluster_min_bytes : Z; probe_cluster_bytes_sent : Z;
}.
#[export] Instance eta_PacedPacketInfo : Eta PacedPacketInfo := fun p => mkPacedInfo p.(send_bitrate) p.(probe_cluster_id)
  p.(probe_cluster_min_probes) p.(probe_cluster_min_bytes) p.(probe_cluster_bytes_sent).
Definition no_probe : PacedPacketInfo := mkPacedInfo 0 kNotAProbe (-1) (-1) 0.

Record ProbeClusterConfig := mkClusterConfig {
  at_time : Z; target_data_rate : Z; target_duration : Z; config_min_probe_delta : Z; target_probe_count : Z; config_id : Z;
}.

Record ProbeCluster := mkCluster {
  pace_info : PacedPacketInfo; sent_probes : Z; sent_packets : Z; sent_bytes : Z; min_probe_delta : Z; requested_at : Z; started_at : Z;
}.
#[export] Instance eta_ProbeCluster : Eta ProbeCluster := fun c => mkCluster c.(pace_info) c.(sent_probes) c.(sent_packets)
  c.(sent_bytes) c.(min_probe_delta) c.(requested_at) c.(started_at).

Inductive ProbingState := kDisabled | kInactive | kActive.
#[export] Instance ProbingState_dec : EqDecision ProbingState.
Proof. solve_decision. Defined.

(** [BitrateProberConfig] *)
Definition max_probe_delay : Z := Millis 10.
Definition min_packet_size : Z := 200.

Record BitrateProber := mkProber {
  probing_state_ : ProbingState; clusters_ : list ProbeCluster; next_probe_time_ : Z; allow_start_probing_immediately : bool;
}.
#[export] Instance eta_BitrateProber : Eta BitrateProber := fun s =>
  mkProber s.(probing_state_) s.(clusters_) s.(next_probe_time_) s.(allow_start_probing_immediately).

Definition is_probing (s : BitrateProber) : bool := bool_decide (s.(probing_state_) = kActive).

Definition SetEnabled (enable : bool) (s : BitrateProber) : BitrateProber :=
  if enable then (if bool_decide (s.(probing_state_) = kDisabled) then s <| probing_state_ := kInactive |> else s)
  else s <| probing_state_ := kDisabled |>.

Definition BitrateProber_new : BitrateProber := SetEnabled true (mkProber kDisabled [] PlusInfinity false).

Definition RecommendedMinProbeSize (s : BitrateProber) : Z :=
  match s.(clusters_) with
  | [] => 0
  | c :: _ => data_per_time c.(pace_info).(send_bitrate) c.(min_probe_delta)
  end.

Definition ReadyToSetActiveState (packet_size : Z) (s : BitrateProber) : bool :=
  match s.(clusters_) with
  | [] => false
  | _ => match s.(probing_state_) with
         | kDisabled | kActive => false
         | kInactive => s.(allow_start_probing_immediately) || (Z.min (RecommendedMinProbeSize s) min_packet_size <=? packet_size)
         end
  end.

Definition MaybeSetActiveState (packet_size : Z) (s : BitrateProber) : BitrateProber :=
  if ReadyToSetActiveState packet_size s then s <| next_probe_time_ := MinusInfinity |> <| probing_state_ := kActive |> else s.

Definition SetAllowProbeWithoutMediaPacket (allow : bool) (s : BitrateProber) : BitrateProber :=
  MaybeSetActiveState 0 (s <| allow_start_probing_immediately := allow |>).

Definition set_inactive (s : BitrateProber) : BitrateProber :=
  if bool_decide (s.(probing_state_) = kDisabled) then s else s <| probing_state_ := kInactive |>.

Definition AbortProbing (s : BitrateProber) : BitrateProber :=
  set_inactive (s <| clusters_ := [] |> <| next_probe_time_ := PlusInfinity |>).

Definition OnIncomingPacket (packet_size : Z) (s : BitrateProber) : BitrateProber := MaybeSetActiveState packet_size s.

Fixpoint drop_expired (now : Z) (l : list ProbeCluster) : list ProbeCluster :=
  match l with
  | c :: l' => if td_sub now c.(requested_at) >=? kProbeClusterTimeout then drop_expired now l' else l
  | [] => []
  end.

Definition RemoveExpiredClusters (now : Z) (s : BitrateProber) : bool * BitrateProber :=
  let l := drop_expired now s.(clusters_) in
  if (length l =? length s.(clusters_))%nat then (false, s) else
  let s := s <| clusters_ := l |> in
  (true, match l with
         | [] => set_inactive (s <| next_probe_time_ := PlusInfinity |>)
         | _ => if is_probing s then s <| next_probe_time_ := MinusInfinity |> else s
         end).

(** The loop that keeps the queue short. *)
Fixpoint drop_oldest (l : list ProbeCluster) : list ProbeCluster :=
  match l with
  | _ :: l' => if zlen l >=? kMaxPendingProbeClusters then drop_oldest l' else l
  | [] => []
  end.

Definition new_cluster (c : ProbeClusterConfig) : ProbeCluster :=
  mkCluster (mkPacedInfo c.(target_data_rate) c.(config_id) c.(target_probe_count)
               (i32 (data_per_time c.(target_data_rate) c.(target_duration))) 0)
    0 0 0 c.(config_min_probe_delta) c.(at_time) MinusInfinity.

Definition CreateProbeCluster (c : ProbeClusterConfig) (s : BitrateProber) : BitrateProber :=
  let s := (RemoveExpiredClusters c.(at_time) s).2 in
  MaybeSetActiveState 0 (s <| clusters_ ::= fun l => drop_oldest l ++ [new_cluster c] |>).

Definition NextClusterExpiration (s : BitrateProber) : Z :=
  match s.(clusters_) with [] => PlusInfinity | c :: _ => td_add c.(requested_at) kProbeClusterTimeout end.

Definition NextProbeTime (s : BitrateProber) : Z :=
  if negb (is_probing s) then PlusInfinity else match s.(clusters_) with [] => PlusInfinity | _ => s.(next_probe_time_) end.

Definition current_info (s : BitrateProber) : option PacedPacketInfo :=
  (fun c => c.(pace_info) <| probe_cluster_bytes_sent := c.(sent_bytes) |>) <$> head s.(clusters_).

Definition CurrentCluster (now : Z) (s : BitrateProber) : option PacedPacketInfo * BitrateProber :=
  match s.(clusters_) with
  | [] => (None, s)
  | c :: l =>
      if negb (is_probing s) then (None, s) else
      let allowed_probe_delay := Z.max max_probe_delay (td_mul c.(min_probe_delta) 2) in
      if IsFinite s.(next_probe_time_) && (td_sub now s.(next_probe_time_) >? allowed_probe_delay) then
        let s := s <| clusters_ := l |> in
        match l with
        | [] => (None, s <| probing_state_ := kInactive |>)
        | _ => (current_info s, s)
        end
      else (current_info s, s)
  end.

Definition CalculateNextProbeTime (c : ProbeCluster) : option Z :=
  td_add c.(started_at) <$> time_for_size c.(sent_bytes) c.(pace_info).(send_bitrate).

Definition ProbeSent (now size packet_count : Z) (s : BitrateProber) : option BitrateProber :=
  match s.(clusters_) with
  | [] => Some s
  | c :: l =>
      let c := if c.(sent_probes) =? 0 then c <| started_at := now |> else c in
      let c := c <| sent_bytes ::= fun n => i32 (n + i32 size) |> <| sent_packets ::= fun n => i32 (n + packet_count) |>
                 <| sent_probes ::= fun n => i32 (n + 1) |> in
      next ← CalculateNextProbeTime c;
      let s := s <| next_probe_time_ := Z.max next (td_add now c.(min_probe_delta)) |> in
      let l := if (c.(pace_info).(probe_cluster_min_bytes) <=? c.(sent_bytes)) && (c.(pace_info).(probe_cluster_min_probes) <=? c.(sent_probes))
               then l else c :: l in
      let s := s <| clusters_ := l |> in
      Some (match l with [] => s <| probing_state_ := kInactive |> | _ => s end)
  end.

(** *** Sequences of calls *)

Inductive ProberCall :=
| CallSetEnabled (b : bool) | CallAllow (b : bool) | CallAbort | CallIncoming (size : Z) | CallExpire (now : Z)
| CallCreate (c : ProbeClusterConfig) | CallCurrent (now : Z) | CallSent (now size packets : Z).

Definition prober_call (c : ProberCall) (s : BitrateProber) : option BitrateProber :=
  match c with
  | CallSetEnabled b => Some (SetEnabled b s)
  | CallAllow b => Some (SetAllowProbeWithoutMediaPacket b s)
  | CallAbort => Some (AbortProbing s)
  | CallIncoming size => Some (OnIncomingPacket size s)
  | CallExpire now => Some (RemoveExpiredClusters now s).2
  | CallCreate c => Some (CreateProbeCluster c s)
  | CallCurrent now => Some (CurrentCluster now s).2
  | CallSent now size packets => ProbeSent now size packets s
  end.
Fixpoint prober_calls (xs : list ProberCall) (s : BitrateProber) : option BitrateProber :=
  match xs with [] => Some s | c :: xs => s ← prober_call c s; prober_calls xs s end.

(** The clusters to create have a rate. *)
Definition has_rate (c : ProbeClusterConfig) : Prop := c.(target_data_rate) <> 0.
Definition call_has_rate (c : ProberCall) : Prop := match c with CallCreate c => has_rate c | _ => True end.

(** ** Theorems *)

Record prober_ok (s : BitrateProber) : Prop := {
  ok_active : s.(probing_state_) = kActive -> s.(clusters_) <> [];
  ok_few : (length s.(clusters_) <= 5)%nat;
  ok_rates : Forall (fun c => c.(pace_info).(send_bitrate) <> 0) s.(clusters_);
}.

Lemma set_inactive_fields s : (set_inactive s).(clusters_) = s.(clusters_) /\ (set_inactive s).(probing_state_) <> kActive.
Proof. unfold set_inactive. case_bool_decide as E; cbn; rewrite ?E; done. Qed.

Lemma MaybeSetActiveState_ok n s :
  (s.(probing_state_) = kActive -> s.(clusters_) <> []) -> (length s.(clusters_) <= 5)%nat ->
  Forall (fun c => c.(pace_info).(send_bitrate) <> 0) s.(clusters_) -> prober_ok (MaybeSetActiveState n s).
Proof.
  intros Ha Hf Hr. unfold MaybeSetActiveState, ReadyToSetActiveState.
  destruct (clusters_ s) as [|c l] eqn:E; [split; rewrite ?E; auto|].
  destruct (match probing_state_ s with kInactive => _ | _ => _ end); split; cbn; rewrite ?E; auto.
Qed.

Lemma drop_expired_suffix now l : exists k, l = k ++ drop_expired now l.
Proof.
  induction l as [|c l [k IH]]; [by exists []|]. cbn. destruct (_ >=? _); [|by exists []]. exists (c :: k). cbn. by rewrite <- IH.
Qed.
Lemma drop_oldest_suffix l : exists k, l = k ++ drop_oldest l.
Proof.
  induction l as [|c l [k IH]]; [by exists []|]. cbn [drop_oldest]. destruct (_ >=? _); [|by exists []].
  exists (c :: k). cbn. by rewrite <- IH.
Qed.
Lemma drop_oldest_few l : (length (drop_oldest l) <= 4)%nat.
Proof.
  induction l as [|c l IH]; cbn [drop_oldest]; [cbn; lia|].
  destruct (Z.geb_spec (zlen (c :: l)) kMaxPendingProbeClusters) as [H|H]; [done|].
  unfold zlen, kMaxPendingProbeClusters in H. lia.
Qed.
(** The oldest cluster left after an expiry has not expired. *)
Lemma drop_expired_head now l c : head (drop_expired now l) = Some c -> td_sub now c.(requested_at) < kProbeClusterTimeout.
Proof.
  induction l as [|d l IH]; [done|]. cbn. destruct (Z.geb_spec (td_sub now (requested_at d)) kProbeClusterTimeout); [done|].
  by intros [= <-].
Qed.

Lemma RemoveExpired_ok now s : prober_ok s -> prober_ok (RemoveExpiredClusters now s).2.
Proof.
  intros [Ha Hf Hr]. unfold RemoveExpiredClusters. destruct (drop_expired_suffix now (clusters_ s)) as [k E].
  set (l := drop_expired now (clusters_ s)) in *. clearbody l. destruct (length l =? _)%nat; [by split|]. cbn [snd].
  rewrite E in Hf, Hr. rewrite length_app in Hf. apply Forall_app in Hr as [_ Hr]. destruct l as [|c l'] eqn:El.
  - pose proof (set_inactive_fields (s <| clusters_ := [] |> <| next_probe_time_ := PlusInfinity |>)) as [Ec Ep].
    split; [done|rewrite Ec; cbn; lia|by rewrite Ec].
  - unfold is_probing. cbn. case_bool_decide; split; cbn; auto; cbn in Hf; lia.
Qed.

Lemma Create_ok c s : prober_ok s -> has_rate c -> prober_ok (CreateProbeCluster c s).
Proof.
  intros Hs Hc. unfold CreateProbeCluster. apply (RemoveExpired_ok c.(at_time)) in Hs as [Ha Hf Hr].
  set (s1 := (RemoveExpiredClusters _ _).2) in *. clearbody s1. apply MaybeSetActiveState_ok; cbn.
  - intros _ H. by apply app_eq_nil in H as [_ ?].
  - rewrite length_app. pose proof (drop_oldest_few (clusters_ s1)). cbn. lia.
  - destruct (drop_oldest_suffix (clusters_ s1)) as [k E]. rewrite E in Hr. apply Forall_app in Hr as [_ Hr].
    apply Forall_app. split; [done|]. by constructor.
Qed.

Lemma Current_ok now s : prober_ok s -> prober_ok (CurrentCluster now s).2.
Proof.
  intros Hs. pose proof Hs as [Ha Hf Hr]. unfold CurrentCluster. destruct (clusters_ s) as [|c l] eqn:E; [done|].
  destruct (negb _); [done|]. destruct (_ && _); [|done].
  apply Forall_cons in Hr as [_ Hr]. cbn in Hf. destruct l; split; cbn; auto with lia; cbn in *; try lia.
Qed.

Lemma Sent_ok now size packets s : prober_ok s -> exists s', ProbeSent now size packets s = Some s' /\ prober_ok s'.
Proof.
  intros Hs. pose proof Hs as [Ha Hf Hr]. unfold ProbeSent. destruct (clusters_ s) as [|c l] eqn:E; [by eexists|].
  apply Forall_cons in Hr as [Hc Hr]. set (c1 := if sent_probes c =? 0 then _ else _).
  assert (Hc1 : send_bitrate (pace_info c1) <> 0) by (unfold c1; by destruct (sent_probes c =? 0)). clearbody c1.
  set (c2 := _ <| sent_probes ::= _ |>). assert (Hc2 : send_bitrate (pace_info c2) <> 0) by done. clearbody c2.
  unfold CalculateNextProbeTime, time_for_size. destruct (Z.eqb_spec (send_bitrate (pace_info c2)) 0) as [?|_]; [done|].
  cbn [fmap option_fmap option_map mbind option_bind]. eexists. split; [done|]. cbn in Hf.
  destruct (_ && _); [destruct l|]; split; cbn; auto with lia; cbn in *; try lia.
Qed.

Lemma Allow_ok b s : prober_ok s -> prober_ok (SetAllowProbeWithoutMediaPacket b s).
Proof. intros []. by apply MaybeSetActiveState_ok. Qed.
Lemma Incoming_ok n s : prober_ok s -> prober_ok (OnIncomingPacket n s).
Proof. intros []. by apply MaybeSetActiveState_ok. Qed.
Lemma Enabled_ok b s : prober_ok s -> prober_ok (SetEnabled b s).
Proof. intros []. unfold SetEnabled. destruct b; [case_bool_decide|]; by split. Qed.
Lemma Abort_ok s : prober_ok s -> prober_ok (AbortProbing s).
Proof.
  intros _. unfold AbortProbing. set (s1 := _ <| next_probe_time_ := _ |>). destruct (set_inactive_fields s1) as [Ec Ep].
  split; rewrite ?Ec; change (clusters_ s1) with (@nil ProbeCluster); [done|cbn; lia|done].
Qed.
Lemma prober_new_ok : prober_ok BitrateProber_new.
Proof. split; [done|by apply Nat.leb_le|constructor]. Qed.
#[export] Hint Resolve RemoveExpired_ok Create_ok Current_ok Allow_ok Incoming_ok Enabled_ok Abort_ok prober_new_ok : prober.

(** whatever calls are made, with clusters that have a rate, the prober never divides by zero; an active prober has a
    cluster to send, at most five wait, and all have a rate. *)
Theorem prober_calls_ok xs : Forall call_has_rate xs ->
  exists s, prober_calls xs BitrateProber_new = Some s /\ prober_ok s.
Proof.
  assert (H : forall s, prober_ok s -> Forall call_has_rate xs -> exists s', prober_calls xs s = Some s' /\ prober_ok s').
  { induction xs as [|c xs IH]; intros s Hs Hx; [by eauto|]. apply Forall_cons in Hx as [Hc Hx]. cbn.
    assert (exists s', prober_call c s = Some s' /\ prober_ok s') as (s' & -> & Hs').
    { destruct c; cbn; eauto with prober. by apply Sent_ok. }
    cbn. by apply IH. }
  apply H, prober_new_ok.
Qed.

(** A probe runs, is replaced after its deadline, and ends. *)
Definition w_config (t : Z) : ProbeClusterConfig := mkClusterConfig t 1000000 15000 2000 2 t.
Definition w_prober_calls : list ProberCall :=
  [CallCreate (w_config 0); CallIncoming 1200; CallCurrent 1000; CallSent 1000 1200 1; CallCreate (w_config 6000000); CallAbort].
Lemma prober_calls_ok_witness : Forall call_has_rate w_prober_calls /\
  exists s, prober_calls w_prober_calls BitrateProber_new = Some s /\ prober_ok s.
Proof. assert (H : Forall call_has_rate w_prober_calls) by by repeat constructor. split; [exact H|]. exact (prober_calls_ok _ H). Defined.
