(* ===== verification/Pacer.v ===== *)
(** * The pacer ([minirtc/src/qos/pacing_controller.{h,cc}])

    Packets wait in the queue of [PacketQueue] and leave at the pacing rate, kept by a debt that every packet
    sent adds to and time drains; probes, audio and retransmissions leave at once.  Every operation is a
    computation on the state that fails, with [None], where the code divides by zero or the queue uses a
    dangling pointer.  What the clock reads and what the packet sender returns are tapes in the state: each
    reading, call of [FetchFec] and call of [GeneratePadding] takes the next element; after its last reading the
    clock stands still, and an exhausted sender returns nothing.  What is handed to the packet sender is [out_], in order.
    [max_rate], which only decides whether a warning is logged, and the other logs are left out. *)
From S2P Require Export Prober PacketQueue.
#[local] Open Scope Z_scope.

(** ** Definitions *)

Definition kCongestedPacketInterval : Z := Millis 500.
Definition kMaxDebtInTime : Z := Millis 500.
Definition kMaxElapsedTime : Z := Seconds 2.
Definition kPausedProcessInterval : Z := kCongestedPacketInterval.
Definition kTargetPaddingDuration : Z := Millis 5.
Definition kMaxPaddingReplayDuration : Z := Millis 50.
Definition kMaxEarlyProbeProcessing : Z := Millis 1.
Definition kMaxBurstSize : Z := 63 * 1000.

Record Configuration := mkConfiguration {
  drain_large_queues : bool; queue_time_limit : Z; keyframe_flushing : bool; prioritize_audio_retransmission : bool;
  packet_queue_ttl : PacketQueueTTL; send_burst_interval : Z;
}.
#[export] Instance eta_Configuration : Eta Configuration := fun c => mkConfiguration c.(drain_large_queues)
  c.(queue_time_limit) c.(keyframe_flushing) c.(prioritize_audio_retransmission) c.(packet_queue_ttl) c.(send_burst_interval).
Definition DefaultConfiguration : Configuration :=
  mkConfiguration true (Millis 2000) false false (mkTTL PlusInfinity PlusInfinity PlusInfinity) (Millis 40).

(** The calls of the packet sender. *)
Inductive PacerOut := SendPacket (p : Packet) (info : PacedPacketInfo) | GeneratePadding (size : Z) | OnBatchComplete.

Record PacingController := mkPacer {
  config_ : Configuration;
  transport_overhead_per_packet_ : Z; send_burst_interval_ : Z; last_timestamp_ : Z; is_paused_ : bool;
  media_debt_ : Z; padding_debt_ : Z; pacing_rate_ : Z; adjusted_media_rate_ : Z; padding_rate_ : Z;
  prober_ : BitrateProber; probing_send_failure_ : bool; last_process_time_ : Z; last_send_time_ : Z;
  first_sent_packet_time_ : option Z; seen_first_packet_ : bool; packet_queue_ : PrioritizedPacketQueue; congested_ : bool;
  queue_time_limit_ : Z; account_for_audio_ : bool; include_overhead_ : bool; circuit_breaker_threshold_ : Z;
  clock_ : list Z; fec_ : list (list Packet); padding_ : list (list Packet); out_ : list PacerOut;
}.
#[export] Instance eta_PacingController : Eta PacingController := fun s => mkPacer s.(config_)
  s.(transport_overhead_per_packet_) s.(send_burst_interval_) s.(last_timestamp_) s.(is_paused_)
  s.(media_debt_) s.(padding_debt_) s.(pacing_rate_) s.(adjusted_media_rate_) s.(padding_rate_)
  s.(prober_) s.(probing_send_failure_) s.(last_process_time_) s.(last_send_time_)
  s.(first_sent_packet_time_) s.(seen_first_packet_) s.(packet_queue_) s.(congested_)
  s.(queue_time_limit_) s.(account_for_audio_) s.(include_overhead_) s.(circuit_breaker_threshold_)
  s.(clock_) s.(fec_) s.(padding_) s.(out_).

(** Constants of the object. *)
Definition send_padding_if_silent_ : bool := true.
Definition pace_audio_ : bool := false.
Definition ignore_transport_overhead_ : bool := false.
Definition fast_retransmissions_ : bool := true.

(** The constructor, at the first reading [t] of the clock and the second [t2]. *)
Definition PacingController_new (c : Configuration) (t t2 : Z) : PacingController :=
  mkPacer c 0 c.(send_burst_interval) t false 0 0 0 0 0 BitrateProber_new false t2 t2 None false
    (PQ_new t2 c.(prioritize_audio_retransmission) c.(packet_queue_ttl)) false c.(queue_time_limit) false false (Z.shiftl 1 16)
    [] [] [] [].

(** *** Computations *)

Definition P (A : Type) : Type := PacingController -> option (A * PacingController).
#[export] Instance P_ret : MRet P := fun _ a s => Some (a, s).
#[export] Instance P_bind : MBind P := fun _ _ k m s => match m s with Some (a, s) => k a s | None => None end.
Definition get {A} (f : PacingController -> A) : P A := fun s => Some (f s, s).
Definition put (f : PacingController -> PacingController) : P () := fun s => Some ((), f s).
(** The result of an operation that may have none. *)
Definition need {A} (x : option A) : P A := fun s => (fun a => (a, s)) <$> x.
Definition output (o : PacerOut) : P () := put (fun s => s <| out_ ::= fun l => l ++ [o] |>).
(** An operation of the queue. *)
Definition on_queue (f : PrioritizedPacketQueue -> option PrioritizedPacketQueue) : P () :=
  q ← get packet_queue_; q ← need (f q); put (fun s => s <| packet_queue_ := q |>).
Definition on_prober (f : BitrateProber -> BitrateProber) : P () := put (fun s => s <| prober_ ::= f |>).
Definition when (b : bool) (m : P ()) : P () := if b then m else mret ().

(** A reading of the clock; the last one stays. *)
Definition read (last : Z) (l : list Z) : Z * list Z :=
  match l with [] => (last, []) | [t] => (t, [t]) | t :: l => (t, l) end.
Definition CurrentTime : P Z := fun s =>
  let '(time, clock) := read s.(last_timestamp_) s.(clock_) in
  let time := Z.max time s.(last_timestamp_) in
  Some (time, s <| clock_ := clock |> <| last_timestamp_ := time |>).
Definition FetchFec : P (list Packet) := fun s =>
  match s.(fec_) with l :: r => Some (l, s <| fec_ := r |>) | [] => Some ([], s) end.
Definition call_GeneratePadding (size : Z) : P (list Packet) := fun s =>
  let s := s <| out_ ::= fun l => l ++ [GeneratePadding size] |> in
  match s.(padding_) with l :: r => Some (l, s <| padding_ := r |>) | [] => Some ([], s) end.
Fixpoint for_each {A} (f : A -> P ()) (l : list A) : P () :=
  match l with [] => mret () | a :: l => _ ← f a; for_each f l end.

(** *** Budgets *)

Definition UpdateTimeAndGetElapsed (now : Z) : P Z := fun s =>
  if IsMinusInfinity s.(last_process_time_) || (now <? s.(last_process_time_)) then Some (0, s) else
  Some (Z.min (td_sub now s.(last_process_time_)) kMaxElapsedTime, s <| last_process_time_ := now |>).

Definition UpdateBudgetWithElapsedTime (delta : Z) : P () := put (fun s =>
  s <| media_debt_ ::= fun d => td_sub d (Z.min d (data_per_time s.(adjusted_media_rate_) delta)) |>
    <| padding_debt_ ::= fun d => td_sub d (Z.min d (data_per_time s.(padding_rate_) delta)) |>).

Definition UpdatePaddingBudgetWithSentData (size : Z) : P () := put (fun s =>
  s <| padding_debt_ ::= fun d => Z.min (td_add d size) (data_per_time s.(padding_rate_) kMaxDebtInTime) |>).

Definition UpdateBudgetWithSentData (size : Z) : P () :=
  _ ← put (fun s => s <| media_debt_ ::= fun d => Z.min (td_add d size) (data_per_time s.(adjusted_media_rate_) kMaxDebtInTime) |>);
  UpdatePaddingBudgetWithSentData size.

Definition elapse (now : Z) : P () := t ← UpdateTimeAndGetElapsed now; UpdateBudgetWithElapsedTime t.

Definition OnPacketSent (packet_type : RtpPacketMediaType) (packet_size send_time : Z) : P () :=
  _ ← put (fun s => if bool_decide (s.(first_sent_packet_time_) = None) && negb (bool_decide (packet_type = kPadding))
                    then s <| first_sent_packet_time_ := Some send_time |> else s);
  audio ← get account_for_audio_;
  _ ← when ((negb (bool_decide (packet_type = kAudio)) || audio) && (packet_size >? 0)) (UpdateBudgetWithSentData packet_size);
  put (fun s => s <| last_send_time_ := send_time |>).

Definition QueueSizeData : P Z := get (fun s =>
  let size := SizeInPayloadBytes s.(packet_queue_) in
  if s.(include_overhead_) then td_add size (td_mul s.(transport_overhead_per_packet_) (SizeInPackets s.(packet_queue_))) else size).

Definition MaybeUpdateMediaRateDueToLongQueue (now : Z) : P () :=
  _ ← put (fun s => s <| adjusted_media_rate_ := s.(pacing_rate_) |>);
  drain ← get (fun s => s.(config_).(drain_large_queues));
  if negb drain then mret () else
  queue_size_data ← QueueSizeData;
  if negb (queue_size_data >? 0) then mret () else
  _ ← put (fun s => s <| packet_queue_ ::= UpdateAverageQueueTime now |>);
  avg_time_left ← get (fun s => Z.max (Millis 1) (td_sub s.(queue_time_limit_) (AverageQueueTime s.(packet_queue_))));
  min_rate_needed ← need (rate_of_size queue_size_data avg_time_left);
  put (fun s => if min_rate_needed >? s.(pacing_rate_) then s <| adjusted_media_rate_ := min_rate_needed |> else s).

(** *** When to send *)

Definition NextUnpacedSendTime : P Z :=
  q ← get packet_queue_;
  audio ← need (if pace_audio_ then Some MinusInfinity else LeadingPacketEnqueueTime kAudio q);
  if IsFinite audio then mret audio else
  retransmission ← need (if fast_retransmissions_ then LeadingPacketEnqueueTimeForRetransmission q else Some MinusInfinity);
  mret (if IsFinite retransmission then retransmission else MinusInfinity).

(** The branches of [NextSendTime] after the unpaced packets. *)
Definition paced_send_time : P Z :=
  s ← get id;
  let silent := td_add s.(last_send_time_) kCongestedPacketInterval in
  if s.(congested_) || negb s.(seen_first_packet_) then mret silent else
  next ← (if (s.(adjusted_media_rate_) >? 0) && negb (Empty s.(packet_queue_)) then
            drain_time ← need (time_for_size s.(media_debt_) s.(adjusted_media_rate_));
            burst ← need (time_for_size kMaxBurstSize s.(adjusted_media_rate_));
            mret (td_add s.(last_process_time_) (if Z.min s.(send_burst_interval_) burst >? drain_time then 0 else drain_time))
          else if (s.(padding_rate_) >? 0) && Empty s.(packet_queue_) then
            media ← need (time_for_size s.(media_debt_) s.(adjusted_media_rate_));
            padding ← need (time_for_size s.(padding_debt_) s.(padding_rate_));
            let drain_time := Z.max media padding in
            let drain_time := if (drain_time =? 0) && (negb (s.(media_debt_) =? 0) || negb (s.(padding_debt_) =? 0)) then 1 else drain_time in
            mret (td_add s.(last_process_time_) drain_time)
          else mret (td_add s.(last_process_time_) kPausedProcessInterval));
  mret (if send_padding_if_silent_ then Z.min next (td_add s.(last_send_time_) kPausedProcessInterval) else next).

Definition NextSendTime : P Z :=
  now ← CurrentTime;
  s ← get id;
  let apply_cluster_expiration t := Z.min t (NextClusterExpiration s.(prober_)) in
  if s.(is_paused_) then mret (apply_cluster_expiration (td_add s.(last_send_time_) kPausedProcessInterval)) else
  let probe_time := NextProbeTime s.(prober_) in
  if is_probing s.(prober_) && negb s.(probing_send_failure_) && negb (IsPlusInfinity probe_time)
  then mret (apply_cluster_expiration (if IsMinusInfinity probe_time then now else probe_time)) else
  unpaced ← NextUnpacedSendTime;
  if IsFinite unpaced then mret (apply_cluster_expiration unpaced) else
  t ← paced_send_time;
  mret (apply_cluster_expiration t).

(** *** Calls *)

Definition ClearProbingSendFailure : P () := put (fun s => s <| probing_send_failure_ := false |>).

Definition CreateProbeClusters (l : list ProbeClusterConfig) : P () :=
  _ ← for_each (fun c => on_prober (CreateProbeCluster c)) l;
  when (match l with [] => false | _ => true end) ClearProbingSendFailure.

Definition Pause : P () :=
  _ ← put (fun s => s <| is_paused_ := true |>);
  now ← CurrentTime;
  on_queue (fun q => Some (SetPauseState true now q)).

Definition Resume : P () :=
  now ← CurrentTime;
  _ ← put (fun s => if s.(is_paused_) then s <| last_process_time_ := now |> else s);
  _ ← put (fun s => s <| is_paused_ := false |>);
  on_queue (fun q => Some (SetPauseState false now q)).

Definition SetCongested (congested : bool) : P () :=
  was ← get congested_;
  let congestion_cleared := was && negb congested in
  _ ← when congestion_cleared (now ← CurrentTime; elapse now);
  _ ← put (fun s => s <| congested_ := congested |>);
  when congestion_cleared ClearProbingSendFailure.

Definition Pacer_RemovePacketsForSsrc (ssrc : Z) : P () := on_queue (RemovePacketsForSsrc ssrc).

Definition SetProbingEnabled (enabled : bool) : P () := on_prober (SetEnabled enabled).
Definition Pacer_AbortProbing : P () :=
  _ ← on_prober AbortProbing; put (fun s => s <| probing_send_failure_ := false |>).

Definition SetPacingRates (pacing_rate padding_rate : Z) : P () :=
  let padding_rate := if padding_rate >? pacing_rate then pacing_rate else padding_rate in
  _ ← put (fun s => s <| pacing_rate_ := pacing_rate |> <| padding_rate_ := padding_rate |>);
  now ← CurrentTime;
  MaybeUpdateMediaRateDueToLongQueue now.

Definition EnqueuePacket (p : Packet) : P () :=
  s ← get id;
  _ ← when (s.(config_).(keyframe_flushing) && bool_decide (p.(pk_type) = kVideo) && p.(is_key_frame)
            && p.(is_first_packet_of_frame) && negb (HasKeyframePackets p.(pk_ssrc) s.(packet_queue_)))
        (on_queue (RemovePacketsForSsrc p.(pk_ssrc)));
  _ ← on_prober (OnIncomingPacket p.(payload_size));
  probing ← get (fun s => is_probing s.(prober_));
  _ ← when probing ClearProbingSendFailure;
  now ← CurrentTime;
  empty ← get (fun s => Empty s.(packet_queue_));
  _ ← when empty (next_send_time ← NextSendTime; elapse (if IsFinite next_send_time then Z.min now next_send_time else now));
  _ ← on_queue (Push now p);
  _ ← put (fun s => s <| seen_first_packet_ := true |>);
  MaybeUpdateMediaRateDueToLongQueue now.

Definition SetTransportOverhead (overhead_per_packet : Z) : P () :=
  put (fun s => if ignore_transport_overhead_ then s else s <| transport_overhead_per_packet_ := overhead_per_packet |>).

Definition Pacer_SetAllowProbeWithoutMediaPacket (allow : bool) : P () :=
  _ ← on_prober (SetAllowProbeWithoutMediaPacket allow);
  probing ← get (fun s => is_probing s.(prober_));
  when (allow && probing) ClearProbingSendFailure.

Definition ExpectedQueueTime : P Z :=
  size ← QueueSizeData; rate ← get adjusted_media_rate_; need (time_for_size size rate).

(** *** [ProcessPackets] *)

Definition ShouldSendKeepalive (now : Z) (s : PacingController) : bool :=
  (send_padding_if_silent_ || s.(is_paused_) || s.(congested_) || negb s.(seen_first_packet_))
  && (td_sub now s.(last_send_time_) >=? kCongestedPacketInterval).

Definition send_packet (p : Packet) (info : PacedPacketInfo) : P () :=
  _ ← output (SendPacket p info);
  fec ← FetchFec;
  for_each EnqueuePacket fec.

Definition send_keepalive (now : Z) : P () :=
  seen ← get seen_first_packet_;
  packets ← (if seen : bool then call_GeneratePadding 1 else mret []);
  _ ← for_each (fun p => send_packet p no_probe) packets;
  OnPacketSent kPadding (fold_left (fun n p => td_add n (p.(payload_size) + p.(padding_size))) packets 0) now.

Definition PaddingToAdd (recommended_probe_size data_sent : Z) (s : PacingController) : Z :=
  if negb (Empty s.(packet_queue_)) then 0
  else if s.(congested_) then 0
  else if negb (recommended_probe_size =? 0) then
    (if recommended_probe_size >? data_sent then td_sub recommended_probe_size data_sent else 0)
  else if (s.(padding_rate_) >? 0) && (s.(padding_debt_) =? 0) then data_per_time s.(padding_rate_) kTargetPaddingDuration
  else 0.

Definition is_probe (info : PacedPacketInfo) : bool := negb (info.(probe_cluster_id) =? kNotAProbe).

Definition pop_packet : P (option Packet) :=
  q ← get packet_queue_; '(p, q) ← need (Pop q); _ ← put (fun s => s <| packet_queue_ := q |>); mret p.

(** Whether the next packet must wait. *)
Definition must_wait (info : PacedPacketInfo) (target_send_time now : Z) : P bool :=
  unpaced ← NextUnpacedSendTime;
  if IsFinite unpaced || is_probe info then mret false else
  s ← get id;
  if s.(congested_) then mret true else
  if (now <=? target_send_time) && (s.(send_burst_interval_) =? 0) then
    flush_time ← need (time_for_size s.(media_debt_) s.(adjusted_media_rate_));
    mret (td_add now flush_time >? target_send_time)
  else mret false.

Definition GetPendingPacket (info : PacedPacketInfo) (target_send_time now : Z) : P (option Packet) :=
  padding ← (if is_probe info && (info.(probe_cluster_bytes_sent) =? 0) then call_GeneratePadding 1 else mret []);
  match padding with
  | p :: _ => mret (Some p)
  | [] =>
      empty ← get (fun s => Empty s.(packet_queue_));
      if empty : bool then mret None else
      wait ← must_wait info target_send_time now;
      if wait : bool then mret None else pop_packet
  end.

(** What a round of the send loop works on. *)
Record SendLoop := mkLoop { target : Z; pacing_info : PacedPacketInfo; data_sent : Z; packets_sent : Z }.
#[export] Instance eta_SendLoop : Eta SendLoop := fun l => mkLoop l.(target) l.(pacing_info) l.(data_sent) l.(packets_sent).

(** The size a packet counts with. *)
Definition counted_size (p : Packet) (s : PacingController) : Z :=
  let size := p.(payload_size) + p.(padding_size) in
  if s.(include_overhead_) then td_add size (td_add p.(headers_size) s.(transport_overhead_per_packet_)) else size.

(** A round without a packet: whether the loop goes on. *)
Definition round_padding (now recommended_probe_size : Z) (l : SendLoop) : P (bool * SendLoop) :=
  let late := td_sub now l.(target) >? kMaxPaddingReplayDuration in
  let l := if late then l <| target := td_sub now kMaxPaddingReplayDuration |> else l in
  _ ← when late (put (fun s => s <| last_process_time_ ::= fun t => Z.max t l.(target) |>));
  padding_to_add ← get (PaddingToAdd recommended_probe_size l.(data_sent));
  if negb (padding_to_add >? 0) then mret (false, l) else
  packets ← call_GeneratePadding padding_to_add;
  match packets with
  | [] => _ ← UpdatePaddingBudgetWithSentData padding_to_add; mret (false, l)
  | _ => _ ← for_each EnqueuePacket packets; mret (true, l)
  end.

(** A round with a packet. *)
Definition round_packet (now recommended_probe_size : Z) (probing : bool) (p : Packet) (l : SendLoop) : P (bool * SendLoop) :=
  packet_size ← get (counted_size p);
  _ ← send_packet p l.(pacing_info);
  let l := l <| data_sent ::= fun n => td_add n packet_size |> <| packets_sent ::= fun n => n + 1 |> in
  _ ← OnPacketSent p.(pk_type) packet_size now;
  let l := if probing then l <| pacing_info ::= fun i => i <| probe_cluster_bytes_sent ::= fun n => i32 (n + packet_size) |> |> else l in
  if probing && (l.(data_sent) >=? recommended_probe_size) then mret (false, l) else
  target_send_time ← NextSendTime;
  if (target_send_time >? now) && negb probing then mret (false, l <| target := target_send_time |>) else
  let target_send_time := if target_send_time >? now then now else target_send_time in
  _ ← elapse target_send_time;
  mret (true, l <| target := target_send_time |>).

Definition send_round (now recommended_probe_size : Z) (probing : bool) (l : SendLoop) : P (bool * SendLoop) :=
  p ← GetPendingPacket l.(pacing_info) l.(target) now;
  match p with
  | None => round_padding now recommended_probe_size l
  | Some p => round_packet now recommended_probe_size probing p l
  end.

(** The loop: whether it ended within its iterations. *)
Fixpoint send_loop (n : nat) (now recommended_probe_size : Z) (probing : bool) (l : SendLoop) : P (bool * SendLoop) :=
  match n with
  | O => mret (false, l)
  | S n =>
      '(more, l) ← send_round now recommended_probe_size probing l;
      if more : bool then send_loop n now recommended_probe_size probing l else mret (true, l)
  end.

(** What is probed, and the size recommended for it. *)
Definition probe_info (now : Z) : P (bool * PacedPacketInfo * Z) :=
  probing ← get (fun s => is_probing s.(prober_));
  if negb probing then mret (false, no_probe, 0) else
  s ← get id;
  let '(info, prober) := CurrentCluster now s.(prober_) in
  _ ← put (fun s => s <| prober_ := prober |>);
  let info := default no_probe info in
  if is_probe info then mret (true, info, RecommendedMinProbeSize prober) else mret (false, info, 0).

Definition finish_probe (probing : bool) (l : SendLoop) : P () :=
  if negb probing then mret () else
  let send_failure := l.(data_sent) =? 0 in
  _ ← put (fun s => s <| probing_send_failure_ := send_failure |>);
  if send_failure then mret () else
  now ← CurrentTime;
  prober ← get prober_;
  prober ← need (ProbeSent now l.(data_sent) l.(packets_sent) prober);
  put (fun s => s <| prober_ := prober |>).

(** The packets that may leave by now. *)
Definition send_due (now target_send_time : Z) : P () :=
  elapsed_time ← UpdateTimeAndGetElapsed target_send_time;
  _ ← when (elapsed_time >? 0) (UpdateBudgetWithElapsedTime elapsed_time);
  '(probing, info, recommended_probe_size) ← probe_info now;
  threshold ← get circuit_breaker_threshold_;
  '(ended, l) ← send_loop (Z.to_nat threshold) now recommended_probe_size probing (mkLoop target_send_time info 0 0);
  if negb ended then put (fun s => s <| last_send_time_ := now |> <| last_process_time_ := now |>) else
  _ ← finish_probe probing l;
  now ← CurrentTime;
  MaybeUpdateMediaRateDueToLongQueue now.

Definition process : P () :=
  now ← CurrentTime;
  s ← get id;
  let '(removed, prober) := RemoveExpiredClusters now s.(prober_) in
  _ ← put (fun s => s <| prober_ := prober |>);
  _ ← when removed ClearProbingSendFailure;
  keepalive ← get (ShouldSendKeepalive now);
  _ ← when keepalive (send_keepalive now);
  paused ← get is_paused_;
  if paused : bool then mret () else
  probing ← get (fun s => is_probing s.(prober_));
  target_send_time ← NextSendTime;
  if td_add now (if probing : bool then kMaxEarlyProbeProcessing else 0) <? target_send_time
  then elapse now
  else send_due now target_send_time.

(** [OnBatchComplete] follows on every way out. *)
Definition ProcessPackets : P () := _ ← process; output OnBatchComplete.

(** *** Sequences of calls *)

Inductive PacerCall :=
| CallProcessPackets | CallEnqueuePacket (p : Packet) | CallNextSendTime | CallExpectedQueueTime
| CallCreateProbeClusters (l : list ProbeClusterConfig) | CallPauseSending | CallResume | CallSetCongested (b : bool)
| CallRemovePackets (ssrc : Z) | CallSetProbingEnabled (b : bool) | CallAbortProbing | CallSetPacingRates (pacing padding : Z)
| CallSetAccountForAudio (b : bool) | CallSetIncludeOverhead | CallSetTransportOverhead (n : Z) | CallSetSendBurstInterval (t : Z)
| CallSetAllowProbe (b : bool) | CallSetQueueTimeLimit (t : Z) | CallSetCircuitBreaker (n : Z).

Definition call (c : PacerCall) : P () :=
  match c with
  | CallProcessPackets => ProcessPackets
  | CallEnqueuePacket p => EnqueuePacket p
  | CallNextSendTime => _ ← NextSendTime; mret ()
  | CallExpectedQueueTime => _ ← ExpectedQueueTime; mret ()
  | CallCreateProbeClusters l => CreateProbeClusters l
  | CallPauseSending => Pause
  | CallResume => Resume
  | CallSetCongested b => SetCongested b
  | CallRemovePackets ssrc => Pacer_RemovePacketsForSsrc ssrc
  | CallSetProbingEnabled b => SetProbingEnabled b
  | CallAbortProbing => Pacer_AbortProbing
  | CallSetPacingRates r p => SetPacingRates r p
  | CallSetAccountForAudio b => put (fun s => s <| account_for_audio_ := b |>)
  | CallSetIncludeOverhead => put (fun s => s <| include_overhead_ := true |>)
  | CallSetTransportOverhead n => SetTransportOverhead n
  | CallSetSendBurstInterval t => put (fun s => s <| send_burst_interval_ := t |>)
  | CallSetAllowProbe b => Pacer_SetAllowProbeWithoutMediaPacket b
  | CallSetQueueTimeLimit t => put (fun s => s <| queue_time_limit_ := t |>)
  | CallSetCircuitBreaker n => put (fun s => s <| circuit_breaker_threshold_ := n |>)
  end.

(** What the environment does before a call: the readings of the clock, the packets of the sender. *)
Record PacerEnv := mkEnv { env_clock : list Z; env_fec : list (list Packet); env_padding : list (list Packet) }.
Definition supplied (e : PacerEnv) (s : PacingController) : PacingController :=
  s <| clock_ := e.(env_clock) |> <| fec_ := e.(env_fec) |> <| padding_ := e.(env_padding) |>.
Definition supply (e : PacerEnv) : P () := put (supplied e).

Fixpoint calls (xs : list (PacerEnv * PacerCall)) : P () :=
  match xs with
  | [] => mret ()
  | (e, c) :: xs => _ ← supply e; _ ← call c; calls xs
  end.
