(* ===== verification/PacerProofs.v ===== *)
(** * What leaves the pacer, and when ([minirtc/src/qos/pacing_controller.cc])

    The pacer is proved against what [PacketQueueProofs] shows of its queue: every computation keeps the
    invariant [pacer_ok] and has a result, so that the code neither divides by zero nor uses a dangling
    pointer; a relation between the state before and after says what it may have sent. *)
From S2P Require Export PacketQueueProofs Pacer.
#[local] Open Scope Z_scope.

(** ** Definitions *)

(** The packets of a level are those of its priority; all are in [K]. *)
Definition typed (b : bool) (K : Packet -> Prop) (rs : list (list (Z * list QueuedPacket))) : Prop :=
  forall i e p, e ∈ at_prio rs i -> p ∈ e.2 -> turns_prio b p.(packet) = i /\ K p.(packet).

(** The queue stands for turns whose packets are typed. *)
Definition queue_ok (b : bool) (K : Packet -> Prop) (q : PrioritizedPacketQueue) : Prop :=
  q.(prioritize_audio_retransmission_) = b /\ exists t, refines q t /\ typed b K t.(rings).

Definition unpaced (p : Packet) : bool := match p.(pk_type) with kAudio | kRetransmission => true | _ => false end.

(** ** The queue *)

Lemma typed_insert b K rs i r :
  typed b K rs -> (forall e p, e ∈ r -> p ∈ e.2 -> turns_prio b p.(packet) = i /\ K p.(packet)) -> typed b K (<[i := r]> rs).
Proof.
  intros H Hr j e p He Hp. destruct (decide (i < length rs)%nat) as [Hi|Hi].
  - rewrite at_prio_insert in He by done. case_decide as E; [subst; by eapply Hr | by eapply H].
  - rewrite list_insert_ge in He by lia. by eapply H.
Qed.

Lemma drop_old_elem now ttl l p : p ∈ drop_old now ttl l -> p ∈ l.
Proof. intros H. destruct (drop_old_suffix now ttl l) as [k ->]. apply elem_of_app. by right. Qed.

Lemma purge_ring_elem now ttl r e : e ∈ purge_ring now ttl r -> exists e', e' ∈ r /\ forall p, p ∈ e.2 -> p ∈ e'.2.
Proof.
  unfold purge_ring. destruct (IsInfinite ttl); [by eauto|]. intros [(e' & -> & He)%list_elem_of_fmap _]%in_filter.
  exists e'. split; [done|]. intros p. apply drop_old_elem.
Qed.

Lemma typed_purge_at b K ttls now i rs : typed b K rs -> typed b K (purge_at ttls now i rs).
Proof.
  intros H. unfold purge_at. destruct (decide (i < length rs)%nat) as [Hi|Hi].
  - rewrite at_prio_alter by done. apply typed_insert; [done|]. intros e p He Hp.
    apply purge_ring_elem in He as (e' & He' & Hsub). by eapply H; [|apply Hsub].
  - rewrite (list_eq (alter _ i rs) rs); [done|]. intros j. destruct (decide (i = j)) as [<-|N].
    + rewrite list_lookup_alter_eq. by rewrite (lookup_ge_None_2 rs i) by lia.
    + by rewrite list_lookup_alter_ne.
Qed.

Lemma typed_purge_until b K n i ttls now rs : typed b K rs -> typed b K (purge_until n i ttls now rs).
Proof.
  revert i rs. induction n as [|n IH]; intros i rs H; [done|]. cbn [purge_until].
  destruct (nonempty _); [|apply IH]; by apply typed_purge_at.
Qed.

Lemma typed_push b K ttls it now p t : K p -> typed b K t.(rings) -> typed b K (turns_push ttls (turns_prio b p) it now p t).(rings).
Proof.
  intros HK H. unfold turns_push. cbn -[turns_update purge_at enqueue_ring]. set (rs := purge_at _ _ _ _).
  assert (Hrs : typed b K rs) by by apply typed_purge_at. set (i := turns_prio b p) in *.
  destruct (decide (i < length rs)%nat) as [Hi|Hi].
  2: { rewrite (list_eq (alter _ i rs) rs); [done|]. intros j. destruct (decide (i = j)) as [<-|N].
       - rewrite list_lookup_alter_eq. by rewrite (lookup_ge_None_2 rs i) by lia.
       - by rewrite list_lookup_alter_ne. }
  rewrite at_prio_alter by done. apply typed_insert; [done|]. intros e q He Hq. unfold enqueue_ring in He.
  destruct (existsb _ _).
  - apply list_elem_of_fmap in He as (e' & -> & He'). destruct (e'.1 =? pk_ssrc p).
    + cbn in Hq. apply elem_of_app in Hq as [Hq| ->%list_elem_of_singleton]; [by eapply Hrs|done].
    + by eapply Hrs.
  - apply elem_of_app in He as [He| ->%list_elem_of_singleton]; [by eapply Hrs|]. cbn in Hq.
    by apply list_elem_of_singleton in Hq as ->.
Qed.

Lemma typed_pop b K ttls t : typed b K t.(rings) ->
  typed b K (turns_pop ttls t).2.(rings)
  /\ (forall p, (turns_pop ttls t).1 = Some p -> first_from 0 t.(rings) = Some (turns_prio b p) /\ K p).
Proof.
  intros H. unfold turns_pop. destruct (first_from 0 t.(rings)) as [i|] eqn:Ef; [|done].
  destruct (at_prio t.(rings) i) as [|[k [|p ps]] r] eqn:El; [done..|]. cbn [fst snd].
  assert (Hi : forall e q, e ∈ (k, p :: ps) :: r -> q ∈ e.2 -> turns_prio b q.(packet) = i /\ K q.(packet)) by (intros e q; rewrite <- El; apply H).
  split.
  - assert (H' : typed b K (<[i := if nonempty ps then r ++ [(k, ps)] else r]> t.(rings))).
    { apply typed_insert; [done|]. intros e q He Hq. destruct (nonempty ps).
      - apply elem_of_app in He as [He| ->%list_elem_of_singleton]; [by apply (Hi e); [constructor|]|].
        apply (Hi (k, p :: ps)); [constructor|]. by constructor.
      - by apply (Hi e); [constructor|]. }
    cbn -[purge_until]. destruct (nonempty (if nonempty ps then _ else _)); [done|]. by apply typed_purge_until.
  - intros q [= <-]. destruct (Hi (k, p :: ps) p) as [<- HK]; [constructor..|done].
Qed.

Lemma typed_remove b K ttls ssrc t : typed b K t.(rings) -> typed b K (turns_remove ttls ssrc t).(rings).
Proof.
  intros H. unfold turns_remove. cbn -[purge_until].
  assert (H' : typed b K (without ssrc <$> t.(rings))).
  { intros i e p He Hp. rewrite at_prio_without in He. apply in_filter in He as [He _]. by eapply H. }
  destruct (match first_from 0 _ with Some _ => _ | None => _ end); [done|]. by apply typed_purge_until.
Qed.

(** What each operation of the queue gives its owner. *)
Lemma queue_Push b K now p q : K p -> queue_ok b K q -> exists q', Push now p q = Some q' /\ queue_ok b K q'.
Proof.
  intros HK (Hb & t & R & T). destruct (Push_spec now p q t R) as (q' & E & [_ Hb'] & _ & R'). exists q'. split; [done|].
  split; [congruence|]. eexists. split; [exact R'|]. rewrite Hb. by apply typed_push.
Qed.

Lemma queue_Pop b K q : queue_ok b K q ->
  exists r q', Pop q = Some (r, q') /\ queue_ok b K q'
    /\ forall p, r = Some p -> q.(top_active_prio_level_) = Some (turns_prio b p) /\ K p.
Proof.
  intros (Hb & t & R & T). destruct (Pop_spec q t R) as (q' & E & F & R'). destruct (typed_pop b K q.(time_to_live_per_prio_) t T) as [T' Hp].
  eexists _, q'. split; [exact E|]. split; [split; [by rewrite (same_prioritize _ _ F)|by eexists]|].
  intros p Ep. rewrite (proj2 (re_ready _ _ R)). by apply Hp.
Qed.

Lemma queue_Remove b K ssrc q : queue_ok b K q -> exists q', RemovePacketsForSsrc ssrc q = Some q' /\ queue_ok b K q'.
Proof.
  intros (Hb & t & R & T). destruct (Remove_spec ssrc q t R) as (q' & E & [_ Hb'] & _ & R'). exists q'. split; [done|].
  split; [congruence|]. eexists. split; [exact R'|]. by apply typed_remove.
Qed.

(** The packets that wait: fewer when one is taken or a stream is removed, at most one more when one is put. *)
Lemma queue_waiting q t : refines q t -> SizeInPackets q = zlen (waiting t).
Proof.
  intros [[Hst _] _ _ _]. unfold SizeInPackets, waiting. rewrite (counts_packets _ _ (st_counters _ _ Hst)). unfold zlen. by rewrite length_fmap.
Qed.
Lemma zlen_permutation {A} (l k : list A) : l ≡ₚ k -> zlen l = zlen k.
Proof. intros H. unfold zlen. by rewrite H. Qed.

Lemma Pop_size b K q r q' : queue_ok b K q -> Pop q = Some (r, q') ->
  SizeInPackets q' + (if r then 1 else 0) <= SizeInPackets q /\ (r = None -> Empty q = true).
Proof.
  intros (_ & t & Rf & _) E. destruct (Pop_spec q t Rf) as (q2 & E2 & _ & R2). rewrite E in E2. injection E2 as -> <-.
  rewrite (queue_waiting q t Rf), (queue_waiting _ _ R2). destruct (pop_ledger q.(time_to_live_per_prio_) t) as (lost & H & _).
  apply zlen_permutation in H. rewrite !zlen_app in H. pose proof (zlen_nonneg lost). split.
  { rewrite H. destruct (turns_pop _ t).1; cbn; unfold zlen; cbn; lia. }
  intros En. unfold Empty. change (size_packets_ q) with (SizeInPackets q). rewrite (queue_waiting q t Rf).
  destruct (waiting t) eqn:Ew; [done|]. exfalso. apply (Pop_some q.(time_to_live_per_prio_) q t Rf); [by rewrite Ew|done].
Qed.
Lemma Push_size b K now p q q' : queue_ok b K q -> Push now p q = Some q' -> SizeInPackets q' <= SizeInPackets q + 1.
Proof.
  intros (_ & t & Rf & _) E. destruct (Push_spec now p q t Rf) as (q2 & E2 & _ & _ & R2). rewrite E in E2. injection E2 as <-.
  rewrite (queue_waiting q t Rf), (queue_waiting _ _ R2).
  destruct (push_ledger q q.(time_to_live_per_prio_) (turns_prio q.(prioritize_audio_retransmission_) p) q.(next_iterator) now p t Rf) as (lost & H & _);
    [apply prio_level|]. apply zlen_permutation in H. rewrite !zlen_app, zlen_cons, zlen_nil in H. pose proof (zlen_nonneg lost). lia.
Qed.
Lemma Remove_size b K ssrc q q' : queue_ok b K q -> RemovePacketsForSsrc ssrc q = Some q' -> SizeInPackets q' <= SizeInPackets q.
Proof.
  intros (_ & t & Rf & _) E. destruct (Remove_spec ssrc q t Rf) as (q2 & E2 & _ & _ & R2). rewrite E in E2. injection E2 as <-.
  rewrite (queue_waiting q t Rf), (queue_waiting _ _ R2). destruct (remove_ledger q.(time_to_live_per_prio_) ssrc t) as (lost & H).
  apply zlen_permutation in H. rewrite !zlen_app in H. pose proof (zlen_nonneg lost). lia.
Qed.

Lemma empty_top b K q : queue_ok b K q -> Empty q = true -> q.(top_active_prio_level_) = None.
Proof.
  intros (_ & t & [[Hst Ht] _ _ _] & _) E. rewrite Ht. apply (ring_packets_nil _ _ Hst). unfold Empty in E. rewrite (stands_size _ _ Hst) in E.
  by destruct (ring_packets _).
Qed.

Lemma queue_Pause b K x now q : queue_ok b K q -> queue_ok b K (SetPauseState x now q).
Proof.
  intros (Hb & t & R & T). split; [by rewrite (proj2 (proj2 (same_config_update now x q)))|].
  eexists. split; [by apply Pause_spec|]. cbn. by rewrite rings_update.
Qed.

Lemma queue_Update b K now q : queue_ok b K q -> queue_ok b K (UpdateAverageQueueTime now q).
Proof.
  intros (Hb & t & R & T). split; [by rewrite (proj2 (proj1 (same_config_update now true q)))|].
  eexists. split; [by apply Update_spec|]. by rewrite rings_update.
Qed.

Lemma queue_new now b K ttl : queue_ok b K (PQ_new now b ttl).
Proof.
  split; [done|]. eexists. split; [apply refines_new|]. intros i e p He. cbn in He. unfold at_prio in He.
  by destruct i as [|[|[|[|[|i]]]]]; apply not_elem_of_nil in He.
Qed.

(** The time of the next packet of a level; there is one only if the first level with packets is not later. *)
Lemma leading_spec b K none i q : queue_ok b K q -> (i < kNumPriorityLevels)%nat ->
  exists t, leading none i q = Some t /\ (t = none \/ exists j, q.(top_active_prio_level_) = Some j /\ (j <= i)%nat).
Proof.
  intros (Hb & t & [[Hst Ht] _ _ _] & _) Hi. unfold leading. destruct (st_live _ _ Hst i Hi) as [Hn Hl].
  destruct (at_prio q.(streams_by_prio_) i) as [|a qs] eqn:E; [by eauto|].
  assert (Ha : pk q a i <> []) by (apply Hl; by constructor). pose proof (pk_Some _ _ _ Ha) as (kq & -> & Eq).
  destruct kq as [k s]. cbn [mbind option_bind]. cbn in Eq. rewrite Eq. destruct (pk q a i) as [|p l]; [done|].
  eexists. split; [done|]. right. rewrite Ht. assert (Hne : at_prio (rings t) i <> []) by by rewrite (stands_level _ _ _ Hst), E.
  destruct (first_from 0 (rings t)) as [j|] eqn:Ej; [|by rewrite (proj1 (first_from_None _) Ej) in Hne].
  exists j. split; [done|]. apply first_from_Some in Ej as [_ Hlow]. destruct (decide (j <= i)%nat); [done|]. by rewrite Hlow in Hne by lia.
Qed.

Lemma prio_unpaced b p : (turns_prio b p <= 2)%nat -> unpaced p = true.
Proof. unfold turns_prio, unpaced. destruct (pk_type p); cbn; try done; try lia. Qed.

(** ** Computations *)

(** The computation has a result, for which [Q] holds. *)
Definition wp {A} (m : P A) (Q : A -> PacingController -> Prop) (s : PacingController) : Prop :=
  exists a s', m s = Some (a, s') /\ Q a s'.

Lemma wp_bind {A B} (m : P A) (k : A -> P B) Q s : wp m (fun a s' => wp (k a) Q s') s -> wp (m ≫= k) Q s.
Proof. intros (a & s1 & E1 & b & s2 & E2 & H). exists b, s2. split; [|done]. unfold mbind, P_bind. by rewrite E1. Qed.
Lemma wp_ret {A} (a : A) (Q : A -> PacingController -> Prop) s : Q a s -> wp (mret a) Q s.
Proof. intros H. by exists a, s. Qed.
Lemma wp_get {A} (f : PacingController -> A) (Q : A -> PacingController -> Prop) s : Q (f s) s -> wp (get f) Q s.
Proof. intros H. by exists (f s), s. Qed.
Lemma wp_put f (Q : () -> PacingController -> Prop) s : Q () (f s) -> wp (put f) Q s.
Proof. intros H. by exists (), (f s). Qed.
Lemma wp_need {A} (x : option A) a (Q : A -> PacingController -> Prop) s : x = Some a -> Q a s -> wp (need x) Q s.
Proof. intros -> H. by exists a, s. Qed.
Lemma wp_when (b : bool) (m : P ()) Q s : (b = true -> wp m Q s) -> (b = false -> Q () s) -> wp (when b m) Q s.
Proof. intros H1 H2. destruct b; [by apply H1|]. apply wp_ret. by apply H2. Qed.
Lemma wp_mono {A} (m : P A) (Q Q' : A -> PacingController -> Prop) s : wp m Q s -> (forall a s', Q a s' -> Q' a s') -> wp m Q' s.
Proof. intros (a & s' & E & H) HQ. exists a, s'. split; [done|]. by apply HQ. Qed.
(** A computation that does not change the state. *)
Lemma wp_pure {A} (m : P A) a (Q : A -> PacingController -> Prop) s : m s = Some (a, s) -> Q a s -> wp m Q s.
Proof. intros E H. by exists a, s. Qed.

(** ** The invariant *)

(** What only the calls that configure the pacer change. *)
Definition settings (s : PacingController) :=
  (s.(config_), s.(transport_overhead_per_packet_), s.(send_burst_interval_), s.(is_paused_), s.(congested_), s.(queue_time_limit_),
   s.(account_for_audio_), s.(include_overhead_), s.(circuit_breaker_threshold_), s.(pacing_rate_), s.(padding_rate_)).
(** All that the invariant looks at, with the settings and the output. *)
Definition core (s : PacingController) :=
  (s.(packet_queue_), s.(prober_), s.(adjusted_media_rate_), s.(fec_), s.(padding_), s.(out_), settings s).

Section invariant.
(** The packets that are handed to the pacer. *)
Context (K : Packet -> Prop).

Record pacer_ok (s : PacingController) : Prop := {
  pi_queue : queue_ok s.(config_).(prioritize_audio_retransmission) K s.(packet_queue_);
  pi_prober : prober_ok s.(prober_);
  pi_rate : 0 < s.(pacing_rate_) <= s.(adjusted_media_rate_);
  pi_fec : Forall (Forall K) s.(fec_);
  pi_padding : Forall (Forall K) s.(padding_);
}.

(** What the packet sender is called with. *)
Context (V : PacerOut -> Prop).

Record step (s s' : PacingController) : Prop := {
  st_ok : pacer_ok s';
  st_settings : settings s' = settings s;
  st_out : exists os, s'.(out_) = s.(out_) ++ os /\ Forall V os;
  st_clusters : s.(prober_).(clusters_) = [] -> s'.(prober_).(clusters_) = [];
}.

Lemma step_refl s : pacer_ok s -> step s s.
Proof. intros H. split; try done. exists []. by rewrite app_nil_r. Qed.
Lemma step_trans s1 s2 s3 : step s1 s2 -> step s2 s3 -> step s1 s3.
Proof.
  intros [_ S1 (o1 & E1 & H1) C1] [K2 S2 (o2 & E2 & H2) C2]. split; [done|congruence| |auto].
  exists (o1 ++ o2). rewrite E2, E1, app_assoc. split; [done|]. by apply Forall_app.
Qed.
Lemma step_core s s' : pacer_ok s -> core s' = core s -> step s s'.
Proof.
  unfold core. intros [] [=]. split; [split; congruence|unfold settings; congruence| |congruence].
  exists []. rewrite app_nil_r. by split.
Qed.

(** A computation keeps the invariant. *)
Definition keeps {A} (m : P A) : Prop := forall s, pacer_ok s -> wp m (fun _ s' => step s s') s.

Lemma pacer_wp {A} (m : P A) (Q : A -> PacingController -> Prop) s s0 :
  keeps m -> step s0 s -> (forall a s', step s0 s' -> Q a s') -> wp m Q s.
Proof.
  intros Hm Hs HQ. eapply wp_mono; [apply Hm, Hs|]. cbn. intros a s' Hs'. apply HQ. by eapply step_trans.
Qed.
Lemma pacer_bind {A B} (m : P A) (k : A -> P B) : keeps m -> (forall a, keeps (k a)) -> keeps (m ≫= k).
Proof.
  intros Hm Hk s Hs. apply wp_bind. eapply (pacer_wp m _ s s); [done|by apply step_refl|]. intros a s' Hs'.
  by eapply (pacer_wp (k a) _ s' s).
Qed.
Lemma pacer_ret {A} (a : A) : keeps (mret a).
Proof. intros s Hs. apply wp_ret. by apply step_refl. Qed.
Lemma pacer_get {A} (f : PacingController -> A) : keeps (get f).
Proof. intros s Hs. apply wp_get. by apply step_refl. Qed.
Lemma pacer_put f : (forall s, core (f s) = core s) -> keeps (put f).
Proof. intros H s Hs. apply wp_put. by apply step_core. Qed.
Lemma pacer_when b m : (b = true -> keeps m) -> keeps (when b m).
Proof. intros H s Hs. apply wp_when; [intros E; by apply (H E)|]. intros _. by apply step_refl. Qed.
Lemma pacer_for_each {A} (f : A -> P ()) l : Forall (fun a => keeps (f a)) l -> keeps (for_each f l).
Proof. induction 1 as [|a l Ha Hl IH]; [apply pacer_ret|]. apply pacer_bind; [done|]. by intros []. Qed.
End invariant.

(** ** What the operations keep *)

Section operations.
Context (K : Packet -> Prop) (V : PacerOut -> Prop).
Notation ok := (pacer_ok K).
Notation steps := (step K V).
Notation kept := (keeps K V).

Lemma step_queue s q : ok s -> queue_ok s.(config_).(prioritize_audio_retransmission) K q -> steps s (s <| packet_queue_ := q |>).
Proof. intros [] Hq. split; [by split|done| |done]. exists []. by rewrite app_nil_r. Qed.
Lemma step_prober s p : ok s -> prober_ok p -> (s.(prober_).(clusters_) = [] -> p.(clusters_) = []) -> steps s (s <| prober_ := p |>).
Proof. intros [] Hp Hc. split; [by split|done| |done]. exists []. by rewrite app_nil_r. Qed.

Lemma Incoming_clusters n p : (OnIncomingPacket n p).(clusters_) = p.(clusters_).
Proof. unfold OnIncomingPacket, MaybeSetActiveState. by destruct (ReadyToSetActiveState n p). Qed.
Lemma RemoveExpired_none now p : p.(clusters_) = [] -> (RemoveExpiredClusters now p).2.(clusters_) = [].
Proof. intros E. unfold RemoveExpiredClusters. by rewrite E. Qed.
Lemma Current_none now p : p.(clusters_) = [] -> (CurrentCluster now p).2.(clusters_) = [].
Proof. intros E. unfold CurrentCluster. by rewrite E. Qed.
Lemma Sent_none now size n p p' : ProbeSent now size n p = Some p' -> p.(clusters_) = [] -> p'.(clusters_) = [].
Proof. unfold ProbeSent. intros H E. rewrite E in H. by injection H as <-. Qed.

Lemma CurrentTime_kept : kept CurrentTime.
Proof. intros s Hs. unfold CurrentTime, wp. destruct (read _ _) as [t l]. eexists _, _. split; [done|]. by apply step_core. Qed.

Lemma FetchFec_wp s : ok s -> wp FetchFec (fun l s' => Forall K l /\ steps s s') s.
Proof.
  intros Hs. unfold FetchFec, wp. destruct (fec_ s) as [|l r] eqn:E; eexists _, _; (split; [done|]).
  - split; [done|by apply step_refl].
  - destruct Hs as [Hq Hp Hr Hf Hg]. rewrite E in Hf. apply Forall_cons in Hf as [Hl Hf]. split; [done|]. split; [by split|done| |done].
    exists []. by rewrite app_nil_r.
Qed.

Lemma padding_wp n s : ok s -> V (GeneratePadding n) -> wp (call_GeneratePadding n) (fun l s' => Forall K l /\ steps s s') s.
Proof.
  intros Hs HV. unfold call_GeneratePadding, wp. destruct Hs as [Hq Hp Hr Hf Hg]. cbn. destruct (padding_ s) as [|l r] eqn:E;
    eexists _, _; (split; [done|]).
  - split; [done|]. split; [split; cbn; rewrite ?E; auto|done| |done]. exists [GeneratePadding n]. split; [done|]. by constructor.
  - apply Forall_cons in Hg as [Hl Hg]. split; [done|]. split; [by split|done| |done]. exists [GeneratePadding n].
    split; [done|]. by constructor.
Qed.

Lemma output_kept o : V o -> kept (output o).
Proof.
  intros HV s Hs. apply wp_put. destruct Hs. split; [by split|done| |done]. exists [o]. split; [done|]. by constructor.
Qed.

Lemma on_queue_kept f :
  (forall b q, queue_ok b K q -> exists q', f q = Some q' /\ queue_ok b K q') -> kept (on_queue f).
Proof.
  intros Hf s Hs. unfold on_queue. apply wp_bind, wp_get, wp_bind. destruct (Hf _ _ (pi_queue K s Hs)) as (q' & E & Hq).
  eapply wp_need; [exact E|]. apply wp_put. by apply step_queue.
Qed.

Lemma on_prober_kept f : (forall p, prober_ok p -> prober_ok (f p)) -> (forall p, p.(clusters_) = [] -> (f p).(clusters_) = []) -> kept (on_prober f).
Proof. intros Hf Hc s Hs. apply wp_put. apply (step_prober s (f (prober_ s))); auto. apply Hf, Hs. Qed.

Lemma elapse_kept now : kept (elapse now).
Proof.
  unfold elapse. apply pacer_bind; [|intros t; by apply pacer_put]. intros s Hs. unfold UpdateTimeAndGetElapsed, wp.
  destruct (_ || _); eexists _, _; (split; [done|]); by apply step_core.
Qed.

Lemma OnPacketSent_kept ty n t : kept (OnPacketSent ty n t).
Proof.
  unfold OnPacketSent. apply pacer_bind; [|intros []].
  { apply pacer_put. intros s. by destruct (_ && _). }
  apply pacer_bind; [apply pacer_get|intros audio]. apply pacer_bind; [|intros []; by apply pacer_put].
  apply pacer_when. intros _. unfold UpdateBudgetWithSentData. apply pacer_bind; [by apply pacer_put|intros []]. by apply pacer_put.
Qed.

Lemma QueueSizeData_kept : kept QueueSizeData.
Proof. unfold QueueSizeData. apply pacer_get. Qed.

(** The media rate stays at least the pacing rate. *)
Lemma step_rate s r : ok s -> s.(pacing_rate_) <= r -> steps s (s <| adjusted_media_rate_ := r |>).
Proof. intros [] H. split; [split; cbn; auto; lia|done| |done]. exists []. by rewrite app_nil_r. Qed.

Lemma min_rate size t : exists r, rate_of_size size (Z.max (Millis 1) t) = Some r.
Proof. unfold rate_of_size. change (Millis 1) with 1000. destruct (Z.eqb_spec (Z.max 1000 t) 0); [lia|by eexists]. Qed.

Lemma media_rate_kept now : kept (MaybeUpdateMediaRateDueToLongQueue now).
Proof.
  unfold MaybeUpdateMediaRateDueToLongQueue. apply pacer_bind.
  { intros s Hs. apply wp_put. apply step_rate; [done|]. lia. }
  intros []. intros s Hs. apply wp_bind, wp_get. destruct (negb _); [by apply pacer_ret|].
  eapply pacer_bind; [apply QueueSizeData_kept| |done]. clear s Hs. intros size. destruct (negb _); [apply pacer_ret|]. apply pacer_bind.
  { intros s Hs. apply wp_put. apply (step_queue s (UpdateAverageQueueTime now s.(packet_queue_))); [done|]. apply queue_Update, Hs. }
  intros [] s Hs. apply wp_bind, wp_get, wp_bind. destruct (min_rate size (td_sub s.(queue_time_limit_) (AverageQueueTime s.(packet_queue_)))) as [r E].
  eapply wp_need; [exact E|]. apply wp_put. destruct (Z.gtb_spec r (pacing_rate_ s)) as [H|H].
  - apply step_rate; [done|]. lia.
  - by apply step_refl.
Qed.

(** A time is returned only if the first packet of the queue is unpaced. *)
Definition waits_unpaced (s : PacingController) (t : Z) : Prop :=
  IsFinite t = true -> exists j, s.(packet_queue_).(top_active_prio_level_) = Some j /\ (j <= 2)%nat.

Lemma NextUnpaced_wp s : ok s -> exists t, NextUnpacedSendTime s = Some (t, s) /\ waits_unpaced s t.
Proof.
  intros Hs. pose proof (pi_queue K s Hs) as Hq. set (q := packet_queue_ s) in *.
  destruct (leading_spec _ K MinusInfinity (GetPriorityForType kAudio None) q Hq) as (a & Ea & Ha); [cbn; unfold kNumPriorityLevels; lia|].
  destruct (leading_spec _ K PlusInfinity (GetPriorityForType kRetransmission (Some kOriginalAudio)) q Hq) as (r1 & E1 & H1);
    [cbn; unfold kNumPriorityLevels; lia|].
  destruct (leading_spec _ K PlusInfinity (GetPriorityForType kRetransmission (Some kOriginalVideo)) q Hq) as (r2 & E2 & H2);
    [cbn; unfold kNumPriorityLevels; lia|].
  assert (Hr : exists r, LeadingPacketEnqueueTimeForRetransmission q = Some r /\ (IsFinite r = true -> exists j, top_active_prio_level_ q = Some j /\ (j <= 2)%nat)).
  { unfold LeadingPacketEnqueueTimeForRetransmission. destruct (negb _).
    - exists r1. split; [exact E1|]. intros Hf. destruct H1 as [->|(j & Ej & Hj)]; [done|]. exists j. split; [done|]. cbn in Hj. lia.
    - exists (Z.min r1 r2). rewrite E1, E2. split; [done|]. intros Hf. destruct H1 as [->|(j & Ej & Hj)].
      + destruct H2 as [->|(j & Ej & Hj)]; [done|]. by exists j.
      + exists j. split; [done|]. cbn in Hj. lia. }
  destruct Hr as (r & Er & Hr). exists (if IsFinite a then a else if IsFinite r then r else MinusInfinity).
  unfold NextUnpacedSendTime, mbind, P_bind, get, need. cbn -[LeadingPacketEnqueueTime LeadingPacketEnqueueTimeForRetransmission IsFinite].
  fold q. unfold LeadingPacketEnqueueTime. rewrite Ea. cbn -[LeadingPacketEnqueueTimeForRetransmission IsFinite].
  destruct (IsFinite a) eqn:Fa.
  - split; [done|]. intros _. destruct Ha as [->|(j & Ej & Hj)]; [done|]. exists j. split; [done|]. cbn in Hj. lia.
  - fold q. rewrite Er. cbn -[IsFinite]. split; [done|]. unfold waits_unpaced. fold q. destruct (IsFinite r) eqn:Fr; [auto|done].
Qed.

Lemma NextUnpaced_kept : kept NextUnpacedSendTime.
Proof. intros s Hs. destruct (NextUnpaced_wp s Hs) as (t & E & _). eapply wp_pure; [exact E|]. by apply step_refl. Qed.

Lemma time_for_size_some size rate : rate <> 0 -> exists t, time_for_size size rate = Some t.
Proof. intros H. unfold time_for_size. destruct (Z.eqb_spec rate 0); [done|by eexists]. Qed.

(** [NextSendTime] has a result and only reads the clock. *)
Lemma paced_send_time_wp s : ok s -> exists t, paced_send_time s = Some (t, s).
Proof.
  intros Hs. destruct (pi_rate K s Hs) as [H1 H2]. unfold paced_send_time, mbind, P_bind, get, need, mret, P_ret, id.
  destruct (_ || _); [by eexists|].
  destruct (time_for_size_some (media_debt_ s) (adjusted_media_rate_ s)) as [t1 E1]; [lia|].
  destruct (time_for_size_some kMaxBurstSize (adjusted_media_rate_ s)) as [t2 E2]; [lia|]. rewrite E1, E2.
  destruct (_ && _); [by eexists|]. destruct (Z.gtb_spec (padding_rate_ s) 0) as [Hp|Hp]; [|by eexists].
  destruct (time_for_size_some (padding_debt_ s) (padding_rate_ s)) as [t3 E3]; [lia|]. rewrite E3.
  destruct (_ && _); by eexists.
Qed.

Lemma NextSendTime_kept : kept NextSendTime.
Proof.
  unfold NextSendTime. apply pacer_bind; [apply CurrentTime_kept|]. intros now. apply pacer_bind; [apply pacer_get|]. intros s1.
  cbn zeta. destruct (is_paused_ s1); [apply pacer_ret|]. destruct (_ && _); [apply pacer_ret|].
  apply pacer_bind; [apply NextUnpaced_kept|]. intros u. destruct (IsFinite u); [apply pacer_ret|].
  apply pacer_bind; [|intros t; apply pacer_ret]. intros s Hs. destruct (paced_send_time_wp s Hs) as [t E].
  eapply wp_pure; [exact E|]. by apply step_refl.
Qed.

Lemma EnqueuePacket_kept p : K p -> kept (EnqueuePacket p).
Proof.
  intros Hp. unfold EnqueuePacket. apply pacer_bind; [apply pacer_get|]. intros s1. apply pacer_bind.
  { apply pacer_when. intros _. apply on_queue_kept. intros b q Hq. by apply queue_Remove. }
  intros []. apply pacer_bind.
  { apply on_prober_kept; [auto with prober|]. intros x E. by rewrite Incoming_clusters. }
  intros []. apply pacer_bind; [apply pacer_get|]. intros b. apply pacer_bind.
  { apply pacer_when. intros _. by apply pacer_put. }
  intros []. apply pacer_bind; [apply CurrentTime_kept|]. intros now. apply pacer_bind; [apply pacer_get|]. intros e. apply pacer_bind.
  { apply pacer_when. intros _. apply pacer_bind; [apply NextSendTime_kept|]. intros t. apply elapse_kept. }
  intros []. apply pacer_bind.
  { apply on_queue_kept. intros b' q Hq. by apply queue_Push. }
  intros []. apply pacer_bind; [by apply pacer_put|]. intros []. apply media_rate_kept.
Qed.

Lemma enqueue_all_kept l : Forall K l -> kept (for_each EnqueuePacket l).
Proof. intros H. apply pacer_for_each. eapply Forall_impl; [exact H|]. intros p. apply EnqueuePacket_kept. Qed.

Lemma send_packet_kept p info : V (SendPacket p info) -> kept (send_packet p info).
Proof.
  intros HV. unfold send_packet. apply pacer_bind; [by apply output_kept|]. intros [] s Hs. apply wp_bind.
  eapply wp_mono; [apply FetchFec_wp; exact Hs|]. intros l s' [Hl Hs']. by eapply pacer_wp; [apply enqueue_all_kept|..].
Qed.

Lemma wp_kept {A} (m : P A) (Q : A -> PacingController -> Prop) s :
  kept m -> ok s -> (forall a s', steps s s' -> Q a s') -> wp m Q s.
Proof. intros Hm Hs HQ. eapply pacer_wp; [exact Hm|by apply step_refl|exact HQ]. Qed.

Lemma send_keepalive_wp now s :
  ok s -> V (GeneratePadding 1) -> (forall p, K p -> p ∈ default [] (head s.(padding_)) -> V (SendPacket p no_probe)) ->
  wp (send_keepalive now) (fun _ s' => steps s s') s.
Proof.
  intros Hs HV Hp. unfold send_keepalive. apply wp_bind, wp_get, wp_bind.
  apply (wp_mono _ (fun l s' => Forall K l /\ (forall p, p ∈ l -> p ∈ default [] (head s.(padding_))) /\ steps s s')).
  - destruct (seen_first_packet_ s).
    + pose proof (padding_wp 1 s Hs HV) as (l & s' & E & Hl & Hs'). exists l, s'. split; [done|]. split; [done|]. split; [|done].
      unfold call_GeneratePadding in E. cbn in E. destruct (padding_ s); injection E as <- _; done.
    + apply wp_ret. split; [done|]. split; [set_solver|by apply step_refl].
  - intros l s1 (Hl & Hin & Hs1). apply wp_bind. eapply (pacer_wp K V _ _ s1 s); [|done|].
    + apply pacer_for_each, List.Forall_forall. intros p Hel%list_elem_of_In. apply send_packet_kept, Hp; [|by apply Hin].
      by eapply Forall_forall in Hl.
    + intros [] s2 Hs2. eapply (pacer_wp K V _ _ s2 s); [apply OnPacketSent_kept|done|done].
Qed.

(** What a round may hand to the packet sender: [c] while congested, [b] while probing. *)
Definition allows (c b : bool) : Prop :=
  (b = true \/ c = false -> forall n, V (GeneratePadding n))
  /\ (forall p info, K p -> is_probe info = b -> (b = false -> c = true -> unpaced p = true) -> V (SendPacket p info)).

Lemma steps_congested s s' : steps s s' -> s'.(congested_) = s.(congested_).
Proof. intros [_ [=] _ _]. congruence. Qed.

Lemma pop_packet_wp s : ok s ->
  wp pop_packet (fun r s' => steps s s' /\ forall p, r = Some p -> K p
    /\ ((exists j, s.(packet_queue_).(top_active_prio_level_) = Some j /\ (j <= 2)%nat) -> unpaced p = true)) s.
Proof.
  intros Hs. destruct (queue_Pop _ K _ (pi_queue K s Hs)) as (r & q' & E & Hq & Hr). unfold pop_packet.
  apply wp_bind, wp_get, wp_bind. eapply wp_need; [exact E|]. cbn. apply wp_bind, wp_put, wp_ret. split; [by apply step_queue|].
  intros p Ep. destruct (Hr p Ep) as [Et HK]. split; [done|]. intros (j & Ej & Hj). eapply prio_unpaced.
  rewrite Et in Ej. injection Ej as ->. exact Hj.
Qed.

Lemma must_wait_wp info target now s : ok s -> exists w, must_wait info target now s = Some (w, s)
  /\ (w = false -> is_probe info = false -> s.(congested_) = true ->
      exists j, s.(packet_queue_).(top_active_prio_level_) = Some j /\ (j <= 2)%nat).
Proof.
  intros Hs. destruct (NextUnpaced_wp s Hs) as (t & E & Ht). destruct (pi_rate K s Hs) as [H1 H2].
  destruct (time_for_size_some (media_debt_ s) (adjusted_media_rate_ s)) as [f Ef]; [lia|].
  unfold must_wait, mbind, P_bind, get, need, mret, P_ret, id. rewrite E. destruct (IsFinite t) eqn:F; cbn -[IsFinite].
  { eexists. split; [done|]. intros _ _ _. by apply Ht. }
  destruct (is_probe info); [by eexists|]. destruct (congested_ s); [by eexists|]. destruct (_ && _); [|by eexists].
  rewrite Ef. by eexists.
Qed.

Lemma GetPendingPacket_wp info target now s :
  ok s -> allows s.(congested_) (is_probe info) ->
  wp (GetPendingPacket info target now) (fun r s' => steps s s' /\ forall p, r = Some p -> K p
    /\ (is_probe info = false -> s.(congested_) = true -> unpaced p = true)) s.
Proof.
  intros Hs [HV _]. unfold GetPendingPacket. apply wp_bind.
  apply (wp_mono _ (fun l s' => Forall K l /\ steps s s' /\ (is_probe info = false -> l = []))).
  - destruct (is_probe info) eqn:Ep; [destruct (_ =? 0)|]; cbn [andb].
    + eapply wp_mono; [apply padding_wp; auto|]. cbn. by intros l s' [Hl Hs'].
    + apply wp_ret. split; [done|]. split; [by apply step_refl|done].
    + apply wp_ret. split; [done|]. split; [by apply step_refl|done].
  - intros l s1 (Hl & Hs1 & Hn). destruct l as [|p l].
    2: { apply wp_ret. split; [done|]. intros p' [= <-]. apply Forall_cons in Hl as [Hp _]. split; [done|]. intros E. by apply Hn in E. }
    apply wp_bind, wp_get. destruct (Empty _); [by apply wp_ret|]. pose proof (st_ok K V s s1 Hs1) as Hok1.
    destruct (must_wait_wp info target now s1 Hok1) as (w & Ew & Hw). apply wp_bind. eapply wp_pure; [exact Ew|].
    destruct w; [by apply wp_ret|]. eapply wp_mono; [by apply pop_packet_wp|]. intros r s2 [Hs2 Hr]. split; [by eapply step_trans|].
    intros p Ep. destruct (Hr p Ep) as [HK Hu]. split; [done|]. intros Hi Hc. apply Hu, Hw; [done..|]. by rewrite (steps_congested _ _ Hs1).
Qed.

Lemma PaddingToAdd_congested n m s : s.(congested_) = true -> PaddingToAdd n m s = 0.
Proof. intros E. unfold PaddingToAdd. rewrite E. by destruct (negb _). Qed.

Lemma round_padding_kept now n l s :
  ok s -> (s.(congested_) = false -> forall n, V (GeneratePadding n)) ->
  wp (round_padding now n l) (fun r s' => steps s s' /\ is_probe r.2.(pacing_info) = is_probe l.(pacing_info)) s.
Proof.
  intros Hs HV. unfold round_padding. set (late := _ >? _). clearbody late. set (l1 := if late then _ else _).
  assert (El : pacing_info l1 = pacing_info l) by (unfold l1; by destruct late). clearbody l1. apply wp_bind.
  eapply (wp_kept _ _ s); [|done|].
  { apply pacer_when. intros _. by apply pacer_put. }
  intros [] s1 Hs1. pose proof (st_ok K V s s1 Hs1) as Hok1. apply wp_bind, wp_get.
  destruct (Z.gtb_spec (PaddingToAdd n l1.(data_sent) s1) 0) as [Hn|Hn]; cbn [negb]; [|apply wp_ret; cbn; by rewrite El].
  assert (Hc : congested_ s1 = false).
  { destruct (congested_ s1) eqn:E; [|done]. rewrite PaddingToAdd_congested in Hn by done. lia. }
  apply wp_bind. eapply wp_mono; [apply padding_wp; [done|]|].
  { apply HV. by rewrite <- (steps_congested _ _ Hs1). }
  intros ps s2 [Hps Hs2]. assert (H2 : steps s s2) by by eapply step_trans. destruct ps as [|p ps].
  - apply wp_bind, wp_put, wp_ret. split; [|by cbn; rewrite El]. eapply step_trans; [exact H2|]. apply step_core; [by apply H2|done].
  - apply wp_bind. eapply pacer_wp; [by apply enqueue_all_kept|exact H2|]. intros [] s3 H3. apply wp_ret. split; [done|by cbn; rewrite El].
Qed.

Lemma round_packet_kept now n (probing : bool) p l s :
  ok s -> V (SendPacket p l.(pacing_info)) ->
  wp (round_packet now n probing p l) (fun r s' => steps s s' /\ is_probe r.2.(pacing_info) = is_probe l.(pacing_info)) s.
Proof.
  intros Hs HV. unfold round_packet. apply wp_bind, wp_get, wp_bind.
  eapply (wp_kept _ _ s); [by apply send_packet_kept|done|]. intros [] s1 Hs1.
  generalize (counted_size p s). intros size. set (l1 := _ <| packets_sent ::= _ |>).
  assert (El1 : is_probe l1.(pacing_info) = is_probe l.(pacing_info)) by done. clearbody l1. apply wp_bind.
  eapply pacer_wp; [apply OnPacketSent_kept|exact Hs1|]. intros [] s2 Hs2.
  set (l2 := if probing then _ else _).
  assert (El2 : is_probe l2.(pacing_info) = is_probe l.(pacing_info)) by (unfold l2; by destruct probing). clearbody l2.
  destruct (_ && _); [by apply wp_ret|]. apply wp_bind. eapply pacer_wp; [apply NextSendTime_kept|exact Hs2|].
  intros t s3 Hs3. destruct (_ && _); [by apply wp_ret|]. apply wp_bind. eapply pacer_wp; [apply elapse_kept|exact Hs3|].
  intros [] s4 Hs4. by apply wp_ret.
Qed.

Lemma send_loop_kept n now size probing l s :
  ok s -> allows s.(congested_) (is_probe l.(pacing_info)) ->
  wp (send_loop n now size probing l) (fun _ s' => steps s s') s.
Proof.
  revert l s. induction n as [|n IH]; intros l s Hs Ha; [by apply wp_ret, step_refl|]. cbn [send_loop]. apply wp_bind.
  apply (wp_mono _ (fun r s' => steps s s' /\ is_probe r.2.(pacing_info) = is_probe l.(pacing_info))).
  - unfold send_round. apply wp_bind. eapply wp_mono; [by apply GetPendingPacket_wp|]. intros [p|] s1 [Hs1 Hp].
    + destruct (Hp p eq_refl) as [HK Hu]. eapply wp_mono; [apply round_packet_kept; [apply Hs1|]|].
      * by apply Ha.
      * intros r s2 [Hs2 E]. split; [by eapply step_trans|done].
    + eapply wp_mono; [apply round_padding_kept; [apply Hs1|]|].
      * rewrite (steps_congested _ _ Hs1). intros Ec. apply Ha. by right.
      * intros r s2 [Hs2 E]. split; [by eapply step_trans|done].
  - intros [more l1] s1 [Hs1 E]. cbn in E. destruct more; [|by apply wp_ret].
    eapply wp_mono; [apply IH; [apply Hs1|]|].
    + by rewrite E, (steps_congested _ _ Hs1).
    + intros r s2 Hs2. by eapply step_trans.
Qed.

Lemma probe_info_wp now s : ok s ->
  wp (probe_info now) (fun '(probing, info, _) s' => steps s s' /\ is_probe info = probing
    /\ (s.(prober_).(clusters_) = [] -> probing = false)) s.
Proof.
  intros Hs. unfold probe_info. apply wp_bind, wp_get. destruct (is_probing _); [|apply wp_ret; split; [by apply step_refl|done]].
  cbn [negb]. apply wp_bind, wp_get. unfold id. pose proof (Current_ok now (prober_ s) (pi_prober K s Hs)) as Hp.
  pose proof (Current_none now (prober_ s)) as Hn.
  assert (Hi : clusters_ (prober_ s) = [] -> (CurrentCluster now (prober_ s)).1 = None) by (unfold CurrentCluster; by intros ->).
  destruct (CurrentCluster now (prober_ s)) as [info p]. cbn in Hp, Hn, Hi. apply wp_bind, wp_put.
  assert (H1 : steps s (s <| prober_ := p |>)) by by apply step_prober.
  destruct (is_probe _) eqn:E; apply wp_ret; (split; [done|]); (split; [done|]); [|done].
  intros Hc. by rewrite (Hi Hc) in E.
Qed.

Lemma finish_probe_kept (probing : bool) l : kept (finish_probe probing l).
Proof.
  unfold finish_probe. destruct probing; [|apply pacer_ret]. cbn [negb]. set (f := _ =? 0). clearbody f.
  apply pacer_bind; [by apply pacer_put|intros []]. destruct f; [apply pacer_ret|].
  apply pacer_bind; [apply CurrentTime_kept|]. intros now s Hs. apply wp_bind, wp_get.
  destruct (Sent_ok now l.(data_sent) l.(packets_sent) _ (pi_prober K s Hs)) as (p & E & Hp). apply wp_bind.
  eapply wp_need; [exact E|]. apply wp_put, step_prober; [done..|]. by eapply Sent_none.
Qed.

Lemma send_due_kept now target s :
  ok s -> (forall b, (s.(prober_).(clusters_) = [] -> b = false) -> allows s.(congested_) b) ->
  wp (send_due now target) (fun _ s' => steps s s') s.
Proof.
  intros Hs Ha. unfold send_due. apply wp_bind. eapply (wp_kept _ _ s); [|done|].
  { intros s0 Hs0. unfold UpdateTimeAndGetElapsed, wp. destruct (_ || _); eexists _, _; (split; [done|]); by apply step_core. }
  intros t s1 Hs1. apply wp_bind. eapply pacer_wp; [|exact Hs1|].
  { apply pacer_when. intros _. by apply pacer_put. }
  intros [] s2 Hs2. apply wp_bind. eapply wp_mono; [apply probe_info_wp, Hs2|].
  intros [[probing info] size] s3 (Hs3 & Ei & Hn). pose proof (step_trans K V _ _ _ Hs2 Hs3) as H3. apply wp_bind, wp_get, wp_bind.
  eapply wp_mono; [apply send_loop_kept; [apply Hs3|]|].
  { rewrite (steps_congested _ _ H3). cbn. apply Ha. intros Hc. rewrite Ei. by apply Hn, Hs2. }
  intros [ended l] s4 Hs4. pose proof (step_trans K V _ _ _ H3 Hs4) as H4. destruct ended; cbn [negb].
  - apply wp_bind. eapply pacer_wp; [apply finish_probe_kept|exact H4|]. intros [] s5 H5. apply wp_bind.
    eapply pacer_wp; [apply CurrentTime_kept|exact H5|]. intros now' s6 H6. by eapply pacer_wp; [apply media_rate_kept|exact H6|].
  - apply wp_put. eapply step_trans; [exact H4|]. apply step_core; [apply Hs4|done].
Qed.

Lemma steps_paused s s' : steps s s' -> s'.(is_paused_) = s.(is_paused_).
Proof. intros [_ [=] _ _]. congruence. Qed.

(** What [CurrentTime] will return. *)
Definition time_of (s : PacingController) : Z := Z.max (default s.(last_timestamp_) (head s.(clock_))) s.(last_timestamp_).

Lemma ShouldSendKeepalive_spec now s : ShouldSendKeepalive now s = (td_sub now s.(last_send_time_) >=? kCongestedPacketInterval).
Proof. done. Qed.

(** One call of [ProcessPackets], if what it may send is allowed. *)
Lemma process_wp s : ok s ->
  (ShouldSendKeepalive (time_of s) s = true -> V (GeneratePadding 1)
     /\ forall p, K p -> p ∈ default [] (head s.(padding_)) -> V (SendPacket p no_probe)) ->
  (s.(is_paused_) = false -> forall b, (s.(prober_).(clusters_) = [] -> b = false) -> allows s.(congested_) b) ->
  wp process (fun _ s' => steps s s') s.
Proof.
  intros Hs Hk Ha. unfold process. apply wp_bind.
  apply (wp_mono _ (fun t s' => t = time_of s /\ steps s s' /\ s'.(padding_) = s.(padding_) /\ s'.(last_send_time_) = s.(last_send_time_))).
  { unfold CurrentTime, time_of, wp. destruct (clock_ s) as [|t [|t' l]]; cbn; eexists _, _; (split; [done|]); (split; [done|]); (split; [by apply step_core|done]). }
  intros now s1 (-> & Hs1 & Eg & El). set (now := time_of s) in *. clearbody now. apply wp_bind, wp_get. unfold id.
  pose proof (RemoveExpired_ok now _ (pi_prober K s1 (st_ok K V s s1 Hs1))) as Hp. pose proof (RemoveExpired_none now (prober_ s1)) as Hn.
  destruct (RemoveExpiredClusters now (prober_ s1)) as [removed p]. cbn in Hp, Hn. apply wp_bind, wp_put.
  assert (Hs2 : steps s (s1 <| prober_ := p |>)) by by eapply step_trans, step_prober; [|apply Hs1|..].
  rewrite ShouldSendKeepalive_spec in Hk. change (padding_ s1) with (padding_ (s1 <| prober_ := p |>)) in Eg.
  change (last_send_time_ s1) with (last_send_time_ (s1 <| prober_ := p |>)) in El. revert Hs2 Eg El.
  generalize (s1 <| prober_ := p |>). clear s1 Hs1 Hp Hn p. intros s2 Hs2 Eg El. apply wp_bind.
  apply (wp_mono _ (fun _ s' => steps s s' /\ s'.(padding_) = s.(padding_) /\ s'.(last_send_time_) = s.(last_send_time_))).
  { apply wp_when; [|done]. intros _. apply wp_put. split; [|done]. eapply step_trans; [exact Hs2|]. apply step_core; [apply Hs2|done]. }
  clear s2 Hs2 Eg El. intros [] s3 (Hs3 & Eg & El). apply wp_bind, wp_get, wp_bind. rewrite ShouldSendKeepalive_spec, El.
  apply (wp_mono _ (fun _ s' => steps s s')).
  { apply wp_when; [|done]. intros Hd. destruct (Hk Hd) as [HV HVp]. eapply wp_mono; [apply send_keepalive_wp; [apply Hs3|done|]|].
    - intros p. rewrite Eg. apply HVp.
    - intros [] s4 Hs4. by eapply step_trans. }
  clear s3 Hs3 Eg El. intros [] s4 Hs4. apply wp_bind, wp_get. rewrite (steps_paused _ _ Hs4).
  destruct (is_paused_ s) eqn:Ep; [by apply wp_ret|]. apply wp_bind, wp_get, wp_bind.
  eapply pacer_wp; [apply NextSendTime_kept|exact Hs4|]. intros t s5 Hs5. destruct (_ <? _).
  - by eapply pacer_wp; [apply elapse_kept|exact Hs5|].
  - eapply wp_mono; [apply send_due_kept; [apply Hs5|]|].
    + rewrite (steps_congested _ _ Hs5). intros b Hb. apply Ha; [done|]. intros Hc. by apply Hb, Hs5.
    + intros [] s6 Hs6. by eapply step_trans.
Qed.

Lemma ProcessPackets_wp s : ok s -> V OnBatchComplete ->
  (ShouldSendKeepalive (time_of s) s = true -> V (GeneratePadding 1)
     /\ forall p, K p -> p ∈ default [] (head s.(padding_)) -> V (SendPacket p no_probe)) ->
  (s.(is_paused_) = false -> forall b, (s.(prober_).(clusters_) = [] -> b = false) -> allows s.(congested_) b) ->
  wp ProcessPackets (fun _ s' => steps s s') s.
Proof.
  intros Hs HV Hk Ha. unfold ProcessPackets. apply wp_bind. eapply wp_mono; [by apply process_wp|]. intros [] s1 Hs1.
  by eapply pacer_wp; [apply output_kept|exact Hs1|].
Qed.
End operations.

(** ** Calls *)

(** The clusters to probe with have a rate, and the pacing rate is one. *)
Definition admissible (c : PacerCall) : Prop :=
  match c with
  | CallCreateProbeClusters l => Forall has_rate l
  | CallSetPacingRates r _ => 0 < r
  | _ => True
  end.

Notation any := (fun _ => True).
Notation sound := (pacer_ok any).

Lemma wp_keeps {A} (m : P A) (Q : A -> PacingController -> Prop) s :
  keeps any any m -> sound s -> (forall a s', sound s' -> Q a s') -> wp m Q s.
Proof. intros Hm Hs HQ. eapply wp_mono; [by apply Hm|]. intros a s' Hs'. apply HQ, Hs'. Qed.
(** Changes of what the invariant does not look at. *)
Lemma sound_same s s' : sound s -> s'.(packet_queue_) = s.(packet_queue_) -> s'.(prober_) = s.(prober_) ->
  s'.(config_) = s.(config_) -> s'.(pacing_rate_) = s.(pacing_rate_) -> s'.(adjusted_media_rate_) = s.(adjusted_media_rate_) ->
  s'.(fec_) = s.(fec_) -> s'.(padding_) = s.(padding_) -> sound s'.
Proof. intros [] Eq Ep Ec Er Ea Ef Eg. split; rewrite ?Eq, ?Ep, ?Ec, ?Er, ?Ea, ?Ef, ?Eg; done. Qed.
Lemma put_sound f s : sound s -> (forall s, sound s -> sound (f s)) -> wp (put f) (fun _ s' => sound s') s.
Proof. intros Hs Hf. apply wp_put. by apply Hf. Qed.

Lemma all_any {A} (l : list (list A)) : Forall (Forall any) l.
Proof. apply Forall_forall. intros x _. by apply Forall_forall. Qed.
Lemma allows_any c b : allows any any c b.
Proof. by split. Qed.

Lemma clusters_sound l s : Forall has_rate l -> sound s -> wp (for_each (fun c => on_prober (CreateProbeCluster c)) l) (fun _ s' => sound s') s.
Proof.
  intros Hl. revert s. induction Hl as [|c l Hc Hl IH]; intros s Hs; [by apply wp_ret|]. cbn [for_each]. apply wp_bind, wp_put, IH.
  destruct Hs as [Hq Hp Hr Hf Hg]. split; auto. by apply Create_ok.
Qed.

(** The rates can be set first: whatever the media rate was. *)
Lemma SetPacingRates_sound r p s : 0 < r -> queue_ok s.(config_).(prioritize_audio_retransmission) any s.(packet_queue_) ->
  prober_ok s.(prober_) -> wp (SetPacingRates r p) (fun _ s' => sound s') s.
Proof.
  intros Hr Hq Hp. unfold SetPacingRates. apply wp_bind, wp_put. set (s1 := _ <| padding_rate_ := _ |>).
  set (s2 := s1 <| adjusted_media_rate_ := r |>). assert (H2 : sound s2).
  { split; [done|done|cbn; lia|apply all_any..]. }
  apply wp_bind. unfold CurrentTime, wp at 1.
  destruct (pacer_wp any any CurrentTime (fun now s' => wp (MaybeUpdateMediaRateDueToLongQueue now) (fun _ s' => sound s') s') s2 s2)
    as (now & s3 & E & Hw); [apply CurrentTime_kept|by apply step_refl| |].
  { intros now s3 Hs3. apply wp_keeps; [apply media_rate_kept|apply Hs3|done]. }
  unfold CurrentTime in E. subst s2. cbn -[read] in E. cbn -[read]. destruct (read _ _) as [t l]; injection E as <- <-; eexists _, _; (split; [done|]); exact Hw.
Qed.

Lemma call_sound c s : sound s -> admissible c -> wp (call c) (fun _ s' => sound s') s.
Proof.
  intros Hs Hc. destruct c; cbn [call]; cbn in Hc.
  - apply (wp_mono _ (fun _ s' => step any any s s')); [|by intros [] s' [Hs' _ _ _]].
    apply ProcessPackets_wp; [done..|]. intros _ b _. apply allows_any.
  - by apply wp_keeps; [apply EnqueuePacket_kept|..].
  - apply wp_bind, wp_keeps; [apply NextSendTime_kept|done|]. intros t s' Hs'. by apply wp_ret.
  - apply wp_bind. unfold ExpectedQueueTime, QueueSizeData. apply wp_bind, wp_get, wp_bind, wp_get.
    destruct (time_for_size_some (let size := SizeInPayloadBytes (packet_queue_ s) in
      if include_overhead_ s then td_add size (td_mul (transport_overhead_per_packet_ s) (SizeInPackets (packet_queue_ s))) else size)
      (adjusted_media_rate_ s)) as [t E]; [destruct Hs; lia|].
    eapply wp_need; [exact E|]. by apply wp_ret.
  - unfold CreateProbeClusters. apply wp_bind. eapply wp_mono; [by apply clusters_sound|]. intros [] s' Hs'.
    apply wp_keeps; [apply pacer_when; intros _; by apply pacer_put|done..].
  - unfold Pause. apply wp_bind, wp_put, wp_bind, wp_keeps; [apply CurrentTime_kept|by apply (sound_same s)|].
    intros now s' Hs'. apply wp_keeps; [apply on_queue_kept; intros b q Hq; eexists; by split; [|apply queue_Pause]|done..].
  - unfold Resume. apply wp_bind, wp_keeps; [apply CurrentTime_kept|done|]. intros now s' Hs'. apply wp_bind, wp_put, wp_bind, wp_put.
    apply wp_keeps; [apply on_queue_kept; intros b q Hq; eexists; by split; [|apply queue_Pause]| |done].
    destruct (is_paused_ s'); by apply (sound_same s').
  - unfold SetCongested. apply wp_bind, wp_get, wp_bind, wp_keeps.
    { apply pacer_when. intros _. apply pacer_bind; [apply CurrentTime_kept|intros now; apply elapse_kept]. }
    { done. }
    intros [] s' Hs'. apply wp_bind, wp_put, wp_keeps; [apply pacer_when; intros _; by apply pacer_put|by apply (sound_same s')|done].
  - apply wp_keeps; [apply on_queue_kept; intros b' q Hq; by apply queue_Remove|done..].
  - apply wp_put. destruct Hs. split; auto. by apply Enabled_ok.
  - unfold Pacer_AbortProbing. apply wp_bind, wp_put, wp_put. destruct Hs. split; auto. by apply Abort_ok.
  - by apply SetPacingRates_sound; [|apply Hs..].
  - apply wp_put. by apply (sound_same s).
  - apply wp_put. by apply (sound_same s).
  - apply wp_put. by apply (sound_same s).
  - apply wp_put. by apply (sound_same s).
  - unfold Pacer_SetAllowProbeWithoutMediaPacket. apply wp_bind, wp_put, wp_bind, wp_get.
    apply wp_keeps; [apply pacer_when; intros _; by apply pacer_put| |done]. destruct Hs. split; auto. by apply Allow_ok.
  - apply wp_put. by apply (sound_same s).
  - apply wp_put. by apply (sound_same s).
Qed.

Lemma calls_sound xs s : sound s -> Forall (fun x => admissible x.2) xs -> wp (calls xs) (fun _ s' => sound s') s.
Proof.
  intros Hs Hx. revert s Hs. induction Hx as [|[e c] xs Hc Hx IH]; intros s Hs; [by apply wp_ret|]. cbn [calls]. apply wp_bind, wp_put, wp_bind.
  eapply wp_mono; [apply call_sound; [|done]|]; [|intros [] s' Hs'; by apply IH].
  destruct Hs. split; auto; apply all_any.
Qed.

(** The states that calls lead to, the rates being set first. *)
Definition reached (s : PacingController) : Prop :=
  exists cfg t t2 e r p xs, 0 < r /\ Forall (fun x => admissible x.2) xs
    /\ calls ((e, CallSetPacingRates r p) :: xs) (PacingController_new cfg t t2) = Some ((), s).

Lemma first_calls_sound cfg t t2 e r p xs : 0 < r -> Forall (fun x => admissible x.2) xs ->
  wp (calls ((e, CallSetPacingRates r p) :: xs)) (fun _ s' => sound s') (PacingController_new cfg t t2).
Proof.
  intros Hr Hx. cbn [calls call]. apply wp_bind, wp_put, wp_bind. eapply wp_mono; [apply SetPacingRates_sound; [done| |]|].
  - apply queue_new.
  - apply prober_new_ok.
  - intros [] s Hs. by apply calls_sound.
Qed.
Lemma reached_sound s e : reached s -> sound (supplied e s).
Proof.
  intros (cfg & t & t2 & e0 & r & p & xs & Hr & Hx & E). destruct (first_calls_sound cfg t t2 e0 r p xs Hr Hx) as ([] & s' & E' & Hs).
  rewrite E in E'. injection E' as ->. destruct Hs. split; auto; apply all_any.
Qed.

(** C29: once a pacing rate is set, and as long as every pacing rate set later and every rate to probe is positive, whatever is called, in any
    order, with any readings of the clock and any packets from the packet sender, the pacer never divides by zero and never uses a dangling
    pointer. (A pacing rate of zero divides by zero in [ExpectedQueueTime].) *)
Theorem pacer_never_faults cfg t t2 e r p xs : 0 < r -> Forall (fun x => admissible x.2) xs ->
  exists s, calls ((e, CallSetPacingRates r p) :: xs) (PacingController_new cfg t t2) = Some ((), s).
Proof. intros Hr Hx. destruct (first_calls_sound cfg t t2 e r p xs Hr Hx) as ([] & s & E & _). by exists s. Qed.

(** What may leave while packets are held back: packets that are not paced, unless paused, and, when nothing was sent for 500 ms, one
    byte of padding. *)
Definition keepalive_due (s : PacingController) : bool := ShouldSendKeepalive (time_of s) s.
Definition held (s : PacingController) (o : PacerOut) : Prop :=
  match o with
  | SendPacket p info => is_probe info = false
      /\ ((s.(is_paused_) = false /\ unpaced p = true) \/ (keepalive_due s = true /\ p ∈ default [] (head s.(padding_))))
  | GeneratePadding n => n = 1 /\ keepalive_due s = true
  | OnBatchComplete => True
  end.

(** While the pacer is paused, or congested with nothing to probe, [ProcessPackets] hands over no paced packet: only audio and
    retransmissions, when it is not paused, and the keep-alive padding that is due after 500 ms of silence. *)
Theorem held_back s e : reached s -> s.(prober_).(clusters_) = [] -> s.(is_paused_) = true \/ s.(congested_) = true ->
  exists s' os, ProcessPackets (supplied e s) = Some ((), s') /\ s'.(out_) = s.(out_) ++ os /\ Forall (held (supplied e s)) os.
Proof.
  intros Hs%(reached_sound s e) Hc Hh. set (s1 := supplied e s) in *. assert (Hh1 : s1.(is_paused_) = true \/ s1.(congested_) = true) by exact Hh.
  assert (Hc1 : s1.(prober_).(clusters_) = []) by exact Hc. change (out_ s) with (out_ s1). clearbody s1. clear Hc Hh.
  destruct (ProcessPackets_wp any (held s1) s1 Hs) as ([] & s2 & E & Hs2); [done| | |].
  - intros Hd. split; [done|]. intros p _ Hp. split; [done|]. by right.
  - intros Ep b Hb. destruct Hh1 as [?|Hg]; [congruence|]. rewrite (Hb Hc1), Hg. split; [by intros [?|?]|].
    intros p info _ Ei Hu. split; [done|]. left. auto.
  - destruct (st_out _ _ _ _ Hs2) as (os & Eo & Hos). by exists s2, os.
Qed.

(** Rates, probes, congestion and a pause; the keep-alive pads with packet 9. *)
Definition w_media (n : Z) (t : RtpPacketMediaType) : Packet := mkPacket n 1 t None 1000 0 12 false false.
Definition w_clock (t : Z) : PacerEnv := mkEnv [t] [] [[w_media 9 kPadding]].
Definition w_pacer_calls : list (PacerEnv * PacerCall) :=
  [(w_clock 1000000, CallCreateProbeClusters [mkClusterConfig 1000000 900000 15000 2000 5 1]);
   (w_clock 1000100, CallEnqueuePacket (w_media 1 kVideo)); (w_clock 1000200, CallProcessPackets); (w_clock 1000300, CallPauseSending);
   (w_clock 1600000, CallProcessPackets); (w_clock 1700000, CallResume); (w_clock 1700000, CallSetPacingRates 500000 400000);
   (w_clock 1800000, CallRemovePackets 1); (w_clock 9000000, CallProcessPackets)].
Lemma pacer_never_faults_witness : Forall (fun x => admissible x.2) w_pacer_calls /\ exists s,
  calls ((w_clock 1000000, CallSetPacingRates 300000 0) :: w_pacer_calls) (PacingController_new DefaultConfiguration 0 0) = Some ((), s).
Proof.
  assert (H : Forall (fun x => admissible x.2) w_pacer_calls) by by repeat constructor. split; [exact H|].
  by apply (pacer_never_faults DefaultConfiguration 0 0 (w_clock 1000000) 300000 0 w_pacer_calls).
Defined.

(** Congested, with a paced packet and an unpaced one. *)
Definition w_held_calls : list (PacerEnv * PacerCall) :=
  [(w_clock 1000000, CallSetPacingRates 300000 0); (w_clock 1000100, CallSetCongested true);
   (w_clock 1000200, CallEnqueuePacket (w_media 1 kVideo)); (w_clock 1000300, CallEnqueuePacket (w_media 2 kAudio))].
Definition w_held : PacingController :=
  match calls w_held_calls (PacingController_new DefaultConfiguration 1000000 1000000) with
  | Some (_, s) => s
  | None => PacingController_new DefaultConfiguration 0 0
  end.
Lemma w_held_reached : reached w_held.
Proof.
  exists DefaultConfiguration, 1000000, 1000000, (w_clock 1000000), 300000, 0, (tail w_held_calls).
  split; [done|]. split; [by repeat constructor|]. vm_compute. reflexivity.
Qed.
Lemma w_held_facts : w_held.(prober_).(clusters_) = [] /\ (w_held.(is_paused_) = true \/ w_held.(congested_) = true).
Proof. split; [vm_compute; reflexivity|right; vm_compute; reflexivity]. Qed.
Lemma held_back_witness : exists s' os, ProcessPackets (supplied (w_clock 1700000) w_held) = Some ((), s')
  /\ s'.(out_) = w_held.(out_) ++ os /\ Forall (held (supplied (w_clock 1700000) w_held)) os.
Proof. exact (held_back w_held (w_clock 1700000) w_held_reached (proj1 w_held_facts) (proj2 w_held_facts)). Defined.
(** It sends the keep-alive and the audio packet. *)
Example w_held_out : (fun x => x.2.(out_)) <$> ProcessPackets (supplied (w_clock 1700000) w_held)
  = Some [GeneratePadding 1; SendPacket (w_media 9 kPadding) no_probe; SendPacket (w_media 2 kAudio) no_probe; OnBatchComplete].
Proof. vm_compute. reflexivity. Qed.
