(* ===== verification/PacerRate.v ===== *)
(** * How fast the pacer sends ([minirtc/src/qos/pacing_controller.cc])

    The transport sets a pacing rate, a burst interval and a bounded queue ([minirtc/src/transport/data_transport.cpp]).
    While the rate stays, the bytes that leave are counted against the time that passed: what was sent and is not
    drained yet is the debt, the debt admits a paced packet only below the burst, and what an update of the
    budget drains is the rate times the time it accounts for, up to half a byte that rounding adds. *)
From S2P Require Export PacerProofs.
#[local] Open Scope Z_scope.

(** ** Definitions *)

(** The packets sent, and the bytes of the paced ones among them: audio is not paced, and the only padding without
    probes and a padding rate is that of the keep-alive; [s] has the settings. *)
Definition paced (p : Packet) : bool := match p.(pk_type) with kAudio | kPadding => false | _ => true end.
Definition sends (os : list PacerOut) : Z := zlen (List.filter (fun o => match o with SendPacket _ _ => true | _ => false end) os).
Definition cost (s : PacingController) (o : PacerOut) : Z :=
  match o with SendPacket p _ => if paced p then counted_size p s else 0 | _ => 0 end.
Definition charged (s : PacingController) (os : list PacerOut) : Z := foldr (fun o n => cost s o + n) 0 os.

Lemma charged_app s a b : charged s (a ++ b) = charged s a + charged s b.
Proof. induction a as [|o a IH]; cbn; [done|]. change (foldr _ 0 (a ++ b)) with (charged s (a ++ b)). rewrite IH. unfold charged. lia. Qed.
Lemma sends_app a b : sends (a ++ b) = sends a + sends b.
Proof. unfold sends. rewrite List.filter_app. unfold zlen. rewrite length_app. lia. Qed.
Lemma sends_nonneg a : 0 <= sends a.
Proof. unfold sends, zlen. lia. Qed.

(** *** Arithmetic of the budget, in units of 1/8000000 byte *)

Notation U := 8000000 (only parsing).

Lemma data_per_time_spec r t : 0 <= r <= 2 ^ 40 -> 0 <= t <= 2000000 ->
  0 <= data_per_time r t /\ r * t - 4000000 < U * data_per_time r t <= r * t + 4000000.
Proof.
  intros Hr Ht. unfold data_per_time. assert (0 <= r * t <= 2 ^ 40 * 2000000) by nia.
  rewrite (i64_small (r * t)) by lia. rewrite i64_small by lia. rewrite Z.quot_div_nonneg by lia.
  pose proof (Z.div_mod (r * t + 4000000) 8000000). pose proof (Z.mod_pos_bound (r * t + 4000000) 8000000).
  pose proof (Z.div_pos (r * t + 4000000) 8000000). lia.
Qed.

(** What [e] microseconds leave of a debt. *)
Definition drained (r d e : Z) : Z := td_sub d (Z.min d (data_per_time r e)).
Lemma drained_spec r d e : 0 <= r <= 2 ^ 40 -> 0 <= d <= 2 ^ 40 -> 0 <= e <= 2000000 ->
  0 <= drained r d e <= d /\ U * d <= U * drained r d e + r * e + 4000000
  /\ (drained r d e = 0 \/ U * drained r d e < U * d - r * e + 4000000).
Proof.
  intros Hr Hd He. pose proof (data_per_time_spec r e Hr He) as [H1 [H2 H3]]. unfold drained.
  rewrite td_sub_small by (unfold small_time; lia). lia.
Qed.
Lemma drained_zero r d : 0 <= d <= 2 ^ 40 -> drained r d 0 = d.
Proof.
  intros Hd. unfold drained, data_per_time. rewrite Z.mul_0_r. change (Z.quot (i64 (i64 0 + 4000000)) 8000000) with 0.
  rewrite td_sub_small by (unfold small_time; lia). lia.
Qed.

Section rate.
(** The state to start from, with the settings; a bound on the packets and on the time. *)
Context (z : PacingController) (M T : Z).
Notation r := z.(pacing_rate_).
Notation B := z.(send_burst_interval_).

(** The packets to send: no retransmissions, none of more than [M] bytes. *)
Definition fits (p : Packet) : Prop := p.(pk_type) <> kRetransmission /\ 0 <= counted_size p z <= M.
(** What the transport generates to pad with: some packets of at most 255 bytes of padding. *)
Definition filler (p : Packet) : Prop := p.(pk_type) = kPadding /\ 0 <= p.(payload_size) + p.(padding_size) <= 255 /\ fits p.
Definition filling (l : list Packet) : Prop := zlen l <= 16 /\ Forall filler l.

(** The settings of the transport, with rates, sizes and times far from overflow, and room in the debt for the burst and a packet. *)
Record fixed_rate : Prop := {
  fr_drain : z.(config_).(drain_large_queues) = false;
  fr_running : z.(is_paused_) = false /\ z.(congested_) = false;
  fr_audio : z.(account_for_audio_) = false;
  fr_padding : z.(padding_rate_) = 0;
  fr_rate : 0 < r <= 2 ^ 40;
  fr_burst : 0 < B;
  fr_room : r * B + 4000000 + U * M <= r * 500000;
  fr_size : 0 <= M;
  fr_time : T <= 2 ^ 50;
}.

Record flow (s : PacingController) : Prop := {
  fl_ok : pacer_ok fits s;
  fl_settings : settings s = settings z;
  fl_rate : s.(adjusted_media_rate_) = r;
  fl_fec : s.(fec_) = [];
  fl_pad : Forall filling s.(padding_);
  fl_clusters : s.(prober_).(clusters_) = [];
  fl_debt : 0 <= s.(media_debt_) <= data_per_time r kMaxDebtInTime;
  fl_last : 0 <= s.(last_process_time_) <= s.(last_timestamp_) /\ 0 <= s.(last_send_time_) <= s.(last_timestamp_);
  fl_clock : s.(last_timestamp_) <= T /\ Forall (fun t => t <= T) s.(clock_);
}.

(** What the clock will read is not before [lo]. *)
Definition fresh (lo : Z) (s : PacingController) : Prop := Forall (fun t => lo <= t) s.(clock_) /\ (s.(clock_) = [] -> lo <= s.(last_timestamp_)).
(** The clock keeps its pace. *)
Definition clock_kept (s s' : PacingController) : Prop :=
  (forall lo, fresh lo s -> fresh lo s') /\ (Sorted Z.le s.(clock_) -> Sorted Z.le s'.(clock_)).
Definition waits (s : PacingController) : Z := SizeInPackets s.(packet_queue_).

(** The most that a paced packet can owe when it has left. *)
Definition cap : Z := r * B + 4000000 + U * M.
(** The bytes sent [os] are paid by debt or by time, with [n] updates of the budget; and when the last paced one left, no more than [cap] was owed. *)
Definition accounted (n : Z) (os : list PacerOut) (s s' : PacingController) : Prop :=
  let gained := r * (s'.(last_process_time_) - s.(last_process_time_)) + 4000000 * (n + sends os) in
  0 <= n + sends os /\ s.(last_process_time_) <= s'.(last_process_time_)
  /\ U * (charged z os + s.(media_debt_)) <= U * s'.(media_debt_) + gained
  /\ (charged z os = 0 \/ U * (charged z os + s.(media_debt_)) <= cap + gained).

(** From [s] to [s'] the bytes sent are accounted for, and what was sent has left the queue, where [k] packets were put. *)
Record paid (k n : Z) (s s' : PacingController) : Prop := {
  pd_flow : flow s';
  pd_out : exists os, s'.(out_) = s.(out_) ++ os /\ accounted n os s s';
  pd_waits : waits s' <= waits s + k;
  pd_time : s.(last_process_time_) <= s'.(last_process_time_) /\ s.(last_timestamp_) <= s'.(last_timestamp_);
  pd_clock : clock_kept s s';
}.

Lemma accounted_trans n m o1 o2 s1 s2 s3 : 0 <= r -> accounted n o1 s1 s2 -> accounted m o2 s2 s3 -> accounted (n + m) (o1 ++ o2) s1 s3.
Proof.
  intros Hr (N1 & L1 & A1 & C1) (N2 & L2 & A2 & C2). unfold accounted. rewrite charged_app, sends_app. split; [lia|]. split; [lia|]. split; [lia|].
  destruct C2 as [C2|C2]; [destruct C1 as [C1|C1]; [left; lia|right; rewrite C2; nia]|right; lia].
Qed.
Lemma accounted_more n m os s s' : n <= m -> accounted n os s s' -> accounted m os s s'.
Proof. intros Hn (N & L & A & C). unfold accounted. split; [lia|]. split; [done|]. split; [lia|]. destruct C; [by left|right; lia]. Qed.

Lemma flow_positive s : flow s -> 0 < r.
Proof. intros F. pose proof (pi_rate _ s (fl_ok s F)). pose proof (fl_settings s F) as E. unfold settings in E. injection E. lia. Qed.
Lemma paid_trans k l n m s1 s2 s3 : paid k n s1 s2 -> paid l m s2 s3 -> paid (k + l) (n + m) s1 s3.
Proof.
  intros [_ (o1 & E1 & H1) Q1 T1 C1] [F (o2 & E2 & H2) Q2 T2 C2]. split; [done| |lia|lia|unfold clock_kept in *; naive_solver]. exists (o1 ++ o2).
  rewrite E2, E1, <- app_assoc. split; [done|]. eapply accounted_trans; [|done|done]. apply flow_positive in F. lia.
Qed.
Lemma paid_more k l n m s s' : paid k n s s' -> k <= l -> n <= m -> paid l m s s'.
Proof. intros [F (os & E & H) Hw Ht] Hk Hn. split; [done| |lia|done..]. exists os. split; [done|]. by eapply accounted_more. Qed.

(** Nothing is sent. *)
Lemma accounted_silent n os s s' : charged z os = 0 -> sends os = 0 -> 0 <= n ->
  U * s.(media_debt_) <= U * s'.(media_debt_) + r * (s'.(last_process_time_) - s.(last_process_time_)) + 4000000 * n ->
  s.(last_process_time_) <= s'.(last_process_time_) -> accounted n os s s'.
Proof. intros Hc Hs Hn Hd Hl. unfold accounted. rewrite Hc, Hs. split; [lia|]. split; [done|]. split; [lia|]. by left. Qed.
Lemma paid_silent n s s' : flow s' -> 0 <= n -> s'.(out_) = s.(out_) -> s'.(packet_queue_) = s.(packet_queue_) -> clock_kept s s' ->
  U * s.(media_debt_) <= U * s'.(media_debt_) + r * (s'.(last_process_time_) - s.(last_process_time_)) + 4000000 * n ->
  s.(last_process_time_) <= s'.(last_process_time_) -> s.(last_timestamp_) <= s'.(last_timestamp_) -> paid 0 n s s'.
Proof.
  intros Hf Hn Eo Eq Hc Hd Hl Ht. split; [done| | |done|done].
  - exists []. rewrite app_nil_r. split; [done|]. by apply accounted_silent.
  - unfold waits. rewrite Eq. lia.
Qed.
Lemma fresh_same s s' : s'.(clock_) = s.(clock_) -> s'.(last_timestamp_) = s.(last_timestamp_) -> clock_kept s s'.
Proof. intros Ec Et. unfold clock_kept, fresh. by rewrite Ec, Et. Qed.
Lemma paid_refl s : flow s -> paid 0 0 s s.
Proof. intros H. apply paid_silent; [done|done|done|done|by apply fresh_same|lia|lia|lia]. Qed.

(** The books of the debt and of time. *)
Definition books_ok (s : PacingController) : Prop :=
  0 <= s.(media_debt_) <= data_per_time r kMaxDebtInTime
  /\ (0 <= s.(last_process_time_) <= s.(last_timestamp_) /\ 0 <= s.(last_send_time_) <= s.(last_timestamp_))
  /\ (s.(last_timestamp_) <= T /\ Forall (fun t => t <= T) s.(clock_)).
Lemma flow_books s : flow s -> books_ok s.
Proof. intros []. by split. Qed.

Lemma flow_step s s' : flow s -> step fits (fun _ => True) s s' -> s'.(adjusted_media_rate_) = s.(adjusted_media_rate_) ->
  s'.(fec_) = s.(fec_) -> s'.(padding_) = s.(padding_) -> books_ok s' -> flow s'.
Proof.
  intros [Hok Hs Hr Hf Hp Hc _ _ _] [Hok' Hs' _ Hc'] Er Ef Eg (H1 & H2 & H3). split; try done; try congruence. by apply Hc'.
Qed.
(** Only the books and what no operation here looks at change. *)
Lemma flow_same s s' : flow s -> core s' = core s -> books_ok s' -> flow s'.
Proof.
  intros F Ec Hb. apply (flow_step s); try done; [apply step_core; [apply F|done]|..]; by injection Ec.
Qed.

Context (R : fixed_rate).

Lemma flow_setting s : flow s -> s.(is_paused_) = false /\ s.(congested_) = false /\ s.(config_).(drain_large_queues) = false
  /\ s.(account_for_audio_) = false /\ s.(padding_rate_) = 0 /\ s.(pacing_rate_) = r /\ s.(send_burst_interval_) = B
  /\ forall p, counted_size p s = counted_size p z.
Proof.
  intros F. pose proof (fl_settings s F) as E. unfold settings in E. injection E as E1 E2 E3 E4 E5 E6 E7 E8 E9 E10 E11.
  destruct R as [? [??] ? ? ? ? ? ? ?]. split_and!; try congruence. intros p. unfold counted_size. by rewrite E8, E2.
Qed.

Lemma room : 0 <= cap /\ cap <= U * data_per_time r kMaxDebtInTime + 4000000 /\ U * data_per_time r kMaxDebtInTime <= r * 500000 + 4000000 /\ 9 <= r.
Proof.
  change kMaxDebtInTime with 500000. unfold cap. destruct R. destruct (data_per_time_spec r 500000) as (H1 & H2 & H3); [lia|lia|]. nia.
Qed.
Lemma flow_debt s : flow s -> 0 <= s.(media_debt_) <= 2 ^ 40 /\ 0 <= r <= 2 ^ 40 /\ U * s.(media_debt_) <= r * 1000000.
Proof. intros F. pose proof (fl_debt s F). pose proof room. destruct R. nia. Qed.
Lemma flow_times s : flow s -> small_time s.(last_process_time_) /\ small_time s.(last_send_time_) /\ small_time s.(last_timestamp_).
Proof. intros F. pose proof (fl_last s F). pose proof (fl_clock s F). destruct R. unfold small_time. lia. Qed.

Lemma not_probing s : flow s -> is_probing s.(prober_) = false.
Proof.
  intros F. unfold is_probing. case_bool_decide as E; [|done]. exfalso.
  apply (ok_active _ (pi_prober fits s (fl_ok s F)) E), (fl_clusters s F).
Qed.

(** *** The clock and the budget *)

Lemma CurrentTime_paid s : flow s -> exists s', CurrentTime s = Some (s'.(last_timestamp_), s') /\ paid 0 0 s s'
  /\ core s' = core s /\ s'.(media_debt_) = s.(media_debt_) /\ s'.(last_process_time_) = s.(last_process_time_)
  /\ s'.(last_send_time_) = s.(last_send_time_) /\ s'.(seen_first_packet_) = s.(seen_first_packet_)
  /\ forall lo, fresh lo s -> lo <= s'.(last_timestamp_).
Proof.
  intros F. pose proof (fl_last s F) as Hl. pose proof (fl_clock s F) as [Ht Hc]. pose proof (fl_debt s F) as Hd.
  unfold CurrentTime. assert (Hx : forall t l, read s.(last_timestamp_) s.(clock_) = (t, l) -> t <= T /\ Forall (fun t => t <= T) l
    /\ (forall lo, fresh lo s -> lo <= t /\ Forall (fun t => lo <= t) l) /\ (Sorted Z.le s.(clock_) -> Sorted Z.le l)).
  { unfold read, fresh. destruct (clock_ s) as [|t1 [|t2 l]]; intros t l'; intros [= <- <-].
    - split; [done|]. split; [done|]. split; [|done]. intros lo [_ Hf]. by split; [apply Hf|].
    - apply Forall_cons in Hc as Hc'. split; [by apply Hc'|]. split; [done|]. split; [|done]. intros lo [Hf _]. split; [|done]. by apply Forall_cons in Hf as [? _].
    - apply Forall_cons in Hc as [Hc1 Hc2]. split; [done|]. split; [done|]. split; [|by intros [? _]%Sorted_inv].
      intros lo [Hf _]. by apply Forall_cons in Hf. }
  destruct (read _ _) as [t l]. destruct (Hx t l eq_refl) as (Hx1 & Hx2 & Hx3 & Hx4). clear Hx.
  exists (s <| clock_ := l |> <| last_timestamp_ := Z.max t s.(last_timestamp_) |>). split; [done|].
  split; [|do 5 (split; [done|]); intros lo [? _]%Hx3; cbn; lia].
  apply paid_silent; [|lia|done|done| |cbn; lia..].
  - apply (flow_same s); [done|done|]. split; [exact Hd|]. split; [cbn; lia|]. split; [cbn; lia|done].
  - split; [|done]. intros lo Hf. destruct (Hx3 lo Hf) as [H1 H2]. split; [done|]. cbn. lia.
Qed.

(** What an update of the budget at a time [t] that has come leaves: [elapsed t s] is what it counts. *)
Definition elapsed (t : Z) (s : PacingController) : Z := Z.min (Z.max 0 (t - s.(last_process_time_))) 2000000.
Record updated (t : Z) (s s' : PacingController) : Prop := {
  up_core : core s' = core s;
  up_last : s'.(last_process_time_) = Z.max s.(last_process_time_) t;
  up_debt : s'.(media_debt_) = drained r s.(media_debt_) (elapsed t s);
  up_same : s'.(last_send_time_) = s.(last_send_time_) /\ s'.(last_timestamp_) = s.(last_timestamp_) /\ s'.(clock_) = s.(clock_);
}.

Lemma updated_paid t s s' : flow s -> t <= s.(last_timestamp_) -> updated t s s' -> paid 0 1 s s'.
Proof.
  intros F Ht [Ec El Ed (Es & Ets & Ek)]. destruct (flow_debt s F) as (D1 & D2 & _). pose proof (flow_books s F) as (Hd & Hl & Hc).
  destruct (drained_spec r (media_debt_ s) (elapsed t s)) as (B1 & B2 & _); [done..|unfold elapsed; lia|].
  apply paid_silent; [|lia|by injection Ec|by injection Ec|by apply fresh_same|rewrite ?Ed, ?El|rewrite ?El|rewrite ?Ets]; try lia.
  - apply (flow_same s); [done|done|]. unfold books_ok. rewrite Ed, Es, El, Ets, Ek. split; [lia|]. by split; [lia|].
  - unfold elapsed in *. nia.
Qed.

Lemma UpdateTime_flow t s : flow s -> t <= s.(last_timestamp_) -> exists s', UpdateTimeAndGetElapsed t s = Some (elapsed t s, s')
  /\ core s' = core s /\ s'.(last_process_time_) = Z.max s.(last_process_time_) t /\ s'.(media_debt_) = s.(media_debt_)
  /\ s'.(last_send_time_) = s.(last_send_time_) /\ s'.(last_timestamp_) = s.(last_timestamp_) /\ s'.(clock_) = s.(clock_).
Proof.
  intros F Ht. destruct (flow_times s F) as (T1 & T2 & T3). unfold UpdateTimeAndGetElapsed, elapsed. rewrite (proj2 (small_finite _ T1)). cbn [orb].
  pose proof (fl_last s F). destruct (Z.ltb_spec t (last_process_time_ s)) as [H1|H1].
  - exists s. split; [do 2 f_equal; lia|]. split_and!; try done. lia.
  - exists (s <| last_process_time_ := t |>). split; [|split_and!; try done; cbn; lia]. change kMaxElapsedTime with 2000000.
    rewrite td_sub_small by (unfold small_time in *; lia). do 2 f_equal. lia.
Qed.

Lemma UpdateBudget_flow e s s1 : core s1 = core s -> flow s ->
  exists s', UpdateBudgetWithElapsedTime e s1 = Some ((), s') /\ core s' = core s /\ s'.(last_process_time_) = s1.(last_process_time_)
    /\ s'.(media_debt_) = drained r s1.(media_debt_) e
    /\ s'.(last_send_time_) = s1.(last_send_time_) /\ s'.(last_timestamp_) = s1.(last_timestamp_) /\ s'.(clock_) = s1.(clock_).
Proof.
  intros Ec F. assert (Er : adjusted_media_rate_ s1 = r) by (rewrite <- (fl_rate s F); by injection Ec).
  eexists. split; [done|]. split; [exact Ec|]. split_and!; try done. cbn. by rewrite Er.
Qed.

Lemma elapse_updated t s : flow s -> t <= s.(last_timestamp_) -> exists s', elapse t s = Some ((), s') /\ updated t s s'.
Proof.
  intros F Ht. destruct (UpdateTime_flow t s F Ht) as (s1 & E1 & Ec & El & Ed & Es & Ets & Ek). unfold elapse, mbind, P_bind. rewrite E1.
  destruct (UpdateBudget_flow (elapsed t s) s s1 Ec F) as (s2 & E2 & Ec2 & El2 & Ed2 & Es2 & Ets2 & Ek2). exists s2. split; [done|].
  split; [done|congruence|congruence|]. split_and!; congruence.
Qed.

(** The first update in [send_due] is skipped when no time has passed. *)
Lemma first_updated t s : flow s -> t <= s.(last_timestamp_) ->
  exists s1 s', UpdateTimeAndGetElapsed t s = Some (elapsed t s, s1)
    /\ when (elapsed t s >? 0) (UpdateBudgetWithElapsedTime (elapsed t s)) s1 = Some ((), s') /\ updated t s s'.
Proof.
  intros F Ht. destruct (UpdateTime_flow t s F Ht) as (s1 & E1 & Ec & El & Ed & Es & Ets & Ek). exists s1.
  destruct (Z.gtb_spec (elapsed t s) 0) as [H|H].
  - destruct (UpdateBudget_flow (elapsed t s) s s1 Ec F) as (s2 & E2 & Ec2 & El2 & Ed2 & Es2 & Ets2 & Ek2). exists s2. split; [done|]. split; [done|].
    split; [done|congruence|congruence|]. split_and!; congruence.
  - exists s1. split; [done|]. split; [done|]. split; [done|done| |done]. replace (elapsed t s) with 0 by (unfold elapsed in *; lia).
    rewrite Ed. symmetry. apply drained_zero. apply (flow_debt s F).
Qed.

(** *** When a paced packet may leave *)

Definition unpaced_first (s : PacingController) : Prop :=
  exists j, s.(packet_queue_).(top_active_prio_level_) = Some j /\ (j <= 2)%nat.

(** What the time [t] of the next packet means. *)
Definition opens (s : PacingController) (t : Z) : Prop :=
  Empty s.(packet_queue_) = true \/ unpaced_first s \/ s.(last_send_time_) + 500000 <= t
  \/ (t = s.(last_process_time_) /\ U * s.(media_debt_) <= r * B) \/ t = s.(last_process_time_) + U * s.(media_debt_) / r.
(** The next packet, if it is paced, may leave. *)
Definition gate (s : PacingController) : Prop :=
  Empty s.(packet_queue_) = true \/ unpaced_first s \/ U * s.(media_debt_) <= r * B + 4000000.

Lemma debt_time s : flow s -> time_for_size s.(media_debt_) r = Some (U * s.(media_debt_) / r).
Proof.
  intros F. destruct (flow_debt s F) as (D1 & D2 & D3). destruct R. unfold time_for_size, Microbits.
  destruct (Z.eqb_spec r 0); [lia|]. rewrite i64_small by lia. rewrite Z.quot_div_nonneg by lia. by rewrite Z.mul_comm.
Qed.

(** When the paced packets are due. *)
Definition wait_for (s : PacingController) : Z :=
  if Empty s.(packet_queue_) then 500000 else
  let drain_time := U * s.(media_debt_) / r in
  if Z.min B (Z.quot (Microbits kMaxBurstSize) r) >? drain_time then 0 else drain_time.
Definition paced_time (s : PacingController) : Z :=
  let silent := s.(last_send_time_) + 500000 in
  if s.(seen_first_packet_) then Z.min (s.(last_process_time_) + wait_for s) silent else silent.
(** What [NextSendTime] returns. *)
Definition next_time (s : PacingController) : Z :=
  match fst <$> NextUnpacedSendTime s with
  | Some u => if IsFinite u then Z.min u PlusInfinity else paced_time s
  | None => paced_time s
  end.

Lemma wait_for_bounds s : flow s -> 0 <= wait_for s <= 1000000.
Proof.
  intros F. destruct (flow_debt s F) as (D1 & D2 & D3). assert (Hdt : 0 <= U * s.(media_debt_) / r <= 1000000).
  { destruct R. split; [apply Z.div_pos; lia|]. apply Z.div_le_upper_bound; lia. }
  unfold wait_for. destruct (Empty _); [lia|]. cbv zeta. destruct (_ >? _); lia.
Qed.

Lemma paced_opens s : flow s -> opens s (paced_time s).
Proof.
  intros F. destruct (flow_debt s F) as (D1 & D2 & D3). unfold paced_time, opens. destruct (seen_first_packet_ s); [|right; right; left; lia].
  unfold wait_for. destruct (Empty (packet_queue_ s)) eqn:Ee; [by left|]. cbv zeta. set (b := Z.quot _ _).
  set (d := if Z.min B b >? _ then 0 else _).
  destruct (Z.min_spec (last_process_time_ s + d) (last_send_time_ s + 500000)) as [[_ ->]|[_ ->]]; [|right; right; left; lia].
  right; right; right. unfold d in *. destruct (Z.gtb_spec (Z.min B b) (U * media_debt_ s / r)) as [H|H]; [left|by right].
  split; [lia|]. assert (U * media_debt_ s / r < B) by lia. pose proof (Z.mul_succ_div_gt (U * media_debt_ s) r). destruct R. nia.
Qed.

Lemma paced_time_spec s : flow s -> paced_send_time s = Some (paced_time s, s) /\ small_time (paced_time s).
Proof.
  intros F. destruct (flow_times s F) as (T1 & T2 & T3). pose proof (debt_time s F) as Et. pose proof (wait_for_bounds s F) as Hw.
  destruct (flow_setting s F) as (_ & Eg & _ & _ & Ep & _ & Eb & _). pose proof (fl_rate s F) as Er. pose proof (fl_last s F) as Hl.
  pose proof (fl_clock s F) as [Hc _]. assert (Hr : 0 < r) by (destruct R; lia).
  split; [|unfold paced_time; destruct R; unfold small_time in *; destruct (seen_first_packet_ s); lia].
  unfold paced_send_time, mbind, P_bind, get, need, mret, P_ret, id. rewrite Eg, Er, Et, Ep, Eb. unfold time_for_size.
  destruct (Z.eqb_spec r 0) as [?|_]; [lia|]. change send_padding_if_silent_ with true. change kCongestedPacketInterval with 500000.
  change kPausedProcessInterval with 500000. unfold paced_time, wait_for in *.
  rewrite (td_add_small (last_send_time_ s)) by (unfold small_time in *; lia). cbn [orb]. destruct (seen_first_packet_ s); cbn [negb]; [|done].
  destruct (Z.gtb_spec r 0) as [_|?]; [|lia]. cbn [andb]. destruct (Empty (packet_queue_ s)) eqn:Ee; cbn [negb].
  all: cbv iota; cbn [fmap option_fmap option_map]; do 2 f_equal; rewrite td_add_small; [done| | ]; try (unfold small_time in *; lia).
Qed.

Lemma NextSendTime_paid s : flow s -> exists t s', NextSendTime s = Some (t, s') /\ paid 0 0 s s' /\ core s' = core s
  /\ s'.(media_debt_) = s.(media_debt_) /\ s'.(last_process_time_) = s.(last_process_time_) /\ s'.(last_send_time_) = s.(last_send_time_)
  /\ opens s' t /\ t = next_time s' /\ s'.(seen_first_packet_) = s.(seen_first_packet_).
Proof.
  intros F. destruct (CurrentTime_paid s F) as (s' & E & P1 & Ec & Ed & El & Es & Ese & _). pose proof (pd_flow _ _ _ _ P1) as F'.
  destruct (flow_setting s' F') as (Ep & _). destruct (NextUnpaced_wp fits s' (fl_ok s' F')) as (u & Eu & Hu).
  destruct (paced_time_spec s' F') as [Et Hst]. pose proof (paced_opens s' F') as Ho.
  assert (Hx : exists t', NextSendTime s = Some (t', s') /\ opens s' t' /\ t' = next_time s').
  { unfold NextSendTime, mbind, P_bind at 1. rewrite E. unfold P_bind, get, id. rewrite Ep, (not_probing s' F'). cbn [andb].
    unfold NextClusterExpiration, next_time. rewrite (fl_clusters s' F'), Eu. cbn [fmap option_fmap option_map fst]. destruct (IsFinite u) eqn:Fu.
    - eexists. split; [done|]. split; [|done]. right; left. by apply Hu.
    - rewrite Et. exists (paced_time s'). split; [|done]. unfold mret, P_ret. do 2 f_equal. unfold small_time in Hst.
      change PlusInfinity with (2 ^ 63 - 1). lia. }
  destruct Hx as (t' & Ex & Ho' & En). by exists t', s'.
Qed.

(** Once the time has come and is accounted for, the next packet may leave. *)
Lemma opens_gate t s s' : flow s -> opens s t -> t < s.(last_send_time_) + 500000 -> updated t s s' -> gate s'.
Proof.
  intros F Ho Ht [Ec _ Ed _]. assert (Eq : packet_queue_ s' = packet_queue_ s) by (by injection Ec).
  unfold gate, unpaced_first. rewrite Eq. destruct Ho as [?|[?|[?|Ho]]]; [by left|by right; left|lia|].
  right; right. destruct (flow_debt s F) as (D1 & D2 & D3).
  destruct (drained_spec r (media_debt_ s) (elapsed t s)) as (B1 & B2 & B3); [done..|unfold elapsed; lia|].
  rewrite Ed. destruct Ho as [[_ ?]|Ho]; [lia|]. destruct R.
  assert (Hdt : 0 <= U * s.(media_debt_) / r <= 1000000) by (split; [apply Z.div_pos; lia|apply Z.div_le_upper_bound; lia]).
  pose proof (Z.mul_succ_div_gt (U * media_debt_ s) r). replace (elapsed t s) with (U * media_debt_ s / r) in * by (unfold elapsed; lia). nia.
Qed.

(** *** A round of the send loop *)

(** What is known where the budget is not looked at. *)
Definition same_books (s s' : PacingController) : Prop :=
  s'.(media_debt_) = s.(media_debt_) /\ s'.(last_process_time_) = s.(last_process_time_) /\ s'.(last_send_time_) = s.(last_send_time_)
  /\ s'.(last_timestamp_) = s.(last_timestamp_) /\ s'.(clock_) = s.(clock_).
Lemma same_books_ok s s' : flow s -> same_books s s' -> books_ok s'.
Proof. intros F%flow_books (E1 & E2 & E3 & E4 & E5). unfold books_ok in *. by rewrite E1, E2, E3, E4, E5. Qed.
Lemma same_books_paid s s' : flow s -> flow s' -> same_books s s' -> s'.(out_) = s.(out_) -> s'.(packet_queue_) = s.(packet_queue_) -> paid 0 0 s s'.
Proof. intros F F' (E1 & E2 & E3 & E4 & E5) Eo Eq. apply paid_silent; [done|lia|done|done|by apply fresh_same|rewrite ?E1, ?E2, ?E4; lia..]. Qed.
(** The queue changes by at most [k] packets. *)
Lemma queue_paid k s q : flow s -> queue_ok s.(config_).(prioritize_audio_retransmission) fits q -> SizeInPackets q <= waits s + k ->
  paid k 0 s (s <| packet_queue_ := q |>).
Proof.
  intros F Hq Hk. assert (F' : flow (s <| packet_queue_ := q |>)).
  { apply (flow_step s); try done; [by apply step_queue; [apply F|]|]. by apply (same_books_ok s). }
  split; [done| |done|cbn; lia|by apply fresh_same]. exists []. rewrite app_nil_r. split; [done|]. apply accounted_silent; cbn; done || lia.
Qed.

Lemma fits_unpaced p b : fits p -> p.(pk_type) <> kAudio -> (turns_prio b p <= 2)%nat -> False.
Proof. intros [H _] Ha Ht. unfold turns_prio in Ht. destruct (pk_type p); cbn in Ht; done || lia. Qed.

Lemma pending_paid info target now s : flow s -> is_probe info = false -> gate s ->
  exists x s', GetPendingPacket info target now s = Some (x, s') /\ same_books s s' /\ paid (if x then -1 else 0) 0 s s'
    /\ (x = None -> Empty s.(packet_queue_) = true)
    /\ forall p, x = Some p -> fits p /\ (p.(pk_type) <> kAudio -> U * s.(media_debt_) <= r * B + 4000000) /\ Empty s.(packet_queue_) = false.
Proof.
  intros F Ei Hg. unfold GetPendingPacket. rewrite Ei. cbn [andb]. unfold mbind, P_bind at 1, mret, P_ret.
  unfold P_bind, get. destruct (Empty (packet_queue_ s)) eqn:Ee; [exists None, s; by split; [|split; [|split; [by apply paid_refl|]]]|].
  assert (Ew : must_wait info target now s = Some (false, s)).
  { destruct (NextUnpaced_wp fits s (fl_ok s F)) as (u & Eu & _). destruct (flow_setting s F) as (_ & Eg & _ & _ & _ & _ & Eb & _).
    unfold must_wait, mbind, P_bind, get, mret, P_ret, id. rewrite Eu, Ei. destruct (IsFinite u); [done|].
    cbn [orb]. rewrite Eg, Eb.
    destruct (Z.eqb_spec B 0) as [H|_]; [destruct R; lia|]. by rewrite andb_false_r. }
  rewrite Ew. pose proof (pi_queue _ s (fl_ok s F)) as Hok. destruct (queue_Pop _ _ _ Hok) as (x & q & E & Hq & Hx).
  destruct (Pop_size _ _ _ _ _ Hok E) as [Hs Hn]. unfold pop_packet, mbind, P_bind, get, need, put.
  rewrite E. cbn [fmap option_fmap option_map]. exists x, (s <| packet_queue_ := q |>). split; [done|]. split; [done|].
  split; [apply queue_paid; [done|done|unfold waits; destruct x; lia]|].
  split; [intros ->; rewrite Hn in Ee; done|]. intros p Ep. destruct (Hx p Ep) as [Et Hf]. split; [done|]. split; [|done]. intros Ha.
  destruct Hg as [?|[(j & Ej & Hj)|?]]; [congruence| |done]. rewrite Et in Ej. injection Ej as <-. exfalso. by eapply fits_unpaced.
Qed.

Lemma send_packet_flow p info s : flow s -> send_packet p info s = Some ((), s <| out_ ::= fun l => l ++ [SendPacket p info] |>).
Proof. intros F. unfold send_packet, mbind, P_bind, output, put, FetchFec. cbn. by rewrite (fl_fec s F). Qed.

(** A packet of [n] bytes adds them to the debt, as long as it has room, unless it is audio. *)
Lemma OnPacketSent_flow ty n now s : flow s -> 0 <= n <= 2 ^ 40 ->
  exists s', OnPacketSent ty n now s = Some ((), s') /\ core s' = core s /\ s'.(last_send_time_) = now
    /\ s'.(last_process_time_) = s.(last_process_time_) /\ s'.(last_timestamp_) = s.(last_timestamp_) /\ s'.(clock_) = s.(clock_)
    /\ s'.(seen_first_packet_) = s.(seen_first_packet_)
    /\ s.(media_debt_) <= s'.(media_debt_) <= data_per_time r kMaxDebtInTime
    /\ (ty <> kAudio -> s.(media_debt_) + n <= data_per_time r kMaxDebtInTime -> s'.(media_debt_) = s.(media_debt_) + n).
Proof.
  intros F Hn. destruct (flow_debt s F) as (D1 & D2 & _). pose proof (fl_debt s F) as HD. destruct (flow_setting s F) as (_ & _ & _ & Eu & _).
  unfold OnPacketSent, mbind, P_bind, put, get. set (s1 := if _ && _ then _ else _).
  assert (H1 : core s1 = core s /\ same_books s s1 /\ seen_first_packet_ s1 = seen_first_packet_ s) by (unfold s1; by destruct (_ && _)).
  assert (Ea : account_for_audio_ s1 = false) by (unfold s1; by destruct (_ && _)). clearbody s1. rewrite Ea, orb_false_r.
  destruct H1 as [Ec [(E1 & E2 & E3 & E4 & E5) Ese]]. set (D := data_per_time r kMaxDebtInTime) in *.
  destruct (negb (bool_decide (ty = kAudio)) && (n >? 0)) eqn:Eb; cbn [when]; (eexists; split; [reflexivity|]); (do 6 (split; [done|])).
  - cbn -[td_add data_per_time Z.min]. assert (Er : adjusted_media_rate_ s1 = r) by (rewrite <- (fl_rate s F); by injection Ec). rewrite Er, E1.
    fold D. rewrite td_add_small by (unfold small_time; lia). clear D1 D2. split; [lia|]. intros _ ?. lia.
  - cbn. rewrite E1. split; [lia|]. intros Ha _. rewrite bool_decide_false in Eb by done. cbn in Eb. lia.
Qed.

(** A packet that leaves is in the debt. *)
Lemma sent_paid p info now s : flow s -> fits p -> (p.(pk_type) <> kAudio -> U * s.(media_debt_) <= r * B + 4000000) ->
  0 <= now <= s.(last_timestamp_) -> exists s', (_ ← send_packet p info; OnPacketSent p.(pk_type) (counted_size p z) now) s = Some ((), s')
    /\ core s' = core (s <| out_ ::= fun l => l ++ [SendPacket p info] |>) /\ paid 0 (-1) s s' /\ s'.(last_send_time_) = now
    /\ s'.(last_process_time_) = s.(last_process_time_) /\ s'.(last_timestamp_) = s.(last_timestamp_).
Proof.
  intros F [Hr Hs] Hd Hn. unfold mbind, P_bind. rewrite (send_packet_flow p info s F). set (s1 := s <| out_ ::= _ |>).
  assert (F1 : flow s1).
  { apply (flow_step s); try done; [|by apply (same_books_ok s)]. pose proof (fl_ok s F) as []. split; [by split|done| |done].
    exists [SendPacket p info]. split; [done|by repeat constructor]. }
  pose proof room as (Hr1 & _ & Hr2 & Hr3). change kMaxDebtInTime with 500000 in *. pose proof (fr_room R) as Hroom. unfold cap in *.
  destruct (data_per_time_spec r 500000) as (_ & HD & _); [destruct R; lia|lia|].
  destruct (OnPacketSent_flow p.(pk_type) (counted_size p z) now s1 F1) as (s2 & E & Ec & Es & El & Et & Ek & _ & Hb & Ed); [destruct R; nia|].
  exists s2. split; [done|]. split; [done|]. change (media_debt_ s1) with (media_debt_ s) in *.
  change (last_process_time_ s1) with (last_process_time_ s) in El. change (last_timestamp_ s1) with (last_timestamp_ s) in Et.
  change (clock_ s1) with (clock_ s) in Ek. split; [|done]. pose proof (flow_books s F) as (HD0 & Hl & Hc).
  assert (Eo : out_ s2 = out_ s ++ [SendPacket p info]) by (change (out_ s ++ _) with (out_ s1); by injection Ec). split.
  - apply (flow_same s1); [done|done|]. unfold books_ok. rewrite Es, El, Et, Ek. split; [lia|]. by split; [lia|].
  - exists [SendPacket p info]. split; [done|]. unfold accounted. rewrite El. change (sends [_]) with 1. unfold charged. cbn [foldr cost].
    split; [lia|]. split; [lia|]. destruct (paced p) eqn:Ep; [|split; [lia|by left]].
    assert (Ha : p.(pk_type) <> kAudio) by (intros Ha; unfold paced in Ep; by rewrite Ha in Ep). specialize (Hd Ha). specialize (Ed Ha ltac:(change kMaxDebtInTime with 500000; lia)).
    unfold cap. split; [lia|right; lia].
  - assert (Eq : packet_queue_ s2 = packet_queue_ s) by (by injection Ec). unfold waits. rewrite Eq. lia.
  - lia.
  - by apply fresh_same.
Qed.

(** *** The send loop *)

(** Before a round at time [now]. *)
Record ready (now : Z) (s : PacingController) : Prop := {
  rd_flow : flow s;
  rd_now : s.(last_process_time_) <= now <= s.(last_timestamp_);
  rd_gate : gate s;
}.

Lemma no_padding n s : flow s -> PaddingToAdd 0 n s = 0.
Proof.
  intros F. destruct (flow_setting s F) as (_ & _ & _ & _ & Ep & _). unfold PaddingToAdd. rewrite Ep. destruct (negb _); [done|].
  by destruct (congested_ s).
Qed.

(** The last send keeps the keep-alive away; an empty round brings the budget close to [now]. *)
Definition recent (now : Z) (s : PacingController) : Prop := now < s.(last_send_time_) + 500000.
Definition caught_up (now target : Z) (s : PacingController) : Prop :=
  small_time target -> now - 50000 <= s.(last_process_time_) \/ now - 50000 <= target.

Lemma round_padding_paid now l s : flow s -> s.(last_process_time_) <= now <= s.(last_timestamp_) ->
  exists l' s', round_padding now 0 l s = Some ((false, l'), s') /\ paid 0 0 s s' /\ s'.(last_process_time_) <= now <= s'.(last_timestamp_)
    /\ s'.(last_send_time_) = s.(last_send_time_) /\ caught_up now l.(target) s'.
Proof.
  intros F Hn. destruct (flow_times s F) as (T1 & _ & T3). pose proof (fl_last s F) as Hls. unfold round_padding.
  set (late := td_sub now l.(target) >? kMaxPaddingReplayDuration).
  assert (Hlate : late = false -> small_time l.(target) -> now - 50000 <= l.(target)).
  { unfold late. change kMaxPaddingReplayDuration with 50000. intros Hg Ht. rewrite td_sub_small in Hg by (done || (unfold small_time in *; lia)).
    destruct (Z.gtb_spec (now - target l) 50000); [done|lia]. }
  clearbody late. set (l1 := if late then _ else _).
  assert (Ht : late = true -> l1.(target) = now - 50000).
  { unfold l1. intros ->. cbn. change kMaxPaddingReplayDuration with 50000. rewrite td_sub_small; unfold small_time in *; lia. }
  clearbody l1. unfold mbind, P_bind at 1.
  assert (Hx : exists s', when late (put (fun s => s <| last_process_time_ ::= fun t => Z.max t l1.(target) |>)) s = Some ((), s')
    /\ paid 0 0 s s' /\ s'.(last_process_time_) <= now <= s'.(last_timestamp_) /\ s'.(last_send_time_) = s.(last_send_time_)
    /\ caught_up now l.(target) s').
  { destruct late; [|exists s; split; [done|]; split; [by apply paid_refl|]; split; [done|]; split; [done|]; right; by apply Hlate].
    specialize (Ht eq_refl). eexists. split; [done|]. pose proof (flow_books s F) as (H1 & H2 & H3). destruct R. split.
    - apply paid_silent; [|lia|done|done|by apply fresh_same|cbn; nia|cbn; lia..]. apply (flow_same s); [done|done|]. split; [exact H1|]. split; [cbn; lia|exact H3].
    - split; [cbn; lia|]. split; [done|]. intros _. left. cbn. lia. }
  destruct Hx as (s' & -> & Hp & Hl). exists l1, s'. unfold P_bind, get. rewrite no_padding by apply Hp. by split.
Qed.

Lemma core_waits s s' : core s' = core s -> waits s' = waits s.
Proof. intros E. assert (Eq : packet_queue_ s' = packet_queue_ s) by (by injection E). unfold waits. by rewrite Eq. Qed.

Lemma round_packet_paid now p l s : flow s -> s.(last_process_time_) <= now <= s.(last_timestamp_) -> fits p
  -> (p.(pk_type) <> kAudio -> U * s.(media_debt_) <= r * B + 4000000) ->
  0 <= now -> exists more l' s', round_packet now 0 false p l s = Some ((more, l'), s') /\ paid 0 0 s s' /\ waits s' = waits s
    /\ l'.(pacing_info) = l.(pacing_info) /\ s'.(last_process_time_) <= now <= s'.(last_timestamp_) /\ (more = true -> ready now s')
    /\ s'.(last_send_time_) = now.
Proof.
  intros F Hn Hf Hd H0. destruct (flow_setting s F) as (_ & _ & _ & _ & _ & _ & _ & Hc).
  destruct (sent_paid p l.(pacing_info) now s F Hf Hd) as (s1 & E1 & Ec1 & P1 & Es1 & El1 & Et1); [lia|]. apply core_waits in Ec1.
  change (waits s1 = waits s) in Ec1. unfold round_packet. unfold mbind, P_bind, get. rewrite (Hc p). unfold mbind, P_bind in E1.
  destruct (send_packet p (pacing_info l) s) as [[[] s0]|]; [|done]. cbn [pacing_info]. cbv zeta. rewrite E1. cbn [andb].
  destruct (NextSendTime_paid s1 (pd_flow _ _ _ _ P1)) as (t & s2 & E2 & P2 & Ec2 & Ed2 & El2 & Es2 & Ho & _). rewrite E2, andb_true_r.
  pose proof (paid_trans _ _ _ _ _ _ _ P1 P2) as P12. pose proof (pd_time _ _ _ _ P2) as [_ Ht2]. apply core_waits in Ec2.
  destruct (Z.gtb_spec t now) as [Hg|Hg].
  - eexists false, _, s2. split; [done|]. split; [by eapply paid_more; [exact P12|lia..]|]. split; [congruence|]. split; [done|]. split; [lia|].
    split; [done|congruence].
  - destruct (elapse_updated t s2 (pd_flow _ _ _ _ P2)) as (s3 & E3 & Hu); [lia|]. rewrite E3.
    pose proof (updated_paid t s2 s3 (pd_flow _ _ _ _ P2) ltac:(lia) Hu) as P3. destruct (up_same _ _ _ Hu) as (Es3 & Et3 & _).
    eexists true, _, s3. split; [done|]. split; [by eapply paid_more; [exact (paid_trans _ _ _ _ _ _ _ P12 P3)|lia..]|].
    pose proof (core_waits _ _ (up_core _ _ _ Hu)). pose proof (up_last _ _ _ Hu). split; [congruence|]. split; [done|]. split; [lia|].
    split; [|congruence]. intros _. split; [apply P3|lia|]. apply (opens_gate t s2); [apply P2|done|lia|done].
Qed.

(** A round takes a packet if one waits. *)
Lemma send_round_paid now l s : ready now s -> 0 <= now -> is_probe l.(pacing_info) = false ->
  exists more l' s', send_round now 0 false l s = Some ((more, l'), s') /\ paid 0 0 s s'
    /\ s'.(last_process_time_) <= now <= s'.(last_timestamp_) /\ (more = true -> ready now s' /\ l'.(pacing_info) = l.(pacing_info))
    /\ (Empty s.(packet_queue_) = false -> waits s' < waits s) /\ (recent now s -> recent now s')
    /\ (Empty s.(packet_queue_) = true -> more = false /\ caught_up now l.(target) s').
Proof.
  intros [F Hn Hg] H0 Hi. destruct (pending_paid l.(pacing_info) l.(target) now s F Hi Hg) as (x & s1 & E1 & Hb & P1 & Hx0 & Hx).
  destruct Hb as (Ed & El & Es & Et & Ek). pose proof (pd_flow _ _ _ _ P1) as F1. unfold send_round, mbind, P_bind at 1. rewrite E1.
  destruct x as [p|].
  - destruct (Hx p eq_refl) as (Hf & Hd & Hne). destruct (round_packet_paid now p l s1 F1) as (more & l' & s2 & E2 & P2 & Hw & Hl & Hb & Hr & Hs2);
      [lia|done|by rewrite Ed|done|].
    exists more, l', s2. split; [done|]. split; [by eapply paid_more; [exact (paid_trans _ _ _ _ _ _ _ P1 P2)|lia..]|]. split; [done|].
    split; [by intros H%Hr|]. split; [|split; [unfold recent; lia|by rewrite Hne]].
    intros _. pose proof (pd_waits _ _ _ _ P1). lia.
  - destruct (round_padding_paid now l s1 F1) as (l' & s2 & E2 & P2 & Hb & Hs2 & Hcu); [lia|].
    exists false, l', s2. split; [done|]. split; [by eapply paid_more; [exact (paid_trans _ _ _ _ _ _ _ P1 P2)|lia..]|]. split; [done|].
    split; [done|]. split; [by rewrite Hx0|]. split; [unfold recent; by rewrite Hs2, Es|done].
Qed.

Lemma paid_waits n s s' : paid 0 n s s' -> waits s' <= waits s.
Proof. intros [_ _ Hq _ _]. lia. Qed.

Lemma send_loop_paid n now l s : ready now s -> 0 <= now -> is_probe l.(pacing_info) = false -> recent now s ->
  exists x s', send_loop n now 0 false l s = Some (x, s') /\ paid 0 0 s s' /\ s'.(last_process_time_) <= now <= s'.(last_timestamp_)
    /\ recent now s' /\ ((0 < n)%nat -> (Empty s.(packet_queue_) = false -> waits s' < waits s)
                          /\ (Empty s.(packet_queue_) = true -> caught_up now l.(target) s')).
Proof.
  revert l s. induction n as [|n IH]; intros l s Hr H0 Hi Hs.
  { eexists _, s. split; [done|]. split; [by apply paid_refl, Hr|]. split; [apply Hr|]. split; [done|lia]. }
  cbn [send_loop]. unfold mbind, P_bind at 1. destruct (send_round_paid now l s Hr H0 Hi) as (more & l' & s1 & E1 & P1 & Hb & Hm & Hw & Hs1 & He1).
  rewrite E1. destruct more.
  2: { eexists _, s1. split; [done|]. split; [done|]. split; [done|]. split; [by apply Hs1|]. intros _. split; [done|]. by intros [_ H]%He1. }
  destruct (Hm eq_refl) as [Hr1 El]. destruct (IH l' s1 Hr1 H0) as (x & s2 & E2 & P2 & Hb2 & Hs2 & _); [by rewrite El|by apply Hs1|].
  exists x, s2. split; [done|]. split; [by eapply paid_more; [exact (paid_trans _ _ _ _ _ _ _ P1 P2)|lia..]|]. split; [done|]. split; [done|].
  intros _. split; [|by intros [? _]%He1]. intros He. pose proof (paid_waits _ _ _ P2). specialize (Hw He). lia.
Qed.

(** *** The calls *)

Lemma media_rate_paid now s : flow s -> exists s', MaybeUpdateMediaRateDueToLongQueue now s = Some ((), s') /\ paid 0 0 s s'
  /\ s'.(packet_queue_) = s.(packet_queue_) /\ s'.(last_send_time_) = s.(last_send_time_).
Proof.
  intros F. destruct (flow_setting s F) as (_ & _ & Ed & _ & _ & Er & _).
  exists (s <| adjusted_media_rate_ := s.(pacing_rate_) |>). unfold MaybeUpdateMediaRateDueToLongQueue, mbind, P_bind, put, get. cbn. rewrite Ed.
  split; [done|]. split; [|done]. apply same_books_paid; [done| |done..]. apply (flow_same s); [done| |by apply (same_books_ok s)].
  unfold core, settings. cbn. by rewrite Er, (fl_rate s F).
Qed.

Lemma send_due_paid now t s : flow s -> t <= now -> s.(last_process_time_) <= now <= s.(last_timestamp_) -> 0 <= now ->
  opens s t -> recent now s -> exists s', send_due now t s = Some ((), s') /\ paid 0 1 s s' /\ recent now s'
    /\ (0 < s.(circuit_breaker_threshold_) -> (Empty s.(packet_queue_) = false -> waits s' < waits s)
        /\ (Empty s.(packet_queue_) = true -> small_time t -> now - 50000 <= s'.(last_process_time_))).
Proof.
  intros F Ht Hn H0 Ho Hk. destruct (first_updated t s F ltac:(lia)) as (s0 & s1 & E0 & E1 & Hu).
  pose proof (updated_paid t s s1 F ltac:(lia) Hu) as P1. destruct (up_same _ _ _ Hu) as (Es1 & Et1 & _). pose proof (up_last _ _ _ Hu) as El1.
  pose proof (core_waits _ _ (up_core _ _ _ Hu)) as Hw1. assert (Eq1 : packet_queue_ s1 = packet_queue_ s) by (by injection (up_core _ _ _ Hu)).
  assert (Eb1 : circuit_breaker_threshold_ s1 = circuit_breaker_threshold_ s) by (by injection (up_core _ _ _ Hu)).
  assert (Hr : ready now s1) by (split; [apply P1|lia|unfold recent in Hk; apply (opens_gate t s); [done..|lia|done]]).
  assert (Hk1 : recent now s1) by (unfold recent; by rewrite Es1).
  unfold send_due, mbind, P_bind at 1. rewrite E0. unfold P_bind at 1. rewrite E1.
  unfold P_bind at 1. unfold probe_info, mbind, P_bind at 1, get. rewrite (not_probing s1 (rd_flow _ _ Hr)). cbn [negb]. unfold mret, P_ret.
  unfold P_bind at 1, get. unfold P_bind at 1.
  destruct (send_loop_paid (Z.to_nat (circuit_breaker_threshold_ s1)) now (mkLoop t no_probe 0 0) s1 Hr H0 eq_refl Hk1)
    as ([ended l] & s2 & E2 & P2 & Hl2 & Hs2 & Hn2).
  rewrite E2. pose proof (paid_trans _ _ _ _ _ _ _ P1 P2) as P12. pose proof (pd_flow _ _ _ _ P12) as F2.
  assert (Hp : forall s', paid 0 0 s2 s' -> recent now s' -> paid 0 1 s s' /\ recent now s'
    /\ (0 < s.(circuit_breaker_threshold_) -> (Empty s.(packet_queue_) = false -> waits s' < waits s)
        /\ (Empty s.(packet_queue_) = true -> small_time t -> now - 50000 <= s'.(last_process_time_)))).
  { intros s' P3 Hs'. split; [by eapply paid_more; [exact (paid_trans _ _ _ _ _ _ _ P12 P3)|lia..]|]. split; [done|]. intros Hb.
    destruct Hn2 as [Hn2 Hn3]; [lia|]. rewrite Eq1 in Hn2, Hn3. pose proof (paid_waits _ _ _ P3). pose proof (pd_time _ _ _ _ P3) as [? _].
    pose proof (pd_time _ _ _ _ P2) as [? _]. split; [intros He; specialize (Hn2 He); lia|]. intros He Hst.
    destruct (Hn3 He Hst) as [?|Hx]; [lia|]. cbn in Hx. lia. }
  destruct ended; cbn [negb].
  - unfold finish_probe, P_bind at 1. cbn [negb]. unfold mret, P_ret. unfold P_bind at 1.
    destruct (CurrentTime_paid s2 F2) as (s3 & E3 & P3 & _ & _ & _ & Es3 & _). rewrite E3.
    destruct (media_rate_paid (last_timestamp_ s3) s3 (pd_flow _ _ _ _ P3)) as (s4 & E4 & P4 & _ & Es4). exists s4. split; [done|].
    apply Hp; [exact (paid_trans _ _ _ _ _ _ _ P3 P4)|]. unfold recent. by rewrite Es4, Es3.
  - unfold put. set (s3 := s2 <| last_send_time_ := now |> <| last_process_time_ := now |>). exists s3. split; [done|].
    apply Hp; [|unfold recent; cbn; lia]. pose proof (flow_books s2 F2) as (Hd & _ & Hc). destruct R.
    apply paid_silent; [|lia|done|done|by apply fresh_same|cbn; nia|cbn; lia..].
    apply (flow_same s2); [done|done|]. split; [done|]. split; [cbn; lia|done].
Qed.

(** *** The keep-alive *)

(** Padding is sent, and not charged. *)
Lemma send_filling l s : flow s -> Forall filler l -> exists os, for_each (fun p => send_packet p no_probe) l s = Some ((), s <| out_ ::= fun o => o ++ os |>)
  /\ charged z os = 0 /\ flow (s <| out_ ::= fun o => o ++ os |>).
Proof.
  intros F Hl. revert s F. induction Hl as [|p l (Hp & _ & Hf) Hl IH]; intros s F; cbn [for_each].
  { exists []. assert (E : s <| out_ ::= fun o => o ++ [] |> = s) by (destruct s; unfold upd_field; cbn; by rewrite app_nil_r). by rewrite E. }
  unfold mbind, P_bind. rewrite (send_packet_flow p no_probe s F). set (s1 := s <| out_ ::= _ |>).
  assert (F1 : flow s1).
  { apply (flow_step s); try done; [|by apply (same_books_ok s)]. pose proof (fl_ok s F) as []. split; [by split|done| |done].
    exists [SendPacket p no_probe]. split; [done|by repeat constructor]. }
  destruct (IH s1 F1) as (os & E & Hc & F2). exists (SendPacket p no_probe :: os).
  assert (Es : s1 <| out_ ::= fun o => o ++ os |> = s <| out_ ::= fun o => o ++ SendPacket p no_probe :: os |>).
  { unfold s1, upd_field. cbn. by rewrite <- app_assoc. }
  rewrite Es in E, F2. split; [exact E|]. split; [|done]. unfold charged in *. cbn [foldr cost]. unfold paced. by rewrite Hp.
Qed.

Lemma filling_size l : filling l ->
  exists n, fold_left (fun n p => td_add n (p.(payload_size) + p.(padding_size))) l 0 = n /\ 0 <= n <= 4080.
Proof.
  intros [Hn Hl]. enough (H : forall n, 0 <= n <= 4080 - 255 * zlen l ->
    exists m, fold_left (fun n p => td_add n (p.(payload_size) + p.(padding_size))) l n = m /\ 0 <= m <= 4080) by (apply H; lia).
  clear Hn. induction Hl as [|p l (_ & Hp & _) Hl IH]; intros n Hb; cbn [fold_left].
  { exists n. unfold zlen in Hb. cbn in Hb. split; [done|lia]. }
  apply IH. unfold zlen in *. cbn [length] in Hb. rewrite td_add_small by (unfold small_time; lia). lia.
Qed.

(** Taking the padding from the generator. *)
Lemma take_filling s : flow s -> exists l s1, (if seen_first_packet_ s then call_GeneratePadding 1 else mret []) s = Some (l, s1)
  /\ filling l /\ flow s1 /\ exists os, s1.(out_) = s.(out_) ++ os /\ charged z os = 0 /\ sends os = 0 /\ same_books s s1
  /\ s1.(packet_queue_) = s.(packet_queue_) /\ settings s1 = settings s /\ s1.(seen_first_packet_) = s.(seen_first_packet_).
Proof.
  intros F. assert (Hnil : filling []) by by split. destruct (seen_first_packet_ s) eqn:Ev.
  2: { exists [], s. split; [done|]. split; [done|]. split; [done|]. exists []. rewrite app_nil_r. by repeat split. }
  unfold call_GeneratePadding. pose proof (fl_pad s F) as Hp. cbn. destruct (padding_ s) as [|l g] eqn:E.
  - eexists _, _. split; [reflexivity|]. split; [done|]. split; [|exists [GeneratePadding 1]; by repeat split].
    apply (flow_step s); try done; [|by apply (same_books_ok s)]. pose proof (fl_ok s F) as []. split; [by split|done| |done].
    exists [GeneratePadding 1]. by split; [|repeat constructor].
  - apply Forall_cons in Hp as [Hl Hg]. eexists _, _. split; [reflexivity|]. split; [done|]. split; [|exists [GeneratePadding 1]; by repeat split].
    pose proof F as [[K1 K2 K3 K4 K5] ? ? ? ? ? ? ? ?]. rewrite E in K5. apply Forall_cons in K5 as [_ K5]. by split.
Qed.

(** The keep-alive comes after 500 ms of silence and adds its padding to the debt. *)
Lemma keepalive_paid s : flow s -> exists s', when (ShouldSendKeepalive s.(last_timestamp_) s) (send_keepalive s.(last_timestamp_)) s = Some ((), s')
  /\ paid 0 0 s s' /\ recent s.(last_timestamp_) s' /\ s'.(last_timestamp_) = s.(last_timestamp_)
  /\ s'.(packet_queue_) = s.(packet_queue_) /\ s'.(last_process_time_) = s.(last_process_time_)
  /\ s'.(seen_first_packet_) = s.(seen_first_packet_) /\ settings s' = settings s
  /\ (s' = s \/ (s.(last_send_time_) + 500000 <= s.(last_timestamp_) /\ s'.(last_send_time_) = s.(last_timestamp_))).
Proof.
  intros F. rewrite ShouldSendKeepalive_spec. destruct (flow_times s F) as (T1 & T2 & T3). rewrite td_sub_small by done.
  change kCongestedPacketInterval with 500000. destruct (Z.geb_spec (last_timestamp_ s - last_send_time_ s) 500000) as [H|H].
  2: { exists s. split; [done|]. split; [by apply paid_refl|]. split; [unfold recent; lia|]. do 5 (split; [done|]). by left. }
  cbn [when]. set (now := last_timestamp_ s). unfold send_keepalive, mbind, P_bind at 1, get.
  destruct (take_filling s F) as (l & s1 & E1 & Hl & F1 & os & Eo & Hc & Hs & Hb & Eq & Est & Ese). unfold P_bind at 1. rewrite E1.
  destruct (send_filling l s1 F1) as (os2 & E2 & Hc2 & F2); [apply Hl|]. unfold P_bind at 1. rewrite E2. set (s2 := s1 <| out_ ::= _ |>) in *.
  destruct (filling_size l Hl) as (n & -> & Hn). destruct Hb as (B1 & B2 & B3 & B4 & B5).
  destruct (OnPacketSent_flow kPadding n now s2 F2) as (s3 & E3 & Ec3 & Es3 & El3 & Et3 & Ek3 & Ese3 & Hd3 & _); [lia|].
  assert (Hc3 : packet_queue_ s3 = packet_queue_ s2 /\ out_ s3 = out_ s2 /\ settings s3 = settings s2).
  { revert Ec3. unfold core. generalize (settings s3), (settings s2). by intros ? ? [=]. }
  destruct Hc3 as (Eq3 & Eo3 & Est3). change (media_debt_ s2) with (media_debt_ s1) in Hd3. change (last_process_time_ s2) with (last_process_time_ s1) in El3.
  change (last_timestamp_ s2) with (last_timestamp_ s1) in Et3. change (clock_ s2) with (clock_ s1) in Ek3. change (packet_queue_ s2) with (packet_queue_ s1) in Eq3.
  change (seen_first_packet_ s2) with (seen_first_packet_ s1) in Ese3. change (settings s2) with (settings s1) in Est3.
  change (out_ s2) with (out_ s1 ++ os2) in Eo3. pose proof (flow_books s F) as (Hd & Hlt & Hck).
  assert (F3 : flow s3).
  { apply (flow_same _ _ F2 Ec3). unfold books_ok. rewrite Es3, El3, Et3, Ek3, B2, B4, B5. split; [lia|]. split; [unfold now; lia|done]. }
  exists s3. split; [exact E3|]. split.
  - split; [done| |unfold waits; rewrite Eq3, Eq; lia|rewrite El3, Et3, B2, B4; lia|by apply fresh_same; congruence].
    exists (os ++ os2). rewrite Eo3, Eo, <- app_assoc. split; [done|]. unfold accounted. rewrite charged_app, sends_app, Hc, Hc2, Hs, El3, B2.
    pose proof (sends_nonneg os2). split; [lia|]. split; [lia|]. split; [lia|by left].
  - unfold now in *. split; [unfold recent; lia|]. split; [congruence|]. split; [congruence|]. split; [congruence|]. split; [congruence|]. split; [congruence|].
    right. unfold now in *. split; [lia|congruence].
Qed.


(** What can be due without the keep-alive is due with it. *)
Lemma unpaced_queue s s' : s'.(packet_queue_) = s.(packet_queue_) -> fst <$> NextUnpacedSendTime s' = fst <$> NextUnpacedSendTime s.
Proof.
  intros E. unfold NextUnpacedSendTime, mbind, P_bind, get, need, mret, P_ret. rewrite E. cbn.
  destruct (LeadingPacketEnqueueTime _ _) as [a|]; [|done]. cbn. destruct (IsFinite a); [done|].
  by destruct (LeadingPacketEnqueueTimeForRetransmission _).
Qed.
Lemma next_time_same s s' : core s' = core s -> s'.(media_debt_) = s.(media_debt_) -> s'.(last_process_time_) = s.(last_process_time_) ->
  s'.(last_send_time_) = s.(last_send_time_) -> s'.(seen_first_packet_) = s.(seen_first_packet_) -> next_time s' = next_time s.
Proof.
  intros Ec Ed El Es Ese. assert (Eq : packet_queue_ s' = packet_queue_ s) by (by injection Ec). unfold next_time. rewrite (unpaced_queue _ _ Eq).
  assert (paced_time s' = paced_time s) as -> by (unfold paced_time, wait_for; by rewrite Eq, Ed, El, Es, Ese). done.
Qed.
Lemma next_time_recent s s' t : s'.(packet_queue_) = s.(packet_queue_) -> s'.(media_debt_) = s.(media_debt_) ->
  s'.(last_process_time_) = s.(last_process_time_) -> s'.(seen_first_packet_) = s.(seen_first_packet_) ->
  next_time s <= t -> t < s.(last_send_time_) + 500000 -> next_time s' <= t.
Proof.
  intros Eq Ed El Ese Ht Hs. unfold next_time in *. rewrite (unpaced_queue _ _ Eq).
  assert (Hp : paced_time s <= t -> paced_time s' <= t).
  { unfold paced_time, wait_for. rewrite Eq, Ed, El, Ese. destruct (seen_first_packet_ s); lia. }
  destruct (fst <$> NextUnpacedSendTime s) as [u|]; [|auto]. destruct (IsFinite u); auto.
Qed.
(** With nothing but paced packets or none, nothing is due before the budget is. *)
Lemma next_time_later lo s s' : flow s' -> s'.(packet_queue_) = s.(packet_queue_) -> lo < next_time s ->
  lo < s'.(last_process_time_) -> lo < s'.(last_send_time_) + 500000 -> lo < next_time s'.
Proof.
  intros F Eq Ht Hl Hs. pose proof (wait_for_bounds s' F). assert (Hp : lo < paced_time s').
  { unfold paced_time. destruct (seen_first_packet_ s'); lia. }
  unfold next_time in *. rewrite (unpaced_queue _ _ Eq). destruct (fst <$> NextUnpacedSendTime s) as [u|]; [|done]. by destruct (IsFinite u).
Qed.
Lemma next_time_empty s : flow s -> Empty s.(packet_queue_) = true -> next_time s = paced_time s.
Proof.
  intros F He. unfold next_time. destruct (NextUnpaced_wp fits s (fl_ok s F)) as (u & Eu & Hu). rewrite Eu. cbn [fmap option_fmap option_map fst].
  destruct (IsFinite u) eqn:Fu; [|done]. destruct (Hu Fu) as (j & Ej & _). rewrite (empty_top _ _ _ (pi_queue _ s (fl_ok s F)) He) in Ej. done.
Qed.

(** What a call of [ProcessPackets] brings about after the time [lo]. *)
Record progress (lo : Z) (s s' : PacingController) : Prop := {
  pr_send : recent lo s';
  pr_empty : Empty s.(packet_queue_) = true -> lo < s'.(last_process_time_) + 500000;
  pr_taken : next_time s <= lo -> recent lo s -> Empty s.(packet_queue_) = false -> waits s' < waits s \/ lo < next_time s';
}.

Lemma process_paid s : flow s -> exists s', process s = Some ((), s') /\ paid 0 1 s s'
  /\ (0 < s.(circuit_breaker_threshold_) -> forall lo, fresh lo s -> progress lo s s').
Proof.
  intros F. destruct (CurrentTime_paid s F) as (s1 & E1 & P1 & Ec1 & Ed1 & El1 & Es1 & Ese1 & Hlo). pose proof (pd_flow _ _ _ _ P1) as F1.
  assert (Hc1 : packet_queue_ s1 = packet_queue_ s /\ settings s1 = settings s).
  { revert Ec1. unfold core. generalize (settings s1), (settings s). by intros ? ? [=]. }
  destruct Hc1 as [Eq1 Est1].
  unfold process, mbind, P_bind at 1. rewrite E1. set (now := last_timestamp_ s1). unfold P_bind at 1, get, id.
  unfold RemoveExpiredClusters. rewrite (fl_clusters s1 F1). cbn [drop_expired length Nat.eqb].
  unfold P_bind at 1, put. set (s2 := s1 <| prober_ := prober_ s1 |>). assert (E2 : s2 = s1) by (by destruct s1). clearbody s2. subst s2.
  unfold P_bind at 1. cbn [when]. unfold mret, P_ret. unfold P_bind at 1. unfold P_bind at 1.
  destruct (keepalive_paid s1 F1) as (s3 & E3 & P3 & Hk & Et3 & Eq3 & El3 & Ese3 & Est3 & Hsame). fold now in E3, Hk, Et3, Hsame. rewrite E3.
  pose proof (pd_flow _ _ _ _ P3) as F3. destruct (flow_setting s3 F3) as (Ep & _). unfold P_bind at 1. rewrite Ep. unfold P_bind at 1.
  rewrite (not_probing s3 F3).
  destruct (NextSendTime_paid s3 F3) as (t & s4 & E4 & P4 & Ec4 & Ed4 & El4 & Es4 & Ho & Ent & Ese4). unfold P_bind at 1. rewrite E4.
  assert (Hc4 : packet_queue_ s4 = packet_queue_ s3 /\ settings s4 = settings s3).
  { revert Ec4. unfold core. generalize (settings s4), (settings s3). by intros ? ? [=]. }
  destruct Hc4 as [Eq4 Est4]. pose proof (pd_flow _ _ _ _ P4) as F4. pose proof (pd_time _ _ _ _ P4) as [_ Ht4].
  pose proof (fl_last s1 F1) as Hl1. pose proof (fl_last s3 F3) as Hl3.
  pose proof (paid_trans _ _ _ _ _ _ _ P1 (paid_trans _ _ _ _ _ _ _ P3 P4)) as P14. destruct (flow_times s1 F1) as (_ & _ & T1).
  assert (Eq : packet_queue_ s4 = packet_queue_ s) by congruence. assert (Hk4 : recent now s4) by (unfold recent; by rewrite Es4).
  assert (Hdue : forall lo, fresh lo s -> next_time s <= lo -> recent lo s -> t <= now \/ (lo < now /\ s4.(last_send_time_) = now)).
  { intros lo Hf Hn Hr. pose proof (Hlo lo Hf). destruct Hsame as [->|[Hs Hs3]].
    - left. subst t. transitivity lo; [|done]. apply (next_time_recent s); unfold recent in Hr; congruence || done.
    - right. unfold recent in Hr. rewrite Es1 in Hs. rewrite Es4. split; [lia|done]. }
  rewrite td_add_small by (done || (unfold small_time; lia)). rewrite Z.add_0_r. destruct (Z.ltb_spec now t) as [Hg|Hg].
  - destruct (elapse_updated now s4 F4) as (s5 & E5 & Hu); [lia|]. exists s5. split; [done|]. pose proof (up_last _ _ _ Hu) as El5.
    destruct (up_same _ _ _ Hu) as (Es5 & _ & _). pose proof (updated_paid now s4 s5 F4 ltac:(lia) Hu) as P5. split.
    { eapply paid_more; [exact (paid_trans _ _ _ _ _ _ _ P14 P5)|lia..]. }
    intros _ lo Hf. pose proof (Hlo lo Hf) as Hln. fold now in Hln. split; [unfold recent in *; rewrite Es5; lia|intros _; lia|].
    intros Hn Hr _. right. destruct (Hdue lo Hf Hn Hr) as [?|[Hx Hs4]]; [lia|].
    apply (next_time_later lo s4); [apply P5|by injection (up_core _ _ _ Hu)|lia|lia|rewrite Es5; lia].
  - destruct (send_due_paid now t s4 F4 Hg) as (s5 & E5 & P5 & Hk5 & Hb5); [lia|unfold now in *; lia|done|done|]. exists s5. split; [done|].
    split; [eapply paid_more; [exact (paid_trans _ _ _ _ _ _ _ P14 P5)|lia..]|].
    assert (Eth : circuit_breaker_threshold_ s4 = circuit_breaker_threshold_ s).
    { assert (Est : settings s4 = settings s) by congruence. unfold settings in Est. by injection Est. }
    rewrite Eth, Eq in Hb5. intros Hth lo Hf. destruct (Hb5 Hth) as [Hw He]. pose proof (Hlo lo Hf) as Hln. fold now in Hln.
    split; [unfold recent in *; lia| |intros _ _ Hne; left; unfold waits in *; rewrite Eq in Hw; by apply Hw].
    intros Hem. assert (Hst : small_time t).
    { rewrite Ent, next_time_empty by (done || by rewrite Eq). by apply paced_time_spec. }
    specialize (He Hem Hst). lia.
Qed.

Lemma output_paid o s : (forall p i, o <> SendPacket p i) -> flow s -> paid 0 0 s (s <| out_ ::= fun l => l ++ [o] |>).
Proof.
  intros Ho F. split; [|exists [o]; split; [done|]|unfold waits; cbn; lia|cbn; lia|by apply fresh_same].
  - apply (flow_step s); try done; [|by apply (same_books_ok s)]. pose proof (fl_ok s F) as []. split; [by split|done| |done].
    exists [o]. split; [done|by repeat constructor].
  - assert (Hc : charged z [o] = 0 /\ sends [o] = 0) by (destruct o as [p i| |]; [by specialize (Ho p i)|done|done]).
    destruct Hc as [Hc Hs]. apply accounted_silent; cbn; done || lia.
Qed.

Lemma ProcessPackets_paid s : flow s -> exists s', ProcessPackets s = Some ((), s') /\ paid 0 1 s s'
  /\ (0 < s.(circuit_breaker_threshold_) -> forall lo, fresh lo s -> progress lo s s').
Proof.
  intros F. destruct (process_paid s F) as (s1 & E1 & P1 & Hp).
  pose proof (output_paid OnBatchComplete s1 ltac:(done) (pd_flow _ _ _ _ P1)) as P2. eexists. unfold ProcessPackets, mbind, P_bind, output, put.
  rewrite E1. split; [done|]. split; [exact (paid_trans _ _ _ _ _ _ _ P1 P2)|]. intros Hb lo Hf. destruct (Hp Hb lo Hf) as [H1 H2 H3].
  split; [done|done|]. intros Hn Hr He. destruct (H3 Hn Hr He) as [?|H]; [by left|right]. unfold next_time in *. by rewrite (unpaced_queue s1).
Qed.

(** Operations of the queue leave the books alone. *)
Lemma on_queue_paid k f s : (forall b q, queue_ok b fits q -> exists q', f q = Some q' /\ queue_ok b fits q' /\ SizeInPackets q' <= SizeInPackets q + k) ->
  flow s -> exists s', on_queue f s = Some ((), s') /\ paid k 0 s s'.
Proof.
  intros Hf F. destruct (Hf _ _ (pi_queue _ s (fl_ok s F))) as (q & E & Hq & Hk). exists (s <| packet_queue_ := q |>).
  unfold on_queue, mbind, P_bind, get, need, put. rewrite E. split; [done|]. by apply queue_paid.
Qed.
Lemma when_paid n (b : bool) m s : 0 <= n -> flow s -> (exists s', m s = Some ((), s') /\ paid 0 n s s') -> exists s', when b m s = Some ((), s') /\ paid 0 n s s'.
Proof. intros Hn F H. destruct b; [done|]. exists s. split; [done|]. by eapply paid_more; [apply paid_refl|..]. Qed.

Lemma EnqueuePacket_paid p s : flow s -> fits p -> exists s', EnqueuePacket p s = Some ((), s') /\ paid 1 1 s s'.
Proof.
  intros F Hf. unfold EnqueuePacket, mbind, P_bind at 1, get, id.
  destruct (when_paid 0 (keyframe_flushing (config_ s) && bool_decide (pk_type p = kVideo) && is_key_frame p && is_first_packet_of_frame p
    && negb (HasKeyframePackets (pk_ssrc p) (packet_queue_ s))) (on_queue (RemovePacketsForSsrc (pk_ssrc p))) s) as (s1 & E1 & P1); [lia|done| |].
  { apply on_queue_paid; [|done]. intros b q Hq. destruct (queue_Remove b _ (pk_ssrc p) q Hq) as (q' & E & Hq'). exists q'.
    split; [done|]. split; [done|]. pose proof (Remove_size _ _ _ _ _ Hq E). lia. }
  unfold P_bind at 1. rewrite E1. clear E1. pose proof (pd_flow _ _ _ _ P1) as F1.
  unfold P_bind at 1, on_prober, put. set (s2 := s1 <| prober_ ::= _ |>).
  assert (F2 : flow s2).
  { apply (flow_step s1); try done; [|by apply (same_books_ok s1)]. apply step_prober; [apply F1|apply Incoming_ok, F1|].
    intros E. by rewrite Incoming_clusters. }
  assert (P2 : paid 0 0 s1 s2) by by apply same_books_paid. clearbody s2. unfold P_bind at 1. rewrite (not_probing s2 F2).
  unfold P_bind at 1. cbn [when]. unfold mret, P_ret. unfold P_bind at 1.
  destruct (CurrentTime_paid s2 F2) as (s3 & E3 & P3 & _). rewrite E3. set (now := last_timestamp_ s3). pose proof (pd_flow _ _ _ _ P3) as F3.
  unfold P_bind at 1. unfold P_bind at 1.
  destruct (when_paid 1 (Empty (packet_queue_ s3)) (next_send_time ← NextSendTime; elapse (if IsFinite next_send_time then Z.min now next_send_time else now)) s3)
    as (s4 & E4 & P4); [lia|done| |].
  { destruct (NextSendTime_paid s3 F3) as (t & s4 & E4 & P4 & _). pose proof (pd_time _ _ _ _ P4) as [_ Ht]. unfold mbind, P_bind. rewrite E4.
    set (x := if IsFinite t then _ else _). assert (Hx : x <= last_timestamp_ s4) by (unfold x, now; destruct (IsFinite t); lia).
    destruct (elapse_updated x s4 (pd_flow _ _ _ _ P4) Hx) as (s5 & E5 & Hu). exists s5. split; [done|].
    eapply paid_more; [exact (paid_trans _ _ _ _ _ _ _ P4 (updated_paid x s4 s5 (pd_flow _ _ _ _ P4) Hx Hu))|lia..]. }
  unfold mbind in E4. rewrite E4. unfold P_bind at 1.
  destruct (on_queue_paid 1 (Push now p) s4) as (s5 & E5 & P5); [|apply P4|].
  { intros b q Hq. destruct (queue_Push b _ now p q Hf Hq) as (q' & E & Hq'). exists q'. split; [done|]. split; [done|]. by eapply Push_size. }
  rewrite E5. unfold P_bind at 1.
  set (s6 := s5 <| seen_first_packet_ := true |>). pose proof (pd_flow _ _ _ _ P5) as F5.
  assert (F6 : flow s6) by (apply (flow_same s5); [done|done|by apply (same_books_ok s5)]).
  assert (P6 : paid 0 0 s5 s6) by by apply same_books_paid. destruct (media_rate_paid now s6 F6) as (s7 & E7 & P7 & _). exists s7. split; [done|].
  eapply paid_more; [exact (paid_trans _ _ _ _ _ _ _ P1 (paid_trans _ _ _ _ _ _ _ P2 (paid_trans _ _ _ _ _ _ _ P3 (paid_trans _ _ _ _ _ _ _ P4
    (paid_trans _ _ _ _ _ _ _ P5 (paid_trans _ _ _ _ _ _ _ P6 P7))))))|lia..].
Qed.

(** The calls of a transport that sends. *)
Definition sending (x : PacerEnv * PacerCall) : Prop :=
  x.1.(env_fec) = [] /\ Forall filling x.1.(env_padding) /\ Forall (fun t => t <= T) x.1.(env_clock)
  /\ match x.2 with CallProcessPackets | CallNextSendTime => True | CallEnqueuePacket p => fits p | _ => False end.

(** What is owed over several calls. *)
Record owed (n : Z) (s s' : PacingController) : Prop := {
  ow_flow : flow s';
  ow_out : exists os, s'.(out_) = s.(out_) ++ os /\ accounted n os s s';
}.
Lemma paid_owed k n s s' : paid k n s s' -> owed n s s'.
Proof. by intros [F H _ _ _]. Qed.
Lemma owed_trans n m s1 s2 s3 : owed n s1 s2 -> owed m s2 s3 -> owed (n + m) s1 s3.
Proof.
  intros [_ (o1 & E1 & H1)] [F (o2 & E2 & H2)]. split; [done|]. exists (o1 ++ o2). rewrite E2, E1, <- app_assoc. split; [done|].
  eapply accounted_trans; [|done|done]. apply flow_positive in F. lia.
Qed.
Lemma owed_eq n m s s' : owed n s s' -> n = m -> owed m s s'.
Proof. by intros ? <-. Qed.

Lemma supplied_flow e s : flow s -> e.(env_fec) = [] -> Forall filling e.(env_padding) -> Forall (fun t => t <= T) e.(env_clock) -> flow (supplied e s).
Proof.
  intros F Hf Hp Hc. pose proof (fl_clock s F) as [Ht _]. destruct F as [[] ? ? ? ? ? ? ? ?]. split; try done. split; try done; cbn; rewrite ?Hf; [done|].
  eapply Forall_impl; [exact Hp|]. intros l [_ Hl]. eapply Forall_impl; [exact Hl|]. by intros p (_ & _ & ?).
Qed.

Lemma calls_paid xs s : flow s -> Forall sending xs -> exists s', calls xs s = Some ((), s') /\ owed (zlen xs) s s'.
Proof.
  intros F Hx. revert s F. induction Hx as [|[e c] xs (Hf & Hp & Hc & Hk) Hx IH]; intros s F.
  { exists s. split; [done|]. by eapply paid_owed, paid_refl. }
  cbn [calls]. cbn [fst snd] in *. unfold mbind, P_bind at 1, supply, put. pose proof (supplied_flow e s F Hf Hp Hc) as F1.
  set (s1 := supplied e s) in *. assert (O1 : owed 0 s s1).
  { split; [done|]. exists []. rewrite app_nil_r. split; [done|]. apply accounted_silent; cbn; done || lia. }
  clearbody s1. unfold P_bind at 1.
  assert (H2 : exists s2, call c s1 = Some ((), s2) /\ owed 1 s1 s2).
  { destruct c; try done; cbn [call].
    - destruct (ProcessPackets_paid s1 F1) as (s2 & E2 & P2 & _). exists s2. split; [done|]. by eapply paid_owed.
    - destruct (EnqueuePacket_paid p s1 F1 Hk) as (s2 & E2 & P2). exists s2. split; [done|]. by eapply paid_owed.
    - destruct (NextSendTime_paid s1 F1) as (t & s2 & E2 & P2 & _). exists s2. unfold mbind, P_bind. rewrite E2. split; [done|].
      by eapply paid_owed, paid_more. }
  destruct H2 as (s2 & E2 & O2). rewrite E2. destruct (IH s2 (ow_flow _ _ _ O2)) as (s3 & E3 & O3). exists s3. split; [done|].
  eapply owed_eq; [exact (owed_trans _ _ _ _ _ O1 (owed_trans _ _ _ _ _ O2 O3))|]. unfold zlen. cbn. lia.
Qed.
End rate.

(** ** The transport's pacer *)

(** What [DataTransport::Init] calls; [padding] tells whether there is a stream to pad with. The clock stands still. *)
Definition setup (rate burst limit overhead : Z) (padding : bool) : list (PacerEnv * PacerCall) :=
  (fun c => (mkEnv [] [] [], c)) <$> [CallSetPacingRates rate 0; CallSetSendBurstInterval burst; CallSetQueueTimeLimit limit;
    CallSetAllowProbe padding; CallSetIncludeOverhead; CallSetTransportOverhead overhead].
(** [LowLatencyPacingConfiguration(true)] *)
Definition BoundedConfiguration : Configuration := DefaultConfiguration <| keyframe_flushing := false |> <| drain_large_queues := false |>.

(** The size of a packet as the pacer counts it, and the bytes of the packets it paces: neither audio nor padding. *)
Definition wire_size (overhead : Z) (p : Packet) : Z := td_add (p.(payload_size) + p.(padding_size)) (td_add p.(headers_size) overhead).
Definition paced_bytes (overhead : Z) (os : list PacerOut) : Z :=
  foldr (fun o n => (match o with SendPacket p _ => if paced p then wire_size overhead p else 0 | _ => 0 end) + n) 0 os.

(** What [DataTransport::GeneratePadding] returns: at most 16 packets of padding, of at most 255 bytes each. *)
Definition generates (overhead M : Z) (l : list Packet) : Prop :=
  zlen l <= 16 /\ Forall (fun p => p.(pk_type) = kPadding /\ 0 <= p.(payload_size) + p.(padding_size) <= 255 /\ 0 <= wire_size overhead p <= M) l.

(** Packets that are neither retransmissions nor padding and have at most [M] bytes; the clock does not pass [T]. *)
Definition sends_data (overhead M T : Z) (x : PacerEnv * PacerCall) : Prop :=
  x.1.(env_fec) = [] /\ Forall (generates overhead M) x.1.(env_padding) /\ Forall (fun t => t <= T) x.1.(env_clock)
  /\ match x.2 with
     | CallProcessPackets | CallNextSendTime => True
     | CallEnqueuePacket p => p.(pk_type) <> kRetransmission /\ p.(pk_type) <> kPadding /\ 0 <= wire_size overhead p <= M
     | _ => False
     end.

Lemma pacer_calls_app xs ys s s' x : calls xs s = Some ((), s') -> calls ys s' = x -> calls (xs ++ ys) s = x.
Proof.
  revert s. induction xs as [|[e c] xs IH]; intros s; cbn [app calls]; [by intros [= ->]|]. unfold mbind, P_bind.
  destruct (supply e s) as [[[] s1]|]; [|done]. destruct (call c s1) as [[[] s2]|]; [|done]. apply IH.
Qed.
Lemma pacer_calls_cons e c xs s s' x : call c (supplied e s) = Some ((), s') -> calls xs s' = x -> calls ((e, c) :: xs) s = x.
Proof. intros E <-. cbn [calls]. unfold mbind, P_bind, supply, put. by rewrite E. Qed.

(** The pacer during the setup. *)
Definition pacer_with (rate burst limit : Z) (padding include : bool) (overhead t : Z) : PacingController :=
  mkPacer BoundedConfiguration overhead burst t false 0 0 rate rate 0 (SetAllowProbeWithoutMediaPacket padding BitrateProber_new) false t t None false
    (PQ_new t false (mkTTL PlusInfinity PlusInfinity PlusInfinity)) false limit false include (Z.shiftl 1 16) [] [] [] [].

Lemma setup_runs rate burst limit overhead padding t : 0 < rate ->
  calls (setup rate burst limit overhead padding) (PacingController_new BoundedConfiguration t t) = Some ((), pacer_with rate burst limit padding true overhead t).
Proof.
  intros Hr. unfold setup. cbn [fmap list_fmap]. change (PacingController_new BoundedConfiguration t t) with (pacer_with 0 40000 2000000 false false 0 t).
  apply (pacer_calls_cons _ _ _ _ (pacer_with rate 40000 2000000 false false 0 t)).
  { cbn [call]. unfold SetPacingRates, mbind, P_bind, put, CurrentTime. destruct (Z.gtb_spec 0 rate) as [?|_]; [lia|].
    cbn. by rewrite Z.max_id. }
  apply (pacer_calls_cons _ _ _ _ (pacer_with rate burst 2000000 false false 0 t)); [reflexivity|].
  apply (pacer_calls_cons _ _ _ _ (pacer_with rate burst limit false false 0 t)); [reflexivity|].
  apply (pacer_calls_cons _ _ _ _ (pacer_with rate burst limit padding false 0 t)); [by destruct padding|].
  apply (pacer_calls_cons _ _ _ _ (pacer_with rate burst limit padding true 0 t)); [reflexivity|].
  by apply (pacer_calls_cons _ _ _ _ (pacer_with rate burst limit padding true overhead t)).
Qed.

(** What holds of the transport's pacer when it is set up. *)
Lemma setup_rate rate burst limit padding overhead M t T : 0 < rate <= 2 ^ 40 -> 0 < burst -> 0 <= M ->
  rate * burst + 4000000 + 8000000 * M <= rate * 500000 -> T <= 2 ^ 50 -> fixed_rate (pacer_with rate burst limit padding true overhead t) M T.
Proof. intros. split; done || (cbn; lia). Qed.
Lemma setup_flow rate burst limit padding overhead M t T : 0 < rate <= 2 ^ 40 -> 0 <= t <= T ->
  let z := pacer_with rate burst limit padding true overhead t in flow z M T z.
Proof.
  intros Hr Ht z. split.
  1: { split; [apply queue_new|apply Allow_ok, prober_new_ok|cbn; lia|constructor..]. }
  all: try reflexivity.
  - constructor.
  - cbn. change kMaxDebtInTime with 500000. destruct (data_per_time_spec rate 500000); lia.
  - cbn. lia.
  - cbn. split; [lia|constructor].
Qed.
Lemma generates_filling overhead M z l : (forall p, counted_size p z = wire_size overhead p) -> generates overhead M l -> filling z M l.
Proof.
  intros Hz [Hn Hl]. split; [done|]. eapply Forall_impl; [exact Hl|]. intros p (Hp & Hs & Hw). split; [done|]. split; [done|]. split; [by rewrite Hp|].
  by rewrite Hz.
Qed.

(** C28: the transport's pacer keeps its rate, with or without a stream to pad with. From its setup on, while the rate stays, there are no
    probes and the pacer is neither paused nor congested, whatever packets of at most [M] bytes are enqueued, no retransmissions, and however
    often it is polled, the bytes of the paced packets that left (neither audio nor the padding of the keep-alive, which comes after 500 ms of
    silence) are at most what the rate gives for the time that passed, one burst and one packet, but for half a byte that rounding may add at
    every call and every packet; and no packet is lost to a fault. The debt of 500 ms must have room for the burst and a packet. *)
Theorem pacer_keeps_rate rate burst limit overhead padding M t T xs :
  0 < rate <= 2 ^ 40 -> 0 < burst -> 0 <= M -> rate * burst + 4000000 + 8000000 * M <= rate * 500000 -> 0 <= t <= T -> T <= 2 ^ 50 ->
  Forall (sends_data overhead M T) xs ->
  exists s, calls (setup rate burst limit overhead padding ++ xs) (PacingController_new BoundedConfiguration t t) = Some ((), s)
    /\ 8000000 * paced_bytes overhead s.(out_)
       <= rate * (s.(last_timestamp_) - t) + rate * burst + 8000000 * M + 4000000 * (1 + zlen xs + sends s.(out_)).
Proof.
  intros Hr Hb HM Hroom Ht HT Hx. pose proof (setup_runs rate burst limit overhead padding t) as Ez.
  set (z := pacer_with rate burst limit padding true overhead t) in *.
  assert (Hcost : forall p, counted_size p z = wire_size overhead p) by done.
  pose proof (setup_rate rate burst limit padding overhead M t T Hr Hb HM Hroom HT) as R. fold z in R.
  pose proof (setup_flow rate burst limit padding overhead M t T Hr Ht) as F. cbv zeta in F. fold z in F.
  destruct (calls_paid z M T R xs z F) as (s & E & F' & os & Eos & Hn & Hl & _ & Hp).
  { eapply Forall_impl; [exact Hx|]. intros [e c] (H1 & H2 & H3 & H4). split; [done|]. split; [|split; [done|]].
    - eapply Forall_impl; [exact H2|]. intros l. by apply generates_filling.
    - cbn [snd] in *. destruct c; try done. destruct H4 as (? & _ & ?). by split; [|rewrite Hcost]. }
  exists s. split; [by eapply pacer_calls_app; [apply Ez; lia|]|]. change (out_ z) with (@nil PacerOut) in Eos. cbn [app] in Eos. rewrite Eos in *.
  change (paced_bytes overhead os) with (charged z os). pose proof (fl_last _ _ _ _ F') as Hl'.
  change (media_debt_ z) with 0 in *. change (last_process_time_ z) with t in *. change (pacing_rate_ z) with rate in *.
  unfold cap in Hp. change (pacing_rate_ z) with rate in Hp. change (send_burst_interval_ z) with burst in *. clear -Hp Hl Hl' Hr Hb HM Hn. nia.
Qed.

(** Five packets and a control message at 2 Mbit/s, polled three times, and the keep-alive, with a padding packet, after the silence. *)
Definition w_packet (n : Z) (t : RtpPacketMediaType) : Packet := mkPacket n 1 t None 1200 0 12 false false.
Definition w_padding : Packet := mkPacket 7 1 kPadding None 0 1 12 false false.
Definition w_at (t : Z) : PacerEnv := mkEnv [t] [] [[w_padding]].
Definition w_sending : list (PacerEnv * PacerCall) :=
  [(w_at 1000100, CallEnqueuePacket (w_packet 1 kVideo)); (w_at 1000100, CallEnqueuePacket (w_packet 2 kVideo));
   (w_at 1000200, CallEnqueuePacket (w_packet 3 kVideo)); (w_at 1000200, CallEnqueuePacket (w_packet 4 kVideo));
   (w_at 1000300, CallEnqueuePacket (w_packet 5 kVideo)); (w_at 1000400, CallProcessPackets);
   (w_at 1000500, CallEnqueuePacket (w_packet 6 kAudio)); (w_at 1000600, CallProcessPackets); (w_at 1600000, CallProcessPackets)].
Lemma w_sending_ok : Forall (sends_data 28 1240 2000000) w_sending.
Proof. repeat constructor; vm_compute; congruence. Qed.
Lemma pacer_keeps_rate_witness : Forall (sends_data 28 1240 2000000) w_sending /\ exists s,
  calls (setup 2000000 20000 400000 28 true ++ w_sending) (PacingController_new BoundedConfiguration 1000000 1000000) = Some ((), s)
  /\ 8000000 * paced_bytes 28 s.(out_)
     <= 2000000 * (s.(last_timestamp_) - 1000000) + 2000000 * 20000 + 8000000 * 1240 + 4000000 * (1 + zlen w_sending + sends s.(out_)).
Proof.
  split; [exact w_sending_ok|].
  apply (pacer_keeps_rate 2000000 20000 400000 28 true 1240 1000000 2000000 w_sending); [lia|lia|lia|lia|lia|lia|exact w_sending_ok].
Defined.
(** The burst lets the five out together; the control message and the keep-alive follow. *)
Example w_sending_out : (fun x => (fun o => match o with SendPacket p _ => p.(pk_id) | _ => 0 end) <$> x.2.(out_))
  <$> calls (setup 2000000 20000 400000 28 true ++ w_sending) (PacingController_new BoundedConfiguration 1000000 1000000)
  = Some [1; 2; 3; 4; 5; 0; 6; 0; 0; 7; 0].
Proof. vm_compute. reflexivity. Qed.
