(* ===== verification/PacedSender.v ===== *)
(** * The paced sender ([minirtc/src/transport/paced_sender/paced_sender.{h,cpp}])

    The pacer on its task queue: every call is a task there, and one delayed task keeps it going.  The tasks run
    one after another and nothing the sender calls comes back to it (the data transport posts), so a call
    is one step.  [Shutdown] may come from another thread at any moment: each reading of [is_shutdown_] takes
    the next element of the tape [stops_].  The loop of [MaybeProcessPackets] gets [fuel]; a call tells whether
    it came back.  The numbers that only the feedback adapter reads ([transport_seq_], capture times), the
    mutex of the statistics and the logs are left out. *)
From Stdlib Require Import SpecFloat.
From S2P Require Import Rtp.
From S2P Require Export Feedback PacerRate.
#[local] Open Scope Z_scope.

(** ** Definitions *)

(** *** The filter of the packet sizes, in binary32 ([common/rtc_base/numerics/exp_filter.{h,cc}]) *)

Record ExpFilter := mkFilter { alpha_ : float; filtered_ : float; max_ : float }.
Definition kValueUndefined : float := float_of (-1).
Definition ExpFilter_new (alpha : float) : ExpFilter := mkFilter alpha kValueUndefined kValueUndefined.
(** [Apply] with the exponent 1. *)
Definition Apply1 (sample : float) (f : ExpFilter) : ExpFilter :=
  let y := if SFeqb f.(filtered_) kValueUndefined then sample
           else SFadd 24 128 (fmul f.(alpha_) f.(filtered_)) (fmul (SFsub 24 128 (float_of 1) f.(alpha_)) sample) in
  let y := if negb (SFeqb f.(max_) kValueUndefined) && SFltb f.(max_) y then f.(max_) else y in
  mkFilter f.(alpha_) y f.(max_).
(** [DataSize::Bytes] of a float. *)
Definition size_of_float (x : float) : Z :=
  match x with S754_infinity s => if s then MinusInfinity else PlusInfinity | _ => ftrunc x end.

(** *** The sender *)

Record Stats := mkStats {
  oldest_packet_enqueue_time : Z; queue_size : Z; expected_queue_time : Z; first_sent_packet_time : option Z;
}.

(** What leaves: [on_sent_packet_func_] with the sequence number of the packet. *)
Record SentPacket := mkSentPacket { sent_packet : Packet; sent_info : PacedPacketInfo; sent_seq : Z }.

Record PacedSender := mkPaced {
  pacing_controller_ : PacingController; on_sent_set : bool; next_process_time_ : Z; is_started_ : bool; transport_ready_ : bool;
  is_shutdown_ : bool; packet_size_ : ExpFilter; ps_include_overhead_ : bool; current_stats_ : Stats; processing_packets_ : bool;
  ssrc_seq_ : gmap Z Z; delayed_ : list (Z * Z); queue_stopped : bool; stops_ : list bool; sent_ : list SentPacket;
}.
#[export] Instance eta_PacedSender : Eta PacedSender := fun s => mkPaced s.(pacing_controller_) s.(on_sent_set)
  s.(next_process_time_) s.(is_started_) s.(transport_ready_) s.(is_shutdown_) s.(packet_size_) s.(ps_include_overhead_)
  s.(current_stats_) s.(processing_packets_) s.(ssrc_seq_) s.(delayed_) s.(queue_stopped) s.(stops_) s.(sent_).

Definition max_hold_back_window_ : Z := Millis 5.
Definition max_hold_back_window_in_packets_ : Z := 3.
Definition kNoPacketHoldback : Z := -1.

(** [LowLatencyPacingConfiguration] *)
Definition LowLatencyPacingConfiguration (bounded_queue : bool) : Configuration :=
  DefaultConfiguration <| keyframe_flushing := false |> <| drain_large_queues := negb bounded_queue |>.
(** The constructor at the time [t]; 0.95 is the nearest float. *)
Definition PacedSender_new (bounded_video_queue : bool) (t : Z) : PacedSender :=
  mkPaced (PacingController_new (LowLatencyPacingConfiguration bounded_video_queue) t t) false MinusInfinity false false false
    (ExpFilter_new (fdiv (float_of 95) (float_of 100))) false (mkStats MinusInfinity 0 0 None) false ∅ [] false [] [].

(** *** Computations *)

Definition PS (A : Type) : Type := PacedSender -> option (A * PacedSender).
#[export] Instance PS_ret : MRet PS := fun _ a s => Some (a, s).
#[export] Instance PS_bind : MBind PS := fun _ _ k m s => match m s with Some (a, s) => k a s | None => None end.
Definition ps_get {A} (f : PacedSender -> A) : PS A := fun s => Some (f s, s).
Definition ps_put (f : PacedSender -> PacedSender) : PS () := fun s => Some ((), f s).
(** A call of the pacer. *)
Definition on_pacer {A} (m : P A) : PS A := fun s =>
  match m s.(pacing_controller_) with Some (a, p) => Some (a, s <| pacing_controller_ := p |>) | None => None end.
Fixpoint ps_for_each {A} (f : A -> PS ()) (l : list A) : PS () :=
  match l with [] => mret () | a :: l => _ ← f a; ps_for_each f l end.

(** [clock_->CurrentTime()], without the pacer's guard. *)
Definition read_clock : PS Z := on_pacer (fun p =>
  let '(t, clock) := read p.(last_timestamp_) p.(clock_) in Some (t, p <| clock_ := clock |>)).
(** [is_shutdown_.load()] *)
Definition load_shutdown : PS bool := fun s =>
  match s.(stops_) with
  | b :: l => let b := b || s.(is_shutdown_) in Some (b, s <| stops_ := l |> <| is_shutdown_ := b |>)
  | [] => Some (s.(is_shutdown_), s)
  end.

(** *** Sending *)

(** The next number of the packets of an SSRC. *)
Definition next_seq (ssrc : Z) (m : gmap Z Z) : Z := default 1 (m !! ssrc).

(** [SendPacket] *)
Definition ps_SendPacket (p : Packet) (info : PacedPacketInfo) : PS () :=
  down ← load_shutdown;
  if down : bool then mret () else
  ps_put (fun s =>
    if s.(on_sent_set) then
      let seq := next_seq p.(pk_ssrc) s.(ssrc_seq_) in
      s <| ssrc_seq_ ::= <[p.(pk_ssrc) := u16 (seq + 1)]> |> <| sent_ ::= fun l => l ++ [mkSentPacket p info seq] |>
    else s).
Definition hand_over (o : PacerOut) : PS () :=
  match o with SendPacket p info => ps_SendPacket p info | _ => mret () end.

(** [pacing_controller_.ProcessPackets()], with the calls it makes of the sender. *)
Definition ps_ProcessPackets : PS () :=
  n ← ps_get (fun s => length s.(pacing_controller_).(out_));
  _ ← on_pacer ProcessPackets;
  outs ← ps_get (fun s => drop n s.(pacing_controller_).(out_));
  ps_for_each hand_over outs.

Definition UpdateStats : PS () :=
  t ← on_pacer ExpectedQueueTime;
  size ← on_pacer QueueSizeData;
  ps_put (fun s => s <| current_stats_ := mkStats (OldestEnqueueTime s.(pacing_controller_).(packet_queue_)) size t
                                           s.(pacing_controller_).(first_sent_packet_time_) |>).

(** *** [MaybeProcessPackets] *)

Definition early_execute_margin (s : PacedSender) : Z :=
  if is_probing s.(pacing_controller_).(prober_) then kMaxEarlyProbeProcessing else 0.

(** The loop: what [next_send_time] is when it ends, unless it runs out of fuel. *)
Fixpoint process_loop (fuel : nat) (now next_send_time : Z) : PS (option Z) :=
  match fuel with
  | O => mret None
  | S fuel =>
      down ← load_shutdown;
      margin ← ps_get early_execute_margin;
      if negb down && (next_send_time <=? td_add now margin) then
        _ ← ps_ProcessPackets;
        next_send_time ← on_pacer NextSendTime;
        process_loop fuel now next_send_time
      else mret (Some next_send_time)
  end.

Definition hold_back_window (s : PacedSender) : option Z :=
  if is_probing s.(pacing_controller_).(prober_) then Some 0 else
  let pacing_rate := s.(pacing_controller_).(adjusted_media_rate_) in
  if negb (max_hold_back_window_in_packets_ =? kNoPacketHoldback) && negb (pacing_rate =? 0)
     && negb (SFeqb s.(packet_size_).(filtered_) kValueUndefined) then
    avg_packet_send_time ← time_for_size (size_of_float s.(packet_size_).(filtered_)) pacing_rate;
    Some (Z.min max_hold_back_window_ (td_mul avg_packet_send_time max_hold_back_window_in_packets_))
  else Some max_hold_back_window_.

Definition RoundUpTo (t resolution : Z) : Z := i64 (Z.quot (i64 (t + resolution - 1)) resolution * resolution).

(** The next delayed task. *)
Definition schedule (now next_send_time : Z) : PS () := fun s =>
  hold_back ← hold_back_window s;
  let t := Z.max hold_back (td_sub (td_sub next_send_time now) (early_execute_margin s)) in
  let t := if IsInfinite t || (t >? kPausedProcessInterval) then kPausedProcessInterval else t in
  let next_send_time := td_add now t in
  Some ((), if (IsMinusInfinity s.(next_process_time_) || (s.(next_process_time_) >? next_send_time)) && negb s.(queue_stopped)
            then s <| delayed_ ::= fun l => l ++ [(next_send_time, RoundUpTo t (Millis 1))] |> <| next_process_time_ := next_send_time |>
            else s).

(** Whether the call came back. *)
Definition MaybeProcessPackets (fuel : nat) (scheduled_process_time : Z) : PS bool :=
  down ← load_shutdown;
  s ← ps_get id;
  if down || negb s.(is_started_) || negb s.(transport_ready_) then mret true else
  if IsFinite scheduled_process_time && negb (scheduled_process_time =? s.(next_process_time_)) then mret true else
  _ ← (if IsFinite scheduled_process_time then ps_put (fun s => s <| next_process_time_ := MinusInfinity |>) else mret ());
  _ ← ps_put (fun s => s <| processing_packets_ := true |>);
  next_send_time ← on_pacer NextSendTime;
  now ← read_clock;
  end_time ← process_loop fuel now next_send_time;
  match end_time with
  | None => mret false
  | Some next_send_time =>
      down ← load_shutdown;
      _ ← (if down : bool then mret () else _ ← UpdateStats; schedule now next_send_time);
      _ ← ps_put (fun s => s <| processing_packets_ := false |>);
      mret true
  end.

Definition MaybeScheduleProcessPackets (fuel : nat) : PS bool :=
  processing ← ps_get processing_packets_;
  if processing : bool then mret true else MaybeProcessPackets fuel MinusInfinity.

(** *** Calls *)

Definition EnqueuePacketOnQueue (p : Packet) : PS () :=
  _ ← ps_put (fun s =>
    let packet_size := p.(payload_size) + p.(padding_size) + (if s.(ps_include_overhead_) then p.(headers_size) else 0) in
    s <| packet_size_ ::= Apply1 (float_of packet_size) |>);
  on_pacer (EnqueuePacket p).

Definition ps_SetTransportReady (ready : bool) : PS () :=
  _ ← ps_put (fun s => s <| transport_ready_ := ready |>);
  if ready then on_pacer Resume else
  _ ← on_pacer Pacer_AbortProbing;
  _ ← on_pacer Pause;
  ps_put (fun s => s <| next_process_time_ := MinusInfinity |>).

(** The delayed tasks without one that has the id [t], if there is one. *)
Fixpoint take_task (t : Z) (l : list (Z * Z)) : option (list (Z * Z)) :=
  match l with
  | [] => None
  | e :: l => if e.1 =? t then Some l else cons e <$> take_task t l
  end.

Inductive SenderCall :=
| PsSetOnSentPacketFunc | PsSetSendBurstInterval (t : Z) | PsSetAllowProbe (b : bool) | PsSetTransportReady (ready : bool) | PsEnsureStarted
| PsCreateProbeClusters (l : list ProbeClusterConfig) | PsPause | PsResume | PsSetCongested (b : bool) | PsSetPacingRates (pacing padding : Z)
| PsEnqueuePackets (l : list Packet) | PsRemovePackets (ssrc : Z) | PsSetAccountForAudio (b : bool) | PsSetIncludeOverhead
| PsSetTransportOverhead (n : Z) | PsSetQueueTimeLimit (t : Z) | PsDelayed (t : Z) | PsShutdown | PsQueueStops.

(** The tasks; [EnqueuePacket] is [EnqueuePackets] of one.  Of the delayed tasks any that was posted may run. *)
Definition ps_call (fuel : nat) (c : SenderCall) : PS bool :=
  let process := MaybeProcessPackets fuel MinusInfinity in
  match c with
  | PsSetOnSentPacketFunc => _ ← ps_put (fun s => s <| on_sent_set := true |>); mret true
  | PsSetSendBurstInterval t => _ ← on_pacer (call (CallSetSendBurstInterval t)); mret true
  | PsSetAllowProbe b => _ ← on_pacer (Pacer_SetAllowProbeWithoutMediaPacket b); MaybeScheduleProcessPackets fuel
  | PsSetTransportReady ready => _ ← ps_SetTransportReady ready; mret true
  | PsEnsureStarted => _ ← ps_put (fun s => s <| is_started_ := true |>); process
  | PsCreateProbeClusters l =>
      ready ← ps_get transport_ready_;
      if negb ready then mret true else _ ← on_pacer (CreateProbeClusters l); MaybeScheduleProcessPackets fuel
  | PsPause => _ ← on_pacer Pause; mret true
  | PsResume => _ ← on_pacer Resume; process
  | PsSetCongested b => _ ← on_pacer (SetCongested b); MaybeScheduleProcessPackets fuel
  | PsSetPacingRates r p => _ ← on_pacer (SetPacingRates r p); MaybeScheduleProcessPackets fuel
  | PsEnqueuePackets l => _ ← ps_for_each EnqueuePacketOnQueue l; process
  | PsRemovePackets ssrc => _ ← on_pacer (Pacer_RemovePacketsForSsrc ssrc); process
  | PsSetAccountForAudio b => _ ← on_pacer (call (CallSetAccountForAudio b)); process
  | PsSetIncludeOverhead =>
      _ ← ps_put (fun s => s <| ps_include_overhead_ := true |>); _ ← on_pacer (call CallSetIncludeOverhead); process
  | PsSetTransportOverhead n => _ ← on_pacer (SetTransportOverhead n); process
  | PsSetQueueTimeLimit t => _ ← on_pacer (call (CallSetQueueTimeLimit t)); process
  | PsDelayed t =>
      tasks ← ps_get (fun s => take_task t s.(delayed_));
      match tasks with
      | Some tasks => _ ← ps_put (fun s => s <| delayed_ := tasks |>); MaybeProcessPackets fuel t
      | None => mret true
      end
  | PsShutdown => _ ← ps_put (fun s => s <| is_shutdown_ := true |>); mret true
  | PsQueueStops => _ ← ps_put (fun s => s <| queue_stopped := true |>); mret true
  end.

(** The RTP packets of the transport with their payload types: the traffic of the reliable streams is not paced. *)
Definition packet_type (payload_type : Z) : RtpPacketMediaType := if payload_type =? PAYLOAD_KCP then kAudio else kVideo.
Definition EnqueueRtpPackets (rtp_packets : list (Z * Packet)) : SenderCall :=
  PsEnqueuePackets ((fun '(pt, p) => mkPacket p.(pk_id) p.(pk_ssrc) (packet_type pt) p.(pk_original) p.(payload_size)
    p.(padding_size) p.(headers_size) p.(is_key_frame) p.(is_first_packet_of_frame)) <$> rtp_packets).
(** With the answer; a sender that is shut down takes none. *)
Definition EnqueueRtpPacket (shutdown : bool) (rtp_packet : Packet) : Z * option SenderCall :=
  if shutdown then (-1, None) else (0, Some (PsEnqueuePackets [rtp_packet])).

(** What the environment does before a call. *)
Definition ps_supply (e : PacerEnv) (stops : list bool) : PS () :=
  _ ← on_pacer (supply e); ps_put (fun s => s <| stops_ := stops |>).
Fixpoint ps_calls (fuel : nat) (xs : list (PacerEnv * list bool * SenderCall)) : PS bool :=
  match xs with
  | [] => mret true
  | (e, stops, c) :: xs =>
      _ ← ps_supply e stops;
      back ← ps_call fuel c;
      if back : bool then ps_calls fuel xs else mret false
  end.

(** *** What can be asked *)

Definition ps_ExpectedQueueTime (s : PacedSender) : Z := s.(current_stats_).(expected_queue_time).
Definition ps_QueueSizeData (s : PacedSender) : Z := s.(current_stats_).(queue_size).
Definition ps_FirstSentPacketTime (s : PacedSender) : option Z := s.(current_stats_).(first_sent_packet_time).
Definition OldestPacketWaitTime (current : Z) (s : PacedSender) : Z :=
  let oldest := s.(current_stats_).(oldest_packet_enqueue_time) in
  if IsInfinite oldest then 0 else if current <? oldest then 0 else td_sub current oldest.
