(* ===== verification/PacedSenderProofs.v ===== *)
(** * What the paced sender promises ([minirtc/src/transport/paced_sender/paced_sender.cpp])

    The numbers of the packets follow their order on the wire; once started, the sender always has a delayed task that wakes it
    within 500 ms; and with the pacer of a data transport every call comes back. *)
From S2P Require Export PacedSender.
#[local] Open Scope Z_scope.

(** ** Computations *)

(** If the computation comes to an end, [Q] holds. *)
Definition after {A} (m : PS A) (Q : A -> PacedSender -> Prop) (s : PacedSender) : Prop :=
  forall a s', m s = Some (a, s') -> Q a s'.

Lemma after_bind {A B} (m : PS A) (k : A -> PS B) Q s : after m (fun a s' => after (k a) Q s') s -> after (m ≫= k) Q s.
Proof. intros H b s' E. unfold mbind, PS_bind in E. destruct (m s) as [[a s1]|] eqn:E1; [|done]. by eapply H. Qed.
Lemma after_ret {A} (a : A) (Q : A -> PacedSender -> Prop) s : Q a s -> after (mret a) Q s.
Proof. by intros H b s' [= <- <-]. Qed.
Lemma after_get {A} (f : PacedSender -> A) (Q : A -> PacedSender -> Prop) s : Q (f s) s -> after (ps_get f) Q s.
Proof. by intros H b s' [= <- <-]. Qed.
Lemma after_put f (Q : () -> PacedSender -> Prop) s : Q () (f s) -> after (ps_put f) Q s.
Proof. by intros H b s' [= <- <-]. Qed.
Lemma after_mono {A} (m : PS A) (Q Q' : A -> PacedSender -> Prop) s : after m Q s -> (forall a s', Q a s' -> Q' a s') -> after m Q' s.
Proof. intros H HQ a s' E. by apply HQ, H. Qed.
Lemma after_pacer {A} (m : P A) (Q : A -> PacedSender -> Prop) s :
  (forall a p, m s.(pacing_controller_) = Some (a, p) -> Q a (s <| pacing_controller_ := p |>)) -> after (on_pacer m) Q s.
Proof. intros H a s' E. unfold on_pacer in E. destruct (m _) as [[a' p]|] eqn:E1; [|done]. injection E as <- <-. by apply H. Qed.

(** A relation that is kept by all that a computation does. *)
Section relation.
Context (Rel : PacedSender -> PacedSender -> Prop) `{!PreOrder Rel}.
Definition obeys {A} (m : PS A) : Prop := forall s, after m (fun _ s' => Rel s s') s.

Lemma obeys_bind {A B} (m : PS A) (k : A -> PS B) : obeys m -> (forall a, obeys (k a)) -> obeys (m ≫= k).
Proof.
  intros Hm Hk s. apply after_bind. eapply after_mono; [apply Hm|]. cbn. intros a s1 H1. eapply after_mono; [apply Hk|]. cbn. intros b s2 H2. by etrans.
Qed.
Lemma obeys_ret {A} (a : A) : obeys (mret a).
Proof. intros s. by apply after_ret. Qed.
Lemma obeys_get {A} (f : PacedSender -> A) : obeys (ps_get f).
Proof. intros s. by apply after_get. Qed.
Lemma obeys_put f : (forall s, Rel s (f s)) -> obeys (ps_put f).
Proof. intros H s. by apply after_put. Qed.
Lemma obeys_if {A} (b : bool) (m m' : PS A) : obeys m -> obeys m' -> obeys (if b then m else m').
Proof. by destruct b. Qed.
Lemma obeys_for_each {A} (f : A -> PS ()) l : (forall a, obeys (f a)) -> obeys (ps_for_each f l).
Proof. intros H. induction l; [apply obeys_ret|]. by apply obeys_bind. Qed.
End relation.

(** *** What changes only where it is meant to *)

(** The schedule stays; a shutdown is for good. *)
Record alike (s s' : PacedSender) : Prop := {
  al_next : s'.(next_process_time_) = s.(next_process_time_);
  al_delayed : s'.(delayed_) = s.(delayed_);
  al_started : s'.(is_started_) = s.(is_started_);
  al_ready : s'.(transport_ready_) = s.(transport_ready_);
  al_stopped : s'.(queue_stopped) = s.(queue_stopped);
  al_down : s.(is_shutdown_) = true -> s'.(is_shutdown_) = true;
}.
#[export] Instance alike_preorder : PreOrder alike.
Proof.
  split.
  - intros s. split; [done..|auto].
  - intros s1 s2 s3 [] []. split; [congruence..|auto].
Qed.

(** Each SSRC's packets have the numbers 1, 2, ... modulo 2^16, in the order in which they are sent. *)
Definition of_ssrc (ssrc : Z) (l : list SentPacket) : list SentPacket := List.filter (fun p => p.(sent_packet).(pk_ssrc) =? ssrc) l.
Definition numbers (n : nat) : list Z := (fun i => u16 (1 + Z.of_nat i)) <$> seq 0 n.
Definition numbered_sent (s : PacedSender) : Prop := forall ssrc,
  sent_seq <$> of_ssrc ssrc s.(sent_) = numbers (length (of_ssrc ssrc s.(sent_)))
  /\ next_seq ssrc s.(ssrc_seq_) = u16 (1 + zlen (of_ssrc ssrc s.(sent_))).
Definition keeps_numbers (s s' : PacedSender) : Prop := numbered_sent s -> numbered_sent s'.
#[export] Instance keeps_numbers_preorder : PreOrder keeps_numbers.
Proof.
  split.
  - by intros s H.
  - intros s1 s2 s3 H1 H2 H. by apply H2, H1.
Qed.

Section both.
(** Both relations hold for all that does not touch what they look at. *)
Context (Rel : PacedSender -> PacedSender -> Prop) `{!PreOrder Rel}.
Context (Rel_pacer : forall s p, Rel s (s <| pacing_controller_ := p |>)).
Context (Rel_down : forall s l (b : bool), (s.(is_shutdown_) = true -> b = true) -> Rel s (s <| stops_ := l |> <| is_shutdown_ := b |>)).
Context (Rel_send : forall p info, obeys Rel (ps_put (fun s =>
    if s.(on_sent_set) then
      let seq := next_seq p.(pk_ssrc) s.(ssrc_seq_) in
      s <| ssrc_seq_ ::= <[p.(pk_ssrc) := u16 (seq + 1)]> |> <| sent_ ::= fun l => l ++ [mkSentPacket p info seq] |>
    else s))).
Context (Rel_stats : forall s st, Rel s (s <| current_stats_ := st |>)).
Context (Rel_processing : forall s b, Rel s (s <| processing_packets_ := b |>)).

Lemma on_pacer_obeys {A} (m : P A) : obeys Rel (on_pacer m).
Proof. intros s. apply after_pacer. intros a p _. apply Rel_pacer. Qed.
Lemma load_shutdown_obeys : obeys Rel load_shutdown.
Proof.
  intros s a s' E. unfold load_shutdown in E. destruct (stops_ s) as [|b l]; injection E as <- <-; [done|].
  apply Rel_down. intros ->. apply orb_true_r.
Qed.
Lemma process_obeys : obeys Rel ps_ProcessPackets.
Proof.
  unfold ps_ProcessPackets. apply obeys_bind; [done|by apply obeys_get|]. intros n. apply obeys_bind; [done|apply on_pacer_obeys|]. intros _.
  apply obeys_bind; [done|by apply obeys_get|]. intros outs. apply obeys_for_each; [done|]. intros o. destruct o; [|by apply obeys_ret..].
  cbn. unfold ps_SendPacket. apply obeys_bind; [done|apply load_shutdown_obeys|]. intros b. apply obeys_if; [by apply obeys_ret|apply Rel_send].
Qed.
Lemma loop_obeys fuel now next : obeys Rel (process_loop fuel now next).
Proof.
  revert next. induction fuel as [|fuel IH]; intros next; [by apply obeys_ret|]. cbn [process_loop].
  apply obeys_bind; [done|apply load_shutdown_obeys|]. intros b. apply obeys_bind; [done|by apply obeys_get|]. intros m.
  apply obeys_if; [|by apply obeys_ret]. apply obeys_bind; [done|apply process_obeys|]. intros _.
  apply obeys_bind; [done|apply on_pacer_obeys|done].
Qed.
Lemma stats_obeys : obeys Rel UpdateStats.
Proof.
  unfold UpdateStats. apply obeys_bind; [done|apply on_pacer_obeys|]. intros t. apply obeys_bind; [done|apply on_pacer_obeys|]. intros n.
  by apply obeys_put.
Qed.
End both.

(** *** The numbers of the packets *)

Lemma of_ssrc_app ssrc a b : of_ssrc ssrc (a ++ b) = of_ssrc ssrc a ++ of_ssrc ssrc b.
Proof. apply List.filter_app. Qed.
Lemma numbers_S n : numbers (S n) = numbers n ++ [u16 (1 + Z.of_nat n)].
Proof. unfold numbers. by rewrite seq_S, fmap_app. Qed.
Lemma u16_succ n : u16 (u16 n + 1) = u16 (n + 1).
Proof. unfold u16. by rewrite Zplus_mod_idemp_l. Qed.

Lemma next_seq_insert ssrc k v m : next_seq ssrc (<[k := v]> m) = if k =? ssrc then v else next_seq ssrc m.
Proof.
  unfold next_seq. destruct (Z.eqb_spec k ssrc) as [->|Hn]; [by rewrite lookup_insert_eq|by rewrite lookup_insert_ne].
Qed.

Lemma send_keeps_numbers p info : obeys keeps_numbers (ps_put (fun s =>
    if s.(on_sent_set) then
      let seq := next_seq p.(pk_ssrc) s.(ssrc_seq_) in
      s <| ssrc_seq_ ::= <[p.(pk_ssrc) := u16 (seq + 1)]> |> <| sent_ ::= fun l => l ++ [mkSentPacket p info seq] |>
    else s)).
Proof.
  apply obeys_put. intros s H ssrc. destruct (on_sent_set s); [|apply H]. cbv zeta. cbn [sent_ ssrc_seq_ upd_field]. destruct (H ssrc) as [H1 H2].
  change (sent_ (_ <| sent_ ::= _ |>)) with (sent_ s ++ [mkSentPacket p info (next_seq (pk_ssrc p) (ssrc_seq_ s))]).
  change (ssrc_seq_ (_ <| sent_ ::= _ |>)) with (<[pk_ssrc p := u16 (next_seq (pk_ssrc p) (ssrc_seq_ s) + 1)]> (ssrc_seq_ s)).
  rewrite of_ssrc_app. unfold of_ssrc at 2 4 6. cbn [List.filter sent_packet]. rewrite next_seq_insert. destruct (Z.eqb_spec (pk_ssrc p) ssrc) as [->|Hn].
  - rewrite H2, fmap_app, H1, length_app. cbn [fmap list_fmap length sent_seq default]. rewrite Nat.add_1_r, numbers_S.
    split; [done|]. rewrite u16_succ. unfold zlen. rewrite length_app. cbn [length]. f_equal. lia.
  - by rewrite !app_nil_r.
Qed.

Lemma put_keeps_numbers f : (forall s, sent_ (f s) = sent_ s /\ ssrc_seq_ (f s) = ssrc_seq_ s) -> obeys keeps_numbers (ps_put f).
Proof. intros H. apply obeys_put. intros s Hn. unfold numbered_sent. by destruct (H s) as [-> ->]. Qed.
Lemma schedule_keeps_numbers now next : obeys keeps_numbers (schedule now next).
Proof.
  intros s [] s' E. unfold schedule in E. unfold mbind, option_bind in E. destruct (hold_back_window s) as [h|]; [|done].
  injection E as <-. destruct (_ && _); by intros H.
Qed.

(** The steps of a computation, one after the other. *)
Create HintDb obey discriminated.
#[export] Hint Resolve obeys_ret obeys_get obeys_for_each obeys_if : obey.
Ltac obey :=
  repeat first
    [ apply obeys_bind; [typeclasses eauto| |intros ?] | apply obeys_ret; typeclasses eauto | apply obeys_get; typeclasses eauto
    | apply obeys_for_each; [typeclasses eauto|intros ?] | solve [eauto with obey] | case_match ].

Section numbers.
Notation keeps := (obeys keeps_numbers).
Lemma pacer_numbers {A} (m : P A) : keeps (on_pacer m).
Proof. apply on_pacer_obeys. by intros s p H. Qed.
Lemma down_numbers : keeps load_shutdown.
Proof. apply load_shutdown_obeys; [apply _|]. by intros s l b _ H. Qed.
Lemma loop_numbers fuel now next : keeps (process_loop fuel now next).
Proof.
  apply loop_obeys; [apply _|by intros s p H|by intros s l b _ H|apply send_keeps_numbers].
Qed.
Lemma stats_numbers : keeps UpdateStats.
Proof. apply stats_obeys; [apply _|by intros s p H|by intros s st H]. Qed.
#[local] Hint Resolve pacer_numbers down_numbers loop_numbers stats_numbers schedule_keeps_numbers : obey.
#[local] Hint Extern 2 (obeys keeps_numbers (ps_put _)) => (apply put_keeps_numbers; intros ?; split; reflexivity) : obey.

Lemma MaybeProcess_numbers fuel t : keeps (MaybeProcessPackets fuel t).
Proof. unfold MaybeProcessPackets. obey. Qed.
#[local] Hint Resolve MaybeProcess_numbers : obey.
Lemma MaybeSchedule_numbers fuel : keeps (MaybeScheduleProcessPackets fuel).
Proof. unfold MaybeScheduleProcessPackets. obey. Qed.
#[local] Hint Resolve MaybeSchedule_numbers : obey.
Lemma call_numbers fuel c : keeps (ps_call fuel c).
Proof. destruct c; unfold ps_call, ps_SetTransportReady, EnqueuePacketOnQueue; obey. Qed.
#[local] Hint Resolve call_numbers : obey.
Lemma calls_numbers fuel xs : keeps (ps_calls fuel xs).
Proof. induction xs as [|[[e l] c] xs IH]; cbn [ps_calls]; unfold ps_supply; obey. Qed.
End numbers.

(** ** The loop ends *)

(** The computation comes to an end, with [Q]. *)
Definition gives {A} (m : PS A) (Q : A -> PacedSender -> Prop) (s : PacedSender) : Prop := exists a s', m s = Some (a, s') /\ Q a s'.

Lemma gives_bind {A B} (m : PS A) (k : A -> PS B) Q s : gives m (fun a s' => gives (k a) Q s') s -> gives (m ≫= k) Q s.
Proof. intros (a & s1 & E & b & s2 & E2 & H). exists b, s2. unfold mbind, PS_bind. by rewrite E. Qed.
Lemma gives_ret {A} (a : A) (Q : A -> PacedSender -> Prop) s : Q a s -> gives (mret a) Q s.
Proof. by exists a, s. Qed.
Lemma gives_get {A} (f : PacedSender -> A) (Q : A -> PacedSender -> Prop) s : Q (f s) s -> gives (ps_get f) Q s.
Proof. by exists (f s), s. Qed.
Lemma gives_put f (Q : () -> PacedSender -> Prop) s : Q () (f s) -> gives (ps_put f) Q s.
Proof. by exists (), (f s). Qed.
Lemma gives_mono {A} (m : PS A) (Q Q' : A -> PacedSender -> Prop) s : gives m Q s -> (forall a s', Q a s' -> Q' a s') -> gives m Q' s.
Proof. intros (a & s' & E & H) HQ. exists a, s'. auto. Qed.
Lemma gives_pacer {A} (m : P A) (Q : A -> PacedSender -> Prop) s a p :
  m s.(pacing_controller_) = Some (a, p) -> Q a (s <| pacing_controller_ := p |>) -> gives (on_pacer m) Q s.
Proof. intros E H. exists a, (s <| pacing_controller_ := p |>). unfold on_pacer. by rewrite E. Qed.
Lemma gives_down (Q : bool -> PacedSender -> Prop) s :
  (forall b s', s'.(pacing_controller_) = s.(pacing_controller_) -> Q b s') -> gives load_shutdown Q s.
Proof. intros H. unfold gives, load_shutdown. destruct (stops_ s) as [|b l]; eexists _, _; (split; [done|]); by apply H. Qed.

(** What the packets do at the sender leaves the pacer alone. *)
Lemma hand_over_gives outs (Q : () -> PacedSender -> Prop) s :
  (forall s', s'.(pacing_controller_) = s.(pacing_controller_) -> Q () s') -> gives (ps_for_each hand_over outs) Q s.
Proof.
  revert s. induction outs as [|o outs IH]; intros s H; [by apply gives_ret, H|]. cbn [ps_for_each]. apply gives_bind.
  assert (Ho : forall Q', (forall s', s'.(pacing_controller_) = s.(pacing_controller_) -> Q' () s') -> gives (hand_over o) Q' s).
  { intros Q' HQ. destruct o; [|by apply gives_ret, HQ..]. cbn [hand_over]. unfold ps_SendPacket. apply gives_bind, gives_down. intros b s1 E1.
    destruct b; [by apply gives_ret, HQ|]. apply gives_put, HQ. by destruct (on_sent_set s1). }
  apply Ho. intros s1 E1. apply IH. intros s2 E2. apply H. congruence.
Qed.
Lemma process_gives (Q : () -> PacedSender -> Prop) s p : ProcessPackets s.(pacing_controller_) = Some ((), p) ->
  (forall s', s'.(pacing_controller_) = p -> Q () s') -> gives ps_ProcessPackets Q s.
Proof.
  intros E H. unfold ps_ProcessPackets. apply gives_bind, gives_get, gives_bind. eapply gives_pacer; [exact E|]. apply gives_bind, gives_get.
  by apply hand_over_gives.
Qed.

Section rate.
Context (z : PacingController) (M T : Z) (R : fixed_rate z M T) (Hbreaker : 0 < z.(circuit_breaker_threshold_)).
Notation pc := pacing_controller_.
Notation flow := (flow z M T).
Notation paid := (paid z M T).

Record sender_flow (s : PacedSender) : Prop := {
  sf_flow : flow (pc s);
  sf_sorted : Sorted Z.le (pc s).(clock_);
  sf_fresh : fresh 0 (pc s);
}.
(** The pacer went on, and at most [k] packets are new. *)
Definition went (k : Z) (s s' : PacedSender) : Prop := exists n, paid k n (pc s) (pc s').

Lemma went_refl s : sender_flow s -> went 0 s s.
Proof. intros H. exists 0. apply paid_refl, H. Qed.
Lemma went_trans k l s1 s2 s3 : went k s1 s2 -> went l s2 s3 -> went (k + l) s1 s3.
Proof. intros [n H1] [m H2]. exists (n + m). by eapply paid_trans. Qed.
Lemma went_flow k s s' : sender_flow s -> went k s s' -> sender_flow s'.
Proof. intros [F Hs Hf] [n [F' _ _ _ [H1 H2]]]. split; auto. Qed.
Lemma went_waits k s s' : went k s s' -> waits (pc s') <= waits (pc s) + k.
Proof. by intros [n [_ _ H _ _]]. Qed.

Lemma waits_nonneg p : flow p -> 0 <= waits p.
Proof. intros F. destruct (pi_queue _ p (fl_ok _ _ _ p F)) as (_ & t & Rf & _). unfold waits. rewrite (queue_waiting _ t Rf). unfold zlen. lia. Qed.

(** A round of the loop that is due takes a packet, or ends a silence of the sender or of the budget. *)
Definition work (lo : Z) (p : PacingController) : Z :=
  waits p + Z.b2z (p.(last_send_time_) + 500000 <=? lo) + Z.b2z (p.(last_process_time_) + 500000 <=? lo).

Lemma work_nonneg lo p : flow p -> 0 <= work lo p <= waits p + 2.
Proof. intros F%waits_nonneg. unfold work. destruct (_ <=? _), (_ <=? _); cbn; lia. Qed.

(** What is left to do: nothing when nothing is due. *)
Definition todo (lo : Z) (p : PacingController) : Z := if next_time z p <=? lo then work lo p else 0.
Lemma todo_nonneg lo p : flow p -> 0 <= todo lo p.
Proof. intros F. pose proof (work_nonneg lo p F). unfold todo. destruct (_ <=? _); lia. Qed.
Lemma todo_work lo p : flow p -> todo lo p <= work lo p.
Proof. intros F. pose proof (work_nonneg lo p F). unfold todo. destruct (_ <=? _); lia. Qed.

Lemma work_done lo p p' n : flow p -> next_time z p <= lo -> progress z lo p p' -> paid 0 n p p' -> todo lo p' < work lo p.
Proof.
  intros F Hn [Hs He Ht] P. pose proof (paid_waits _ _ _ _ _ _ P) as Hw. pose proof (pd_time _ _ _ _ _ _ _ P) as [Hl _].
  pose proof (waits_nonneg p F) as Hp. pose proof (work_nonneg lo p' (pd_flow _ _ _ _ _ _ _ P)) as Hp'.
  enough (work lo p' < work lo p \/ (lo < next_time z p' /\ 0 < work lo p)).
  { unfold todo. destruct (Z.leb_spec (next_time z p') lo); lia. }
  clear Hp'. unfold work, recent in *. destruct (Z.leb_spec (last_send_time_ p' + 500000) lo); [lia|]. cbn [Z.b2z].
  assert (Hm : Z.b2z (last_process_time_ p' + 500000 <=? lo) <= Z.b2z (last_process_time_ p + 500000 <=? lo)).
  { destruct (Z.leb_spec (last_process_time_ p' + 500000) lo), (Z.leb_spec (last_process_time_ p + 500000) lo); cbn; lia. }
  destruct (Z.leb_spec (last_send_time_ p + 500000) lo) as [?|Hrec]; cbn [Z.b2z]; [left; lia|].
  destruct (Empty (packet_queue_ p)) eqn:Ee.
  2: { assert (0 < waits p) by (unfold waits, Empty, SizeInPackets in *; lia). destruct (Ht Hn ltac:(lia) eq_refl); [left; lia|right].
       split; [done|]. destruct (last_process_time_ p + 500000 <=? lo); cbn [Z.b2z]; lia. }
  left. specialize (He eq_refl). destruct (Z.leb_spec (last_process_time_ p' + 500000) lo); [lia|].
  rewrite (next_time_empty _ _ _ p F Ee) in Hn. unfold paced_time, wait_for in Hn. rewrite Ee in Hn.
  destruct (Z.leb_spec (last_process_time_ p + 500000) lo); cbn [Z.b2z]; [lia|]. destruct (seen_first_packet_ p); lia.
Qed.

Lemma work_same lo p p' : core p' = core p -> p'.(last_process_time_) = p.(last_process_time_) -> p'.(last_send_time_) = p.(last_send_time_) ->
  work lo p' = work lo p.
Proof. intros Ec El Es. unfold work. by rewrite (core_waits _ _ Ec), El, Es. Qed.
Lemma lo_small lo s : sender_flow s -> 0 <= lo -> fresh lo (pc s) -> small_time lo.
Proof.
  intros [F _ _] H0 [Hf Hn]. destruct (fl_clock _ _ _ _ F) as [Ht Hc]. destruct R. unfold small_time.
  destruct (clock_ (pc s)) as [|t l]; [specialize (Hn eq_refl); lia|]. apply Forall_cons in Hf as [? _]. apply Forall_cons in Hc as [? _]. lia.
Qed.

Lemma loop_ends lo fuel s next : sender_flow s -> 0 <= lo -> fresh lo (pc s) -> next = next_time z (pc s) -> 0 < Z.of_nat fuel -> todo lo (pc s) < Z.of_nat fuel ->
  gives (process_loop fuel lo next) (fun x s' => is_Some x /\ went 0 s s') s.
Proof.
  revert s next. induction fuel as [|fuel IH]; intros s next F H0 Hf En Hfuel Hw.
  { lia. }
  cbn [process_loop]. apply gives_bind, gives_down. intros b s1 E1. apply gives_bind, gives_get. unfold early_execute_margin. rewrite E1.
  rewrite (not_probing _ _ _ _ (sf_flow s F)). pose proof (lo_small lo s F H0 Hf) as Hlo.
  rewrite td_add_small by (done || (unfold small_time; lia)). rewrite Z.add_0_r.
  assert (Hstop : gives (mret (Some next) : PS (option Z)) (fun x s' => is_Some x /\ went 0 s s') s1).
  { apply gives_ret. split; [done|]. exists 0. rewrite E1. apply paid_refl, F. }
  destruct b; cbn [negb andb]; [done|]. destruct (Z.leb_spec next lo) as [Hd|_]; [|done]. clear Hstop.
  destruct (ProcessPackets_paid z M T R (pc s) (sf_flow s F)) as (p2 & E2 & P2 & Hp).
  assert (Eb : circuit_breaker_threshold_ (pc s) = circuit_breaker_threshold_ z).
  { pose proof (fl_settings _ _ _ _ (sf_flow s F)) as E. unfold settings in E. by injection E. }
  specialize (Hp ltac:(lia) lo Hf). apply gives_bind. eapply process_gives; [by rewrite E1|]. intros s2 Es2.
  destruct (NextSendTime_paid z M T R p2 (pd_flow _ _ _ _ _ _ _ P2)) as (t & p3 & E3 & P3 & Ec3 & Ed3 & El3 & Es3 & _ & Et & Ese3).
  apply gives_bind. eapply gives_pacer; [by rewrite Es2|]. set (s3 := s2 <| pc := p3 |>).
  assert (W : went 0 s s3) by (eexists; exact (paid_trans _ _ _ _ _ _ _ _ _ _ P2 P3)).
  assert (F3 : sender_flow s3) by by eapply went_flow.
  assert (Hnext : todo lo p3 < Z.of_nat fuel /\ 0 <= todo lo p3).
  { assert (todo lo p3 = todo lo p2) as -> by (unfold todo; by rewrite (work_same lo _ _ Ec3 El3 Es3), (next_time_same z p2 p3)).
    subst next. pose proof (work_done lo _ _ _ (sf_flow s F) Hd Hp P2). pose proof (todo_nonneg lo p2 (pd_flow _ _ _ _ _ _ _ P2)).
    unfold todo at 1 in Hw. rewrite (proj2 (Z.leb_le _ _) Hd) in Hw. lia. }
  eapply gives_mono; [apply (IH s3)|]; try done.
  - destruct W as [n [_ _ _ _ [Hk _]]]. by apply Hk.
  - lia.
  - change (pc s3) with p3. lia.
  - cbn. intros x s' [? W']. split; [done|]. exact (went_trans 0 0 _ _ _ W W').
Qed.

(** *** The calls *)

Lemma read_gives lo_ok (Q : Z -> PacedSender -> Prop) s : sender_flow s ->
  (forall t s', 0 <= t -> fresh t (pc s') -> went 0 s s' -> next_time z (pc s') = next_time z (pc s) -> work lo_ok (pc s') = work lo_ok (pc s) -> Q t s') ->
  gives read_clock Q s.
Proof.
  intros [F Hs [Hf Hn]] H. unfold read_clock.
  assert (Hx : exists t l, read (last_timestamp_ (pc s)) (clock_ (pc s)) = (t, l) /\ 0 <= t /\ Forall (fun x => t <= x) l
    /\ (l = [] -> t <= last_timestamp_ (pc s)) /\ Forall (fun x => x <= T) l /\ (Sorted Z.le l) /\ forall lo, Forall (fun x => lo <= x) (clock_ (pc s)) ->
       Forall (fun x => lo <= x) l /\ (l = [] -> clock_ (pc s) = [])).
  { pose proof (fl_clock _ _ _ _ F) as [_ HT]. unfold read. destruct (clock_ (pc s)) as [|t1 [|t2 l]].
    - eexists _, _. split; [done|]. split; [by apply Hn|]. split; [done|]. split; [lia|]. by split.
    - eexists _, _. split; [done|]. apply Forall_cons in Hf as Hf'. split; [apply Hf'|]. split; [by constructor|]. by split.
    - eexists _, _. split; [done|]. apply Forall_cons in Hf as [? _]. split; [done|]. apply Forall_cons in HT as [_ ?].
      apply Sorted_StronglySorted, StronglySorted_inv in Hs as [Hs Hall]; [|intros x y w; lia]. split; [done|]. split; [done|]. split; [done|].
      split; [by apply StronglySorted_Sorted|]. by intros lo [_ ?]%Forall_cons. }
  destruct Hx as (t & l & E & H0 & Hl & Hnil & HT & Hsl & Hlo). eapply gives_pacer; [by rewrite E|]. apply H; [done|by split| |unfold next_time; by rewrite (unpaced_queue (pc s))|done].
  exists 0. apply paid_silent; [|done|done|done| |cbn; lia..].
  - pose proof (flow_books _ _ _ _ F) as (H1 & H2 & H3 & _). apply (flow_same _ _ _ (pc s)); [done|done|]. by split.
  - split; [|done]. intros lo [Hc1 Hc2]. destruct (Hlo lo Hc1) as [? Hc3]. split; [done|]. intros Hc. by apply Hc2, Hc3.
Qed.

Lemma stats_gives s : sender_flow s -> gives UpdateStats (fun _ s' => pc s' = pc s) s.
Proof.
  intros [F _ _]. unfold UpdateStats. pose proof (fl_rate _ _ _ _ F) as Er.
  assert (E : exists t, ExpectedQueueTime (pc s) = Some (t, pc s)).
  { unfold ExpectedQueueTime, QueueSizeData, mbind, P_bind, get, need, time_for_size. rewrite Er. destruct (Z.eqb_spec (pacing_rate_ z) 0) as [?|_].
    - destruct R. lia.
    - by eexists. }
  destruct E as [t E]. apply gives_bind. eapply gives_pacer; [exact E|]. apply gives_bind. eapply gives_pacer; [done|]. by apply gives_put.
Qed.
Lemma schedule_gives now next s : sender_flow s -> gives (schedule now next) (fun _ s' => pc s' = pc s) s.
Proof.
  intros [F _ _]. unfold gives, schedule, hold_back_window. rewrite (not_probing _ _ _ _ F).
  rewrite (fl_rate _ _ _ _ F).
  assert (Hr : (pacing_rate_ z =? 0) = false) by (destruct R; lia). unfold time_for_size. rewrite Hr.
  destruct (_ && _ && _); eexists _, _; (split; [reflexivity|]); by destruct (_ && _).
Qed.

Lemma went_same s s' : sender_flow s -> pc s' = pc s -> went 0 s s'.
Proof. intros [F _ _] E. exists 0. rewrite E. by apply paid_refl. Qed.
Lemma same_flow s s' : sender_flow s -> pc s' = pc s -> sender_flow s'.
Proof. intros F E. eapply went_flow; [exact F|]. by apply went_same. Qed.

Lemma MaybeProcess_ends fuel t s : sender_flow s -> waits (pc s) + 2 < Z.of_nat fuel ->
  gives (MaybeProcessPackets fuel t) (fun b s' => b = true /\ went 0 s s') s.
Proof.
  intros F Hw. unfold MaybeProcessPackets. apply gives_bind, gives_down. intros b s1 E1. apply gives_bind, gives_get. cbn [id].
  assert (Hret : gives (mret true : PS bool) (fun b s' => b = true /\ went 0 s s') s1) by (apply gives_ret; split; [done|by apply went_same]).
  destruct (_ || _); [done|]. destruct (_ && _); [done|]. clear Hret. apply gives_bind.
  assert (Hid : forall Q : () -> PacedSender -> Prop, (forall s', pc s' = pc s -> Q () s') ->
    gives (if IsFinite t then ps_put (fun s => s <| next_process_time_ := MinusInfinity |>) else mret ()) Q s1).
  { intros Q H. destruct (IsFinite t); [by apply gives_put, H|by apply gives_ret, H]. }
  apply Hid. intros s2 E2. clear s1 E1 Hid b. apply gives_bind, gives_put. set (s3 := s2 <| processing_packets_ := true |>).
  assert (E3 : pc s3 = pc s) by done. clearbody s3. clear s2 E2.
  destruct (NextSendTime_paid z M T R (pc s) (sf_flow s F)) as (next & p & E & P & _ & _ & _ & _ & _ & En & _).
  apply gives_bind. eapply gives_pacer; [by rewrite E3|]. set (s4 := s3 <| pc := p |>). assert (W4 : went 0 s s4) by by eexists.
  assert (F4 : sender_flow s4) by by eapply went_flow. pose proof (went_waits _ _ _ W4) as Hw4.
  apply gives_bind, (read_gives 0); [done|]. intros now s5 H0 Hf W5 En5 _. pose proof (went_flow _ _ _ F4 W5) as F5.
  pose proof (went_waits _ _ _ W5) as Hw5. pose proof (work_nonneg now (pc s5) (sf_flow _ F5)). apply gives_bind.
  pose proof (todo_work now (pc s5) (sf_flow _ F5)). eapply gives_mono; [apply (loop_ends now fuel s5 next F5 H0 Hf); [by rewrite En5|lia|lia]|]. cbn. intros x s6 [[y ->] W6].
  pose proof (went_trans 0 0 _ _ _ W4 (went_trans 0 0 _ _ _ W5 W6)) as W. clear - F W R. pose proof (went_flow _ _ _ F W) as F6.
  apply gives_bind, gives_down. intros b s7 E7. apply gives_bind. pose proof (same_flow _ _ F6 E7) as F7.
  assert (Hend : forall s', pc s' = pc s6 -> gives (_ ← ps_put (fun s => s <| processing_packets_ := false |>); mret true) (fun b s' => b = true /\ went 0 s s') s').
  { intros s' E. apply gives_bind, gives_put, gives_ret. split; [done|]. apply (went_trans 0 0 _ _ _ W). by apply went_same. }
  destruct b; [by apply gives_ret, Hend|]. apply gives_bind. eapply gives_mono; [by apply stats_gives|]. cbn. intros [] s8 E8.
  pose proof (same_flow _ _ F7 E8) as F8. eapply gives_mono; [by apply schedule_gives|]. cbn. intros [] s9 E9. apply Hend. congruence.
Qed.

Lemma Pause_size b now q : SizeInPackets (SetPauseState b now q) = SizeInPackets q.
Proof. unfold SetPauseState. by destruct (UpdateAverageQueueTime_fields now q) as (? & ? & ? & ->). Qed.
Lemma Resume_paid p : flow p -> exists p', Resume p = Some ((), p') /\ paid 0 0 p p'.
Proof.
  intros F. destruct (CurrentTime_paid z M T p F) as (p1 & E1 & P1 & _). pose proof (pd_flow _ _ _ _ _ _ _ P1) as F1.
  destruct (flow_setting z M T R p1 F1) as (Ep & _). unfold Resume, mbind, P_bind at 1. rewrite E1. unfold P_bind, put, on_queue, mbind, P_bind, get, need, put.
  rewrite Ep. set (p2 := p1 <| is_paused_ := false |>). assert (E2 : p2 = p1) by (unfold p2; destruct p1; cbn in Ep; by subst). rewrite E2.
  cbn [fmap option_fmap option_map]. eexists. split; [reflexivity|]. apply (paid_trans z M T 0 0 0 0 p p1 _ P1). apply queue_paid; [done| |].
  - apply queue_Pause, (fl_ok _ _ _ _ F1).
  - rewrite Pause_size. unfold waits. lia.
Qed.

(** What a transport that sends asks of its sender. *)
Definition data_call (c : SenderCall) : Prop :=
  match c with
  | PsEnqueuePackets l => Forall (fits z M) l
  | PsDelayed _ | PsEnsureStarted | PsResume | PsSetTransportReady true | PsSetOnSentPacketFunc | PsRemovePackets _ | PsShutdown | PsQueueStops => True
  | _ => False
  end.
Definition new_packets (c : SenderCall) : Z := match c with PsEnqueuePackets l => zlen l | _ => 0 end.

Lemma then_process fuel k s s1 : sender_flow s -> went k s s1 -> waits (pc s) + k + 2 < Z.of_nat fuel ->
  gives (MaybeProcessPackets fuel MinusInfinity) (fun b s' => b = true /\ went k s s') s1.
Proof.
  intros F W Hw. pose proof (went_waits _ _ _ W). eapply gives_mono; [apply MaybeProcess_ends; [by eapply went_flow|lia]|]. cbn.
  intros b s' [? W']. split; [done|]. pose proof (went_trans _ _ _ _ _ W W') as Ht. by rewrite Z.add_0_r in Ht.
Qed.
Lemma enqueue_gives l s : sender_flow s -> Forall (fits z M) l -> gives (ps_for_each EnqueuePacketOnQueue l) (fun _ s' => went (zlen l) s s') s.
Proof.
  intros F Hl. revert s F. induction Hl as [|p l Hp Hl IH]; intros s F; cbn [ps_for_each]; [by apply gives_ret, went_refl|].
  apply gives_bind. unfold EnqueuePacketOnQueue. apply gives_bind, gives_put. set (s1 := upd_field _ _ _). assert (E1 : pc s1 = pc s) by done. clearbody s1.
  destruct (EnqueuePacket_paid z M T R p (pc s) (sf_flow s F) Hp) as (p2 & E2 & P2). eapply gives_pacer; [by rewrite E1|].
  assert (W : went 1 s (s1 <| pc := p2 |>)) by by eexists. eapply gives_mono; [apply IH; by eapply went_flow|]. cbn. intros _ s' W'.
  pose proof (went_trans _ _ _ _ _ W W') as Ht. replace (zlen (p :: l)) with (1 + zlen l); [done|]. unfold zlen. cbn. lia.
Qed.

Lemma call_ends fuel c s : sender_flow s -> data_call c -> waits (pc s) + new_packets c + 2 < Z.of_nat fuel ->
  gives (ps_call fuel c) (fun b s' => b = true /\ went (new_packets c) s s') s.
Proof.
  intros F Hc Hw.
  assert (Hsame : forall s', pc s' = pc s -> gives (mret true : PS bool) (fun b s' => b = true /\ went 0 s s') s').
  { intros s' E. apply gives_ret. split; [done|]. by apply went_same. }
  destruct c as [| | |[]| | | | | | |l|ssrc| | | | |t| |]; try done; cbn [ps_call new_packets] in *.
  - by apply gives_bind, gives_put, Hsame.
  - unfold ps_SetTransportReady. apply gives_bind, gives_bind, gives_put. destruct (Resume_paid (pc s) (sf_flow s F)) as (p & E & P).
    eapply gives_pacer; [exact E|]. apply gives_ret. split; [done|]. by eexists.
  - apply gives_bind, gives_put. apply then_process; [done|by apply went_same|lia].
  - destruct (Resume_paid (pc s) (sf_flow s F)) as (p & E & P). apply gives_bind. eapply gives_pacer; [exact E|].
    apply then_process; [done|by eexists|lia].
  - apply gives_bind. eapply gives_mono; [by apply enqueue_gives|]. cbn. intros _ s1 W. by apply then_process.
  - assert (Hq : exists p, Pacer_RemovePacketsForSsrc ssrc (pc s) = Some ((), p) /\ paid 0 0 (pc s) p).
    { apply on_queue_paid; [|apply F]. intros b q Hq. destruct (queue_Remove b _ ssrc q Hq) as (q' & E & Hq'). exists q'.
      split; [done|]. split; [done|]. pose proof (Remove_size _ _ _ _ _ Hq E). lia. }
    destruct Hq as (p & E & P). apply gives_bind. eapply gives_pacer; [exact E|]. apply then_process; [done|by eexists|lia].
  - apply gives_bind, gives_get. destruct (take_task t (delayed_ s)) as [l|]; [|by apply Hsame]. apply gives_bind, gives_put.
    set (s1 := s <| delayed_ := l |>). assert (E1 : pc s1 = pc s) by done. eapply gives_mono; [apply MaybeProcess_ends; [by eapply same_flow|rewrite E1; lia]|].
    cbn. intros b s' [? W]. split; [done|]. exact (went_trans 0 0 _ _ _ (went_same _ _ F E1) W).
  - by apply gives_bind, gives_put, Hsame.
  - by apply gives_bind, gives_put, Hsame.
Qed.

(** The clock goes on, there is no forward error correction, and the padding is that of the transport. *)
Definition plain_env (e : PacerEnv) : Prop :=
  e.(env_fec) = [] /\ Forall (filling z M) e.(env_padding) /\ Sorted Z.le e.(env_clock) /\ Forall (fun t => 0 <= t <= T) e.(env_clock).
Definition sender_path (xs : list (PacerEnv * list bool * SenderCall)) : Prop := Forall (fun x => plain_env x.1.1 /\ data_call x.2) xs.
Definition all_packets (xs : list (PacerEnv * list bool * SenderCall)) : Z := foldr (fun x n => new_packets x.2 + n) 0 xs.

Lemma new_packets_nonneg c : 0 <= new_packets c.
Proof. destruct c; cbn; unfold zlen; lia. Qed.
Lemma all_packets_nonneg xs : 0 <= all_packets xs.
Proof. induction xs as [|x xs IH]; cbn; [done|]. pose proof (new_packets_nonneg x.2). unfold all_packets in IH. lia. Qed.

Lemma calls_end fuel xs s : flow (pc s) -> sender_path xs -> waits (pc s) + all_packets xs + 2 < Z.of_nat fuel ->
  gives (ps_calls fuel xs) (fun b s' => b = true /\ flow (pc s')) s.
Proof.
  intros F Hx. revert s F. induction Hx as [|[[e stops] c] xs [(Hf & Hp & Hs & Ht) Hc] Hx IH]; intros s F Hw; cbn [ps_calls]; [by apply gives_ret|].
  cbn [fst snd] in *. change (all_packets ((e, stops, c) :: xs)) with (new_packets c + all_packets xs) in Hw.
  pose proof (all_packets_nonneg xs) as Hn. apply gives_bind. unfold ps_supply. apply gives_bind. eapply gives_pacer; [done|]. apply gives_put.
  set (s1 := _ <| stops_ := _ |>). assert (E1 : pc s1 = supplied e (pc s)) by done. clearbody s1.
  assert (F1 : sender_flow s1).
  { split; rewrite E1; [|done|].
    - apply supplied_flow; [done..|]. eapply Forall_impl; [exact Ht|]. cbn. lia.
    - split; [eapply Forall_impl; [exact Ht|]; cbn; lia|]. intros _. pose proof (fl_last _ _ _ _ F). change (last_timestamp_ (supplied e (pc s))) with (last_timestamp_ (pc s)). lia. }
  assert (Hw1 : waits (pc s1) = waits (pc s)) by by rewrite E1. apply gives_bind. eapply gives_mono; [apply call_ends; [done|done|lia]|].
  cbn. intros b s2 [-> W]. pose proof (went_waits _ _ _ W). apply IH; [by eapply went_flow|lia].
Qed.
End rate.

(** ** The sender does not fall asleep *)

(** The task that runs the sender next is there and comes within 500 ms. *)
Definition posted (s : PacedSender) : Prop := exists d, (s.(next_process_time_), d) ∈ s.(delayed_) /\ d <= kPausedProcessInterval.
(** Unless it is the end, the sender waits for its task, or it waits for none ([idle]). *)
Definition sound (idle : bool) (s : PacedSender) : Prop :=
  s.(is_shutdown_) = true \/ s.(queue_stopped) = true \/ (idle = true /\ s.(next_process_time_) = MinusInfinity)
  \/ (s.(is_started_) = true /\ s.(transport_ready_) = true /\ posted s).

Lemma alike_sound x s s' : alike s s' -> sound x s -> sound x s'.
Proof. intros [En Ed Es Er Eq Hd] H. unfold sound, posted in *. rewrite En, Ed, Es, Er, Eq. destruct H as [?|[?|[?|?]]]; auto. Qed.
Lemma awake_sound x s : sound false s -> sound x s.
Proof. unfold sound. naive_solver. Qed.

Section sleep.
Notation keeps := (obeys alike).
Lemma pacer_alike {A} (m : P A) : keeps (on_pacer m).
Proof. apply on_pacer_obeys. intros s p. split; [done..|auto]. Qed.
Lemma down_alike s : after load_shutdown (fun b s' => alike s s' /\ s'.(is_shutdown_) = b) s.
Proof.
  intros b s' E. unfold load_shutdown in E. destruct (stops_ s) as [|c l]; injection E as <- <-; [done|].
  split; [|done]. split; [done..|]. intros H. cbn. rewrite H. apply orb_true_r.
Qed.
Lemma load_alike : keeps load_shutdown.
Proof. intros s b s' E. by apply (down_alike s b s'). Qed.
Lemma loop_alike fuel now next : keeps (process_loop fuel now next).
Proof.
  apply loop_obeys; [apply _|intros s p; split; [done..|auto]|intros s l b H; split; [done..|auto]|]. intros p info. apply obeys_put.
  intros s. destruct (on_sent_set s); [split; [done..|auto]|done].
Qed.
Lemma stats_alike : keeps UpdateStats.
Proof. apply stats_obeys; [apply _|intros s p; split; [done..|auto]|intros s st; split; [done..|auto]]. Qed.

Lemma i64_range x : - 2 ^ 63 <= i64 x < 2 ^ 63.
Proof. unfold i64. pose proof (Z.mod_pos_bound (x + 2 ^ 63) (2 ^ 64)). lia. Qed.
Lemma td_sub_range a b : - 2 ^ 63 <= td_sub a b.
Proof. unfold td_sub. destruct (_ || _); [done|]. destruct (_ || _); [done|]. apply i64_range. Qed.
(** The delay of the task. *)
Lemma delay_bound t : - 2 ^ 63 <= t <= kPausedProcessInterval -> RoundUpTo t (Millis 1) <= kPausedProcessInterval.
Proof.
  change kPausedProcessInterval with 500000. intros Ht. unfold RoundUpTo. change (Millis 1) with 1000. rewrite (i64_small (t + 1000 - 1)) by lia.
  set (x := t + 1000 - 1). assert (- 2 ^ 63 <= x <= 500999) by (unfold x; lia). clearbody x.
  assert (Z.quot x 1000 * 1000 = x - Z.rem x 1000) as -> by (pose proof (Z.quot_rem' x 1000); lia).
  assert (Z.abs (Z.rem x 1000) < 1000 /\ (x <= 0 -> Z.rem x 1000 <= 0) /\ (0 <= x -> 0 <= Z.rem x 1000)) as (H1 & H2 & H3).
  { split; [|split]; intros; [pose proof (Z.rem_bound_abs x 1000); lia|by apply Z.rem_nonpos|by apply Z.rem_nonneg]. }
  assert (Hq : x - Z.rem x 1000 <= 500000) by (pose proof (Z.quot_rem' x 1000); lia).
  rewrite i64_small; lia.
Qed.

Lemma schedule_posts now next s : s.(is_started_) = true -> s.(transport_ready_) = true -> sound true s ->
  after (schedule now next) (fun _ s' => sound false s') s.
Proof.
  intros Es Er H [] s' E. unfold schedule in E. unfold mbind, option_bind in E. destruct (hold_back_window s) as [h|]; [|done]. injection E as <-.
  set (t := Z.max h _). set (d := if _ || _ then _ else t).
  assert (Hd : - 2 ^ 63 <= d <= kPausedProcessInterval).
  { unfold d. destruct (IsInfinite t || (t >? kPausedProcessInterval)) eqn:Eb; [by split|].
    apply orb_false_iff in Eb as [_ Eb]. pose proof (td_sub_range (td_sub next now) (early_execute_margin s)). unfold t in *. lia. }
  clearbody t d. destruct (queue_stopped s) eqn:Eq; [rewrite andb_false_r; right; by left|]. rewrite andb_true_r.
  destruct (IsMinusInfinity (next_process_time_ s) || (next_process_time_ s >? td_add now d)) eqn:Eb.
  - right; right; right. split; [done|]. split; [done|]. exists (RoundUpTo d (Millis 1)). split; [|by apply delay_bound].
    cbn. apply elem_of_app. right. by apply list_elem_of_singleton.
  - apply orb_false_iff in Eb as [Eb _]. unfold IsMinusInfinity in Eb. unfold sound in *. destruct H as [?|[?|[[_ ?]|?]]]; [auto|auto|lia|auto].
Qed.

(** A task that finds its time, or that needs none. *)
Lemma process_runs fuel t s : s.(is_started_) = true -> s.(transport_ready_) = true ->
  (if IsFinite t then t = s.(next_process_time_) else sound true s) ->
  after (MaybeProcessPackets fuel t) (fun b s' => b = true -> sound false s') s.
Proof.
  intros Es Er Ht. unfold MaybeProcessPackets. apply after_bind. eapply after_mono; [apply down_alike|]. cbn. intros down s1 [A1 Ed1].
  apply after_bind, after_get. cbn [id]. pose proof (al_started _ _ A1) as Es1. pose proof (al_ready _ _ A1) as Er1. rewrite Es1, Er1, Es, Er.
  destruct down; [apply after_ret; intros _; by left|]. cbn [negb orb]. destruct (IsFinite t && _) eqn:Ef.
  { apply andb_true_iff in Ef as [Ef Hn]. rewrite Ef in Ht. rewrite (al_next _ _ A1) in Hn. lia. }
  apply after_bind. apply (after_mono _ (fun _ s' => is_started_ s' = true /\ transport_ready_ s' = true /\ sound true s')).
  { destruct (IsFinite t).
    - apply after_put. cbn. split; [congruence|]. split; [congruence|]. right; right; by left.
    - apply after_ret. split; [congruence|]. split; [congruence|]. by eapply alike_sound. }
  clear. intros _ s (Es & Er & H). apply after_bind, after_put, after_bind. set (s1 := s <| processing_packets_ := true |>).
  assert (A1 : alike s s1) by (split; [done..|auto]). clearbody s1.
  eapply after_mono; [apply (pacer_alike NextSendTime)|]. cbn. intros next s2 A2. apply after_bind.
  eapply after_mono; [apply pacer_alike|]. cbn. intros now s3 A3. apply after_bind. eapply after_mono; [apply loop_alike|]. cbn. intros [x|] s4 A4.
  2: by apply after_ret.
  apply after_bind. eapply after_mono; [apply down_alike|]. cbn. intros down s5 [A5 Ed]. apply after_bind.
  assert (A : alike s s5) by (do 4 (etrans; [eassumption|]); exact A5). clear A1 A2 A3 A4 A5 s1 s2 s3 s4.
  assert (Hend : forall s', sound false s' ->
    after (_ ← ps_put (fun s => s <| processing_packets_ := false |>); mret true) (fun b s' => b = true -> sound false s') s').
  { intros s' Hs. apply after_bind, after_put, after_ret. intros _. eapply alike_sound; [|exact Hs]. split; [done..|auto]. }
  destruct down; [apply after_ret, Hend; by left|]. apply after_bind. eapply after_mono; [apply stats_alike|]. cbn. intros _ s6 A6.
  pose proof (transitivity A A6) as A'. eapply after_mono; [apply schedule_posts|].
  - by rewrite (al_started _ _ A').
  - by rewrite (al_ready _ _ A').
  - by eapply alike_sound.
  - cbn. intros _ s7. apply Hend.
Qed.

Lemma process_sound x fuel t s : sound x s -> after (MaybeProcessPackets fuel t) (fun b s' => b = true -> sound x s') s.
Proof.
  intros H. destruct (is_started_ s && transport_ready_ s) eqn:Eb.
  2: { unfold MaybeProcessPackets. apply after_bind. eapply after_mono; [apply down_alike|]. cbn. intros down s1 [A1 _]. apply after_bind, after_get.
       cbn [id]. rewrite (al_started _ _ A1), (al_ready _ _ A1). destruct down, (is_started_ s), (transport_ready_ s); try done.
       all: apply after_ret; intros _; by eapply alike_sound. }
  apply andb_true_iff in Eb as [Es Er]. destruct (IsFinite t) eqn:Ef; [destruct (Z.eqb_spec t (next_process_time_ s)) as [Et|Hn]|].
  - eapply after_mono; [apply process_runs; [done|done|by rewrite Ef]|]. cbn. intros b s' Hs E. by apply awake_sound, Hs.
  - unfold MaybeProcessPackets. apply after_bind. eapply after_mono; [apply down_alike|]. cbn. intros down s1 [A1 _]. apply after_bind, after_get.
    cbn [id]. rewrite (al_started _ _ A1), (al_ready _ _ A1), (al_next _ _ A1), Es, Er, Ef. apply Z.eqb_neq in Hn. rewrite Hn.
    destruct down; apply after_ret; intros _; by eapply alike_sound.
  - eapply after_mono; [apply process_runs; [done|done|rewrite Ef; destruct x; [done|by apply awake_sound]]|].
    cbn. intros b s' Hs E. by apply awake_sound, Hs.
Qed.

Lemma take_other t n d l l' : take_task t l = Some l' -> t <> n -> (n, d) ∈ l -> (n, d) ∈ l'.
Proof.
  intros E Hn. revert l' E. induction l as [|e l IH]; intros l' E; [done|]. cbn in E. destruct (Z.eqb_spec e.1 t) as [Et|_].
  - injection E as <-. intros [<-|?]%elem_of_cons; [done|done].
  - destruct (take_task t l) as [k|]; [|done]. injection E as <-. intros [<-|?]%elem_of_cons; [by left|]. right. by apply IH.
Qed.

(** The times of the tasks are times, and the transport stays ready unless the sender may be [idle]. *)
Definition timely (idle : bool) (c : SenderCall) : Prop :=
  match c with PsDelayed t => IsFinite t = true | PsSetTransportReady false => idle = true | _ => True end.

Lemma enqueue_alike p : keeps (EnqueuePacketOnQueue p).
Proof. unfold EnqueuePacketOnQueue. apply obeys_bind; [apply _| |intros _; apply pacer_alike]. apply obeys_put. intros s. split; [done..|auto]. Qed.
Lemma packets_alike l : keeps (ps_for_each EnqueuePacketOnQueue l).
Proof. apply obeys_for_each; [apply _|apply enqueue_alike]. Qed.

(** First the pacer or the settings, then what runs the sender. *)
Lemma first_then {A} x (m : PS A) (k : A -> PS bool) s : keeps m -> (forall a s', sound x s' -> after (k a) (fun b s' => b = true -> sound x s') s') ->
  sound x s -> after (m ≫= k) (fun b s' => b = true -> sound x s') s.
Proof. intros Hm Hk H. apply after_bind. eapply after_mono; [apply Hm|]. cbn. intros a s' A1. apply Hk. by eapply alike_sound. Qed.
Lemma done_sound x s : sound x s -> after (mret true : PS bool) (fun b s' => b = true -> sound x s') s.
Proof. intros H. by apply after_ret. Qed.
Lemma scheduled_sound x fuel s : sound x s -> after (MaybeScheduleProcessPackets fuel) (fun b s' => b = true -> sound x s') s.
Proof.
  intros H. unfold MaybeScheduleProcessPackets. apply after_bind, after_get. destruct (processing_packets_ s); [by apply done_sound|by apply process_sound].
Qed.
Lemma put_alike f : (forall s, alike s (f s)) -> keeps (ps_put f).
Proof. apply obeys_put. Qed.

Lemma wakeful_call x fuel c s : timely x c -> sound x s -> after (ps_call fuel c) (fun b s' => b = true -> sound x s') s.
Proof.
  intros Hc H.
  assert (Hp : forall f (k : () -> PS bool), (forall s, alike s (f s)) -> (forall a s', sound x s' -> after (k a) (fun b s' => b = true -> sound x s') s') ->
    after (ps_put f ≫= k) (fun b s' => b = true -> sound x s') s) by (intros f k Hf Hk; apply first_then; [by apply put_alike|done|done]).
  destruct c as [|t|b|ready| |l| | |b|r p|l|ssrc|b| |n|t|t| |]; cbn [ps_call];
    try (apply first_then; [apply pacer_alike|intros; by (apply process_sound || apply scheduled_sound || apply done_sound)|done]).
  - apply Hp; [intros s'; split; [done..|auto]|intros; by apply done_sound].
  - unfold ps_SetTransportReady. destruct ready.
    + apply after_bind, after_bind, after_put. eapply after_mono; [apply pacer_alike|]. cbn. intros _ s' A1. apply after_ret. intros _.
      apply (alike_sound _ _ _ A1). unfold sound, posted in *. cbn. destruct H as [?|[?|[?|(? & ? & ?)]]]; auto 6.
    + cbn in Hc. apply after_bind, after_bind, after_put, after_bind. eapply after_mono; [apply pacer_alike|]. cbn. intros _ s1 _.
      apply after_bind. eapply after_mono; [apply pacer_alike|]. cbn. intros _ s2 _. apply after_put, after_ret. intros _. right; right; by left.
  - apply after_bind, after_put, process_sound. unfold sound, posted in *. cbn. destruct H as [?|[?|[?|(? & ? & ?)]]]; auto 6.
  - apply after_bind, after_get. destruct (negb _); [by apply done_sound|]. apply first_then; [apply pacer_alike|intros; by apply scheduled_sound|done].
  - apply first_then; [apply packets_alike|intros; by apply process_sound|done].
  - apply Hp; [intros s'; split; [done..|auto]|]. intros _ s1 H1. apply first_then; [apply pacer_alike|intros; by apply process_sound|done].
  - apply after_bind, after_get. destruct (take_task t (delayed_ s)) as [l|] eqn:El; [|by apply done_sound]. apply after_bind, after_put.
    set (s1 := s <| delayed_ := l |>). cbn in Hc.
    assert (Hs : sound x s1 \/ (is_started_ s = true /\ transport_ready_ s = true /\ t = next_process_time_ s)).
    { destruct H as [?|[?|[?|(Es & Er & d & Hd & Hb)]]]; [left; by left|left; right; by left|left; right; right; by left|].
      destruct (Z.eq_dec t (next_process_time_ s)) as [?|Hn]; [by right|]. left. right; right; right. split; [done|]. split; [done|].
      exists d. split; [by eapply take_other|done]. }
    destruct Hs as [Hs|(Es & Er & Et)]; [by apply process_sound|].
    eapply after_mono; [apply process_runs; [done|done|by rewrite Hc]|]. cbn. intros b s' Hb E. by apply awake_sound, Hb.
  - apply after_bind, after_put, after_ret. intros _. by left.
  - apply after_bind, after_put, after_ret. intros _. right; by left.
Qed.

Lemma supply_alike e stops : keeps (ps_supply e stops).
Proof.
  unfold ps_supply. apply obeys_bind; [apply _|apply pacer_alike|]. intros _. apply put_alike. intros s. split; [done..|auto].
Qed.
Lemma wakeful_calls x fuel xs s : Forall (fun y => timely x y.2) xs -> sound x s -> after (ps_calls fuel xs) (fun b s' => b = true -> sound x s') s.
Proof.
  intros Hx. revert s. induction Hx as [|[[e stops] c] xs Hc Hx IH]; intros s H; cbn [ps_calls]; [by apply done_sound|].
  apply first_then; [apply supply_alike| |done]. intros _ s1 H1. apply after_bind. eapply after_mono; [by apply wakeful_call|]. cbn. intros b s2 H2.
  destruct b; [|by apply after_ret]. by apply IH, H2.
Qed.

(** [EnsureStarted] wakes it. *)
Lemma started_sound fuel s : s.(transport_ready_) = true -> sound true s -> after (ps_call fuel PsEnsureStarted) (fun b s' => b = true -> sound false s') s.
Proof.
  intros Er H. cbn [ps_call]. apply after_bind, after_put, process_runs; [done|done|]. change (IsFinite MinusInfinity) with false. cbv iota. unfold sound, posted in *. cbn. destruct H as [?|[?|[?|(? & ? & ?)]]]; auto 6.
Qed.
End sleep.

(** ** The transport's sender *)

(** What [DataTransport::Init] asks; [padding] tells whether there is a stream to pad with. The clock stands still. *)
Definition sender_setup (rate burst limit overhead : Z) (padding : bool) : list (PacerEnv * list bool * SenderCall) :=
  (fun c => (mkEnv [] [] [], [], c)) <$> [PsSetPacingRates rate 0; PsSetSendBurstInterval burst; PsSetQueueTimeLimit limit;
    PsSetAllowProbe padding; PsSetIncludeOverhead; PsSetTransportOverhead overhead; PsSetOnSentPacketFunc].
(** The sender during the setup. *)
Definition sender_with (p : PacingController) (callback include : bool) : PacedSender :=
  mkPaced p callback MinusInfinity false false false (ExpFilter_new (fdiv (float_of 95) (float_of 100))) include
    (mkStats MinusInfinity 0 0 None) false ∅ [] false [] [].

Lemma sender_calls_cons fuel e stops c xs s s' x : ps_call fuel c (s <| pacing_controller_ ::= supplied e |> <| stops_ := stops |>) = Some (true, s') ->
  ps_calls fuel xs s' = x -> ps_calls fuel ((e, stops, c) :: xs) s = x.
Proof.
  intros E <-. cbn [ps_calls]. unfold mbind, PS_bind.
  change (ps_supply e stops s) with (Some ((), s <| pacing_controller_ ::= supplied e |> <| stops_ := stops |>)). cbv beta iota. by rewrite E.
Qed.
Lemma sender_calls_app fuel xs ys s s' x : ps_calls fuel xs s = Some (true, s') -> ps_calls fuel ys s' = x -> ps_calls fuel (xs ++ ys) s = x.
Proof.
  revert s. induction xs as [|[[e stops] c] xs IH]; intros s; cbn [app ps_calls]; [by intros [= ->]|]. unfold mbind, PS_bind.
  destruct (ps_supply e stops s) as [[[] s1]|]; [|done]. destruct (ps_call fuel c s1) as [[[] s2]|]; [|done..]. apply IH.
Qed.

Lemma sender_setup_runs fuel rate burst limit overhead padding t : 0 < rate ->
  ps_calls fuel (sender_setup rate burst limit overhead padding) (PacedSender_new true t)
  = Some (true, sender_with (pacer_with rate burst limit padding true overhead t) true true).
Proof.
  intros Hr. unfold sender_setup. cbn [fmap list_fmap]. change (PacedSender_new true t) with (sender_with (pacer_with 0 40000 2000000 false false 0 t) false false).
  apply (sender_calls_cons _ _ _ _ _ _ (sender_with (pacer_with rate 40000 2000000 false false 0 t) false false)).
  { assert (E : SetPacingRates rate 0 (pacer_with 0 40000 2000000 false false 0 t) = Some ((), pacer_with rate 40000 2000000 false false 0 t)).
    { unfold SetPacingRates, mbind, P_bind, put, CurrentTime. destruct (Z.gtb_spec 0 rate) as [?|_]; [lia|]. cbn. by rewrite Z.max_id. }
    set (s0 := _ <| stops_ := _ |>). change s0 with (sender_with (pacer_with 0 40000 2000000 false false 0 t) false false).
    cbn [ps_call]. unfold mbind, PS_bind, on_pacer. cbn [pacing_controller_ sender_with]. by rewrite E. }
  apply (sender_calls_cons _ _ _ _ _ _ (sender_with (pacer_with rate burst 2000000 false false 0 t) false false)); [reflexivity|].
  apply (sender_calls_cons _ _ _ _ _ _ (sender_with (pacer_with rate burst limit false false 0 t) false false)); [reflexivity|].
  apply (sender_calls_cons _ _ _ _ _ _ (sender_with (pacer_with rate burst limit padding false 0 t) false false)); [by destruct padding|].
  apply (sender_calls_cons _ _ _ _ _ _ (sender_with (pacer_with rate burst limit padding true 0 t) false true)); [reflexivity|].
  apply (sender_calls_cons _ _ _ _ _ _ (sender_with (pacer_with rate burst limit padding true overhead t) false true)); [reflexivity|].
  by apply (sender_calls_cons _ _ _ _ _ _ (sender_with (pacer_with rate burst limit padding true overhead t) true true)).
Qed.

(** The calls of a transport that sends packets of at most [M] bytes, neither retransmissions nor padding, up to the time [T]: the clock of a call
    goes on, and the generator pads as that of the transport. *)
Definition sender_data (overhead M T : Z) (x : PacerEnv * list bool * SenderCall) : Prop :=
  (x.1.1.(env_fec) = [] /\ Forall (generates overhead M) x.1.1.(env_padding)
   /\ Sorted Z.le x.1.1.(env_clock) /\ Forall (fun t => 0 <= t <= T) x.1.1.(env_clock))
  /\ match x.2 with
     | PsEnqueuePackets l => Forall (fun p => p.(pk_type) <> kRetransmission /\ p.(pk_type) <> kPadding /\ 0 <= wire_size overhead p <= M) l
     | PsDelayed _ | PsEnsureStarted | PsResume | PsSetTransportReady true | PsSetOnSentPacketFunc | PsRemovePackets _ | PsShutdown | PsQueueStops => True
     | _ => False
     end.


(** Seven packets at 2 Mbit/s and a control message; a delayed task runs at its time and the sender is shut down. *)
Definition w_env (t : list Z) : PacerEnv := mkEnv t [] [[w_padding]].
Definition w_sender : list (PacerEnv * list bool * SenderCall) :=
  [(w_env [1000050], [], PsSetTransportReady true); (w_env [1000060], [], PsEnsureStarted);
   (w_env [1000100; 1000110], [], PsEnqueuePackets (map (fun n => w_packet n kVideo) [1; 2; 3; 4; 5; 6; 7]));
   (w_env [1000400], [], PsEnqueuePackets [w_packet 8 kAudio]); (w_env [1024900], [], PsDelayed 1024900);
   (w_env [1500000], [], PsDelayed 1500000);
   (w_env [1500100; 1500110; 1500120; 1500130], [false; false; true], PsEnqueuePackets [w_packet 9 kVideo])].
Lemma w_sender_ok : Forall (sender_data 28 1240 2000000) w_sender.
Proof. repeat constructor; vm_compute; congruence. Qed.
Definition w_run (xs : list (PacerEnv * list bool * SenderCall)) : PacedSender :=
  from_option snd (PacedSender_new true 0) (ps_calls 20 xs (PacedSender_new true 1000000)).
(** The burst lets five out; two follow when the task runs, and the last waits for a sender that is gone. *)
Example w_sender_out : (fun s => ((fun p => (p.(sent_packet).(pk_id), p.(sent_seq))) <$> s.(sent_), s.(delayed_), s.(is_shutdown_)))
  (w_run (sender_setup 2000000 20000 400000 28 true ++ w_sender)) 
  = ([(1, 1); (2, 2); (3, 3); (4, 4); (5, 5); (8, 6); (6, 7); (7, 8)], [(1524900, 500000)], true).
Proof. vm_compute. reflexivity. Qed.

(** C31: the sender does not fall asleep. From the moment [EnsureStarted] finds the transport ready, after any calls whatever, and until
    [SetTransportReady(false)] (which forgets the time of the next task until [EnsureStarted] is called again), whatever rates, packets, probes
    and pauses follow, each call that comes back leaves the task that will run the sender next among the delayed tasks, due within 500 ms, unless
    the sender was shut down or the queue of the tasks was stopped. The delayed tasks run for times that are finite. *)
Theorem sender_stays_awake fuel bounded t xs e stops ys s1 s :
  Forall (fun y => timely true y.2) xs -> ps_calls fuel xs (PacedSender_new bounded t) = Some (true, s1) -> s1.(transport_ready_) = true ->
  Forall (fun y => timely false y.2) ys -> ps_calls fuel ((e, stops, PsEnsureStarted) :: ys) s1 = Some (true, s) ->
  s.(is_shutdown_) = true \/ s.(queue_stopped) = true \/ posted s.
Proof.
  intros Hx Ex Hr Hy Ey. assert (H1 : sound true s1).
  { apply (wakeful_calls true fuel xs (PacedSender_new bounded t) Hx) in Ex; [by apply Ex|]. right; right; by left. }
  assert (H : sound false s).
  { revert Ey. cbn [ps_calls]. intros Ey. eapply (after_bind _ _ (fun b s' => b = true -> sound false s')); [|exact Ey|done].
    eapply after_mono; [apply supply_alike|]. cbn. intros _ s2 A2. apply after_bind.
    eapply after_mono; [apply started_sound; [by rewrite (al_ready _ _ A2)|by eapply alike_sound]|]. cbn. intros b s3 H3.
    destruct b; [|by apply after_ret]. apply wakeful_calls; [done|by apply H3]. }
  destruct H as [?|[?|[[? _]|(_ & _ & ?)]]]; [by left|by right; left|done|by right; right].
Qed.

(** A pause, new rates and a probe in between. *)
Definition w_ready : list (PacerEnv * list bool * SenderCall) :=
  sender_setup 2000000 20000 400000 28 true ++ [(w_env [1000050], [], PsSetTransportReady true)].
Definition w_awake : list (PacerEnv * list bool * SenderCall) :=
  [(w_env [1000100; 1000110], [], PsEnqueuePackets (map (fun n => w_packet n kVideo) [1; 2; 3; 4; 5; 6; 7]));
   (w_env [1000400], [], PsPause); (w_env [1000500], [], PsSetPacingRates 1000000 200000); (w_env [1024900], [], PsDelayed 1024900);
   (w_env [1200000], [], PsResume); (w_env [1500000], [], PsDelayed 1500000)].
Lemma sender_stays_awake_witness :
  (w_run w_ready).(transport_ready_) = true /\
  (let s := from_option snd (w_run w_ready) (ps_calls 20 ((w_env [1000060], [], PsEnsureStarted) :: w_awake) (w_run w_ready)) in
   s.(is_shutdown_) = true \/ s.(queue_stopped) = true \/ posted s).
Proof.
  split; [vm_compute; reflexivity|].
  apply (sender_stays_awake 20 true 1000000 w_ready (w_env [1000060]) [] w_awake (w_run w_ready)).
  - repeat constructor.
  - vm_compute. reflexivity.
  - vm_compute. reflexivity.
  - repeat constructor.
  - vm_compute. reflexivity.
Defined.

(** C32: the packets have their numbers from the wire. Whatever is asked of the sender, in whatever order the queue lets the packets of an SSRC
    go and whenever the sender is shut down, the packets of each SSRC that leave carry 1, 2, 3, ... modulo 2^16 in the order in which they leave. *)
Theorem numbers_follow_the_wire fuel bounded t xs b s ssrc : ps_calls fuel xs (PacedSender_new bounded t) = Some (b, s) ->
  sent_seq <$> of_ssrc ssrc s.(sent_) = numbers (length (of_ssrc ssrc s.(sent_))).
Proof. intros E. by apply (calls_numbers fuel xs (PacedSender_new bounded t) b s E). Qed.
Lemma numbers_follow_the_wire_witness :
  let s := w_run (sender_setup 2000000 20000 400000 28 true ++ w_sender) in
  sent_seq <$> of_ssrc 1 s.(sent_) = numbers (length (of_ssrc 1 s.(sent_))).
Proof.
  apply (numbers_follow_the_wire 20 true 1000000 (sender_setup 2000000 20000 400000 28 true ++ w_sender) true). vm_compute. reflexivity.
Defined.
