(* ===== verification/ProbeController.v ===== *)
(** * When to probe for bandwidth ([minirtc/src/qos/probe_controller.{h,cc}])

    The controller asks for clusters of probes: two when the network comes up, further ones while the results grow,
    and later ones for an idle sender, a new path and a sharp drop.  Every call gives the clusters to send.  Rates
    are scaled in binary64, the [double] of the source; what is only logged is left out.  Of the estimate of the
    network's state only the upper bound of its capacity is read. *)
From Stdlib Require Import Floats.SpecFloat.
From S2P Require Export Prober.
#[local] Open Scope Z_scope.

(** ** Definitions *)

(** *** Double precision *)

Definition double := spec_float.
Definition double_of (n : Z) : double := binary_normalize 53 1024 n 0 false.
(** The literal [a / b]. *)
Definition ratio (a b : Z) : double := SFdiv 53 1024 (double_of a) (double_of b).
(** [std::llround]: halves away from zero.  What does not fit has no specified result; here it is that of x86. *)
Definition llround (x : double) : Z :=
  match x with
  | S754_zero _ => 0
  | S754_finite s m e =>
      let v := if 0 <=? e then Z.shiftl (Z.pos m) e else Z.shiftr (Z.pos m + Z.shiftl 1 (- e - 1)) (- e) in
      let v := if s then - v else v in
      if (- 2 ^ 63 <=? v) && (v <? 2 ^ 63) then v else - 2 ^ 63
  | _ => - 2 ^ 63
  end.
(** [operator*] of a rate and a [double]. *)
Definition scaled (rate : Z) (x : double) : Z := llround (SFmul 53 1024 (double_of rate) x).
Definition is_zero (x : double) : bool := SFeqb x (double_of 0).
Definition positive (x : double) : bool := SFltb (double_of 0) x.

(** *** Configuration *)

Record ProbeControllerConfig := mkProbeConfig {
  first_exponential_probe_scale : double; second_exponential_probe_scale : double; further_exponential_probe_scale : double;
  further_probe_threshold : double; abort_further_probe_if_max_lower_than_current : bool; repeated_initial_probing_time_period : Z;
  initial_probe_duration : Z; initial_min_probe_delta : Z; alr_probing_interval : Z; alr_probe_scale : double;
  network_state_estimate_probing_interval : Z; probe_if_estimate_lower_than_network_state_estimate_ratio : double;
  estimate_lower_than_network_state_estimate_probing_interval : Z; network_state_probe_scale : double;
  network_state_probe_duration : Z; network_state_min_probe_delta : Z; probe_on_max_allocated_bitrate_change : bool;
  first_allocation_probe_scale : double; second_allocation_probe_scale : double; allocation_probe_limit_by_current_scale : double;
  min_probe_packets_sent : Z; min_probe_duration : Z; cfg_min_probe_delta : Z; loss_limited_probe_scale : double;
  skip_if_estimate_larger_than_fraction_of_max : double; skip_probe_max_allocated_scale : double;
}.

Definition ProbeControllerConfig_new : ProbeControllerConfig := {|
  first_exponential_probe_scale := double_of 3; second_exponential_probe_scale := double_of 6;
  further_exponential_probe_scale := double_of 2; further_probe_threshold := ratio 7 10;
  abort_further_probe_if_max_lower_than_current := false; repeated_initial_probing_time_period := Seconds 5;
  initial_probe_duration := Millis 100; initial_min_probe_delta := Millis 20; alr_probing_interval := Seconds 5;
  alr_probe_scale := double_of 2; network_state_estimate_probing_interval := PlusInfinity;
  probe_if_estimate_lower_than_network_state_estimate_ratio := double_of 0;
  estimate_lower_than_network_state_estimate_probing_interval := Seconds 3; network_state_probe_scale := double_of 1;
  network_state_probe_duration := Millis 15; network_state_min_probe_delta := Millis 20;
  probe_on_max_allocated_bitrate_change := true; first_allocation_probe_scale := double_of 1;
  second_allocation_probe_scale := double_of 2; allocation_probe_limit_by_current_scale := double_of 2;
  min_probe_packets_sent := 5; min_probe_duration := Millis 15; cfg_min_probe_delta := Millis 2;
  loss_limited_probe_scale := ratio 15 10; skip_if_estimate_larger_than_fraction_of_max := double_of 0;
  skip_probe_max_allocated_scale := double_of 1;
|}.
(** What [SetRelayPath] changes for a relay. *)
Definition relay_config : ProbeControllerConfig := {|
  first_exponential_probe_scale := double_of 2; second_exponential_probe_scale := double_of 4;
  further_exponential_probe_scale := ratio 15 10; further_probe_threshold := ratio 85 100;
  abort_further_probe_if_max_lower_than_current := false; repeated_initial_probing_time_period := Seconds 3;
  initial_probe_duration := Millis 80; initial_min_probe_delta := Millis 20; alr_probing_interval := Seconds 8;
  alr_probe_scale := ratio 15 10; network_state_estimate_probing_interval := PlusInfinity;
  probe_if_estimate_lower_than_network_state_estimate_ratio := double_of 0;
  estimate_lower_than_network_state_estimate_probing_interval := Seconds 3; network_state_probe_scale := double_of 1;
  network_state_probe_duration := Millis 15; network_state_min_probe_delta := Millis 20;
  probe_on_max_allocated_bitrate_change := true; first_allocation_probe_scale := double_of 1;
  second_allocation_probe_scale := ratio 15 10; allocation_probe_limit_by_current_scale := ratio 15 10;
  min_probe_packets_sent := 5; min_probe_duration := Millis 15; cfg_min_probe_delta := Millis 2;
  loss_limited_probe_scale := ratio 125 100; skip_if_estimate_larger_than_fraction_of_max := double_of 0;
  skip_probe_max_allocated_scale := double_of 1;
|}.

Definition kMaxWaitingTimeForProbingResult : Z := Seconds 1.
Definition kPathProbeWindow : Z := Seconds 5.
Definition kPathProbeRetryInterval : Z := Seconds 1.
Definition kMaxPathProbeAttempts : Z := 3.
Definition kDropRecoveryWindow : Z := Seconds 10.
Definition kDropRecoveryInterval : Z := Seconds 1.
Definition kMaxDropRecoveryAttempts : Z := 3.
Definition kDefaultMaxProbingBitrate : Z := 200000000.
Definition kBitrateDropThreshold : double := ratio 66 100.
Definition kProbeFractionAfterDrop : double := ratio 85 100.
Definition kProbeUncertainty : double := ratio 5 100.

(** *** State *)

Inductive BandwidthLimitedCause :=
| kLossLimitedBweIncreasing | kLossLimitedBwe | kDelayBasedLimited | kDelayBasedLimitedDelayIncreased | kRttBasedBackOffHighRtt.
#[export] Instance BandwidthLimitedCause_dec : EqDecision BandwidthLimitedCause.
Proof. solve_decision. Defined.
Inductive ProbeState := kInit | kWaitingForProbingResult | kProbingComplete.
#[export] Instance ProbeState_dec : EqDecision ProbeState.
Proof. solve_decision. Defined.

Record PathProbe := mkPathProbe { pp_deadline : Z; last_probe_time : Z; cluster_id : option Z; pp_attempts : Z }.
Record DropRecovery := mkRecovery { reference_rate : Z; dr_deadline : Z; next_attempt : Z; recovered_since : Z; dr_attempts : Z }.

Record ProbeController := mkController {
  network_available_ : bool; repeated_initial_probing_enabled_ : bool; relay_path_ : bool; pending_path_probe_ : option PathProbe;
  pending_drop_recovery_ : option DropRecovery; drop_recovery_cooldown_ : Z; recovery_network_healthy_ : bool;
  last_allowed_repeated_initial_probe_ : Z; bandwidth_limited_cause_ : BandwidthLimitedCause; state_ : ProbeState;
  min_bitrate_to_probe_further_ : Z; time_last_probing_initiated_ : Z; estimated_bitrate_ : Z; network_estimate_ : option Z;
  start_bitrate_ : Z; max_bitrate_ : Z; alr_start_time_ : option Z; alr_end_time_ : option Z; enable_periodic_alr_probing_ : bool;
  max_total_allocated_bitrate_ : Z; next_probe_cluster_id_ : Z; config_ : ProbeControllerConfig;
}.
#[export] Instance eta_ProbeController : Eta ProbeController := fun s => mkController s.(network_available_)
  s.(repeated_initial_probing_enabled_) s.(relay_path_) s.(pending_path_probe_) s.(pending_drop_recovery_) s.(drop_recovery_cooldown_)
  s.(recovery_network_healthy_) s.(last_allowed_repeated_initial_probe_) s.(bandwidth_limited_cause_) s.(state_)
  s.(min_bitrate_to_probe_further_) s.(time_last_probing_initiated_) s.(estimated_bitrate_) s.(network_estimate_) s.(start_bitrate_)
  s.(max_bitrate_) s.(alr_start_time_) s.(alr_end_time_) s.(enable_periodic_alr_probing_) s.(max_total_allocated_bitrate_)
  s.(next_probe_cluster_id_) s.(config_).

(** A call gives the clusters to send. *)
Notation Probes := (list ProbeClusterConfig * ProbeController)%type.
Definition no_probes (s : ProbeController) : Probes := ([], s).

(** *** Operations *)

Definition Reset (s : ProbeController) : ProbeController :=
  s <| pending_path_probe_ := None |> <| pending_drop_recovery_ := None |> <| drop_recovery_cooldown_ := MinusInfinity |>
    <| recovery_network_healthy_ := true |> <| bandwidth_limited_cause_ := kDelayBasedLimited |> <| state_ := kInit |>
    <| min_bitrate_to_probe_further_ := PlusInfinity |> <| time_last_probing_initiated_ := 0 |> <| estimated_bitrate_ := 0 |>
    <| network_estimate_ := None |> <| start_bitrate_ := 0 |> <| max_bitrate_ := kDefaultMaxProbingBitrate |> <| alr_end_time_ := None |>.
Definition ProbeController_new : ProbeController :=
  Reset (mkController false false false None None MinusInfinity true MinusInfinity kDelayBasedLimited kInit PlusInfinity MinusInfinity
           0 None 0 PlusInfinity None None false 0 1 ProbeControllerConfig_new).

Definition UpdateState (new_state : ProbeState) (s : ProbeController) : ProbeController :=
  match new_state with
  | kInit => s <| state_ := kInit |>
  | kWaitingForProbingResult => s <| state_ := kWaitingForProbingResult |>
  | kProbingComplete => s <| state_ := kProbingComplete |> <| min_bitrate_to_probe_further_ := PlusInfinity |>
  end.

(** The duration and the distance of the bursts. *)
Definition cluster_timing (at_time bitrate : Z) (s : ProbeController) : Z * Z :=
  let c := s.(config_) in
  let initial := if at_time <? s.(last_allowed_repeated_initial_probe_) then (c.(initial_probe_duration), c.(initial_min_probe_delta))
                 else (c.(min_probe_duration), c.(cfg_min_probe_delta)) in
  match s.(network_estimate_) with
  | Some upper => if IsFinite c.(network_state_estimate_probing_interval) && IsFinite upper && (upper >=? bitrate)
                  then (c.(network_state_probe_duration), c.(network_state_min_probe_delta)) else initial
  | None => initial
  end.
Definition CreateProbeClusterConfig (at_time bitrate : Z) (s : ProbeController) : ProbeClusterConfig * ProbeController :=
  let '(duration, delta) := cluster_timing at_time bitrate s in
  (mkClusterConfig at_time bitrate duration delta s.(config_).(min_probe_packets_sent) s.(next_probe_cluster_id_),
   s <| next_probe_cluster_id_ := i32 (s.(next_probe_cluster_id_) + 1) |>).

(** Whether the estimate is so high that probing makes no sense. *)
Definition estimate_suffices (s : ProbeController) : bool :=
  let c := s.(config_) in
  positive c.(skip_if_estimate_larger_than_fraction_of_max)
  && (let network_estimate := default PlusInfinity s.(network_estimate_) in
      let max_probe_rate := if s.(max_total_allocated_bitrate_) =? 0 then s.(max_bitrate_)
        else Z.min (scaled s.(max_total_allocated_bitrate_) c.(skip_probe_max_allocated_scale)) s.(max_bitrate_) in
      Z.min network_estimate s.(estimated_bitrate_) >? scaled max_probe_rate c.(skip_if_estimate_larger_than_fraction_of_max)).
(** The highest rate to probe, unless nothing is to be probed now. *)
Definition probe_limit (s : ProbeController) : option Z :=
  let c := s.(config_) in
  let limit := if s.(max_total_allocated_bitrate_) >? 0 then Z.min s.(max_bitrate_) (td_mul s.(max_total_allocated_bitrate_) 2)
               else s.(max_bitrate_) in
  limit ← match s.(bandwidth_limited_cause_) with
          | kRttBasedBackOffHighRtt | kDelayBasedLimitedDelayIncreased | kLossLimitedBwe => None
          | kLossLimitedBweIncreasing => Some (Z.min limit (scaled s.(estimated_bitrate_) c.(loss_limited_probe_scale)))
          | kDelayBasedLimited => Some limit
          end;
  match s.(network_estimate_) with
  | Some upper =>
      if IsFinite c.(network_state_estimate_probing_interval) && IsFinite upper then
        if upper =? 0 then None else Some (Z.min limit (Z.max s.(estimated_bitrate_) (scaled upper c.(network_state_probe_scale))))
      else Some limit
  | None => Some limit
  end.
(** The clusters of the rates, and whether to probe further. *)
Fixpoint create_clusters (now limit : Z) (bitrates : list Z) (further : bool) (s : ProbeController) : list ProbeClusterConfig * bool * ProbeController :=
  match bitrates with
  | [] => ([], further, s)
  | bitrate :: bitrates =>
      let '(bitrate, further) := if bitrate >=? limit then (limit, false) else (bitrate, further) in
      let '(c, s) := CreateProbeClusterConfig now bitrate s in
      let '(l, further, s) := create_clusters now limit bitrates further s in (c :: l, further, s)
  end.
Definition InitiateProbing (now : Z) (bitrates_to_probe : list Z) (probe_further : bool) (s : ProbeController) : Probes :=
  if estimate_suffices s then ([], UpdateState kProbingComplete s) else
  match probe_limit s with
  | None => ([], s)
  | Some limit =>
      let '(pending_probes, further, s) := create_clusters now limit bitrates_to_probe probe_further s in
      let s := s <| time_last_probing_initiated_ := now |> in
      (pending_probes,
       if further then
         UpdateState kWaitingForProbingResult s
           <| min_bitrate_to_probe_further_ := scaled (from_option target_data_rate 0 (last pending_probes)) s.(config_).(further_probe_threshold) |>
       else UpdateState kProbingComplete s)
  end.

Definition InitiateExponentialProbing (at_time : Z) (s : ProbeController) : Probes :=
  let c := s.(config_) in
  let probes := scaled s.(start_bitrate_) c.(first_exponential_probe_scale)
    :: (if negb (is_zero c.(second_exponential_probe_scale)) && positive c.(second_exponential_probe_scale)
        then [scaled s.(start_bitrate_) c.(second_exponential_probe_scale)] else []) in
  let s := if s.(repeated_initial_probing_enabled_) && (s.(max_total_allocated_bitrate_) =? 0)
           then s <| last_allowed_repeated_initial_probe_ := td_add at_time c.(repeated_initial_probing_time_period) |> else s in
  InitiateProbing at_time probes true s.

Definition SetBitrates (min_bitrate start_bitrate max_bitrate at_time : Z) (s : ProbeController) : Probes :=
  let s := if start_bitrate >? 0 then s <| start_bitrate_ := start_bitrate |> <| estimated_bitrate_ := start_bitrate |>
           else if s.(start_bitrate_) =? 0 then s <| start_bitrate_ := min_bitrate |> else s in
  let old_max_bitrate := s.(max_bitrate_) in
  let s := s <| max_bitrate_ := if IsFinite max_bitrate then max_bitrate else kDefaultMaxProbingBitrate |> in
  match s.(state_) with
  | kInit => if s.(network_available_) then InitiateExponentialProbing at_time s else no_probes s
  | kWaitingForProbingResult => no_probes s
  | kProbingComplete =>
      if negb (s.(estimated_bitrate_) =? 0) && (old_max_bitrate <? s.(max_bitrate_)) && (s.(estimated_bitrate_) <? s.(max_bitrate_))
      then InitiateProbing at_time [s.(max_bitrate_)] false s else no_probes s
  end.

Definition OnMaxTotalAllocatedBitrate (rate at_time : Z) (s : ProbeController) : Probes :=
  let c := s.(config_) in
  if c.(probe_on_max_allocated_bitrate_change) && bool_decide (s.(state_) = kProbingComplete) && negb (rate =? s.(max_total_allocated_bitrate_))
     && (s.(estimated_bitrate_) <? s.(max_bitrate_)) && (s.(estimated_bitrate_) <? rate) && bool_decide (is_Some s.(alr_start_time_)) then
    let s := s <| max_total_allocated_bitrate_ := rate |> in
    if is_zero c.(first_allocation_probe_scale) then no_probes s else
    let first_probe_rate := scaled rate c.(first_allocation_probe_scale) in
    let current_bwe_limit := scaled s.(estimated_bitrate_) c.(allocation_probe_limit_by_current_scale) in
    let limited := current_bwe_limit <? first_probe_rate in
    let first_probe_rate := if limited then current_bwe_limit else first_probe_rate in
    let '(probes, limited) :=
      if negb limited && negb (is_zero c.(second_allocation_probe_scale)) then
        let second_probe_rate := scaled rate c.(second_allocation_probe_scale) in
        let limited := current_bwe_limit <? second_probe_rate in
        let second_probe_rate := if limited then current_bwe_limit else second_probe_rate in
        (first_probe_rate :: (if second_probe_rate >? first_probe_rate then [second_probe_rate] else []), limited)
      else ([first_probe_rate], limited) in
    InitiateProbing at_time probes limited s
  else
    no_probes ((if rate =? 0 then s else s <| last_allowed_repeated_initial_probe_ := at_time |>) <| max_total_allocated_bitrate_ := rate |>).

Definition OnNetworkAvailability (at_time : Z) (available : bool) (s : ProbeController) : Probes :=
  let was_network_available := s.(network_available_) in
  let s := s <| network_available_ := available |> in
  if negb available then
    no_probes (s <| pending_drop_recovery_ := None |> <| drop_recovery_cooldown_ := MinusInfinity |> <| pending_path_probe_ := None |>
                 <| state_ := kInit |> <| min_bitrate_to_probe_further_ := PlusInfinity |> <| last_allowed_repeated_initial_probe_ := 0 |>)
  else if negb was_network_available && bool_decide (s.(state_) = kInit) && negb (s.(start_bitrate_) =? 0)
  then InitiateExponentialProbing at_time s else no_probes s.

(** What a new estimate does to a recovery, and whether a drop starts one. *)
Definition update_recovery (bitrate at_time : Z) (r : DropRecovery) : DropRecovery :=
  let expected := scaled (scaled r.(reference_rate) kProbeFractionAfterDrop) (SFsub 53 1024 (double_of 1) kProbeUncertainty) in
  let since := if bitrate >=? expected then if IsInfinite r.(recovered_since) then at_time else r.(recovered_since) else PlusInfinity in
  mkRecovery r.(reference_rate) r.(dr_deadline) r.(next_attempt) since r.(dr_attempts).
Definition note_drop (bitrate at_time : Z) (s : ProbeController) : ProbeController :=
  if (bitrate <? scaled s.(estimated_bitrate_) kBitrateDropThreshold) && s.(network_available_)
     && bool_decide (s.(pending_drop_recovery_) = None) && (at_time >=? s.(drop_recovery_cooldown_))
  then s <| pending_drop_recovery_ := Some (mkRecovery s.(estimated_bitrate_) (td_add at_time kDropRecoveryWindow) (td_add at_time (Millis 500))
                                              PlusInfinity 0) |>
  else s.
Definition SetEstimatedBitrate (bitrate : Z) (cause : BandwidthLimitedCause) (at_time : Z) (healthy : bool) (s : ProbeController) : Probes :=
  let s := s <| bandwidth_limited_cause_ := cause |> <| recovery_network_healthy_ := healthy |>
             <| pending_drop_recovery_ ::= fmap (update_recovery bitrate at_time) |> in
  let s := note_drop bitrate at_time s in
  let s := s <| estimated_bitrate_ := bitrate |> in
  let c := s.(config_) in
  match s.(state_) with
  | kWaitingForProbingResult =>
      let s := if c.(abort_further_probe_if_max_lower_than_current)
                  && ((bitrate >? s.(max_bitrate_))
                      || (negb (s.(max_total_allocated_bitrate_) =? 0) && (bitrate >? td_mul s.(max_total_allocated_bitrate_) 2)))
               then s <| min_bitrate_to_probe_further_ := PlusInfinity |> else s in
      let further_limit := match s.(network_estimate_) with
        | Some upper => if IsFinite c.(network_state_estimate_probing_interval) && IsFinite upper then scaled upper c.(further_probe_threshold)
                        else PlusInfinity
        | None => PlusInfinity
        end in
      if (bitrate >? s.(min_bitrate_to_probe_further_)) && (bitrate <=? further_limit)
      then InitiateProbing at_time [scaled bitrate c.(further_exponential_probe_scale)] true s else no_probes s
  | _ => no_probes s
  end.

Definition EnablePeriodicAlrProbing (enable : bool) (s : ProbeController) : ProbeController := s <| enable_periodic_alr_probing_ := enable |>.
Definition EnableRepeatedInitialProbing (enable : bool) (s : ProbeController) : ProbeController :=
  let s := s <| repeated_initial_probing_enabled_ := enable |> in
  if enable then s else s <| last_allowed_repeated_initial_probe_ := 0 |>.
Definition pc_SetRelayPath (relay_path : bool) (s : ProbeController) : ProbeController :=
  if Bool.eqb s.(relay_path_) relay_path then s else
  s <| relay_path_ := relay_path |> <| pending_path_probe_ := None |> <| pending_drop_recovery_ := None |>
    <| drop_recovery_cooldown_ := MinusInfinity |> <| config_ := if relay_path then relay_config else ProbeControllerConfig_new |>.

Definition MaybeProbeNewPath (at_time : Z) (s : ProbeController) : Probes :=
  match s.(pending_path_probe_) with
  | None => no_probes s
  | Some p =>
      if negb s.(network_available_) || s.(relay_path_) || (at_time >=? p.(pp_deadline)) then no_probes (s <| pending_path_probe_ := None |>) else
      if (s.(estimated_bitrate_) =? 0) || negb (bool_decide (s.(state_) = kProbingComplete))
         || (td_sub at_time p.(last_probe_time) <? kPathProbeRetryInterval) then no_probes s else
      if p.(pp_attempts) >=? kMaxPathProbeAttempts then no_probes (s <| pending_path_probe_ := None |>) else
      let '(probes, s) := InitiateProbing at_time [scaled s.(estimated_bitrate_) s.(config_).(alr_probe_scale)] true s in
      (probes, match probes with
               | [] => s
               | c :: _ => s <| pending_path_probe_ := Some (mkPathProbe p.(pp_deadline) at_time (Some c.(config_id)) (p.(pp_attempts) + 1)) |>
               end)
  end.
Definition RequestProbeOnPathChange (at_time : Z) (s : ProbeController) : Probes :=
  let s := s <| pending_drop_recovery_ := None |> in
  if s.(relay_path_) || negb s.(network_available_) || (s.(estimated_bitrate_) =? 0) then no_probes s else
  MaybeProbeNewPath at_time (match s.(pending_path_probe_) with
    | None => s <| pending_path_probe_ := Some (mkPathProbe (td_add at_time kPathProbeWindow) MinusInfinity None 0) |>
    | Some _ => s
    end).
Definition OnProbeResult (id at_time : Z) (s : ProbeController) : ProbeController :=
  match s.(pending_path_probe_) with
  | Some p => if bool_decide (p.(cluster_id) = Some id) && (at_time <=? p.(pp_deadline)) then s <| pending_path_probe_ := None |> else s
  | None => s
  end.

Definition SetAlrStartTimeMs (t : option Z) (s : ProbeController) : ProbeController := s <| alr_start_time_ := Millis <$> t |>.
Definition SetAlrEndedTimeMs (t : Z) (s : ProbeController) : ProbeController := s <| alr_end_time_ := Some (Millis t) |>.
Definition SetNetworkStateEstimate (upper : Z) (s : ProbeController) : ProbeController := s <| network_estimate_ := Some upper |>.

(** The end of a recovery: done, or given up. *)
Definition recovered (at_time : Z) (r : DropRecovery) (s : ProbeController) : bool :=
  s.(recovery_network_healthy_) && bool_decide (s.(bandwidth_limited_cause_) = kDelayBasedLimited) && IsFinite r.(recovered_since)
  && (td_sub at_time r.(recovered_since) >=? Seconds 1).
Definition given_up (at_time : Z) (r : DropRecovery) (s : ProbeController) : bool :=
  negb s.(network_available_) || (at_time >=? r.(dr_deadline))
  || ((r.(dr_attempts) >=? kMaxDropRecoveryAttempts) && (at_time >=? r.(next_attempt)) && IsInfinite r.(recovered_since)).
Definition MaybeProbeAfterDrop (at_time : Z) (s : ProbeController) : Probes :=
  match s.(pending_drop_recovery_) with
  | None => no_probes s
  | Some r =>
      if recovered at_time r s then no_probes (s <| pending_drop_recovery_ := None |>) else
      if given_up at_time r s
      then no_probes (s <| pending_drop_recovery_ := None |> <| drop_recovery_cooldown_ := td_add at_time kDropRecoveryWindow |>) else
      if negb s.(recovery_network_healthy_) || negb (bool_decide (s.(bandwidth_limited_cause_) = kDelayBasedLimited))
         || IsFinite r.(recovered_since) || bool_decide (is_Some s.(pending_path_probe_))
         || negb (bool_decide (s.(state_) = kProbingComplete)) || (at_time <? r.(next_attempt)) then no_probes s else
      let '(probes, s) := InitiateProbing at_time [scaled r.(reference_rate) kProbeFractionAfterDrop] false s in
      (probes, s <| pending_drop_recovery_ := Some (mkRecovery r.(reference_rate) r.(dr_deadline) (td_add at_time kDropRecoveryInterval)
                      r.(recovered_since) (match probes with [] => r.(dr_attempts) | _ => r.(dr_attempts) + 1 end)) |>)
  end.
Definition RequestProbe (at_time : Z) (s : ProbeController) : Probes := MaybeProbeAfterDrop at_time s.

Definition TimeForAlrProbe (at_time : Z) (s : ProbeController) : bool :=
  match s.(alr_start_time_) with
  | Some start => s.(enable_periodic_alr_probing_)
                  && (at_time >=? td_add (Z.max start s.(time_last_probing_initiated_)) s.(config_).(alr_probing_interval))
  | None => false
  end.
Definition TimeForNetworkStateProbe (at_time : Z) (s : ProbeController) : bool :=
  let c := s.(config_) in
  match s.(network_estimate_) with
  | None => false
  | Some upper =>
      if IsInfinite upper then false else
      let low := bool_decide (s.(bandwidth_limited_cause_) = kDelayBasedLimited)
                 && (s.(estimated_bitrate_) <? scaled upper c.(probe_if_estimate_lower_than_network_state_estimate_ratio)) in
      if low && IsFinite c.(estimate_lower_than_network_state_estimate_probing_interval)
      then at_time >=? td_add s.(time_last_probing_initiated_) c.(estimate_lower_than_network_state_estimate_probing_interval) else
      if (s.(estimated_bitrate_) <? upper) && IsFinite c.(network_state_estimate_probing_interval)
      then at_time >=? td_add s.(time_last_probing_initiated_) c.(network_state_estimate_probing_interval) else false
  end.
Definition TimeForNextRepeatedInitialProbe (at_time : Z) (s : ProbeController) : bool :=
  s.(repeated_initial_probing_enabled_) && negb (bool_decide (s.(state_) = kWaitingForProbingResult))
  && (s.(last_allowed_repeated_initial_probe_) >? at_time)
  && (at_time >=? td_add s.(time_last_probing_initiated_) kMaxWaitingTimeForProbingResult).

(** [Process]: first the time that an answer may take. *)
Definition wait_over (at_time : Z) (s : ProbeController) : ProbeController :=
  if (td_sub at_time s.(time_last_probing_initiated_) >? kMaxWaitingTimeForProbingResult) && bool_decide (s.(state_) = kWaitingForProbingResult)
  then UpdateState kProbingComplete s else s.
Definition Process (at_time : Z) (s : ProbeController) : Probes :=
  let s := wait_over at_time s in
  let '(path_probes, s) := MaybeProbeNewPath at_time s in
  if negb (bool_decide (path_probes = [])) then (path_probes, s) else
  if bool_decide (is_Some s.(pending_drop_recovery_)) then MaybeProbeAfterDrop at_time s else
  if (s.(estimated_bitrate_) =? 0) || negb (bool_decide (s.(state_) = kProbingComplete)) then no_probes s else
  if TimeForNextRepeatedInitialProbe at_time s
  then InitiateProbing at_time [scaled s.(estimated_bitrate_) s.(config_).(first_exponential_probe_scale)] true s else
  if TimeForAlrProbe at_time s || TimeForNetworkStateProbe at_time s
  then InitiateProbing at_time [scaled s.(estimated_bitrate_) s.(config_).(alr_probe_scale)] true s else no_probes s.

(** *** Calls *)

Inductive ProbeCall :=
| PcSetBitrates (min_bitrate start_bitrate max_bitrate at_time : Z) | PcMaxTotalAllocated (rate at_time : Z)
| PcNetworkAvailability (at_time : Z) (available : bool) | PcSetEstimatedBitrate (bitrate : Z) (cause : BandwidthLimitedCause) (at_time : Z) (healthy : bool)
| PcEnablePeriodicAlr (b : bool) | PcEnableRepeatedInitial (b : bool) | PcSetRelayPath (b : bool) | PcRequestProbeOnPathChange (at_time : Z)
| PcOnProbeResult (id at_time : Z) | PcSetAlrStartTime (t : option Z) | PcSetAlrEndedTime (t : Z) | PcRequestProbe (at_time : Z)
| PcSetNetworkStateEstimate (upper : Z) | PcReset | PcProcess (at_time : Z).

Definition pc_call (c : ProbeCall) (s : ProbeController) : Probes :=
  match c with
  | PcSetBitrates a b c t => SetBitrates a b c t s
  | PcMaxTotalAllocated r t => OnMaxTotalAllocatedBitrate r t s
  | PcNetworkAvailability t b => OnNetworkAvailability t b s
  | PcSetEstimatedBitrate r c t h => SetEstimatedBitrate r c t h s
  | PcEnablePeriodicAlr b => no_probes (EnablePeriodicAlrProbing b s)
  | PcEnableRepeatedInitial b => no_probes (EnableRepeatedInitialProbing b s)
  | PcSetRelayPath b => no_probes (pc_SetRelayPath b s)
  | PcRequestProbeOnPathChange t => RequestProbeOnPathChange t s
  | PcOnProbeResult i t => no_probes (OnProbeResult i t s)
  | PcSetAlrStartTime t => no_probes (SetAlrStartTimeMs t s)
  | PcSetAlrEndedTime t => no_probes (SetAlrEndedTimeMs t s)
  | PcRequestProbe t => RequestProbe t s
  | PcSetNetworkStateEstimate u => no_probes (SetNetworkStateEstimate u s)
  | PcReset => no_probes (Reset s)
  | PcProcess t => Process t s
  end.
(** All the clusters asked for. *)
Fixpoint pc_calls (cs : list ProbeCall) (s : ProbeController) : Probes :=
  match cs with
  | [] => no_probes s
  | c :: cs => let '(l, s) := pc_call c s in let '(k, s) := pc_calls cs s in (l ++ k, s)
  end.
