(* ===== verification/ProbeControllerProofs.v ===== *)
(** * What the controller of the probes promises ([minirtc/src/qos/probe_controller.cc])

    No cluster exceeds the limits, whatever the state; the state stays sound and the clusters are numbered, whatever the calls;
    and two ways in which probing ends for good. *)
From S2P Require Export ProbeController.
#[local] Open Scope Z_scope.

(** ** What every call does to the state *)

(** The causes that forbid a probe. *)
Definition congested_cause (c : BandwidthLimitedCause) : bool :=
  match c with kRttBasedBackOffHighRtt | kDelayBasedLimitedDelayIncreased | kLossLimitedBwe => true | _ => false end.

(** A cluster within the limits of the state. *)
Record within (s : ProbeController) (k : ProbeClusterConfig) : Prop := {
  wi_max : k.(target_data_rate) <= s.(max_bitrate_);
  wi_total : 0 < s.(max_total_allocated_bitrate_) -> k.(target_data_rate) <= td_mul s.(max_total_allocated_bitrate_) 2;
  wi_cause : congested_cause s.(bandwidth_limited_cause_) = false;
  wi_loss : s.(bandwidth_limited_cause_) = kLossLimitedBweIncreasing ->
    k.(target_data_rate) <= scaled s.(estimated_bitrate_) s.(config_).(loss_limited_probe_scale);
}.

(** What the limits depend on. *)
Definition limits (s : ProbeController) :=
  (s.(max_bitrate_), s.(max_total_allocated_bitrate_), s.(bandwidth_limited_cause_), s.(estimated_bitrate_), s.(config_), s.(network_estimate_)).
Lemma within_limits s s' k : limits s' = limits s -> within s k -> within s' k.
Proof. intros E [H1 H2 H3 H4]. injection E as E1 E2 E3 E4 E5 _. split; by rewrite ?E1, ?E2, ?E3, ?E4, ?E5. Qed.

Lemma probe_limit_within s limit k : probe_limit s = Some limit -> k.(target_data_rate) <= limit -> within s k.
Proof.
  unfold probe_limit. set (l0 := if max_total_allocated_bitrate_ s >? 0 then _ else _). intros E Hk.
  assert (Hx : exists l1, limit <= l1 /\ match s.(bandwidth_limited_cause_) with
          | kRttBasedBackOffHighRtt | kDelayBasedLimitedDelayIncreased | kLossLimitedBwe => None
          | kLossLimitedBweIncreasing => Some (Z.min l0 (scaled s.(estimated_bitrate_) s.(config_).(loss_limited_probe_scale)))
          | kDelayBasedLimited => Some l0
          end = Some l1).
  { revert E. unfold mbind, option_bind. 
    match goal with |- match ?o with Some _ => _ | None => _ end = _ -> _ => destruct o as [l1|]; [|done] end. intros E. exists l1. split; [|done].
    destruct (network_estimate_ s) as [u|]; [|by injection E as ->]. destruct (_ && _); [|by injection E as ->].
    destruct (u =? 0); [done|]. injection E as <-. lia. }
  clear E. destruct Hx as (l1 & Hl & E).
  assert (H0 : l0 <= max_bitrate_ s /\ (0 < max_total_allocated_bitrate_ s -> l0 <= td_mul (max_total_allocated_bitrate_ s) 2)).
  { unfold l0. destruct (Z.gtb_spec (max_total_allocated_bitrate_ s) 0); lia. }
  clearbody l0. destruct H0 as [H0 H0'].
  assert (H1 : l1 <= l0) by (destruct (bandwidth_limited_cause_ s); try done; injection E as <-; lia).
  split; [lia|intros Ht; specialize (H0' Ht); lia|by destruct (bandwidth_limited_cause_ s)|].
  intros Ec. rewrite Ec in E. injection E as <-. lia.
Qed.

(** The clusters have consecutive numbers. *)
Fixpoint id_after (n : nat) (i : Z) : Z := match n with O => i | S n => id_after n (i32 (i + 1)) end.
Fixpoint ids (n : nat) (i : Z) : list Z := match n with O => [] | S n => i :: ids n (i32 (i + 1)) end.
Record numbers_on (l : list ProbeClusterConfig) (s s' : ProbeController) : Prop := {
  no_ids : config_id <$> l = ids (length l) s.(next_probe_cluster_id_);
  no_next : s'.(next_probe_cluster_id_) = id_after (length l) s.(next_probe_cluster_id_);
}.
Lemma numbers_nil s s' : s'.(next_probe_cluster_id_) = s.(next_probe_cluster_id_) -> numbers_on [] s s'.
Proof. by split. Qed.
Lemma ids_app n m i : ids (n + m) i = ids n i ++ ids m (id_after n i) /\ id_after (n + m) i = id_after m (id_after n i).
Proof. revert i. induction n as [|n IH]; intros i; [done|]. cbn. by destruct (IH (i32 (i + 1))) as [-> ->]. Qed.
Lemma numbers_app l k s1 s2 s3 : numbers_on l s1 s2 -> numbers_on k s2 s3 -> numbers_on (l ++ k) s1 s3.
Proof.
  intros [H1 N1] [H2 N2]. destruct (ids_app (length l) (length k) (next_probe_cluster_id_ s1)) as [E1 E2].
  split; rewrite length_app, ?E1, ?E2, ?fmap_app; congruence.
Qed.

(** Apart from the numbers nothing changes while clusters are made. *)
Lemma create_clusters_spec now limit bs further s l f s' : create_clusters now limit bs further s = (l, f, s') ->
  (exists i, s' = s <| next_probe_cluster_id_ := i |>) /\ Forall (fun k => k.(target_data_rate) <= limit) l /\ numbers_on l s s' /\ length l = length bs.
Proof.
  revert further s l f s'. induction bs as [|b bs IH]; intros further s l f s'.
  { intros [= <- <- <-]. split; [by exists (next_probe_cluster_id_ s); destruct s|]. by split. }
  cbn [create_clusters]. set (x := if b >=? limit then _ else _).
  assert (Hx : x.1 <= limit) by (unfold x; destruct (Z.geb_spec b limit); cbn; lia). destruct x as [r g]. cbn in Hx.
  unfold CreateProbeClusterConfig. destruct (cluster_timing now r s) as [d e]. set (s1 := s <| next_probe_cluster_id_ := _ |>).
  destruct (create_clusters now limit bs g s1) as [[k h] s2] eqn:E. intros [= <- <- <-]. destruct (IH _ _ _ _ _ E) as ((i & ->) & Hk & [Hn1 Hn2] & Hl).
  split; [by exists i|]. split; [by constructor|]. split; [|cbn; by rewrite Hl]. split; cbn; [by rewrite Hn1|exact Hn2].
Qed.

(** *** The state that every call keeps *)

Record controller_ok (s : ProbeController) : Prop := {
  ok_off : s.(network_available_) = false -> s.(state_) = kInit /\ s.(pending_path_probe_) = None /\ s.(pending_drop_recovery_) = None;
  ok_wait : s.(state_) <> kWaitingForProbingResult -> s.(min_bitrate_to_probe_further_) = PlusInfinity;
  ok_path : forall p, s.(pending_path_probe_) = Some p -> s.(relay_path_) = false /\ 0 <= p.(pp_attempts) <= 3;
  ok_drop : forall r, s.(pending_drop_recovery_) = Some r -> 0 <= r.(dr_attempts) <= 3;
}.

(** What a call that starts at [s] gives. *)
Record outcome (s : ProbeController) (r : Probes) : Prop := {
  oc_within : Forall (within r.2) r.1;
  oc_numbers : numbers_on r.1 s r.2;
  oc_ok : controller_ok s -> controller_ok r.2;
  oc_off : controller_ok s -> r.2.(network_available_) = false -> r.1 = [];
}.

Lemma silent s s' : s'.(next_probe_cluster_id_) = s.(next_probe_cluster_id_) -> (controller_ok s -> controller_ok s') -> outcome s (no_probes s').
Proof. intros En Hk. split; [done|by apply numbers_nil|done|done]. Qed.
Lemma outcome_then s l s2 s3 : outcome s (l, s2) -> limits s3 = limits s2 -> s3.(next_probe_cluster_id_) = s2.(next_probe_cluster_id_) ->
  s3.(network_available_) = s2.(network_available_) -> (controller_ok s -> controller_ok s2 -> controller_ok s3) -> outcome s (l, s3).
Proof.
  intros [Hw [H1 H2] Hk Ho] El En Ew Hs. cbn in *. split; cbn.
  - eapply Forall_impl; [exact Hw|]. intros k. by apply within_limits.
  - split; [done|congruence].
  - auto.
  - rewrite Ew. auto.
Qed.
Lemma outcome_after s s1 r : s1.(next_probe_cluster_id_) = s.(next_probe_cluster_id_) -> (controller_ok s -> controller_ok s1) -> outcome s1 r -> outcome s r.
Proof. intros En Hk [Hw [H1 H2] Ho Hn]. split; [done|split; congruence|auto|auto]. Qed.

Lemma initiate_outcome now bs further s : (controller_ok s -> s.(network_available_) = true) -> outcome s (InitiateProbing now bs further s).
Proof.
  intros Hn. unfold InitiateProbing. destruct (estimate_suffices s).
  { apply silent; [done|]. intros H. destruct (H) as [H1 H2 H3 H4]. split; [cbn; by rewrite Hn|done|done|done]. }
  destruct (probe_limit s) as [limit|] eqn:El; [|by apply silent].
  destruct (create_clusters now limit bs further s) as [[l f] s1] eqn:Ec. destruct (create_clusters_spec _ _ _ _ _ _ _ _ Ec) as ((i & ->) & Hl & Hi & _).
  set (s2 := _ <| time_last_probing_initiated_ := now |>). set (s3 := if f then _ else _).
  assert (E : limits s3 = limits s /\ next_probe_cluster_id_ s3 = i /\ network_available_ s3 = network_available_ s) by (unfold s3; by destruct f).
  destruct E as (E1 & E2 & E3). split; cbn [fst snd].
  - eapply Forall_impl; [exact Hl|]. cbn. intros k Hk. eapply within_limits; [exact E1|]. by eapply probe_limit_within.
  - destruct Hi as [H1 H2]. split; [done|by rewrite E2].
  - intros H. specialize (Hn H). destruct H as [H1 H2 H3 H4]. unfold s3. destruct f; (split; [cbn; by rewrite Hn|done|done|done]).
  - intros H. rewrite E3, (Hn H). done.
Qed.
(** Only an available network has a state other than [kInit]. *)
Lemma busy_available s : s.(state_) <> kInit -> controller_ok s -> s.(network_available_) = true.
Proof. intros Hs [H _ _ _]. destruct (network_available_ s); [done|]. by destruct Hs, (H eq_refl). Qed.
(** The call first changes some fields of the state. *)
Lemma initiate_after now bs further s s1 : s1.(next_probe_cluster_id_) = s.(next_probe_cluster_id_) -> (controller_ok s -> controller_ok s1) ->
  (controller_ok s1 -> s1.(network_available_) = true) -> outcome s (InitiateProbing now bs further s1).
Proof. intros En Hk Hn. eapply outcome_after; [done|done|by apply initiate_outcome]. Qed.

(** Fields that the state does not depend on. *)
Lemma ok_fields s s' : s'.(network_available_) = s.(network_available_) -> s'.(state_) = s.(state_) ->
  s'.(pending_path_probe_) = s.(pending_path_probe_) -> s'.(pending_drop_recovery_) = s.(pending_drop_recovery_) ->
  s'.(min_bitrate_to_probe_further_) = s.(min_bitrate_to_probe_further_) -> s'.(relay_path_) = s.(relay_path_) -> controller_ok s -> controller_ok s'.
Proof. intros E1 E2 E3 E4 E5 E6 [H1 H2 H3 H4]. split; rewrite ?E1, ?E2, ?E3, ?E4, ?E5, ?E6; done. Qed.
Ltac same_ok := apply ok_fields; done.

Lemma exponential_outcome t s : s.(network_available_) = true -> outcome s (InitiateExponentialProbing t s).
Proof.
  intros Hn. unfold InitiateExponentialProbing. destruct (_ && (max_total_allocated_bitrate_ s =? 0)).
  - apply initiate_after; [done|same_ok|done].
  - by apply initiate_outcome.
Qed.

Lemma SetBitrates_outcome a b c t s : outcome s (SetBitrates a b c t s).
Proof.
  unfold SetBitrates. set (s1 := if b >? 0 then _ else _).
  assert (E1 : next_probe_cluster_id_ s1 = next_probe_cluster_id_ s /\ (controller_ok s -> controller_ok s1)
    /\ state_ s1 = state_ s /\ network_available_ s1 = network_available_ s).
  { unfold s1. destruct (b >? 0); [|destruct (start_bitrate_ s =? 0)]; (split; [done|split; [same_ok|done]]). }
  destruct E1 as (En & Hk & Es & Ew). clearbody s1. set (s2 := s1 <| max_bitrate_ := _ |>).
  assert (Hk2 : controller_ok s -> controller_ok s2) by (intros H%Hk; revert H; same_ok).
  change (state_ s2) with (state_ s1). change (network_available_ s2) with (network_available_ s1).
  destruct (state_ s1) eqn:Est.
  - destruct (network_available_ s1) eqn:Ewn; [|by apply silent]. apply (outcome_after s s2); [exact En|exact Hk2|by apply exponential_outcome].
  - by apply silent.
  - destruct (_ && _); [|by apply silent]. apply initiate_after; [done|done|]. apply busy_available. change (state_ s2) with (state_ s1). by rewrite Est.
Qed.

Lemma OnMaxTotal_outcome r t s : outcome s (OnMaxTotalAllocatedBitrate r t s).
Proof.
  unfold OnMaxTotalAllocatedBitrate. destruct (_ && bool_decide (is_Some (alr_start_time_ s))) eqn:Eb.
  2: { apply silent; [by destruct (r =? 0)|]. destruct (r =? 0); same_ok. }
  assert (Es : state_ s = kProbingComplete) by (repeat (apply andb_true_iff in Eb as [Eb ?]); by eapply bool_decide_eq_true).
  set (s1 := s <| max_total_allocated_bitrate_ := r |>). destruct (is_zero _); [apply silent; [done|same_ok]|].
  destruct (if negb _ && negb _ then _ else _) as [probes limited]. apply initiate_after; [done|same_ok|].
  apply busy_available. change (state_ s1) with (state_ s). by rewrite Es.
Qed.

Lemma OnNetwork_outcome t b s : outcome s (OnNetworkAvailability t b s).
Proof.
  unfold OnNetworkAvailability. destruct b; cbn [negb].
  - set (s1 := s <| network_available_ := true |>).
    assert (Hk : controller_ok s -> controller_ok s1) by (intros [H1 H2 H3 H4]; split; done).
    destruct (_ && _); [|by apply silent]. apply (outcome_after s s1); [done|exact Hk|by apply exponential_outcome].
  - apply silent; [done|]. intros [H1 H2 H3 H4]. split; done.
Qed.

Lemma note_drop_spec r t s : next_probe_cluster_id_ (note_drop r t s) = next_probe_cluster_id_ s /\ (controller_ok s -> controller_ok (note_drop r t s))
  /\ state_ (note_drop r t s) = state_ s.
Proof.
  unfold note_drop. destruct (_ && _) eqn:Eb; [|done]. split; [done|]. split; [|done]. apply andb_true_iff in Eb as [Eb _].
  apply andb_true_iff in Eb as [Eb _]. apply andb_true_iff in Eb as [_ En]. intros [H1 H2 H3 H4]. split; [cbn; by rewrite En|done|done|].
  intros x [= <-]. cbn. lia.
Qed.
Lemma SetEstimated_outcome r c t h s : outcome s (SetEstimatedBitrate r c t h s).
Proof.
  unfold SetEstimatedBitrate. set (s1 := s <| bandwidth_limited_cause_ := c |> <| recovery_network_healthy_ := h |> <| pending_drop_recovery_ ::= _ |>).
  assert (Hk1 : controller_ok s -> controller_ok s1).
  { intros [H1 H2 H3 H4]. split; [|done|done|].
    - intros H. destruct (H1 H) as (? & ? & E). split; [done|]. split; [done|]. cbn. by rewrite E.
    - intros x. cbn. destruct (pending_drop_recovery_ s) as [y|]; [|done]. intros [= <-]. exact (H4 y eq_refl). }
  assert (En1 : next_probe_cluster_id_ s1 = next_probe_cluster_id_ s) by done. assert (Es1 : state_ s1 = state_ s) by done. clearbody s1.
  destruct (note_drop_spec r t s1) as (En2 & Hk2 & Es2). set (s2 := note_drop r t s1) in *. clearbody s2.
  set (s3 := s2 <| estimated_bitrate_ := r |>). assert (Hk3 : controller_ok s -> controller_ok s3) by (intros H%Hk1%Hk2; revert H; same_ok).
  assert (En3 : next_probe_cluster_id_ s3 = next_probe_cluster_id_ s) by (change (next_probe_cluster_id_ s2 = next_probe_cluster_id_ s); congruence).
  clearbody s3. destruct (state_ s3) eqn:Es; [by apply silent| |by apply silent]. cbv zeta.
  set (s4 := if _ && _ then _ else s3). assert (Hk4 : controller_ok s3 -> controller_ok s4).
  { unfold s4. destruct (_ && _); [|done]. intros [H1 H2 H3 H4]. by split. }
  assert (En4 : next_probe_cluster_id_ s4 = next_probe_cluster_id_ s3) by (unfold s4; by destruct (_ && _)).
  assert (Es4 : state_ s4 = kWaitingForProbingResult) by (unfold s4; by destruct (_ && _)). clearbody s4.
  destruct (_ && _); [|apply silent; [congruence|auto]]. apply initiate_after; [congruence|auto|]. apply busy_available. by rewrite Es4.
Qed.

(** A probe leaves the network and what is pending alone. *)
Lemma initiate_rest now bs further s l s2 : InitiateProbing now bs further s = (l, s2) ->
  s2.(network_available_) = s.(network_available_) /\ s2.(relay_path_) = s.(relay_path_) /\ s2.(pending_path_probe_) = s.(pending_path_probe_)
  /\ s2.(pending_drop_recovery_) = s.(pending_drop_recovery_).
Proof.
  unfold InitiateProbing. destruct (estimate_suffices s); [by intros [= _ <-]|]. destruct (probe_limit s) as [lim|]; [|by intros [= _ <-]].
  destruct (create_clusters _ _ _ _ s) as [[k f] s1] eqn:Ec. destruct (create_clusters_spec _ _ _ _ _ _ _ _ Ec) as ((i & ->) & _).
  intros [= _ <-]. by destruct f.
Qed.

Lemma NewPath_outcome t s : outcome s (MaybeProbeNewPath t s).
Proof.
  unfold MaybeProbeNewPath. destruct (pending_path_probe_ s) as [p|] eqn:Ep; [|by apply silent].
  assert (Hclear : controller_ok s -> controller_ok (s <| pending_path_probe_ := None |>)).
  { intros [H1 H2 H3 H4]. split; [|done|done|done]. intros H. by destruct (H1 H) as (? & _ & ?). }
  destruct (_ || _) eqn:Eb; [by apply silent|]. apply orb_false_iff in Eb as [Eb _]. apply orb_false_iff in Eb as [En _]. apply negb_false_iff in En.
  destruct (_ || _); [by apply silent|]. destruct (Z.geb_spec (pp_attempts p) kMaxPathProbeAttempts) as [_|Ha]; [by apply silent|].
  change kMaxPathProbeAttempts with 3 in Ha. destruct (InitiateProbing _ _ _ s) as [l s2] eqn:Ei.
  assert (Ho : outcome s (l, s2)) by (rewrite <- Ei; by apply initiate_outcome).
  destruct l as [|c l]; [done|]. eapply outcome_then; [exact Ho|done..|]. intros Hs Hs2.
  destruct (ok_path s Hs p Ep) as [Hr Hp]. destruct (initiate_rest _ _ _ _ _ _ Ei) as (E1 & E2 & _).
  destruct Hs2 as [H1 H2 H3 H4]. split; [cbn; by rewrite E1, En|done| |done]. intros x [= <-]. cbn. rewrite E2. split; [done|lia].
Qed.

Lemma AfterDrop_outcome t s : outcome s (MaybeProbeAfterDrop t s).
Proof.
  unfold MaybeProbeAfterDrop. destruct (pending_drop_recovery_ s) as [r|] eqn:Er; [|by apply silent].
  assert (Hclear : controller_ok s -> controller_ok (s <| pending_drop_recovery_ := None |>)).
  { intros [H1 H2 H3 H4]. split; [|done|done|done]. intros H. by destruct (H1 H) as (? & ? & _). }
  destruct (recovered t r s); [by apply silent|]. destruct (given_up t r s) eqn:Eg.
  { apply silent; [done|]. intros H%Hclear. revert H. same_ok. }
  destruct (_ || _) eqn:Eb; [by apply silent|]. apply orb_false_iff in Eb as [Eb Et]. apply orb_false_iff in Eb as [Eb Es].
  apply orb_false_iff in Eb as [Eb _]. apply orb_false_iff in Eb as [_ Ei0]. apply negb_false_iff, bool_decide_eq_true in Es.
  destruct (InitiateProbing _ _ _ s) as [l s2] eqn:Ei.
  assert (Ho : outcome s (l, s2)) by (rewrite <- Ei; apply initiate_outcome, busy_available; by rewrite Es).
  eapply outcome_then; [exact Ho|done..|]. intros Hs Hs2. pose proof (busy_available s ltac:(by rewrite Es) Hs) as Hn.
  destruct (initiate_rest _ _ _ _ _ _ Ei) as (E1 & _). pose proof (ok_drop s Hs r Er) as Hr.
  assert (Ha : dr_attempts r < 3).
  { unfold given_up in Eg. apply orb_false_iff in Eg as [_ Eg]. change kMaxDropRecoveryAttempts with 3 in Eg. unfold IsFinite in Ei0.
    apply negb_false_iff in Ei0. rewrite Ei0, andb_true_r in Eg. apply andb_false_iff in Eg as [Eg|Eg]; lia. }
  destruct Hs2 as [H1 H2 H3 H4]. split; [cbn; by rewrite E1, Hn|done|done|]. intros x [= <-]. cbn. destruct l; lia.
Qed.

Lemma wait_over_spec t s : next_probe_cluster_id_ (wait_over t s) = next_probe_cluster_id_ s /\ (controller_ok s -> controller_ok (wait_over t s)).
Proof.
  unfold wait_over. destruct (_ && _) eqn:Eb; [|done]. split; [done|]. apply andb_true_iff in Eb as [_ Es]. apply bool_decide_eq_true in Es.
  intros H. pose proof (busy_available s ltac:(by rewrite Es) H) as Hn. destruct H as [H1 H2 H3 H4]. split; [cbn; by rewrite Hn|done|done|done].
Qed.

Lemma Process_outcome t s : outcome s (Process t s).
Proof.
  unfold Process. destruct (wait_over_spec t s) as [En0 Hk0]. set (s0 := wait_over t s) in *. clearbody s0.
  pose proof (NewPath_outcome t s0) as Ho. destruct (MaybeProbeNewPath t s0) as [l s1]. apply (outcome_after s) in Ho; [|done..].
  case_bool_decide as El; cbn [negb]; [|done]. subst l. destruct Ho as [_ [_ Hn] Hk _]. cbn in Hn, Hk.
  case_bool_decide; [apply (outcome_after s s1); [done|done|apply AfterDrop_outcome]|].
  destruct (estimated_bitrate_ s1 =? 0); [by apply silent|]. case_bool_decide as Es; cbn [negb orb]; [|by apply silent].
  assert (Hb : controller_ok s1 -> network_available_ s1 = true) by (apply busy_available; by rewrite Es).
  destruct (TimeForNextRepeatedInitialProbe t s1); [by apply initiate_after|]. destruct (_ || _); [by apply initiate_after|by apply silent].
Qed.

Lemma SetRelay_ok b s : next_probe_cluster_id_ (pc_SetRelayPath b s) = next_probe_cluster_id_ s /\ (controller_ok s -> controller_ok (pc_SetRelayPath b s)).
Proof.
  unfold pc_SetRelayPath. destruct (Bool.eqb _ b); [done|]. split; [done|]. intros [H1 H2 H3 H4]. split; [|done|done|done].
  intros H. by destruct (H1 H).
Qed.
Lemma OnPathChange_outcome t s : outcome s (RequestProbeOnPathChange t s).
Proof.
  unfold RequestProbeOnPathChange. set (s1 := s <| pending_drop_recovery_ := None |>).
  assert (Hk : controller_ok s -> controller_ok s1) by (intros [H1 H2 H3 H4]; split; [intros H; by destruct (H1 H) as (? & ? & _)|done..]).
  destruct (_ || _) eqn:Eb; [by apply silent|]. apply orb_false_iff in Eb as [Eb _]. apply orb_false_iff in Eb as [Er En]. apply negb_false_iff in En.
  destruct (pending_path_probe_ s1) as [p|] eqn:Ep; [by apply (outcome_after s s1), NewPath_outcome|].
  set (s2 := s1 <| pending_path_probe_ := _ |>). apply (outcome_after s s2); [done| |apply NewPath_outcome]. intros [H1 H2 H3 H4]%Hk.
  split; [|done| |done].
  - change (network_available_ s2) with (network_available_ s1). by rewrite En.
  - intros x [= <-]. by split.
Qed.
Lemma OnResult_ok i t s : next_probe_cluster_id_ (OnProbeResult i t s) = next_probe_cluster_id_ s /\ (controller_ok s -> controller_ok (OnProbeResult i t s)).
Proof.
  unfold OnProbeResult. destruct (pending_path_probe_ s) as [p|] eqn:Ep; [|done]. destruct (_ && _); [|done]. split; [done|].
  intros [H1 H2 H3 H4]. split; [|done|done|done]. intros H. by destruct (H1 H) as (? & ? & ?).
Qed.

Lemma call_outcome c s : outcome s (pc_call c s).
Proof.
  destruct c as [a b m t|r t|t b|r c t h|b|b|b|t|i t|t|t|t|u| |t]; cbn [pc_call].
  - apply SetBitrates_outcome.
  - apply OnMaxTotal_outcome.
  - apply OnNetwork_outcome.
  - apply SetEstimated_outcome.
  - apply silent; [done|same_ok].
  - apply silent; [by destruct b|destruct b; same_ok].
  - by apply silent; apply SetRelay_ok.
  - apply OnPathChange_outcome.
  - by apply silent; apply OnResult_ok.
  - apply silent; [done|same_ok].
  - apply silent; [done|same_ok].
  - apply AfterDrop_outcome.
  - apply silent; [done|same_ok].
  - apply silent; [done|]. by split.
  - apply Process_outcome.
Qed.

Lemma new_ok : controller_ok ProbeController_new.
Proof. by split. Qed.
Lemma calls_ok cs s l s' : pc_calls cs s = (l, s') -> numbers_on l s s' /\ (controller_ok s -> controller_ok s').
Proof.
  revert s l s'. induction cs as [|c cs IH]; intros s l s'; cbn [pc_calls]; [by intros [= <- <-]; split; [apply numbers_nil|]|].
  pose proof (call_outcome c s) as [_ H1 H2 _]. destruct (pc_call c s) as [l1 s1]. destruct (pc_calls cs s1) as [l2 s2] eqn:E2.
  intros [= <- <-]. destruct (IH _ _ _ E2) as [H3 H4]. split; [by eapply numbers_app|]. cbn in H2. auto.
Qed.

(** *** How often a request is probed *)

(** The clusters that a call asks for because of a new path, and because of a drop. *)
Definition path_probes (c : ProbeCall) (s : ProbeController) : list ProbeClusterConfig :=
  match c with
  | PcRequestProbeOnPathChange t => (RequestProbeOnPathChange t s).1
  | PcProcess t => (MaybeProbeNewPath t (wait_over t s)).1
  | _ => []
  end.
Definition drop_probes (c : ProbeCall) (s : ProbeController) : list ProbeClusterConfig :=
  match c with
  | PcRequestProbe t => (MaybeProbeAfterDrop t s).1
  | PcProcess t =>
      let '(l, s1) := MaybeProbeNewPath t (wait_over t s) in
      if bool_decide (l = []) && bool_decide (is_Some s1.(pending_drop_recovery_)) then (MaybeProbeAfterDrop t s1).1 else []
  | _ => []
  end.
(** The attempts that the pending request has had. *)
Definition path_used (s : ProbeController) : option Z := pp_attempts <$> s.(pending_path_probe_).
Definition drop_used (s : ProbeController) : option Z := dr_attempts <$> s.(pending_drop_recovery_).
Definition one {A} (l : list A) : Z := match l with [] => 0 | _ => 1 end.

(** How many calls probe for a request: that of [s], or the one that the first call makes, until it is no longer pending. *)
Fixpoint times_probed (used : ProbeController -> option Z) (probes : ProbeCall -> ProbeController -> list ProbeClusterConfig)
    (cs : list ProbeCall) (s : ProbeController) : Z :=
  match cs with
  | [] => 0
  | c :: cs => let s' := (pc_call c s).2 in
               one (probes c s) + (if bool_decide (is_Some (used s')) then times_probed used probes cs s' else 0)
  end.

(** From [u] to [u'] the attempts grow by [n]; a request that is gone was not probed. *)
Definition counted (n : Z) (u u' : option Z) : Prop := match u' with Some a' => default 0 u + n <= a' | None => n = 0 end.
Lemma counted_still u u' : u' = u \/ u' = None -> counted 0 u u'.
Proof. unfold counted. intros [->| ->]; [|done]. destruct u; cbn; lia. Qed.
Lemma times_bounded used probes : (forall c s, counted (one (probes c s)) (used s) (used (pc_call c s).2)) ->
  (forall s a, controller_ok s -> used s = Some a -> a <= 3) ->
  forall cs s, controller_ok s -> times_probed used probes cs s <= 3 - default 0 (used s).
Proof.
  intros Hc Hu cs. induction cs as [|c cs IH]; intros s Hs; cbn [times_probed].
  { destruct (used s) as [a|] eqn:E; cbn; [|lia]. specialize (Hu s a Hs E). lia. }
  cbv zeta. pose proof (oc_ok _ _ (call_outcome c s) Hs) as Hs'. specialize (Hc c s). specialize (IH _ Hs'). unfold counted in Hc.
  destruct (used (pc_call c s).2) as [a'|]; cbn in *; [lia|]. rewrite Hc. destruct (used s) as [a|] eqn:E; cbn; [|lia]. specialize (Hu s a Hs E). lia.
Qed.

Lemma new_path_counted t s : counted (one (MaybeProbeNewPath t s).1) (path_used s) (path_used (MaybeProbeNewPath t s).2).
Proof.
  unfold MaybeProbeNewPath, path_used. destruct (pending_path_probe_ s) as [p|] eqn:Ep; [|by cbn; rewrite Ep].
  destruct (_ || _); [done|]. destruct (_ || _); [by apply counted_still; left; cbn; rewrite Ep|]. destruct (_ >=? _); [done|].
  destruct (InitiateProbing _ _ _ s) as [l s2] eqn:Ei. destruct (initiate_rest _ _ _ _ _ _ Ei) as (_ & _ & E & _).
  destruct l; cbn; [rewrite E, Ep; cbn; lia|lia].
Qed.
Lemma after_drop_counted t s : counted (one (MaybeProbeAfterDrop t s).1) (drop_used s) (drop_used (MaybeProbeAfterDrop t s).2).
Proof.
  unfold MaybeProbeAfterDrop, drop_used. destruct (pending_drop_recovery_ s) as [r|] eqn:Er; [|by cbn; rewrite Er].
  destruct (recovered t r s); [done|]. destruct (given_up t r s); [done|]. destruct (_ || _); [by apply counted_still; left; cbn; rewrite Er|].
  destruct (InitiateProbing _ _ _ s) as [l s2] eqn:Ei. destruct l; cbn; lia.
Qed.

(** A probe for something else leaves the requests alone. *)
Definition requests (s : ProbeController) : option PathProbe * option DropRecovery := (s.(pending_path_probe_), s.(pending_drop_recovery_)).
Lemma initiate_requests now bs further s : requests (InitiateProbing now bs further s).2 = requests s.
Proof.
  destruct (InitiateProbing now bs further s) as [l s2] eqn:E. destruct (initiate_rest _ _ _ _ _ _ E) as (_ & _ & H1 & H2).
  unfold requests. cbn. congruence.
Qed.
Lemma exponential_requests t s : requests (InitiateExponentialProbing t s).2 = requests s.
Proof. unfold InitiateExponentialProbing. rewrite initiate_requests. by destruct (_ && _). Qed.

(** What a call that probes for neither does to the requests. *)
Definition released (s s' : ProbeController) : Prop := counted 0 (path_used s) (path_used s') /\ counted 0 (drop_used s) (drop_used s').
Lemma released_same s s' : requests s' = requests s -> released s s'.
Proof. unfold requests, released, path_used, drop_used. intros [= -> ->]. split; apply counted_still; by left. Qed.
Lemma released_trans s1 s2 s3 : released s1 s2 -> requests s3 = requests s2 -> released s1 s3.
Proof. unfold requests, released, path_used, drop_used. by intros ? [= -> ->]. Qed.

Lemma bitrates_requests a b c t s : requests (SetBitrates a b c t s).2 = requests s.
Proof.
  unfold SetBitrates. set (s1 := if b >? 0 then _ else _). assert (E : requests s1 = requests s) by (unfold s1; destruct (b >? 0); [|destruct (_ =? 0)]; done).
  rewrite <- E. clearbody s1. clear E. set (s2 := s1 <| max_bitrate_ := _ |>). change (requests s1) with (requests s2). clearbody s2. cbv zeta.
  destruct (state_ s2); [|done|].
  - destruct (network_available_ s2); [apply exponential_requests|done].
  - destruct (_ && _); [apply initiate_requests|done].
Qed.
Lemma total_requests r t s : requests (OnMaxTotalAllocatedBitrate r t s).2 = requests s.
Proof.
  unfold OnMaxTotalAllocatedBitrate. destruct (_ && bool_decide (is_Some (alr_start_time_ s))); [|by destruct (r =? 0)].
  destruct (is_zero _); [done|]. destruct (if negb _ && negb _ then _ else _) as [probes limited]. by rewrite initiate_requests.
Qed.
Lemma network_released t b s : released s (OnNetworkAvailability t b s).2.
Proof.
  unfold OnNetworkAvailability. destruct b; cbn [negb]; [|by split; apply counted_still; right]. apply released_same.
  destruct (_ && _); [|done]. by rewrite exponential_requests.
Qed.
Lemma estimated_released r c t h s : released s (SetEstimatedBitrate r c t h s).2.
Proof.
  unfold SetEstimatedBitrate. set (s1 := s <| bandwidth_limited_cause_ := c |> <| recovery_network_healthy_ := h |> <| pending_drop_recovery_ ::= _ |>).
  assert (H1 : released s s1).
  { split; [by apply counted_still; left|]. unfold s1, drop_used. cbn. destruct (pending_drop_recovery_ s); cbn; lia. }
  assert (H2 : released s (note_drop r t s1)).
  { destruct H1 as [Hp Hd]. unfold note_drop. destruct (_ && _) eqn:Eb; [|done]. split; [done|].
    apply andb_true_iff in Eb as [Eb _]. apply andb_true_iff in Eb as [_ Eb]. apply bool_decide_eq_true in Eb.
    unfold s1 in Eb. cbn in Eb. unfold drop_used. cbn. destruct (pending_drop_recovery_ s); [done|]. cbn. lia. }
  clear H1. set (s2 := note_drop r t s1) in *. clearbody s2. eapply released_trans; [exact H2|].
  set (s3 := s2 <| estimated_bitrate_ := r |>). change (requests s2) with (requests s3). clearbody s3. cbv zeta.
  destruct (state_ s3); [done| |done]. set (s4 := if _ && _ then _ else s3).
  assert (E4 : requests s4 = requests s3) by (unfold s4; by destruct (_ && _)). clearbody s4.
  destruct (_ && _); [by rewrite initiate_requests|done].
Qed.

(** What a call that may probe for one of the two does. *)
Lemma new_path_drop t s : drop_used (MaybeProbeNewPath t s).2 = drop_used s.
Proof.
  unfold MaybeProbeNewPath. destruct (pending_path_probe_ s) as [p|]; [|done]. destruct (_ || _); [done|]. destruct (_ || _); [done|].
  destruct (_ >=? _); [done|]. destruct (InitiateProbing _ _ _ s) as [l s2] eqn:Ei. destruct (initiate_rest _ _ _ _ _ _ Ei) as (_ & _ & _ & E).
  unfold drop_used. destruct l; cbn; by rewrite E.
Qed.
Lemma after_drop_path t s : path_used (MaybeProbeAfterDrop t s).2 = path_used s.
Proof.
  unfold MaybeProbeAfterDrop. destruct (pending_drop_recovery_ s) as [r|]; [|done]. destruct (recovered t r s); [done|]. destruct (given_up t r s); [done|].
  destruct (_ || _); [done|]. destruct (InitiateProbing _ _ _ s) as [l s2] eqn:Ei. destruct (initiate_rest _ _ _ _ _ _ Ei) as (_ & _ & E & _).
  unfold path_used. cbn. by rewrite E.
Qed.
Lemma path_change_counted t s : counted (one (RequestProbeOnPathChange t s).1) (path_used s) (path_used (RequestProbeOnPathChange t s).2)
  /\ counted 0 (drop_used s) (drop_used (RequestProbeOnPathChange t s).2).
Proof.
  unfold RequestProbeOnPathChange. set (s1 := s <| pending_drop_recovery_ := None |>). destruct (_ || _).
  { split; [by apply counted_still; left|by apply counted_still; right]. }
  match goal with |- counted (one (MaybeProbeNewPath t ?x).1) _ _ /\ _ => set (s2 := x) end.
  assert (E : default 0 (path_used s2) = default 0 (path_used s) /\ drop_used s2 = None).
  { unfold s2, path_used. change (pending_path_probe_ s1) with (pending_path_probe_ s). by destruct (pending_path_probe_ s) eqn:Ep; cbn; rewrite ?Ep. }
  clearbody s2. destruct E as [E1 E2]. split.
  - pose proof (new_path_counted t s2) as H. unfold counted in *. by rewrite E1 in H.
  - apply counted_still. right. by rewrite new_path_drop.
Qed.
Lemma process_counted t s : counted (one (path_probes (PcProcess t) s)) (path_used s) (path_used (Process t s).2)
  /\ counted (one (drop_probes (PcProcess t) s)) (drop_used s) (drop_used (Process t s).2).
Proof.
  unfold Process, path_probes, drop_probes. set (s0 := wait_over t s).
  assert (E0 : path_used s0 = path_used s /\ drop_used s0 = drop_used s) by (unfold s0, wait_over; by destruct (_ && _)).
  destruct E0 as [<- <-]. clearbody s0. pose proof (new_path_counted t s0) as Hp. pose proof (new_path_drop t s0) as Ed.
  destruct (MaybeProbeNewPath t s0) as [l s1]. cbn [fst snd] in *. case_bool_decide as El; cbn [negb andb].
  2: { split; [done|]. apply counted_still. by left. }
  subst l. destruct (bool_decide (is_Some (pending_drop_recovery_ s1))).
  { rewrite after_drop_path, <- Ed. split; [done|]. apply after_drop_counted. }
  assert (Hs : forall s2, requests s2 = requests s1 -> counted (one (@nil ProbeClusterConfig)) (path_used s0) (path_used s2)
    /\ counted (one (@nil ProbeClusterConfig)) (drop_used s0) (drop_used s2)).
  { intros s2 E. unfold requests in E. injection E as E1 E2. unfold path_used, drop_used in *. rewrite E1, E2, Ed. split; [done|].
    by apply counted_still; left. }
  destruct (_ || _); [by apply Hs|]. destruct (TimeForNextRepeatedInitialProbe t s1); [by apply Hs; rewrite initiate_requests|].
  destruct (_ || _); apply Hs; by rewrite ?initiate_requests.
Qed.

Lemma call_probes_counted c s : counted (one (path_probes c s)) (path_used s) (path_used (pc_call c s).2)
  /\ counted (one (drop_probes c s)) (drop_used s) (drop_used (pc_call c s).2).
Proof.
  destruct c as [a b m t|r t|t b|r c t h|b|b|b|t|i t|t|t|t|u| |t]; cbn [pc_call path_probes drop_probes].
  - apply released_same, bitrates_requests.
  - apply released_same, total_requests.
  - apply network_released.
  - apply estimated_released.
  - by apply released_same.
  - apply released_same. by destruct b.
  - unfold pc_SetRelayPath. destruct (Bool.eqb _ b); [by apply released_same|]. split; apply counted_still; by right.
  - apply path_change_counted.
  - unfold OnProbeResult. destruct (pending_path_probe_ s) as [p|] eqn:Ep; [|by apply released_same]. destruct (_ && _); [|by apply released_same].
    split; apply counted_still; [by right|by left].
  - by apply released_same.
  - by apply released_same.
  - unfold RequestProbe. rewrite after_drop_path. split; [by apply counted_still; left|apply after_drop_counted].
  - by apply released_same.
  - split; apply counted_still; by right.
  - apply process_counted.
Qed.
Lemma path_times s ds : controller_ok s -> times_probed path_used path_probes ds s <= 3 - default 0 (path_used s).
Proof.
  apply times_bounded; [intros c x; apply call_probes_counted|]. intros x a Hx. unfold path_used. destruct (pending_path_probe_ x) as [p|] eqn:E; [|done].
  intros [= <-]. destruct (ok_path x Hx p E); lia.
Qed.
Lemma drop_times s ds : controller_ok s -> times_probed drop_used drop_probes ds s <= 3 - default 0 (drop_used s).
Proof.
  apply times_bounded; [intros c x; apply call_probes_counted|]. intros x a Hx. unfold drop_used. destruct (pending_drop_recovery_ x) as [r|] eqn:E; [|done].
  intros [= <-]. pose proof (ok_drop x Hx r E). lia.
Qed.

(** ** Theorems *)

(** C33: no probe is too big. Whatever was called before and whatever is called now, a cluster that the controller asks for is not above the
    configured maximum, nor above twice what the streams are allocated, nor above 1.25 or 1.5 times the estimate while that
    recovers from loss, and there is none while loss, delay or a high round trip limits the estimate. *)
Theorem probes_within_limits c s : let '(l, s') := pc_call c s in
  Forall (fun k =>
    k.(target_data_rate) <= s'.(max_bitrate_)
    /\ (0 < s'.(max_total_allocated_bitrate_) -> k.(target_data_rate) <= td_mul s'.(max_total_allocated_bitrate_) 2)
    /\ (s'.(bandwidth_limited_cause_) = kLossLimitedBweIncreasing ->
       k.(target_data_rate) <= scaled s'.(estimated_bitrate_) s'.(config_).(loss_limited_probe_scale))
    /\ s'.(bandwidth_limited_cause_) <> kRttBasedBackOffHighRtt /\ s'.(bandwidth_limited_cause_) <> kDelayBasedLimitedDelayIncreased
    /\ s'.(bandwidth_limited_cause_) <> kLossLimitedBwe) l.
Proof.
  pose proof (oc_within _ _ (call_outcome c s)) as Hw. destruct (pc_call c s) as [l s']. eapply Forall_impl; [exact Hw|]. cbn. intros k [H1 H2 H3 H4].
  split; [done|]. split; [done|]. split; [done|]. by destruct (bandwidth_limited_cause_ s').
Qed.

(** C34: the controller stays sound. Through any calls the clusters it asks for are numbered 1, 2, ... in 32 bits; while
    the network is away it is in its initial state with nothing pending, and no call but the return of the network makes it ask for a
    probe; a threshold for further probes stands only while a result is awaited; a path that is probed is not a relay's; and while the
    request for a new path or after a sharp drop stays pending, whatever calls come, at most three of them probe for it. *)
Theorem controller_stays_sound cs : let '(l, s) := pc_calls cs ProbeController_new in
  config_id <$> l = ids (length l) 1
  /\ (s.(network_available_) = false -> s.(state_) = kInit /\ s.(pending_path_probe_) = None /\ s.(pending_drop_recovery_) = None
      /\ forall c, (pc_call c s).2.(network_available_) = false -> (pc_call c s).1 = [])
  /\ (s.(state_) <> kWaitingForProbingResult -> s.(min_bitrate_to_probe_further_) = PlusInfinity)
  /\ (forall p, s.(pending_path_probe_) = Some p -> s.(relay_path_) = false)
  /\ (forall ds, times_probed path_used path_probes ds s <= 3 - default 0 (path_used s) <= 3)
  /\ (forall ds, times_probed drop_used drop_probes ds s <= 3 - default 0 (drop_used s) <= 3).
Proof.
  destruct (pc_calls cs ProbeController_new) as [l s] eqn:E. destruct (calls_ok _ _ _ _ E) as [[Hn _] Hk]. specialize (Hk new_ok).
  split; [exact Hn|]. pose proof Hk as [H1 H2 H3 H4]. split; [|split; [done|split; [intros p Hp; by apply (H3 p)|split; intros ds; split]]].
  - intros Ha. destruct (H1 Ha) as (? & ? & ?). split; [done|]. split; [done|]. split; [done|]. intros c Hc. by apply (oc_off _ _ (call_outcome c s)).
  - by apply path_times.
  - unfold path_used. destruct (pending_path_probe_ s) as [p|] eqn:Ep; cbn; [destruct (H3 p eq_refl)|]; lia.
  - by apply drop_times.
  - unfold drop_used. destruct (pending_drop_recovery_ s) as [r|] eqn:Er; cbn; [specialize (H4 r eq_refl)|]; lia.
Qed.

(** *** Probing that ends for good *)

(** A state in which no call of a kind asks for a probe or leads out of it. *)
Definition stays (I : ProbeController -> Prop) (K : ProbeCall -> Prop) : Prop := forall c s, K c -> I s -> (pc_call c s).1 = [] /\ I (pc_call c s).2.
Lemma stays_calls I K cs s : stays I K -> Forall K cs -> I s -> (pc_calls cs s).1 = [].
Proof.
  intros H Hc. revert s. induction Hc as [|c cs Hc Hcs IH]; intros s Hs; [done|]. cbn [pc_calls]. destruct (H c s Hc Hs) as [E Hi].
  destruct (pc_call c s) as [l s1]. cbn in E, Hi. subst l. specialize (IH s1 Hi). by destruct (pc_calls cs s1).
Qed.

(** What the waiting for a result depends on. *)
Definition waiting (s : ProbeController) : ProbeState * Z * Z * Z * bool :=
  (s.(state_), s.(time_last_probing_initiated_), s.(min_bitrate_to_probe_further_), s.(estimated_bitrate_), s.(network_available_)).
Definition quiet (s : ProbeController) (r : Probes) : Prop := r.1 = [] /\ waiting r.2 = waiting s.

(** A controller that is not done with its probes does not start others. *)
Lemma path_waits t s : s.(state_) <> kProbingComplete -> quiet s (MaybeProbeNewPath t s).
Proof.
  intros Hs. unfold MaybeProbeNewPath. destruct (pending_path_probe_ s) as [p|]; [|done]. destruct (_ || _ || _); [done|].
  rewrite bool_decide_eq_false_2 by done. cbn [negb]. by rewrite orb_true_r.
Qed.
Lemma drop_waits t s : s.(state_) <> kProbingComplete -> quiet s (MaybeProbeAfterDrop t s).
Proof.
  intros Hs. unfold MaybeProbeAfterDrop. destruct (pending_drop_recovery_ s) as [r|]; [|done]. destruct (recovered t r s); [done|].
  destruct (given_up t r s); [done|]. rewrite (bool_decide_eq_false_2 (state_ s = _)) by done. cbn [negb]. by rewrite orb_true_r.
Qed.
Lemma path_change_waits t s : s.(state_) <> kProbingComplete -> quiet s (RequestProbeOnPathChange t s).
Proof.
  intros Hs. unfold RequestProbeOnPathChange. destruct (_ || _); [done|].
  match goal with |- quiet s (MaybeProbeNewPath t ?x) => set (s1 := x) end.
  assert (E : waiting s1 = waiting s) by (unfold s1; by destruct (pending_path_probe_ (s <| pending_drop_recovery_ := None |>))).
  assert (Hs1 : state_ s1 <> kProbingComplete) by (injection E as -> _ _ _ _; done). destruct (path_waits t s1 Hs1) as [H1 H2]. split; [done|congruence].
Qed.
Lemma process_waits t s : s.(state_) <> kProbingComplete -> wait_over t s = s -> quiet s (Process t s).
Proof.
  intros Hs Hw. unfold Process. rewrite Hw. destruct (path_waits t s Hs) as [H1 H2]. destruct (MaybeProbeNewPath t s) as [l s1]. cbn in H1, H2. subst l.
  rewrite bool_decide_eq_true_2 by done. cbn [negb]. assert (Hs1 : state_ s1 <> kProbingComplete) by (injection H2 as -> _ _ _ _; done).
  unfold quiet. rewrite <- H2. destruct (bool_decide (is_Some _)); [by apply drop_waits|]. rewrite bool_decide_eq_false_2 by done. cbn [negb].
  by rewrite orb_true_r.
Qed.
Lemma total_waits r t s : s.(state_) <> kProbingComplete -> quiet s (OnMaxTotalAllocatedBitrate r t s).
Proof.
  intros Hs. unfold OnMaxTotalAllocatedBitrate. rewrite (bool_decide_eq_false_2 (state_ s = _)) by done. rewrite andb_false_r. cbn [andb].
  by destruct (r =? 0).
Qed.

(** All but new limits, another outage and a reset. *)
Definition lasting (c : ProbeCall) : Prop :=
  match c with PcSetBitrates _ _ _ _ | PcReset => False | PcNetworkAvailability _ b => b = true | _ => True end.
Lemma init_stays : stays (fun s => s.(state_) = kInit /\ s.(network_available_) = true) lasting.
Proof.
  intros c s Hc [Hi Hn]. assert (Hs : state_ s <> kProbingComplete) by by rewrite Hi.
  assert (Hq : forall r, quiet s r -> r.1 = [] /\ state_ r.2 = kInit /\ network_available_ r.2 = true)
    by (intros r [? E]; split; [done|]; injection E as -> _ _ _ ->; done).
  destruct c as [a b m t|r t|t b|r c t h|b|b|b|t|i t|t|t|t|u| |t]; try done; cbn [pc_call].
  - by apply Hq, total_waits.
  - cbn in Hc. subst b. unfold OnNetworkAvailability. cbn [negb]. by rewrite Hn.
  - unfold SetEstimatedBitrate, note_drop. destruct (_ && _); cbn -[scaled]; rewrite Hi; by cbn -[scaled].
  - by destruct b.
  - unfold pc_SetRelayPath. by destruct (Bool.eqb _ b).
  - by apply Hq, path_change_waits.
  - unfold OnProbeResult. destruct (pending_path_probe_ s) as [p|]; [|done]. by destruct (_ && _).
  - by apply Hq, drop_waits.
  - apply Hq, process_waits; [done|]. unfold wait_over. rewrite Hi, bool_decide_eq_false_2, andb_false_r; done.
Qed.

(** During an outage: anything but the return of the network, a reset and an estimate that nothing limits. *)
Definition limited_away (c : ProbeCall) : Prop :=
  match c with
  | PcReset => False
  | PcNetworkAvailability _ b => b = false
  | PcSetEstimatedBitrate _ cause _ _ => congested_cause cause = true
  | _ => True
  end.
(** The controller of a limited estimate while the network is away. *)
Record away (s : ProbeController) : Prop := {
  aw_state : s.(state_) = kInit;
  aw_off : s.(network_available_) = false;
  aw_cause : congested_cause s.(bandwidth_limited_cause_) = true;
  aw_config : s.(config_).(skip_if_estimate_larger_than_fraction_of_max) = double_of 0;
}.
Definition kept (s : ProbeController) : ProbeState * bool * BandwidthLimitedCause * ProbeControllerConfig :=
  (s.(state_), s.(network_available_), s.(bandwidth_limited_cause_), s.(config_)).
Lemma away_kept s s' : kept s' = kept s -> away s -> away s'.
Proof. intros [= E1 E2 E3 E4] []. split; congruence. Qed.

Lemma new_path_kept t s : s.(state_) = kInit -> (MaybeProbeNewPath t s).1 = [] /\ kept (MaybeProbeNewPath t s).2 = kept s.
Proof.
  intros Hs. unfold MaybeProbeNewPath. destruct (pending_path_probe_ s) as [p|]; [|done]. destruct (_ || _ || _); [done|].
  rewrite Hs, bool_decide_eq_false_2 by done. cbn [negb]. by rewrite orb_true_r.
Qed.
Lemma after_drop_kept t s : s.(state_) = kInit -> (MaybeProbeAfterDrop t s).1 = [] /\ kept (MaybeProbeAfterDrop t s).2 = kept s.
Proof.
  intros Hs. unfold MaybeProbeAfterDrop. destruct (pending_drop_recovery_ s) as [r|]; [|done]. destruct (recovered t r s); [done|].
  destruct (given_up t r s); [done|]. rewrite Hs, (bool_decide_eq_false_2 (kInit = _)) by done. cbn [negb]. by rewrite orb_true_r.
Qed.
Lemma process_kept t s : s.(state_) = kInit -> (Process t s).1 = [] /\ kept (Process t s).2 = kept s.
Proof.
  intros Hs. unfold Process. assert (wait_over t s = s) as ->.
  { unfold wait_over. rewrite Hs, bool_decide_eq_false_2, andb_false_r; done. }
  destruct (new_path_kept t s Hs) as [H1 H2]. destruct (MaybeProbeNewPath t s) as [l s1]. cbn in H1, H2. subst l.
  rewrite bool_decide_eq_true_2 by done. cbn [negb]. rewrite <- H2. assert (Hs1 : state_ s1 = kInit) by (injection H2; congruence).
  destruct (bool_decide (is_Some _)); [by apply after_drop_kept|]. rewrite Hs1, bool_decide_eq_false_2 by done. cbn [negb]. by rewrite orb_true_r.
Qed.

Lemma away_stays : stays away limited_away.
Proof.
  intros c s Hc Ha. pose proof Ha as [Hs Hn Hb Hk]. assert (Hq : forall r : Probes, r.1 = [] /\ kept r.2 = kept s -> r.1 = [] /\ away r.2).
  { intros r [? E]. split; [done|]. by eapply away_kept. }
  destruct c as [a b m t|r t|t b|r c t h|b|b|b|t|i t|t|t|t|u| |t]; try done; cbn [pc_call].
  - apply Hq. unfold SetBitrates. set (s1 := if b >? 0 then _ else _).
    assert (E : kept s1 = kept s) by (unfold s1; destruct (b >? 0); [|destruct (_ =? 0)]; done). clearbody s1. rewrite <- E. injection E as E1 E2 _ _.
    set (s2 := s1 <| max_bitrate_ := _ |>). assert (E3 : state_ s2 = kInit /\ network_available_ s2 = false) by (split; cbn; congruence).
    change (kept s1) with (kept s2). clearbody s2. cbv zeta. destruct E3 as [-> ->]. done.
  - apply Hq. unfold OnMaxTotalAllocatedBitrate. rewrite Hs, (bool_decide_eq_false_2 (kInit = _)), andb_false_r by done. cbn [andb]. by destruct (r =? 0).
  - cbn in Hc. subst b. unfold OnNetworkAvailability. cbn [negb]. split; [done|]. by split.
  - cbn in Hc. unfold SetEstimatedBitrate.
    set (s1 := s <| bandwidth_limited_cause_ := c |> <| recovery_network_healthy_ := h |> <| pending_drop_recovery_ ::= _ |>).
    assert (Hd : note_drop r t s1 = s1).
    { unfold note_drop. change (network_available_ s1) with (network_available_ s). rewrite Hn. by rewrite andb_false_r. }
    rewrite Hd. change (state_ (s1 <| estimated_bitrate_ := r |>)) with (state_ s). rewrite Hs. split; [done|]. by split.
  - apply Hq. by destruct b.
  - unfold pc_SetRelayPath. destruct (Bool.eqb _ b); [by apply Hq|]. split; [done|]. split; [done..|]. by destruct b.
  - apply Hq. unfold RequestProbeOnPathChange. destruct (_ || _) eqn:Eb; [done|]. cbn in Eb. rewrite Hn, orb_true_r in Eb. done.
  - apply Hq. unfold OnProbeResult. destruct (pending_path_probe_ s) as [p|]; [|done]. by destruct (_ && _).
  - by apply Hq, after_drop_kept.
  - by apply Hq, process_kept.
Qed.

Lemma stays_ends I K cs s : stays I K -> Forall K cs -> I s -> exists s', pc_calls cs s = ([], s') /\ I s'.
Proof.
  intros H Hc. revert s. induction Hc as [|c cs Hc Hcs IH]; intros s Hs; [by exists s|]. cbn [pc_calls]. destruct (H c s Hc Hs) as [E Hi].
  destruct (pc_call c s) as [l s1]. cbn in E, Hi. subst l. destruct (IH s1 Hi) as (s' & -> & Hs'). by exists s'.
Qed.

(** The return of the network. *)
Lemma return_quiet t s : away s -> exists s', OnNetworkAvailability t true s = ([], s') /\ s'.(state_) = kInit /\ s'.(network_available_) = true.
Proof.
  intros [Hs Hn Hb Hk]. unfold OnNetworkAvailability. cbn [negb]. set (s2 := s <| network_available_ := true |>).
  destruct (_ && _); [|by exists s2]. unfold InitiateExponentialProbing. set (s3 := if _ && _ then _ else s2). set (l := _ :: _). clearbody l.
  assert (E : config_ s3 = config_ s /\ bandwidth_limited_cause_ s3 = bandwidth_limited_cause_ s /\ state_ s3 = kInit /\ network_available_ s3 = true)
    by (unfold s3; by destruct (_ && _)).
  clearbody s3. destruct E as (Ec & Eb & Es & En). unfold InitiateProbing, estimate_suffices, probe_limit. rewrite Ec, Hk, Eb. exists s3.
  by destruct (bandwidth_limited_cause_ s).
Qed.

(** C35: a reconnection can end the probing. When the network went away while loss, delay or a high round trip limited the estimate, and no estimate
    that nothing limits came before it is back (a report of the way in between, which frees the estimate, lets the return probe), its return starts
    no probe and leaves the controller in its initial state, out of which nothing leads: however the estimate recovers afterwards, no periodic
    probe, no probe of a new path and none after a drop follows, until the limits are set anew, the network goes away again or all is reset. *)
Theorem reconnection_ends_probing s t1 t2 bs cs : s.(config_).(skip_if_estimate_larger_than_fraction_of_max) = double_of 0 ->
  congested_cause s.(bandwidth_limited_cause_) = true -> Forall limited_away bs -> Forall lasting cs ->
  exists s', pc_calls (PcNetworkAvailability t1 false :: bs ++ PcNetworkAvailability t2 true :: cs) s = ([], s') /\ s'.(state_) = kInit.
Proof.
  intros Hc Hb Hbs Hcs. assert (Ha : away (OnNetworkAvailability t1 false s).2) by (by split).
  destruct (stays_ends _ _ bs _ away_stays Hbs Ha) as (s1 & E1 & Ha1). destruct (return_quiet t2 s1 Ha1) as (s2 & E2 & Hs2).
  destruct (stays_ends _ _ cs s2 init_stays Hcs Hs2) as (s3 & E3 & Hs3 & _). exists s3. split; [|done].
  change (pc_calls (PcNetworkAvailability t1 false :: bs ++ PcNetworkAvailability t2 true :: cs) s)
    with (let '(k, s') := pc_calls (bs ++ PcNetworkAvailability t2 true :: cs) (OnNetworkAvailability t1 false s).2 in ([] ++ k, s')).
  assert (Happ : forall xs ys x y l k s0, pc_calls xs s0 = (l, x) -> pc_calls ys x = (k, y) -> pc_calls (xs ++ ys) s0 = (l ++ k, y)).
  { induction xs as [|c xs IH]; intros ys x y l k s0; cbn [app pc_calls]; [intros [= <- <-]; by intros ->|]. destruct (pc_call c s0) as [l1 x1].
    destruct (pc_calls xs x1) as [l2 x2] eqn:E. intros [= <- <-] Ey. rewrite (IH _ _ _ _ _ _ E Ey). by rewrite app_assoc. }
  erewrite (Happ bs); [|exact E1|cbn [pc_calls pc_call]; rewrite E2, E3; reflexivity]. done.
Qed.
(** An established controller that is limited by loss; then its estimate grows freely for a minute. *)
Definition w_before : list ProbeCall :=
  [PcNetworkAvailability 0 true; PcSetBitrates 300000 2500000 200000000 0; PcEnablePeriodicAlr true; PcProcess 2000000;
   PcSetEstimatedBitrate 1000000 kLossLimitedBwe 3000000 true].
Definition w_after : list ProbeCall :=
  [PcSetEstimatedBitrate 1500000 kDelayBasedLimited 10000000 true; PcSetAlrStartTime (Some 10000); PcProcess 20000000;
   PcRequestProbeOnPathChange 30000000; PcProcess 31000000; PcSetEstimatedBitrate 900000 kDelayBasedLimited 40000000 true; PcRequestProbe 42000000;
   PcProcess 60000000].
(** While the network is away the limits are set, and a report of the loss comes late. *)
Definition w_away : list ProbeCall :=
  [PcSetBitrates 300000 2500000 200000000 6000000; PcSetEstimatedBitrate 800000 kLossLimitedBwe 6100000 true; PcProcess 7000000].
Lemma reconnection_ends_probing_witness :
  congested_cause (pc_calls w_before ProbeController_new).2.(bandwidth_limited_cause_) = true
  /\ exists s', pc_calls (PcNetworkAvailability 5000000 false :: w_away ++ PcNetworkAvailability 9000000 true :: w_after)
       (pc_calls w_before ProbeController_new).2 = ([], s') /\ s'.(state_) = kInit.
Proof.
  split; [vm_compute; reflexivity|]. apply (reconnection_ends_probing _ 5000000 9000000 w_away w_after).
  - vm_compute. reflexivity.
  - vm_compute. reflexivity.
  - repeat constructor.
  - repeat constructor.
Defined.
(** An estimate that is free again before the network is back lets its return probe. *)
Example w_freed : (target_data_rate <$> (pc_calls [PcNetworkAvailability 5000000 false; PcSetEstimatedBitrate 800000 kDelayBasedLimited 6100000 true;
  PcNetworkAvailability 9000000 true] (pc_calls w_before ProbeController_new).2).1) = [7500000; 15000000].
Proof. vm_compute. reflexivity. Qed.
(** Without the reconnection the same calls probe. *)
Example w_probes : (target_data_rate <$> (pc_calls w_before ProbeController_new).1, (fun k => (k.(at_time), k.(target_data_rate))) <$>
  (pc_calls w_after (pc_calls w_before ProbeController_new).2).1) = ([7500000; 15000000], [(30000000, 3000000)]).
Proof. vm_compute. reflexivity. Qed.

(** *** The limits set at no time *)

(** Whatever comes before an estimate above [m], and no [Process] at the end of time. *)
Definition below (m : Z) (c : ProbeCall) : Prop :=
  match c with
  | PcNetworkAvailability _ b => b = true | PcReset => False | PcProcess t => IsFinite t = true | PcSetEstimatedBitrate r _ _ _ => r <= m
  | _ => True
  end.
Lemma infinite_stays m : stays (fun s => s.(state_) = kWaitingForProbingResult /\ s.(time_last_probing_initiated_) = PlusInfinity
  /\ m <= s.(min_bitrate_to_probe_further_)) (fun c => below m c /\ m <= PlusInfinity).
Proof.
  intros c s [Hc Hm] (Hi & Ht & Hf). assert (Hs : state_ s <> kProbingComplete) by by rewrite Hi.
  assert (Hq : forall r, quiet s r -> r.1 = [] /\ state_ r.2 = kWaitingForProbingResult /\ time_last_probing_initiated_ r.2 = PlusInfinity
    /\ m <= min_bitrate_to_probe_further_ r.2) by (intros r [? E]; split; [done|]; injection E as -> -> -> _ _; done).
  destruct c as [a b x t|r t|t b|r c t h|b|b|b|t|i t|t|t|t|u| |t]; try done; cbn [pc_call].
  - unfold SetBitrates. set (s1 := if b >? 0 then _ else _). assert (E : state_ s1 = state_ s /\ time_last_probing_initiated_ s1 = time_last_probing_initiated_ s
      /\ min_bitrate_to_probe_further_ s1 = min_bitrate_to_probe_further_ s) by (unfold s1; destruct (b >? 0); [|destruct (_ =? 0)]; done).
    destruct E as (E1 & E2 & E3). change (state_ (s1 <| max_bitrate_ := _ |>)) with (state_ s1). rewrite E1, Hi. split; [done|].
    change (state_ s1 = kWaitingForProbingResult /\ time_last_probing_initiated_ s1 = PlusInfinity /\ m <= min_bitrate_to_probe_further_ s1).
    by rewrite E1, E2, E3.
  - by apply Hq, total_waits.
  - cbn in Hc. subst b. unfold OnNetworkAvailability. cbn [negb]. rewrite bool_decide_eq_false_2; [|cbn; by rewrite Hi]. by rewrite andb_false_r.
  - cbn [below] in Hc. unfold SetEstimatedBitrate. set (s1 := s <| bandwidth_limited_cause_ := c |> <| recovery_network_healthy_ := h |> <| pending_drop_recovery_ ::= _ |>).
    assert (E : waiting (note_drop r t s1) = waiting s) by (unfold note_drop; by destruct (_ && _)).
    set (s2 := note_drop r t s1) in *. clearbody s2. clear s1. injection E as E1 E2 E3 _ _. set (s3 := s2 <| estimated_bitrate_ := r |>).
    change (state_ s3) with (state_ s2). rewrite E1, Hi. cbv zeta. set (s4 := if _ && _ then _ else s3).
    assert (E4 : state_ s4 = state_ s /\ time_last_probing_initiated_ s4 = PlusInfinity /\ m <= min_bitrate_to_probe_further_ s4).
    { unfold s4. destruct (_ && _); cbn; rewrite ?E1, ?E2, ?E3; done. }
    clearbody s4. destruct E4 as (E4 & E5 & E6). destruct (Z.gtb_spec r (min_bitrate_to_probe_further_ s4)); [lia|]. cbn [andb].
    split; [done|]. cbn. by rewrite E4.
  - by destruct b.
  - unfold pc_SetRelayPath. by destruct (Bool.eqb _ b).
  - by apply Hq, path_change_waits.
  - unfold OnProbeResult. destruct (pending_path_probe_ s) as [p|]; [|done]. by destruct (_ && _).
  - by apply Hq, drop_waits.
  - apply Hq, process_waits; [done|]. unfold wait_over. rewrite Ht. cbn [below] in Hc. unfold td_sub, IsFinite, IsInfinite in *.
    destruct (IsPlusInfinity t); [done|]. cbn [negb orb] in Hc. destruct (IsMinusInfinity t); [done|]. done.
Qed.

(** [CongestionControl] sets its first limits at the time that stands for infinity: when the network is there already, the first probes are never
    given up, and unless they show 10.5 Mbit/s no periodic probe, no probe of a new path and none after a drop ever follows. *)
Theorem limits_at_infinity_end_probing t cs : Forall (below 10500000) cs ->
  let start := [PcNetworkAvailability t true; PcSetBitrates 300000 2500000 200000000 PlusInfinity] in
  (pc_calls (start ++ cs) ProbeController_new).1 = (pc_calls start ProbeController_new).1
  /\ (fun k => (k.(target_data_rate), k.(at_time))) <$> (pc_calls start ProbeController_new).1 = [(7500000, PlusInfinity); (15000000, PlusInfinity)].
Proof.
  intros Hc start.
  assert (E : exists l s, pc_calls start ProbeController_new = (l, s)
    /\ (fun k => (k.(target_data_rate), k.(at_time))) <$> l = [(7500000, PlusInfinity); (15000000, PlusInfinity)]
    /\ state_ s = kWaitingForProbingResult /\ time_last_probing_initiated_ s = PlusInfinity /\ 10500000 <= min_bitrate_to_probe_further_ s).
  { eexists _, _. split; [vm_compute; reflexivity|]. split; [vm_compute; reflexivity|]. by split. }
  destruct E as (l & s & E & El & Hs).
  assert (Happ : forall xs s0 l0 s1, pc_calls xs s0 = (l0, s1) -> (pc_calls (xs ++ cs) s0).1 = l0 ++ (pc_calls cs s1).1).
  { induction xs as [|x xs IH]; intros s0 l0 s1; cbn [app pc_calls]; [by intros [= <- <-]|]. destruct (pc_call x s0) as [k s2].
    destruct (pc_calls xs s2) as [k2 s3] eqn:E2. intros [= <- <-]. specialize (IH _ _ _ E2). destruct (pc_calls (xs ++ cs) s2) as [k3 s4]. cbn in *.
    by rewrite IH, app_assoc. }
  rewrite (Happ _ _ _ _ E), E. cbn [fst]. split; [|exact El].
  rewrite (stays_calls _ _ cs s (infinite_stays 10500000)); [by rewrite app_nil_r| |exact Hs].
  eapply Forall_impl; [exact Hc|]. by intros c.
Qed.
(** The prober takes the first of these clusters for expired when the second comes, and never drops the second. *)
Example infinite_clusters : (fun s => (fun k => k.(pace_info).(send_bitrate)) <$> s.(clusters_)) <$>
  prober_calls (CallCreate <$> (pc_calls [PcNetworkAvailability 0 true; PcSetBitrates 300000 2500000 200000000 PlusInfinity] ProbeController_new).1)
    BitrateProber_new = Some [15000000].
Proof. vm_compute. reflexivity. Qed.
