(* ===== verification/FeedbackAdapter.v ===== *)
(** * From reports to results ([minirtc/src/qos/transport_feedback_adapter.{h,cc}])

    The adapter keeps the packets that were sent, turns a report of the receiver into results for the congestion
    controller and counts the bytes in flight on each route.  The history, a map ordered by sequence number, is the list of
    its packets in that order; sums of sizes are integers without a bound; the logs and their counters are left out. *)
From S2P Require Export Feedback Prober.
#[local] Open Scope Z_scope.

(** ** Definitions *)

(** *** Routes ([common/rtc_base/network_route.{h,cc}]) *)

Record RouteEndpoint := mkEndpoint { adapter_type_ : Z; adapter_id_ : Z; network_id_ : Z; uses_turn_ : bool }.
#[export] Instance RouteEndpoint_dec : EqDecision RouteEndpoint.
Proof. solve_decision. Defined.
Record NetworkRoute := mkRoute {
  rt_connected : bool; rt_local : RouteEndpoint; rt_remote : RouteEndpoint; last_sent_packet_id : Z; packet_overhead : Z;
}.
#[export] Instance NetworkRoute_dec : EqDecision NetworkRoute.
Proof. solve_decision. Defined.
Definition NetworkRoute_new : NetworkRoute := mkRoute false (mkEndpoint 0 0 0 false) (mkEndpoint 0 0 0 false) (-1) 0.
(** What [NetworkRouteComparator] compares: routes with the same key share an entry. *)
Notation RouteKey := (Z * Z * Z * Z * bool * bool * bool)%type.
Definition route_key (r : NetworkRoute) : RouteKey :=
  (r.(rt_local).(network_id_), r.(rt_remote).(network_id_), r.(rt_local).(adapter_id_), r.(rt_remote).(adapter_id_),
   r.(rt_local).(uses_turn_), r.(rt_remote).(uses_turn_), r.(rt_connected)).

(** *** Packets *)

Record SentPacket := mkSent {
  send_time : Z; size : Z; prior_unacked_data : Z; pacing_info : PacedPacketInfo; audio : bool; sequence_number : Z; data_in_flight : Z;
}.
#[export] Instance eta_SentPacket : Eta SentPacket := fun p => mkSent p.(send_time) p.(size) p.(prior_unacked_data) p.(pacing_info) p.(audio)
  p.(sequence_number) p.(data_in_flight).
Record PacketFeedback := mkPacketFeedback { creation_time : Z; sent : SentPacket; network_route : NetworkRoute; ssrc : Z; rtp_sequence_number : Z }.
#[export] Instance eta_PacketFeedback : Eta PacketFeedback := fun p => mkPacketFeedback p.(creation_time) p.(sent) p.(network_route) p.(ssrc)
  p.(rtp_sequence_number).
Definition seq_of (p : PacketFeedback) : Z := p.(sent).(sequence_number).
Record PacketResult := mkResult { sent_packet : SentPacket; receive_time : Z; result_ecn : EcnMarking }.
Record TransportPacketsFeedback := mkTransportFeedback {
  feedback_time : Z; tf_data_in_flight : Z; transport_supports_ecn : bool; packet_feedbacks : list PacketResult;
}.
(** [rtc::SentPacket], what of it is read; and what [AddPacket] reads of a packet to send. *)
Record SendReport := mkSendReport { packet_id : Z; send_time_ms : Z; included_in_feedback : bool; included_in_allocation : bool; packet_size_bytes : Z }.
Record PacketToSend := mkToSend { transport_sequence_number : option Z; to_send_size : Z; is_audio : bool; to_send_ssrc : Z; to_send_seq : Z }.

(** *** Bytes in flight *)

Notation Tracker_t := (gmap RouteKey Z).
Definition AddInFlightPacketBytes (p : PacketFeedback) (m : Tracker_t) : Tracker_t :=
  <[route_key p.(network_route) := default 0 (m !! route_key p.(network_route)) + p.(sent).(size)]> m.
Definition RemoveInFlightPacketBytes (p : PacketFeedback) (m : Tracker_t) : Tracker_t :=
  if IsInfinite p.(sent).(send_time) then m else
  match m !! route_key p.(network_route) with
  | Some n => let n := n - p.(sent).(size) in
              if n =? 0 then delete (route_key p.(network_route)) m else <[route_key p.(network_route) := n]> m
  | None => m
  end.
Definition outstanding (r : NetworkRoute) (m : Tracker_t) : Z := default 0 (m !! route_key r).

(** *** The adapter *)

Definition kSendTimeHistoryWindow : Z := Seconds 60.

Record RecentlyAcknowledgedPacket := mkRecent { recent_key : Z * Z; acknowledgment_time : Z; generation : Z }.

Record TransportFeedbackAdapter := mkAdapter {
  pending_untracked_size_ : Z; last_send_time_ : Z; last_untracked_send_time_ : Z; seq_num_unwrapper_ : SeqNumUnwrapper; last_ack_seq_num_ : Z;
  in_flight_ : Tracker_t; network_route_ : NetworkRoute; current_offset_ : Z; last_feedback_compact_ntp_time_ : option Z;
  rtp_to_transport_sequence_number_ : gmap (Z * Z) Z; history_ : list PacketFeedback; recently_acknowledged_packets_ : gmap (Z * Z) Z;
  recently_acknowledged_packets_in_order_ : list RecentlyAcknowledgedPacket; acknowledgment_generation_ : Z;
}.
#[export] Instance eta_Adapter : Eta TransportFeedbackAdapter := fun s => mkAdapter s.(pending_untracked_size_) s.(last_send_time_)
  s.(last_untracked_send_time_) s.(seq_num_unwrapper_) s.(last_ack_seq_num_) s.(in_flight_) s.(network_route_) s.(current_offset_)
  s.(last_feedback_compact_ntp_time_) s.(rtp_to_transport_sequence_number_) s.(history_) s.(recently_acknowledged_packets_)
  s.(recently_acknowledged_packets_in_order_) s.(acknowledgment_generation_).
Definition TransportFeedbackAdapter_new : TransportFeedbackAdapter :=
  mkAdapter 0 MinusInfinity MinusInfinity (mkUnwrapper 0 None) (-1) ∅ NetworkRoute_new MinusInfinity None ∅ [] ∅ [] 0.

Definition GetOutstandingData (s : TransportFeedbackAdapter) : Z := outstanding s.(network_route_) s.(in_flight_).
Definition SetNetworkRoute (r : NetworkRoute) (s : TransportFeedbackAdapter) : TransportFeedbackAdapter := s <| network_route_ := r |>.

(** [history_.find], [emplace] and [erase]. *)
Definition find_packet (n : Z) (h : list PacketFeedback) : option PacketFeedback := List.find (fun p => seq_of p =? n) h.
Fixpoint history_emplace (p : PacketFeedback) (h : list PacketFeedback) : list PacketFeedback :=
  match h with
  | [] => [p]
  | q :: h' => if seq_of p <? seq_of q then p :: h else if seq_of p =? seq_of q then h else q :: history_emplace p h'
  end.
Definition erase (n : Z) (h : list PacketFeedback) : list PacketFeedback := List.filter (fun p => negb (seq_of p =? n)) h.
(** Changing the packet that was found. *)
Definition update_packet (n : Z) (f : SentPacket -> SentPacket) (h : list PacketFeedback) : list PacketFeedback :=
  map (fun p => if seq_of p =? n then p <| sent ::= f |> else p) h.

(** *** Acknowledged packets *)

Fixpoint prune_acknowledged (now : Z) (l : list RecentlyAcknowledgedPacket) (m : gmap (Z * Z) Z) : list RecentlyAcknowledgedPacket * gmap (Z * Z) Z :=
  match l with
  | [] => ([], m)
  | a :: l' => if td_sub now a.(acknowledgment_time) >? kSendTimeHistoryWindow
               then prune_acknowledged now l' (if bool_decide (m !! a.(recent_key) = Some a.(generation)) then delete a.(recent_key) m else m)
               else (l, m)
  end.
Definition PruneRecentlyAcknowledgedPackets (now : Z) (s : TransportFeedbackAdapter) : TransportFeedbackAdapter :=
  let '(l, m) := prune_acknowledged now s.(recently_acknowledged_packets_in_order_) s.(recently_acknowledged_packets_) in
  s <| recently_acknowledged_packets_ := m |> <| recently_acknowledged_packets_in_order_ := l |>.
Definition RememberAcknowledgedPacket (key : Z * Z) (t : Z) (s : TransportFeedbackAdapter) : TransportFeedbackAdapter :=
  let generation := (s.(acknowledgment_generation_) + 1) mod 2 ^ 64 in
  s <| acknowledgment_generation_ := generation |> <| recently_acknowledged_packets_ ::= <[key := generation]> |>
    <| recently_acknowledged_packets_in_order_ ::= fun l => l ++ [mkRecent key t generation] |>.
Definition WasRecentlyAcknowledged (key : Z * Z) (s : TransportFeedbackAdapter) : bool :=
  bool_decide (is_Some (s.(recently_acknowledged_packets_) !! key)).

(** *** Sending *)

(** The oldest packets that have been in the history too long. *)
Fixpoint prune_history (t last_ack : Z) (h : list PacketFeedback) (m : Tracker_t) (ids : gmap (Z * Z) Z) : list PacketFeedback * Tracker_t * gmap (Z * Z) Z :=
  match h with
  | [] => ([], m, ids)
  | p :: h' =>
      if td_sub t p.(creation_time) >? kSendTimeHistoryWindow
      then prune_history t last_ack h' (if seq_of p >? last_ack then RemoveInFlightPacketBytes p m else m)
             (delete (p.(ssrc), p.(rtp_sequence_number)) ids)
      else (h, m, ids)
  end.

Definition AddPacket (packet : PacketToSend) (info : PacedPacketInfo) (overhead_bytes t : Z) (s : TransportFeedbackAdapter) : TransportFeedbackAdapter :=
  match packet.(transport_sequence_number) with
  | None => s
  | Some n =>
      let s := PruneRecentlyAcknowledgedPackets t s in
      let '(unwrapped, u) := Unwrap (u16 n) s.(seq_num_unwrapper_) in
      let p := mkPacketFeedback t
        (mkSent PlusInfinity (packet.(to_send_size) + overhead_bytes) 0 info packet.(is_audio) unwrapped 0)
        s.(network_route_) packet.(to_send_ssrc) packet.(to_send_seq) in
      let '(h, m, ids) := prune_history t s.(last_ack_seq_num_) s.(history_) s.(in_flight_) s.(rtp_to_transport_sequence_number_) in
      let key := (p.(ssrc), p.(rtp_sequence_number)) in
      s <| seq_num_unwrapper_ := u |> <| in_flight_ := m |> <| recently_acknowledged_packets_ ::= delete key |>
        <| rtp_to_transport_sequence_number_ := match ids !! key with Some _ => ids | None => <[key := unwrapped]> ids end |>
        <| history_ := history_emplace p h |>
  end.

Definition RemovePacket (packet : PacketToSend) (s : TransportFeedbackAdapter) : bool * TransportFeedbackAdapter :=
  let key := (packet.(to_send_ssrc), packet.(to_send_seq)) in
  match s.(rtp_to_transport_sequence_number_) !! key with
  | None => (false, s)
  | Some n =>
      let s := match find_packet n s.(history_) with
        | Some p => (if IsFinite p.(sent).(send_time) then s <| in_flight_ ::= RemoveInFlightPacketBytes p |> else s) <| history_ ::= erase n |>
        | None => s
        end in
      (true, s <| rtp_to_transport_sequence_number_ ::= delete key |>)
  end.

Definition ProcessSentPacket (r : SendReport) (s : TransportFeedbackAdapter) : option SentPacket * TransportFeedbackAdapter :=
  let t := Millis r.(send_time_ms) in
  if r.(included_in_feedback) || negb (r.(packet_id) =? -1) then
    let '(n, u) := Unwrap (u16 r.(packet_id)) s.(seq_num_unwrapper_) in
    let s := s <| seq_num_unwrapper_ := u |> in
    match find_packet n s.(history_) with
    | None => (None, s)
    | Some p =>
        let packet_retransmit := IsFinite p.(sent).(send_time) in
        let pending := s.(pending_untracked_size_) in
        let s := s <| last_send_time_ ::= Z.max t |>
                   <| history_ ::= update_packet n (fun x => x <| send_time := t |> <| prior_unacked_data ::= fun d => d + pending |>) |>
                   <| pending_untracked_size_ := 0 |> in
        if packet_retransmit then (None, s) else
        let p := p <| sent ::= fun x => x <| send_time := t |> <| prior_unacked_data ::= fun d => d + pending |> |> in
        let s := if seq_of p >? s.(last_ack_seq_num_) then s <| in_flight_ ::= AddInFlightPacketBytes p |> else s in
        let in_flight := GetOutstandingData s in
        (Some (p.(sent) <| data_in_flight := in_flight |>), s <| history_ ::= update_packet n (fun x => x <| data_in_flight := in_flight |>) |>)
    end
  else if r.(included_in_allocation) then
    (None, s <| pending_untracked_size_ ::= fun n => n + r.(packet_size_bytes) |> <| last_untracked_send_time_ ::= Z.max t |>)
  else (None, s).

(** *** Reports *)

Definition DivideRoundToNearest (n d : Z) : Z :=
  if n <? 0 then Z.quot n d - (if - Z.rem n d >? Z.quot d 2 then 1 else 0)
  else Z.quot n d + (if Z.rem n d >? Z.quot (d - 1) 2 then 1 else 0).
Definition CompactNtpIntervalToTimeDelta (interval : Z) : Z :=
  DivideRoundToNearest ((if interval >? 0x80000000 then interval - 2 ^ 32 else interval) * 1000000) (Z.shiftl 1 16).

(** The packets after [last_ack] up to [n] leave the bytes in flight. *)
Definition acknowledge_up_to (n : Z) (s : TransportFeedbackAdapter) : TransportFeedbackAdapter :=
  if n >? s.(last_ack_seq_num_) then
    s <| in_flight_ := foldl (fun m p => RemoveInFlightPacketBytes p m) s.(in_flight_)
                         (List.filter (fun p => (s.(last_ack_seq_num_) <? seq_of p) && (seq_of p <=? n)) s.(history_)) |>
      <| last_ack_seq_num_ := n |>
  else s.
(** [RetrievePacketFeedback] of a transport sequence number, and of a key. *)
Definition retrieve_seq (n : Z) (received : bool) (s : TransportFeedbackAdapter) : option PacketFeedback * TransportFeedbackAdapter :=
  let s := acknowledge_up_to n s in
  match find_packet n s.(history_) with
  | None => (None, s)
  | Some p =>
      if IsInfinite p.(sent).(send_time) then (None, s) else
      (Some p, if received then s <| rtp_to_transport_sequence_number_ ::= delete (p.(ssrc), p.(rtp_sequence_number)) |> <| history_ ::= erase n |> else s)
  end.
Definition RetrievePacketFeedback (key : Z * Z) (received : bool) (s : TransportFeedbackAdapter) : option PacketFeedback * TransportFeedbackAdapter :=
  match s.(rtp_to_transport_sequence_number_) !! key with
  | None => (None, s)
  | Some n => retrieve_seq n received s
  end.

(** The result of one report, if it has one, and whether it speaks against ECN. *)
Definition take_report (t : Z) (i : PacketInfo) (s : TransportFeedbackAdapter) : option (PacketResult * bool) * TransportFeedbackAdapter :=
  let key := (i.(f_ssrc), i.(f_seq)) in
  let received := IsFinite i.(arrival_time_offset) in
  match RetrievePacketFeedback key received s with
  | (None, s) => (None, s)
  | (Some p, s) =>
      let s := if received then RememberAcknowledgedPacket key t s else s in
      if negb (bool_decide (p.(network_route) = s.(network_route_))) then (None, s) else
      (Some (mkResult p.(sent) (if received then td_sub s.(current_offset_) i.(arrival_time_offset) else PlusInfinity) i.(f_ecn),
             received && bool_decide (i.(f_ecn) = kNotEct)), s)
  end.
Fixpoint take_reports (t : Z) (l : list PacketInfo) (s : TransportFeedbackAdapter) : list PacketResult * bool * TransportFeedbackAdapter :=
  match l with
  | [] => ([], true, s)
  | i :: l =>
      let '(r, s) := take_report t i s in
      let '(rs, supports_ecn, s) := take_reports t l s in
      match r with Some (r, unmarked) => (r :: rs, supports_ecn && negb unmarked, s) | None => (rs, supports_ecn, s) end
  end.

(** The receiver's clock in ours. *)
Definition advance_offset (ntp t : Z) (s : TransportFeedbackAdapter) : TransportFeedbackAdapter :=
  let offset := if IsInfinite s.(current_offset_) then t else s.(current_offset_) in
  let delta := match s.(last_feedback_compact_ntp_time_) with
               | Some l => CompactNtpIntervalToTimeDelta ((ntp - l) mod 2 ^ 32)
               | None => 0
               end in
  s <| last_feedback_compact_ntp_time_ := Some ntp |> <| current_offset_ := if delta <? 0 then t else td_add offset delta |>.

(** [std::sort] by sequence number; equal ones in any order. *)
Definition result_le (a b : PacketResult) : Prop := a.(sent_packet).(sequence_number) <= b.(sent_packet).(sequence_number).
#[export] Instance result_le_dec a b : Decision (result_le a b).
Proof. unfold result_le. apply _. Defined.
Class ResultSort := {
  sort_results : list PacketResult -> list PacketResult;
  results_perm l : sort_results l ≡ₚ l;
  results_sorted l : StronglySorted result_le (sort_results l);
}.
Lemma results_merge_sorted l : StronglySorted result_le (merge_sort result_le l).
Proof. apply StronglySorted_merge_sort; unfold result_le; [intros a b c; lia|intros a b; lia]. Qed.
#[export] Instance MergeResults : ResultSort :=
  {| sort_results := merge_sort result_le; results_perm := merge_sort_Permutation result_le; results_sorted := results_merge_sorted |}.

Definition ToTransportFeedback (results : list PacketResult) (t : Z) (supports_ecn : bool) (s : TransportFeedbackAdapter) : option TransportPacketsFeedback :=
  match results with
  | [] => None
  | _ => Some (mkTransportFeedback t (GetOutstandingData s) supports_ecn results)
  end.
Definition ProcessCongestionControlFeedback `{ResultSort} (f : CongestionControlFeedback) (t : Z) (s : TransportFeedbackAdapter)
  : option TransportPacketsFeedback * TransportFeedbackAdapter :=
  let s := PruneRecentlyAcknowledgedPackets t s in
  match f.(packets_) with
  | [] => (None, s)
  | _ =>
      let s := advance_offset f.(report_timestamp_compact_ntp_) t s in
      let '(results, supports_ecn, s) := take_reports t f.(packets_) s in
      (ToTransportFeedback (sort_results results) t supports_ecn s, s)
  end.

(** [DataTransport::RegisterForFeedback], what it does under its lock. *)
Definition RegisterForFeedback (packet : PacketToSend) (info : PacedPacketInfo) (send_size now_ms : Z) (s : TransportFeedbackAdapter) : TransportFeedbackAdapter :=
  match packet.(transport_sequence_number) with
  | None => s
  | Some n => (ProcessSentPacket (mkSendReport n now_ms true true send_size)
                (AddPacket packet info (send_size - packet.(to_send_size)) (Millis now_ms) s)).2
  end.

(** *** Calls *)

(** [AddPacket] and [ProcessSentPacket], which [RegisterForFeedback] calls one after the other, are two calls here. *)
Inductive AdapterCall :=
| CallAddPacket (p : PacketToSend) (info : PacedPacketInfo) (overhead_bytes t : Z) | CallRemovePacket (p : PacketToSend)
| CallProcessSent (r : SendReport) | CallFeedback (f : CongestionControlFeedback) (t : Z) | CallSetRoute (r : NetworkRoute).
Definition adapter_call `{ResultSort} (c : AdapterCall) (s : TransportFeedbackAdapter) : TransportFeedbackAdapter :=
  match c with
  | CallAddPacket p i o t => AddPacket p i o t s
  | CallRemovePacket p => (RemovePacket p s).2
  | CallProcessSent r => (ProcessSentPacket r s).2
  | CallFeedback f t => (ProcessCongestionControlFeedback f t s).2
  | CallSetRoute r => SetNetworkRoute r s
  end.
Definition adapter_calls `{ResultSort} (cs : list AdapterCall) (s : TransportFeedbackAdapter) : TransportFeedbackAdapter := foldl (fun s c => adapter_call c s) s cs.

(** ** Bytes in flight *)

(** What a packet adds to a route: nothing before it is sent and after a report passed it. *)
Definition share (last_ack : Z) (r : RouteKey) (p : PacketFeedback) : Z :=
  if IsFinite p.(sent).(send_time) && bool_decide (route_key p.(network_route) = r) && (last_ack <? seq_of p) then p.(sent).(size) else 0.
Definition flight (last_ack : Z) (h : list PacketFeedback) (r : RouteKey) : Z := foldr (fun p n => share last_ack r p + n) 0 h.

Definition sized (h : list PacketFeedback) : Prop := Forall (fun p => 0 <= p.(sent).(size)) h.
Definition in_order_h (h : list PacketFeedback) : Prop := StronglySorted Z.lt (seq_of <$> h).
Record counted (s : TransportFeedbackAdapter) : Prop := {
  ct_flight : forall r, default 0 (s.(in_flight_) !! r) = flight s.(last_ack_seq_num_) s.(history_) r;
  ct_sized : sized s.(history_);
  ct_order : in_order_h s.(history_);
}.

Lemma share_nonneg la r p : 0 <= p.(sent).(size) -> 0 <= share la r p.
Proof. unfold share. destruct (_ && _); lia. Qed.
Lemma flight_nonneg la h r : sized h -> 0 <= flight la h r.
Proof. intros H. induction H as [|p h Hp H IH]; cbn; [done|]. pose proof (share_nonneg la r p Hp). unfold flight in IH. lia. Qed.
Lemma flight_cons la p h r : flight la (p :: h) r = share la r p + flight la h r.
Proof. done. Qed.

(** A packet that is taken off its route. *)
Lemma remove_spec p m r : 0 <= p.(sent).(size) -> (IsFinite p.(sent).(send_time) = true -> p.(sent).(size) <= default 0 (m !! route_key p.(network_route))) ->
  default 0 (RemoveInFlightPacketBytes p m !! r)
  = default 0 (m !! r) - (if IsFinite p.(sent).(send_time) && bool_decide (route_key p.(network_route) = r) then p.(sent).(size) else 0).
Proof.
  intros Hs Hm. unfold RemoveInFlightPacketBytes. unfold IsFinite in *. destruct (IsInfinite (send_time (sent p))); cbn [negb andb]; [lia|].
  specialize (Hm eq_refl). destruct (m !! route_key (network_route p)) as [n|] eqn:E; cbn [default] in Hm.
  - destruct (Z.eqb_spec (n - size (sent p)) 0) as [H|H]; case_bool_decide as Hr.
    + subst r. rewrite lookup_delete_eq, E. cbn. lia.
    + rewrite lookup_delete_ne by done. lia.
    + subst r. rewrite lookup_insert_eq, E. cbn. lia.
    + rewrite lookup_insert_ne by done. lia.
  - cbn in Hm. case_bool_decide as Hr; [|lia]. subst r. rewrite E. cbn. lia.
Qed.
Lemma remove_share la p m : 0 <= p.(sent).(size) -> la < seq_of p -> (forall r, share la r p <= default 0 (m !! r)) ->
  forall r, default 0 (RemoveInFlightPacketBytes p m !! r) = default 0 (m !! r) - share la r p.
Proof.
  intros Hs Hl Hm r. rewrite remove_spec; [|done|].
  - unfold share. destruct (Z.ltb_spec la (seq_of p)); [|lia]. by rewrite andb_true_r.
  - intros Hf. specialize (Hm (route_key (network_route p))). unfold share in Hm. rewrite Hf, bool_decide_eq_true_2 in Hm by done.
    destruct (Z.ltb_spec la (seq_of p)); [done|lia].
Qed.
Lemma remove_all la l m : sized l -> Forall (fun p => la < seq_of p) l -> (forall r, flight la l r <= default 0 (m !! r)) ->
  forall r, default 0 (foldl (fun m p => RemoveInFlightPacketBytes p m) m l !! r) = default 0 (m !! r) - flight la l r.
Proof.
  intros Hs Hl. revert m. induction l as [|p l IH]; intros m Hm r; [cbn; lia|]. apply Forall_cons in Hs as [Hp Hs]. apply Forall_cons in Hl as [Hla Hl].
  assert (Hx : forall r, default 0 (RemoveInFlightPacketBytes p m !! r) = default 0 (m !! r) - share la r p).
  { apply remove_share; [done|done|]. intros r'. specialize (Hm r'). rewrite flight_cons in Hm. pose proof (flight_nonneg la l r' Hs). lia. }
  cbn [foldl]. rewrite IH; [rewrite Hx, flight_cons; lia|done|done|]. intros r'. specialize (Hm r'). rewrite flight_cons in Hm. rewrite Hx. lia.
Qed.

(** *** The history *)

Lemma order_cons p h : in_order_h (p :: h) <-> in_order_h h /\ Forall (fun q => seq_of p < seq_of q) h.
Proof.
  unfold in_order_h. cbn [fmap list_fmap]. split.
  - intros [H1 H2]%StronglySorted_inv. split; [done|]. exact (proj1 (Forall_fmap seq_of (Z.lt (seq_of p)) h) H2).
  - intros [H1 H2]. constructor; [done|]. exact (proj2 (Forall_fmap seq_of (Z.lt (seq_of p)) h) H2).
Qed.
Lemma find_some n h p : find_packet n h = Some p -> seq_of p = n /\ p ∈ h.
Proof. intros H. apply List.find_some in H as [H1 H2]. split; [lia|]. by apply list_elem_of_In. Qed.
Lemma erase_absent n h : Forall (fun q => n < seq_of q) h -> erase n h = h.
Proof.
  intros H. induction H as [|q h Hq H IH]; [done|]. unfold erase in *. cbn. destruct (Z.eqb_spec (seq_of q) n); [lia|]. cbn. by rewrite IH.
Qed.
Lemma update_absent n f h : Forall (fun q => n < seq_of q) h -> update_packet n f h = h.
Proof.
  intros H. induction H as [|q h Hq H IH]; [done|]. unfold update_packet in *. cbn. destruct (Z.eqb_spec (seq_of q) n); [lia|]. by rewrite IH.
Qed.

Lemma erase_flight la n h p r : in_order_h h -> find_packet n h = Some p -> flight la (erase n h) r = flight la h r - share la r p.
Proof.
  induction h as [|q h IH]; [done|]. intros [Ho Hq]%order_cons E. unfold erase, find_packet in *. cbn [List.filter List.find] in *.
  destruct (Z.eqb_spec (seq_of q) n) as [En|En]; cbn [negb].
  - injection E as ->. assert (Ea : erase n h = h) by (apply erase_absent; by rewrite <- En). unfold erase in Ea. rewrite Ea, flight_cons. lia.
  - rewrite !flight_cons, (IH Ho E). lia.
Qed.
Lemma erase_sub n h : sized h -> in_order_h h -> sized (erase n h) /\ in_order_h (erase n h).
Proof.
  intros Hs Ho. induction h as [|q h IH]; [done|]. apply Forall_cons in Hs as [Hq Hs]. apply order_cons in Ho as [Ho Hl]. destruct (IH Hs Ho) as [H1 H2].
  unfold erase in *. cbn. destruct (negb _); [|done]. split; [by constructor|]. apply order_cons. split; [done|].
  rewrite Forall_forall in Hl |- *. intros x Hx. apply list_elem_of_In, List.filter_In in Hx as [Hx _]. by apply Hl, list_elem_of_In.
Qed.

(** A change that keeps number and size. *)
Definition keeps_size (f : SentPacket -> SentPacket) : Prop := forall x, (f x).(sequence_number) = x.(sequence_number) /\ (f x).(size) = x.(size).
Lemma update_sub n f h : keeps_size f -> sized h -> in_order_h h -> sized (update_packet n f h) /\ in_order_h (update_packet n f h).
Proof.
  intros Hf Hs Ho. assert (E : seq_of <$> update_packet n f h = seq_of <$> h).
  { clear -Hf. induction h as [|q h IH]; [done|]. cbn. f_equal; [|exact IH]. destruct (_ =? _); [|done]. apply (proj1 (Hf _)). }
  split.
  - unfold sized, update_packet. apply Forall_map. eapply Forall_impl; [exact Hs|]. cbn. intros q Hq. destruct (_ =? _); [|done]. cbn. by rewrite (proj2 (Hf _)).
  - unfold in_order_h. by rewrite E.
Qed.
Lemma update_flight la n f h p r : in_order_h h -> find_packet n h = Some p ->
  flight la (update_packet n f h) r = flight la h r - share la r p + share la r (p <| sent ::= f |>).
Proof.
  induction h as [|q h IH]; [done|]. intros [Ho Hq]%order_cons E. unfold find_packet in *. cbn [List.find] in E. cbn [update_packet map].
  destruct (Z.eqb_spec (seq_of q) n) as [En|En].
  - injection E as ->. assert (Ea : update_packet n f h = h) by (apply update_absent; by rewrite <- En). unfold update_packet in Ea. rewrite Ea, !flight_cons. lia.
  - rewrite !flight_cons. unfold update_packet in IH. rewrite (IH Ho E). lia.
Qed.

(** A new packet adds nothing yet. *)
Lemma emplace_flight la p h r : p.(sent).(send_time) = PlusInfinity -> flight la (history_emplace p h) r = flight la h r.
Proof.
  intros Hp. assert (E : share la r p = 0) by (unfold share; by rewrite Hp). induction h as [|q h IH]; cbn [history_emplace]; [by rewrite flight_cons, E|].
  destruct (_ <? _); [rewrite flight_cons, E; lia|]. destruct (_ =? _); [done|]. by rewrite !flight_cons, IH.
Qed.
Lemma emplace_above n p h : n < seq_of p -> Forall (fun q => n < seq_of q) h -> Forall (fun q => n < seq_of q) (history_emplace p h).
Proof.
  intros Hn H. induction H as [|q h Hq H IH]; cbn [history_emplace]; [by constructor|]. destruct (_ <? _); [by repeat constructor|]. destruct (_ =? _); by constructor.
Qed.
Lemma emplace_sub p h : 0 <= p.(sent).(size) -> sized h -> in_order_h h -> sized (history_emplace p h) /\ in_order_h (history_emplace p h).
Proof.
  intros Hp Hs Ho. induction h as [|q h IH]; cbn [history_emplace]; [by split; [constructor|apply order_cons]|].
  pose proof Hs as [Hq Hs']%Forall_cons. pose proof Ho as [Ho' Hl]%order_cons. destruct (Z.ltb_spec (seq_of p) (seq_of q)) as [H|H].
  - split; [by constructor|]. apply order_cons. split; [done|]. constructor; [done|]. eapply Forall_impl; [exact Hl|]. cbn. lia.
  - destruct (Z.eqb_spec (seq_of p) (seq_of q)); [done|]. destruct (IH Hs' Ho') as [H1 H2]. split; [by constructor|].
    apply order_cons. split; [done|]. apply emplace_above; [lia|done].
Qed.

(** *** The operations *)

Lemma counted_same s s' : s'.(in_flight_) = s.(in_flight_) -> s'.(history_) = s.(history_) -> s'.(last_ack_seq_num_) = s.(last_ack_seq_num_) ->
  counted s -> counted s'.
Proof. intros E1 E2 E3 [H1 H2 H3]. split; rewrite ?E1, ?E2, ?E3; done. Qed.

Lemma prune_history_counted t la h m ids h' m' ids' : prune_history t la h m ids = (h', m', ids') ->
  (forall r, default 0 (m !! r) = flight la h r) -> sized h -> in_order_h h ->
  (forall r, default 0 (m' !! r) = flight la h' r) /\ sized h' /\ in_order_h h'.
Proof.
  revert m ids. induction h as [|p h IH]; intros m ids; cbn [prune_history]; [by intros [= <- <- <-]|].
  destruct (_ >? _); [|by intros [= <- <- <-]]. intros E Hm [Hp Hs]%Forall_cons [Ho Hl]%order_cons. apply (IH _ _ E); [|done|done].
  intros r. specialize (Hm r) as Hr. rewrite flight_cons in Hr. destruct (Z.gtb_spec (seq_of p) la) as [H|H].
  - rewrite (remove_share la); [lia|done|lia|]. intros r'. rewrite Hm, flight_cons. pose proof (flight_nonneg la h r' Hs). lia.
  - unfold share in Hr. destruct (Z.ltb_spec la (seq_of p)); [lia|]. rewrite andb_false_r in Hr. lia.
Qed.

Lemma AddPacket_counted packet info o t s : 0 <= packet.(to_send_size) + o -> counted s -> counted (AddPacket packet info o t s).
Proof.
  intros Hs Hc. unfold AddPacket. destruct (transport_sequence_number packet) as [n|]; [|done].
  set (s1 := PruneRecentlyAcknowledgedPackets t s). assert (Hc1 : counted s1).
  { apply (counted_same s); [..|done]; unfold s1, PruneRecentlyAcknowledgedPackets; by destruct (prune_acknowledged _ _ _). }
  clearbody s1. destruct (Unwrap _ _) as [u v]. set (p := mkPacketFeedback _ _ _ _ _).
  destruct (prune_history _ _ _ _ _) as [[h m] ids] eqn:E. destruct Hc1 as [H1 H2 H3].
  destruct (prune_history_counted _ _ _ _ _ _ _ _ E H1 H2 H3) as (H4 & H5 & H6). destruct (emplace_sub p h) as [H7 H8]; [done..|].
  split; [|exact H7|exact H8]. intros r.
  change (default 0 (m !! r) = flight (last_ack_seq_num_ s1) (history_emplace p h) r). rewrite emplace_flight; [apply H4|done].
Qed.

(** Sent packets that the reports have not passed yet may be removed. *)
Definition not_passed (p : PacketToSend) (s : TransportFeedbackAdapter) : Prop :=
  forall n q, s.(rtp_to_transport_sequence_number_) !! (p.(to_send_ssrc), p.(to_send_seq)) = Some n -> find_packet n s.(history_) = Some q ->
    IsFinite q.(sent).(send_time) = true -> s.(last_ack_seq_num_) < n.

Lemma share_le la h r p : sized h -> p ∈ h -> share la r p <= flight la h r.
Proof.
  intros Hs. induction Hs as [|q h Hq Hs IH]; [by intros ?%elem_of_nil|]. rewrite flight_cons. pose proof (flight_nonneg la h r Hs).
  pose proof (share_nonneg la r q Hq). intros [->|Hp]%elem_of_cons; [lia|]. specialize (IH Hp). lia.
Qed.
Lemma sized_in h p : sized h -> p ∈ h -> 0 <= p.(sent).(size).
Proof. intros H Hp. unfold sized in H. rewrite Forall_forall in H. by apply H. Qed.

Lemma RemovePacket_counted packet s : not_passed packet s -> counted s -> counted (RemovePacket packet s).2.
Proof.
  intros Hn Hc. unfold RemovePacket. destruct (_ !! _) as [n|] eqn:Ek; [|done]. cbn [snd].
  match goal with |- counted (?x <| _ ::= _ |>) => apply (counted_same x); [done..|] end.
  destruct (find_packet n (history_ s)) as [p|] eqn:Ef; [|done]. destruct Hc as [H1 H2 H3]. destruct (erase_sub n _ H2 H3) as [H4 H5].
  destruct (find_some _ _ _ Ef) as [En Hin]. specialize (Hn n p Ek Ef).
  split; [|by destruct (IsFinite _)..]. intros r. destruct (IsFinite (send_time (sent p))) eqn:Ep.
  - change (default 0 (RemoveInFlightPacketBytes p (in_flight_ s) !! r) = flight (last_ack_seq_num_ s) (erase n (history_ s)) r).
    rewrite (erase_flight _ _ _ p) by done. rewrite (remove_share (last_ack_seq_num_ s)); [by rewrite H1|by apply (sized_in (history_ s))| |].
    + rewrite En. by apply Hn.
    + intros r'. rewrite H1. by apply share_le.
  - change (default 0 (in_flight_ s !! r) = flight (last_ack_seq_num_ s) (erase n (history_ s)) r).
    rewrite (erase_flight _ _ _ p) by done. unfold share. rewrite Ep. cbn. rewrite H1. lia.
Qed.

Lemma find_update n f h p : keeps_size f -> find_packet n h = Some p -> find_packet n (update_packet n f h) = Some (p <| sent ::= f |>).
Proof.
  intros Hf. induction h as [|q h IH]; [done|]. unfold find_packet, update_packet in *. cbn. destruct (Z.eqb_spec (seq_of q) n) as [E|E].
  - intros [= ->]. assert (Es : seq_of (p <| sent ::= f |>) = n) by (unfold seq_of; cbn; rewrite (proj1 (Hf _)); exact E). by rewrite Es, Z.eqb_refl.
  - destruct (Z.eqb_spec (seq_of q) n); [done|]. exact IH.
Qed.

Lemma ProcessSent_counted r s : IsFinite (Millis r.(send_time_ms)) = true -> counted s -> counted (ProcessSentPacket r s).2.
Proof.
  intros Ht Hc. unfold ProcessSentPacket. set (t := Millis (send_time_ms r)) in *.
  destruct (_ || _); [|destruct (included_in_allocation r); [by apply (counted_same s)|done]].
  destruct (Unwrap _ _) as [n u]. set (s1 := s <| seq_num_unwrapper_ := u |>). assert (Hc1 : counted s1) by by apply (counted_same s).
  clearbody s1. clear Hc s. destruct (find_packet n (history_ s1)) as [p|] eqn:Ef; [|done].
  set (d := pending_untracked_size_ s1). set (f := fun x : SentPacket => x <| send_time := t |> <| prior_unacked_data ::= fun y => y + d |>).
  assert (Hf : keeps_size f) by (intros x; by split). destruct Hc1 as [H1 H2 H3]. destruct (update_sub n f _ Hf H2 H3) as [H4 H5].
  destruct (find_some _ _ _ Ef) as [En Hin]. set (s2 := _ <| pending_untracked_size_ := 0 |>).
  set (p2 := p <| sent ::= f |>).
  assert (Hfl : forall r, flight (last_ack_seq_num_ s1) (history_ s2) r = flight (last_ack_seq_num_ s1) (history_ s1) r
    - share (last_ack_seq_num_ s1) r p + share (last_ack_seq_num_ s1) r p2) by (intros r'; by apply update_flight).
  assert (Hsh : forall r, share (last_ack_seq_num_ s1) r p2
    = if IsFinite t && bool_decide (route_key (network_route p) = r) && (last_ack_seq_num_ s1 <? seq_of p) then size (sent p) else 0) by done.
  destruct (IsFinite (send_time (sent p))) eqn:Ep; cbn [snd].
  { split; [|exact H4|exact H5]. intros r'. change (default 0 (in_flight_ s1 !! r') = flight (last_ack_seq_num_ s1) (history_ s2) r').
    rewrite Hfl, H1, Hsh, Ht. unfold share. rewrite Ep. cbn [andb]. lia. }
  assert (Hc3 : counted (if seq_of p2 >? last_ack_seq_num_ s2 then s2 <| in_flight_ ::= AddInFlightPacketBytes p2 |> else s2)).
  { change (last_ack_seq_num_ s2) with (last_ack_seq_num_ s1). assert (E0 : forall r', share (last_ack_seq_num_ s1) r' p = 0) by (intros r'; unfold share; by rewrite Ep).
    destruct (Z.gtb_spec (seq_of p2) (last_ack_seq_num_ s1)) as [Hg|Hg]; (split; [|exact H4|exact H5]); intros r'.
    - change (default 0 (AddInFlightPacketBytes p2 (in_flight_ s1) !! r') = flight (last_ack_seq_num_ s1) (history_ s2) r').
      rewrite Hfl, E0, <- H1. unfold AddInFlightPacketBytes, share. change (send_time (sent p2)) with t. rewrite Ht.
      destruct (Z.ltb_spec (last_ack_seq_num_ s1) (seq_of p2)); [|lia]. rewrite andb_true_r. cbn [andb]. case_bool_decide as Er.
      + subst r'. rewrite lookup_insert_eq. cbn. lia.
      + rewrite lookup_insert_ne by done. lia.
    - change (default 0 (in_flight_ s1 !! r') = flight (last_ack_seq_num_ s1) (history_ s2) r'). rewrite Hfl, E0, H1. unfold share.
      destruct (Z.ltb_spec (last_ack_seq_num_ s1) (seq_of p2)); [lia|]. rewrite andb_false_r. lia. }
  assert (Ef3 : forall x, find_packet n (history_ (if seq_of p2 >? x then s2 <| in_flight_ ::= AddInFlightPacketBytes p2 |> else s2)) = Some p2).
  { pose proof (find_update n f (history_ s1) p Hf Ef). intros x. by destruct (seq_of p2 >? x). }
  specialize (Ef3 (last_ack_seq_num_ s2)). set (s3 := if _ >? _ then _ else s2) in *. clearbody s3.
  set (g := fun x : SentPacket => x <| data_in_flight := GetOutstandingData s3 |>). assert (Hg : keeps_size g) by (intros x; by split).
  destruct Hc3 as [H6 H7 H8]. destruct (update_sub n g _ Hg H7 H8) as [H9 H10]. split; [|exact H9|exact H10]. intros r'.
  change (default 0 (in_flight_ s3 !! r') = flight (last_ack_seq_num_ s3) (update_packet n g (history_ s3)) r').
  rewrite (update_flight _ _ _ _ p2) by done. rewrite H6. unfold share. cbn. lia.
Qed.

Lemma share_split la n r p : la <= n -> share la r p = (if (la <? seq_of p) && (seq_of p <=? n) then share la r p else 0) + share n r p.
Proof.
  intros Hn. unfold share. destruct (IsFinite _ && bool_decide _); cbn [andb]; [|by destruct (_ && _)].
  destruct (Z.ltb_spec la (seq_of p)), (Z.leb_spec (seq_of p) n), (Z.ltb_spec n (seq_of p)); cbn [andb]; lia.
Qed.
Lemma flight_split la n h r : la <= n -> flight la h r =
  flight la (List.filter (fun p => (la <? seq_of p) && (seq_of p <=? n)) h) r + flight n h r.
Proof.
  intros Hn. induction h as [|p h IH]; [done|]. rewrite !flight_cons, IH, (share_split la n r p Hn). cbn [List.filter].
  destruct (_ && _); rewrite ?flight_cons; lia.
Qed.
Lemma acknowledge_counted n s : counted s -> counted (acknowledge_up_to n s) /\ n <= (acknowledge_up_to n s).(last_ack_seq_num_)
  /\ history_ (acknowledge_up_to n s) = history_ s.
Proof.
  intros Hc. unfold acknowledge_up_to. destruct (Z.gtb_spec n (last_ack_seq_num_ s)) as [H|H]; [|split; [done|split; [lia|done]]].
  destruct Hc as [H1 H2 H3]. split; [|split; [cbn; lia|done]]. split; [|done|done]. intros r.
  set (l := List.filter (fun p => (last_ack_seq_num_ s <? seq_of p) && (seq_of p <=? n)) (history_ s)).
  change (default 0 (foldl (fun m p => RemoveInFlightPacketBytes p m) (in_flight_ s) l !! r) = flight n (history_ s) r). assert (Hl : flight (last_ack_seq_num_ s) l r <= default 0 (in_flight_ s !! r)).
  { rewrite H1, (flight_split _ n (history_ s)) by lia. fold l. pose proof (flight_nonneg n _ r H2). lia. }
  rewrite (remove_all (last_ack_seq_num_ s)).
  - rewrite H1, (flight_split _ n (history_ s)) by lia. fold l. lia.
  - unfold sized in *. rewrite Forall_forall in *. intros p Hp. apply H2. apply list_elem_of_In, List.filter_In in Hp as [Hp _]. by apply list_elem_of_In.
  - rewrite Forall_forall. intros p Hp. apply list_elem_of_In, List.filter_In in Hp as [_ Hp]. lia.
  - intros r'. rewrite H1, (flight_split _ n (history_ s)) by lia. fold l. pose proof (flight_nonneg n _ r' H2). lia.
Qed.

Lemma retrieve_counted k received s : counted s -> counted (RetrievePacketFeedback k received s).2.
Proof.
  intros Hc. unfold RetrievePacketFeedback. destruct (_ !! k) as [n|]; [|done]. unfold retrieve_seq.
  destruct (acknowledge_counted n s Hc) as (Hc1 & Hn & _). set (s1 := acknowledge_up_to n s) in *. clearbody s1.
  destruct (find_packet n (history_ s1)) as [p|] eqn:Ef; [|done]. destruct (IsInfinite _); [done|]. destruct received; [|done].
  destruct Hc1 as [H1 H2 H3]. destruct (erase_sub n _ H2 H3) as [H4 H5]. split; [|exact H4|exact H5]. intros r.
  change (default 0 (in_flight_ s1 !! r) = flight (last_ack_seq_num_ s1) (erase n (history_ s1)) r).
  rewrite (erase_flight _ _ _ p) by done. rewrite H1. destruct (find_some _ _ _ Ef) as [En _]. unfold share.
  destruct (Z.ltb_spec (last_ack_seq_num_ s1) (seq_of p)); [lia|]. rewrite andb_false_r. lia.
Qed.
Lemma take_report_counted t i s : counted s -> counted (take_report t i s).2.
Proof.
  intros Hc. unfold take_report. pose proof (retrieve_counted (f_ssrc i, f_seq i) (IsFinite (arrival_time_offset i)) s Hc) as H.
  destruct (RetrievePacketFeedback _ _ s) as [[p|] s1]; [|done]. set (s2 := if IsFinite _ then _ else s1).
  assert (H2 : counted s2) by (unfold s2; destruct (IsFinite _); [by apply (counted_same s1)|done]). by destruct (negb _).
Qed.
Lemma take_reports_counted t l s : counted s -> counted (take_reports t l s).2.
Proof.
  revert s. induction l as [|i l IH]; intros s Hc; [done|]. cbn [take_reports]. pose proof (take_report_counted t i s Hc) as H.
  destruct (take_report t i s) as [x s1]. specialize (IH s1 H). destruct (take_reports t l s1) as [[rs b] s2]. by destruct x as [[r u]|].
Qed.

(** Where every call leaves the books right. *)
Definition call_fits (c : AdapterCall) : Prop :=
  match c with
  | CallAddPacket p _ o _ => 0 <= p.(to_send_size) + o
  | CallProcessSent r => IsFinite (Millis r.(send_time_ms)) = true
  | _ => True
  end.
Fixpoint removals_fit `{ResultSort} (cs : list AdapterCall) (s : TransportFeedbackAdapter) : Prop :=
  match cs with
  | [] => True
  | c :: cs => match c with CallRemovePacket p => not_passed p s | _ => True end /\ removals_fit cs (adapter_call c s)
  end.
Lemma call_counted `{ResultSort} c s : call_fits c -> match c with CallRemovePacket p => not_passed p s | _ => True end -> counted s -> counted (adapter_call c s).
Proof.
  destruct c as [p i o t|p|r|f t|r]; cbn [call_fits adapter_call]; intros Hf Hr Hc.
  - by apply AddPacket_counted.
  - by apply RemovePacket_counted.
  - by apply ProcessSent_counted.
  - unfold ProcessCongestionControlFeedback. set (s1 := PruneRecentlyAcknowledgedPackets t s). assert (Hc1 : counted s1).
    { apply (counted_same s); [..|done]; unfold s1, PruneRecentlyAcknowledgedPackets; by destruct (prune_acknowledged _ _ _). }
    clearbody s1. destruct (packets_ f) as [|i l]; [done|]. set (s2 := advance_offset _ t s1).
    assert (Hc2 : counted s2) by by apply (counted_same s1). pose proof (take_reports_counted t (i :: l) s2 Hc2) as H2.
    by destruct (take_reports t (i :: l) s2) as [[rs b] s3].
  - by apply (counted_same s).
Qed.

(** ** Theorems *)

(** C37: the bytes in flight are counted. Through any calls, whatever is lost, reordered, reported twice, sent again, dropped from the history or moved to
    another route, the outstanding data of a route is the size of the packets of the history that were sent on it and are newer
    than every packet reported on, and never negative; only packets that the reports have not passed may be removed. *)
Theorem in_flight_is_counted `{ResultSort} cs : Forall call_fits cs -> removals_fit cs TransportFeedbackAdapter_new ->
  let s := adapter_calls cs TransportFeedbackAdapter_new in
  forall r, outstanding r s.(in_flight_) = flight s.(last_ack_seq_num_) s.(history_) (route_key r) /\ 0 <= outstanding r s.(in_flight_).
Proof.
  intros Hf Hr s r. assert (Hc : counted s).
  { unfold s. assert (H0 : counted TransportFeedbackAdapter_new) by (split; [done|constructor|constructor]). revert H0 Hr.
    generalize TransportFeedbackAdapter_new. induction Hf as [|c cs Hc Hf IH]; intros a Ha Hr; [done|]. destruct Hr as [Hr1 Hr2].
    apply IH; [by apply call_counted|done]. }
  destruct Hc as [H1 H2 _]. unfold outstanding. rewrite H1. split; [done|by apply flight_nonneg].
Qed.

(** Two packets; the second is reported as received and the first as lost; a third is rolled back after its send failed. *)
Definition w_to_send (n : Z) (bytes : Z) : PacketToSend := mkToSend (Some n) bytes false 1 (n mod 2 ^ 16).
Definition w_register (n bytes ms : Z) : list AdapterCall :=
  [CallAddPacket (w_to_send n bytes) no_probe 28 (Millis ms); CallProcessSent (mkSendReport n ms true true (bytes + 28))].
Definition w_report (l : list (Z * Z)) (ms : Z) : AdapterCall :=
  CallFeedback (mkFeedback ((fun '(n, o) => mkInfo 1 n o kNotEct) <$> l) 0 1) (Millis ms).
Definition w_adapter : list AdapterCall :=
  w_register 1 1000 10 ++ w_register 2 500 11 ++ [w_report [(1, PlusInfinity)] 50] ++ w_register 3 700 52
  ++ [CallRemovePacket (w_to_send 3 700)] ++ w_register 4 100 60.
Lemma w_adapter_fits : Forall call_fits w_adapter /\ removals_fit w_adapter TransportFeedbackAdapter_new.
Proof.
  split; [repeat constructor; vm_compute; congruence|].
  unfold w_adapter, w_register, w_report. cbn [app removals_fit]. do 7 (split; [exact I|]). split.
  { intros n q. vm_compute. intros [= <-]. intros _ _. reflexivity. }
  do 2 (split; [exact I|]). exact I.
Qed.
Lemma in_flight_is_counted_witness : Forall call_fits w_adapter /\ removals_fit w_adapter TransportFeedbackAdapter_new /\
  let s := adapter_calls w_adapter TransportFeedbackAdapter_new in
  outstanding NetworkRoute_new s.(in_flight_) = flight s.(last_ack_seq_num_) s.(history_) (route_key NetworkRoute_new)
  /\ 0 <= outstanding NetworkRoute_new s.(in_flight_).
Proof.
  split; [exact (proj1 w_adapter_fits)|]. split; [exact (proj2 w_adapter_fits)|].
  apply (in_flight_is_counted w_adapter); [exact (proj1 w_adapter_fits)|exact (proj2 w_adapter_fits)].
Defined.
Example w_adapter_flight : GetOutstandingData (adapter_calls w_adapter TransportFeedbackAdapter_new) = 656.
Proof. vm_compute. reflexivity. Qed.

(** *** A number that is used again *)

Definition key_of (p : PacketFeedback) : Z * Z := (p.(ssrc), p.(rtp_sequence_number)).
Lemma prune_keeps t la h m ids h' m' ids' n old : prune_history t la h m ids = (h', m', ids') -> find_packet n h = Some old ->
  td_sub t old.(creation_time) <= kSendTimeHistoryWindow -> Forall (fun q => key_of q = key_of old -> seq_of q = n) h ->
  find_packet n h' = Some old /\ ids' !! key_of old = ids !! key_of old.
Proof.
  revert m ids. induction h as [|q h IH]; intros m ids; cbn [prune_history]; [done|]. unfold find_packet. cbn [List.find].
  destruct (Z.gtb_spec (td_sub t (creation_time q)) kSendTimeHistoryWindow) as [Ht|Ht]; [|by intros [= <- <- <-]].
  intros E Hf Ho [Hq Hh]%Forall_cons. destruct (Z.eqb_spec (seq_of q) n) as [En|En]; [injection Hf as ->; lia|].
  destruct (IH _ _ E Hf Ho Hh) as [H1 H2]. split; [done|]. rewrite H2. apply lookup_delete_ne. intros Ek. by apply En, Hq.
Qed.
Lemma find_emplace n p h old : in_order_h h -> find_packet n h = Some old -> find_packet n (history_emplace p h) = Some old.
Proof.
  induction h as [|q h IH]; [done|]. intros [Ho Hl]%order_cons Hf. cbn [history_emplace]. destruct (Z.ltb_spec (seq_of p) (seq_of q)) as [H|H].
  - assert (Hn : seq_of q <= n).
    { apply find_some in Hf as [<- [->|Hin]%elem_of_cons]; [lia|]. rewrite Forall_forall in Hl. specialize (Hl _ Hin). cbn in Hl. lia. }
    unfold find_packet in *. cbn [List.find] in *. destruct (Z.eqb_spec (seq_of p) n); [lia|done].
  - destruct (seq_of p =? seq_of q); [done|]. unfold find_packet in *. cbn [List.find] in *. destruct (seq_of q =? n); [done|]. by apply IH.
Qed.

Lemma retrieved_gone n s p s' received : retrieve_seq n true s = (Some p, s') -> (RetrievePacketFeedback (key_of p) received s').1 = None.
Proof.
  unfold retrieve_seq, RetrievePacketFeedback, key_of. destruct (find_packet _ _) as [q|]; [|congruence].
  destruct (IsInfinite _); [congruence|]. intros [= <- <-]. cbn. by rewrite lookup_delete_eq.
Qed.

Lemma prune_order t la h m ids h' m' ids' n : prune_history t la h m ids = (h', m', ids') -> in_order_h h ->
  in_order_h h' /\ (find_packet n h = None -> find_packet n h' = None).
Proof.
  revert m ids. induction h as [|q h IH]; intros m ids; cbn [prune_history]; [by intros [= <- <- <-]|].
  destruct (_ >? _); [|by intros [= <- <- <-]]. intros E [Ho _]%order_cons. destruct (IH _ _ E Ho) as [H1 H2]. split; [done|].
  unfold find_packet in *. cbn [List.find]. by destruct (seq_of q =? n).
Qed.
Lemma find_emplaced p h : find_packet (seq_of p) h = None -> find_packet (seq_of p) (history_emplace p h) = Some p.
Proof.
  unfold find_packet. induction h as [|q h IH]; cbn [history_emplace List.find]; [by rewrite Z.eqb_refl|].
  destruct (Z.eqb_spec (seq_of q) (seq_of p)) as [|Hn]; [done|]. intros Hf. destruct (seq_of p <? seq_of q); cbn [List.find]; [by rewrite Z.eqb_refl|].
  destruct (Z.eqb_spec (seq_of p) (seq_of q)); [congruence|]. cbn [List.find]. destruct (Z.eqb_spec (seq_of q) (seq_of p)); [congruence|]. by apply IH.
Qed.
Lemma find_other x f n h : keeps_size f -> x <> n -> find_packet n (update_packet x f h) = find_packet n h.
Proof.
  intros Hf Hx. unfold find_packet, update_packet. induction h as [|q h IH]; [done|]. cbn. destruct (Z.eqb_spec (seq_of q) x) as [E|E].
  - assert (Es : seq_of (q <| sent ::= f |>) = x) by (unfold seq_of; cbn; rewrite (proj1 (Hf _)); exact E). rewrite Es, E.
    destruct (Z.eqb_spec x n); [done|]. exact IH.
  - destruct (seq_of q =? n); [done|]. exact IH.
Qed.

(** The new packet is in the history, as sent; the key still names the old one. *)
Record shadowed (key : Z * Z) (n x t : Z) (old : PacketFeedback) (s : TransportFeedbackAdapter) : Prop := {
  sh_key : s.(rtp_to_transport_sequence_number_) !! key = Some n;
  sh_old : find_packet n s.(history_) = Some old;
  sh_new : exists p, find_packet x s.(history_) = Some p /\ key_of p = key /\ p.(sent).(send_time) = t;
}.
Lemma add_shadows packet info o t s old n m : transport_sequence_number packet = Some m ->
  let key := (packet.(to_send_ssrc), packet.(to_send_seq)) in let x := (Unwrap (u16 m) s.(seq_num_unwrapper_)).1 in
  s.(rtp_to_transport_sequence_number_) !! key = Some n -> find_packet n s.(history_) = Some old -> key_of old = key ->
  td_sub t old.(creation_time) <= kSendTimeHistoryWindow -> Forall (fun q => key_of q = key -> seq_of q = n) s.(history_) ->
  in_order_h s.(history_) -> find_packet x s.(history_) = None ->
  shadowed key n x PlusInfinity old (AddPacket packet info o t s)
  /\ seq_num_unwrapper_ (AddPacket packet info o t s) = (Unwrap (u16 m) s.(seq_num_unwrapper_)).2.
Proof.
  intros Em key x Ek Ef Eo Ht Hq Ho Hx. unfold AddPacket. rewrite Em. set (s1 := PruneRecentlyAcknowledgedPackets t s).
  assert (E1 : history_ s1 = history_ s /\ rtp_to_transport_sequence_number_ s1 = rtp_to_transport_sequence_number_ s
    /\ seq_num_unwrapper_ s1 = seq_num_unwrapper_ s) by (unfold s1, PruneRecentlyAcknowledgedPackets; by destruct (prune_acknowledged _ _ _)).
  clearbody s1. destruct E1 as (E1 & E2 & E3). rewrite E3. destruct (Unwrap _ _) as [y u] eqn:Eu. unfold x in *. cbn [fst snd] in *. clear x.
  set (p := mkPacketFeedback _ _ _ _ _). destruct (prune_history _ _ _ _ _) as [[h mm] ids] eqn:E. rewrite E1, E2 in E. rewrite <- Eo in Hq.
  destruct (prune_keeps _ _ _ _ _ _ _ _ _ _ E Ef Ht Hq) as [H1 H2]. rewrite Eo, Ek in H2.
  destruct (prune_order _ _ _ _ _ _ _ _ y E Ho) as [Hh Hy]. change (ssrc p, rtp_sequence_number p) with key. rewrite H2. split; [|done]. split.
  - exact H2.
  - by apply find_emplace.
  - exists p. split; [by apply (find_emplaced p), Hy|]. by split.
Qed.
Lemma sent_shadows key n x v s old r : x <> n -> in_u16 v -> u16 r.(packet_id) = v -> r.(included_in_feedback) = true ->
  Unwrap v s.(seq_num_unwrapper_) = (x, s.(seq_num_unwrapper_)) ->
  shadowed key n x PlusInfinity old s -> shadowed key n x (Millis r.(send_time_ms)) old (ProcessSentPacket r s).2.
Proof.
  intros Hx Hv Er Hi Eu [Hk Ho (p & Hp & Ekp & Hs)]. unfold ProcessSentPacket. rewrite Hi, Er, Eu. cbn [orb]. set (s1 := s <| seq_num_unwrapper_ := _ |>).
  change (history_ s1) with (history_ s). rewrite Hp, Hs. change (IsFinite PlusInfinity) with false. cbv iota.
  set (t := Millis (send_time_ms r)). set (d := pending_untracked_size_ s1).
  set (f := fun y : SentPacket => y <| send_time := t |> <| prior_unacked_data ::= fun z => z + d |>). assert (Hf : keeps_size f) by (intros y; by split).
  set (s2 := _ <| pending_untracked_size_ := 0 |>). set (p2 := p <| sent ::= f |>). cbv zeta.
  set (s3 := if _ >? _ then _ else s2).
  assert (E3 : history_ s3 = update_packet x f (history_ s) /\ rtp_to_transport_sequence_number_ s3 = rtp_to_transport_sequence_number_ s)
    by (unfold s3; by destruct (_ >? _)).
  clearbody s3. destruct E3 as [E3 E4]. set (g := fun y : SentPacket => y <| data_in_flight := GetOutstandingData s3 |>).
  assert (Hg : keeps_size g) by (intros y; by split). cbn [snd]. split.
  - cbn. by rewrite E4.
  - change (find_packet n (update_packet x g (history_ s3)) = Some old). by rewrite find_other, E3, find_other.
  - exists (p2 <| sent ::= g |>). split; [|done]. change (find_packet x (update_packet x g (history_ s3)) = Some (p2 <| sent ::= g |>)).
    apply find_update; [done|]. rewrite E3. by apply find_update.
Qed.

(** Only [AddPacket] gives a key a number again. *)
Definition adds_key (key : Z * Z) (c : AdapterCall) : Prop :=
  match c with CallAddPacket p _ _ _ => (p.(to_send_ssrc), p.(to_send_seq)) = key | _ => False end.
Definition unnamed (key : Z * Z) (s : TransportFeedbackAdapter) : Prop := s.(rtp_to_transport_sequence_number_) !! key = None.
Lemma prune_unnamed t la h m ids h' m' ids' key : prune_history t la h m ids = (h', m', ids') -> ids !! key = None -> ids' !! key = None.
Proof.
  revert m ids. induction h as [|q h IH]; intros m ids; cbn [prune_history]; [by intros [= _ _ <-]|].
  destruct (_ >? _); [|by intros [= _ _ <-]]. intros E Hk. apply (IH _ _ E). by apply lookup_delete_None; right.
Qed.
Lemma retrieve_unnamed key k received s : unnamed key s -> unnamed key (RetrievePacketFeedback k received s).2.
Proof.
  unfold unnamed, RetrievePacketFeedback. intros H. destruct (_ !! k) as [n|]; [|done]. unfold retrieve_seq.
  assert (E : rtp_to_transport_sequence_number_ (acknowledge_up_to n s) = rtp_to_transport_sequence_number_ s) by (unfold acknowledge_up_to; by destruct (_ >? _)).
  set (s1 := acknowledge_up_to n s) in *. clearbody s1. destruct (find_packet _ _) as [q|]; [|cbn; congruence].
  destruct (IsInfinite _); [cbn; congruence|]. destruct received; cbn; rewrite E; [|done]. by apply lookup_delete_None; right.
Qed.
Lemma report_unnamed key t i s : unnamed key s -> unnamed key (take_report t i s).2.
Proof.
  intros H. unfold take_report. pose proof (retrieve_unnamed key (f_ssrc i, f_seq i) (IsFinite (arrival_time_offset i)) s H) as H1.
  destruct (RetrievePacketFeedback _ _ s) as [[p|] s1]; [|done]. cbn [snd] in H1. destruct (IsFinite _), (negb _); done.
Qed.
Lemma reports_unnamed key t l s : unnamed key s -> unnamed key (take_reports t l s).2.
Proof.
  revert s. induction l as [|i l IH]; intros s H; cbn [take_reports]; [done|]. pose proof (report_unnamed key t i s H) as H1.
  destruct (take_report t i s) as [r s1]. specialize (IH s1 H1). destruct (take_reports t l s1) as [[rs b] s2]. by destruct r as [[? ?]|].
Qed.
Lemma call_unnamed `{ResultSort} key c s : ~ adds_key key c -> unnamed key s -> unnamed key (adapter_call c s).
Proof.
  unfold unnamed. intros Hc H1. destruct c as [p i o t|p|r|f t|r]; cbn [adapter_call adds_key] in *.
  - unfold AddPacket. destruct (transport_sequence_number p) as [m|]; [|done]. set (s1 := PruneRecentlyAcknowledgedPackets t s).
    assert (E1 : rtp_to_transport_sequence_number_ s1 = rtp_to_transport_sequence_number_ s)
      by (unfold s1, PruneRecentlyAcknowledgedPackets; by destruct (prune_acknowledged _ _ _)).
    clearbody s1. destruct (Unwrap _ _) as [x u]. destruct (prune_history _ _ _ _ _) as [[h mm] ids] eqn:E. rewrite E1 in E.
    pose proof (prune_unnamed _ _ _ _ _ _ _ _ key E H1) as H2. cbn. destruct (ids !! (to_send_ssrc p, to_send_seq p)); [done|]. by rewrite lookup_insert_ne.
  - unfold RemovePacket. destruct (_ !! (to_send_ssrc p, to_send_seq p)) as [n|]; [|done]. set (s1 := match find_packet n _ with Some _ => _ | None => _ end).
    assert (E1 : rtp_to_transport_sequence_number_ s1 = rtp_to_transport_sequence_number_ s)
      by (unfold s1; destruct (find_packet n _) as [q|]; [by destruct (IsFinite _)|done]).
    cbn. rewrite E1. by apply lookup_delete_None; right.
  - unfold ProcessSentPacket. destruct (_ || _); [|by destruct (included_in_allocation r)]. destruct (Unwrap _ _) as [n u].
    destruct (find_packet n _) as [q|]; [|done]. destruct (IsFinite _); [done|]. cbn. by destruct (_ >? _).
  - unfold ProcessCongestionControlFeedback. set (s1 := PruneRecentlyAcknowledgedPackets t s).
    assert (E1 : rtp_to_transport_sequence_number_ s1 = rtp_to_transport_sequence_number_ s)
      by (unfold s1, PruneRecentlyAcknowledgedPackets; by destruct (prune_acknowledged _ _ _)).
    clearbody s1. destruct (packets_ f) as [|i l]; [cbn; congruence|]. set (s2 := advance_offset _ t s1).
    assert (H2 : unnamed key s2) by (unfold unnamed; cbn; congruence). pose proof (reports_unnamed key t (i :: l) s2 H2) as H3.
    by destruct (take_reports t (i :: l) s2) as [[rs b] s3].
  - done.
Qed.
Lemma unnamed_silent `{ResultSort} key cs received s : Forall (fun c => ~ adds_key key c) cs -> unnamed key s ->
  (RetrievePacketFeedback key received (adapter_calls cs s)).1 = None.
Proof.
  intros Hc Hs. enough (Hu : unnamed key (adapter_calls cs s)) by (unfold RetrievePacketFeedback; by rewrite Hu).
  revert s Hs. induction Hc as [|c cs Hc Hcs IH]; intros s Hs; [done|]. by apply IH, call_unnamed.
Qed.
Lemma retrieved_unnamed n s p s' : retrieve_seq n true s = (Some p, s') -> unnamed (key_of p) s'.
Proof.
  unfold retrieve_seq, unnamed, key_of. destruct (find_packet _ _) as [q|]; [|congruence].
  destruct (IsInfinite _); [congruence|]. intros [= <- <-]. cbn. by rewrite lookup_delete_eq.
Qed.

(** C38: a number that is used again finds the old packet. A packet that was lost is still in the history, the only one there with its SSRC and 16-bit
    number, and at most 60 s old; a later packet with the same SSRC and number, but a transport sequence number of its own, is registered and
    sent. Then the report that the later packet arrived is taken for one of the lost packet: its result carries the old send time; and, whatever
    calls follow, no report on the number finds a packet, the sent one included, until one is added with that SSRC and number again. Within the
    60 s of the history the numbers of a stream come round from 1093 packets a second on. *)
Theorem reused_number_finds_old `{ResultSort} packet info send_size now s old n m : transport_sequence_number packet = Some m ->
  let key := (packet.(to_send_ssrc), packet.(to_send_seq)) in let x := (Unwrap (u16 m) s.(seq_num_unwrapper_)).1 in
  s.(rtp_to_transport_sequence_number_) !! key = Some n -> find_packet n s.(history_) = Some old -> key_of old = key ->
  IsFinite old.(sent).(send_time) = true -> td_sub (Millis now) old.(creation_time) <= kSendTimeHistoryWindow ->
  Forall (fun q => key_of q = key -> seq_of q = n) s.(history_) -> in_order_h s.(history_) -> find_packet x s.(history_) = None ->
  let s1 := RegisterForFeedback packet info send_size now s in
  (exists p, find_packet x s1.(history_) = Some p /\ key_of p = key /\ p.(sent).(send_time) = Millis now)
  /\ let '(r, s2) := RetrievePacketFeedback key true s1 in
     r = Some old
     /\ forall cs received, Forall (fun c => ~ adds_key key c) cs -> (RetrievePacketFeedback key received (adapter_calls cs s2)).1 = None.
Proof.
  intros Em key x Ek Ef Eo Hs Ht Hq Ho Hx s1. assert (Hv : in_u16 (u16 m)) by (unfold in_u16, u16; pose proof (Z.mod_pos_bound m (2 ^ 16)); lia).
  assert (Hsh : shadowed key n x (Millis now) old s1).
  { unfold s1, RegisterForFeedback. rewrite Em. destruct (add_shadows packet info (send_size - to_send_size packet) (Millis now) s old n m) as [Ha Eu]; try done.
    apply (sent_shadows key n x (u16 m) _ old (mkSendReport m now true true send_size)); try done; [intros E; congruence|]. rewrite Eu. unfold x. rewrite Unwrap_twice by done. by destruct (Unwrap _ _). }
  clearbody s1. destruct Hsh as [H1 H2 H3]. split; [exact H3|]. unfold RetrievePacketFeedback at 1. rewrite H1.
  destruct (retrieve_seq n true s1) as [r s2] eqn:ER. assert (Er : r = Some old).
  { revert ER. unfold retrieve_seq.
    assert (E3 : history_ (acknowledge_up_to n s1) = history_ s1) by (unfold acknowledge_up_to; by destruct (_ >? _)).
    rewrite E3, H2. unfold IsFinite in Hs. apply negb_true_iff in Hs. rewrite Hs. congruence. }
  subst r. split; [done|]. intros cs received Hc. apply unnamed_silent; [done|]. rewrite <- Eo. by apply (retrieved_unnamed n s1).
Qed.

(** A packet is lost; 65536 packets later its number comes again, after 30 s; of the packets between, a few. *)
Definition w_reused : PacketToSend := mkToSend (Some 65537) 900 false 1 1.
Definition w_old : TransportFeedbackAdapter :=
  adapter_calls (w_register 1 1000 10 ++ w_register 2 500 11 ++ [w_report [(1, PlusInfinity); (2, 1000)] 50]
    ++ w_register 30000 500 10000 ++ w_register 60000 500 20000 ++ [w_report [(30000, 1000); (60000, 1000)] 20050]) TransportFeedbackAdapter_new.
Definition w_lost : PacketFeedback := default (mkPacketFeedback 0 (mkSent 0 0 0 no_probe false 0 0) NetworkRoute_new 0 0) (find_packet 1 w_old.(history_)).
Lemma reused_number_finds_old_witness : (w_lost.(sent).(send_time), w_lost.(sent).(size)) = (10000, 1028) /\
  let s1 := RegisterForFeedback w_reused no_probe 928 30000 w_old in
  (exists p, find_packet 65537 s1.(history_) = Some p /\ key_of p = (1, 1) /\ p.(sent).(send_time) = 30000000)
  /\ let '(r, s2) := RetrievePacketFeedback (1, 1) true s1 in
     r = Some w_lost
     /\ forall cs received, Forall (fun c => ~ adds_key (1, 1) c) cs -> (RetrievePacketFeedback (1, 1) received (adapter_calls cs s2)).1 = None.
Proof.
  split; [vm_compute; reflexivity|].
  apply (reused_number_finds_old w_reused no_probe 928 30000 w_old w_lost 1 65537); try (vm_compute; reflexivity).
  - vm_compute. congruence.
  - vm_compute. repeat constructor.
  - vm_compute. repeat constructor.
Defined.
(** The same if sending the new packet fails: the old packet is removed, whose bytes the report already took off, and the bytes
    in flight are negative. *)
Definition w_rolled_back : list AdapterCall :=
  [CallAddPacket w_reused no_probe 28 30000000; CallProcessSent (mkSendReport 65537 30000 true true 928); CallRemovePacket w_reused].
Example rollback_takes_old_packet : GetOutstandingData (adapter_calls w_rolled_back w_old) = -100.
Proof. vm_compute. reflexivity. Qed.
